(* ===== verification/_CoqProject ===== *)
-Q . S2P
Prelude.v
Text.v
Codec.v
Format.v
GocobjWrite.v
Dump.v
Elf.v
GocobjRead.v
GocobjRoundtrip.v
Verify.v
PcTab.v
World.v
Regex.v
RegexLines.v
Layout.v
Toolchain.v
LayoutProofs.v
GoParse.v
GoParseProofs.v
ParMove.v
Thunk.v
ThunkProofs.v
Tables.v
GoExtern.v
GoAbi.v
Rewrite.v
RewriteProofs.v
Link.v
ObjWrite.v
ObjNumber.v
Convert.v
Arm64Proofs.v
Data.v
DataProofs.v
Assemble.v
Meta.v
ConvertMain.v
Consts.v
Resolve.v
ResolveProofs.v
Pipeline.v
Compile.v
Cmd.v
Toolexec.v
AssembleProofs.v
Names.v
ObjRead.v
Diff.v
ObjRoundtrip.v
DiffProofs.v
Objdump.v
Goc.v
FuncInfoRoundtrip.v
EndToEnd.v
QjsProcess.v
QjsCli.v
QjsHost.v
Json.v
Sidecar.v
