(* ===== verification/Prelude.v ===== *)
(** * Verification of goc

    goc compiles C for the Go linker.  The command drives clang, LLVM's passes and
    its own tools over each C file: the IR is lowered, LLVM produces an ELF object with
    [.goc.*] sections (a "gocobj"), and the converter turns that into a Go object file
    that [go build] links.  This development models the Go code of the repository:
    the packages lower, gocobj, goobj, convert, gometa, pipeline and toolchain under
    src/internal, the commands src/cmd/goc and src/cmd/goc-gometa, and the Go side of
    the QuickJS command line in src/ports/quickjs/cli, the largest program built with goc.

    ** The parts and how they meet

    - lower: [runGoABI] reads the function headers of the IR, analyses each C
      signature, gives the function an entry thunk that moves the arguments from Go's
      ABIInternal to the C ABI, renames the body to [name.impl] and writes the thunk's
      tables; for declarations annotated with [__go_extern] it writes stubs in the
      other direction.  [FixIR] and the other rewrites edit IR and assembly text.
    - gocobj: [Builder.Sections] writes the records, [WriteAsm] writes them as
      assembler text, [Parse] reads them from an ELF file and [Verify] checks them.
    - gometa: the facts of a Go release; goobj and convert get the parts they read as
      the records [objMeta], [lconf] and [archFacts], which [release_of] projects.
    - convert: builds one Go object from a verified file: it resolves each ELF
      relocation to a Go symbol and offset, emits data, encodes the pc-value tables and
      the stack maps, and hands everything to goobj.  Its command line chooses the
      release and the object header.
    - goobj: the object under construction ([Link]), its symbols and [Flush], the
      writer and the reader of object files and the comparison of two files.
    - pipeline and toolchain: one compile from C to the object, over the processes and
      files of a host; the lowering and the converter run on the files of the work
      directory.
    - cmd/goc: the switches, the commands, the go build hook and objdump.
    - cmd/goc-gometa: reads the source tree of a Go release and writes the facts that
      gometa loads for it.
    - ports/quickjs/cli: [main] evaluates a script with the C engine, and the engine calls
      back into Go for processes, clocks and polling.

    ** Files, in dependency order

    - Prelude: machine integers, byte strings, the result type [res] and its
      monad, tactics, hint databases and shared lemmas.  Text: substrings, splitting
      and decimal numbers.
    - Codec (gocobj/codec.go): the field reader with its sticky error, LEB128, the
      record walk.  Theorems: round trip of any sequence of fields and records,
      truncation is always reported, the walk terminates.
    - Format (gocobj/format.go, abi.go): constants, structs, ABI profiles.
    - GocobjWrite (gocobj/write.go, [Sections]); Dump (gocobj/dump.go and [WriteAsm]:
      what the assembler makes of its directives is the sections); Elf (what debug/elf
      returns); GocobjRead (gocobj/read.go, [Parse], [elfCallRelocs]);
      GocobjRoundtrip: the reader recovers every table the writer wrote.
    - Verify (gocobj/verify.go): the check reports nothing exactly on the files
      that satisfy the declarative invariants [valid].
    - PcTab (convert/pctab.go, and [diffPCValue] of goobj/diff.go): the encoding of
      pc-value tables against the decoder; the de-duplicated stack maps.
    - World: files, processes and paths of the host, as an effect monad with a log of
      the processes it starts.
    - Regex and RegexLines: the part of Go's package regexp the code uses, and
      replacement in whole lines.
    - Layout and LayoutProofs (lower/goabi_layout.go, goargs.go, part of
      goabi_parse.go): struct layout, argument assignment on both sides, results,
      the spill area.
    - Toolchain (toolchain/toolchain.go): where the tools are and the environment they
      run in.
    - GoParse and GoParseProofs (lower/goabi_parse.go): the IR headers that
      [parseFunctions] reads, and that it passes none over.
    - ParMove (the four parallel-move functions of lower/goabi_x86.go and
      goabi_a64.go): one algorithm, correct for each register file.
    - Thunk and ThunkProofs (goabi_x86.go, goabi_a64.go): the text of the thunks,
      and the execution of their argument and result moves on a machine given by
      the class [Machine], with an instance for each architecture.
    - Tables ([emitWrapperTables] of lower/goabi.go): the tables describe the code:
      the GC bitmaps mark the pointer words, the SP_DELTA entries are the depths
      found by walking the emitted text.
    - GoExtern (lower/go_extern.go): annotations, stubs and their tables.
    - GoAbi ([replaceAtName], [runGoABI] of lower/goabi.go): the pass.  Json and Sidecar:
      the encoder of [marshalIndent] and the bytes of goabi.json, which are read back; they
      are what the parameter [goabi_json] of the pipeline stands for.
    - Rewrite and RewriteProofs (lower/rewrite.go): the edits of IR and assembly.
    - Link (goobj/link.go, dwarf.go): symbols as indices into a store, because the
      source shares pointers; the invariant of every object the converter can
      build; [Flush].
    - ObjWrite and ObjNumber (goobj/write.go): the traversal, the symbol numbers and
      the blocks of the file; every number points at its symbol.
    - Convert (convert/convert.go, relocmap.go, arm64.go, the amd64 text relocation
      loop of write.go): names, addresses, relocations, GOT slots.  Arm64Proofs: which
      relocations and which bits of the code the arm64 loop produces.
    - Data and DataProofs (convert/data.go): globals, sections, jump tables.
    - Assemble and AssembleProofs (convert/write.go): the whole conversion; each
      function's symbol gets its code, relocations and tables and keeps them.
    - Names: the symbol kinds and relocation types that a converted object asks a
      release for, against what the check of a release covers.
    - Meta (gometa/meta.go): the record of a release, its choice and its check.
    - ConvertMain (convert/main_cli.go, header.go): the converter's command line.
    - Consts (goc-gometa/consts.go): the constants of a Go file, with the values that the
      language gives them ([go_value]).  Resolve (goc-gometa/main.go, reviewed.go): the
      facts of a source tree and the command; [rs] is its effect, messages that are
      collected and an exit.  ResolveProofs: what is written passes the converter's
      check, comes from reviewed functions only, and has Go's values in its tables.
    - Pipeline (pipeline/pipeline.go): the stages of a build against the interface
      [Converter]; Compile: the converter's command line is its instance, and what a
      build that succeeds leaves.
    - Cmd (cmd/goc/flags.go and argument loops), Toolexec (cmd/goc/toolexec.go),
      Objdump (cmd/goc/objdump.go), Goc (cmd/goc/main.go, gocmd.go).
    - ObjRead (goobj/read.go), ObjRoundtrip, FuncInfoRoundtrip: the reader recovers what
      the writer wrote.  Diff (goobj/diff.go) and DiffProofs: the comparison reads a
      written file without a panic and reports exactly the differences.
    - EndToEnd: from a gocobj to what the Go linker reads in the object file.
    - QjsProcess (cli/std_os.go): child processes, with the goroutines that start, wait for
      and reap them as a step relation; what the waits answer under every interleaving, and
      that every call returns.  QjsCli (cli/main.go): the arguments and the life of the
      engine's values, against the rules of its interface and with the termination of the
      job loop.  QjsHost (cli/main.go, worker.go): clocks, local time, sleep and poll.

    ** Conventions

    A Go integer is a [Z]; wrap-around is written out ([u64], [s64], ...) where the
    code computes on machine words whose range is not bounded by the data (the
    sums of [Verify] and [Parse], LEB128 shifts, instruction words); a slice or
    string of bytes is a list of [Z] in the file format code and a [string] in the
    code that handles text.  A function that returns an error is a [res]; a panic
    is an error value of its own ([ErrPanic], [Panic], [None] in the object reader), so
    that a theorem can say it does not happen.  A Go map is a [gmap]; where the source
    ranges over a map without sorting, the order is an argument.

    ** Fuel

    [records_go] gets the section's length, and each turn consumes at least one
    byte (lemma [records_fuel_enough]).  LEB128 decoding is structural on the
    bytes; the encoders get the ten turns that 64 bits need.  [moves_go] gets two
    turns per pending move and one more: a turn emits a move or breaks a cycle,
    and no two turns in a row break one ([parallel_correct] says it returns a
    sequence).  The regular-expression matcher is structural on the pattern; a
    repetition gets one turn per character that is left, and it stops when a turn
    matches nothing, as Go's does.  [find_all_go] gets the length of the text and moves
    on by a character each turn.  The binary search [search_go] gets one turn per
    element, [pad_go] one per missing byte, [pieces] and [first_reloc] one per element
    of the lists they walk.  [drain] and [jobs] of QjsCli get one turn per job or message;
    [run_returns] says that some fuel is enough when the engine stops queueing them.

    ** Not modelled

    Parameters, because the code is not in this repository: debug/elf (its result is an
    [efile]), encoding/json (except what writes goabi.json), the hash functions, the processes clang, opt, llvm-mc, ld
    and go, and goc-llc, which is the C++ code of the LLVM patches; go/parser and
    go/printer, whose trees goc-gometa walks.
    Left out: what the commands print (a command is its exit status and its effect,
    with the text where a theorem is about it), the panics of [Reloc] and [Kind] of
    gometa, which the callers meet as errors of the writer, the release tables
    themselves, the floating-point functions that qjscli hands to libm, and the other
    programs under ports, examples and test, which are benchmarks and tests.  The C engine
    of QuickJS is a record of operations that may answer anything.

    ** Behaviour worth knowing

    Some examples record corner cases of the code: 64-bit sums that wrap
    ([Verify_wraps], [add_symbol_panics]), stack map indices that start between two
    arm64 instructions ([pcbytes_arm64_gap]), stubs whose stores read a register
    that a load has overwritten ([stub_clobbers]) or that do not assemble
    ([stub_does_not_assemble]), a GOT slot that is asked for with two addends
    ([gotSlot_second_addend]), the unit tag, which keeps the file's extension
    ([tuTag_keeps_extension]), a variable that stands twice in the environment
    ([Env_keeps_order]), the object a failed build leaves ([object_stays]), the
    line [goc go] prints, which leaves out --abi0 ([String_omits_abi0]), relocation types
    that the check of a release does not ask for ([pairs_unchecked]), and constants
    whose value goc-gometa does not get as Go does: the complement of a conversion
    ([complement_of_conversion]) and what is computed from the upper half of uint64
    ([high_half_shifts]).  In qjscli: a child whose pid is used again before the script waits
    for it ([pid_reused_loses_child], [start_deletes_other]) and a script named like the
    mark of -e ([eval_named_file]). *)

From Stdlib Require Import ZArith Lia.
From stdpp Require Import base list strings gmap pretty.

#[global] Open Scope Z_scope.

(** ** Machine integers

    A Go unsigned integer of [w] bits is a [Z] in [0, 2^w); the conversions
    below are the wrap-around of Go's arithmetic and of its conversions. *)

Definition wrap (w z : Z) : Z := z mod 2 ^ w.
Definition swrap (w z : Z) : Z := (z + 2 ^ (w - 1)) mod 2 ^ w - 2 ^ (w - 1).

Definition u8 (z : Z) : Z := wrap 8 z.
Definition u16 (z : Z) : Z := wrap 16 z.
Definition u32 (z : Z) : Z := wrap 32 z.
Definition u64 (z : Z) : Z := wrap 64 z.
Definition s32 (z : Z) : Z := swrap 32 z.
Definition s64 (z : Z) : Z := swrap 64 z.

Definition is_u8 (z : Z) : Prop := 0 <= z < 2 ^ 8.
Definition is_u16 (z : Z) : Prop := 0 <= z < 2 ^ 16.
Definition is_u32 (z : Z) : Prop := 0 <= z < 2 ^ 32.
Definition is_u64 (z : Z) : Prop := 0 <= z < 2 ^ 64.
Definition is_s64 (z : Z) : Prop := - 2 ^ 63 <= z < 2 ^ 63.

(** [len(x)] of a Go slice or string, as the [int] the code compares. *)
Definition zlen {A} (l : list A) : Z := Z.of_nat (length l).

(** ** Strings and bytes

    A Go string is a sequence of bytes; a byte is a [Z] in [0, 256). *)

Definition byte_of_ascii (c : Ascii.ascii) : Z := Z.of_N (Ascii.N_of_ascii c).
Definition ascii_of_byte (b : Z) : Ascii.ascii := Ascii.ascii_of_N (Z.to_N b).

Fixpoint bytes_of_string (s : string) : list Z :=
  match s with
  | EmptyString => []
  | String c s => byte_of_ascii c :: bytes_of_string s
  end.

Fixpoint string_of_bytes (l : list Z) : string :=
  match l with
  | [] => EmptyString
  | b :: l => String (ascii_of_byte b) (string_of_bytes l)
  end.

(** Decimal rendering of an integer, [%d] of package fmt. *)
Definition dec (z : Z) : string := pretty z.

(** The order of [sort.Strings]. *)
Definition str_le (a b : string) : Prop := String.leb a b = true.
#[export] Instance str_le_dec a b : Decision (str_le a b) := decide (String.leb a b = true).

(** [strings.Join(l, sep)] *)
Fixpoint join (sep : string) (l : list string) : string :=
  match l with
  | [] => ""
  | [s] => s
  | s :: l => s +:+ sep +:+ join sep l
  end.

(** ** Little-endian fields (package encoding/binary) *)

Fixpoint le_bytes (n : nat) (z : Z) : list Z :=
  match n with
  | O => []
  | S n => u8 z :: le_bytes n (Z.shiftr z 8)
  end.

Fixpoint le_value (l : list Z) : Z :=
  match l with
  | [] => 0
  | b :: l => b + 256 * le_value l
  end.

(** ** Results

    A function that returns [(value, error)] is modelled by [res]: a Go caller
    never uses the value when the error is set. *)

Inductive res (E A : Type) :=
| Ok (a : A)
| Fail (e : E).
Arguments Ok {E A}.
Arguments Fail {E A}.

#[export] Instance res_ret E : MRet (res E) := fun A x => Ok x.
#[export] Instance res_bind E : MBind (res E) := fun A B k m =>
  match m with Ok x => k x | Fail e => Fail e end.

(** A loop whose body may fail. *)
Fixpoint rfold {E S A} (f : S -> A -> res E S) (s : S) (l : list A) : res E S :=
  match l with [] => Ok s | x :: l => s ← f s x; rfold f s l end.

(** [b[lo:hi]]: [None] is the panic when the bounds are not in order or past the
    end of a slice without spare capacity. *)
Definition slice_ (b : list Z) (lo hi : Z) : option (list Z) :=
  if (0 <=? lo) && (lo <=? hi) && (hi <=? zlen b) then Some (take (Z.to_nat (hi - lo)) (drop (Z.to_nat lo) b)) else None.

(** ** State

    Code that reads and updates a store takes and returns it explicitly. *)

Definition st (S A : Type) : Type := S -> A * S.

#[export] Instance st_ret S : MRet (st S) := fun A x s => (x, s).
#[export] Instance st_bind S : MBind (st S) := fun A B k m s => let '(x, s') := m s in k x s'.

(** A loop over a slice that carries an accumulator through stateful code. *)
Fixpoint st_fold {S A B} (f : A -> B -> st S A) (a : A) (l : list B) : st S A :=
  match l with
  | [] => mret a
  | x :: l => a' ← f a x; st_fold f a' l
  end.

(** ** Automation

    [goc] collects the rewriting lemmas of the whole development; [zarith] closes
    a goal on machine integers after unfolding the range predicates and the powers
    of two that occur as constants. *)

Create HintDb goc.

Ltac pow2 :=
  change (2 ^ 7) with 128 in *; change (2 ^ 8) with 256 in *;
  change (2 ^ 16) with 65536 in *; change (2 ^ 32) with 4294967296 in *;
  change (2 ^ 63) with 9223372036854775808 in *;
  change (2 ^ 64) with 18446744073709551616 in *.

Ltac zrange :=
  unfold is_u8, is_u16, is_u32, is_u64, is_s64, zlen in *; pow2.

Ltac zarith := zrange; first [ lia | Z.to_euclidean_division_equations; lia | nia ].

(** Case analysis on the first boolean comparison or [match] of the goal. *)
Ltac case_bool :=
  match goal with
  | |- context [if ?b then _ else _] => destruct b eqn:?
  end.

(** Boolean comparisons of hypotheses and goal as propositions. *)
Ltac bool_simp :=
  repeat match goal with
  | H : (_ && _) = true |- _ => apply andb_prop in H as [? ?]
  | H : (_ || _) = false |- _ => apply orb_false_elim in H as [? ?]
  | H : negb _ = true |- _ => apply negb_true_iff in H
  | H : negb _ = false |- _ => apply negb_false_iff in H
  | H : (_ =? _) = true |- _ => apply Z.eqb_eq in H
  | H : (_ =? _) = false |- _ => apply Z.eqb_neq in H
  | H : (_ <? _) = true |- _ => apply Z.ltb_lt in H
  | H : (_ <? _) = false |- _ => apply Z.ltb_ge in H
  | H : (_ <=? _) = true |- _ => apply Z.leb_le in H
  | H : (_ <=? _) = false |- _ => apply Z.leb_gt in H
  end.

(** ** Lemmas on machine integers *)

Lemma wrap_small w z : 0 <= z < 2 ^ w -> wrap w z = z.
Proof. apply Z.mod_small. Qed.

Lemma wrap_range w z : 0 <= w -> 0 <= wrap w z < 2 ^ w.
Proof. intros. apply Z.mod_pos_bound. lia. Qed.

Lemma swrap_small w z : - 2 ^ (w - 1) <= z < 2 ^ (w - 1) -> 0 < w -> swrap w z = z.
Proof.
  intros H Hw. unfold swrap.
  assert (2 ^ w = 2 * 2 ^ (w - 1)) by (rewrite <-Z.pow_succ_r by lia; f_equal; lia).
  rewrite Z.mod_small; lia.
Qed.

Lemma u8_small z : is_u8 z -> u8 z = z.
Proof. apply wrap_small. Qed.
Lemma u16_small z : is_u16 z -> u16 z = z.
Proof. apply wrap_small. Qed.
Lemma u32_small z : is_u32 z -> u32 z = z.
Proof. apply wrap_small. Qed.
Lemma u64_small z : is_u64 z -> u64 z = z.
Proof. apply wrap_small. Qed.
Lemma s64_small z : is_s64 z -> s64 z = z.
Proof. intros. apply swrap_small; [exact H | lia]. Qed.
Lemma u8_range z : is_u8 (u8 z).
Proof. apply wrap_range. lia. Qed.
Lemma u64_range z : is_u64 (u64 z).
Proof. apply wrap_range. lia. Qed.
#[export] Hint Resolve u8_range u64_range : goc.

Lemma s64_range z : is_s64 (s64 z).
Proof.
  unfold s64, swrap, is_s64.
  pose proof (Z.mod_pos_bound (z + 2 ^ (64 - 1)) (2 ^ 64)). change (64 - 1) with 63 in *.
  pow2. lia.
Qed.

Lemma s64_eq z : exists k, s64 z = z + k * 2 ^ 64.
Proof.
  exists (- ((z + 2 ^ 63) / 2 ^ 64)). unfold s64, swrap. change (64 - 1) with 63.
  pose proof (Z.div_mod (z + 2 ^ 63) (2 ^ 64)). lia.
Qed.

Lemma s64_sub_zero a b : is_s64 a -> is_s64 b -> s64 (a - b) = 0 -> a = b.
Proof. intros Ha Hb. destruct (s64_eq (a - b)) as [k ->]. zrange. lia. Qed.

Lemma s64_add_sub a b : is_s64 a -> is_s64 b -> s64 (b + s64 (a - b)) = a.
Proof.
  intros Ha Hb. pose proof (s64_range (b + s64 (a - b))) as Hr.
  destruct (s64_eq (b + s64 (a - b))) as [k Hk]. destruct (s64_eq (a - b)) as [k' Hk'].
  rewrite Hk in *. rewrite Hk' in *. zrange. lia.
Qed.

(** Bit operations on disjoint fields are additions. *)
Lemma lor_shiftl a b s : 0 <= s -> 0 <= a < 2 ^ s -> Z.lor a (Z.shiftl b s) = a + b * 2 ^ s.
Proof.
  intros Hs Ha. rewrite <-Z.shiftl_mul_pow2 by lia. rewrite Z.add_nocarry_lxor.
  - symmetry. apply Z.bits_inj'. intros n Hn. rewrite Z.lxor_spec, Z.lor_spec.
    rewrite Z.shiftl_spec by lia. destruct (Z.ltb_spec n s).
    + rewrite (Z.testbit_neg_r b) by lia. by rewrite xorb_false_r, orb_false_r.
    + by rewrite <-(Z.mod_small a (2 ^ s)), Z.mod_pow2_bits_high by lia.
  - apply Z.bits_inj'. intros n Hn. rewrite Z.land_spec, Z.bits_0.
    rewrite Z.shiftl_spec by lia. destruct (Z.ltb_spec n s).
    + by rewrite (Z.testbit_neg_r b), andb_false_r by lia.
    + by rewrite <-(Z.mod_small a (2 ^ s)), Z.mod_pow2_bits_high by lia.
Qed.

Lemma land_127 z : Z.land z 127 = z mod 128.
Proof. exact (Z.land_ones z 7 ltac:(lia)). Qed.

Lemma shiftr_7 z : Z.shiftr z 7 = z / 128.
Proof. exact (Z.shiftr_div_pow2 z 7 ltac:(lia)). Qed.

(** A property of bytes decided by evaluation on the 256 of them. *)
Lemma byte_forall (P : Z -> bool) :
  forallb P (Z.of_nat <$> seq 0 256) = true -> forall c, 0 <= c < 256 -> P c = true.
Proof.
  intros H c Hc. rewrite forallb_forall in H. apply H.
  rewrite <-list_elem_of_In. apply list_elem_of_fmap. exists (Z.to_nat c).
  split; [lia | apply list_elem_of_In, in_seq; lia].
Qed.

Lemma byte_lor_128 c : 0 <= c < 128 -> Z.lor c 128 = c + 128.
Proof. intros. exact (lor_shiftl c 1 7 ltac:(lia) ltac:(lia)). Qed.

Lemma u8_lor_128 v : Z.lor (u8 v) 128 = v mod 128 + 128.
Proof.
  rewrite <-byte_lor_128 by (pose proof (Z.mod_pos_bound v 128); lia).
  unfold u8, wrap. change (v mod 128) with (v mod 2 ^ 7).
  apply Z.bits_inj'. intros n Hn. rewrite !Z.lor_spec. destruct (Z.ltb_spec n 7).
  - by rewrite !Z.mod_pow2_bits_low by lia.
  - rewrite (Z.mod_pow2_bits_high _ 7) by lia. destruct (Z.eq_dec n 7) as [->|].
    + by rewrite !orb_true_r.
    + by rewrite Z.mod_pow2_bits_high by lia.
Qed.

Lemma byte_land_128 c : 0 <= c < 256 -> (Z.land c 128 =? 0) = (c <? 128).
Proof.
  intros H. apply eqb_prop.
  by apply (byte_forall (fun c => Bool.eqb (Z.land c 128 =? 0) (c <? 128))).
Qed.

Lemma byte_land_64 c : 0 <= c < 128 -> (Z.land c 64 =? 0) = (c <? 64).
Proof.
  intros H. assert (Bool.eqb (Z.land c 64 =? 0) (c <? 64) || (128 <=? c) = true) as Hc.
  { by apply (byte_forall
      (fun c => Bool.eqb (Z.land c 64 =? 0) (c <? 64) || (128 <=? c))); [| lia]. }
  apply orb_prop in Hc as [Hc | Hc]; [by apply eqb_prop | lia].
Qed.

(** ** Lemmas on lists, strings and fields *)

Lemma zlen_nil {A} : zlen (@nil A) = 0.
Proof. done. Qed.
Lemma zlen_cons {A} (x : A) l : zlen (x :: l) = 1 + zlen l.
Proof. unfold zlen. simpl length. lia. Qed.
Lemma zlen_app {A} (l k : list A) : zlen (l ++ k) = zlen l + zlen k.
Proof. unfold zlen. rewrite length_app. lia. Qed.
Lemma zlen_nonneg {A} (l : list A) : 0 <= zlen l.
Proof. unfold zlen. lia. Qed.
#[export] Hint Rewrite @zlen_nil @zlen_cons @zlen_app : goc.
#[export] Hint Resolve zlen_nonneg : goc.

Lemma drop_zlen_app {A} (l k : list A) : drop (Z.to_nat (zlen l)) (l ++ k) = k.
Proof. unfold zlen. rewrite Nat2Z.id. apply drop_app_length. Qed.

Lemma take_zlen_app {A} (l k : list A) : take (Z.to_nat (zlen l)) (l ++ k) = l.
Proof. unfold zlen. rewrite Nat2Z.id. apply take_app_length. Qed.

Lemma byte_of_ascii_range c : 0 <= byte_of_ascii c < 256.
Proof. unfold byte_of_ascii. pose proof (Ascii.N_ascii_bounded c). lia. Qed.

Lemma ascii_of_byte_of_ascii c : ascii_of_byte (byte_of_ascii c) = c.
Proof. unfold ascii_of_byte, byte_of_ascii. rewrite N2Z.id. apply Ascii.ascii_N_embedding. Qed.

Lemma string_of_bytes_of_string s : string_of_bytes (bytes_of_string s) = s.
Proof. induction s as [|c s IH]; simpl; [done | by rewrite ascii_of_byte_of_ascii, IH]. Qed.

Lemma bytes_of_string_inj s t : bytes_of_string s = bytes_of_string t -> s = t.
Proof. intros H. by rewrite <-(string_of_bytes_of_string s), H, string_of_bytes_of_string. Qed.

Lemma bytes_of_string_range s : Forall is_u8 (bytes_of_string s).
Proof. induction s; simpl; constructor; [apply byte_of_ascii_range | done]. Qed.

Lemma length_le_bytes n z : length (le_bytes n z) = n.
Proof. revert z. induction n; intros; simpl; [done | by rewrite IHn]. Qed.

Lemma le_value_le_bytes n z : le_value (le_bytes n z) = z mod 2 ^ (8 * Z.of_nat n).
Proof.
  revert z. induction n as [|n IH]; intros z.
  - simpl. symmetry. apply Z.mod_1_r.
  - cbn [le_bytes le_value]. rewrite IH, Z.shiftr_div_pow2 by lia.
    replace (8 * Z.of_nat (S n)) with (8 + 8 * Z.of_nat n) by lia.
    rewrite Z.pow_add_r by lia. unfold u8, wrap. 
    change (2 ^ 8) with 256 in *. rewrite Z.rem_mul_r; lia.
Qed.

(** Adds [0 <= zlen l] for every length in sight. *)
Ltac zpos :=
  repeat match goal with
  | H : context [zlen ?l] |- _ =>
      lazymatch goal with _ : 0 <= zlen l |- _ => fail | _ => pose proof (zlen_nonneg l) end
  | |- context [zlen ?l] =>
      lazymatch goal with _ : 0 <= zlen l |- _ => fail | _ => pose proof (zlen_nonneg l) end
  end.

(** Success of a loop, by its body. *)
Lemma rfold_ind {E S A} (P : S -> Prop) (f : S -> A -> res E S) l :
  (forall s x s', x ∈ l -> P s -> f s x = Ok s' -> P s') -> forall s s', P s -> rfold f s l = Ok s' -> P s'.
Proof.
  induction l as [|x l IH]; intros Hf s s' Hs H; [by injection H as <-|]. cbn [rfold] in H.
  destruct (f s x) as [s1|] eqn:E1; [|done]. cbn [mbind res_bind] in H.
  eapply IH; [| | exact H]; [intros ? ? ? Hin; apply Hf; by right | by eapply Hf; [left | |]].
Qed.

Lemma rfold_app {E S A} (f : S -> A -> res E S) l1 l2 s : rfold f s (l1 ++ l2) = s' ← rfold f s l1; rfold f s' l2.
Proof.
  revert s. induction l1 as [|x l1 IH]; intros s; [done|]. cbn [app rfold]. destruct (f s x); [|done]. cbn [mbind res_bind].
  apply IH.
Qed.

(** ** Concatenation of strings *)

Lemma string_app_assoc (a b c : string) : (a +:+ b) +:+ c = a +:+ b +:+ c.
Proof. induction a as [|x a IH]; [done|]. unfold String.append; fold String.append. by rewrite IH. Qed.

Lemma string_app_nil (a : string) : a +:+ "" = a.
Proof. induction a as [|x a IH]; [done|]. unfold String.append; fold String.append. by rewrite IH. Qed.

Lemma string_length_app (a b : string) : String.length (a +:+ b) = (String.length a + String.length b)%nat.
Proof. induction a as [|x a IH]; [done|]. change (String x a +:+ b) with (String x (a +:+ b)). cbn [String.length]. by rewrite IH. Qed.

(** A step that must have succeeded. *)
Ltac ok_step E x :=
  lazymatch type of E with
  | (?f ≫= _) = Ok _ => let H := fresh "E" x in destruct f as [x|] eqn:H; [cbn [mbind res_bind] in E | done]
  end.

Lemma app_nil_iff {A} (l k : list A) : l ++ k = [] <-> l = [] /\ k = [].
Proof. split; [apply app_eq_nil | by intros [-> ->]]. Qed.
