(* ===== verification/Text.v ===== *)
(** * Texts

    Shared facts on strings: substrings, characters of a class, splitting at a
    character that one side lacks, and the decimal rendering of integers. *)

From Stdlib Require Import ZArith Lia Ascii.
From stdpp Require Import base list strings gmap pretty.
From S2P Require Import Prelude.

(** ** Characters *)

Definition code_in (lo hi : Z) (c : ascii) : bool := let n := byte_of_ascii c in (lo <=? n) && (n <=? hi).

(** [[0-9]] *)
Definition re_digit (c : ascii) : bool := code_in 48 57 c.

(** Every character of [w] is in the class. *)
Fixpoint all_in (f : ascii -> bool) (w : string) : bool := match w with String a w => f a && all_in f w | EmptyString => true end.

Lemma all_in_app f (a b : string) : all_in f (a +:+ b) = all_in f a && all_in f b.
Proof. induction a as [|x a IH]; [done|]. change (String x a +:+ b) with (String x (a +:+ b)). cbn [all_in]. by rewrite IH, andb_assoc. Qed.

Lemma app_same_length (a a' : string) : forall s s', a +:+ s = a' +:+ s' -> String.length a = String.length a' -> a = a'.
Proof.
  revert a'. induction a as [|x a IH]; intros [|y a'] s s' E L; try done. change (String x (a +:+ s) = String y (a' +:+ s')) in E.
  injection E as -> E. injection L as L. f_equal. by eapply IH.
Qed.

(** Two ways to end a string with equally many characters are the same. *)
Lemma app_same_suffix (a b s t : string) : a +:+ s = b +:+ t -> String.length s = String.length t -> a = b /\ s = t.
Proof.
  intros E L. assert (String.length a = String.length b) as La.
  { apply (f_equal String.length) in E. rewrite !string_length_app in E. lia. }
  pose proof (app_same_length _ _ _ _ E La) as ->. split; [done|]. clear L La. induction b as [|x b IH]; [done|].
  change (String x (b +:+ s) = String x (b +:+ t)) in E. injection E. exact IH.
Qed.

Lemma string_app_inj (a s t : string) : a +:+ s = a +:+ t -> s = t.
Proof. induction a as [|x a IH]; [done|]. change (String x (a +:+ s) = String x (a +:+ t) -> s = t). intros [=]. auto. Qed.

Lemma snoc_case a : a = "" \/ exists a' c, a = a' +:+ String c "".
Proof.
  induction a as [|x a IH]; [by left|]. right. destruct IH as [->|(a' & c & ->)]; [by exists "", x | by exists (String x a'), c].
Qed.

(** ** Substrings *)

(** [strings.Contains] *)
Fixpoint contains (sub s : string) : bool :=
  String.prefix sub s || match s with String _ s => contains sub s | EmptyString => false end.

(** The rest of [s] after the prefix [p], if it has it ([strings.CutPrefix]). *)
Fixpoint after_prefix (p s : string) : option string :=
  match p, s with
  | EmptyString, _ => Some s
  | String a p, String b s => if Ascii.eqb a b then after_prefix p s else None
  | String _ _, EmptyString => None
  end.

Lemma after_prefix_app p s : after_prefix p (p +:+ s) = Some s.
Proof. induction p as [|c p IH]; [done|]. simpl. by rewrite Ascii.eqb_refl. Qed.

Lemma after_prefix_Some p : forall s t, after_prefix p s = Some t -> s = p +:+ t.
Proof.
  induction p as [|c p IH]; intros s t; simpl; [by intros [= ->]|]. destruct s as [|d s]; [done|].
  destruct (Ascii.eqb_spec c d) as [->|]; [|done]. intros H%IH. by subst.
Qed.

Lemma prefix_app p s : String.prefix p (p +:+ s) = true.
Proof. induction p as [|c p IH]; [by destruct s|]. change (String c p +:+ s) with (String c (p +:+ s)). cbn. by destruct (ascii_dec c c). Qed.

Lemma prefix_split p : forall s, String.prefix p s = true -> exists t, s = p +:+ t.
Proof.
  induction p as [|c p IH]; intros s H; [by exists s|]. destruct s as [|d s]; [done|]. cbn in H. destruct (ascii_dec c d) as [->|]; [|done].
  destruct (IH s H) as [t ->]. by exists t.
Qed.

Lemma contains_iff sub s : contains sub s = true <-> exists a b, s = a +:+ sub +:+ b.
Proof.
  split.
  - induction s as [|c s IH]; cbn [contains]; intros H; apply orb_true_iff in H as [H|H]; try done.
    + apply prefix_split in H as [t E]. by exists "", t.
    + apply prefix_split in H as [t E]. by exists "", t.
    + destruct (IH H) as (a & b & ->). by exists (String c a), b.
  - intros (a & b & ->). induction a as [|c a IH].
    + change ("" +:+ ?x) with x. destruct (sub +:+ b) eqn:E; cbn [contains]; rewrite <-E, prefix_app; done.
    + change (String c a +:+ ?x) with (String c (a +:+ x)). cbn [contains]. by rewrite IH, orb_true_r.
Qed.

Lemma contains_app sub a s b : contains sub s = true -> contains sub (a +:+ s +:+ b) = true.
Proof.
  intros (x & y & ->)%contains_iff. apply contains_iff. exists (a +:+ x), (y +:+ b). by rewrite !string_app_assoc.
Qed.

(** A text without the character [d] does not lie across it. *)
Definition lacks (d : ascii) (s : string) : bool := all_in (fun c => negb (Ascii.eqb d c)) s.

Lemma before_char d sub : forall y a b, lacks d sub = true -> sub +:+ y = a +:+ String d b -> exists z, a = sub +:+ z.
Proof.
  induction sub as [|c sub IH]; intros y a b Hd E; [by exists a|]. unfold lacks in Hd. cbn [all_in] in Hd. apply andb_true_iff in Hd as [Hc Hd].
  change (String c (sub +:+ y) = a +:+ String d b) in E. destruct a as [|e a].
  - injection E as -> _. by rewrite Ascii.eqb_refl in Hc.
  - change (String c (sub +:+ y) = String e (a +:+ String d b)) in E. injection E as -> E. destruct (IH y a b Hd E) as [z ->]. by exists z.
Qed.

Lemma contains_around d sub a b : lacks d sub = true -> contains sub (a +:+ String d b) = true ->
  contains sub a = true \/ contains sub b = true.
Proof.
  intros Hd (x & y & E)%contains_iff. revert x E. induction a as [|c a IH]; intros x E.
  - destruct x as [|e x].
    + destruct sub as [|e sub]; [left; done|]. change (String d b = String e (sub +:+ y)) in E. injection E as -> _.
      unfold lacks in Hd. cbn in Hd. by rewrite Ascii.eqb_refl in Hd.
    + change (String d b = String e (x +:+ sub +:+ y)) in E. injection E as -> ->. right. apply contains_iff. by eexists _, _.
  - destruct x as [|e x].
    + left. destruct (before_char d sub y (String c a) b Hd) as [z ->]; [by symmetry|]. apply contains_iff. by exists "", z.
    + change (String c (a +:+ String d b) = String e (x +:+ sub +:+ y)) in E. injection E as -> E. destruct (IH x E) as [H|H]; [left | by right].
      cbn [contains]. by rewrite H, orb_true_r.
Qed.

(** ** Splitting *)

Lemma lacks_first d a : forall a' s s', lacks d a = true -> lacks d a' = true -> a +:+ String d s = a' +:+ String d s' -> a = a' /\ s = s'.
Proof.
  induction a as [|c a IH]; intros [|c' a'] s s' Ha Ha' E.
  - by injection E as ->.
  - injection E as <- _. unfold lacks in Ha'. cbn [all_in] in Ha'. by rewrite Ascii.eqb_refl in Ha'.
  - injection E as -> _. unfold lacks in Ha. cbn [all_in] in Ha. by rewrite Ascii.eqb_refl in Ha.
  - change (String c (a +:+ String d s) = String c' (a' +:+ String d s')) in E. injection E as -> E. unfold lacks in Ha, Ha'. cbn [all_in] in Ha, Ha'.
    apply andb_true_iff in Ha as [_ Ha], Ha' as [_ Ha']. by destruct (IH a' s s' Ha Ha' E) as [-> ->].
Qed.

(** [strings.Split(s, d)] for one character *)
Fixpoint split_on (d : ascii) (s : string) : list string :=
  match s with
  | EmptyString => [""]
  | String c s =>
      if Ascii.eqb c d then "" :: split_on d s
      else match split_on d s with x :: l => String c x :: l | [] => [String c ""] end
  end.

Lemma split_on_app d a b : lacks d a = true -> split_on d (a +:+ String d b) = a :: split_on d b.
Proof.
  induction a as [|c a IH]; intros H; [change ("" +:+ String d b) with (String d b); cbn [split_on]; by rewrite Ascii.eqb_refl|]. unfold lacks in H. cbn [all_in] in H. apply andb_true_iff in H as [Hc Ha].
  change (String c a +:+ String d b) with (String c (a +:+ String d b)). cbn [split_on]. rewrite Ascii.eqb_sym in Hc. apply negb_true_iff in Hc. by rewrite Hc, IH.
Qed.

Lemma split_on_lacks d a : lacks d a = true -> split_on d a = [a].
Proof.
  induction a as [|c a IH]; intros H; [done|]. unfold lacks in H. cbn [all_in] in H. apply andb_true_iff in H as [Hc Ha].
  cbn [split_on]. rewrite Ascii.eqb_sym in Hc. apply negb_true_iff in Hc. by rewrite Hc, IH.
Qed.

Lemma split_on_join d l : l <> [] -> Forall (fun a => lacks d a = true) l -> split_on d (join (String d "") l) = l.
Proof.
  induction l as [|a l IH]; intros Hne H; [done|]. inversion H as [|?? Ha Hl]; subst. destruct l as [|b l]; [by apply split_on_lacks|].
  change (join (String d "") (a :: b :: l)) with (a +:+ String d (join (String d "") (b :: l))). rewrite split_on_app by done. f_equal. by apply IH.
Qed.

Lemma split_on_pieces d s : Forall (fun a => lacks d a = true) (split_on d s) /\ split_on d s <> [].
Proof.
  induction s as [|c s [IH Hne]]; [by repeat constructor|]. cbn [split_on]. destruct (Ascii.eqb_spec c d) as [->|Hc]; [by repeat constructor|].
  destruct (split_on d s) as [|x l]; [done|]. split; [|done]. inversion IH as [|?? Hx Hl]; subst. constructor; [|done].
  unfold lacks. cbn [all_in]. rewrite (proj2 (Ascii.eqb_neq d c)) by congruence. exact Hx.
Qed.

Lemma split_on_snoc d a b : split_on d (a +:+ String d b) = split_on d a ++ split_on d b.
Proof.
  induction a as [|c a IH]; [change ("" +:+ String d b) with (String d b); cbn [split_on]; by rewrite Ascii.eqb_refl|].
  change (String c a +:+ String d b) with (String c (a +:+ String d b)). cbn [split_on]. rewrite IH. destruct (Ascii.eqb c d); [done|].
  destruct (split_on_pieces d a) as [_ Hne]. by destruct (split_on d a).
Qed.

Lemma lacks_mid d a s : lacks d (a +:+ String d s) = false.
Proof. unfold lacks. rewrite all_in_app. cbn [all_in]. rewrite Ascii.eqb_refl. by rewrite andb_false_r. Qed.

Lemma lacks_last d a : forall a' s s', lacks d s = true -> lacks d s' = true -> a +:+ String d s = a' +:+ String d s' -> a = a' /\ s = s'.
Proof.
  induction a as [|c a IH]; intros [|c' a'] s s' Hs Hs' E.
  - by injection E as ->.
  - injection E as -> E. by rewrite E, lacks_mid in Hs.
  - injection E as -> E. by rewrite <-E, lacks_mid in Hs'.
  - change (String c (a +:+ String d s) = String c' (a' +:+ String d s')) in E. injection E as -> E.
    by destruct (IH a' s s' Hs Hs' E) as [-> ->].
Qed.

(** ** Decimal numbers *)

(** The value of digits, after a number [n]. *)
Fixpoint digits_value (n : Z) (s : string) : Z :=
  match s with String c s => digits_value (n * 10 + (byte_of_ascii c - 48)) s | EmptyString => n end.

Lemma digit_char x : (x < 10)%N -> re_digit (pretty_N_char x) = true /\ byte_of_ascii (pretty_N_char x) - 48 = Z.of_N x.
Proof.
  intros Hx. assert (x ∈ [0; 1; 2; 3; 4; 5; 6; 7; 8; 9]%N) as Hin by (rewrite !elem_of_cons; lia).
  rewrite !elem_of_cons in Hin. repeat (destruct Hin as [->|Hin]; [by vm_compute|]). by apply not_elem_of_nil in Hin.
Qed.

Lemma pretty_go_digits x : forall s, digits_value 0 (pretty_N_go x s) = digits_value (Z.of_N x) s /\
  (all_in re_digit s = true -> all_in re_digit (pretty_N_go x s) = true).
Proof.
  induction (N.lt_wf_0 x) as [x _ IH]. intros s. destruct (decide (x = 0)%N) as [->|Hx]; [by rewrite pretty_N_go_0|].
  rewrite pretty_N_go_step by lia. destruct (IH (x `div` 10)%N ltac:(apply N.div_lt; lia) (String (pretty_N_char (x `mod` 10)) s)) as [-> Hd].
  destruct (digit_char (x `mod` 10)%N) as [Hc Hv]; [by apply N.mod_lt|]. cbn [digits_value all_in] in *. rewrite Hv, Hc in *. split; [|done].
  f_equal. pose proof (N.div_mod x 10 ltac:(done)). lia.
Qed.

Lemma dec_digits n : 0 <= n -> all_in re_digit (dec n) = true /\ dec n <> "" /\ digits_value 0 (dec n) = n.
Proof.
  intros Hn. destruct (decide (n = 0)) as [->|H0]; [by vm_compute|]. destruct n as [|p|p]; [done | | lia].
  change (dec (Z.pos p)) with (pretty_N_go (N.pos p) ""). destruct (pretty_go_digits (N.pos p) "") as [Hv Hd].
  split_and!; [by apply Hd | | by rewrite Hv]. intros E. rewrite E in Hv. discriminate.
Qed.


(** A character of a number. *)
Definition dec_char (c : ascii) : bool := re_digit c || Ascii.eqb c "-"%char.

Lemma all_in_impl (f g : ascii -> bool) w : (forall c, f c = true -> g c = true) -> all_in f w = true -> all_in g w = true.
Proof. intros H. induction w as [|c w IH]; [done|]. cbn [all_in]. intros [Hc Hw]%andb_true_iff. by rewrite (H c Hc), (IH Hw). Qed.

Lemma all_in_and f g w : all_in (fun c => f c && g c) w = all_in f w && all_in g w.
Proof. induction w as [|c w IH]; [done|]. cbn [all_in]. rewrite IH. destruct (f c), (g c), (all_in f w), (all_in g w); done. Qed.

Lemma dec_chars z : all_in dec_char (dec z) = true.
Proof.
  destruct (Z.le_gt_cases 0 z) as [Hz|Hz].
  - eapply all_in_impl; [|apply (dec_digits z Hz)]. intros c H. unfold dec_char. by rewrite H.
  - destruct z as [|p|p]; [lia..|]. change (dec (Z.neg p)) with (String "-"%char (dec (Z.pos p))). cbn [all_in].
    eapply all_in_impl; [|apply (dec_digits (Z.pos p)); lia]. intros c H. unfold dec_char. by rewrite H.
Qed.

Lemma dec_inj a b : dec a = dec b -> a = b.
Proof. unfold dec. apply (inj pretty). Qed.

Lemma dec_lacks d z : dec_char d = false -> lacks d (dec z) = true.
Proof.
  intros H. unfold lacks. eapply all_in_impl; [|apply dec_chars]. intros c Hc. destruct (Ascii.eqb_spec d c) as [->|]; [congruence | done].
Qed.

(** ** Formats of package fmt *)

(** [%q] of a name without special characters *)
Definition quote (s : string) : string := String "034"%char (s +:+ String "034"%char "").

(** A hexadecimal digit. *)
Definition hex_char (d : Z) : Z := if d <? 10 then 48 + d else 87 + d.

(** [%#x] of a non-negative offset: 16 digits are enough for 64 bits. *)
Fixpoint hex_go (fuel : nat) (z : Z) (acc : string) : string :=
  match fuel with
  | O => acc
  | S fuel =>
      let acc := String (ascii_of_byte (hex_char (Z.land z 15))) acc in
      if Z.shiftr z 4 =? 0 then acc else hex_go fuel (Z.shiftr z 4) acc
  end.
Definition hex (z : Z) : string := "0x" +:+ hex_go 16 z "".

(** [%x] of bytes *)
Fixpoint hex_bytes (b : list Z) : string :=
  match b with
  | [] => ""
  | x :: b => String (ascii_of_byte (hex_char (Z.shiftr x 4))) (String (ascii_of_byte (hex_char (Z.land x 15))) (hex_bytes b))
  end.

(** [%v] of a slice, of a struct with the rendered fields *)
Definition brackets (l : list string) : string := "[" +:+ join " " l +:+ "]".
Definition braces (l : list string) : string := "{" +:+ join " " l +:+ "}".
