(* ===== verification/Codec.v ===== *)
(** * The LEB128 record codec of [.goc.*] sections

    Models src/internal/gocobj/codec.go: the reader [buf] (a slice and a sticky
    error), its field readers [u8], [uleb], [sleb], [bytes], the record splitter
    [records], and the encoder [enc].  [binary.Uvarint], [binary.AppendUvarint]
    and [binary.AppendVarint] of Go's encoding/binary are modelled as the Go
    standard library defines them.  The theorems are the round trips of every
    field, the splitting of a list of records back into its bodies, the
    termination bound of the record loop and the behaviour on truncated input. *)

From stdpp Require Import base list strings.
From S2P Require Import Prelude.

(** The errors of package gocobj's decoder, one constructor per message. *)
Inductive err :=
| ErrShort
| ErrSlebOverflow
| ErrBadLength (sec : string) (off : Z)
| ErrRecord (sec : string) (off : Z) (e : err)
| ErrELF
| ErrNoHeader
| ErrBadMagic
| ErrMajor (major : Z)
| ErrStrRange (off : Z)
| ErrStrTerm (off : Z)
| ErrStrtab (e : err)
| ErrPanic.  (* a run-time panic: slice bounds out of range *)

(** ** Reader *)

Record buf := Buf { b_data : list Z; b_err : option err }.

Definition fail (e : err) (r : buf) : buf :=
  Buf (b_data r) (match b_err r with None => Some e | Some e0 => Some e0 end).

(** A field reader consumes a prefix of the buffer and returns a value. *)
Abbreviation rd := (st buf).

Definition get_u8 : rd Z := fun r =>
  match b_data r with
  | [] => (0, fail ErrShort r)
  | v :: b => (v, Buf b (b_err r))
  end.

(** [binary.Uvarint]: the value and the number of bytes read; [n <= 0] is an
    error (0: too small a buffer, negative: more than 64 bits). *)
Fixpoint uvarint_go (i : Z) (x s : Z) (b : list Z) : Z * Z :=
  match b with
  | [] => (0, 0)
  | c :: b =>
      if i =? 10 then (0, - (i + 1))
      else if c <? 128 then
        if (i =? 9) && (1 <? c) then (0, - (i + 1))
        else (Z.lor x (u64 (Z.shiftl c s)), i + 1)
      else uvarint_go (i + 1) (Z.lor x (u64 (Z.shiftl (Z.land c 127) s))) (s + 7) b
  end.

Definition uvarint (b : list Z) : Z * Z := uvarint_go 0 0 0 b.

Definition get_uleb : rd Z := fun r =>
  let '(v, n) := uvarint (b_data r) in
  if n <=? 0 then (0, Buf [] (b_err (fail ErrShort r)))
  else (v, Buf (drop (Z.to_nat n) (b_data r)) (b_err r)).

Fixpoint sleb_go (v shift : Z) (b : list Z) : Z * list Z * option err :=
  match b with
  | [] => (0, [], Some ErrShort)
  | c :: b =>
      let v := Z.lor v (s64 (Z.shiftl (Z.land c 127) shift)) in
      let shift := shift + 7 in
      if Z.land c 128 =? 0 then
        if (shift <? 64) && negb (Z.land c 64 =? 0)
        then (Z.lor v (s64 (Z.shiftl (-1) shift)), b, None)
        else (v, b, None)
      else if 64 <=? shift then (0, b, Some ErrSlebOverflow)
      else sleb_go v shift b
  end.

Definition get_sleb : rd Z := fun r =>
  let '(v, b, e) := sleb_go 0 0 (b_data r) in
  let r' := Buf b (b_err r) in
  (v, match e with None => r' | Some e => fail e r' end).

Definition get_bytes (n : Z) : rd (list Z) := fun r =>
  if zlen (b_data r) <? n then ([], Buf [] (b_err (fail ErrShort r)))
  else (take (Z.to_nat n) (b_data r), Buf (drop (Z.to_nat n) (b_data r)) (b_err r)).

(** [records] splits a section into records.  The callback [f] gets the record's
    start offset, the variables it captures ([S]) and the record's reader; it
    returns the captured variables, its error and the reader after it.  Each
    iteration consumes at least the length prefix, so the section's length is
    enough fuel ([records_fuel_enough]). *)
Section Records.
Context {S : Type}.
Variable (sec : string) (f : Z -> S -> buf -> S * option err * buf).

Fixpoint records_go (fuel : nat) (off : Z) (b : list Z) (s : S) : res err S :=
  match fuel, b with
  | _, [] => Ok s
  | O, _ => Fail (ErrBadLength sec off)
  | Datatypes.S fuel, _ =>
      let '(n, r) := get_uleb (Buf b None) in
      if (if b_err r then true else false) || (zlen (b_data r) <? n)
      then Fail (ErrBadLength sec off)
      else
        let hdr := zlen b - zlen (b_data r) in
        let '(s', e, rec) := f off s (Buf (take (Z.to_nat n) (b_data r)) None) in
        match e, b_err rec with
        | Some e, _ => Fail (ErrRecord sec off e)
        | None, Some e => Fail (ErrRecord sec off e)
        | None, None => records_go fuel (off + hdr + n) (drop (Z.to_nat n) (b_data r)) s'
        end
  end.

Definition records (b : list Z) (s : S) : res err S := records_go (length b) 0 b s.

End Records.

(** ** Encoder

    [enc] holds the bytes written so far; every operation appends. *)

(** [binary.AppendUvarint]: at most ten bytes for a 64-bit value
    ([uvarint_bytes_fuel]). *)
Fixpoint uvarint_bytes_go (fuel : nat) (x : Z) : list Z :=
  match fuel with
  | O => []
  | S fuel =>
      if 128 <=? x then Z.lor (u8 x) 128 :: uvarint_bytes_go fuel (Z.shiftr x 7)
      else [u8 x]
  end.

Definition uvarint_bytes (x : Z) : list Z := uvarint_bytes_go 10 x.

Definition append_uvarint (b : list Z) (x : Z) : list Z := b ++ uvarint_bytes x.

(** [binary.AppendVarint]: the zig-zag code of an int64. *)
Definition zigzag (x : Z) : Z :=
  let ux := u64 (Z.shiftl x 1) in
  if x <? 0 then u64 (Z.lnot ux) else ux.

Definition append_varint (b : list Z) (x : Z) : list Z := append_uvarint b (zigzag x).

Definition put_u8 (e : list Z) (v : Z) : list Z := e ++ [v].
Definition put_uleb (e : list Z) (v : Z) : list Z := append_uvarint e v.
Definition put_raw (e : list Z) (v : list Z) : list Z := e ++ v.

Fixpoint sleb_bytes_go (fuel : nat) (v : Z) : list Z :=
  match fuel with
  | O => []
  | S fuel =>
      let c := u8 (Z.land v 127) in
      let v := Z.shiftr v 7 in
      if ((v =? 0) && (Z.land c 64 =? 0)) || ((v =? -1) && negb (Z.land c 64 =? 0))
      then [c]
      else Z.lor c 128 :: sleb_bytes_go fuel v
  end.

Definition sleb_bytes (v : Z) : list Z := sleb_bytes_go 10 v.

Definition put_sleb (e : list Z) (v : Z) : list Z := e ++ sleb_bytes v.

(** [record] appends a length-prefixed body and returns its offset. *)
Definition put_record (e body : list Z) : Z * list Z :=
  (zlen e, put_raw (put_uleb e (zlen body)) body).

(** ** Unsigned LEB128 *)

(** The accumulator of the decoder after [i] bytes of an encoding holds the low
    [7*i] bits, and the encoder has the rest left to write. *)
Lemma uvarint_go_bytes fuel : forall i x v rest,
  Z.of_nat fuel = 10 - i -> 0 <= i -> 0 <= x < 2 ^ (7 * i) -> 0 <= v < 2 ^ (64 - 7 * i) ->
  uvarint_go i x (7 * i) (uvarint_bytes_go fuel v ++ rest)
  = (x + v * 2 ^ (7 * i), i + zlen (uvarint_bytes_go fuel v)).
Proof.
  induction fuel as [|fuel IH]; intros i x v rest Hf Hi Hx Hv.
  { replace i with 10 in * by lia. change (2 ^ (64 - 7 * 10)) with 0 in Hv. lia. }
  assert (64 - 7 * i = 57 - 7 * i + 7) as Hp by lia.
  assert (0 < 2 ^ (7 * i)) by (apply Z.pow_pos_nonneg; lia).
  assert (2 ^ 64 = 2 ^ (7 * i) * 2 ^ (64 - 7 * i)) as H64
    by (rewrite <-Z.pow_add_r by lia; f_equal; lia).
  cbn [uvarint_bytes_go]. destruct (128 <=? v) eqn:Hc; bool_simp.
  - assert (i < 9) as Hi9.
    { destruct (Z.eq_dec i 9) as [->|]; [|lia]. change (2 ^ (64 - 7 * 9)) with 2 in Hv. lia. }
    rewrite Hp, Z.pow_add_r in Hv by lia.
    rewrite u8_lor_128. pose proof (Z.mod_pos_bound v 128 ltac:(lia)).
    assert (0 < 2 ^ (57 - 7 * i)) by (apply Z.pow_pos_nonneg; lia).
    cbn [app uvarint_go]. rewrite (proj2 (Z.eqb_neq i 10)), (proj2 (Z.ltb_ge _ 128)) by lia.
    rewrite land_127. replace ((v mod 128 + 128) mod 128) with (v mod 128) by zarith.
    rewrite u64_small; cycle 1.
    { rewrite Z.shiftl_mul_pow2 by lia. unfold is_u64. rewrite H64, Hp, (Z.pow_add_r 2 _ 7) by lia.
      change (2 ^ 7) with 128. nia. }
    rewrite lor_shiftl by lia. rewrite shiftr_7.
    replace (7 * i + 7) with (7 * (i + 1)) by lia. rewrite IH.
    + rewrite zlen_cons. f_equal; [|lia].
      replace (7 * (i + 1)) with (7 * i + 7) by lia. rewrite Z.pow_add_r by lia.
      change (2 ^ 7) with 128. pose proof (Z.div_mod v 128). nia.
    + lia.
    + lia.
    + replace (7 * (i + 1)) with (7 * i + 7) by lia. rewrite Z.pow_add_r by lia.
      change (2 ^ 7) with 128. nia.
    + replace (64 - 7 * (i + 1)) with (57 - 7 * i) by lia. split; [apply Z.div_pos; lia|].
      apply Z.div_lt_upper_bound; lia.
  - cbn [app uvarint_go]. rewrite u8_small by zarith.
    rewrite (proj2 (Z.eqb_neq i 10)), (proj2 (Z.ltb_lt _ 128)) by lia.
    destruct ((i =? 9) && (1 <? v)) eqn:Hg; bool_simp.
    { subst i. change (2 ^ (64 - 7 * 9)) with 2 in Hv. lia. }
    rewrite u64_small; cycle 1.
    { rewrite Z.shiftl_mul_pow2 by lia. unfold is_u64. rewrite H64. nia. }
    rewrite lor_shiftl by lia. done.
Qed.

Lemma uvarint_bytes_pos v : 0 < zlen (uvarint_bytes v).
Proof.
  unfold uvarint_bytes. generalize 9%nat. intros n. cbn [uvarint_bytes_go].
  destruct (128 <=? v); rewrite zlen_cons; [| done].
  pose proof (zlen_nonneg (uvarint_bytes_go n (Z.shiftr v 7))). lia.
Qed.

Lemma uvarint_app v rest :
  is_u64 v -> uvarint (uvarint_bytes v ++ rest) = (v, zlen (uvarint_bytes v)).
Proof.
  intros Hv. unfold uvarint, uvarint_bytes.
  pose proof (uvarint_go_bytes 10 0 0 v rest) as H. change (7 * 0) with 0 in H.
  rewrite H; [f_equal; lia | lia.. | exact Hv].
Qed.

Lemma get_uleb_app v rest e :
  is_u64 v -> get_uleb (Buf (uvarint_bytes v ++ rest) e) = (v, Buf rest e).
Proof.
  intros Hv. unfold get_uleb. simpl b_data. rewrite uvarint_app by done.
  rewrite (proj2 (Z.leb_gt _ _)) by apply uvarint_bytes_pos.
  by rewrite drop_zlen_app.
Qed.

Lemma get_u8_app v rest e : get_u8 (Buf (v :: rest) e) = (v, Buf rest e).
Proof. done. Qed.

Lemma get_bytes_app n l rest e :
  n = zlen l -> get_bytes n (Buf (l ++ rest) e) = (l, Buf rest e).
Proof.
  intros ->. unfold get_bytes. simpl b_data. rewrite zlen_app.
  rewrite (proj2 (Z.ltb_ge _ _)) by (pose proof (zlen_nonneg rest); lia).
  by rewrite take_zlen_app, drop_zlen_app.
Qed.

(** ** Signed LEB128 *)

Lemma sleb_stop v :
  let c := v mod 128 in
  ((v / 128 =? 0) && (Z.land c 64 =? 0)) || ((v / 128 =? -1) && negb (Z.land c 64 =? 0)) = true
  <-> - 64 <= v < 64.
Proof.
  intros c. assert (0 <= c < 128) by (apply Z.mod_pos_bound; lia).
  rewrite byte_land_64 by done.
  rewrite orb_true_iff, !andb_true_iff, negb_true_iff, !Z.eqb_eq, Z.ltb_lt, Z.ltb_ge.
  unfold c in *. zarith.
Qed.

(** The last byte of an encoding below the 64th bit: the sign bit 64 of the
    byte is what [-1 << shift] extends. *)
Lemma sleb_go_last v s acc rest :
  0 <= s -> s + 7 <= 63 -> 0 <= acc < 2 ^ s -> - 64 <= v < 64 ->
  sleb_go acc s (v mod 128 :: rest) = (acc + v * 2 ^ s, rest, None).
Proof.
  intros Hs Hs7 Ha Hv. pose proof (Z.mod_pos_bound v 128 ltac:(lia)) as Hm.
  assert (0 < 2 ^ s) by (apply Z.pow_pos_nonneg; lia).
  assert (2 ^ (s + 7) = 128 * 2 ^ s) as Hp by (rewrite Z.pow_add_r by lia; lia).
  assert (2 ^ (s + 7) <= 2 ^ 63) by (apply Z.pow_le_mono_r; lia).
  cbn [sleb_go]. rewrite land_127, byte_land_128, byte_land_64 by lia.
  rewrite Zmod_mod, s64_small; cycle 1.
  { rewrite Z.shiftl_mul_pow2 by lia. unfold is_s64. nia. }
  rewrite lor_shiftl by lia. rewrite (proj2 (Z.ltb_lt _ 128)), (proj2 (Z.ltb_lt (s + 7) 64)) by lia.
  cbn [andb negb]. destruct (Z.ltb_spec (v mod 128) 64) as [Hlt|Hge]; cbn [negb].
  - f_equal. f_equal. assert (v mod 128 = v) by zarith. nia.
  - assert (v = v mod 128 - 128) as Hv' by zarith.
    rewrite s64_small by (rewrite Z.shiftl_mul_pow2 by lia; unfold is_s64; nia).
    rewrite lor_shiftl by nia. f_equal. f_equal. nia.
Qed.

(** A byte with the continuation bit contributes its low seven bits. *)
Lemma sleb_go_more v s acc rest :
  0 <= s -> s + 7 <= 63 -> 0 <= acc < 2 ^ s ->
  sleb_go acc s (v mod 128 + 128 :: rest) = sleb_go (acc + v mod 128 * 2 ^ s) (s + 7) rest.
Proof.
  intros Hs Hs7 Ha. pose proof (Z.mod_pos_bound v 128 ltac:(lia)) as Hm.
  assert (0 < 2 ^ s) by (apply Z.pow_pos_nonneg; lia).
  assert (2 ^ (s + 7) = 128 * 2 ^ s) as Hp by (rewrite Z.pow_add_r by lia; lia).
  assert (2 ^ (s + 7) <= 2 ^ 63) by (apply Z.pow_le_mono_r; lia).
  cbn [sleb_go]. rewrite land_127, byte_land_128 by lia.
  replace ((v mod 128 + 128) mod 128) with (v mod 128) by zarith.
  rewrite s64_small; cycle 1.
  { rewrite Z.shiftl_mul_pow2 by lia. unfold is_s64. nia. }
  rewrite lor_shiftl by lia.
  by rewrite (proj2 (Z.ltb_ge _ 128)), (proj2 (Z.leb_gt 64 _)) by lia.
Qed.

Lemma sleb_go_bytes fuel : forall i acc v rest,
  Z.of_nat fuel = 10 - i -> 0 <= i -> 0 <= acc < 2 ^ (7 * i) ->
  - 2 ^ (63 - 7 * i) <= v < 2 ^ (63 - 7 * i) ->
  sleb_go acc (7 * i) (sleb_bytes_go fuel v ++ rest) = (acc + v * 2 ^ (7 * i), rest, None).
Proof.
  induction fuel as [|fuel IH]; intros i acc v rest Hf Hi Ha Hv.
  { replace i with 10 in * by lia. change (2 ^ (63 - 7 * 10)) with 0 in Hv. lia. }
  pose proof (Z.mod_pos_bound v 128 ltac:(lia)) as Hm.
  cbn [sleb_bytes_go]. rewrite shiftr_7, land_127, (u8_small (v mod 128)) by zarith.
  destruct (Z.eq_dec i 9) as [->|].
  { change (63 - 7 * 9) with 0 in Hv. change (7 * 9) with 63 in *.
    assert (v = 0 \/ v = -1) as [-> | ->] by lia.
    - transitivity (Z.lor acc 0, rest, @None err); [reflexivity|].
      by rewrite Z.lor_0_r, Z.mul_0_l, Z.add_0_r.
    - transitivity (Z.lor acc (Z.shiftl (-1) 63), rest, @None err); [reflexivity|].
      by rewrite lor_shiftl by lia. }
  destruct (_ || _) eqn:Hstop.
  - apply sleb_stop in Hstop. apply sleb_go_last; lia.
  - assert (~ (- 64 <= v < 64)) by (rewrite <-sleb_stop; congruence).
    rewrite byte_lor_128 by lia. cbn [app]. rewrite sleb_go_more by lia.
    assert (2 ^ (7 * (i + 1)) = 128 * 2 ^ (7 * i)) as Hp
      by (replace (7 * (i + 1)) with (7 + 7 * i) by lia; rewrite Z.pow_add_r; lia).
    assert (2 ^ (63 - 7 * i) = 128 * 2 ^ (63 - 7 * (i + 1))) as Hq
      by (replace (63 - 7 * i) with (7 + (63 - 7 * (i + 1))) by lia; rewrite Z.pow_add_r; lia).
    replace (7 * i + 7) with (7 * (i + 1)) by lia. rewrite IH; [| lia | lia | nia |].
    + rewrite Hp. f_equal. f_equal. pose proof (Z.div_mod v 128). nia.
    + rewrite Hq in Hv. zarith.
Qed.

Lemma get_sleb_app v rest e :
  is_s64 v -> get_sleb (Buf (sleb_bytes v ++ rest) e) = (v, Buf rest e).
Proof.
  intros Hv. unfold get_sleb. cbn [b_data b_err].
  assert (sleb_go 0 0 (sleb_bytes v ++ rest) = (v, rest, None)) as ->; [|done].
  pose proof (sleb_go_bytes 10 0 0 v rest) as H. change (7 * 0) with 0 in H.
  unfold sleb_bytes. rewrite H; [|lia..|exact Hv]. f_equal. f_equal. lia.
Qed.

(** ** Truncation *)

Lemma uvarint_go_cont l : forall i x s,
  Forall (fun c => 128 <= c) l -> 0 <= i -> i + zlen l <= 10 -> uvarint_go i x s l = (0, 0).
Proof.
  induction l as [|c l IH]; intros i x s Hl Hi Hlen; [done|].
  inversion Hl; subst. rewrite zlen_cons in Hlen. pose proof (zlen_nonneg l). cbn [uvarint_go].
  rewrite (proj2 (Z.eqb_neq i 10)), (proj2 (Z.ltb_ge c 128)) by lia. apply IH; [done | lia..].
Qed.

Lemma sleb_go_cont l : forall v s,
  Forall (fun c => 128 <= c < 256) l -> 0 <= s -> s + 7 * zlen l <= 63 ->
  sleb_go v s l = (0, [], Some ErrShort).
Proof.
  induction l as [|c l IH]; intros v s Hl Hs Hlen; [done|].
  inversion Hl; subst. rewrite zlen_cons in Hlen. pose proof (zlen_nonneg l). cbn [sleb_go].
  rewrite byte_land_128, (proj2 (Z.ltb_ge c 128)), (proj2 (Z.leb_gt 64 _)) by lia.
  apply IH; [done | lia..].
Qed.

(** Every byte of an encoding but the last has the continuation bit. *)
Lemma uvarint_bytes_init fuel : forall v l c k,
  uvarint_bytes_go fuel v = l ++ c :: k ->
  Forall (fun c => 128 <= c < 256) l /\ zlen l < Z.of_nat fuel.
Proof.
  induction fuel as [|fuel IH]; intros v l c k H; [by destruct l|].
  cbn [uvarint_bytes_go] in H. destruct l as [|b l]; [split; [constructor | rewrite zlen_nil; lia]|].
  destruct (128 <=? v); simplify_eq H; [intros <- H' | intros _ H'; by destruct l].
  destruct (IH _ _ _ _ H') as [? ?]. rewrite zlen_cons. split; [|lia]. constructor; [|done].
  rewrite u8_lor_128. pose proof (Z.mod_pos_bound v 128). lia.
Qed.

Lemma sleb_bytes_init fuel : forall v l c k,
  sleb_bytes_go fuel v = l ++ c :: k ->
  Forall (fun c => 128 <= c < 256) l /\ zlen l < Z.of_nat fuel.
Proof.
  induction fuel as [|fuel IH]; intros v l c k H; [by destruct l|].
  cbn [sleb_bytes_go] in H. destruct l as [|b l]; [split; [constructor | rewrite zlen_nil; lia]|].
  destruct (_ || _); simplify_eq H; [intros _ H'; by destruct l | intros <- H'].
  destruct (IH _ _ _ _ H') as [? ?]. rewrite zlen_cons. split; [|lia]. constructor; [|done].
  rewrite land_127. pose proof (Z.mod_pos_bound v 128 ltac:(lia)).
  rewrite u8_small, byte_lor_128 by zarith. lia.
Qed.

(** ** Records *)

Definition record_bytes (body : list Z) : list Z := uvarint_bytes (zlen body) ++ body.

Definition section_bytes (bodies : list (list Z)) : list Z := concat (record_bytes <$> bodies).

Lemma put_record_bytes e body : put_record e body = (zlen e, e ++ record_bytes body).
Proof. unfold put_record, put_raw, put_uleb, append_uvarint, record_bytes. by rewrite <-app_assoc. Qed.

Section RecordFacts.
Context {S : Type}.
Variable (sec : string) (f : Z -> S -> buf -> S * option err * buf).

(** The meaning of [records] on a section given by its record bodies. *)
Fixpoint run_bodies (off : Z) (s : S) (bodies : list (list Z)) : res err S :=
  match bodies with
  | [] => Ok s
  | body :: bodies =>
      let '(s', e, rec) := f off s (Buf body None) in
      match e, b_err rec with
      | Some e, _ => Fail (ErrRecord sec off e)
      | None, Some e => Fail (ErrRecord sec off e)
      | None, None => run_bodies (off + zlen (record_bytes body)) s' bodies
      end
  end.

Lemma get_uleb_shrinks b n r :
  get_uleb (Buf b None) = (n, r) -> b <> [] -> (length (b_data r) < length b)%nat.
Proof.
  unfold get_uleb. cbn [b_data b_err]. intros H Hb. destruct (uvarint b) as [v k].
  destruct (k <=? 0) eqn:Hk; bool_simp; simplify_eq H; intros <- <-; cbn [b_data length].
  - destruct b; [done | simpl; lia].
  - rewrite length_drop. destruct b; [done | simpl length; lia].
Qed.

Lemma records_go_step fuel off b s :
  b <> [] ->
  records_go sec f (Datatypes.S fuel) off b s =
  let '(n, r) := get_uleb (Buf b None) in
  if (if b_err r then true else false) || (zlen (b_data r) <? n)
  then Fail (ErrBadLength sec off)
  else
    let '(s', e, rec) := f off s (Buf (take (Z.to_nat n) (b_data r)) None) in
    match e, b_err rec with
    | Some e, _ => Fail (ErrRecord sec off e)
    | None, Some e => Fail (ErrRecord sec off e)
    | None, None =>
        records_go sec f fuel (off + (zlen b - zlen (b_data r)) + n)
          (drop (Z.to_nat n) (b_data r)) s'
    end.
Proof. by destruct b. Qed.

Lemma records_go_fuel fuel : forall off b s,
  (length b <= fuel)%nat -> records_go sec f fuel off b s = records_go sec f (length b) off b s.
Proof.
  induction fuel as [fuel IH] using lt_wf_ind. intros off b s Hle.
  destruct fuel as [|fuel]; [destruct b; simpl in *; [done|lia]|]. destruct (length b) as [|m] eqn:Hm; [by destruct b|].
  assert (b <> []) as Hb by (by destruct b). rewrite !records_go_step by done.
  destruct (get_uleb (Buf b None)) as [n r] eqn:Hu. apply get_uleb_shrinks in Hu; [|done].
  destruct (_ || _); [done|]. destruct (f _ _ _) as [[s' e] rec]. destruct e, (b_err rec); try done.
  rewrite (IH fuel), (IH m) by (rewrite ?length_drop; lia). done.
Qed.

Lemma records_go_bodies bodies : forall off s,
  Forall (fun b => is_u64 (zlen b)) bodies ->
  records_go sec f (length (section_bytes bodies)) off (section_bytes bodies) s
  = run_bodies off s bodies.
Proof.
  induction bodies as [|body bodies IH]; intros off s Hb; [done|].
  inversion Hb; subst. unfold section_bytes. cbn [fmap list_fmap concat].
  fold (section_bytes bodies). unfold record_bytes at 1 2. rewrite <-app_assoc.
  pose proof (uvarint_bytes_pos (zlen body)) as Hpos.
  assert (get_uleb (Buf (uvarint_bytes (zlen body) ++ body ++ section_bytes bodies) None)
          = (zlen body, Buf (body ++ section_bytes bodies) None)) as Hg by (by apply get_uleb_app).
  remember (uvarint_bytes (zlen body) ++ body ++ section_bytes bodies) as b eqn:Hbe.
  assert (zlen b = zlen (uvarint_bytes (zlen body)) + (zlen body + zlen (section_bytes bodies))) as Hz
    by (subst b; by rewrite !zlen_app).
  destruct (length b) as [|n] eqn:Hn; [unfold zlen in *; lia|].
  rewrite records_go_step by (by destruct b). rewrite Hg. cbn [b_err b_data orb]. rewrite zlen_app.
  rewrite (proj2 (Z.ltb_ge _ _)) by (pose proof (zlen_nonneg (section_bytes bodies)); lia).
  rewrite take_zlen_app, drop_zlen_app. cbn [run_bodies].
  destruct (f off s _) as [[s' e] rec]. destruct e, (b_err rec); try done.
  rewrite records_go_fuel by (unfold zlen in *; lia). rewrite IH by done. f_equal.
  unfold record_bytes. rewrite zlen_app. lia.
Qed.

Lemma records_bodies bodies s :
  Forall (fun b => is_u64 (zlen b)) bodies ->
  records sec f (section_bytes bodies) s = run_bodies 0 s bodies.
Proof. apply records_go_bodies. Qed.

End RecordFacts.

(** ** Properties *)

(** One field of a record, with the values a writer of package gocobj passes. *)
Inductive field := F8 (v : Z) | FU (v : Z) | FS (v : Z) | FB (l : list Z).

Definition field_ok (x : field) : Prop :=
  match x with F8 v => is_u8 v | FU v => is_u64 v | FS v => is_s64 v | FB l => is_u64 (zlen l) end.

Definition put_field (e : list Z) (x : field) : list Z :=
  match x with
  | F8 v => put_u8 e v
  | FU v => put_uleb e v
  | FS v => put_sleb e v
  | FB l => put_raw (put_uleb e (zlen l)) l
  end.

Definition get_field (x : field) : rd field :=
  match x with
  | F8 _ => v ← get_u8; mret (F8 v)
  | FU _ => v ← get_uleb; mret (FU v)
  | FS _ => v ← get_sleb; mret (FS v)
  | FB _ => n ← get_uleb; l ← get_bytes n; mret (FB l)
  end.

Fixpoint get_fields (xs : list field) : rd (list field) :=
  match xs with
  | [] => mret []
  | x :: xs => y ← get_field x; ys ← get_fields xs; mret (y :: ys)
  end.

Lemma put_field_app e x : put_field e x = e ++ put_field [] x.
Proof.
  destruct x; simpl; try done. unfold put_raw, put_uleb, append_uvarint. by rewrite <-app_assoc.
Qed.

Lemma put_fields_app e xs : foldl put_field e xs = e ++ foldl put_field [] xs.
Proof.
  revert e. induction xs as [|x xs IH]; intros e; simpl; [by rewrite app_nil_r|].
  rewrite IH, (IH (put_field [] x)), put_field_app. by rewrite <-app_assoc.
Qed.

Lemma get_put_field x rest e :
  field_ok x -> get_field x (Buf (put_field [] x ++ rest) e) = (x, Buf rest e).
Proof.
  intros Hx. destruct x; unfold get_field, mbind, st_bind, mret, st_ret; simpl put_field.
  - done.
  - unfold put_uleb, append_uvarint. by rewrite app_nil_l, get_uleb_app.
  - unfold put_sleb. by rewrite app_nil_l, get_sleb_app.
  - unfold put_raw, put_uleb, append_uvarint. rewrite app_nil_l, <-app_assoc.
    by rewrite get_uleb_app, get_bytes_app.
Qed.

(** Whatever fields a writer puts into a record, in any number and order, a
    reader that takes fields of the same kinds gets the same values back, consumes
    exactly the bytes written and leaves the rest of the record (the fields of a
    later minor version) and the error state untouched. *)
Theorem fields_roundtrip xs rest e :
  Forall field_ok xs ->
  get_fields xs (Buf (foldl put_field [] xs ++ rest) e) = (xs, Buf rest e).
Proof.
  induction 1 as [|x xs Hx Hxs IH]; [done|].
  cbn [get_fields foldl]. rewrite put_fields_app, <-app_assoc.
  unfold mbind, st_bind, mret, st_ret in *. by rewrite get_put_field, IH.
Qed.

Example fields_roundtrip_witness :
  get_fields [FU 300; FS (-129); FB [7; 8]; F8 255]
    (Buf (foldl put_field [] [FU 300; FS (-129); FB [7; 8]; F8 255] ++ [1]) None)
  = ([FU 300; FS (-129); FB [7; 8]; F8 255], Buf [1] None).
Proof. apply fields_roundtrip. repeat constructor; vm_compute; congruence. Defined.

(** A field cut short is always noticed: on any strict prefix of an encoding
    [uleb] and [sleb] report [truncated], return 0 and leave nothing to read. *)
Theorem field_truncated v l c k :
  (uvarint_bytes v = l ++ c :: k ->
   get_uleb (Buf l None) = (0, Buf [] (Some ErrShort))) /\
  (sleb_bytes v = l ++ c :: k ->
   get_sleb (Buf l None) = (0, Buf [] (Some ErrShort))).
Proof.
  split; intros H.
  - apply uvarint_bytes_init in H as [Hl Hn]. unfold get_uleb, uvarint. cbn [b_data].
    rewrite uvarint_go_cont; [done | | lia..]. eapply Forall_impl; [exact Hl | simpl; lia].
  - apply sleb_bytes_init in H as [Hl Hn]. unfold get_sleb. cbn [b_data].
    rewrite sleb_go_cont; [done | done | lia..].
Qed.

Example field_truncated_witness :
  get_uleb (Buf [172] None) = (0, Buf [] (Some ErrShort)).
Proof. apply (proj1 (field_truncated 300 [172] 2 [])). reflexivity. Defined.

(** Splitting the records a writer appended gives back exactly their bodies,
    in order, each at the offset [record] returned for it; a body the callback
    rejects or reads past stops the walk with that record's offset. *)
Lemma records_split {S} sec (f : Z -> S -> buf -> S * option err * buf) bodies s :
  Forall (fun b => is_u64 (zlen b)) bodies ->
  records sec f (foldl (fun e body => snd (put_record e body)) [] bodies) s
  = run_bodies sec f 0 s bodies.
Proof.
  intros Hb. rewrite <-records_bodies by done. f_equal.
  assert (forall e, foldl (fun e body => snd (put_record e body)) e bodies
                    = e ++ section_bytes bodies) as H; [|by rewrite H].
  clear Hb. induction bodies as [|b bodies IH]; intros e; cbn [foldl]; [by rewrite app_nil_r|].
  rewrite IH, put_record_bytes. cbn [snd]. by rewrite <-app_assoc.
Qed.

Example records_split_witness :
  records "t" (fun off s r => let '(v, r') := get_uleb r in (s ++ [(off, v)], None, r'))
    (foldl (fun e body => snd (put_record e body)) [] [[5; 170; 187; 204]; [6]]) []
  = Ok [(0, 5); (5, 6)].
Proof.
  rewrite records_split; [vm_compute; reflexivity|].
  repeat constructor; vm_compute; congruence.
Defined.

(** The record loop terminates: the section's length is enough fuel, so more
    fuel never changes the result. *)
Lemma records_fuel_enough {S} sec (f : Z -> S -> buf -> S * option err * buf) n b s :
  records_go sec f (length b + n) 0 b s = records sec f b s.
Proof. unfold records. apply records_go_fuel. lia. Qed.
