(* ===== verification/Format.v ===== *)
(** * The data model of a [.gocobj] file

    Models src/internal/gocobj/format.go (the constants and the structs of the
    format) and src/internal/gocobj/abi.go (the ABI profile table).  Every integer
    field is a [Z]; the predicates [*_ok] state the ranges Go's types give them. *)

From Stdlib Require Import ZArith Lia Ascii.
From stdpp Require Import base list strings gmap pretty.
From S2P Require Import Prelude.

(** ** Constants *)

Definition Magic : list Z := [71; 79; 67; 79; 66; 74; 0; 0].  (* "GOCOBJ\x00\x00" *)
Definition Major : Z := 1.
Definition Minor : Z := 4.
Definition HeaderSize : Z := 28.
Definition SecHeader : string := ".goc.header".
Definition SecStrtab : string := ".goc.strtab".
Definition SecFiles : string := ".goc.files".
Definition SecFuncs : string := ".goc.funcs".
Definition SecRelocs : string := ".goc.relocs".
Definition SecStackmaps : string := ".goc.stackmaps".
Definition SecWrappers : string := ".goc.wrappers".
Definition SecPCValue : string := ".goc.pcvalue".
Definition SecGCMaps : string := ".goc.gcmaps".
Definition SecData : string := ".goc.data".
Definition SecInlTree : string := ".goc.inltree".

Definition ArchAMD64 : Z := 1.
Definition ArchARM64 : Z := 2.
Definition HeaderStackChecksInCode : Z := 1.
Definition ABI0 : Z := 0.
Definition ABIInternal : Z := 1.

(** Func flags (bits). *)
Definition FuncNeedsStackCheck : Z := 1.
Definition FuncLeaf : Z := 2.
Definition FuncNosplit : Z := 4.
Definition FuncHasFramePointer : Z := 8.
Definition FuncUnsafeEntry : Z := 16.
Definition FuncInternal : Z := 32.
Definition FuncHasSptr : Z := 64.
Definition FuncSysvUnmodelled : Z := 128.

(** RelocKind: a uint8, so a file may hold an unknown one. *)
Definition RCall : Z := 1.
Definition RCallIndirectMark : Z := 2.
Definition RPCRel : Z := 3.
Definition RAddrAbs : Z := 4.
Definition RFuncAddr : Z := 5.
Definition RDataAddr : Z := 6.
Definition RTLSG : Z := 7.
Definition RGOTPCRel : Z := 8.
Definition RJmpTailcall : Z := 9.
Definition RARM64AdrpAdd : Z := 10.
Definition RARM64Call26 : Z := 11.
Definition rLast : Z := 12.

Definition relocNames : list string :=
  [""; "CALL"; "CALL_INDIRECT_MARK"; "PCREL"; "ADDR_ABS"; "FUNC_ADDR"; "DATA_ADDR"; "TLS_G";
   "GOT_PCREL"; "JMP_TAILCALL"; "ARM64_ADRP_ADD"; "ARM64_CALL26"].

Definition RelocKind_String (k : Z) : string :=
  if (0 <? k) && (k <? rLast) then default "" (relocNames !! Z.to_nat k) else "?".

Definition RelocSafepoint : Z := 1.
Definition RelocWeak : Z := 2.

(** PCKind: a uint8. *)
Definition PCSPDelta : Z := 1.
Definition PCFile : Z := 2.
Definition PCLine : Z := 3.
Definition PCUnsafePoint : Z := 4.
Definition PCInlIndex : Z := 5.
Definition PCStackMapIndex : Z := 6.
Definition pcLast : Z := 7.

Definition pcNames : list string :=
  [""; "SP_DELTA"; "FILE"; "LINE"; "UNSAFE_POINT"; "INL_INDEX"; "STACKMAP_INDEX"].

Definition lineKind (k : Z) : bool := (k =? PCFile) || (k =? PCLine) || (k =? PCInlIndex).

Definition PCKind_String (k : Z) : string :=
  if (0 <? k) && (k <? pcLast) then default "" (pcNames !! Z.to_nat k) else "?".

Definition DataRodata : Z := 1.
Definition DataNoptr : Z := 2.
Definition DataLocal : Z := 4.
Definition DataDupok : Z := 8.

(** ** Structs *)

Record Header := mkHeader {
  h_Major : Z; h_Minor : Z; h_Arch : Z; h_Flags : Z; h_Profile : string; h_Producer : string }.

Record InlNode := mkInl {
  in_Parent : Z; in_File : Z; in_Line : Z; in_Func : string; in_ParentPC : Z; in_StartLine : Z }.

Record PCEntry := mkPC { pc_PC : Z; pc_Value : Z }.
Record PCTable := mkPCT { pct_Kind : Z; pct_Entries : list PCEntry }.

Record Safepoint := mkSP {
  sp_PC : Z; sp_Args : list Z; sp_Locals : list Z; sp_Color : list Z }.
Record GCMap := mkGC { gc_NArgs : Z; gc_NLocals : Z; gc_Safepoints : list Safepoint }.

(** [PCValue] and [Inl] are slices whose nil-ness the code tests, hence options
    of lists ([None] is nil); [GC] is a pointer. *)
Record Func := mkFunc {
  fn_Name : string; fn_TextSize : Z; fn_FrameSize : Z; fn_ArgSize : Z; fn_ABI : Z; fn_Kind : Z;
  fn_Flags : Z; fn_FuncID : Z; fn_File : Z; fn_StartLine : Z; fn_SysvPtrRegs : Z;
  fn_SptrSlots : list Z; fn_PCValue : option (list PCTable); fn_Inl : option (list InlNode);
  fn_GC : option GCMap; fn_pcvOff : Z; fn_gcOff : Z; fn_inlOff : Z }.

Record StackmapLoc := mkLoc { sl_Type : Z; sl_Size : Z; sl_Reg : Z; sl_Off : Z }.
Record Stackmap := mkSM {
  sm_Func : string; sm_InsnOff : Z; sm_ID : Z; sm_Locs : list StackmapLoc }.

Record ArgSpill := mkSpill { as_Reg : string; as_Off : Z; as_Size : Z; as_Ptr : bool }.
Record Wrapper := mkWrapper {
  w_Sym : string; w_Target : string; w_FromABI : Z; w_ToABI : Z;
  w_ArgSpills : list ArgSpill; w_StackPtrArgs : list Z }.

Record Reloc := mkReloc {
  r_Func : string; r_Offset : Z; r_Width : Z; r_Kind : Z; r_Target : string; r_Addend : Z;
  r_Flags : Z }.

Record Data := mkData {
  d_Name : string; d_Size : Z; d_Log2Align : Z; d_Flags : Z; d_NBits : Z; d_Bitmap : list Z }.

Record Symbol := mkSymbol {
  s_Name : string; s_Func : bool; s_Defined : bool; s_Size : Z; s_Section : string;
  s_Value : Z; s_Count : Z }.

Record File := mkFile {
  f_Header : Header; f_Files : list string; f_Funcs : list Func; f_Relocs : list Reloc;
  f_Stackmaps : list Stackmap; f_Wrappers : list Wrapper; f_Data : list Data;
  f_Symbols : gmap string Symbol; f_Text : gmap string (list Z);
  f_ELFRelocs : gmap string string; f_pcvStarts : gset Z; f_gcStarts : gset Z }.

(** The slice a nil-able slice ranges over. *)
Definition slice {A} (o : option (list A)) : list A := default [] o.

(** ** ABI profiles (abi.go) *)

Record Profile := mkProfile {
  p_Name : string; p_Arch : string; p_PtrSize : Z; p_GReg : string; p_StackGuard0Off : Z;
  p_StackSmall : Z; p_StackBig : Z; p_Morestack : string; p_IntRegs : list string;
  p_FPRegs : list string }.

#[export] Instance Profile_eq_dec : EqDecision Profile.
Proof. solve_decision. Defined.

(** [strings.Split(s, ",")]: the parts of [s] between commas. *)
Fixpoint split_comma (acc : string) (s : string) : list string :=
  match s with
  | EmptyString => [acc]
  | String c s =>
      if Ascii.eqb c ","%char then acc :: split_comma "" s
      else split_comma (acc +:+ String c "") s
  end.

Definition regs (s : string) : list string := split_comma "" s.

Definition profiles : list Profile :=
  [mkProfile "goabi1-amd64" "amd64" 8 "R14" 16 128 4096 "runtime.morestack_noctxt"
     (regs "RAX,RBX,RCX,RDI,RSI,R8,R9,R10,R11")
     (regs "X0,X1,X2,X3,X4,X5,X6,X7,X8,X9,X10,X11,X12,X13,X14");
   mkProfile "goabi1-arm64" "arm64" 8 "R28" 16 128 4096 "runtime.morestack_noctxt"
     (regs "R0,R1,R2,R3,R4,R5,R6,R7,R8,R9,R10,R11,R12,R13,R14,R15")
     (regs "F0,F1,F2,F3,F4,F5,F6,F7,F8,F9,F10,F11,F12,F13,F14,F15");
   mkProfile "go1.24-amd64" "amd64" 8 "R14" 16 128 4096 "runtime.morestack_noctxt"
     (regs "RAX,RBX,RCX,RDI,RSI,R8,R9,R10,R11")
     (regs "X0,X1,X2,X3,X4,X5,X6,X7,X8,X9,X10,X11,X12,X13,X14");
   mkProfile "go1.24-arm64" "arm64" 8 "R28" 16 128 4096 "runtime.morestack_noctxt"
     (regs "R0,R1,R2,R3,R4,R5,R6,R7,R8,R9,R10,R11,R12,R13,R14,R15")
     (regs "F0,F1,F2,F3,F4,F5,F6,F7,F8,F9,F10,F11,F12,F13,F14,F15")].

(** [LookupProfile]: the first profile of that name. *)
Definition LookupProfile (name : string) : option Profile :=
  snd <$> list_find (fun p => p_Name p = name) profiles.

(** [strings.Join(l, ",")] *)
Fixpoint join_comma (l : list string) : string :=
  match l with
  | [] => ""
  | [s] => s
  | s :: l => s +:+ "," +:+ join_comma l
  end.

Definition SameFacts (a b : Profile) : bool :=
  String.eqb (p_Arch a) (p_Arch b) && (p_PtrSize a =? p_PtrSize b) &&
  String.eqb (p_GReg a) (p_GReg b) && (p_StackGuard0Off a =? p_StackGuard0Off b) &&
  (p_StackSmall a =? p_StackSmall b) && (p_StackBig a =? p_StackBig b) &&
  String.eqb (p_Morestack a) (p_Morestack b) &&
  String.eqb (join_comma (p_IntRegs a)) (join_comma (p_IntRegs b)) &&
  String.eqb (join_comma (p_FPRegs a)) (join_comma (p_FPRegs b)).

(** ** The ranges of Go's types *)

Definition inl_ok (n : InlNode) : Prop :=
  is_s64 (in_Parent n) /\ is_u64 (in_File n) /\ is_u64 (in_Line n) /\ is_u64 (in_ParentPC n) /\
  is_u64 (in_StartLine n).

Definition entry_ok (e : PCEntry) : Prop := is_u64 (pc_PC e) /\ is_s64 (pc_Value e).

Definition table_ok (t : PCTable) : Prop :=
  is_u8 (pct_Kind t) /\ Forall entry_ok (pct_Entries t).
