(* ===== verification/GocobjWrite.v ===== *)
(** * The section writer

    Models [Builder.Sections] of src/internal/gocobj/write.go: the string table
    that interns names, the encoding of every record and the set of sections.
    [WriteAsm], which prints the same bytes as assembler text, is not modelled. *)

From stdpp Require Import base list strings gmap.
From S2P Require Import Prelude Codec Format.

Record Builder := mkBuilder {
  bd_Header : Header; bd_Files : list string; bd_Funcs : list Func; bd_Relocs : list Reloc;
  bd_Stackmaps : list Stackmap; bd_Data : list Data }.

(** The variables [strs] and [idx] that the closure [s] captures. *)
Record strs := mkStrs { st_bytes : list Z; st_idx : gmap string Z }.

Definition strs0 : strs := mkStrs [0] {[ "" := 0 ]}.

(** The closure [s]: the offset of a string, added on first use. *)
Definition intern (v : string) : st strs Z := fun t =>
  match st_idx t !! v with
  | Some o => (o, t)
  | None =>
      let o := zlen (st_bytes t) in
      (o, mkStrs (st_bytes t ++ bytes_of_string v ++ [0]) (<[v := o]> (st_idx t)))
  end.

Definition header_bytes (bd : Builder) : st strs (list Z) :=
  profile ← intern (h_Profile (bd_Header bd));
  producer ← intern (h_Producer (bd_Header bd));
  mret (Magic ++ le_bytes 2 Major ++ le_bytes 2 (h_Minor (bd_Header bd)) ++
        [h_Arch (bd_Header bd); h_Flags (bd_Header bd)] ++ [0; 0] ++
        le_bytes 4 (u32 profile) ++ le_bytes 4 (u32 producer) ++ [0; 0; 0; 0]).

Definition put_file (files : list Z) (f : string) : st strs (list Z) :=
  o ← intern f;
  mret (snd (put_record files (put_uleb [] o))).

Definition pcv_body (ts : list PCTable) : list Z :=
  foldl (fun r t =>
    foldl (fun r e => put_sleb (put_uleb r (pc_PC e)) (pc_Value e))
      (put_uleb (put_u8 r (pct_Kind t)) (zlen (pct_Entries t))) (pct_Entries t))
    (put_uleb [] (zlen ts)) ts.

Definition gc_body (g : GCMap) : list Z :=
  foldl (fun r sp =>
    put_raw (put_uleb (put_raw (put_raw (put_uleb r (sp_PC sp)) (sp_Args sp)) (sp_Locals sp))
      (zlen (sp_Color sp))) (sp_Color sp))
    (put_uleb (put_uleb (put_uleb [] (gc_NArgs g)) (gc_NLocals g)) (zlen (gc_Safepoints g)))
    (gc_Safepoints g).

Definition put_inl_node (r : list Z) (n : InlNode) : st strs (list Z) :=
  let r := put_uleb (put_uleb (put_sleb r (in_Parent n)) (in_File n)) (in_Line n) in
  o ← intern (in_Func n);
  mret (put_uleb (put_uleb (put_uleb r o) (in_ParentPC n)) (in_StartLine n)).

Definition inl_body (ns : list InlNode) : st strs (list Z) :=
  st_fold put_inl_node (put_uleb [] (zlen ns)) ns.

(** The encoders the loop over [bd.Funcs] appends to. *)
Record encs := mkEncs { e_funcs : list Z; e_pcv : list Z; e_gcm : list Z; e_inl : list Z }.

Definition put_func (minor : Z) (e : encs) (fn : Func) : st strs encs :=
  let '(pcvOff, pcv) :=
    match fn_PCValue fn with
    | Some ts => let '(o, pcv) := put_record (e_pcv e) (pcv_body ts) in (o + 1, pcv)
    | None => (0, e_pcv e)
    end in
  let '(gcOff, gcm) :=
    match fn_GC fn with
    | Some g => let '(o, gcm) := put_record (e_gcm e) (gc_body g) in (o + 1, gcm)
    | None => (0, e_gcm e)
    end in
  '(inlOff, inlt) ←
    match fn_Inl fn with
    | Some ns => r ← inl_body ns;
                 let '(o, inlt) := put_record (e_inl e) r in mret (o + 1, inlt)
    | None => mret (0, e_inl e)
    end;
  name ← intern (fn_Name fn);
  let r := put_uleb [] name in
  let r := put_uleb r (fn_TextSize fn) in
  let r := put_uleb r (fn_FrameSize fn) in
  let r := put_uleb r (fn_ArgSize fn) in
  let r := put_u8 r (fn_ABI fn) in
  let r := put_u8 r (fn_Kind fn) in
  let r := put_uleb r (fn_Flags fn) in
  let r := put_u8 r (fn_FuncID fn) in
  let r := put_uleb r (fn_File fn) in
  let r := put_uleb r (fn_StartLine fn) in
  let r := put_uleb r pcvOff in
  let r := put_uleb r gcOff in
  let r := put_uleb r inlOff in
  let r := if 1 <=? minor then put_uleb r (fn_SysvPtrRegs fn) else r in
  let r := if 2 <=? minor
           then foldl put_uleb (put_uleb r (zlen (fn_SptrSlots fn))) (fn_SptrSlots fn) else r in
  mret (mkEncs (snd (put_record (e_funcs e) r)) pcv gcm inlt).

Definition put_reloc (relocs : list Z) (rl : Reloc) : st strs (list Z) :=
  fo ← intern (r_Func rl);
  let r := put_u8 (put_u8 (put_uleb (put_uleb [] fo) (r_Offset rl)) (r_Width rl)) (r_Kind rl) in
  to ← intern (r_Target rl);
  let r := put_u8 (put_sleb (put_uleb r to) (r_Addend rl)) (r_Flags rl) in
  mret (snd (put_record relocs r)).

Definition put_stackmap (stackmaps : list Z) (sm : Stackmap) : st strs (list Z) :=
  fo ← intern (sm_Func sm);
  let r := put_uleb (put_uleb (put_uleb (put_uleb [] fo) (sm_InsnOff sm)) (sm_ID sm))
             (zlen (sm_Locs sm)) in
  let r := foldl (fun r l =>
             put_sleb (put_uleb (put_uleb (put_u8 r (sl_Type l)) (sl_Size l)) (sl_Reg l)) (sl_Off l))
             r (sm_Locs sm) in
  mret (snd (put_record stackmaps r)).

Definition put_data (data : list Z) (d : Data) : st strs (list Z) :=
  o ← intern (d_Name d);
  let r := put_uleb (put_uleb (put_u8 (put_uleb (put_uleb [] o) (d_Size d)) (d_Log2Align d))
             (d_Flags d)) (d_NBits d) in
  mret (snd (put_record data (put_raw r (d_Bitmap d)))).

(** [out[name] = e.b] only for a section that holds a record. *)
Definition add_section (name : string) (b : list Z) (out : gmap string (list Z))
    : gmap string (list Z) :=
  match b with [] => out | _ => <[name := b]> out end.

Definition Sections (bd : Builder) : gmap string (list Z) :=
  let prog : st strs (gmap string (list Z)) :=
    h ← header_bytes bd;
    files ← st_fold put_file [] (bd_Files bd);
    e ← st_fold (put_func (h_Minor (bd_Header bd))) (mkEncs [] [] [] []) (bd_Funcs bd);
    relocs ← st_fold put_reloc [] (bd_Relocs bd);
    stackmaps ← st_fold put_stackmap [] (bd_Stackmaps bd);
    data ← st_fold put_data [] (bd_Data bd);
    mret
      (add_section SecFiles files (add_section SecFuncs (e_funcs e)
      (add_section SecRelocs relocs (add_section SecStackmaps stackmaps
      (add_section SecPCValue (e_pcv e) (add_section SecGCMaps (e_gcm e)
      (add_section SecData data (add_section SecInlTree (e_inl e)
        {[ SecHeader := h ]})))))))) in
  let '(out, t) := prog strs0 in
  <[SecStrtab := st_bytes t]> out.
