(* ===== verification/Dump.v ===== *)
(** * Printing a [.gocobj] file

    Models src/internal/gocobj/dump.go ([Dump]) and [WriteAsm] of
    src/internal/gocobj/write.go, as the text they write.  [%q] is rendered without
    escapes ([quote] of Text.v); a bool prints as true or false.  The main result: the
    directives of [WriteAsm] assemble to the sections. *)

From Stdlib Require Import ZArith Lia Ascii.
From stdpp Require Import base list strings gmap sorting.
From S2P Require Import Prelude Text Codec Format GocobjWrite.

Definition lf : string := String "010"%char "".
Definition ht : string := String "009"%char "".

(** ** [Dump] *)

(** [%v] of numbers, [%+d], [%t] *)
Definition nums (l : list Z) : string := brackets (dec <$> l).
Definition signed (z : Z) : string := (if z <? 0 then "" else "+") +:+ dec z.
Definition bool_text (b : bool) : string := if b then "true" else "false".

Definition sptrStr (s : list Z) : string := match s with [] => "" | _ => " sptr=" +:+ nums s end.

Definition dump_table (t : PCTable) : string :=
  "  pcvalue " +:+ PCKind_String (pct_Kind t) +:+ ":" +:+
  foldr (fun e s => " " +:+ dec (pc_PC e) +:+ "=" +:+ dec (pc_Value e) +:+ s) lf (pct_Entries t).

Definition dump_inl (j : nat) (n : InlNode) : string :=
  "  inl " +:+ dec (Z.of_nat j) +:+ " parent=" +:+ dec (in_Parent n) +:+ " " +:+ in_Func n +:+ " at file=" +:+ dec (in_File n) +:+
  " line=" +:+ dec (in_Line n) +:+ " parentpc=" +:+ dec (in_ParentPC n) +:+ " startline=" +:+ dec (in_StartLine n) +:+ lf.

Definition dump_safepoint (sp : Safepoint) : string :=
  "    pc=" +:+ dec (sp_PC sp) +:+ " args=" +:+ hex_bytes (sp_Args sp) +:+ " locals=" +:+ hex_bytes (sp_Locals sp) +:+
  (if 0 <? zlen (sp_Color sp) then " color=" +:+ hex_bytes (sp_Color sp) else "") +:+ lf.

Definition concat_s (l : list string) : string := foldr String.append "" l.

Definition dump_gc (g : GCMap) : string :=
  "  gcmaps args=" +:+ dec (gc_NArgs g) +:+ " locals=" +:+ dec (gc_NLocals g) +:+ lf +:+ concat_s (dump_safepoint <$> gc_Safepoints g).

Definition spill_text (s : ArgSpill) : string := braces [as_Reg s; dec (as_Off s); dec (as_Size s); bool_text (as_Ptr s)].
Definition dump_wrapper (wr : Wrapper) : string :=
  "  wrapper -> " +:+ w_Target wr +:+ " abi " +:+ dec (w_FromABI wr) +:+ "->" +:+ dec (w_ToABI wr) +:+ " spills=" +:+
  brackets (spill_text <$> w_ArgSpills wr) +:+ " stackptrs=" +:+ nums (w_StackPtrArgs wr) +:+ lf.

Definition loc_text (l : StackmapLoc) : string := braces [dec (sl_Type l); dec (sl_Size l); dec (sl_Reg l); dec (sl_Off l)].
Definition dump_stackmap (sm : Stackmap) : string :=
  "  stackmap +" +:+ dec (sm_InsnOff sm) +:+ " id=" +:+ hex (sm_ID sm) +:+ " locs=" +:+ brackets (loc_text <$> sm_Locs sm) +:+ lf.

Definition dump_reloc (r : Reloc) : string :=
  "  reloc +" +:+ dec (r_Offset r) +:+ " w=" +:+ dec (r_Width r) +:+ " " +:+ RelocKind_String (r_Kind r) +:+ " " +:+ r_Target r +:+
  signed (r_Addend r) +:+ " flags=" +:+ hex (r_Flags r) +:+ lf.

Definition dump_func (f : File) (fn : Func) : string :=
  "func " +:+ fn_Name fn +:+ " size=" +:+ dec (fn_TextSize fn) +:+ " frame=" +:+ dec (fn_FrameSize fn) +:+ " args=" +:+ dec (fn_ArgSize fn) +:+
  " abi=" +:+ dec (fn_ABI fn) +:+ " kind=" +:+ dec (fn_Kind fn) +:+ " flags=" +:+ hex (fn_Flags fn) +:+ " id=" +:+ dec (fn_FuncID fn) +:+
  " file=" +:+ dec (fn_File fn) +:+ " line=" +:+ dec (fn_StartLine fn) +:+ " sysvptr=" +:+ hex (fn_SysvPtrRegs fn) +:+ sptrStr (fn_SptrSlots fn) +:+ lf +:+
  concat_s (dump_table <$> slice (fn_PCValue fn)) +:+ concat_s (imap dump_inl (slice (fn_Inl fn))) +:+
  match fn_GC fn with Some g => dump_gc g | None => "" end +:+
  concat_s (dump_wrapper <$> filter (fun wr => w_Sym wr = fn_Name fn) (f_Wrappers f)) +:+
  concat_s (dump_stackmap <$> filter (fun sm => sm_Func sm = fn_Name fn) (f_Stackmaps f)) +:+
  concat_s (dump_reloc <$> filter (fun r => r_Func r = fn_Name fn) (f_Relocs f)).

(** [1 << n] of an [int] *)
Definition shifted (n : Z) : Z := if n <? 64 then s64 (Z.shiftl 1 n) else 0.

Definition dump_data (d : Data) : string :=
  "data " +:+ d_Name d +:+ " size=" +:+ dec (d_Size d) +:+ " align=" +:+ dec (shifted (d_Log2Align d)) +:+ " flags=" +:+ hex (d_Flags d) +:+
  " ptrbits=" +:+ dec (d_NBits d) +:+ " bitmap=" +:+ hex_bytes (d_Bitmap d) +:+ lf.

Definition Dump (f : File) : string :=
  let h := f_Header f in
  "gocobj " +:+ dec (h_Major h) +:+ "." +:+ dec (h_Minor h) +:+ " arch=" +:+ dec (h_Arch h) +:+ " flags=" +:+ hex (h_Flags h) +:+
  " profile=" +:+ quote (h_Profile h) +:+ " producer=" +:+ quote (h_Producer h) +:+ lf +:+
  concat_s (imap (fun i p => "file " +:+ dec (Z.of_nat i) +:+ " " +:+ p +:+ lf) (f_Files f)) +:+
  concat_s (dump_func f <$> f_Funcs f) +:+ concat_s (dump_data <$> f_Data f).

(** ** [WriteAsm] *)

(** The pieces of at most 16 bytes; the length is enough fuel. *)
Fixpoint pieces (fuel : nat) (b : list Z) : list (list Z) :=
  match fuel, b with
  | O, _ | _, [] => []
  | S fuel, _ => take 16 b :: pieces fuel (drop 16 b)
  end.

Definition byte_text (x : Z) : string := "0x" +:+ hex_bytes [x].
Definition byte_line (b : list Z) : string := ht +:+ ".byte " +:+ join "," (byte_text <$> b).
Definition section_line (name : string) : string := ht +:+ ".section " +:+ name +:+ "," +:+ quote "" +:+ ",@progbits".
Definition section_lines (p : string * list Z) : list string := section_line (fst p) :: (byte_line <$> pieces (length (snd p)) (snd p)).

Definition by_name (a b : string * list Z) : Prop := str_le (fst a) (fst b).
#[export] Instance by_name_dec a b : Decision (by_name a b) := decide (str_le (fst a) (fst b)).

Definition asm_lines (secs : gmap string (list Z)) : list string := concat (section_lines <$> merge_sort by_name (map_to_list secs)).
Definition WriteAsm (bd : Builder) : string := concat_s ((fun l => l +:+ lf) <$> asm_lines (Sections bd)).

(** *** What the directives mean

    A reader of the two directives: [.section] starts a section, [.byte] appends to the
    one that was started last (the sections read so far, the last one first). *)

Definition hex_value (c : ascii) : option Z :=
  let n := byte_of_ascii c in if code_in 48 57 c then Some (n - 48) else if code_in 97 102 c then Some (n - 87) else None.

Definition byte_value (s : string) : option Z :=
  match s with
  | String a (String b (String h (String l ""))) =>
      if String.eqb (String a (String b "")) "0x" then h ← hex_value h; l ← hex_value l; Some (16 * h + l) else None
  | _ => None
  end.

(** The part of a text before a comma, and what follows it. *)
Fixpoint cut_comma (s : string) : string * option string :=
  match s with
  | EmptyString => ("", None)
  | String c s => if Ascii.eqb c ","%char then ("", Some s) else let '(a, b) := cut_comma s in (String c a, b)
  end.

Definition read_line (acc : list (string * list Z)) (line : string) : option (list (string * list Z)) :=
  match after_prefix (ht +:+ ".section ") line with
  | Some s => Some ((fst (cut_comma s), []) :: acc)
  | None =>
      s ← after_prefix (ht +:+ ".byte ") line;
      vs ← mapM byte_value (regs s);
      match acc with (n, b) :: acc => Some ((n, b ++ vs) :: acc) | [] => None end
  end.

Fixpoint read_lines (acc : list (string * list Z)) (lines : list string) : option (list (string * list Z)) :=
  match lines with [] => Some acc | l :: lines => acc ← read_line acc l; read_lines acc lines end.

(** *** Bytes *)

Lemma byte_text_ok x : is_u8 x -> byte_value (byte_text x) = Some x /\ lacks ","%char (byte_text x) = true /\ lacks "010"%char (byte_text x) = true.
Proof.
  intros Hx. assert (Forall (fun n => byte_value (byte_text (Z.of_nat n)) = Some (Z.of_nat n) /\ lacks ","%char (byte_text (Z.of_nat n)) = true /\
    lacks "010"%char (byte_text (Z.of_nat n)) = true) (seq 0 256)) as H by (apply (bool_decide_unpack _); by vm_compute).
  rewrite Forall_forall in H. specialize (H (Z.to_nat x)). rewrite Z2Nat.id in H by (unfold is_u8 in Hx; lia). apply H, elem_of_seq.
  unfold is_u8 in Hx. pow2. lia.
Qed.

Lemma split_last a : forall acc, lacks ","%char a = true -> split_comma acc a = [acc +:+ a].
Proof.
  induction a as [|c a IH]; intros acc H; cbn [split_comma]; [by rewrite string_app_nil|]. unfold lacks in H. cbn [all_in] in H.
  apply andb_true_iff in H as [Hc Ha]. rewrite Ascii.eqb_sym. destruct (Ascii.eqb ","%char c); [done|]. by rewrite IH, string_app_assoc.
Qed.

Lemma split_first a s : forall acc, lacks ","%char a = true -> split_comma acc (a +:+ "," +:+ s) = (acc +:+ a) :: split_comma "" s.
Proof.
  induction a as [|c a IH]; intros acc H; [cbn; by rewrite string_app_nil|]. unfold lacks in H. cbn [all_in] in H.
  apply andb_true_iff in H as [Hc Ha]. change (String c a +:+ "," +:+ s) with (String c (a +:+ "," +:+ s)). cbn [split_comma].
  rewrite Ascii.eqb_sym. destruct (Ascii.eqb ","%char c); [done|]. by rewrite IH, string_app_assoc.
Qed.

Lemma regs_join l : l <> [] -> Forall (fun a => lacks ","%char a = true) l -> regs (join "," l) = l.
Proof.
  intros Hne H. induction H as [|a l Ha _ IH]; [done|]. destruct l as [|b l]; [by apply split_last|].
  change (join "," (a :: b :: l)) with (a +:+ "," +:+ join "," (b :: l)). unfold regs. rewrite split_first by done. f_equal. by apply IH.
Qed.

Lemma bytes_read l : Forall is_u8 l -> mapM byte_value (byte_text <$> l) = Some l.
Proof.
  intros H. apply mapM_Some. apply Forall2_fmap_l. apply Forall_Forall2_diag. eapply Forall_impl; [exact H|]. intros x Hx. by apply byte_text_ok.
Qed.

Lemma read_byte_line n b acc l : l <> [] -> Forall is_u8 l -> read_line ((n, b) :: acc) (byte_line l) = Some ((n, b ++ l) :: acc).
Proof.
  intros Hne Hl. unfold read_line, byte_line. change (after_prefix (ht +:+ ".section ") (ht +:+ ".byte " +:+ ?s)) with (@None string).
  change (ht +:+ ".byte " +:+ ?s) with ((ht +:+ ".byte ") +:+ s). rewrite after_prefix_app. cbn [mbind option_bind].
  rewrite regs_join, bytes_read; [done | done | by destruct l |]. apply Forall_fmap. eapply Forall_impl; [exact Hl|]. intros x Hx. by apply byte_text_ok.
Qed.

(** *** Sections *)

Lemma pieces_read n acc fuel : forall l b, (length l <= fuel)%nat -> Forall is_u8 l ->
  read_lines ((n, b) :: acc) (byte_line <$> pieces fuel l) = Some ((n, b ++ l) :: acc).
Proof.
  induction fuel as [|fuel IH]; intros l b Hf Hl; [destruct l; [by rewrite app_nil_r | cbn in Hf; lia]|].
  destruct l as [|x l]; [cbn; by rewrite app_nil_r|]. cbn [pieces]. rewrite fmap_cons. cbn [read_lines].
  rewrite read_byte_line; [|by cbn | by apply Forall_take]. cbn [mbind option_bind].
  rewrite IH; [| rewrite length_drop; cbn [length] in *; lia | by apply Forall_drop]. by rewrite <-app_assoc, take_drop.
Qed.

Lemma read_lines_app acc l k : read_lines acc (l ++ k) = (read_lines acc l ≫= fun acc => read_lines acc k).
Proof.
  revert acc. induction l as [|x l IH]; intros acc; [done|]. cbn [app read_lines]. destruct (read_line acc x); [apply IH | done].
Qed.

Lemma cut_comma_name a s : lacks ","%char a = true -> cut_comma (a +:+ "," +:+ s) = (a, Some s).
Proof.
  induction a as [|c a IH]; intros H; [done|]. unfold lacks in H. cbn [all_in] in H. apply andb_true_iff in H as [Hc Ha].
  change (String c a +:+ "," +:+ s) with (String c (a +:+ "," +:+ s)). cbn [cut_comma]. rewrite Ascii.eqb_sym.
  destruct (Ascii.eqb ","%char c); [done|]. by rewrite IH.
Qed.

Definition asm_ok (p : string * list Z) : Prop := lacks ","%char (fst p) = true /\ lacks "010"%char (fst p) = true /\ Forall is_u8 (snd p).

Lemma section_read p acc : asm_ok p -> read_lines acc (section_lines p) = Some (p :: acc).
Proof.
  intros (Hn & _ & Hb). destruct p as [n b]. unfold section_lines. cbn [read_lines fst snd] in *. unfold section_line, read_line.
  change (ht +:+ ".section " +:+ ?s) with ((ht +:+ ".section ") +:+ s). rewrite after_prefix_app. cbn [mbind option_bind].
  rewrite cut_comma_name by done. cbn [fst]. by rewrite (pieces_read n acc (length b) b []).
Qed.

Lemma sections_read ps : forall acc, Forall asm_ok ps -> read_lines acc (concat (section_lines <$> ps)) = Some (reverse ps ++ acc).
Proof.
  induction ps as [|p ps IH]; intros acc H; [done|]. apply Forall_cons in H as [Hp H]. cbn [fmap list_fmap concat].
  rewrite read_lines_app, (section_read p acc Hp). cbn [mbind option_bind]. rewrite IH by done. by rewrite reverse_cons, <-app_assoc.
Qed.

Lemma lacks_join d l : Forall (fun a => lacks d a = true) l -> Ascii.eqb d ","%char = false -> lacks d (join "," l) = true.
Proof.
  intros H Hd. induction H as [|a l Ha _ IH]; [done|]. destruct l as [|b l]; [done|].
  change (join "," (a :: b :: l)) with (a +:+ "," +:+ join "," (b :: l)). unfold lacks in *. rewrite !all_in_app, Ha, IH. cbn. by rewrite Hd.
Qed.

Lemma pieces_u8 fuel : forall b, Forall is_u8 b -> Forall (Forall is_u8) (pieces fuel b).
Proof.
  induction fuel as [|fuel IH]; intros b H; [by destruct b|]. destruct b as [|x b]; [done|]. constructor; [by apply Forall_take | by apply IH, Forall_drop].
Qed.

Lemma section_lines_one p : asm_ok p -> Forall (fun l => lacks "010"%char l = true) (section_lines p).
Proof.
  intros (_ & Hn & Hb). constructor.
  - unfold section_line, lacks in *. rewrite !all_in_app, Hn. done.
  - apply Forall_fmap. eapply Forall_impl; [by apply pieces_u8|]. intros b H. cbn. unfold byte_line, lacks. rewrite !all_in_app.
    apply (lacks_join "010"%char); [|done]. apply Forall_fmap. eapply Forall_impl; [exact H|]. intros x Hx. by apply byte_text_ok.
Qed.

(** C39. The assembler text of a builder means its sections: [WriteAsm] writes lines, each
    without a newline of its own, and a reader of the [.section] and [.byte] directives
    finds in them the sections in the order of their names, each with exactly its
    bytes. *)
Theorem WriteAsm_assembles bd : map_Forall (fun n b => asm_ok (n, b)) (Sections bd) ->
  exists lines secs, WriteAsm bd = concat_s ((fun l => l +:+ lf) <$> lines) /\ Forall (fun l => lacks "010"%char l = true) lines /\
    read_lines [] lines = Some (reverse secs) /\ Sorted by_name secs /\ secs ≡ₚ map_to_list (Sections bd).
Proof.
  intros H. exists (asm_lines (Sections bd)), (merge_sort by_name (map_to_list (Sections bd))).
  assert (Forall asm_ok (merge_sort by_name (map_to_list (Sections bd)))) as Hok.
  { rewrite merge_sort_Permutation. apply Forall_forall. intros [n b] Hin%elem_of_map_to_list. by apply H. }
  split_and!; [done | | | | by apply merge_sort_Permutation].
  - unfold asm_lines. apply Forall_concat, Forall_fmap. eapply Forall_impl; [exact Hok|]. apply section_lines_one.
  - unfold asm_lines. rewrite sections_read by done. by rewrite app_nil_r.
  - apply Sorted_merge_sort. intros a b. unfold by_name, str_le. destruct (String.leb_total (fst a) (fst b)); auto.
Qed.

#[export] Instance asm_ok_dec p : Decision (asm_ok p).
Proof. unfold asm_ok, is_u8. apply _. Defined.

Definition demo_builder : Builder :=
  mkBuilder (mkHeader 1 4 1 1 "goabi1-amd64" "goc") ["a.c"] [] [mkReloc "f" 3 4 RCall "g" (-4) 0] [] [].

Example WriteAsm_assembles_witness : exists lines secs, WriteAsm demo_builder = concat_s ((fun l => l +:+ lf) <$> lines) /\
  read_lines [] lines = Some (reverse secs) /\ secs ≡ₚ map_to_list (Sections demo_builder).
Proof.
  destruct (WriteAsm_assembles demo_builder) as (lines & secs & H1 & _ & H2 & _ & H3).
  - apply (bool_decide_unpack (map_Forall (fun n b => asm_ok (n, b)) (Sections demo_builder))). vm_compute. exact I.
  - exists lines, secs. exact (conj H1 (conj H2 H3)).
Defined.
