(* ===== verification/Elf.v ===== *)
(** * What the program sees of an ELF file

    [debug/elf] of Go's standard library decodes the container; the program uses
    the machine, the sections (name, type, flags, size and [Data()]) and the
    symbol table.  [es_data = None] is a [Data()] that returns an error (a
    SHT_NOBITS section, a truncated file). *)

From stdpp Require Import base list strings.
From S2P Require Import Prelude.

Record esection := mkSec {
  es_name : string; es_type : Z; es_flags : Z; es_size : Z; es_data : option (list Z) }.

Record esymbol := mkSym {
  ey_name : string; ey_info : Z; ey_section : Z; ey_value : Z; ey_size : Z }.

(** The result of [ef.Symbols()]: the table, [ErrNoSymbols], or another error. *)
Inductive esymbols := SymOk (l : list esymbol) | SymNone | SymErr.

Record efile := mkElf { ef_machine : Z; ef_sections : list esection; ef_symbols : esymbols }.

Definition EM_X86_64 : Z := 62.
Definition EM_AARCH64 : Z := 183.
Definition SHN_UNDEF : Z := 0.
Definition SHN_LORESERVE : Z := 65280.
Definition SHT_PROGBITS : Z := 1.
Definition SHT_NOBITS : Z := 8.
Definition SHF_WRITE : Z := 1.
Definition SHF_ALLOC : Z := 2.
Definition SHF_EXECINSTR : Z := 4.
Definition STT_NOTYPE : Z := 0.
Definition STT_OBJECT : Z := 1.
Definition STT_FUNC : Z := 2.
Definition STT_SECTION : Z := 3.
Definition STT_FILE : Z := 4.
Definition STB_GLOBAL : Z := 1.
Definition STB_WEAK : Z := 2.

Definition ST_TYPE (info : Z) : Z := Z.land info 15.
Definition ST_BIND (info : Z) : Z := Z.shiftr info 4.

Definition R_X86_64_64 : Z := 1.
Definition R_X86_64_PC32 : Z := 2.
Definition R_X86_64_PLT32 : Z := 4.
Definition R_X86_64_GOTPCREL : Z := 9.
Definition R_X86_64_32 : Z := 10.
Definition R_X86_64_32S : Z := 11.
Definition R_X86_64_GOTPCRELX : Z := 41.
Definition R_X86_64_REX_GOTPCRELX : Z := 42.

Definition R_AARCH64_ABS64 : Z := 257.
Definition R_AARCH64_ABS32 : Z := 258.
Definition R_AARCH64_ADR_PREL_PG_HI21 : Z := 275.
Definition R_AARCH64_ADD_ABS_LO12_NC : Z := 277.
Definition R_AARCH64_LDST8_ABS_LO12_NC : Z := 278.
Definition R_AARCH64_JUMP26 : Z := 282.
Definition R_AARCH64_CALL26 : Z := 283.
Definition R_AARCH64_LDST16_ABS_LO12_NC : Z := 284.
Definition R_AARCH64_LDST32_ABS_LO12_NC : Z := 285.
Definition R_AARCH64_LDST64_ABS_LO12_NC : Z := 286.
Definition R_AARCH64_LDST128_ABS_LO12_NC : Z := 299.
Definition R_AARCH64_ADR_GOT_PAGE : Z := 311.
Definition R_AARCH64_LD64_GOT_LO12_NC : Z := 312.

(** [ef.Section(name)]: the first section of that name. *)
Definition elf_section (ef : efile) (name : string) : option esection :=
  snd <$> list_find (fun s => es_name s = name) (ef_sections ef).

(** [ef.Sections[i]] *)
Definition elf_section_at (ef : efile) (i : Z) : option esection :=
  if 0 <=? i then ef_sections ef !! Z.to_nat i else None.

(** [int(s.Section) < len(ef.Sections)] with a defined section. *)
Definition sym_defined (ef : efile) (y : esymbol) : bool :=
  negb (ey_section y =? SHN_UNDEF) && (ey_section y <? zlen (ef_sections ef)).

(** One RELA entry: [r_offset], [r_info], [r_addend]. *)
Definition rela_entry (d : list Z) : Z * Z * Z :=
  (le_value (take 8 d), le_value (take 8 (drop 8 d)), s64 (le_value (take 8 (drop 16 d)))).

(** The entries of a [.rela*] section: [for i := 0; i+24 <= len(d); i += 24]. *)
Fixpoint rela_entries_go (fuel : nat) (d : list Z) : list (Z * Z * Z) :=
  match fuel with
  | O => []
  | S fuel => if zlen d <? 24 then [] else rela_entry d :: rela_entries_go fuel (drop 24 d)
  end.

Definition rela_entries (d : list Z) : list (Z * Z * Z) := rela_entries_go (length d) d.
