(* ===== verification/GocobjRead.v ===== *)
(** * The reader

    Models [Parse] and [elfCallRelocs] of src/internal/gocobj/read.go.  [Open]
    only opens the file.  The ELF container is an [efile] (file Elf). *)

From stdpp Require Import base list strings gmap pretty.
From S2P Require Import Prelude Codec Format Elf.

(** ** Reading a record

    The callbacks [Parse] passes to [records] read fields from the record's [buf]
    and call the closure [str], which records the first string error in [strErr]. *)

Record pst := mkPst { ps_buf : buf; ps_str : option err }.

(** A callback's code: it may return early with an error. *)
Definition pe (A : Type) : Type := pst -> res err A * pst.

#[export] Instance pe_ret : MRet pe := fun A x s => (Ok x, s).
#[export] Instance pe_bind : MBind pe := fun A B k m s =>
  match m s with (Ok x, s') => k x s' | (Fail e, s') => (Fail e, s') end.

Definition pe_fail {A} (e : err) : pe A := fun s => (Fail e, s).

(** A field of the record. *)
Definition fld {A} (m : rd A) : pe A := fun s =>
  let '(x, r) := m (ps_buf s) in (Ok x, mkPst r (ps_str s)).

(** [len(r.b)] *)
Definition remaining : pe Z := fun s => (Ok (zlen (b_data (ps_buf s))), s).

(** [bytes.IndexByte(b, 0)] *)
Fixpoint index_nul (b : list Z) : option nat :=
  match b with
  | [] => None
  | c :: b => if c =? 0 then Some O else S <$> index_nul b
  end.

(** [for i := 0; i < n && r.err == nil; i++ { a = m(a) }].  Every turn without
    an error consumes a byte, so one more turn than the bytes left is enough. *)
Fixpoint loop_go {A} (fuel : nat) (n : Z) (m : A -> pe A) (a : A) : pe A := fun s =>
  match fuel with
  | O => (Ok a, s)
  | S fuel =>
      if (0 <? n) && (if b_err (ps_buf s) then false else true)
      then match m a s with
           | (Ok a', s') => loop_go fuel (n - 1) m a' s'
           | (Fail e, s') => (Fail e, s')
           end
      else (Ok a, s)
  end.

Definition loop {A} (n : Z) (m : A -> pe A) (a : A) : pe A := fun s =>
  loop_go (S (length (b_data (ps_buf s)))) n m a s.

Section Parse.
Variable strtab : list Z.

(** The closure [str]. *)
Definition str (off : Z) : pe string := fun s =>
  if zlen strtab <=? off then
    (Ok "", mkPst (ps_buf s)
       (if negb (off =? 0) && (if ps_str s then false else true)
        then Some (ErrStrRange off) else ps_str s))
  else
    match index_nul (drop (Z.to_nat off) strtab) with
    | None => (Ok "", mkPst (ps_buf s) (Some (ErrStrTerm off)))
    | Some n => (Ok (string_of_bytes (take n (drop (Z.to_nat off) strtab))), s)
    end.

Definition strref : pe string := off ← fld get_uleb; str off.

Definition read_file (_ : Z) (files : list string) : pe (list string) :=
  f ← strref; mret (files ++ [f]).

(** The last element of a slice replaced. *)
Definition set_last {A} (l : list A) (x : A) : list A := take (length l - 1) l ++ [x].

(** 1.4: of two FILE, LINE or INL_INDEX rows with the same pc the later wins. *)
Definition push_entry (k : Z) (es : list PCEntry) (e : PCEntry) : list PCEntry :=
  match last es with
  | Some p => if (pc_PC p =? pc_PC e) && lineKind k then set_last es e else es ++ [e]
  | None => es ++ [e]
  end.

Definition read_pcentry (k : Z) (es : list PCEntry) : pe (list PCEntry) :=
  pc ← fld get_uleb; v ← fld get_sleb; mret (push_entry k es (mkPC pc v)).

Definition read_pctable (ts : list PCTable) : pe (list PCTable) :=
  k ← fld get_u8;
  c ← fld get_uleb;
  n ← remaining;
  if n <? c then pe_fail ErrShort
  else es ← loop c (read_pcentry k) []; mret (ts ++ [mkPCT k es]).

(** The captured [out.pcvStarts] and [pcv]; a nil slice of tables when the
    record holds none. *)
Definition nilable {A} (l : list A) : option (list A) :=
  match l with [] => None | _ => Some l end.

Definition read_pcv (off : Z) (s : gset Z * gmap Z (option (list PCTable)))
    : pe (gset Z * gmap Z (option (list PCTable))) :=
  n ← fld get_uleb;
  ts ← loop n read_pctable [];
  mret ({[ off ]} ∪ fst s, <[off := nilable ts]> (snd s)).

Definition read_safepoint (nargs nlocals : Z) (sps : list Safepoint) : pe (list Safepoint) :=
  pc ← fld get_uleb;
  args ← fld (get_bytes (u64 (nargs + 7) / 8));
  locals ← fld (get_bytes (u64 (nlocals + 7) / 8));
  nc ← fld get_uleb;
  color ← fld (get_bytes nc);
  mret (sps ++ [mkSP pc args locals color]).

Definition read_gc (off : Z) (s : gset Z * gmap Z GCMap) : pe (gset Z * gmap Z GCMap) :=
  nargs ← fld get_uleb;
  nlocals ← fld get_uleb;
  n ← fld get_uleb;
  k ← remaining;
  if k <? n then pe_fail ErrShort
  else
    sps ← loop n (read_safepoint nargs nlocals) [];
    mret ({[ off ]} ∪ fst s, <[off := mkGC nargs nlocals sps]> (snd s)).

Definition read_inlnode (ns : list InlNode) : pe (list InlNode) :=
  parent ← fld get_sleb;
  file ← fld get_uleb;
  line ← fld get_uleb;
  func ← strref;
  ppc ← fld get_uleb;
  sl ← fld get_uleb;
  mret (ns ++ [mkInl parent file line func ppc sl]).

Definition read_inl (off : Z) (s : gmap Z (option (list InlNode)))
    : pe (gmap Z (option (list InlNode))) :=
  n ← fld get_uleb;
  k ← remaining;
  if k <? n then pe_fail ErrShort
  else ns ← loop n read_inlnode []; mret (<[off := nilable ns]> s).

Section Funcs.
Variable (pcv : gmap Z (option (list PCTable))) (gcs : gmap Z GCMap)
  (inls : gmap Z (option (list InlNode))).

Definition read_func (_ : Z) (fns : list Func) : pe (list Func) :=
  name ← strref;
  ts ← fld get_uleb;
  fs ← fld get_uleb;
  asz ← fld get_uleb;
  abi ← fld get_u8;
  kind ← fld get_u8;
  flags ← fld get_uleb;
  id ← fld get_u8;
  file ← fld get_uleb;
  sl ← fld get_uleb;
  pcvOff ← fld get_uleb;
  gcOff ← fld get_uleb;
  inlOff ← fld get_uleb;
  k1 ← remaining;
  sysv ← (if 0 <? k1 then fld get_uleb else mret 0);
  k2 ← remaining;
  slots ← (if 0 <? k2
           then n ← fld get_uleb; loop n (fun l => v ← fld get_uleb; mret (l ++ [v])) []
           else mret []);
  mret (fns ++
    [mkFunc name ts fs asz abi kind flags id file sl sysv slots
       (if pcvOff =? 0 then None else mjoin (pcv !! (pcvOff - 1)))
       (if inlOff =? 0 then None else mjoin (inls !! (inlOff - 1)))
       (if gcOff =? 0 then None else gcs !! (gcOff - 1))
       pcvOff gcOff inlOff]).
End Funcs.

Definition read_stackmap (_ : Z) (sms : list Stackmap) : pe (list Stackmap) :=
  func ← strref;
  io ← fld get_uleb;
  id ← fld get_uleb;
  n ← fld get_uleb;
  locs ← loop n (fun l =>
           ty ← fld get_u8; sz ← fld get_uleb; rg ← fld get_uleb; o ← fld get_sleb;
           mret (l ++ [mkLoc ty sz rg o])) [];
  mret (sms ++ [mkSM func io id locs]).

Definition read_wrapper (_ : Z) (ws : list Wrapper) : pe (list Wrapper) :=
  sym ← strref;
  target ← strref;
  from ← fld get_u8;
  to ← fld get_u8;
  n ← fld get_uleb;
  spills ← loop n (fun l =>
             rg ← strref; o ← fld get_uleb; sz ← fld get_uleb; p ← fld get_u8;
             mret (l ++ [mkSpill rg o sz (negb (p =? 0))])) [];
  m ← fld get_uleb;
  ptrs ← loop m (fun l => v ← fld get_uleb; mret (l ++ [v])) [];
  mret (ws ++ [mkWrapper sym target from to spills ptrs]).

Definition read_reloc (_ : Z) (rs : list Reloc) : pe (list Reloc) :=
  func ← strref;
  off ← fld get_uleb;
  width ← fld get_u8;
  kind ← fld get_u8;
  target ← strref;
  add ← fld get_sleb;
  flags ← fld get_u8;
  mret (rs ++ [mkReloc func off width kind target add flags]).

Definition read_data (_ : Z) (ds : list Data) : pe (list Data) :=
  name ← strref;
  size ← fld get_uleb;
  al ← fld get_u8;
  flags ← fld get_uleb;
  nbits ← fld get_uleb;
  bm ← fld (get_bytes (u64 (nbits + 7) / 8));
  mret (ds ++ [mkData name size al flags nbits bm]).

End Parse.

(** ** Symbols and text *)

(** The loop over the ELF symbols: [out.Symbols] and [out.Text]. *)
Definition add_symbol (ef : efile) (acc : gmap string Symbol * gmap string (list Z)) (y : esymbol)
    : res err (gmap string Symbol * gmap string (list Z)) :=
  let '(syms, text) := acc in
  let ty := ST_TYPE (ey_info y) in
  if String.eqb (ey_name y) "" || (ty =? STT_SECTION) || (ty =? STT_FILE) then Ok (syms, text)
  else
    let e := default (mkSymbol (ey_name y) false false 0 "" 0 0) (syms !! ey_name y) in
    let isf := ty =? STT_FUNC in
    match (if sym_defined ef y then elf_section_at ef (ey_section y) else None) with
    | None =>
        Ok (<[ey_name y := mkSymbol (s_Name e) isf false (ey_size y) (s_Section e) (ey_value y)
                (s_Count e + 1)]> syms, text)
    | Some sc =>
        let syms := <[ey_name y := mkSymbol (s_Name e) isf true (ey_size y) (es_name sc)
                        (ey_value y) (s_Count e + 1)]> syms in
        if isf && (es_type sc =? SHT_PROGBITS) then
          match es_data sc with
          | Some d =>
              let hi := u64 (ey_value y + ey_size y) in
              if hi <=? zlen d then
                if hi <? ey_value y then Fail ErrPanic
                else Ok (syms, <[ey_name y := take (Z.to_nat (ey_size y))
                                   (drop (Z.to_nat (ey_value y)) d)]> text)
              else Ok (syms, text)
          | None => Ok (syms, text)
          end
        else Ok (syms, text)
    end.

Fixpoint add_symbols (ef : efile) (acc : gmap string Symbol * gmap string (list Z))
    (l : list esymbol) : res err (gmap string Symbol * gmap string (list Z)) :=
  match l with
  | [] => Ok acc
  | y :: l => acc' ← add_symbol ef acc y; add_symbols ef acc' l
  end.

(** [fmt.Sprintf("%s+%d", name, off)] *)
Definition at_key (name : string) (off : Z) : string := name +:+ "+" +:+ dec off.

(** The name of the function a section-relative reference points at. *)
Definition func_at (syms : list esymbol) (sec addr : Z) : string :=
  foldl (fun name y =>
    if (ey_section y =? sec) && (ST_TYPE (ey_info y) =? STT_FUNC) && (ey_value y =? addr)
    then ey_name y else name) "" syms.

(** One RELA entry of a text section: its target, if it is a 4-byte
    PC-relative (amd64) or branch (arm64) relocation. *)
Definition call_target (a64 : bool) (syms : list esymbol) (info add : Z) : option string :=
  let typ := Z.land info 4294967295 in
  let bias := if a64 then 0 else 4 in
  let idx := Z.shiftr info 32 in
  if (if a64 then negb ((typ =? R_AARCH64_CALL26) || (typ =? R_AARCH64_JUMP26))
      else negb ((typ =? R_X86_64_PLT32) || (typ =? R_X86_64_PC32))) then None
  else if (idx =? 0) || (zlen syms <? idx) then None
  else
    match syms !! Z.to_nat (idx - 1) with
    | None => None
    | Some target =>
        Some (if ST_TYPE (ey_info target) =? STT_SECTION
              then func_at syms (ey_section target)
                     (u64 (ey_value target + u64 (s64 (add + bias))))
              else ey_name target)
    end.

Definition elfCallRelocs (ef : efile) (syms : list esymbol) : gmap string string :=
  let a64 := ef_machine ef =? EM_AARCH64 in
  if negb (ef_machine ef =? EM_X86_64) && negb a64 then ∅
  else
    foldl (fun out '(si, s) =>
      if Z.land (es_flags s) SHF_EXECINSTR =? 0 then out
      else
        match elf_section ef (".rela" +:+ es_name s) with
        | None => out
        | Some rs =>
            match es_data rs with
            | None => out
            | Some data =>
                let funcs := filter (fun y => ey_section y = Z.of_nat si /\
                                              ST_TYPE (ey_info y) = STT_FUNC) syms in
                foldl (fun out '(off, info, add) =>
                  match call_target a64 syms info add with
                  | None => out
                  | Some name =>
                      foldl (fun out f =>
                        if (ey_value f <=? off) && (off <? u64 (ey_value f + ey_size f))
                        then <[at_key (ey_name f) (off - ey_value f) := name]> out else out)
                        out funcs
                  end) out (rela_entries data)
            end
        end) ∅ (imap pair (ef_sections ef)).

(** ** Parse *)

(** A callback of [records], with its captured variables and [strErr]. *)
Definition callback {A} (m : Z -> A -> pe A) (off : Z) (s : A * option err) (r : buf)
    : (A * option err) * option err * buf :=
  match m off (fst s) (mkPst r (snd s)) with
  | (Ok a, p) => (a, ps_str p, None, ps_buf p)
  | (Fail e, p) => (fst s, ps_str p, Some e, ps_buf p)
  end.

Definition rec_section {A} (sec : string) (m : Z -> A -> pe A) (b : list Z) (a : A)
    (se : option err) : res err (A * option err) := records sec (callback m) b (a, se).

(** The closure [sec]: nil data for a section that is not there. *)
Definition sec_data (ef : efile) (name : string) : option (list Z) :=
  match elf_section ef name with None => Some [] | Some s => es_data s end.

(** [b, _ := sec(name)] *)
Definition sec_bytes (ef : efile) (name : string) : list Z := default [] (sec_data ef name).

Definition parse_header (hdr : list Z) : res err (Z * Z * Z * Z * Z * Z) :=
  if (zlen hdr <? HeaderSize) || negb (bool_decide (take 8 hdr = Magic)) then Fail ErrBadMagic
  else
    let major := le_value (take 2 (drop 8 hdr)) in
    let minor := le_value (take 2 (drop 10 hdr)) in
    if negb (major =? Major) then Fail (ErrMajor major)
    else Ok (major, minor, default 0 (hdr !! 12%nat), default 0 (hdr !! 13%nat),
             le_value (take 4 (drop 16 hdr)), le_value (take 4 (drop 20 hdr))).

Definition str_top (strtab : list Z) (off : Z) (se : option err) : string * option err :=
  match str strtab off (mkPst (Buf [] None) se) with
  | (Ok v, p) => (v, ps_str p)
  | (Fail _, p) => ("", ps_str p)
  end.

Definition Parse (ef : efile) : res err File :=
  match elf_section ef SecHeader, sec_data ef SecHeader with
  | None, _ => Fail ErrNoHeader
  | Some _, None => Fail ErrELF
  | Some _, Some hdr =>
      '(major, minor, arch, flags, prof, prod) ← parse_header hdr;
      match sec_data ef SecStrtab with
      | None => Fail ErrELF
      | Some strtab =>
          let '(profile, se) := str_top strtab prof None in
          let '(producer, se) := str_top strtab prod se in
          match ef_symbols ef with
          | SymErr => Fail ErrELF
          | sy =>
              let syms := match sy with SymOk l => l | _ => [] end in
              '(symbols, text) ← add_symbols ef (∅, ∅) syms;
              '(files, se) ← rec_section SecFiles (read_file strtab) (sec_bytes ef SecFiles) [] se;
              '(pcvs, se) ← rec_section SecPCValue read_pcv (sec_bytes ef SecPCValue) (∅, ∅) se;
              '(gcs, se) ← rec_section SecGCMaps read_gc (sec_bytes ef SecGCMaps) (∅, ∅) se;
              '(inls, se) ← rec_section SecInlTree (read_inl strtab) (sec_bytes ef SecInlTree) ∅ se;
              '(funcs, se) ← rec_section SecFuncs (read_func strtab (snd pcvs) (snd gcs) inls)
                               (sec_bytes ef SecFuncs) [] se;
              '(sms, se) ← rec_section SecStackmaps (read_stackmap strtab)
                             (sec_bytes ef SecStackmaps) [] se;
              '(ws, se) ← rec_section SecWrappers (read_wrapper strtab)
                            (sec_bytes ef SecWrappers) [] se;
              '(relocs, se) ← rec_section SecRelocs (read_reloc strtab)
                                (sec_bytes ef SecRelocs) [] se;
              '(data, se) ← rec_section SecData (read_data strtab) (sec_bytes ef SecData) [] se;
              match se with
              | Some e => Fail (ErrStrtab e)
              | None =>
                  Ok (mkFile (mkHeader major minor arch flags profile producer) files funcs relocs
                        sms ws data symbols text (elfCallRelocs ef syms) (fst pcvs) (fst gcs))
              end
          end
      end
  end.

(** A symbol whose value and size sum to 2^64 passes the bounds check and makes
    the slice expression panic. *)
Lemma add_symbol_panics :
  Parse (mkElf EM_X86_64
    [mkSec "" 0 0 0 (Some []); mkSec ".text" SHT_PROGBITS SHF_EXECINSTR 4 (Some [0; 0; 0; 0]);
     mkSec SecHeader SHT_PROGBITS 0 28
       (Some (Magic ++ [1; 0; 4; 0; 1; 0; 0; 0; 0; 0; 0; 0; 0; 0; 0; 0; 0; 0; 0; 0]))]
    (SymOk [mkSym "f" STT_FUNC 1 8 (2 ^ 64 - 8)])) = Fail ErrPanic.
Proof. vm_compute. reflexivity. Qed.
