(* ===== verification/GocobjRoundtrip.v ===== *)
(** * Reading back what the writer wrote

    Relates [Builder.Sections] (GocobjWrite) and [Parse] (GocobjRead): whatever
    tables a builder holds, the reader recovers them from the sections.  The
    interface between the two is the string table: [intern] only ever appends, so
    an offset stays valid, and [str] reads the name at a valid offset. *)

From stdpp Require Import base list strings gmap.
From S2P Require Import Prelude Codec Format Elf GocobjWrite GocobjRead.

(** ** Well-typed builders *)

Definition no_nul (s : string) : Prop := Forall (fun b => b <> 0) (bytes_of_string s).

Definition reloc_ok (r : Reloc) : Prop :=
  no_nul (r_Func r) /\ no_nul (r_Target r) /\ is_u64 (r_Offset r) /\ is_s64 (r_Addend r).

Definition loc_ok (l : StackmapLoc) : Prop :=
  is_u64 (sl_Size l) /\ is_u64 (sl_Reg l) /\ is_s64 (sl_Off l).

Definition stackmap_ok (m : Stackmap) : Prop :=
  no_nul (sm_Func m) /\ is_u64 (sm_InsnOff m) /\ is_u64 (sm_ID m) /\ Forall loc_ok (sm_Locs m).

(** The bitmap of a data symbol has one bit per word ([NBits]). *)
Definition data_ok (d : Data) : Prop :=
  no_nul (d_Name d) /\ is_u64 (d_Size d) /\ is_u64 (d_Flags d) /\ is_u64 (d_NBits d + 7) /\
  0 <= d_NBits d /\ zlen (d_Bitmap d) = (d_NBits d + 7) / 8.

(** A line table never repeats a pc in adjacent rows (the reader merges them). *)
Fixpoint no_repeat (es : list PCEntry) : Prop :=
  match es with
  | e :: (e' :: _) as es' => pc_PC e <> pc_PC e' /\ no_repeat es'
  | _ => True
  end.

Definition pctable_ok (t : PCTable) : Prop :=
  Forall entry_ok (pct_Entries t) /\ (lineKind (pct_Kind t) = true -> no_repeat (pct_Entries t)).

Definition safepoint_ok (g : GCMap) (sp : Safepoint) : Prop :=
  is_u64 (sp_PC sp) /\ zlen (sp_Args sp) = (gc_NArgs g + 7) / 8 /\
  zlen (sp_Locals sp) = (gc_NLocals g + 7) / 8.

Definition gc_ok (g : GCMap) : Prop :=
  0 <= gc_NArgs g /\ is_u64 (gc_NArgs g + 7) /\ 0 <= gc_NLocals g /\ is_u64 (gc_NLocals g + 7) /\
  Forall (safepoint_ok g) (gc_Safepoints g).

Definition inlnode_ok (n : InlNode) : Prop := no_nul (in_Func n) /\ inl_ok n.

Definition func_ok (minor : Z) (f : Func) : Prop :=
  no_nul (fn_Name f) /\ is_u64 (fn_TextSize f) /\ is_u64 (fn_FrameSize f) /\
  is_u64 (fn_ArgSize f) /\ is_u64 (fn_Flags f) /\ is_u64 (fn_File f) /\
  is_u64 (fn_StartLine f) /\ is_u64 (fn_SysvPtrRegs f) /\ Forall is_u64 (fn_SptrSlots f) /\
  (minor < 1 -> fn_SysvPtrRegs f = 0) /\ (minor < 2 -> fn_SptrSlots f = []) /\
  (forall ts, fn_PCValue f = Some ts -> ts <> [] /\ Forall pctable_ok ts) /\
  (forall g, fn_GC f = Some g -> gc_ok g) /\
  (forall ns, fn_Inl f = Some ns -> ns <> [] /\ Forall inlnode_ok ns).

Definition builder_ok (bd : Builder) : Prop :=
  let h := bd_Header bd in
  no_nul (h_Profile h) /\ no_nul (h_Producer h) /\ is_u16 (h_Minor h) /\
  Forall no_nul (bd_Files bd) /\ Forall (func_ok (h_Minor h)) (bd_Funcs bd) /\
  Forall reloc_ok (bd_Relocs bd) /\ Forall stackmap_ok (bd_Stackmaps bd) /\
  Forall data_ok (bd_Data bd).

(** The sections fit the machine: lengths are 64-bit and the strings the header
    names with 32-bit offsets are within reach. *)
Definition sections_fit (secs : gmap string (list Z)) : Prop :=
  (forall n b, secs !! n = Some b -> is_u64 (zlen b)) /\
  (forall b, secs !! SecStrtab = Some b -> is_u32 (zlen b)).

(** ** The string table *)

Definition str_at (tab : list Z) (v : string) (o : Z) : Prop :=
  exists pre post, tab = pre ++ bytes_of_string v ++ 0 :: post /\ zlen pre = o.

Definition strs_wf (t : strs) : Prop := forall v o, st_idx t !! v = Some o -> str_at (st_bytes t) v o.

Definition strs_ext (t t' : strs) : Prop := exists k, st_bytes t' = st_bytes t ++ k.

Lemma str_at_app tab v o k : str_at tab v o -> str_at (tab ++ k) v o.
Proof.
  intros (pre & post & -> & Ho). exists pre, (post ++ k).
  split; [|done]. by rewrite <-!app_assoc.
Qed.

Lemma index_nul_string v post :
  no_nul v -> index_nul (bytes_of_string v ++ 0 :: post) = Some (length (bytes_of_string v)).
Proof.
  unfold no_nul. induction (bytes_of_string v) as [|b l IH]; intros H; [done|].
  inversion H; subst. simpl. rewrite (proj2 (Z.eqb_neq b 0)) by done. by rewrite IH.
Qed.

Lemma str_ok tab v o s : no_nul v -> str_at tab v o -> str tab o s = (Ok v, s).
Proof.
  intros Hv (pre & post & -> & <-). unfold str. autorewrite with goc.
  pose proof (zlen_nonneg post). pose proof (zlen_nonneg (bytes_of_string v)).
  rewrite (proj2 (Z.leb_gt _ _)) by lia.
  rewrite drop_zlen_app, index_nul_string, take_app_length by done.
  by rewrite string_of_bytes_of_string.
Qed.

Lemma strs0_wf : strs_wf strs0.
Proof.
  intros v o H. unfold strs0 in *; simpl in *.
  apply lookup_singleton_Some in H as [<- <-]. by exists [], [].
Qed.

(** [writes m Q]: run on a well-formed table, [m] leaves a well-formed extension
    of it, and its result satisfies [Q] for every later table. *)
Definition writes {A} (m : st strs A) (Q : list Z -> A -> Prop) : Prop :=
  forall t, strs_wf t ->
    strs_wf (snd (m t)) /\ strs_ext t (snd (m t)) /\
    forall k, Q (st_bytes (snd (m t)) ++ k) (fst (m t)).

Lemma writes_ret {A} (a : A) Q : (forall tab, Q tab a) -> writes (mret a) Q.
Proof. intros H t Ht. split_and!; [done | by exists []; rewrite app_nil_r | intros; apply H]. Qed.

Lemma writes_bind {A B} (m : st strs A) (k : A -> st strs B) Q R :
  writes m Q -> (forall a, writes (k a) (fun tab b => Q tab a -> R tab b)) ->
  writes (m ≫= k) R.
Proof.
  intros Hm Hk t Ht. unfold mbind, st_bind. destruct (Hm t Ht) as (H1 & [k1 H2] & H3).
  destruct (m t) as [a t1]. simpl in *. destruct (Hk a t1 H1) as (H4 & [k2 H5] & H6).
  destruct (k a t1) as [b t2]. simpl in *. split_and!; [done | |].
  - exists (k1 ++ k2). by rewrite H5, H2, <-app_assoc.
  - intros k'. apply H6. rewrite H5, <-app_assoc. apply H3.
Qed.

Lemma writes_mono {A} (m : st strs A) (Q R : list Z -> A -> Prop) :
  writes m Q -> (forall tab a, Q tab a -> R tab a) -> writes m R.
Proof. intros Hm H t Ht. destruct (Hm t Ht) as (? & ? & ?). split_and!; auto. Qed.

Lemma writes_intern v : writes (intern v) (fun tab o => str_at tab v o).
Proof.
  intros t Ht. unfold intern. destruct (st_idx t !! v) as [o|] eqn:E; simpl.
  - split_and!; [done | by exists []; rewrite app_nil_r |]. intros k. by apply str_at_app, Ht.
  - assert (str_at (st_bytes t ++ bytes_of_string v ++ [0]) v (zlen (st_bytes t))) as Hat
      by (by exists (st_bytes t), []).
    split_and!; [| by eexists | intros k; by apply str_at_app].
    intros w o Hw. simpl in *. destruct (decide (w = v)) as [->|Hne].
    + rewrite lookup_insert_eq in Hw. by simplify_eq.
    + rewrite lookup_insert_ne in Hw by done. by apply str_at_app, Ht.
Qed.

(** A loop that appends one record per element. *)
Lemma writes_records {X} (put : list Z -> X -> st strs (list Z)) (R : list Z -> X -> list Z -> Prop)
    (P : X -> Prop) xs :
  (forall e x, P x ->
     writes (put e x) (fun tab e' => exists body, e' = e ++ record_bytes body /\ R tab x body)) ->
  Forall P xs ->
  forall e, writes (st_fold put e xs)
    (fun tab e' => exists bodies, e' = e ++ section_bytes bodies /\ Forall2 (R tab) xs bodies).
Proof.
  intros Hput. induction 1 as [|x xs Hx Hxs IH]; intros e; cbn [st_fold].
  { apply writes_ret. intros tab. exists []. by rewrite app_nil_r. }
  eapply writes_bind; [by apply Hput|]. intros e1. eapply writes_mono; [apply IH|].
  intros tab e2 (bodies & -> & H2) (body & -> & H1). exists (body :: bodies).
  split; [|by constructor]. unfold section_bytes. by rewrite fmap_cons, <-app_assoc.
Qed.

(** ** Reading fields *)

(** The state of a callback in the middle of a record. *)
Definition at_ (b : list Z) (se : option err) : pst := mkPst (Buf b None) se.

Lemma pe_bind_ok {A B} (m : pe A) (k : A -> pe B) s x s' :
  m s = (Ok x, s') -> (m ≫= k) s = k x s'.
Proof. intros H. unfold mbind, pe_bind. by rewrite H. Qed.

Lemma fld_uleb v rest se :
  is_u64 v -> fld get_uleb (at_ (uvarint_bytes v ++ rest) se) = (Ok v, at_ rest se).
Proof. intros H. unfold fld, at_. cbn [ps_buf ps_str]. by rewrite get_uleb_app. Qed.

Lemma fld_sleb v rest se :
  is_s64 v -> fld get_sleb (at_ (sleb_bytes v ++ rest) se) = (Ok v, at_ rest se).
Proof. intros H. unfold fld, at_. cbn [ps_buf ps_str]. by rewrite get_sleb_app. Qed.

Lemma fld_u8 v rest se : fld get_u8 (at_ ([v] ++ rest) se) = (Ok v, at_ rest se).
Proof. done. Qed.

Lemma fld_bytes n l rest se :
  n = zlen l -> fld (get_bytes n) (at_ (l ++ rest) se) = (Ok l, at_ rest se).
Proof. intros ->. unfold fld, at_. cbn [ps_buf ps_str]. by rewrite get_bytes_app. Qed.

Lemma remaining_at b se : remaining (at_ b se) = (Ok (zlen b), at_ b se).
Proof. done. Qed.

Lemma strref_at tab v o rest se :
  str_at tab v o -> no_nul v -> is_u64 o ->
  strref tab (at_ (uvarint_bytes o ++ rest) se) = (Ok v, at_ rest se).
Proof.
  intros Ho Hv Hr. unfold strref. erewrite pe_bind_ok by by apply fld_uleb. by apply str_ok.
Qed.

Lemma str_at_u64 tab v o : str_at tab v o -> is_u64 (zlen tab) -> is_u64 o.
Proof.
  intros (pre & post & -> & <-). autorewrite with goc. unfold is_u64.
  pose proof (zlen_nonneg pre). pose proof (zlen_nonneg post).
  pose proof (zlen_nonneg (bytes_of_string v)). lia.
Qed.

(** One step of a callback: run the field reader in front. *)
Ltac rstep :=
  erewrite pe_bind_ok;
  [| first [ apply remaining_at
           | apply fld_uleb; solve [eauto with goc]
           | apply fld_sleb; solve [eauto with goc]
           | apply fld_u8
           | apply strref_at; solve [eauto using str_at_u64 with goc] ] ]; cbv beta.

(** The encoder's operations as concatenations, in the order they are read. *)
Lemma put_u8_app e v : put_u8 e v = e ++ [v].
Proof. done. Qed.
Lemma put_uleb_app e v : put_uleb e v = e ++ uvarint_bytes v.
Proof. done. Qed.
Lemma put_sleb_app e v : put_sleb e v = e ++ sleb_bytes v.
Proof. done. Qed.
Lemma put_raw_app e v : put_raw e v = e ++ v.
Proof. done. Qed.
#[export] Hint Rewrite put_u8_app put_uleb_app put_sleb_app put_raw_app : enc.

Ltac encs := autorewrite with enc; rewrite ?app_nil_l, <-?app_assoc.

Lemma foldl_enc {X} (f : list Z -> X -> list Z) (g : X -> list Z) xs e :
  (forall r x, f r x = r ++ g x) -> foldl f e xs = e ++ concat (g <$> xs).
Proof.
  intros H. revert e. induction xs as [|x xs IH]; intros e; simpl; [by rewrite app_nil_r|].
  by rewrite IH, H, <-app_assoc.
Qed.

(** ** Loops over the elements of a record *)

Section Loop.
Context {A X : Type}.
Variables (m : A -> pe A) (upd : A -> X -> A) (R : X -> list Z -> Prop).
Hypothesis Hm : forall a x b rest se,
  R x b -> m a (at_ (b ++ rest) se) = (Ok (upd a x), at_ rest se).
Hypothesis Hne : forall x b, R x b -> b <> [].

Lemma concat_zlen xs bs : Forall2 R xs bs -> zlen xs <= zlen (concat bs).
Proof using Hne.
  clear Hm. induction 1 as [|x b xs bs Hb _ IH]; simpl; [done|].
  rewrite zlen_cons, zlen_app. pose proof (Hne _ _ Hb). destruct b; [done|]. rewrite zlen_cons.
  pose proof (zlen_nonneg b). lia.
Qed.

Lemma loop_go_at xs bs : Forall2 R xs bs -> forall fuel a rest se,
  (length xs < fuel)%nat ->
  loop_go fuel (zlen xs) m a (at_ (concat bs ++ rest) se) = (Ok (foldl upd a xs), at_ rest se).
Proof using Hm.
  induction 1 as [|x b xs bs Hb _ IH]; intros fuel a rest se Hf.
  - destruct fuel; done.
  - destruct fuel as [|fuel]; [simpl in Hf; lia|]. cbn [concat foldl]. rewrite <-app_assoc.
    cbn [loop_go ps_buf at_ b_err]. rewrite zlen_cons.
    rewrite (proj2 (Z.ltb_lt 0 _)) by (pose proof (zlen_nonneg xs); lia). cbn [andb].
    fold (at_ (b ++ concat bs ++ rest) se). rewrite (Hm a x b _ se Hb).
    replace (1 + zlen xs - 1) with (zlen xs) by lia. apply IH. simpl in Hf. lia.
Qed.

Lemma loop_at xs bs a rest se :
  Forall2 R xs bs ->
  loop (zlen xs) m a (at_ (concat bs ++ rest) se) = (Ok (foldl upd a xs), at_ rest se).
Proof using Hm Hne.
  intros H. unfold loop. apply loop_go_at; [done|]. cbn [at_ ps_buf b_data].
  pose proof (concat_zlen _ _ H). unfold zlen in *. rewrite length_app. lia.
Qed.
End Loop.

Lemma foldl_snoc {A} (l k : list A) : foldl (fun l x => l ++ [x]) l k = l ++ k.
Proof.
  revert l. induction k as [|x k IH]; intros l; simpl; [by rewrite app_nil_r|].
  by rewrite IH, <-app_assoc.
Qed.

Lemma uvarint_bytes_ne v rest : uvarint_bytes v ++ rest <> [].
Proof.
  pose proof (uvarint_bytes_pos v). destruct (uvarint_bytes v); [done | by simpl].
Qed.

Lemma Forall2_fmap_graph {X} (P : X -> Prop) (g : X -> list Z) xs :
  Forall P xs -> Forall2 (fun x b => P x /\ b = g x) xs (g <$> xs).
Proof. induction 1; simpl; constructor; auto. Qed.

(** ** Sections of records *)

Lemma section_bytes_cons b bs : section_bytes (b :: bs) = record_bytes b ++ section_bytes bs.
Proof. done. Qed.

Lemma section_bytes_app bs cs : section_bytes (bs ++ cs) = section_bytes bs ++ section_bytes cs.
Proof. unfold section_bytes. by rewrite fmap_app, concat_app. Qed.

Lemma section_bodies_u64 bodies :
  is_u64 (zlen (section_bytes bodies)) -> Forall (fun b => is_u64 (zlen b)) bodies.
Proof.
  induction bodies as [|b bodies IH]; intros H; [constructor|].
  rewrite section_bytes_cons in H. unfold record_bytes in H. rewrite !zlen_app in H.
  zpos. unfold is_u64 in *. constructor; [lia | apply IH; lia].
Qed.

Section Runs.
Context {A V : Type}.
Variables (sec : string) (m : Z -> A -> pe A) (upd : Z -> A -> V -> A) (R : V -> list Z -> Prop).
Hypothesis Hm : forall off a v body se, is_u64 (zlen body) -> R v body ->
  exists rest, m off a (at_ body se) = (Ok (upd off a v), at_ rest se).

Fixpoint upd_all (off : Z) (a : A) (vs : list V) (bodies : list (list Z)) : A :=
  match vs, bodies with
  | v :: vs, b :: bodies => upd_all (off + zlen (record_bytes b)) (upd off a v) vs bodies
  | _, _ => a
  end.

Lemma run_callback vs bodies : Forall2 R vs bodies ->
  Forall (fun b => is_u64 (zlen b)) bodies -> forall off a se,
  run_bodies sec (callback m) off (a, se) bodies = Ok (upd_all off a vs bodies, se).
Proof using Hm.
  induction 1 as [|v b vs bodies Hb _ IH]; intros Hz off a se; [done|]. inversion Hz; subst.
  cbn [run_bodies upd_all]. unfold callback. cbn [fst snd].
  destruct (Hm off a v b se ltac:(done) Hb) as [rest Hr]. fold (at_ b se). rewrite Hr.
  cbn [at_ ps_buf ps_str b_err]. by apply IH.
Qed.

Lemma rec_section_run vs bodies a se :
  Forall2 R vs bodies -> is_u64 (zlen (section_bytes bodies)) ->
  rec_section sec m (section_bytes bodies) a se = Ok (upd_all 0 a vs bodies, se).
Proof using Hm.
  intros H Hlen. unfold rec_section. apply section_bodies_u64 in Hlen.
  rewrite records_bodies by done. by apply run_callback.
Qed.
End Runs.

(** A section whose records are appended to a slice. *)
Lemma upd_all_snoc {V} (vs : list V) bodies :
  length vs = length bodies -> forall off a,
  upd_all (fun _ a v => a ++ [v]) off a vs bodies = a ++ vs.
Proof.
  revert bodies. induction vs as [|v vs IH]; intros [|b bodies] Hl off a; simplify_eq/=.
  - by rewrite app_nil_r.
  - rewrite IH by done. by rewrite <-app_assoc.
Qed.

Lemma rec_section_list {V} sec (m : Z -> list V -> pe (list V)) (R : V -> list Z -> Prop) vs bodies se :
  (forall off a v body se, is_u64 (zlen body) -> R v body ->
     exists rest, m off a (at_ body se) = (Ok (a ++ [v]), at_ rest se)) ->
  Forall2 R vs bodies -> is_u64 (zlen (section_bytes bodies)) ->
  rec_section sec m (section_bytes bodies) [] se = Ok (vs, se).
Proof.
  intros Hm H Hlen. rewrite (rec_section_run sec m (fun _ a v => a ++ [v]) R Hm vs) by done.
  by rewrite upd_all_snoc by by eapply Forall2_length.
Qed.

(** A section whose records are indexed by their offsets. *)
Lemma upd_all_lookup {A V W} (upd : Z -> A -> V -> A) (get : A -> gmap Z W) (f : V -> W) :
  (forall off a v, get (upd off a v) = <[off := f v]> (get a)) ->
  forall vs bodies off a, length vs = length bodies ->
  (forall o, o < off -> get (upd_all upd off a vs bodies) !! o = get a !! o) /\
  (forall pre v post bpre b bpost, vs = pre ++ v :: post -> bodies = bpre ++ b :: bpost ->
     length pre = length bpre ->
     get (upd_all upd off a vs bodies) !! (off + zlen (section_bytes bpre)) = Some (f v)).
Proof.
  intros Hu vs. induction vs as [|v vs IH]; intros [|b bodies] off a Hl; simplify_eq/=.
  { split; [done|]. intros pre v post bpre b bpost Hv. by destruct pre. }
  assert (0 < zlen (record_bytes b)) as Hpos.
  { unfold record_bytes. rewrite zlen_app. pose proof (uvarint_bytes_pos (zlen b)).
    pose proof (zlen_nonneg b). lia. }
  destruct (IH bodies (off + zlen (record_bytes b)) (upd off a v) Hl) as [Hlow Hat]. split.
  - intros o Ho. rewrite Hlow by lia. rewrite Hu, lookup_insert_ne by lia. done.
  - intros [|v' pre] v0 post [|b' bpre] b0 bpost Hv Hb Hlen; simplify_eq/=.
    + rewrite Z.add_0_r, Hlow by lia. by rewrite Hu, lookup_insert_eq.
    + rewrite section_bytes_cons, zlen_app, Z.add_assoc. by eapply Hat.
Qed.

(** ** Files, relocations, stack maps and data symbols

    [enc_* tab x body]: the body encodes [x] with strings at offsets of [tab]. *)

Definition enc_file (tab : list Z) (f : string) (body : list Z) : Prop :=
  no_nul f /\ exists o, str_at tab f o /\ body = uvarint_bytes o.

Definition enc_reloc (tab : list Z) (r : Reloc) (body : list Z) : Prop :=
  reloc_ok r /\ exists fo to, str_at tab (r_Func r) fo /\ str_at tab (r_Target r) to /\
  body = uvarint_bytes fo ++ uvarint_bytes (r_Offset r) ++ [r_Width r] ++ [r_Kind r] ++
         uvarint_bytes to ++ sleb_bytes (r_Addend r) ++ [r_Flags r].

Definition loc_bytes (l : StackmapLoc) : list Z :=
  [sl_Type l] ++ uvarint_bytes (sl_Size l) ++ uvarint_bytes (sl_Reg l) ++ sleb_bytes (sl_Off l).

Definition enc_stackmap (tab : list Z) (m : Stackmap) (body : list Z) : Prop :=
  stackmap_ok m /\ exists fo, str_at tab (sm_Func m) fo /\
  body = uvarint_bytes fo ++ uvarint_bytes (sm_InsnOff m) ++ uvarint_bytes (sm_ID m) ++
         uvarint_bytes (zlen (sm_Locs m)) ++ concat (loc_bytes <$> sm_Locs m).

Definition enc_data (tab : list Z) (d : Data) (body : list Z) : Prop :=
  data_ok d /\ exists o, str_at tab (d_Name d) o /\
  body = uvarint_bytes o ++ uvarint_bytes (d_Size d) ++ [d_Log2Align d] ++
         uvarint_bytes (d_Flags d) ++ uvarint_bytes (d_NBits d) ++ d_Bitmap d.

(** The writer's side: peel the [intern]s, then the result is a record. *)
Ltac winterns :=
  repeat (eapply writes_bind; [apply writes_intern|]; intros ?o; cbv beta);
  apply writes_ret; intros tab; intros; rewrite put_record_bytes; cbn [snd].

Lemma put_file_writes e f :
  no_nul f -> writes (put_file e f) (fun tab e' => exists body,
    e' = e ++ record_bytes body /\ enc_file tab f body).
Proof. intros Hf. unfold put_file. winterns. eexists. split; [done|]. split; eauto. Qed.

Lemma put_reloc_writes e r :
  reloc_ok r -> writes (put_reloc e r) (fun tab e' => exists body,
    e' = e ++ record_bytes body /\ enc_reloc tab r body).
Proof.
  intros Hr. unfold put_reloc. winterns. eexists. split; [done|]. split; [done|].
  eexists _, _. split_and!; [done..|]. encs. done.
Qed.

Lemma put_stackmap_writes e m :
  stackmap_ok m -> writes (put_stackmap e m) (fun tab e' => exists body,
    e' = e ++ record_bytes body /\ enc_stackmap tab m body).
Proof.
  intros Hm. unfold put_stackmap. winterns. eexists. split; [done|]. split; [done|].
  eexists. split; [done|].
  rewrite (foldl_enc _ loc_bytes) by (intros; unfold loc_bytes; by encs). by encs.
Qed.

Lemma put_data_writes e d :
  data_ok d -> writes (put_data e d) (fun tab e' => exists body,
    e' = e ++ record_bytes body /\ enc_data tab d body).
Proof.
  intros Hd. unfold put_data. winterns. eexists. split; [done|]. split; [done|].
  eexists. split; [done|]. by encs.
Qed.

Section Read.
Variable tab : list Z.
Hypothesis Htab : is_u64 (zlen tab).

Lemma read_file_at off a f body se :
  is_u64 (zlen body) -> enc_file tab f body ->
  exists rest, read_file tab off a (at_ body se) = (Ok (a ++ [f]), at_ rest se).
Proof using Htab.
  intros _ [Hf (o & Ho & ->)]. exists []. unfold read_file. rewrite <-(app_nil_r (uvarint_bytes o)).
  by rstep.
Qed.

Lemma read_reloc_at off a r body se :
  is_u64 (zlen body) -> enc_reloc tab r body ->
  exists rest, read_reloc tab off a (at_ body se) = (Ok (a ++ [r]), at_ rest se).
Proof using Htab.
  intros _ [(Hf & Ht & Ho & Ha) (fo & to & Hfo & Hto & ->)]. exists []. unfold read_reloc.
  rewrite <-(app_nil_r [r_Flags r]). do 7 rstep. by destruct r.
Qed.

Lemma loc_at a l b rest se :
  loc_ok l /\ b = loc_bytes l ->
  (ty ← fld get_u8; sz ← fld get_uleb; rg ← fld get_uleb; o ← fld get_sleb;
   mret (a ++ [mkLoc ty sz rg o])) (at_ (b ++ rest) se) = (Ok (a ++ [l]), at_ rest se).
Proof.
  intros [(H1 & H2 & H3) ->]. unfold loc_bytes. rewrite <-!app_assoc. do 4 rstep. by destruct l.
Qed.

Lemma read_stackmap_at off a m body se :
  is_u64 (zlen body) -> enc_stackmap tab m body ->
  exists rest, read_stackmap tab off a (at_ body se) = (Ok (a ++ [m]), at_ rest se).
Proof using Htab.
  intros Hb [(Hf & Hi & Hid & Hl) (fo & Hfo & ->)]. exists []. unfold read_stackmap.
  pose proof (Forall2_fmap_graph _ loc_bytes _ Hl) as HF.
  assert (forall x b, loc_ok x /\ b = loc_bytes x -> b <> []) as Hne by (by intros ? ? [_ ->]).
  assert (is_u64 (zlen (sm_Locs m))) as Hz.
  { pose proof (concat_zlen _ Hne _ _ HF). rewrite !zlen_app in Hb. unfold is_u64 in *.
    zpos. lia. }
  do 4 rstep. rewrite <-(app_nil_r (concat _)).
  erewrite pe_bind_ok; cycle 1.
  { apply (loop_at _ (fun l x => l ++ [x]) (fun x b => loc_ok x /\ b = loc_bytes x));
      [intros; by apply loc_at | done | done]. }
  rewrite foldl_snoc. by destruct m.
Qed.

Lemma read_data_at off a d body se :
  is_u64 (zlen body) -> enc_data tab d body ->
  exists rest, read_data tab off a (at_ body se) = (Ok (a ++ [d]), at_ rest se).
Proof using Htab.
  intros _ [(Hn & Hs & Hfl & Hb & Hb0 & Hlen) (o & Ho & ->)]. exists []. unfold read_data.
  rewrite <-(app_nil_r (d_Bitmap d)).
  assert (is_u64 (d_NBits d)) by (unfold is_u64 in *; lia).
  do 5 rstep. erewrite pe_bind_ok; [|apply fld_bytes; by rewrite u64_small].
  by destruct d.
Qed.
End Read.

(** ** pc-value tables *)

Definition entry_bytes (e : PCEntry) : list Z := uvarint_bytes (pc_PC e) ++ sleb_bytes (pc_Value e).

Definition table_bytes (t : PCTable) : list Z :=
  [pct_Kind t] ++ uvarint_bytes (zlen (pct_Entries t)) ++ concat (entry_bytes <$> pct_Entries t).

Lemma pcv_body_bytes ts :
  pcv_body ts = uvarint_bytes (zlen ts) ++ concat (table_bytes <$> ts).
Proof.
  unfold pcv_body. rewrite (foldl_enc _ table_bytes); [by encs|].
  intros r t. rewrite (foldl_enc _ entry_bytes) by (intros; unfold entry_bytes; by encs).
  unfold table_bytes. by encs.
Qed.

Lemma push_all k es : forall acc p,
  (lineKind k = true -> no_repeat (p :: es)) ->
  foldl (push_entry k) (acc ++ [p]) es = acc ++ p :: es.
Proof.
  induction es as [|e es IH]; intros acc p H; [done|]. cbn [foldl].
  assert (push_entry k (acc ++ [p]) e = (acc ++ [p]) ++ [e]) as ->.
  { unfold push_entry. rewrite last_snoc. destruct (lineKind k) eqn:Hk; [|by rewrite andb_false_r].
    rewrite (proj2 (Z.eqb_neq _ _)); [done | by apply H]. }
  rewrite IH, <-app_assoc; [done|]. intros Hk. by apply H.
Qed.

Lemma push_table k es :
  (lineKind k = true -> no_repeat es) -> foldl (push_entry k) [] es = es.
Proof. destruct es as [|e es]; [done|]. intros H. exact (push_all k es [] e H). Qed.

Lemma read_pctable_at ts t b rest se :
  (pctable_ok t /\ is_u64 (zlen b)) /\ b = table_bytes t ->
  read_pctable ts (at_ (b ++ rest) se) = (Ok (ts ++ [t]), at_ rest se).
Proof.
  intros [[(He & Hr) Hz] ->]. unfold read_pctable, table_bytes in *. rewrite <-!app_assoc.
  pose proof (Forall2_fmap_graph _ entry_bytes _ He) as HF.
  assert (forall x b, entry_ok x /\ b = entry_bytes x -> b <> []) as Hne
    by (intros ? ? [_ ->]; apply uvarint_bytes_ne).
  pose proof (concat_zlen _ Hne _ _ HF) as Hc. rewrite !zlen_app in Hz.
  assert (is_u64 (zlen (pct_Entries t))) by (zpos; unfold is_u64 in *; lia).
  do 3 rstep. rewrite zlen_app, (proj2 (Z.ltb_ge _ _)) by (zpos; lia).
  erewrite pe_bind_ok; cycle 1.
  { apply (loop_at _ (push_entry (pct_Kind t)) (fun x b => entry_ok x /\ b = entry_bytes x));
      [|done|done].
    intros a x b rest' se' [[Hx1 Hx2] ->]. unfold read_pcentry, entry_bytes. rewrite <-app_assoc.
    do 2 rstep. by destruct x. }
  rewrite push_table by done. by destruct t.
Qed.

(** An element of an encoded list is no longer than the whole. *)
Lemma concat_elem_zlen {X} (g : X -> list Z) xs :
  Forall (fun x => zlen (g x) <= zlen (concat (g <$> xs))) xs.
Proof.
  induction xs as [|x xs IH]; [constructor|]. rewrite fmap_cons. cbn [concat].
  constructor; rewrite zlen_app; [zpos; lia|].
  eapply Forall_impl; [exact IH|]. cbv beta. intros y Hy. zpos. lia.
Qed.

Definition enc_pcv (ts : list PCTable) (body : list Z) : Prop :=
  ts <> [] /\ Forall pctable_ok ts /\ body = pcv_body ts.

Lemma read_pcv_at off s ts body se :
  is_u64 (zlen body) -> enc_pcv ts body ->
  exists rest, read_pcv off s (at_ body se)
    = (Ok ({[ off ]} ∪ fst s, <[off := Some ts]> (snd s)), at_ rest se).
Proof.
  intros Hz (Hne' & Hok & ->). rewrite pcv_body_bytes in *. exists []. unfold read_pcv.
  rewrite <-(app_nil_r (concat _)). rewrite zlen_app in Hz.
  assert (Forall (fun t => pctable_ok t /\ is_u64 (zlen (table_bytes t))) ts) as Hok'.
  { apply Forall_and. split; [done|]. eapply Forall_impl; [apply (concat_elem_zlen table_bytes)|].
    cbv beta. intros t Ht. zpos. unfold is_u64 in *. lia. }
  assert (Forall2 (fun t b => (pctable_ok t /\ is_u64 (zlen b)) /\ b = table_bytes t)
            ts (table_bytes <$> ts)) as HF
    by (clear -Hok'; induction Hok'; simpl; constructor; auto).
  assert (forall t b, (pctable_ok t /\ is_u64 (zlen b)) /\ b = table_bytes t -> b <> []) as Hne
    by (by intros ? ? [_ ->]).
  pose proof (concat_zlen _ Hne _ _ HF) as Hc.
  assert (is_u64 (zlen ts)) by (zpos; unfold is_u64 in *; lia).
  rstep. erewrite pe_bind_ok; cycle 1.
  { apply (loop_at _ (fun l x => l ++ [x]) _ read_pctable_at Hne _ _ _ _ _ HF). }
  rewrite foldl_snoc. by destruct ts.
Qed.

(** ** gc maps *)

Definition safepoint_bytes (sp : Safepoint) : list Z :=
  uvarint_bytes (sp_PC sp) ++ sp_Args sp ++ sp_Locals sp ++ uvarint_bytes (zlen (sp_Color sp)) ++
  sp_Color sp.

Lemma gc_body_bytes g :
  gc_body g = uvarint_bytes (gc_NArgs g) ++ uvarint_bytes (gc_NLocals g) ++
              uvarint_bytes (zlen (gc_Safepoints g)) ++ concat (safepoint_bytes <$> gc_Safepoints g).
Proof.
  unfold gc_body. rewrite (foldl_enc _ safepoint_bytes); [by encs|].
  intros r sp. unfold safepoint_bytes. by encs.
Qed.

Definition enc_gc (g : GCMap) (body : list Z) : Prop := gc_ok g /\ body = gc_body g.

Lemma read_safepoint_at g sps sp b rest se :
  gc_ok g -> (safepoint_ok g sp /\ is_u64 (zlen b)) /\ b = safepoint_bytes sp ->
  read_safepoint (gc_NArgs g) (gc_NLocals g) sps (at_ (b ++ rest) se) = (Ok (sps ++ [sp]), at_ rest se).
Proof.
  intros (Ha0 & Ha & Hl0 & Hl & _) [[(Hpc & Hna & Hnl) Hz] ->]. unfold read_safepoint, safepoint_bytes in *.
  rewrite <-!app_assoc. rewrite !zlen_app in Hz.
  assert (is_u64 (zlen (sp_Color sp))) by (zpos; unfold is_u64 in *; lia).
  rstep. erewrite pe_bind_ok; [|apply fld_bytes; by rewrite u64_small].
  erewrite pe_bind_ok; [|apply fld_bytes; by rewrite u64_small].
  rstep. erewrite pe_bind_ok; [|by apply fld_bytes]. by destruct sp.
Qed.

Lemma read_gc_at off s g body se :
  is_u64 (zlen body) -> enc_gc g body ->
  exists rest, read_gc off s (at_ body se)
    = (Ok ({[ off ]} ∪ fst s, <[off := g]> (snd s)), at_ rest se).
Proof.
  intros Hz [Hg ->]. rewrite gc_body_bytes in *. exists []. unfold read_gc.
  rewrite <-(app_nil_r (concat _)). rewrite !zlen_app in Hz.
  pose proof Hg as (Ha0 & Ha & Hl0 & Hl & Hs).
  assert (Forall2 (fun t b => (safepoint_ok g t /\ is_u64 (zlen b)) /\ b = safepoint_bytes t)
            (gc_Safepoints g) (safepoint_bytes <$> gc_Safepoints g)) as HF.
  { assert (Forall (fun t => safepoint_ok g t /\ is_u64 (zlen (safepoint_bytes t))) (gc_Safepoints g)) as H.
    { apply Forall_and. split; [done|]. eapply Forall_impl; [apply (concat_elem_zlen safepoint_bytes)|].
      cbv beta. intros t Ht. zpos. unfold is_u64 in *. lia. }
    clear -H. induction H; simpl; constructor; auto. }
  assert (forall t b, (safepoint_ok g t /\ is_u64 (zlen b)) /\ b = safepoint_bytes t -> b <> []) as Hne
    by (intros ? ? [_ ->]; apply uvarint_bytes_ne).
  pose proof (concat_zlen _ Hne _ _ HF) as Hc.
  assert (is_u64 (zlen (gc_Safepoints g))) by (zpos; unfold is_u64 in *; lia).
  assert (is_u64 (gc_NArgs g)) by (unfold is_u64 in *; lia).
  assert (is_u64 (gc_NLocals g)) by (unfold is_u64 in *; lia).
  do 4 rstep. rewrite zlen_app, (proj2 (Z.ltb_ge _ _)) by (zpos; lia).
  erewrite pe_bind_ok; cycle 1.
  { apply (loop_at _ (fun l x => l ++ [x]) _ (fun a x b rest se => read_safepoint_at g a x b rest se Hg)
      Hne _ _ _ _ _ HF). }
  rewrite foldl_snoc. by destruct g.
Qed.

(** ** Inline trees *)

Definition enc_inlnode (tab : list Z) (n : InlNode) (b : list Z) : Prop :=
  inlnode_ok n /\ exists o, str_at tab (in_Func n) o /\
  b = sleb_bytes (in_Parent n) ++ uvarint_bytes (in_File n) ++ uvarint_bytes (in_Line n) ++
      uvarint_bytes o ++ uvarint_bytes (in_ParentPC n) ++ uvarint_bytes (in_StartLine n).

Definition enc_inl (tab : list Z) (ns : list InlNode) (body : list Z) : Prop :=
  ns <> [] /\ exists bs, Forall2 (enc_inlnode tab) ns bs /\
  body = uvarint_bytes (zlen ns) ++ concat bs.

Lemma writes_concat {X} (put : list Z -> X -> st strs (list Z)) (R : list Z -> X -> list Z -> Prop)
    (P : X -> Prop) xs :
  (forall e x, P x -> writes (put e x) (fun tab e' => exists b, e' = e ++ b /\ R tab x b)) ->
  Forall P xs ->
  forall e, writes (st_fold put e xs)
    (fun tab e' => exists bs, e' = e ++ concat bs /\ Forall2 (R tab) xs bs).
Proof.
  intros Hput. induction 1 as [|x xs Hx Hxs IH]; intros e; cbn [st_fold].
  { apply writes_ret. intros tab. exists []. by rewrite app_nil_r. }
  eapply writes_bind; [by apply Hput|]. intros e1. eapply writes_mono; [apply IH|].
  intros tab e2 (bs & -> & H2) (b & -> & H1). exists (b :: bs).
  split; [|by constructor]. cbn [concat]. by rewrite <-app_assoc.
Qed.

Lemma inl_body_writes ns :
  ns <> [] -> Forall inlnode_ok ns -> writes (inl_body ns) (fun tab b => enc_inl tab ns b).
Proof.
  intros Hne Hok. unfold inl_body. eapply writes_mono.
  - apply (writes_concat put_inl_node enc_inlnode inlnode_ok); [|done].
    intros e n Hn. unfold put_inl_node. eapply writes_bind; [apply writes_intern|]. intros o.
    apply writes_ret. intros tab Ho. eexists. split; [|split; [done|]; by eexists]. by encs.
  - intros tab b (bs & -> & H). split; [done|]. exists bs. split; [done|]. by encs.
Qed.

Lemma read_inl_at tab off s ns body se :
  is_u64 (zlen tab) -> is_u64 (zlen body) -> enc_inl tab ns body ->
  exists rest, read_inl tab off s (at_ body se) = (Ok (<[off := Some ns]> s), at_ rest se).
Proof.
  intros Htab Hz (Hne' & bs & HF & ->). exists []. unfold read_inl.
  rewrite <-(app_nil_r (concat _)). rewrite !zlen_app in Hz.
  assert (forall n b, enc_inlnode tab n b -> b <> []) as Hne.
  { intros n b (_ & o & _ & ->) H. apply app_eq_nil in H as [_ H]. by eapply uvarint_bytes_ne. }
  pose proof (concat_zlen _ Hne _ _ HF) as Hc.
  assert (is_u64 (zlen ns)) by (zpos; unfold is_u64 in *; lia).
  do 2 rstep. rewrite zlen_app, (proj2 (Z.ltb_ge _ _)) by (zpos; lia).
  erewrite pe_bind_ok; cycle 1.
  { apply (loop_at (read_inlnode tab) (fun l x => l ++ [x]) (enc_inlnode tab)); [|done..].
    intros a x b rest' se' ((Hn & Hp & Hf & Hl & Hpp & Hs) & o & Ho & ->).
    unfold read_inlnode. rewrite <-!app_assoc. do 6 rstep. by destruct x. }
  rewrite foldl_snoc. by destruct ns.
Qed.

(** ** Functions *)

(** The records written so far to the sections a function refers to: the values
    of [.goc.pcvalue] and [.goc.gcmaps], the values and bodies of [.goc.inltree]. *)
Record tables := mkTables {
  t_pv : list (list PCTable); t_gv : list GCMap; t_iv : list (list InlNode); t_ib : list (list Z) }.

Definition t_app (T U : tables) : tables :=
  mkTables (t_pv T ++ t_pv U) (t_gv T ++ t_gv U) (t_iv T ++ t_iv U) (t_ib T ++ t_ib U).

Definition t_nil : tables := mkTables [] [] [] [].

Definition tables_ok (tab : list Z) (T : tables) : Prop :=
  Forall (fun ts => ts <> [] /\ Forall pctable_ok ts) (t_pv T) /\ Forall gc_ok (t_gv T) /\
  Forall2 (enc_inl tab) (t_iv T) (t_ib T).

Definition encs_of (fb : list (list Z)) (T : tables) : encs :=
  mkEncs (section_bytes fb) (section_bytes (pcv_body <$> t_pv T))
    (section_bytes (gc_body <$> t_gv T)) (section_bytes (t_ib T)).

(** The offset field of a reference to record [v], plus one; 0 for none. *)
Definition rec_ref {V} (vs : list V) (bodies : list (list Z)) (o : option V) (off : Z) : Prop :=
  match o with
  | None => off = 0
  | Some v => exists pre post bpre b bpost,
      vs = pre ++ v :: post /\ bodies = bpre ++ b :: bpost /\ length pre = length bpre /\
      off = zlen (section_bytes bpre) + 1
  end.

Lemma rec_ref_app {V} (vs ws : list V) bs cs o off :
  rec_ref vs bs o off -> rec_ref (vs ++ ws) (bs ++ cs) o off.
Proof.
  destruct o as [v|]; [|done]. intros (pre & post & bpre & b & bpost & -> & -> & Hl & ->).
  exists pre, (post ++ ws), bpre, b, (bpost ++ cs). by rewrite <-!app_assoc.
Qed.

Lemma rec_ref_last {V} (vs : list V) bs v b :
  length vs = length bs -> rec_ref (vs ++ [v]) (bs ++ [b]) (Some v) (zlen (section_bytes bs) + 1).
Proof. intros Hl. by exists vs, [], bs, b, []. Qed.

(** What the optional fields of later minors look like at the end of a record. *)
Definition func_tail (minor : Z) (f : Func) : list Z :=
  (if 1 <=? minor then uvarint_bytes (fn_SysvPtrRegs f) else []) ++
  (if 2 <=? minor
   then uvarint_bytes (zlen (fn_SptrSlots f)) ++ concat (uvarint_bytes <$> fn_SptrSlots f) else []).

Definition enc_func (minor : Z) (tab : list Z) (T : tables) (f : Func) (body : list Z) : Prop :=
  func_ok minor f /\ exists no po go io,
  str_at tab (fn_Name f) no /\
  rec_ref (t_pv T) (pcv_body <$> t_pv T) (fn_PCValue f) po /\
  rec_ref (t_gv T) (gc_body <$> t_gv T) (fn_GC f) go /\
  rec_ref (t_iv T) (t_ib T) (fn_Inl f) io /\
  body = uvarint_bytes no ++ uvarint_bytes (fn_TextSize f) ++ uvarint_bytes (fn_FrameSize f) ++
         uvarint_bytes (fn_ArgSize f) ++ [fn_ABI f] ++ [fn_Kind f] ++ uvarint_bytes (fn_Flags f) ++
         [fn_FuncID f] ++ uvarint_bytes (fn_File f) ++ uvarint_bytes (fn_StartLine f) ++
         uvarint_bytes po ++ uvarint_bytes go ++ uvarint_bytes io ++ func_tail minor f.

Lemma enc_func_app minor tab T U f body :
  enc_func minor tab T f body -> enc_func minor tab (t_app T U) f body.
Proof.
  intros (Hok & no & po & go & io & Hn & Hp & Hg & Hi & ->). split; [done|].
  exists no, po, go, io. unfold t_app; simpl. rewrite !fmap_app.
  split_and!; try done; by apply rec_ref_app.
Qed.

Definition opt_list {A} (o : option A) : list A := match o with Some x => [x] | None => [] end.

Lemma section_snoc bs b : section_bytes bs ++ record_bytes b = section_bytes (bs ++ [b]).
Proof. rewrite section_bytes_app. unfold section_bytes at 3. simpl. by rewrite app_nil_r. Qed.

(** The offset a [record] call returns, for an optional record. *)
Lemma put_opt_record {V} (vs : list V) (enc : V -> list Z) o :
  exists off, 
    match o with
    | Some v => let '(off, e) := put_record (section_bytes (enc <$> vs)) (enc v) in (off + 1, e)
    | None => (0, section_bytes (enc <$> vs))
    end = (off, section_bytes (enc <$> (vs ++ opt_list o))) /\
    rec_ref (vs ++ opt_list o) (enc <$> (vs ++ opt_list o)) o off.
Proof.
  destruct o as [v|]; simpl opt_list.
  - rewrite put_record_bytes. eexists. rewrite section_snoc, fmap_app. split; [done|].
    apply rec_ref_last. by rewrite length_fmap.
  - rewrite app_nil_r. by eexists.
Qed.

Definition inl_prog (e : list Z) (o : option (list InlNode)) : st strs (Z * list Z) :=
  match o with
  | Some ns => r ← inl_body ns; let '(o, inlt) := put_record e r in mret (o + 1, inlt)
  | None => mret (0, e)
  end.

Lemma inl_prog_writes iv ib o :
  length iv = length ib -> (forall ns, o = Some ns -> ns <> [] /\ Forall inlnode_ok ns) ->
  writes (inl_prog (section_bytes ib) o) (fun tab '(io, it) => exists iv' ib',
    Forall2 (enc_inl tab) iv' ib' /\ it = section_bytes (ib ++ ib') /\
    rec_ref (iv ++ iv') (ib ++ ib') o io).
Proof.
  intros Hl Ho. destruct o as [ns|]; cbn [inl_prog].
  - destruct (Ho ns eq_refl) as [Hne Hok]. eapply writes_bind; [by apply inl_body_writes|].
    intros b. rewrite put_record_bytes. apply writes_ret. intros tab Hb. exists [ns], [b].
    split_and!; [constructor; [done | constructor] | by rewrite section_snoc | by apply rec_ref_last].
  - apply writes_ret. intros tab. exists [], []. by rewrite !app_nil_r.
Qed.

Lemma put_func_writes minor fb T f :
  func_ok minor f -> length (t_iv T) = length (t_ib T) ->
  writes (put_func minor (encs_of fb T) f) (fun tab e' => exists body U,
    e' = encs_of (fb ++ [body]) (t_app T U) /\ tables_ok tab U /\
    enc_func minor tab (t_app T U) f body).
Proof.
  intros Hf Hl. unfold put_func. cbn [encs_of e_funcs e_pcv e_gcm e_inl].
  destruct (put_opt_record (t_pv T) pcv_body (fn_PCValue f)) as (po & -> & Hpo).
  destruct (put_opt_record (t_gv T) gc_body (fn_GC f)) as (go & -> & Hgo).
  pose proof Hf as (_ & _ & _ & _ & _ & _ & _ & _ & _ & _ & _ & Hpv & Hgc & Hin).
  eapply writes_bind; [apply (inl_prog_writes (t_iv T) (t_ib T) (fn_Inl f)); done|].
  intros [io it]. eapply writes_bind; [apply writes_intern|]. intros no. apply writes_ret.
  intros tab Hno (iv' & ib' & HF & -> & Hio). rewrite put_record_bytes. cbn [snd].
  eexists _, (mkTables (opt_list (fn_PCValue f)) (opt_list (fn_GC f)) iv' ib').
  unfold encs_of, t_app; simpl. split_and!; [by rewrite <-section_snoc | |].
  - split_and!; simpl; [destruct (fn_PCValue f) | destruct (fn_GC f) | done]; repeat constructor;
      try apply Hpv; try apply Hgc; done.
  - split; [done|]. exists no, po, go, io. split_and!; [done..|]. unfold func_tail.
    rewrite (foldl_enc put_uleb uvarint_bytes) by done.
    destruct (1 <=? minor), (2 <=? minor); encs; by rewrite ?app_nil_r.
Qed.

Lemma t_app_assoc T U W : t_app (t_app T U) W = t_app T (t_app U W).
Proof. unfold t_app; simpl. by rewrite <-!app_assoc. Qed.

Lemma tables_ok_app tab T U : tables_ok tab T -> tables_ok tab U -> tables_ok tab (t_app T U).
Proof.
  intros (H1 & H2 & H3) (H4 & H5 & H6). split_and!; simpl;
    [by apply Forall_app | by apply Forall_app | by apply Forall2_app].
Qed.

(** Facts about a table stay true when it grows. *)
Lemma enc_inl_grow tab k ns b : enc_inl tab ns b -> enc_inl (tab ++ k) ns b.
Proof.
  intros (Hne & bs & HF & ->). split; [done|]. exists bs. split; [|done].
  eapply Forall2_impl; [exact HF|]. intros n b (Hn & o & Ho & ->). split; [done|].
  exists o. split; [by apply str_at_app | done].
Qed.

Lemma tables_ok_grow tab k T : tables_ok tab T -> tables_ok (tab ++ k) T.
Proof.
  intros (H1 & H2 & H3). split_and!; [done..|].
  eapply Forall2_impl; [exact H3|]. intros. by apply enc_inl_grow.
Qed.

Lemma enc_func_grow minor tab k T f body :
  enc_func minor tab T f body -> enc_func minor (tab ++ k) T f body.
Proof.
  intros (Hok & no & po & go & io & Hn & Hp & Hg & Hi & ->). split; [done|].
  exists no, po, go, io. split_and!; try done. by apply str_at_app.
Qed.

Lemma put_funcs_writes minor fs : Forall (func_ok minor) fs -> forall fb T,
  length (t_iv T) = length (t_ib T) ->
  writes (st_fold (put_func minor) (encs_of fb T) fs) (fun tab e' => exists bodies U,
    e' = encs_of (fb ++ bodies) (t_app T U) /\ tables_ok tab U /\
    Forall2 (enc_func minor tab (t_app T U)) fs bodies).
Proof.
  induction 1 as [|f fs Hf Hfs IH]; intros fb T Hl; cbn [st_fold].
  { apply writes_ret. intros tab. exists [], t_nil. unfold t_app; simpl. rewrite !app_nil_r.
    destruct T; split_and!; [done | repeat constructor | constructor]. }
  intros t Ht. unfold mbind, st_bind.
  destruct (put_func_writes minor fb T f Hf Hl t Ht) as (Hwf & [k1 Hk1] & HQ).
  destruct (put_func minor (encs_of fb T) f t) as [e1 t1]. simpl in Hwf, Hk1, HQ.
  destruct (HQ []) as (body & U & -> & HU & Hbody). rewrite app_nil_r in HU, Hbody.
  assert (length (t_iv (t_app T U)) = length (t_ib (t_app T U))) as Hl1.
  { destruct HU as (_ & _ & HU). apply Forall2_length in HU. simpl. rewrite !length_app. lia. }
  destruct (IH (fb ++ [body]) (t_app T U) Hl1 t1 Hwf) as (Hwf2 & [k2 Hk2] & HR).
  split_and!; [done | exists (k1 ++ k2); by rewrite Hk2, Hk1, <-app_assoc |].
  intros k. destruct (HR k) as (bodies & W & -> & HW & Hbs). rewrite t_app_assoc in *.
  exists (body :: bodies), (t_app U W). rewrite <-app_assoc. split_and!; [done | |].
  - apply tables_ok_app; [|done]. rewrite Hk2, <-app_assoc. by apply tables_ok_grow.
  - constructor; [|done]. rewrite Hk2, <-app_assoc. apply enc_func_grow.
    rewrite <-t_app_assoc. by apply enc_func_app.
Qed.

(** ** Reading functions *)

(** A function without the private offsets that only the reader sets. *)
Definition erase (f : Func) : Func :=
  mkFunc (fn_Name f) (fn_TextSize f) (fn_FrameSize f) (fn_ArgSize f) (fn_ABI f) (fn_Kind f)
    (fn_Flags f) (fn_FuncID f) (fn_File f) (fn_StartLine f) (fn_SysvPtrRegs f) (fn_SptrSlots f)
    (fn_PCValue f) (fn_Inl f) (fn_GC f) 0 0 0.

(** The tables of [m] that the offset fields of the [R]ecords refer to. *)
Definition resolves {V W} (f : V -> W) (m : gmap Z W) (vs : list V) (bodies : list (list Z)) : Prop :=
  forall o off, rec_ref vs bodies o off ->
    (if off =? 0 then None else m !! (off - 1)) = f <$> o.

Lemma resolves_upd_all {A V W} (upd : Z -> A -> V -> A) (get : A -> gmap Z W) (f : V -> W) vs bodies a :
  (forall off a v, get (upd off a v) = <[off := f v]> (get a)) -> length vs = length bodies ->
  resolves f (get (upd_all upd 0 a vs bodies)) vs bodies.
Proof.
  intros Hu Hl [v|] off; cbn [rec_ref fmap option_fmap option_map]; [|by intros ->].
  intros (pre & post & bpre & b & bpost & Hv & Hb & Hlen & ->).
  rewrite (proj2 (Z.eqb_neq _ _)) by (zpos; lia).
  destruct (upd_all_lookup upd get f Hu vs bodies 0 a Hl) as [_ Hat].
  replace (zlen (section_bytes bpre) + 1 - 1) with (0 + zlen (section_bytes bpre)) by lia.
  by eapply Hat.
Qed.

Lemma rec_ref_u64 {V} (vs : list V) bodies o off :
  is_u64 (zlen (section_bytes bodies)) -> rec_ref vs bodies o off -> is_u64 off.
Proof.
  destruct o as [v|]; [|intros _ ->; done].
  intros Hz (pre & post & bpre & b & bpost & _ & -> & _ & ->).
  rewrite section_bytes_app, section_bytes_cons in Hz. unfold record_bytes in Hz.
  rewrite !zlen_app in Hz. pose proof (uvarint_bytes_pos (zlen b)). zpos. unfold is_u64 in *. lia.
Qed.

Section ReadFunc.
Variables (minor : Z) (tab : list Z) (T : tables).
Variables (pcv : gmap Z (option (list PCTable))) (gcs : gmap Z GCMap)
  (inls : gmap Z (option (list InlNode))).
Hypothesis Htab : is_u64 (zlen tab).
Hypothesis Hpz : is_u64 (zlen (section_bytes (pcv_body <$> t_pv T))).
Hypothesis Hgz : is_u64 (zlen (section_bytes (gc_body <$> t_gv T))).
Hypothesis Hiz : is_u64 (zlen (section_bytes (t_ib T))).
Hypothesis Hpcv : resolves Some pcv (t_pv T) (pcv_body <$> t_pv T).
Hypothesis Hgcs : resolves id gcs (t_gv T) (gc_body <$> t_gv T).
Hypothesis Hinl : resolves Some inls (t_iv T) (t_ib T).

Lemma join_ref {V} (m : gmap Z (option V)) (o : option V) off :
  (if off =? 0 then None else m !! (off - 1)) = Some <$> o ->
  (if off =? 0 then None else mjoin (m !! (off - 1))) = o.
Proof. intros H. destruct (off =? 0); [by destruct o | rewrite H; by destruct o]. Qed.

Lemma slots_at a v b rest se :
  is_u64 v /\ b = uvarint_bytes v ->
  (v ← fld get_uleb; mret (a ++ [v])) (at_ (b ++ rest) se) = (Ok (a ++ [v]), at_ rest se).
Proof. intros [H ->]. by rstep. Qed.

(** The optional trailing fields. *)
Lemma tail_at {B} f se (k : Z -> list Z -> pe B) :
  func_ok minor f -> is_u64 (zlen (func_tail minor f)) ->
  (k1 ← remaining;
   sysv ← (if 0 <? k1 then fld get_uleb else mret 0);
   k2 ← remaining;
   slots ← (if 0 <? k2
            then n ← fld get_uleb; loop n (fun l => v ← fld get_uleb; mret (l ++ [v])) []
            else mret []);
   k sysv slots) (at_ (func_tail minor f) se)
  = k (fn_SysvPtrRegs f) (fn_SptrSlots f) (at_ [] se).
Proof.
  intros (_ & _ & _ & _ & _ & _ & _ & Hr & Hs & Hm1 & Hm2 & _) Hz. unfold func_tail in *. rstep.
  destruct (Z.leb_spec 1 minor) as [H1|H1]; cycle 1.
  { rewrite (proj2 (Z.leb_gt 2 minor)) by lia. rewrite Hm1, Hm2 by lia. done. }
  rewrite zlen_app in *. pose proof (uvarint_bytes_pos (fn_SysvPtrRegs f)).
  rewrite (proj2 (Z.ltb_lt 0 _)) by (zpos; lia). do 2 rstep.
  destruct (Z.leb_spec 2 minor) as [H2|H2]; [|by rewrite Hm2 by lia].
  rewrite zlen_app in *. pose proof (uvarint_bytes_pos (zlen (fn_SptrSlots f))).
  rewrite (proj2 (Z.ltb_lt 0 _)) by (zpos; lia).
  pose proof (Forall2_fmap_graph _ uvarint_bytes _ Hs) as HF.
  assert (forall x b, is_u64 x /\ b = uvarint_bytes x -> b <> []) as Hne.
  { intros x b [_ ->]. rewrite <-(app_nil_r (uvarint_bytes x)). apply uvarint_bytes_ne. }
  pose proof (concat_zlen _ Hne _ _ HF).
  assert (is_u64 (zlen (fn_SptrSlots f))) by (zpos; unfold is_u64 in *; lia).
  erewrite pe_bind_ok; [done|]. rstep. rewrite <-(app_nil_r (concat _)).
  erewrite (loop_at _ (fun l x => l ++ [x]) _ slots_at Hne) by done. by rewrite foldl_snoc.
Qed.

(** The function as the reader builds it. *)
Definition enc_func' (g : Func) (body : list Z) : Prop :=
  exists f, enc_func minor tab T f body /\ erase g = erase f /\
    forall off a se, exists rest,
      read_func tab pcv gcs inls off a (at_ body se) = (Ok (a ++ [g]), at_ rest se).

Lemma read_func_at f body :
  is_u64 (zlen body) -> enc_func minor tab T f body -> exists g, enc_func' g body /\ erase g = erase f.
Proof using Htab Hpz Hgz Hiz Hpcv Hgcs Hinl.
  intros Hz Henc. pose proof Henc as (Hf & no & po & go & io & Hn & Hp & Hg & Hi & ->).
  pose proof (rec_ref_u64 _ _ _ _ Hpz Hp). pose proof (rec_ref_u64 _ _ _ _ Hgz Hg).
  pose proof (rec_ref_u64 _ _ _ _ Hiz Hi).
  set (g := mkFunc (fn_Name f) (fn_TextSize f) (fn_FrameSize f) (fn_ArgSize f) (fn_ABI f) (fn_Kind f)
    (fn_Flags f) (fn_FuncID f) (fn_File f) (fn_StartLine f) (fn_SysvPtrRegs f) (fn_SptrSlots f)
    (fn_PCValue f) (fn_Inl f) (fn_GC f) po go io).
  exists g. split; [|done]. exists f. split_and!; [done..|]. intros off a se. exists [].
  pose proof Hf as (? & ? & ? & ? & ? & ? & ? & _). unfold read_func. do 13 rstep.
  rewrite tail_at; [|done|].
  - rewrite (join_ref pcv (fn_PCValue f)) by by apply Hpcv.
    rewrite (join_ref inls (fn_Inl f)) by by apply Hinl.
    rewrite (Hgcs _ _ Hg), option_fmap_id. done.
  - rewrite !zlen_app in Hz. zpos. unfold is_u64 in *. lia.
Qed.

Lemma read_funcs_at fs bodies :
  Forall2 (enc_func minor tab T) fs bodies -> Forall (fun b => is_u64 (zlen b)) bodies ->
  exists gs, Forall2 enc_func' gs bodies /\ erase <$> gs = erase <$> fs.
Proof using Htab Hpz Hgz Hiz Hpcv Hgcs Hinl.
  induction 1 as [|f b fs bodies Hb _ IH]; intros Hz; [by exists []|]. inversion Hz; subst.
  destruct (read_func_at f b) as (g & Hg & He); [done..|]. destruct IH as (gs & Hgs & Hes); [done|].
  exists (g :: gs). split; [by constructor | by rewrite !fmap_cons, He, Hes].
Qed.
End ReadFunc.

(** ** The whole file *)

Definition goc_sections : list string :=
  [SecHeader; SecStrtab; SecFiles; SecPCValue; SecGCMaps; SecInlTree; SecFuncs; SecStackmaps;
   SecWrappers; SecRelocs; SecData].

(** The object carries exactly these metadata sections. *)
Definition carries (ef : efile) (secs : gmap string (list Z)) : Prop :=
  forall n, n ∈ goc_sections ->
    match secs !! n with
    | Some b => exists s, elf_section ef n = Some s /\ es_data s = Some b
    | None => elf_section ef n = None
    end.

Definition sec_of (secs : gmap string (list Z)) (n : string) : list Z := default [] (secs !! n).

Definition enc_header (tab : list Z) (h : Header) (b : list Z) : Prop :=
  exists po no, str_at tab (h_Profile h) po /\ str_at tab (h_Producer h) no /\
  b = Magic ++ le_bytes 2 Major ++ le_bytes 2 (h_Minor h) ++ [h_Arch h; h_Flags h] ++ [0; 0] ++
      le_bytes 4 (u32 po) ++ le_bytes 4 (u32 no) ++ [0; 0; 0; 0].

Lemma header_bytes_writes bd :
  writes (header_bytes bd) (fun tab b => enc_header tab (bd_Header bd) b).
Proof.
  unfold header_bytes. eapply writes_bind; [apply writes_intern|]. intros po.
  eapply writes_bind; [apply writes_intern|]. intros no. apply writes_ret.
  intros tab Hno Hpo. by exists po, no.
Qed.

(** What the writer's sections hold. *)
Record written (bd : Builder) (secs : gmap string (list Z)) (tab : list Z) (T : tables) : Prop := {
  wr_strtab : secs !! SecStrtab = Some tab;
  wr_wrappers : secs !! SecWrappers = None;
  wr_header : exists h, secs !! SecHeader = Some h /\ enc_header tab (bd_Header bd) h;
  wr_tables : tables_ok tab T;
  wr_pcv : sec_of secs SecPCValue = section_bytes (pcv_body <$> t_pv T);
  wr_gcm : sec_of secs SecGCMaps = section_bytes (gc_body <$> t_gv T);
  wr_inl : sec_of secs SecInlTree = section_bytes (t_ib T);
  wr_files : exists bs, sec_of secs SecFiles = section_bytes bs /\
    Forall2 (enc_file tab) (bd_Files bd) bs;
  wr_funcs : exists bs, sec_of secs SecFuncs = section_bytes bs /\
    Forall2 (enc_func (h_Minor (bd_Header bd)) tab T) (bd_Funcs bd) bs;
  wr_relocs : exists bs, sec_of secs SecRelocs = section_bytes bs /\
    Forall2 (enc_reloc tab) (bd_Relocs bd) bs;
  wr_stackmaps : exists bs, sec_of secs SecStackmaps = section_bytes bs /\
    Forall2 (enc_stackmap tab) (bd_Stackmaps bd) bs;
  wr_data : exists bs, sec_of secs SecData = section_bytes bs /\
    Forall2 (enc_data tab) (bd_Data bd) bs }.

Lemma sec_of_add n b secs : secs !! n = None -> sec_of (add_section n b secs) n = b.
Proof.
  intros H. unfold sec_of, add_section. destruct b; [by rewrite H | by rewrite lookup_insert_eq].
Qed.

Lemma lookup_add_ne n m b secs : n <> m -> add_section n b secs !! m = secs !! m.
Proof. intros H. unfold add_section. destruct b; [done | by rewrite lookup_insert_ne]. Qed.

Lemma sec_of_add_ne n m b secs : n <> m -> sec_of (add_section n b secs) m = sec_of secs m.
Proof. intros H. unfold sec_of. by rewrite lookup_add_ne. Qed.

Lemma sec_of_insert_ne n m b secs : n <> m -> sec_of (<[n := b]> secs) m = sec_of secs m.
Proof. intros H. unfold sec_of. by rewrite lookup_insert_ne. Qed.

Ltac sec_lookup :=
  repeat first
    [ rewrite lookup_insert_ne by done | rewrite lookup_insert_eq
    | rewrite lookup_add_ne by done | rewrite lookup_empty ].

Ltac sec_lookups :=
  repeat (rewrite sec_of_add_ne by done); try (rewrite sec_of_add; [|by sec_lookup]); eauto.

Lemma Sections_written bd :
  builder_ok bd -> exists tab T, written bd (Sections bd) tab T.
Proof.
  intros (Hpr & Hpd & _ & Hfiles & Hfuncs & Hrel & Hsm & Hd). unfold Sections.
  match goal with |- context [let '(_, _) := ?p strs0 in _] => set (prog := p) end.
  assert (writes prog (fun tab out => exists T, written bd (<[SecStrtab := tab]> out) tab T)) as Hw.
  { subst prog. eapply writes_bind; [apply header_bytes_writes|]. intros h.
    eapply writes_bind; [apply (writes_records put_file enc_file no_nul _ put_file_writes Hfiles)|].
    intros files. eapply writes_bind; [apply (put_funcs_writes _ _ Hfuncs [] t_nil eq_refl)|].
    intros e. eapply writes_bind;
      [apply (writes_records put_reloc enc_reloc reloc_ok _ put_reloc_writes Hrel)|].
    intros rels. eapply writes_bind;
      [apply (writes_records put_stackmap enc_stackmap stackmap_ok _ put_stackmap_writes Hsm)|].
    intros sms. eapply writes_bind;
      [apply (writes_records put_data enc_data data_ok _ put_data_writes Hd)|].
    intros dats. apply writes_ret.
    intros tab (b5 & -> & H5) (b4 & -> & H4) (b3 & -> & H3) (b2 & T & -> & HT & H2) (b1 & -> & H1) Hh.
    exists T. cbn [encs_of e_funcs e_pcv e_gcm e_inl t_app t_nil t_pv t_gv t_iv t_ib] in *.
    rewrite !app_nil_l. split; sec_lookup; try done; eauto;
      rewrite sec_of_insert_ne by done; sec_lookups. }
  destruct (Hw strs0 strs0_wf) as (_ & _ & HQ). specialize (HQ []). rewrite app_nil_r in HQ.
  destruct (prog strs0) as [out t]. destruct HQ as [T HT]. eauto.
Qed.

Lemma carries_bytes ef secs n : carries ef secs -> n ∈ goc_sections -> sec_bytes ef n = sec_of secs n.
Proof.
  intros H Hn. specialize (H n Hn). unfold sec_bytes, sec_data, sec_of.
  destruct (secs !! n) as [b|]; [destruct H as (s & -> & ->); done | by rewrite H].
Qed.

Lemma carries_data ef secs n b :
  carries ef secs -> n ∈ goc_sections -> secs !! n = Some b ->
  sec_data ef n = Some b /\ exists s, elf_section ef n = Some s.
Proof.
  intros H Hn E. specialize (H n Hn). rewrite E in H. destruct H as (s & Hs & Hd).
  unfold sec_data. rewrite Hs. eauto.
Qed.

Lemma fit_sec_of secs n : sections_fit secs -> is_u64 (zlen (sec_of secs n)).
Proof.
  intros [H _]. unfold sec_of. destruct (secs !! n) as [b|] eqn:E; simpl; [by eapply H | done].
Qed.

Lemma str_at_lt tab v o : str_at tab v o -> 0 <= o < zlen tab.
Proof. intros (pre & post & -> & <-). rewrite !zlen_app, zlen_cons. zpos. lia. Qed.

Lemma parse_header_at tab h b :
  is_u32 (zlen tab) -> is_u16 (h_Minor h) -> enc_header tab h b ->
  exists po no, str_at tab (h_Profile h) po /\ str_at tab (h_Producer h) no /\
  parse_header b = Ok (Major, h_Minor h, h_Arch h, h_Flags h, po, no).
Proof.
  intros Htab Hm (po & no & Hpo & Hno & ->). exists po, no. split_and!; [done..|].
  pose proof (str_at_lt _ _ _ Hpo). pose proof (str_at_lt _ _ _ Hno). unfold is_u32 in Htab.
  rewrite !u32_small by (unfold is_u32; lia). unfold parse_header.
  match goal with |- context [le_bytes 2 Major ++ ?x] =>
    change (zlen (Magic ++ le_bytes 2 Major ++ x)) with 28;
    change (take 8 (Magic ++ le_bytes 2 Major ++ x)) with Magic;
    change (take 2 (drop 8 (Magic ++ le_bytes 2 Major ++ x))) with (le_bytes 2 Major);
    change (take 2 (drop 10 (Magic ++ le_bytes 2 Major ++ x))) with (le_bytes 2 (h_Minor h));
    change (take 4 (drop 16 (Magic ++ le_bytes 2 Major ++ x))) with (le_bytes 4 po);
    change (take 4 (drop 20 (Magic ++ le_bytes 2 Major ++ x))) with (le_bytes 4 no)
  end.
  rewrite !le_value_le_bytes, !Z.mod_small by (unfold is_u16, Major in *; simpl; lia).
  by rewrite bool_decide_eq_true_2 by done.
Qed.

Definition esyms (ef : efile) : list esymbol := match ef_symbols ef with SymOk l => l | _ => [] end.

Lemma str_top_at tab v o se : no_nul v -> str_at tab v o -> str_top tab o se = (v, se).
Proof. intros Hv Ho. unfold str_top. by rewrite (str_ok tab v). Qed.

Lemma res_bind_ok {E A B} (m : res E A) (k : A -> res E B) x : m = Ok x -> (m ≫= k) = k x.
Proof. by intros ->. Qed.

(** The reader on the sections of the writer, in the order it reads them. *)
Section Whole.
Variables (bd : Builder) (ef : efile) (tab : list Z) (T : tables).
Let secs := Sections bd.
Hypothesis Hfit : sections_fit secs.
Hypothesis Hcar : carries ef secs.
Hypothesis Hw : written bd secs tab T.

Ltac in_goc := unfold goc_sections; set_solver.

Lemma rec_list {V} n (m : Z -> list V -> pe (list V)) (R : V -> list Z -> Prop) vs bodies se :
  n ∈ goc_sections -> sec_of secs n = section_bytes bodies ->
  (forall off a v body se, is_u64 (zlen body) -> R v body ->
     exists rest, m off a (at_ body se) = (Ok (a ++ [v]), at_ rest se)) ->
  Forall2 R vs bodies -> rec_section n m (sec_bytes ef n) [] se = Ok (vs, se).
Proof using Hfit Hcar.
  intros Hn E Hm HF. rewrite (carries_bytes _ _ _ Hcar Hn), E.
  apply (rec_section_list n m R); [done..|]. rewrite <-E. by apply fit_sec_of.
Qed.

Lemma rec_map {A V} n (m : Z -> A -> pe A) (upd : Z -> A -> V -> A) (R : V -> list Z -> Prop) vs bodies a se :
  n ∈ goc_sections -> sec_of secs n = section_bytes bodies ->
  (forall off a v body se, is_u64 (zlen body) -> R v body ->
     exists rest, m off a (at_ body se) = (Ok (upd off a v), at_ rest se)) ->
  Forall2 R vs bodies -> rec_section n m (sec_bytes ef n) a se = Ok (upd_all upd 0 a vs bodies, se).
Proof using Hfit Hcar.
  intros Hn E Hm HF. rewrite (carries_bytes _ _ _ Hcar Hn), E.
  apply (rec_section_run n m upd R); [done..|]. rewrite <-E. by apply fit_sec_of.
Qed.

Lemma tab_u64 : is_u64 (zlen tab).
Proof using Hfit Hw. destruct Hfit as [H _]. eapply H, wr_strtab, Hw. Qed.

Lemma tab_u32 : is_u32 (zlen tab).
Proof using Hfit Hw. destruct Hfit as [_ H]. eapply H, wr_strtab, Hw. Qed.

Definition pcv_upd (off : Z) (s : gset Z * gmap Z (option (list PCTable))) (ts : list PCTable) :=
  ({[ off ]} ∪ fst s, <[off := Some ts]> (snd s)).
Definition gc_upd (off : Z) (s : gset Z * gmap Z GCMap) (g : GCMap) :=
  ({[ off ]} ∪ fst s, <[off := g]> (snd s)).
Definition inl_upd (off : Z) (s : gmap Z (option (list InlNode))) (ns : list InlNode) :=
  <[off := Some ns]> s.

Lemma parse_pcv se :
  exists pcvs, rec_section SecPCValue read_pcv (sec_bytes ef SecPCValue) (∅, ∅) se = Ok (pcvs, se) /\
  resolves Some (snd pcvs) (t_pv T) (pcv_body <$> t_pv T).
Proof using Hfit Hcar Hw.
  destruct (wr_tables _ _ _ _ Hw) as (H & _). eexists. split.
  - apply (rec_map _ _ pcv_upd enc_pcv (t_pv T) (pcv_body <$> t_pv T));
      [in_goc | exact (wr_pcv _ _ _ _ Hw) | apply read_pcv_at |].
    clear -H. induction H as [|ts l [H1 H2] _ IH]; simpl; constructor; [done | apply IH].
  - apply (resolves_upd_all pcv_upd snd Some); [done | by rewrite length_fmap].
Qed.

Lemma parse_gc se :
  exists gcs, rec_section SecGCMaps read_gc (sec_bytes ef SecGCMaps) (∅, ∅) se = Ok (gcs, se) /\
  resolves id (snd gcs) (t_gv T) (gc_body <$> t_gv T).
Proof using Hfit Hcar Hw.
  destruct (wr_tables _ _ _ _ Hw) as (_ & H & _). eexists. split.
  - apply (rec_map _ _ gc_upd enc_gc (t_gv T) (gc_body <$> t_gv T));
      [in_goc | exact (wr_gcm _ _ _ _ Hw) | apply read_gc_at |].
    clear -H. induction H as [|g l H1 _ IH]; simpl; constructor; [done | apply IH].
  - apply (resolves_upd_all gc_upd snd id); [done | by rewrite length_fmap].
Qed.

Lemma parse_inl se :
  exists inls, rec_section SecInlTree (read_inl tab) (sec_bytes ef SecInlTree) ∅ se = Ok (inls, se) /\
  resolves Some inls (t_iv T) (t_ib T).
Proof using Hfit Hcar Hw.
  destruct (wr_tables _ _ _ _ Hw) as (_ & _ & H). eexists. split.
  - apply (rec_map _ _ inl_upd (enc_inl tab) (t_iv T) (t_ib T)); [in_goc | exact (wr_inl _ _ _ _ Hw) | | done].
    intros. by apply read_inl_at; [apply tab_u64 | ..].
  - apply (resolves_upd_all inl_upd (fun m => m) Some); [done | by eapply Forall2_length].
Qed.

Lemma parse_funcs pcv gcs inls se :
  resolves Some pcv (t_pv T) (pcv_body <$> t_pv T) -> resolves id gcs (t_gv T) (gc_body <$> t_gv T) ->
  resolves Some inls (t_iv T) (t_ib T) ->
  exists fs, rec_section SecFuncs (read_func tab pcv gcs inls) (sec_bytes ef SecFuncs) [] se
    = Ok (fs, se) /\ erase <$> fs = erase <$> bd_Funcs bd.
Proof using Hfit Hcar Hw.
  intros Hp Hg Hi. destruct (wr_funcs _ _ _ _ Hw) as (bs & E & HF).
  pose proof (fit_sec_of _ SecFuncs Hfit) as Hz. fold secs in E. rewrite E in Hz.
  destruct (read_funcs_at (h_Minor (bd_Header bd)) tab T pcv gcs inls)
    with (fs := bd_Funcs bd) (bodies := bs) as (gs & Hgs & He); try done.
  - apply tab_u64.
  - rewrite <-(wr_pcv _ _ _ _ Hw). by apply fit_sec_of.
  - rewrite <-(wr_gcm _ _ _ _ Hw). by apply fit_sec_of.
  - rewrite <-(wr_inl _ _ _ _ Hw). by apply fit_sec_of.
  - by apply section_bodies_u64.
  - exists gs. split; [|done]. eapply rec_list; [in_goc | exact E | | exact Hgs].
    intros off a v body se' _ (f & _ & _ & Hr). apply Hr.
Qed.
End Whole.

(** What a parsed file and a builder have in common: all the tables. *)
Definition same_tables (f : File) (bd : Builder) : Prop :=
  let h := bd_Header bd in
  f_Header f = mkHeader Major (h_Minor h) (h_Arch h) (h_Flags h) (h_Profile h) (h_Producer h) /\
  f_Files f = bd_Files bd /\ erase <$> f_Funcs f = erase <$> bd_Funcs bd /\
  f_Relocs f = bd_Relocs bd /\ f_Stackmaps f = bd_Stackmaps bd /\ f_Data f = bd_Data bd /\
  f_Wrappers f = [].

(** C2. Round trip of a .goc.o: for every builder whose values have their Go
    types (names without NUL, bitmaps of the declared sizes, no repeated pc in a
    line table) and whose sections fit 64-bit lengths, an ELF file that carries
    the sections [Builder.Sections] returns is accepted by [Parse], and [Parse]
    returns every header field, file, function (with its pc tables, GC map and
    inline tree), relocation, stack map and data symbol as the builder held it. *)
Theorem parse_sections_roundtrip bd ef symbols text :
  builder_ok bd -> sections_fit (Sections bd) -> carries ef (Sections bd) ->
  ef_symbols ef <> SymErr -> add_symbols ef (∅, ∅) (esyms ef) = Ok (symbols, text) ->
  exists f, Parse ef = Ok f /\ same_tables f bd /\ f_Symbols f = symbols /\ f_Text f = text.
Proof.
  intros Hok Hfit Hcar Hsy Hsyms. destruct (Sections_written bd Hok) as (tab & T & Hw).
  pose proof (tab_u64 bd tab T Hfit Hw) as Htab. pose proof (tab_u32 bd tab T Hfit Hw) as Htab32.
  pose proof Hok as (Hpr & Hpd & Hmin & _).
  destruct (wr_header _ _ _ _ Hw) as (h & Eh & Hh).
  destruct (carries_data _ _ SecHeader h Hcar) as [Dh [s Hs]]; [set_solver | done|].
  destruct (carries_data _ _ SecStrtab tab Hcar) as [Dt _]; [set_solver | apply Hw|].
  destruct (parse_header_at _ _ _ Htab32 Hmin Hh) as (po & no & Hpo & Hno & Hph).
  unfold Parse. rewrite Hs, Dh, (res_bind_ok _ _ _ Hph), Dt.
  rewrite (str_top_at _ _ _ _ Hpr Hpo), (str_top_at _ _ _ _ Hpd Hno).
  destruct (wr_files _ _ _ _ Hw) as (b1 & E1 & F1).
  destruct (wr_stackmaps _ _ _ _ Hw) as (b2 & E2 & F2).
  destruct (wr_relocs _ _ _ _ Hw) as (b3 & E3 & F3).
  destruct (wr_data _ _ _ _ Hw) as (b4 & E4 & F4).
  destruct (parse_pcv bd ef tab T Hfit Hcar Hw None) as (pcvs & Hpcv & Rpcv).
  destruct (parse_gc bd ef tab T Hfit Hcar Hw None) as (gcs & Hgc & Rgc).
  destruct (parse_inl bd ef tab T Hfit Hcar Hw None) as (inls & Hinl & Rinl).
  destruct (parse_funcs bd ef tab T Hfit Hcar Hw _ _ _ None Rpcv Rgc Rinl) as (fs & Hfs & Efs).
  assert (sec_bytes ef SecWrappers = []) as Ew.
  { rewrite (carries_bytes _ _ _ Hcar) by set_solver. unfold sec_of. by rewrite (wr_wrappers _ _ _ _ Hw). }
  assert (rec_section SecWrappers (read_wrapper tab) (sec_bytes ef SecWrappers) [] None = Ok ([], None))
    as Hws by by rewrite Ew.
  pose proof (rec_list bd ef Hfit Hcar SecFiles _ _ _ _ None ltac:(set_solver) E1
    (read_file_at tab Htab) F1) as Hfiles.
  pose proof (rec_list bd ef Hfit Hcar SecStackmaps _ _ _ _ None ltac:(set_solver) E2
    (read_stackmap_at tab Htab) F2) as Hsms.
  pose proof (rec_list bd ef Hfit Hcar SecRelocs _ _ _ _ None ltac:(set_solver) E3
    (read_reloc_at tab Htab) F3) as Hrels.
  pose proof (rec_list bd ef Hfit Hcar SecData _ _ _ _ None ltac:(set_solver) E4
    (read_data_at tab Htab) F4) as Hdata.
  unfold esyms in Hsyms. destruct (ef_symbols ef) as [l| |] eqn:Es; [| |done]; cbv zeta;
    rewrite (res_bind_ok _ _ _ Hsyms), (res_bind_ok _ _ _ Hfiles), (res_bind_ok _ _ _ Hpcv),
      (res_bind_ok _ _ _ Hgc), (res_bind_ok _ _ _ Hinl), (res_bind_ok _ _ _ Hfs),
      (res_bind_ok _ _ _ Hsms), (res_bind_ok _ _ _ Hws), (res_bind_ok _ _ _ Hrels),
      (res_bind_ok _ _ _ Hdata); eexists; (split; [reflexivity|]); by split_and!.
Qed.

(** Decides well-typedness of a concrete builder. *)
Ltac concrete :=
  repeat match goal with
  | |- _ /\ _ => split
  | |- forall _, Some _ = Some _ -> _ => intros ? [= <-]
  | |- no_nul _ => apply (bool_decide_unpack _); vm_compute; exact I
  | |- Forall _ [] => constructor
  | |- Forall _ (_ :: _) => constructor
  | |- Forall _ _ => progress cbn
  | |- is_u64 _ => vm_compute; split; congruence
  | |- is_s64 _ => vm_compute; split; congruence
  | |- is_u16 _ => vm_compute; split; congruence
  | |- _ <> _ => discriminate
  | |- ?P => first [progress unfold builder_ok, func_ok, reloc_ok, stackmap_ok, loc_ok, data_ok,
               pctable_ok, entry_ok, gc_ok, safepoint_ok, inlnode_ok, inl_ok
             | progress cbn | done | lia]
  end.

Lemma fit_check secs :
  forallb (fun p => zlen p.2 <? 2 ^ 32) (map_to_list secs) = true -> sections_fit secs.
Proof.
  intros H. rewrite forallb_forall in H.
  assert (forall n b, secs !! n = Some b -> 0 <= zlen b < 2 ^ 32) as Hs.
  { intros n b E. apply elem_of_map_to_list, list_elem_of_In, H in E. simpl in E. zpos.
    apply Z.ltb_lt in E. lia. }
  split; intros; [unfold is_u64 | unfold is_u32]; match goal with E : _ = _ |- _ => apply Hs in E end; lia.
Qed.

(** A builder with one record of every kind. *)
Definition demo_func : Func :=
  mkFunc "demo.add" 32 16 24 0 0 1 0 0 7 3 [8; 16]
    (Some [mkPCT PCLine [mkPC 0 7; mkPC 4 (-1)]]) (Some [mkInl (-1) 0 9 "demo.inner" 4 8])
    (Some (mkGC 3 9 [mkSP 12 [5] [1; 1] [2]])) 0 0 0.

Definition demo_builder : Builder :=
  mkBuilder (mkHeader Major 4 1 0 "p0" "goc") ["a.c"; "b.c"] [demo_func]
    [mkReloc "demo.add" 5 4 1 "memcpy" (-4) 0] [mkSM "demo.add" 12 1 [mkLoc 3 8 7 (-16)]]
    [mkData "demo.tab" 16 3 0 2 [3]].

Definition elf_of (secs : gmap string (list Z)) : efile :=
  mkElf EM_X86_64 ((fun '(n, b) => mkSec n SHT_PROGBITS 0 (zlen b) (Some b)) <$> map_to_list secs) SymNone.

Lemma parse_sections_roundtrip_witness :
  exists f, Parse (elf_of (Sections demo_builder)) = Ok f /\ same_tables f demo_builder /\
    f_Symbols f = ∅ /\ f_Text f = ∅.
Proof.
  apply parse_sections_roundtrip.
  - concrete.
  - apply fit_check. vm_compute. reflexivity.
  - intros n Hn. repeat (apply elem_of_cons in Hn as [->|Hn]; [vm_compute; eauto|]).
    exfalso. exact (not_elem_of_nil n Hn).
  - done.
  - done.
Defined.
