(* ===== verification/Verify.v ===== *)
(** * The validity check of a [.gocobj] file

    Models [Verify] and [hasStackCheck] of src/internal/gocobj/verify.go: every
    violation found, in the order the code reports them.  [valid] states the
    invariants of docs/design/gocobj-format.md; the check finds nothing exactly on
    valid files, as long as the three products and sums it computes with [uint64]
    do not wrap around.  The values for which they do are the last section. *)

From stdpp Require Import base list strings gmap.
From S2P Require Import Prelude Codec Format Elf GocobjRead.

(** The messages of [bad]; the first argument is the place [w]. *)
Inductive verr :=
| VProfile (name : string)
| VArch (arch : Z)
| VArchProfile (arch name : string)
| VEmptySymbol (w : string)
| VNoSymbol (w name : string)
| VNotUnique (w name : string) (count : Z)
| VTwice (w : string)
| VNotFunc (w : string)
| VTextSize (w : string) (text elf : Z)
| VFile (w : string) (file : Z)
| VABI (w : string) (abi : Z)
| VPcvOff (w : string) (off : Z)
| VGcOff (w : string) (off : Z)
| VInlParent (w : string) (j : nat) (parent : Z)
| VInlFile (w : string) (j : nat) (file : Z)
| VInlPC (w : string) (j : nat) (pc : Z)
| VFileValue (w : string) (v : Z)
| VInlIndex (w : string) (v : Z)
| VPCKind (w : string) (k : Z)
| VPCStart (w kind : string) (pc : Z)
| VPCOrder (w kind : string) (j : nat)
| VPCRange (w kind : string) (pc size : Z)
| VLocals (w : string) (nlocals frame : Z)
| VSafepointPC (w : string) (pc : Z)
| VSafepointOrder (w : string) (j : nat)
| VStackCheck (w profile : string)
| VNotListed (w : string)
| VWrapperKind (w : string) (kind : Z)
| VWrapperABI (w : string) (from to : Z)
| VStackmapPC (w : string) (size : Z)
| VRelocEnd (w : string) (width size : Z)
| VCallLength (w : string) (width : Z)
| VRelocWidth (w : string) (width : Z)
| VRelocKind (w : string) (kind : Z)
| VRelocTarget (w elf target : string)
| VRelocSafepoint (w : string) (pc : Z)
| VDataBits (w : string) (nbits size : Z).

(** [if b { bad(e) }] *)
Definition when (b : bool) (e : verr) : list verr := if b then [e] else [].

(** [for j, x := range l { ... }] over the errors of each element. *)
Definition each {A} (l : list A) (g : nat -> A -> list verr) : list verr := concat (imap g l).

Definition lookup_prev {A} (d : A) (l : list A) (j : nat) : A := default d (l !! (j - 1)%nat).

(** The value of the first entry, for a table that starts at pc 0. *)
Definition table_start (t : PCTable) : option Z :=
  match pct_Entries t with
  | e :: _ => if pc_PC e =? 0 then Some (pc_Value e) else None
  | [] => None
  end.

(** One turn of the loop of [hasStackCheck]. *)
Definition check_step (s : bool * bool) (t : PCTable) : bool * bool :=
  match table_start t with
  | None => s
  | Some v =>
      if pct_Kind t =? PCSPDelta then (v =? 0, snd s)
      else if pct_Kind t =? PCUnsafePoint then (fst s, v =? -2) else s
  end.

Definition hasStackCheck (fn : Func) : bool :=
  let '(sp, up) := foldl check_step (false, false) (slice (fn_PCValue fn)) in sp && up.

Definition archName (arch : Z) : string :=
  if arch =? ArchAMD64 then "amd64" else if arch =? ArchARM64 then "arm64" else "".

Section Verify.
Variable f : File.

Definition prof : option Profile := LookupProfile (h_Profile (f_Header f)).
Definition ptr : Z := match prof with Some p => p_PtrSize p | None => 8 end.

Definition verify_header : list verr :=
  let arch := archName (h_Arch (f_Header f)) in
  when (match prof with Some _ => false | None => true end) (VProfile (h_Profile (f_Header f))) ++
  (if String.eqb arch "" then [VArch (h_Arch (f_Header f))]
   else match prof with
        | Some p => when (negb (String.eqb (p_Arch p) arch)) (VArchProfile arch (p_Name p))
        | None => []
        end).

(** The closure [sym]: the symbol (nil when there is none) and its violations. *)
Definition sym (w name : string) : option Symbol * list verr :=
  let s := f_Symbols f !! name in
  (s, if String.eqb name "" then [VEmptySymbol w]
      else match s with
           | None => [VNoSymbol w name]
           | Some s => when (1 <? s_Count s) (VNotUnique w name (s_Count s))
           end).

Definition verify_inl (w : string) (fn : Func) (j : nat) (n : InlNode) : list verr :=
  when ((in_Parent n <? -1) || (Z.of_nat j <=? in_Parent n)) (VInlParent w j (in_Parent n)) ++
  when (zlen (f_Files f) <=? in_File n) (VInlFile w j (in_File n)) ++
  when ((0 <? fn_TextSize fn) && (fn_TextSize fn <=? in_ParentPC n)) (VInlPC w j (in_ParentPC n)).

Definition verify_table (w : string) (fn : Func) (_ : nat) (t : PCTable) : list verr :=
  let k := pct_Kind t in
  let kind := PCKind_String k in
  each (pct_Entries t) (fun _ e =>
    when ((k =? PCFile) && ((pc_Value e <? 0) || (zlen (f_Files f) <=? pc_Value e)))
      (VFileValue w (pc_Value e)) ++
    when ((k =? PCInlIndex) && ((pc_Value e <? -1) || (zlen (slice (fn_Inl fn)) <=? pc_Value e)))
      (VInlIndex w (pc_Value e))) ++
  when ((k =? 0) || (pcLast <=? k)) (VPCKind w k) ++
  each (pct_Entries t) (fun j e =>
    (if (j =? 0)%nat && negb (pc_PC e =? 0) then [VPCStart w kind (pc_PC e)]
     else when ((0 <? j)%nat && (pc_PC e <=? pc_PC (lookup_prev e (pct_Entries t) j)))
            (VPCOrder w kind j)) ++
    when ((0 <? fn_TextSize fn) && (fn_TextSize fn <=? pc_PC e))
      (VPCRange w kind (pc_PC e) (fn_TextSize fn))).

(** The frame size, or the largest SP_DELTA value when that is larger. *)
Definition maxSP (fn : Func) : Z :=
  foldl (fun m t =>
    if pct_Kind t =? PCSPDelta
    then foldl (fun m e => if (0 <? pc_Value e) && (m <? pc_Value e) then pc_Value e else m)
           m (pct_Entries t)
    else m) (fn_FrameSize fn) (slice (fn_PCValue fn)).

Definition verify_gc (w : string) (fn : Func) (g : GCMap) : list verr :=
  when (maxSP fn <? u64 (gc_NLocals g * ptr)) (VLocals w (gc_NLocals g) (fn_FrameSize fn)) ++
  each (gc_Safepoints g) (fun j sp =>
    when ((sp_PC sp =? 0) || (fn_TextSize fn <? sp_PC sp)) (VSafepointPC w (sp_PC sp)) ++
    when ((0 <? j)%nat && (sp_PC sp <=? sp_PC (lookup_prev sp (gc_Safepoints g) j)))
      (VSafepointOrder w j)).

(** One turn of the loop over [f.Funcs]; [funcs] is the map built so far. *)
Definition verify_func (funcs : gmap string Func) (fn : Func) : list verr :=
  let w := "func " +:+ fn_Name fn in
  when (if funcs !! fn_Name fn then true else false) (VTwice w) ++
  (let '(s, errs) := sym w (fn_Name fn) in
   errs ++
   match s with
   | None => []
   | Some s =>
       if negb (s_Func s) || negb (s_Defined s) then [VNotFunc w]
       else when (negb (s_Size s =? fn_TextSize fn)) (VTextSize w (fn_TextSize fn) (s_Size s))
   end) ++
  when (((zlen (f_Files f) <=? fn_File fn) && (0 <? zlen (f_Files f))) ||
        ((zlen (f_Files f) =? 0) && negb (fn_File fn =? 0))) (VFile w (fn_File fn)) ++
  when (ABIInternal <? fn_ABI fn) (VABI w (fn_ABI fn)) ++
  when (negb (fn_pcvOff fn =? 0) && negb (bool_decide (fn_pcvOff fn - 1 ∈ f_pcvStarts f)))
    (VPcvOff w (fn_pcvOff fn - 1)) ++
  when (negb (fn_gcOff fn =? 0) && negb (bool_decide (fn_gcOff fn - 1 ∈ f_gcStarts f)))
    (VGcOff w (fn_gcOff fn - 1)) ++
  each (slice (fn_Inl fn)) (verify_inl w fn) ++
  each (slice (fn_PCValue fn)) (verify_table w fn) ++
  match fn_GC fn with Some g => verify_gc w fn g | None => [] end ++
  match prof with
  | Some p =>
      when (negb (Z.land (h_Flags (f_Header f)) HeaderStackChecksInCode =? 0) &&
            negb (Z.land (fn_Flags fn) FuncNeedsStackCheck =? 0) && negb (hasStackCheck fn))
        (VStackCheck w (p_Name p))
  | None => []
  end.

Fixpoint verify_funcs (funcs : gmap string Func) (fns : list Func) : gmap string Func * list verr :=
  match fns with
  | [] => (funcs, [])
  | fn :: fns =>
      let '(funcs', errs) := verify_funcs (<[fn_Name fn := fn]> funcs) fns in
      (funcs', verify_func funcs fn ++ errs)
  end.

Section Listed.
Variable funcs : gmap string Func.

Definition verify_wrapper (_ : nat) (wr : Wrapper) : list verr :=
  let w := "wrapper " +:+ w_Sym wr in
  match funcs !! w_Sym wr with
  | None => [VNotListed w]
  | Some fn => when (negb (fn_Kind fn =? 1)) (VWrapperKind w (fn_Kind fn))
  end ++ snd (sym w (w_Target wr)) ++
  when ((2 <? w_FromABI wr) || (2 <? w_ToABI wr)) (VWrapperABI w (w_FromABI wr) (w_ToABI wr)).

Definition verify_stackmap (i : nat) (sm : Stackmap) : list verr :=
  let w := "stackmap " +:+ dec (Z.of_nat i) +:+ " (" +:+ sm_Func sm +:+ "+" +:+ dec (sm_InsnOff sm) +:+ ")" in
  match funcs !! sm_Func sm with
  | None => [VNotListed w]
  | Some fn => when (fn_TextSize fn <=? sm_InsnOff sm) (VStackmapPC w (fn_TextSize fn))
  end.

Definition verify_reloc (i : nat) (r : Reloc) : list verr :=
  let w := "reloc " +:+ dec (Z.of_nat i) +:+ " (" +:+ r_Func r +:+ "+" +:+ dec (r_Offset r) +:+ ")" in
  let fn := funcs !! r_Func r in
  let pc := u64 (r_Offset r + r_Width r) in
  match fn with
  | None => [VNotListed w]
  | Some fn => when (fn_TextSize fn <? pc) (VRelocEnd w (r_Width r) (fn_TextSize fn))
  end ++
  (if r_Kind r =? RCallIndirectMark
   then when ((r_Width r =? 0) || (15 <? r_Width r)) (VCallLength w (r_Width r))
   else when (negb ((r_Width r =? 1) || (r_Width r =? 2) || (r_Width r =? 4) || (r_Width r =? 8)))
          (VRelocWidth w (r_Width r))) ++
  when ((r_Kind r =? 0) || (rLast <=? r_Kind r)) (VRelocKind w (r_Kind r)) ++
  (if r_Kind r =? RCallIndirectMark then [] else snd (sym w (r_Target r))) ++
  match f_ELFRelocs f !! at_key (r_Func r) (r_Offset r) with
  | Some t => when (negb (String.eqb t (r_Target r))) (VRelocTarget w t (r_Target r))
  | None => []
  end ++
  match fn with
  | None => []
  | Some fn =>
      let found := match fn_GC fn with
                   | Some g => existsb (fun sp => sp_PC sp =? pc) (gc_Safepoints g)
                   | None => false
                   end in
      when (negb (Z.land (r_Flags r) RelocSafepoint =? 0) && negb found) (VRelocSafepoint w pc)
  end.
End Listed.

Definition verify_data (_ : nat) (d : Data) : list verr :=
  let w := "data " +:+ d_Name d in
  snd (sym w (d_Name d)) ++
  when (u64 (d_Size d + ptr - 1) <? u64 (d_NBits d * ptr)) (VDataBits w (d_NBits d) (d_Size d)).

Definition Verify : list verr :=
  let '(funcs, errs) := verify_funcs ∅ (f_Funcs f) in
  verify_header ++ errs ++ each (f_Wrappers f) (verify_wrapper funcs) ++
  each (f_Stackmaps f) (verify_stackmap funcs) ++ each (f_Relocs f) (verify_reloc funcs) ++
  each (f_Data f) verify_data.
End Verify.

(** ** The invariants of the format *)

(** The start value of the last table of kind [k] that starts at pc 0. *)
Definition start_step (k : Z) (o : option Z) (t : PCTable) : option Z :=
  if pct_Kind t =? k then from_option Some o (table_start t) else o.

Definition last_start (k : Z) (ts : list PCTable) : option Z := foldl (start_step k) None ts.

Section Valid.
Variable f : File.

Definition names_symbol (name : string) (s : Symbol) : Prop :=
  name <> "" /\ f_Symbols f !! name = Some s /\ s_Count s <= 1.

Definition valid_header : Prop :=
  exists p, prof f = Some p /\ p_Arch p = archName (h_Arch (f_Header f)) /\ p_Arch p <> "".

Record valid_table (fn : Func) (t : PCTable) : Prop := {
  vt_kind : pct_Kind t <> 0 /\ pct_Kind t < pcLast;
  vt_file : forall e, e ∈ pct_Entries t -> pct_Kind t = PCFile -> 0 <= pc_Value e < zlen (f_Files f);
  vt_inl : forall e, e ∈ pct_Entries t -> pct_Kind t = PCInlIndex ->
    -1 <= pc_Value e < zlen (slice (fn_Inl fn));
  vt_start : forall e, pct_Entries t !! 0%nat = Some e -> pc_PC e = 0;
  vt_order : forall j e e', pct_Entries t !! j = Some e -> pct_Entries t !! S j = Some e' ->
    pc_PC e < pc_PC e';
  vt_range : forall e, e ∈ pct_Entries t -> 0 < fn_TextSize fn -> pc_PC e < fn_TextSize fn }.

Record valid_gc (fn : Func) (g : GCMap) : Prop := {
  vg_locals : gc_NLocals g * ptr f <= fn_FrameSize fn \/
    exists t e, t ∈ slice (fn_PCValue fn) /\ e ∈ pct_Entries t /\ pct_Kind t = PCSPDelta /\
      0 < pc_Value e /\ gc_NLocals g * ptr f <= pc_Value e;
  vg_pc : forall sp, sp ∈ gc_Safepoints g -> sp_PC sp <> 0 /\ sp_PC sp <= fn_TextSize fn;
  vg_order : forall j sp sp', gc_Safepoints g !! j = Some sp -> gc_Safepoints g !! S j = Some sp' ->
    sp_PC sp < sp_PC sp' }.

Definition valid_inl (fn : Func) (j : nat) (n : InlNode) : Prop :=
  -1 <= in_Parent n < Z.of_nat j /\ in_File n < zlen (f_Files f) /\
  (0 < fn_TextSize fn -> in_ParentPC n < fn_TextSize fn).

Record valid_func (fn : Func) : Prop := {
  vf_sym : exists s, names_symbol (fn_Name fn) s /\ s_Func s = true /\ s_Defined s = true /\
    s_Size s = fn_TextSize fn;
  vf_file : fn_File fn < zlen (f_Files f) \/ (f_Files f = [] /\ fn_File fn = 0);
  vf_abi : fn_ABI fn <= ABIInternal;
  vf_pcv : fn_pcvOff fn = 0 \/ fn_pcvOff fn - 1 ∈ f_pcvStarts f;
  vf_gcm : fn_gcOff fn = 0 \/ fn_gcOff fn - 1 ∈ f_gcStarts f;
  vf_inl : forall j n, slice (fn_Inl fn) !! j = Some n -> valid_inl fn j n;
  vf_tables : forall t, t ∈ slice (fn_PCValue fn) -> valid_table fn t;
  vf_gc : forall g, fn_GC fn = Some g -> valid_gc fn g;
  vf_check : Z.land (h_Flags (f_Header f)) HeaderStackChecksInCode <> 0 ->
    Z.land (fn_Flags fn) FuncNeedsStackCheck <> 0 ->
    last_start PCSPDelta (slice (fn_PCValue fn)) = Some 0 /\
    last_start PCUnsafePoint (slice (fn_PCValue fn)) = Some (-2) }.

(** [name] is the function [fn] of the function table. *)
Definition listed (name : string) (fn : Func) : Prop := fn ∈ f_Funcs f /\ fn_Name fn = name.

Definition valid_wrapper (wr : Wrapper) : Prop :=
  (exists fn, listed (w_Sym wr) fn /\ fn_Kind fn = 1) /\ (exists s, names_symbol (w_Target wr) s) /\
  w_FromABI wr <= 2 /\ w_ToABI wr <= 2.

Definition valid_stackmap (sm : Stackmap) : Prop :=
  exists fn, listed (sm_Func sm) fn /\ sm_InsnOff sm < fn_TextSize fn.

Record valid_reloc (r : Reloc) : Prop := {
  vr_func : exists fn, listed (r_Func r) fn /\ r_Offset r + r_Width r <= fn_TextSize fn /\
    (Z.land (r_Flags r) RelocSafepoint <> 0 ->
     exists g sp, fn_GC fn = Some g /\ sp ∈ gc_Safepoints g /\ sp_PC sp = r_Offset r + r_Width r);
  vr_width : if decide (r_Kind r = RCallIndirectMark) then 0 < r_Width r <= 15
             else r_Width r ∈ [1; 2; 4; 8];
  vr_kind : 0 < r_Kind r < rLast;
  vr_target : r_Kind r <> RCallIndirectMark -> exists s, names_symbol (r_Target r) s;
  vr_elf : forall t, f_ELFRelocs f !! at_key (r_Func r) (r_Offset r) = Some t -> t = r_Target r }.

Definition valid_data (d : Data) : Prop :=
  (exists s, names_symbol (d_Name d) s) /\ d_NBits d * ptr f <= d_Size d + ptr f - 1.

Record valid : Prop := {
  v_header : valid_header;
  v_nodup : NoDup (fn_Name <$> f_Funcs f);
  v_funcs : Forall valid_func (f_Funcs f);
  v_wrappers : Forall valid_wrapper (f_Wrappers f);
  v_stackmaps : Forall valid_stackmap (f_Stackmaps f);
  v_relocs : Forall valid_reloc (f_Relocs f);
  v_data : Forall valid_data (f_Data f) }.

(** No sum or product of [Verify] leaves 64 bits; unsigned fields are not
    negative. *)
Record no_wrap : Prop := {
  nw_reloc : Forall (fun r => 0 <= r_Width r /\ 0 <= r_Kind r /\ is_u64 (r_Offset r + r_Width r))
    (f_Relocs f);
  nw_gc : Forall (fun fn => 0 <= fn_File fn /\
    forall g, fn_GC fn = Some g -> is_u64 (gc_NLocals g * ptr f)) (f_Funcs f);
  nw_data : Forall (fun d => is_u64 (d_NBits d * ptr f) /\ is_u64 (d_Size d + ptr f - 1)) (f_Data f) }.
End Valid.

(** ** The loops *)

Lemma when_nil b e : when b e = [] <-> b = false.
Proof. by destruct b. Qed.

Lemma each_nil {A} (l : list A) g : each l g = [] <-> forall j x, l !! j = Some x -> g j x = [].
Proof.
  unfold each. revert g. induction l as [|x l IH]; intros g; simpl; [done|].
  rewrite app_nil_iff, IH. split.
  - intros [Hx Hl] [|j] y H; simpl in *; simplify_eq; auto.
  - intros H. split; [by apply (H 0%nat) | intros j y Hy; by apply (H (S j))].
Qed.

Lemma each_nil_elem {A} (l : list A) (g : A -> list verr) :
  each l (fun _ => g) = [] <-> forall x, x ∈ l -> g x = [].
Proof.
  rewrite each_nil. setoid_rewrite list_elem_of_lookup. naive_solver.
Qed.

(** A [bool] test of the code as a proposition. *)
Ltac vbool :=
  rewrite ?andb_false_iff, ?orb_false_iff, ?negb_false_iff, ?Z.ltb_ge, ?Z.leb_gt, ?Z.ltb_lt,
    ?Z.leb_le, ?Z.eqb_neq, ?Z.eqb_eq, ?String.eqb_eq, ?bool_decide_eq_true.

Section Loops.
Variable f : File.

Lemma sym_nil w name s errs :
  sym f w name = (s, errs) -> errs = [] <-> exists y, s = Some y /\ names_symbol f name y.
Proof.
  unfold sym, names_symbol. intros [= <- <-]. destruct (String.eqb_spec name "") as [->|Hn].
  { split; [done|]. naive_solver. }
  destruct (f_Symbols f !! name) as [y|]; [|naive_solver].
  rewrite when_nil, Z.ltb_ge. naive_solver.
Qed.

Lemma sym_ok w name : snd (sym f w name) = [] <-> exists y, names_symbol f name y.
Proof.
  destruct (sym f w name) as [s errs] eqn:E. simpl. rewrite sym_nil by done. split; [naive_solver|].
  intros [y Hy]. exists y. split; [|done]. unfold sym in E. simplify_eq. apply Hy.
Qed.

Lemma verify_header_nil : verify_header f = [] <-> valid_header f.
Proof.
  unfold verify_header, valid_header. rewrite app_nil_iff, when_nil.
  destruct (prof f) as [p|]; [|naive_solver].
  destruct (String.eqb_spec (archName (h_Arch (f_Header f))) "") as [E|E].
  - rewrite E. naive_solver.
  - rewrite when_nil, negb_false_iff, String.eqb_eq. naive_solver congruence.
Qed.

Lemma verify_inl_nil w fn j n : verify_inl f w fn j n = [] <-> valid_inl f fn j n.
Proof.
  unfold verify_inl, valid_inl. rewrite !app_nil_iff, !when_nil. vbool. lia.
Qed.

(** The order of a table: entry [j] against its predecessor. *)
Lemma order_nil {A} (key : A -> Z) (l : list A) :
  (forall j x, l !! j = Some x -> (0 <? j)%nat && (key x <=? key (lookup_prev x l j)) = false) <->
  (forall j x x', l !! j = Some x -> l !! S j = Some x' -> key x < key x').
Proof.
  unfold lookup_prev. split.
  - intros H j x x' Hx Hx'. specialize (H (S j) x' Hx'). simpl in H. rewrite Nat.sub_0_r, Hx in H.
    simpl in H. by apply Z.leb_gt in H.
  - intros H [|j] x Hx; [done|]. simpl. rewrite Nat.sub_0_r.
    destruct (lookup_lt_is_Some_2 l j) as [y Hy]; [apply lookup_lt_Some in Hx; lia|].
    rewrite Hy. simpl. apply Z.leb_gt. eauto.
Qed.

Lemma verify_table_nil w fn j t : verify_table f w fn j t = [] <-> valid_table f fn t.
Proof.
  unfold verify_table. rewrite !app_nil_iff, each_nil_elem, each_nil, when_nil.
  setoid_rewrite app_nil_iff. setoid_rewrite when_nil. split.
  - intros (Hv & Hk & Ho). apply orb_false_iff in Hk as [Hk1%Z.eqb_neq Hk2%Z.leb_gt].
    assert (forall j x, pct_Entries t !! j = Some x ->
      (0 <? j)%nat && (pc_PC x <=? pc_PC (lookup_prev x (pct_Entries t) j)) = false) as Hord.
    { intros [|i] x Hx; [done|]. by destruct (Ho _ _ Hx) as [?%when_nil _]. }
    split; [done | | | | by apply order_nil |].
    + intros e He Hf. destruct (Hv e He) as [H _]. revert H. vbool. lia.
    + intros e He Hf. destruct (Hv e He) as [_ H]. revert H. vbool. lia.
    + intros e He. destruct (Ho _ _ He) as [H _]. destruct (Z.eqb_spec (pc_PC e) 0); done.
    + intros e [i He]%list_elem_of_lookup. destruct (Ho _ _ He) as [_ H]. revert H. vbool. lia.
  - intros [Hk Hf Hi Hs Ho Hr]. split_and!.
    + intros e He. vbool. split; [destruct (decide (pct_Kind t = PCFile)) | destruct (decide (pct_Kind t = PCInlIndex))];
        try (by left); right; [specialize (Hf e He) | specialize (Hi e He)]; lia.
    + vbool. lia.
    + intros i e He. split; cycle 1.
      { apply list_elem_of_lookup_2 in He as He'. vbool. destruct (decide (0 < fn_TextSize fn)); [right|left; lia].
        by apply Hr. }
      pose proof (proj2 (order_nil pc_PC _) Ho i e He) as Hord. destruct i as [|i]; simpl.
      * by rewrite (Hs e He).
      * by apply when_nil.
Qed.

Lemma max_entries n es : forall m,
  n <= foldl (fun m e => if (0 <? pc_Value e) && (m <? pc_Value e) then pc_Value e else m) m es <->
  n <= m \/ exists e, e ∈ es /\ 0 < pc_Value e /\ n <= pc_Value e.
Proof.
  induction es as [|e es IH]; intros m; simpl; [set_solver|].
  rewrite IH. setoid_rewrite elem_of_cons.
  destruct (Z.ltb_spec 0 (pc_Value e)); simpl; [|naive_solver lia].
  destruct (Z.ltb_spec m (pc_Value e)).
  - split; [naive_solver|]. intros [|(x & [->|] & ? & ?)]; [left; lia | by left | right; eauto].
  - split; [naive_solver|]. intros [|(x & [->|] & ? & ?)]; [by left | left; lia | right; eauto].
Qed.

Lemma maxSP_le n fn :
  n <= maxSP fn <-> n <= fn_FrameSize fn \/
    exists t e, t ∈ slice (fn_PCValue fn) /\ e ∈ pct_Entries t /\ pct_Kind t = PCSPDelta /\
      0 < pc_Value e /\ n <= pc_Value e.
Proof.
  unfold maxSP. generalize (fn_FrameSize fn). induction (slice (fn_PCValue fn)) as [|t ts IH];
    intros m; simpl; [set_solver|].
  rewrite IH. setoid_rewrite elem_of_cons.
  destruct (Z.eqb_spec (pct_Kind t) PCSPDelta); [rewrite max_entries|]; naive_solver.
Qed.

Lemma verify_gc_nil w fn g :
  is_u64 (gc_NLocals g * ptr f) -> verify_gc f w fn g = [] <-> valid_gc f fn g.
Proof.
  intros Hw. unfold verify_gc. rewrite app_nil_iff, when_nil, each_nil, Z.ltb_ge, u64_small, maxSP_le by done.
  setoid_rewrite app_nil_iff. setoid_rewrite when_nil. split.
  - intros [Hl Hs]. split; [done | |].
    + intros sp [i Hi]%list_elem_of_lookup. destruct (Hs _ _ Hi) as [H _]. revert H. vbool. lia.
    + apply order_nil. intros j x Hx. by destruct (Hs _ _ Hx).
  - intros [Hl Hp Ho]. split; [done|]. intros j x Hx. split; [|by apply order_nil].
    apply list_elem_of_lookup_2, Hp in Hx. vbool. lia.
Qed.

Definition starts (o1 o2 : option Z) : bool * bool :=
  (bool_decide (o1 = Some 0), bool_decide (o2 = Some (-2))).

Lemma check_step_starts o1 o2 t :
  check_step (starts o1 o2) t = starts (start_step PCSPDelta o1 t) (start_step PCUnsafePoint o2 t).
Proof.
  unfold check_step, start_step, starts.
  destruct (Z.eqb_spec (pct_Kind t) PCSPDelta) as [E|E], (Z.eqb_spec (pct_Kind t) PCUnsafePoint) as [E'|E'],
    (table_start t) as [v|]; try done; try (by rewrite E in E'); simpl; f_equal.
  - destruct (Z.eqb_spec v 0); symmetry; [by apply bool_decide_eq_true; subst|].
    apply bool_decide_eq_false. congruence.
  - destruct (Z.eqb_spec v (-2)); symmetry; [by apply bool_decide_eq_true; subst|].
    apply bool_decide_eq_false. congruence.
Qed.

Lemma hasStackCheck_spec fn :
  hasStackCheck fn = true <->
  last_start PCSPDelta (slice (fn_PCValue fn)) = Some 0 /\
  last_start PCUnsafePoint (slice (fn_PCValue fn)) = Some (-2).
Proof.
  unfold hasStackCheck, last_start. change (false, false) with (starts None None).
  assert (forall ts o1 o2, foldl check_step (starts o1 o2) ts =
    starts (foldl (start_step PCSPDelta) o1 ts) (foldl (start_step PCUnsafePoint) o2 ts)) as ->.
  { induction ts as [|t ts IH]; intros o1 o2; [done|]. cbn [foldl]. by rewrite check_step_starts, IH. }
  unfold starts. by rewrite andb_true_iff, !bool_decide_eq_true.
Qed.

Lemma func_sym_nil w fn :
  (let '(s, errs) := sym f w (fn_Name fn) in
   errs ++
   match s with
   | None => []
   | Some s =>
       if negb (s_Func s) || negb (s_Defined s) then [VNotFunc w]
       else when (negb (s_Size s =? fn_TextSize fn)) (VTextSize w (fn_TextSize fn) (s_Size s))
   end) = [] <->
  exists s, names_symbol f (fn_Name fn) s /\ s_Func s = true /\ s_Defined s = true /\
    s_Size s = fn_TextSize fn.
Proof.
  destruct (sym f w (fn_Name fn)) as [s errs] eqn:E. rewrite app_nil_iff, (sym_nil _ _ _ _ E).
  assert (s = f_Symbols f !! fn_Name fn) as -> by (unfold sym in E; congruence).
  split.
  - intros [(y & Ey & Hy) H]. rewrite Ey in H. exists y. split; [done|].
    destruct (s_Func y), (s_Defined y); try done. simpl in H.
    apply when_nil, negb_false_iff, Z.eqb_eq in H. done.
  - intros (y & Hy & H1 & H2 & H3). pose proof Hy as (_ & Ey & _). split; [by exists y|].
    by rewrite Ey, H1, H2, H3, Z.eqb_refl.
Qed.

Lemma file_nil n : 0 <= n ->
  ((zlen (f_Files f) <=? n) && (0 <? zlen (f_Files f)) || (zlen (f_Files f) =? 0) && negb (n =? 0))
    = false <-> n < zlen (f_Files f) \/ (f_Files f = [] /\ n = 0).
Proof.
  intros Hn. destruct (f_Files f) as [|x l]; [change (zlen []) with 0|]; vbool.
  - naive_solver lia.
  - rewrite zlen_cons. zpos. split; [lia|]. intros [|[? _]]; [lia | done].
Qed.

(** One function: its name is new and it is valid. *)
Lemma verify_func_nil funcs fn :
  0 <= fn_File fn -> (forall g, fn_GC fn = Some g -> is_u64 (gc_NLocals g * ptr f)) -> prof f <> None ->
  verify_func f funcs fn = [] <-> funcs !! fn_Name fn = None /\ valid_func f fn.
Proof.
  intros Hfile Hgc Hprof. unfold verify_func. cbv zeta.
  repeat (rewrite app_nil_iff; try rewrite func_sym_nil). rewrite !when_nil.
  rewrite file_nil by done. rewrite !each_nil.
  setoid_rewrite verify_inl_nil. setoid_rewrite verify_table_nil.
  destruct (prof f) as [p|] eqn:Ep; [|done]. rewrite when_nil.
  assert ((match fn_GC fn with Some g => verify_gc f ("func " +:+ fn_Name fn) fn g | None => [] end) = []
    <-> forall g, fn_GC fn = Some g -> valid_gc f fn g) as ->.
  { destruct (fn_GC fn) as [g|]; [|naive_solver]. rewrite verify_gc_nil by auto. naive_solver. }
  assert ((if funcs !! fn_Name fn then true else false) = false <-> funcs !! fn_Name fn = None) as ->
    by (by destruct (funcs !! fn_Name fn)).
  vbool. rewrite hasStackCheck_spec. split.
  - intros (Hn & Hs & Hf & Ha & Hp & Hg & Hi & Ht & Hv & Hc). split; [done|]. split; try done.
    + intros t [i Hi']%list_elem_of_lookup. eauto.
    + intros. by destruct Hc as [[]|].
  - intros [Hn []]. split_and!; try done.
    + intros j t Ht. by eapply vf_tables0, list_elem_of_lookup_2.
    + destruct (decide (Z.land (h_Flags (f_Header f)) HeaderStackChecksInCode = 0)); [by do 2 left|].
      destruct (decide (Z.land (fn_Flags fn) FuncNeedsStackCheck = 0)); [by left; right|]. auto.
Qed.

(** The loop builds the map of the functions by name. *)
Lemma verify_funcs_nil fns : forall funcs funcs' errs,
  Forall (fun fn => 0 <= fn_File fn /\
    forall g, fn_GC fn = Some g -> is_u64 (gc_NLocals g * ptr f)) fns -> prof f <> None ->
  verify_funcs f funcs fns = (funcs', errs) ->
  errs = [] <-> (forall fn, fn ∈ fns -> funcs !! fn_Name fn = None) /\ NoDup (fn_Name <$> fns) /\
    Forall (valid_func f) fns.
Proof.
  induction fns as [|fn fns IH]; intros funcs funcs' errs Hw Hp; cbn [verify_funcs].
  { intros [= <- <-]. split; [|done]. intros _. split_and!; [set_solver | constructor | constructor]. }
  destruct (verify_funcs f (<[fn_Name fn := fn]> funcs) fns) as [m es] eqn:E. intros [= <- <-].
  inversion Hw as [|?? [H1 H2] H3]; subst.
  rewrite app_nil_iff, verify_func_nil, (IH _ _ _ H3 Hp E), fmap_cons, NoDup_cons, Forall_cons by done.
  setoid_rewrite elem_of_cons. rewrite list_elem_of_fmap. split.
  - intros ([Hn Hv] & Hl & Hd & Hf). split_and!; try done.
    + intros x [->|Hx]; [done|]. apply Hl in Hx. by apply lookup_insert_None in Hx as [].
    + intros (y & Ey & Hy). apply Hl in Hy. rewrite <-Ey, lookup_insert_eq in Hy. done.
  - intros (Hl & (Hd1 & Hd2) & Hv & Hf). split_and!; [by apply Hl; left | done | | done | done].
    intros x Hx. apply lookup_insert_None. split; [by apply Hl; right|]. intros Ex. apply Hd1. eauto.
Qed.

Lemma verify_funcs_map fns : forall funcs funcs' errs,
  verify_funcs f funcs fns = (funcs', errs) -> NoDup (fn_Name <$> fns) ->
  forall n fn, funcs' !! n = Some fn <->
    (fn ∈ fns /\ fn_Name fn = n) \/ (n ∉ fn_Name <$> fns /\ funcs !! n = Some fn).
Proof.
  induction fns as [|g fns IH]; intros funcs funcs' errs; cbn [verify_funcs].
  { intros [= <- <-] _ n fn. set_solver. }
  destruct (verify_funcs f (<[fn_Name g := g]> funcs) fns) as [m es] eqn:E. intros [= <- <-].
  rewrite fmap_cons, NoDup_cons. intros [Hd1 Hd2] n fn. rewrite (IH _ _ _ E Hd2 n fn).
  rewrite elem_of_cons, not_elem_of_cons. rewrite list_elem_of_fmap in *.
  destruct (decide (fn_Name g = n)) as [<-|Hne].
  - rewrite lookup_insert_eq. naive_solver.
  - rewrite lookup_insert_ne by done. naive_solver.
Qed.

Section Listed.
Variable funcs : gmap string Func.
Hypothesis Hfuncs : forall n fn, funcs !! n = Some fn <-> listed f n fn.

(** A check of the function a record names. *)
Lemma listed_nil (n : string) e (g : Func -> list verr) (P : Func -> Prop) :
  (forall fn, g fn = [] <-> P fn) ->
  match funcs !! n with None => [e] | Some fn => g fn end = [] <-> exists fn, listed f n fn /\ P fn.
Proof using Hfuncs.
  intros Hg. destruct (funcs !! n) as [fn|] eqn:E.
  - rewrite Hg. split; [intros; exists fn; by rewrite <-Hfuncs|].
    intros (fn' & Hl%Hfuncs & HP). congruence.
  - split; [done|]. intros (fn & Hl%Hfuncs & _). congruence.
Qed.

Lemma verify_wrapper_nil j wr : verify_wrapper f funcs j wr = [] <-> valid_wrapper f wr.
Proof using Hfuncs.
  unfold verify_wrapper, valid_wrapper. rewrite !app_nil_iff, sym_ok, when_nil.
  rewrite (listed_nil _ _ _ (fun fn => fn_Kind fn = 1)); [vbool; naive_solver|].
  intros fn. rewrite when_nil. by vbool.
Qed.

Lemma verify_stackmap_nil j sm : verify_stackmap funcs j sm = [] <-> valid_stackmap f sm.
Proof using Hfuncs.
  unfold verify_stackmap, valid_stackmap. apply listed_nil. intros fn. rewrite when_nil. by vbool.
Qed.

Lemma found_safepoint fn pc :
  (match fn_GC fn with
   | Some g => existsb (fun sp => sp_PC sp =? pc) (gc_Safepoints g)
   | None => false
   end) = true <-> exists g sp, fn_GC fn = Some g /\ sp ∈ gc_Safepoints g /\ sp_PC sp = pc.
Proof.
  destruct (fn_GC fn) as [g|]; [|naive_solver]. rewrite existsb_exists.
  setoid_rewrite list_elem_of_In. setoid_rewrite Z.eqb_eq. naive_solver.
Qed.

Lemma width_nil r : 0 <= r_Width r ->
  (if r_Kind r =? RCallIndirectMark then (r_Width r =? 0) || (15 <? r_Width r)
   else negb ((r_Width r =? 1) || (r_Width r =? 2) || (r_Width r =? 4) || (r_Width r =? 8))) = false <->
  if decide (r_Kind r = RCallIndirectMark) then 0 < r_Width r <= 15 else r_Width r ∈ [1; 2; 4; 8].
Proof.
  intros Hw. destruct (Z.eqb_spec (r_Kind r) RCallIndirectMark); case_decide; try done.
  - vbool. lia.
  - rewrite negb_false_iff, !orb_true_iff, !Z.eqb_eq, !elem_of_cons, elem_of_nil. tauto.
Qed.

Lemma verify_reloc_nil j r :
  0 <= r_Width r -> 0 <= r_Kind r -> is_u64 (r_Offset r + r_Width r) ->
  verify_reloc f funcs j r = [] <-> valid_reloc f r.
Proof using Hfuncs.
  intros Hw Hk Hpc. unfold verify_reloc. cbv zeta. rewrite u64_small by done.
  set (w := "reloc " +:+ _). rewrite !app_nil_iff, when_nil.
  assert ((if r_Kind r =? RCallIndirectMark then [] else snd (sym f w (r_Target r))) = [] <->
    (r_Kind r <> RCallIndirectMark -> exists s, names_symbol f (r_Target r) s)) as ->.
  { destruct (Z.eqb_spec (r_Kind r) RCallIndirectMark); [naive_solver|]. rewrite sym_ok. naive_solver. }
  assert ((if r_Kind r =? RCallIndirectMark
    then when ((r_Width r =? 0) || (15 <? r_Width r)) (VCallLength w (r_Width r))
    else when (negb ((r_Width r =? 1) || (r_Width r =? 2) || (r_Width r =? 4) || (r_Width r =? 8)))
           (VRelocWidth w (r_Width r))) = [] <->
    if decide (r_Kind r = RCallIndirectMark) then 0 < r_Width r <= 15 else r_Width r ∈ [1; 2; 4; 8]) as ->.
  { rewrite <-width_nil by done. destruct (r_Kind r =? RCallIndirectMark); apply when_nil. }
  assert (match f_ELFRelocs f !! at_key (r_Func r) (r_Offset r) with
    | Some t => when (negb (String.eqb t (r_Target r))) (VRelocTarget w t (r_Target r))
    | None => [] end = [] <->
    forall t, f_ELFRelocs f !! at_key (r_Func r) (r_Offset r) = Some t -> t = r_Target r) as ->.
  { destruct (f_ELFRelocs f !! _) as [t|]; [rewrite when_nil; vbool|]; naive_solver. }
  vbool. split.
  - intros (H1 & H2 & H3 & H4 & H5 & H6). split; [|done|lia|done..].
    destruct (funcs !! r_Func r) as [fn|] eqn:E; [|done]. apply Hfuncs in E.
    rewrite when_nil in H1, H6. exists fn. split_and!; [done | by apply Z.ltb_ge|]. intros Hs.
    apply found_safepoint. apply andb_false_iff in H6 as [H6|H6]; [|by apply negb_false_iff].
    by apply negb_false_iff, Z.eqb_eq in H6.
  - intros [(fn & E%Hfuncs & H1 & H6) H2 H3 H4 H5]. rewrite E, !when_nil.
    split_and!; [vbool; lia | done | lia | lia | done | done|].
    apply andb_false_iff. destruct (Z.eqb_spec (Z.land (r_Flags r) RelocSafepoint) 0); [by left|].
    right. apply negb_false_iff, found_safepoint. auto.
Qed.
End Listed.

Lemma verify_data_nil j d :
  is_u64 (d_NBits d * ptr f) -> is_u64 (d_Size d + ptr f - 1) ->
  verify_data f j d = [] <-> valid_data f d.
Proof.
  intros H1 H2. unfold verify_data, valid_data.
  rewrite app_nil_iff, sym_ok, when_nil, !u64_small by done. by vbool.
Qed.

Lemma each_Forall {A} (l : list A) g (P Q : A -> Prop) :
  Forall Q l -> (forall j x, Q x -> g j x = [] <-> P x) -> each l g = [] <-> Forall P l.
Proof.
  intros HQ Hg. rewrite each_nil, Forall_lookup. rewrite Forall_lookup in HQ. naive_solver.
Qed.

Lemma prof_some : valid_header f -> prof f <> None.
Proof. intros (p & -> & _). done. Qed.
End Loops.

(** The whole check. *)
Lemma Verify_nil f : no_wrap f -> Verify f = [] <-> valid f.
Proof.
  intros [Hr Hg Hd]. unfold Verify.
  destruct (verify_funcs f ∅ (f_Funcs f)) as [funcs errs] eqn:E.
  rewrite !app_nil_iff, verify_header_nil.
  assert (NoDup (fn_Name <$> f_Funcs f) -> forall n fn, funcs !! n = Some fn <-> listed f n fn) as Hm.
  { intros Hnd n fn. rewrite (verify_funcs_map f _ _ _ _ E Hnd n fn), lookup_empty. unfold listed.
    naive_solver. }
  assert (valid_header f -> NoDup (fn_Name <$> f_Funcs f) ->
    each (f_Wrappers f) (verify_wrapper f funcs) = [] /\ each (f_Stackmaps f) (verify_stackmap funcs) = [] /\
    each (f_Relocs f) (verify_reloc f funcs) = [] /\ each (f_Data f) (verify_data f) = [] <->
    Forall (valid_wrapper f) (f_Wrappers f) /\ Forall (valid_stackmap f) (f_Stackmaps f) /\
    Forall (valid_reloc f) (f_Relocs f) /\ Forall (valid_data f) (f_Data f)) as Hrest.
  { intros Hh Hnd. rewrite (each_Forall (f_Wrappers f) _ (valid_wrapper f) (fun _ => True)),
      (each_Forall (f_Stackmaps f) _ (valid_stackmap f) (fun _ => True)),
      (each_Forall (f_Relocs f) _ (valid_reloc f) _ Hr), (each_Forall (f_Data f) _ (valid_data f) _ Hd);
      try done; try (apply Forall_true; done).
    - intros j d [H1 H2]. by apply verify_data_nil.
    - intros j r (H1 & H2 & H3). by apply verify_reloc_nil; auto.
    - intros j sm _. by apply verify_stackmap_nil; auto.
    - intros j wr _. by apply verify_wrapper_nil; auto. }
  split.
  - intros (Hh & He & Hall). pose proof (prof_some _ Hh) as Hp.
    apply (verify_funcs_nil f _ _ _ _ Hg Hp E) in He as (_ & Hnd & Hv).
    apply (Hrest Hh Hnd) in Hall as (? & ? & ? & ?). by split.
  - intros [Hh Hnd Hv H1 H2 H3 H4]. pose proof (prof_some _ Hh) as Hp.
    rewrite (verify_funcs_nil f _ _ _ _ Hg Hp E), (Hrest Hh Hnd). split_and!; try done.
Qed.


(** A file with one function, one call and one data symbol. *)
Definition ok_func : Func :=
  mkFunc "demo.add" 32 16 24 0 0 FuncNeedsStackCheck 0 0 7 0 []
    (Some [mkPCT PCSPDelta [mkPC 0 0; mkPC 4 16]; mkPCT PCUnsafePoint [mkPC 0 (-2); mkPC 4 (-1)]])
    None (Some (mkGC 0 2 [mkSP 12 [] [1] []])) 1 1 0.

Definition ok_file (off : Z) : File :=
  mkFile (mkHeader Major Minor ArchAMD64 HeaderStackChecksInCode "goabi1-amd64" "goc") ["a.c"]
    [ok_func] [mkReloc "demo.add" off 4 RCall "memcpy" 0 0] [] []
    [mkData "demo.tab" 16 3 0 2 [3]]
    {[ "demo.add" := mkSymbol "demo.add" true true 32 ".text" 0 1;
       "memcpy" := mkSymbol "memcpy" false false 0 "" 0 1;
       "demo.tab" := mkSymbol "demo.tab" false true 16 ".data" 0 1 ]}
    ∅ ∅ {[ 0 ]} {[ 0 ]}.

Lemma ok_file_no_wrap : no_wrap (ok_file 8).
Proof.
  { split; (apply Forall_singleton || apply (proj2 (Forall_singleton _ _)));
      replace (ptr (ok_file 8)) with 8 by (vm_compute; reflexivity).
    - cbn [r_Width r_Kind r_Offset]. change (0 <= 4 /\ 0 <= RCall /\ is_u64 12). cbv; split_and!; congruence.
    - split; [cbn; lia|]. intros g [= <-]. cbv -[Z.le Z.lt]; lia.
    - cbv -[Z.le Z.lt]; lia. }
Qed.

Lemma ok_file_valid : valid (ok_file 8).
Proof. apply Verify_nil; [apply ok_file_no_wrap | vm_compute; reflexivity]. Qed.


(** ** Wrap-around

    [r.Offset+uint64(r.Width)] is a 64-bit sum: an offset just below 2^64 passes
    the bounds check of a 32-byte function. *)
Lemma Verify_wraps :
  Verify (ok_file (2 ^ 64 - 2)) = [] /\ is_u64 (2 ^ 64 - 2) /\ ~ valid (ok_file (2 ^ 64 - 2)).
Proof.
  split; [vm_compute; reflexivity|]. split; [unfold is_u64; lia|].
  intros [_ _ _ _ _ H _]. inversion H as [|? ? [(fn & [Hin _] & Hle & _) _ _ _ _] _]; subst.
  apply list_elem_of_singleton in Hin as ->. vm_compute in Hle. congruence.
Qed.
