(* ===== verification/PcTab.v ===== *)
(** * pc-value tables and stack maps of the Go object

    Models src/internal/convert/pctab.go ([pcbytes], [pcTable], [stackmaps]) and
    the decoder of the same encoding in src/internal/goobj/diff.go
    ([diffPCValue]).  The main result: what the decoder reads from [pcbytes] is
    the step function the table's entries describe. *)

From stdpp Require Import base list strings gmap.
From S2P Require Import Prelude Text Codec Format Elf GocobjRead Verify.

(** ** Encoder *)

(** A segment: its value and the pc it starts at. *)
Record seg := mkSeg { sg_val : Z; sg_start : Z }.

(** One turn of the first loop of [pcbytes]; the slice [segs] is never empty and
    is kept as its elements before the last one, and the last one. *)
Definition seg_step (size : Z) (segs : list seg * seg) (e : PCEntry) : list seg * seg :=
  let '(init, last) := segs in
  let pc := s64 (pc_PC e) in
  if (pc <? 0) || (size <=? pc) then segs
  else if pc =? sg_start last then (init, mkSeg (pc_Value e) (sg_start last))
  else if pc_Value e =? sg_val last then segs
  else (init ++ [last], mkSeg (pc_Value e) pc).

(** The second loop: the bytes of each segment that is not empty. *)
Fixpoint emit_segs (minLC size prev : Z) (dst : list Z) (segs : list seg) : list Z :=
  match segs with
  | [] => dst
  | s :: rest =>
      let end_ := match rest with s' :: _ => sg_start s' | [] => size end in
      if end_ <=? sg_start s then emit_segs minLC size prev dst rest
      else
        emit_segs minLC size (sg_val s)
          (append_uvarint (append_varint dst (s64 (sg_val s - prev)))
             (u64 (Z.quot (end_ - sg_start s) minLC))) rest
  end.

Definition pcbytes (minLC size : Z) (ents : list PCEntry) : list Z :=
  if size <=? 0 then []
  else
    let '(init, last) := foldl (seg_step size) ([], mkSeg (-1) 0) ents in
    emit_segs minLC size (-1) [] (init ++ [last]) ++ [0].

(** [pcTable]: the entries of the first table of a kind, nil if there is none. *)
Definition pcTable (t : Func) (k : Z) : option (list PCEntry) :=
  (fun p => pct_Entries (snd p)) <$> list_find (fun p => pct_Kind p = k) (slice (fn_PCValue t)).

(** ** Decoder *)

Record span := mkSpan { sn_lo : Z; sn_hi : Z; sn_val : Z }.

(** [int64(uv>>1) ^ -int64(uv&1)] *)
Definition unzigzag (uv : Z) : Z := Z.lxor (Z.shiftr uv 1) (- Z.land uv 1).

(** The loop of [diffPCValue]; [None] is the answer ["<bad>"].  Every turn
    consumes a byte, so the length of the table is enough fuel. *)
Fixpoint spans_go (fuel : nat) (quantum : Z) (b : list Z) (first : bool) (val pc : Z)
    : option (list span) :=
  match fuel, b with
  | _, [] => Some []
  | O, _ => None
  | S fuel, _ =>
      let '(uv, n) := uvarint b in
      if n <=? 0 then None
      else
        let b := drop (Z.to_nat n) b in
        if (uv =? 0) && negb first then Some []
        else
          let val := s64 (val + unzigzag uv) in
          let '(d, n) := uvarint b in
          if n <=? 0 then None
          else
            let b := drop (Z.to_nat n) b in
            let end_ := u64 (pc + u64 (d * quantum)) in
            sp ← spans_go fuel quantum b false val end_;
            Some (mkSpan pc end_ val :: sp)
  end.

Definition pc_spans (quantum : Z) (b : list Z) : option (list span) :=
  spans_go (length b) quantum b true (-1) 0.

(** [fmt.Sprintf("[%d,%d)=%d", pc, end, val)] *)
Definition span_string (s : span) : string :=
  "[" +:+ dec (sn_lo s) +:+ "," +:+ dec (sn_hi s) +:+ ")=" +:+ dec (sn_val s).

Definition join_space (l : list string) : string :=
  match l with
  | [] => ""
  | s :: l => foldl (fun a x => a +:+ " " +:+ x) s l
  end.

Definition diffPCValue (b : option (list Z)) (quantum : Z) : string :=
  match b with
  | None => "<none>"
  | Some b =>
      match pc_spans quantum b with
      | None => "<bad>"
      | Some sp => join_space (span_string <$> sp)
      end
  end.

(** ** Stack maps *)

(** One turn of the loop over the safepoints: the index of each pair of bitmaps
    seen so far, the bitmaps in index order, and the StackMapIndex entries. *)
Record smst := mkSmst {
  sm_seen : gmap (list Z * list Z) Z; sm_as : list (list Z); sm_ls : list (list Z);
  sm_idx : list PCEntry }.

Definition stackmap_step (s : smst) (sp : Safepoint) : smst :=
  let k := (sp_Args sp, sp_Locals sp) in
  let '(i, s) :=
    match sm_seen s !! k with
    | Some i => (i, s)
    | None =>
        let i := zlen (sm_as s) in
        (i, mkSmst (<[k := i]> (sm_seen s)) (sm_as s ++ [sp_Args sp]) (sm_ls s ++ [sp_Locals sp])
              (sm_idx s))
    end in
  mkSmst (sm_seen s) (sm_as s) (sm_ls s) (sm_idx s ++ [mkPC (u64 (sp_PC sp - 1)) i]).

(** The closure [blob]. *)
Definition blob (nbit : Z) (maps : list (list Z)) : list Z :=
  let stride := u64 (nbit + 7) / 8 in
  let n := match maps with [] => 1 | _ => zlen maps end in
  le_bytes 4 (u32 n) ++ le_bytes 4 (u32 nbit) ++ concat maps ++
  match maps with [] => replicate (Z.to_nat stride) 0 | _ => [] end.

Definition stackmaps (g : GCMap) : list Z * list Z * list PCEntry :=
  let s := foldl stackmap_step (mkSmst ∅ [] [] []) (gc_Safepoints g) in
  (blob (gc_NArgs g) (sm_as s), blob (gc_NLocals g) (sm_ls s), sm_idx s).

(** ** What a table means *)

(** The value at [pc]: that of the last entry at or before it; the runtime
    starts at -1. *)
Definition value_at (ents : list PCEntry) (pc : Z) : Z :=
  foldl (fun v e => if pc_PC e <=? pc then pc_Value e else v) (-1) ents.

(** The spans cover [lo, hi) without gaps. *)
Fixpoint tiles (lo hi : Z) (sp : list span) : Prop :=
  match sp with
  | [] => lo = hi
  | s :: sp => sn_lo s = lo /\ lo < sn_hi s /\ tiles (sn_hi s) hi sp
  end.

(** pcs strictly increasing from [lo]. *)
Fixpoint increasing (lo : Z) (ents : list PCEntry) : Prop :=
  match ents with
  | [] => True
  | e :: ents => lo <= pc_PC e /\ increasing (pc_PC e + 1) ents
  end.

(** Entries of a verified table of a function of [size] bytes: increasing pcs
    inside the function, on instruction boundaries. *)
Definition entries_ok (minLC size : Z) (ents : list PCEntry) : Prop :=
  increasing 0 ents /\
  Forall (fun e => pc_PC e < size /\ (minLC | pc_PC e) /\ is_s64 (pc_Value e)) ents.

(** ** zig-zag *)

Lemma zigzag_range x : is_s64 x -> is_u64 (zigzag x).
Proof. intros H. unfold zigzag. destruct (x <? 0); apply u64_range. Qed.

Lemma unzigzag_zigzag x : is_s64 x -> unzigzag (zigzag x) = x.
Proof.
  intros H. unfold zigzag, unzigzag. rewrite Z.shiftl_mul_pow2 by lia.
  rewrite Z.shiftr_div_pow2 by lia. rewrite !(Z.land_ones _ 1) by lia.
  change (2 ^ 1) with 2. destruct (Z.ltb_spec x 0).
  - assert (u64 (x * 2) = x * 2 + 2 ^ 64) as ->.
    { unfold u64, wrap. symmetry. apply (Z.mod_unique_pos _ _ (-1)); zarith. }
    assert (u64 (Z.lnot (x * 2 + 2 ^ 64)) = 1 + (- x - 1) * 2) as ->.
    { unfold Z.lnot, u64, wrap. symmetry. apply (Z.mod_unique_pos _ _ (-1)); zarith. }
    rewrite Z.div_add, Z.mod_add by lia. change (1 / 2) with 0. change (- (1 mod 2)) with (-1).
    rewrite Z.lxor_m1_r. unfold Z.lnot. lia.
  - rewrite u64_small by zarith. rewrite Z.div_mul, Z.mod_mul by lia. apply Z.lxor_0_r.
Qed.

Lemma zigzag_zero x : is_s64 x -> zigzag x = 0 -> x = 0.
Proof. intros H E. rewrite <-(unzigzag_zigzag x H), E. done. Qed.

(** ** Segments *)

Definition adjacent {A} (P : A -> A -> Prop) (l : list A) : Prop :=
  forall i x y, l !! i = Some x -> l !! S i = Some y -> P x y.

Lemma adjacent_cons {A} (P : A -> A -> Prop) x y l :
  adjacent P (x :: y :: l) <-> P x y /\ adjacent P (y :: l).
Proof.
  split.
  - intros H. split; [by apply (H 0%nat) | intros i a b Ha Hb; by apply (H (S i))].
  - intros [Hxy H] [|i] a b Ha Hb; simpl in *; [congruence | by apply (H i)].
Qed.

Lemma adjacent_snoc {A} (P : A -> A -> Prop) l x y :
  adjacent P (l ++ [x]) -> P x y -> adjacent P ((l ++ [x]) ++ [y]).
Proof.
  induction l as [|a [|b l] IH]; intros H Hxy.
  - apply adjacent_cons. split; [done|]. intros i u v Hu Hv. destruct i; done.
  - simpl in *. apply adjacent_cons in H as [H1 H2]. apply adjacent_cons. auto.
  - simpl in *. apply adjacent_cons in H as [H1 H2]. apply adjacent_cons. auto.
Qed.

Definition seg_lt (s s' : seg) : Prop := sg_start s < sg_start s' /\ sg_val s <> sg_val s'.

Definition seg_ok (minLC size : Z) (s : seg) : Prop :=
  0 <= sg_start s < size /\ (minLC | sg_start s) /\ is_s64 (sg_val s).

(** The value a list of segments gives to [pc], [v] before the first. *)
Definition seg_value (v : Z) (segs : list seg) (pc : Z) : Z :=
  foldl (fun v s => if sg_start s <=? pc then sg_val s else v) v segs.

Lemma seg_value_snoc v l s pc :
  seg_value v (l ++ [s]) pc = if sg_start s <=? pc then sg_val s else seg_value v l pc.
Proof. unfold seg_value. by rewrite foldl_app. Qed.

Lemma value_at_snoc l e pc :
  value_at (l ++ [e]) pc = if pc_PC e <=? pc then pc_Value e else value_at l pc.
Proof. unfold value_at. by rewrite foldl_app. Qed.

Lemma increasing_weaken lo lo' es : lo <= lo' -> increasing lo' es -> increasing lo es.
Proof. destruct es; simpl; [done|]. intros ? [? ?]. split; [lia | done]. Qed.

(** The loop invariant of the first loop: the segments describe the entries seen
    so far, and the next entry lies after the last segment (or there is only the
    initial one). *)
Record segs_inv (minLC size lo : Z) (seen : list PCEntry) (init : list seg) (last : seg) : Prop := {
  si_adj : adjacent seg_lt (init ++ [last]);
  si_ok : Forall (seg_ok minLC size) (init ++ [last]);
  si_head : sg_start (default last (head init)) = 0;
  si_lo : sg_start last < lo \/ (init = [] /\ sg_start last <= lo);
  si_val : forall pc, 0 <= pc -> seg_value (-1) (init ++ [last]) pc = value_at seen pc }.

Lemma seg_step_inv minLC size lo seen init last e :
  size < 2 ^ 63 -> segs_inv minLC size lo seen init last ->
  lo <= pc_PC e -> pc_PC e < size -> (minLC | pc_PC e) -> is_s64 (pc_Value e) ->
  let '(init', last') := seg_step size (init, last) e in
  segs_inv minLC size (pc_PC e + 1) (seen ++ [e]) init' last'.
Proof.
  intros Hsz [Ha Ho Hh Hl Hv] Hlo Hhi Hdiv Hval.
  assert (Hlast : seg_ok minLC size last) by (apply Forall_app in Ho as [_ Ho]; by inversion Ho).
  destruct Hlast as ([Hs0 _] & Hsd & _). unfold seg_step.
  assert (0 <= pc_PC e) by lia.
  rewrite s64_small by zarith. rewrite (proj2 (Z.ltb_ge _ 0)), (proj2 (Z.leb_gt size _)) by lia. simpl.
  destruct (Z.eqb_spec (pc_PC e) (sg_start last)) as [Heq|Hne].
  - destruct Hl as [Hl|[-> Hl]]; [lia|]. split; simpl in *; [by intros [] | | done | right; split; [done|lia] |].
    + apply Forall_singleton. split_and!; simpl; try done; lia.
    + intros pc Hpc. rewrite value_at_snoc, <-Hv, <-Heq by done. simpl. rewrite Heq.
      by destruct (sg_start last <=? pc).
  - assert (sg_start last < pc_PC e) by lia.
    destruct (Z.eqb_spec (pc_Value e) (sg_val last)) as [Hveq|Hvne].
    + split; try done; [left; lia|]. intros pc Hpc. rewrite value_at_snoc, <-Hv by done.
      rewrite seg_value_snoc. destruct (Z.leb_spec (pc_PC e) pc); [|done].
      by rewrite (proj2 (Z.leb_le _ _)) by lia.
    + split; simpl.
      * apply adjacent_snoc; [done|]. split; simpl; [lia|congruence].
      * apply Forall_app. split; [done|]. apply Forall_singleton. split_and!; simpl; try done; lia.
      * destruct init; done.
      * left. lia.
      * intros pc Hpc. rewrite seg_value_snoc, value_at_snoc, Hv by done. done.
Qed.

Lemma seg_fold_inv minLC size ents : size < 2 ^ 63 -> forall lo seen init last,
  segs_inv minLC size lo seen init last -> increasing lo ents ->
  Forall (fun e => pc_PC e < size /\ (minLC | pc_PC e) /\ is_s64 (pc_Value e)) ents ->
  let '(init', last') := foldl (seg_step size) (init, last) ents in
  exists lo', segs_inv minLC size lo' (seen ++ ents) init' last'.
Proof.
  intros Hsz. induction ents as [|e ents IH]; intros lo seen init last Hinv Hinc Hok; cbn [foldl].
  { rewrite app_nil_r. eauto. }
  destruct Hinc as [Hlo Hinc]. inversion Hok as [|?? (H1 & H2 & H3) Hok']; subst.
  pose proof (seg_step_inv _ _ _ _ _ _ e Hsz Hinv Hlo H1 H2 H3) as Hstep.
  destruct (seg_step size (init, last) e) as [init' last'].
  specialize (IH _ _ _ _ Hstep Hinc Hok'). by rewrite <-app_assoc in IH.
Qed.

(** ** Decoding the segments *)

Fixpoint seg_spans (size : Z) (segs : list seg) : list span :=
  match segs with
  | [] => []
  | s :: rest =>
      mkSpan (sg_start s) (match rest with s' :: _ => sg_start s' | [] => size end) (sg_val s)
      :: seg_spans size rest
  end.

Lemma uvarint_drop v rest :
  drop (Z.to_nat (zlen (uvarint_bytes v))) (uvarint_bytes v ++ rest) = rest.
Proof. apply drop_zlen_app. Qed.

Lemma emit_segs_app minLC size segs : forall prev dst,
  emit_segs minLC size prev dst segs = dst ++ emit_segs minLC size prev [] segs.
Proof.
  induction segs as [|s segs IH]; intros prev dst; cbn [emit_segs]; [by rewrite app_nil_r|].
  case_bool; [apply IH|]. rewrite IH, (IH _ (append_uvarint (append_varint [] _) _)).
  unfold append_varint, append_uvarint. by rewrite <-!app_assoc.
Qed.

Definition seg_end (size : Z) (rest : list seg) : Z :=
  match rest with s' :: _ => sg_start s' | [] => size end.

Lemma emit_segs_cons minLC size prev s rest :
  sg_start s < seg_end size rest ->
  emit_segs minLC size prev [] (s :: rest) =
  uvarint_bytes (zigzag (s64 (sg_val s - prev))) ++
  uvarint_bytes (u64 (Z.quot (seg_end size rest - sg_start s) minLC)) ++
  emit_segs minLC size (sg_val s) [] rest.
Proof.
  intros H. cbn [emit_segs]. fold (seg_end size rest). rewrite (proj2 (Z.leb_gt _ _)) by done.
  rewrite emit_segs_app. unfold append_varint, append_uvarint. by rewrite <-app_assoc.
Qed.

Section Decode.
Variables (minLC size : Z).
Hypothesis HminLC : 0 < minLC.
Hypothesis Hsize : 0 < size < 2 ^ 63.
Hypothesis Hdivs : (minLC | size).

(** One segment of the table: a value delta and a pc delta. *)
Lemma spans_go_seg fuel s end_ prev first rest :
  seg_ok minLC size s -> is_s64 prev -> sg_start s < end_ <= size -> (minLC | end_) ->
  first = true \/ sg_val s <> prev ->
  spans_go (S fuel) minLC
    (uvarint_bytes (zigzag (s64 (sg_val s - prev))) ++
     uvarint_bytes (u64 (Z.quot (end_ - sg_start s) minLC)) ++ rest) first prev (sg_start s)
  = sp ← spans_go fuel minLC rest false (sg_val s) end_; Some (mkSpan (sg_start s) end_ (sg_val s) :: sp).
Proof using HminLC Hsize.
  intros (Hst & [k Hk] & Hv) Hp Hend [k' Hk'] Hfirst.
  assert (is_s64 (s64 (sg_val s - prev))) as Hd by apply s64_range.
  assert (Z.quot (end_ - sg_start s) minLC = k' - k) as Hq.
  { replace (end_ - sg_start s) with ((k' - k) * minLC) by lia. apply Z.quot_mul. lia. }
  assert (0 < k' - k /\ k' - k <= end_ - sg_start s) as Hkk by nia.
  rewrite Hq, (u64_small (k' - k)) by zarith. set (uv := zigzag _). cbn [spans_go].
  destruct (uvarint_bytes uv ++ uvarint_bytes (k' - k) ++ rest) as [|b0 bs] eqn:Eb.
  { pose proof (uvarint_bytes_pos uv). by destruct (uvarint_bytes uv). }
  rewrite <-Eb. rewrite uvarint_app by by apply zigzag_range.
  rewrite (proj2 (Z.leb_gt _ 0)) by apply uvarint_bytes_pos. rewrite uvarint_drop.
  assert ((uv =? 0) && negb first = false) as ->.
  { destruct Hfirst as [->|Hne]; [apply andb_false_r|]. rewrite (proj2 (Z.eqb_neq uv 0)); [done|].
    intros E. apply zigzag_zero in E; [|done]. by apply Hne, s64_sub_zero. }
  rewrite uvarint_app by (clear -Hkk Hend Hsize Hst; zarith).
  rewrite (proj2 (Z.leb_gt _ 0)) by apply uvarint_bytes_pos. rewrite uvarint_drop.
  assert (s64 (prev + unzigzag uv) = sg_val s) as ->.
  { unfold uv. rewrite unzigzag_zigzag by done. by apply s64_add_sub. }
  assert (u64 (sg_start s + u64 ((k' - k) * minLC)) = end_) as ->; [|done].
  rewrite (u64_small ((k' - k) * minLC)) by (clear -Hk Hk' Hend Hst Hsize; unfold is_u64; nia).
  rewrite u64_small by (clear -Hk Hk' Hend Hst Hsize; unfold is_u64; nia). lia.
Qed.

Lemma spans_go_emit segs : forall fuel s prev first,
  Forall (seg_ok minLC size) (s :: segs) -> adjacent seg_lt (s :: segs) -> is_s64 prev ->
  first = true \/ sg_val s <> prev ->
  (length (emit_segs minLC size prev [] (s :: segs)) < fuel)%nat ->
  spans_go fuel minLC (emit_segs minLC size prev [] (s :: segs) ++ [0]) first prev (sg_start s)
  = Some (seg_spans size (s :: segs)).
Proof using HminLC Hsize Hdivs.
  induction segs as [|s' segs IH]; intros fuel s prev first Hok Hadj Hp Hf Hfuel;
    (destruct fuel as [|fuel]; [lia|]); inversion Hok as [|?? Hs Hok']; subst;
    pose proof Hs as ([Hs0 Hs1] & Hsd & Hsv).
  - rewrite emit_segs_cons, <-!app_assoc in * by (cbn [seg_end]; lia). cbn [seg_end] in *.
    rewrite spans_go_seg by (done || lia). destruct fuel as [|fuel]; [|done].
    rewrite length_app in Hfuel. pose proof (uvarint_bytes_pos (zigzag (s64 (sg_val s - prev)))).
    unfold zlen in *. lia.
  - apply adjacent_cons in Hadj as [[Hlt Hne] Hadj].
    assert (seg_ok minLC size s') as ([Hs0' Hs1'] & Hsd' & Hsv') by (by inversion Hok').
    rewrite emit_segs_cons, <-!app_assoc in * by (cbn [seg_end]; lia). cbn [seg_end] in *.
    rewrite spans_go_seg by (done || lia). rewrite IH; try done; [by right; congruence|].
    rewrite !length_app in *. pose proof (uvarint_bytes_pos (zigzag (s64 (sg_val s - prev)))).
    unfold zlen in *. lia.
Qed.
End Decode.

(** ** The spans of sorted segments *)

Lemma seg_spans_tiles size segs : forall s,
  adjacent seg_lt (s :: segs) -> Forall (fun s => sg_start s < size) (s :: segs) ->
  tiles (sg_start s) size (seg_spans size (s :: segs)).
Proof.
  induction segs as [|s' segs IH]; intros s Hadj Hlt; inversion Hlt; subst.
  - split_and!; simpl; [done | done | done].
  - apply adjacent_cons in Hadj as [[? ?] Hadj]. split_and!; [done | simpl; lia |]. by apply IH.
Qed.

Lemma seg_value_below v pc segs : forall s,
  adjacent seg_lt (s :: segs) -> pc < sg_start s -> seg_value v (s :: segs) pc = v.
Proof.
  induction segs as [|s' segs IH]; intros s Hadj Hpc; unfold seg_value; cbn [foldl];
    rewrite (proj2 (Z.leb_gt (sg_start s) pc)) by lia; [done|].
  apply adjacent_cons in Hadj as [[? ?] Hadj]. apply IH; [done|lia].
Qed.

Lemma seg_spans_value size segs : forall s v sp pc,
  adjacent seg_lt (s :: segs) -> Forall (fun s => sg_start s < size) (s :: segs) ->
  sp ∈ seg_spans size (s :: segs) -> sn_lo sp <= pc < sn_hi sp ->
  sg_start s <= pc /\ seg_value v (s :: segs) pc = sn_val sp.
Proof.
  induction segs as [|s' segs IH]; intros s v sp pc Hadj Hlt Hin Hpc; inversion Hlt; subst;
    apply elem_of_cons in Hin as [->|Hin]; simpl in Hpc.
  - unfold seg_value. simpl. rewrite (proj2 (Z.leb_le _ _)) by lia. split; [lia|done].
  - by apply not_elem_of_nil in Hin.
  - apply adjacent_cons in Hadj as [[? ?] Hadj]. split; [lia|].
    transitivity (seg_value (sg_val s) (s' :: segs) pc);
      [unfold seg_value; cbn [foldl]; by rewrite (proj2 (Z.leb_le (sg_start s) _)) by lia|].
    by rewrite seg_value_below by (done || lia).
  - apply adjacent_cons in Hadj as [[? ?] Hadj].
    destruct (IH s' (sg_val s) sp pc Hadj) as [? <-]; [done..|]. split; [lia|].
    unfold seg_value. cbn [foldl]. by rewrite (proj2 (Z.leb_le (sg_start s) _)) by lia.
Qed.

(** Decoding [pcbytes]. *)
Lemma pcbytes_spans minLC size ents :
  0 < minLC -> 0 < size < 2 ^ 63 -> (minLC | size) -> entries_ok minLC size ents ->
  exists sp, pc_spans minLC (pcbytes minLC size ents) = Some sp /\ tiles 0 size sp /\
    forall s pc, s ∈ sp -> sn_lo s <= pc < sn_hi s -> sn_val s = value_at ents pc.
Proof.
  intros Hm Hs Hd [Hinc Hok]. unfold pcbytes. rewrite (proj2 (Z.leb_gt _ _)) by lia.
  assert (segs_inv minLC size 0 [] [] (mkSeg (-1) 0)) as H0.
  { split; simpl; [by intros [] | | done | right; split; [done|lia] |].
    - apply Forall_singleton. split_and!; simpl; try done; try lia. by exists 0.
    - intros pc Hpc. by rewrite (proj2 (Z.leb_le 0 pc)) by lia. }
  pose proof (seg_fold_inv minLC size ents ltac:(lia) 0 [] [] _ H0 Hinc Hok) as H.
  destruct (foldl (seg_step size) ([], mkSeg (-1) 0) ents) as [init last].
  destruct H as [lo [Ha Hsegs Hh _ Hv]]. rewrite app_nil_l in Hv.
  destruct (init ++ [last]) as [|s segs] eqn:E; [by destruct init|].
  assert (sg_start s = 0) as Hs0 by (destruct init; simplify_eq/=; done).
  assert (Forall (fun s => sg_start s < size) (s :: segs)) as Hlt
    by (eapply Forall_impl; [exact Hsegs | intros x ([_ ?] & _); done]).
  exists (seg_spans size (s :: segs)). split_and!.
  - unfold pc_spans. pose proof (spans_go_emit minLC size Hm Hs Hd segs) as Hgo.
    rewrite <-(Hgo (length (emit_segs minLC size (-1) [] (s :: segs) ++ [0])) s (-1) true); try done.
    + by rewrite Hs0.
    + by left.
    + rewrite length_app. simpl length. lia.
  - rewrite <-Hs0. by apply seg_spans_tiles.
  - intros x pc Hin Hpc. destruct (seg_spans_value size segs s (-1) x pc) as [Hge <-]; [done..|].
    apply Hv. lia.
Qed.



(** On arm64 (quantum 4) the StackMapIndex entries start at [sp.PC-1], which is
    not a multiple of 4: the spans are rounded down and the table ends before the
    function does. *)
Lemma pcbytes_arm64_gap :
  pc_spans 4 (pcbytes 4 16 [mkPC 7 0; mkPC 11 1]) =
    Some [mkSpan 0 4 (-1); mkSpan 4 8 0; mkSpan 8 12 1].
Proof. vm_compute. reflexivity. Qed.

(** ** Stack map blobs *)

(** Bitmap [i] of a blob of bitmaps of [stride] bytes. *)
Definition bitmap_at (stride : nat) (b : list Z) (i : Z) : list Z :=
  take stride (drop (8 + Z.to_nat i * stride) b).

Lemma concat_chunk (n : nat) (l : list (list Z)) : Forall (fun m => length m = n) l ->
  forall i m rest, l !! i = Some m -> take n (drop (i * n) (concat l ++ rest)) = m.
Proof.
  induction 1 as [|x l Hx _ IH]; intros i m rest Hi; [done|]. cbn [concat]. rewrite <-app_assoc.
  destruct i as [|i]; simpl in Hi.
  - simplify_eq. cbn [Nat.mul]. by rewrite drop_0, take_app_length.
  - cbn [Nat.mul]. rewrite <-drop_drop, (drop_app_length' x) by done. by apply IH.
Qed.

Lemma blob_bitmap nbit maps n i m :
  Forall (fun m => length m = n) maps -> maps !! i = Some m ->
  bitmap_at n (blob nbit maps) (Z.of_nat i) = m.
Proof.
  intros Hn Hi. unfold bitmap_at, blob. rewrite Nat2Z.id, <-drop_drop, app_assoc.
  rewrite (drop_app_length' (le_bytes 4 _ ++ le_bytes 4 _))
    by (by rewrite length_app, !length_le_bytes).
  by apply concat_chunk.
Qed.

Record sm_inv (seen : list Safepoint) (s : smst) : Prop := {
  sv_seen : forall k i, sm_seen s !! k = Some i -> exists j, i = Z.of_nat j /\
    sm_as s !! j = Some k.1 /\ sm_ls s !! j = Some k.2;
  sv_pairs : forall j a l, sm_as s !! j = Some a -> sm_ls s !! j = Some l ->
    sm_seen s !! (a, l) = Some (Z.of_nat j);
  sv_len : length (sm_as s) = length (sm_ls s);
  sv_as : forall a, a ∈ sm_as s -> exists sp, sp ∈ seen /\ sp_Args sp = a;
  sv_ls : forall a, a ∈ sm_ls s -> exists sp, sp ∈ seen /\ sp_Locals sp = a;
  sv_idx : Forall2 (fun sp e => pc_PC e = u64 (sp_PC sp - 1) /\
    sm_seen s !! (sp_Args sp, sp_Locals sp) = Some (pc_Value e)) seen (sm_idx s) }.

Lemma stackmap_step_inv seen s sp : sm_inv seen s -> sm_inv (seen ++ [sp]) (stackmap_step s sp).
Proof.
  intros [H1 H2 H3 H4 H5 H6]. unfold stackmap_step.
  set (k := (sp_Args sp, sp_Locals sp)). destruct (sm_seen s !! k) as [i|] eqn:E.
  { split; simpl; try done.
    - intros a Ha. destruct (H4 a Ha) as (x & ? & ?). set_solver.
    - intros a Ha. destruct (H5 a Ha) as (x & ? & ?). set_solver.
    - apply Forall2_app; [done|]. apply Forall2_cons. done. }
  assert (forall k' i, sm_seen s !! k' = Some i -> k <> k') as Hne by congruence.
  split; simpl.
  - intros k' i Hk. destruct (decide (k = k')) as [<-|Hk'].
    + rewrite lookup_insert_eq in Hk. simplify_eq. exists (length (sm_as s)). split; [done|].
      rewrite (list_lookup_middle (sm_as s) []) by done. rewrite H3.
      by rewrite (list_lookup_middle (sm_ls s) []) by done.
    + rewrite lookup_insert_ne in Hk by done. destruct (H1 _ _ Hk) as (j & -> & Ha & Hl).
      exists j. by rewrite !lookup_app_l by (eapply lookup_lt_Some; done).
  - intros j a l Ha Hl. destruct (decide (j < length (sm_as s))%nat) as [Hj|Hj].
    + rewrite lookup_app_l in Ha, Hl by lia. pose proof (H2 _ _ _ Ha Hl) as Hs.
      rewrite lookup_insert_ne by by eapply Hne. done.
    + assert (j = length (sm_as s)) as ->.
      { apply lookup_lt_Some in Ha. rewrite length_app in Ha. simpl in Ha. lia. }
      rewrite list_lookup_middle in Ha by done. rewrite H3, list_lookup_middle in Hl by done.
      simplify_eq. unfold k. by rewrite lookup_insert_eq.
  - rewrite !length_app. simpl. lia.
  - intros a [Ha|Ha]%elem_of_app; [destruct (H4 a Ha) as (x & ? & ?)|]; set_solver.
  - intros a [Ha|Ha]%elem_of_app; [destruct (H5 a Ha) as (x & ? & ?)|]; set_solver.
  - apply Forall2_app.
    + eapply Forall2_impl; [exact H6|]. intros x e [Hx He]. split; [done|].
      rewrite lookup_insert_ne by by eapply Hne. done.
    + apply Forall2_cons. split; [|done]. split; [done|]. simpl. by rewrite lookup_insert_eq.
Qed.

Lemma stackmap_fold_inv sps : forall seen s,
  sm_inv seen s -> sm_inv (seen ++ sps) (foldl stackmap_step s sps).
Proof.
  induction sps as [|sp sps IH]; intros seen s H; [by rewrite app_nil_r|].
  cbn [foldl]. change (sp :: sps) with ([sp] ++ sps). rewrite app_assoc.
  by apply IH, stackmap_step_inv.
Qed.

(** C34. Stack maps are found again: for every safepoint [j] of a GC map whose
    bitmaps have the declared sizes, entry [j] of the StackMapIndex table starts
    one byte before its return address and holds an index [i] at which the args
    blob and the locals blob hold exactly that safepoint's bitmaps; no two indices
    stand for the same pair of bitmaps. *)
Theorem stackmaps_lookup g na nl j sp :
  Forall (fun sp => length (sp_Args sp) = na /\ length (sp_Locals sp) = nl) (gc_Safepoints g) ->
  gc_Safepoints g !! j = Some sp -> 1 <= sp_PC sp < 2 ^ 64 ->
  let '(args, locals, idx) := stackmaps g in
  exists i, idx !! j = Some (mkPC (sp_PC sp - 1) i) /\
    bitmap_at na args i = sp_Args sp /\ bitmap_at nl locals i = sp_Locals sp /\
    forall j' sp' e', gc_Safepoints g !! j' = Some sp' -> idx !! j' = Some e' ->
      (pc_Value e' = i <-> (sp_Args sp', sp_Locals sp') = (sp_Args sp, sp_Locals sp)).
Proof.
  intros Hsz Hj Hpc. unfold stackmaps.
  assert (sm_inv [] (mkSmst ∅ [] [] [])) as H0.
  { split; simpl; try done; try set_solver; constructor. }
  pose proof (stackmap_fold_inv (gc_Safepoints g) [] _ H0) as [H1 H2 H3 H4 H5 H6].
  rewrite app_nil_l in *. set (s := foldl _ _ _) in *. rewrite Forall_forall in Hsz.
  destruct (Forall2_lookup_l _ _ _ _ _ H6 Hj) as ([pc i] & He & Hpc' & Hk). simpl in Hpc', Hk.
  destruct (H1 _ _ Hk) as (n & -> & Ha & Hl). simpl in Ha, Hl.
  exists (Z.of_nat n). split_and!.
  - rewrite He, Hpc', u64_small by zarith. done.
  - apply blob_bitmap; [|done]. apply Forall_forall. intros a (x & Hx & <-)%H4. by apply Hsz.
  - apply blob_bitmap; [|done]. apply Forall_forall. intros a (x & Hx & <-)%H5. by apply Hsz.
  - intros j' sp' e' Hj' He'. destruct (Forall2_lookup_lr _ _ _ _ _ _ H6 Hj' He') as [_ Hk'].
    split; [|intros E; rewrite E in Hk'; congruence]. intros E. rewrite E in Hk'.
    destruct (H1 _ _ Hk') as (n' & En & Ha' & Hl'). apply Nat2Z.inj in En as <-. simpl in *. congruence.
Qed.

Lemma stackmaps_lookup_witness :
  let g := mkGC 3 9 [mkSP 12 [5] [1; 1] []; mkSP 20 [5] [0; 1] []; mkSP 31 [5] [1; 1] []] in
  exists i, (stackmaps g).2 !! 2%nat = Some (mkPC 30 i) /\
    bitmap_at 1 (stackmaps g).1.1 i = [5] /\ bitmap_at 2 (stackmaps g).1.2 i = [1; 1].
Proof.
  intros g. pose proof (stackmaps_lookup g 1 2 2 (mkSP 31 [5] [1; 1] [])) as H.
  destruct H as (i & H1 & H2 & H3 & _).
  - apply Forall_forall. intros e He. repeat (apply elem_of_cons in He as [->|He]; [done|]).
    by apply not_elem_of_nil in He.
  - reflexivity.
  - simpl. lia.
  - exists i. split_and!; [exact H1 | exact H2 | exact H3].
Defined.

(** ** Tables of verified files *)

Lemma order_increasing es : forall lo,
  (forall e, es !! 0%nat = Some e -> lo <= pc_PC e) ->
  (forall j e e', es !! j = Some e -> es !! S j = Some e' -> pc_PC e < pc_PC e') -> increasing lo es.
Proof.
  induction es as [|e es IH]; intros lo Hlo Ho; [done|]. split; [by apply Hlo|].
  apply IH; [|intros j x y Hx Hy; by apply (Ho (S j))].
  intros e' He'. specialize (Ho 0%nat e e' eq_refl He'). lia.
Qed.

(** From the verifier to the runtime's tables: in a valid file, every pc-value
    table of a function with code encodes to bytes that decode, over the whole
    function, to the table's own step function (byte-granular pcs, amd64). *)
Theorem verified_table_decodes f fn t :
  valid f -> fn ∈ f_Funcs f -> t ∈ slice (fn_PCValue fn) -> Forall entry_ok (pct_Entries t) ->
  0 < fn_TextSize fn < 2 ^ 63 ->
  exists sp, pc_spans 1 (pcbytes 1 (fn_TextSize fn) (pct_Entries t)) = Some sp /\
    tiles 0 (fn_TextSize fn) sp /\
    forall s pc, s ∈ sp -> sn_lo s <= pc < sn_hi s -> sn_val s = value_at (pct_Entries t) pc.
Proof.
  intros Hv Hfn Ht Hok Hsz. destruct Hv as [_ _ Hfuncs _ _ _ _]. rewrite Forall_forall in Hfuncs.
  destruct (vf_tables _ _ (Hfuncs fn Hfn) t Ht) as [_ _ _ Hs Ho Hr].
  apply pcbytes_spans; [lia | done | apply Z.divide_1_l |]. rewrite Forall_forall in Hok. split.
  - apply order_increasing; [|done]. intros e He. rewrite (Hs e He). lia.
  - apply Forall_forall. intros e He. split_and!; [apply Hr; [done|lia] | apply Z.divide_1_l | by apply Hok].
Qed.

Lemma verified_table_decodes_witness :
  exists sp, pc_spans 1 (pcbytes 1 32 [mkPC 0 0; mkPC 4 16]) = Some sp /\ tiles 0 32 sp.
Proof.
  destruct (verified_table_decodes (ok_file 8) ok_func (mkPCT PCSPDelta [mkPC 0 0; mkPC 4 16]))
    as (sp & H1 & H2 & _).
  - exact ok_file_valid.
  - apply list_elem_of_here.
  - apply list_elem_of_here.
  - apply Forall_forall. intros e He. repeat (apply elem_of_cons in He as [->|He]);
      [..|by apply not_elem_of_nil in He]; split; vm_compute; split; congruence.
  - split; reflexivity.
  - exists sp. split; [exact H1 | exact H2].
Defined.
