(* ===== verification/World.v ===== *)
(** * Files, processes and paths

    The part of Go's os, os/exec and path/filepath that the build commands use.  A
    computation [io] reads and changes the file system and may fail; what it had done to
    the files when it fails stays done.  The processes it starts are recorded in order.
    A program that is not part of this repository (clang, opt, go, ...) is a function of
    its command line and of the files: the field [h_exec] of the host. *)

From Stdlib Require Import ZArith Lia Ascii.
From stdpp Require Import base list strings gmap.
From S2P Require Import Prelude Text.

(** ** The state *)

Abbreviation fs := (gmap string (list Z)).

(** A process: its directory (empty: the current one), the program, its arguments and its
    environment. *)
Record call := mkCallIn { cl_dir : string; cl_bin : string; cl_args : list string; cl_env : list string }.
Abbreviation mkCall := (mkCallIn "").

Record world := mkWorld { wo_fs : fs; wo_calls : list call }.

(** What the host answers: the result of a process (its output, or an error) and the
    files after it; whether a path can be written, is there, is an executable, is a
    directory; symbolic links resolved; the environment; the message for a file that
    cannot be read or written; whether a directory can be made; a new temporary
    directory for a pattern; the user's cache directory; the process id. *)
Record host := mkHost {
  h_exec : call -> fs -> res string string * fs;
  h_writable : string -> bool;
  h_exists : string -> bool;
  h_isExec : string -> bool;
  h_isDir : string -> bool;
  h_realpath : string -> option string;
  h_environ : list string;
  h_noent : string -> string;
  h_mkdir : string -> bool;
  h_tmp : string -> res string string;
  h_cacheDir : option string;
  h_pid : Z }.

Definition io (A : Type) : Type := world -> res string A * world.

#[export] Instance io_ret : MRet io := fun A x w => (Ok x, w).
#[export] Instance io_bind : MBind io := fun A B k m w =>
  match m w with (Ok x, w') => k x w' | (Fail e, w') => (Fail e, w') end.

Definition fail {A} (e : string) : io A := fun w => (Fail e, w).
Definition lift {A} (r : res string A) : io A := fun w => (r, w).
Definition get_fs : io fs := fun w => (Ok (wo_fs w), w).

(** [if err := m; err != nil { return g(err) }] *)
Definition wrap_err {A} (g : string -> string) (m : io A) : io A := fun w =>
  match m w with (Ok x, w') => (Ok x, w') | (Fail e, w') => (Fail (g e), w') end.

(** [p] is [d] or below it. *)
Definition under (d p : string) : bool := String.eqb d p || String.prefix (d +:+ "/") p.

Definition RemoveAll (d : string) : io () := fun w =>
  (Ok (), mkWorld (filter (fun '(p, _) => under d p = false) (wo_fs w)) (wo_calls w)).

(** [defer os.RemoveAll(d)]: runs however [m] ends. *)
Definition cleanup {A} (d : string) (m : io A) : io A := fun w => let '(r, w) := m w in (r, snd (RemoveAll d w)).

(** [m == nil] for an operation whose error is dropped. *)
Definition succeeds {A} (m : io A) : io bool := fun w => match m w with (Ok _, w) => (Ok true, w) | (Fail _, w) => (Ok false, w) end.

Section Host.
Variable h : host.

Definition ReadFile (p : string) : io (list Z) := fun w =>
  match wo_fs w !! p with Some b => (Ok b, w) | None => (Fail (h_noent h p), w) end.

Definition WriteFile (p : string) (b : list Z) : io () := fun w =>
  if h_writable h p then (Ok (), mkWorld (<[p := b]> (wo_fs w)) (wo_calls w)) else (Fail (h_noent h p), w).

(** Runs a process and gives its output. *)
Definition run_call (c : call) : io string := fun w =>
  let '(r, f) := h_exec h c (wo_fs w) in (r, mkWorld f (wo_calls w ++ [c])).

Definition Rename (src dst : string) : io () := fun w =>
  match wo_fs w !! src with
  | Some b => if h_writable h dst then (Ok (), mkWorld (<[dst := b]> (delete src (wo_fs w))) (wo_calls w)) else (Fail (h_noent h dst), w)
  | None => (Fail (h_noent h src), w)
  end.

Definition copyFile (src dst : string) : io () := b ← ReadFile src; WriteFile dst b.
End Host.

(** ** Reasoning about a run

    [runs m P Q]: from a world in [P], a run of [m] ends in [Q] of its result and the
    world it leaves. *)
Definition runs {A} (m : io A) (P : world -> Prop) (Q : res string A -> world -> Prop) : Prop :=
  forall w, P w -> Q (fst (m w)) (snd (m w)).

Lemma runs_ret {A} (x : A) (Q : res string A -> world -> Prop) : runs (mret x) (Q (Ok x)) Q.
Proof. by intros w Hw. Qed.

Lemma runs_fail {A} e (Q : res string A -> world -> Prop) : runs (fail e) (Q (Fail e)) Q.
Proof. by intros w Hw. Qed.

Lemma runs_bind {A B} (m : io A) (k : A -> io B) P R Q : runs m P R -> (forall e w, R (Fail e) w -> Q (Fail e) w) ->
  (forall x, runs (k x) (R (Ok x)) Q) -> runs (m ≫= k) P Q.
Proof.
  intros Hm Hf Hk w Hw. specialize (Hm w Hw). unfold mbind, io_bind. destruct (m w) as [[x|e] w']; cbn in *; [by apply Hk | by apply Hf].
Qed.

Lemma runs_weaken {A} (m : io A) P P' Q Q' : runs m P' Q' -> (forall w, P w -> P' w) -> (forall r w, Q' r w -> Q r w) -> runs m P Q.
Proof. intros H HP HQ w Hw. apply HQ, H, HP, Hw. Qed.

Lemma runs_wrap {A} g (m : io A) P Q : runs m P (fun r w => match r with Ok x => Q (Ok x) w | Fail e => Q (Fail (g e)) w end) -> runs (wrap_err g m) P Q.
Proof. intros H w Hw. specialize (H w Hw). unfold wrap_err. by destruct (m w) as [[x|e] w']. Qed.

(** Taking a successful run apart. *)
Lemma io_bind_ok {A B} (m : io A) (k : A -> io B) w y w2 : (m ≫= k) w = (Ok y, w2) ->
  exists x w1, m w = (Ok x, w1) /\ k x w1 = (Ok y, w2).
Proof. unfold mbind, io_bind. destruct (m w) as [[x|e] w1]; [|done]. by exists x, w1. Qed.

Lemma io_bind_case {A B} (m : io A) (k : A -> io B) w r w2 : (m ≫= k) w = (r, w2) ->
  (exists e, m w = (Fail e, w2) /\ r = Fail e) \/ exists x w1, m w = (Ok x, w1) /\ k x w1 = (r, w2).
Proof. unfold mbind, io_bind. destruct (m w) as [[x|e] w1]; [intros E; right; by exists x, w1 | intros [= <- <-]; left; by exists e]. Qed.

Lemma lift_ok {A} (r : res string A) w x w1 : lift r w = (Ok x, w1) -> r = Ok x /\ w1 = w.
Proof. by intros [= -> ->]. Qed.

Lemma wrap_ok {A} g (m : io A) w x w1 : wrap_err g m w = (Ok x, w1) -> m w = (Ok x, w1).
Proof. unfold wrap_err. by destruct (m w) as [[?|?] ?]. Qed.

Lemma write_ok h p b w w1 : WriteFile h p b w = (Ok (), w1) -> w1 = mkWorld (<[p := b]> (wo_fs w)) (wo_calls w).
Proof. unfold WriteFile. destruct (h_writable h p); [|done]. by intros [= <-]. Qed.

Lemma read_ok h p w b w1 : ReadFile h p w = (Ok b, w1) -> wo_fs w !! p = Some b /\ w1 = w.
Proof. unfold ReadFile. destruct (wo_fs w !! p); [|done]. by intros [= -> ->]. Qed.

(** A property of the world that holds before holds after, however the run ends. *)
Definition keeps {A} (P : world -> Prop) (m : io A) : Prop := runs m P (fun _ w => P w).

Lemma keeps_ret {A} P (x : A) : keeps P (mret x : io A).
Proof. by intros w Hw. Qed.

Lemma keeps_fail {A} P e : keeps P (@fail A e).
Proof. by intros w Hw. Qed.

Lemma keeps_lift {A} P (r : res string A) : keeps P (lift r).
Proof. by intros w Hw. Qed.

Lemma keeps_bind {A B} P (m : io A) (k : A -> io B) : keeps P m -> (forall x, keeps P (k x)) -> keeps P (m ≫= k).
Proof. intros Hm Hk. eapply runs_bind; [exact Hm | done | exact Hk]. Qed.

Lemma keeps_wrap {A} P g (m : io A) : keeps P m -> keeps P (wrap_err g m).
Proof. intros H. apply runs_wrap. eapply runs_weaken; [exact H | done |]. by intros [x|e] w. Qed.

Lemma keeps_get_fs P : keeps P get_fs.
Proof. by intros w Hw. Qed.

Lemma keeps_read h P p : keeps P (ReadFile h p).
Proof. intros w Hw. unfold ReadFile. by destruct (wo_fs w !! p). Qed.

Lemma keeps_if {A} P (b : bool) (m n : io A) : keeps P m -> keeps P n -> keeps P (if b then m else n).
Proof. by destruct b. Qed.

Lemma keeps_succeeds {A} P (m : io A) : keeps P m -> keeps P (succeeds m).
Proof. intros H w Hw. specialize (H w Hw). unfold succeeds. by destruct (m w) as [[?|?] ?]. Qed.

(** The contents of one path. *)
Definition file_is (p : string) (v : option (list Z)) (w : world) : Prop := wo_fs w !! p = v.

Lemma keeps_write h p q b v : p <> q -> keeps (file_is p v) (WriteFile h q b).
Proof. intros Hne w Hw. unfold WriteFile, file_is. destruct (h_writable h q); [|done]. cbn. by rewrite lookup_insert_ne. Qed.

Lemma keeps_rename h p q q' v : p <> q -> p <> q' -> keeps (file_is p v) (Rename h q q').
Proof.
  intros H1 H2 w Hw. unfold Rename, file_is. destruct (wo_fs w !! q); [|done]. destruct (h_writable h q'); [|done]. cbn.
  by rewrite lookup_insert_ne, lookup_delete_ne.
Qed.

Lemma keeps_cleanup {A} d p v (m : io A) : under d p = false -> keeps (file_is p v) m -> keeps (file_is p v) (cleanup d m).
Proof.
  intros Hd H w Hw. specialize (H w Hw). unfold cleanup, file_is. destruct (m w) as [r w1]. cbn. unfold file_is in H. cbn in H. rewrite <-H.
  apply option_eq. intros b. rewrite map_lookup_filter_Some. naive_solver.
Qed.

(** A process that leaves the path alone. *)
Lemma keeps_call h p v c : (forall f, snd (h_exec h c f) !! p = f !! p) -> keeps (file_is p v) (run_call h c).
Proof. intros H w Hw. unfold run_call, file_is. specialize (H (wo_fs w)). destruct (h_exec h c (wo_fs w)) as [r f]. cbn in *. by rewrite H. Qed.

Create HintDb io.
#[export] Hint Resolve keeps_ret keeps_fail keeps_lift keeps_wrap keeps_get_fs keeps_read
  keeps_bind keeps_if keeps_succeeds keeps_write keeps_rename keeps_cleanup keeps_call : io.

(** ** Paths (path/filepath on Unix) *)

(** [strings.Split(s, "/")] *)
Definition split_slash (s : string) : list string := split_on "/" s.

(** One element of a path; [acc] are the elements kept, the last one first. *)
Definition clean_step (rooted : bool) (acc : list string) (e : string) : list string :=
  if String.eqb e "" || String.eqb e "." then acc
  else if String.eqb e ".." then
    match acc with
    | [] => if rooted then [] else [".."]
    | x :: acc' => if String.eqb x ".." then ".." :: acc else acc'
    end
  else e :: acc.

Definition rooted (p : string) : bool := String.prefix "/" p.

Definition Clean (p : string) : string :=
  let l := reverse (foldl (clean_step (rooted p)) [] (split_slash p)) in
  if rooted p then "/" +:+ join "/" l else match l with [] => "." | _ => join "/" l end.

Definition nonempty (s : string) : bool := negb (String.eqb s "").

(** [filepath.Join] *)
Definition path_join (l : list string) : string :=
  match filter (fun s => nonempty s = true) l with [] => "" | l => Clean (join "/" l) end.

(** The elements after trailing slashes are removed. *)
Fixpoint drop_empty (l : list string) : list string :=
  match l with x :: l' => if String.eqb x "" then drop_empty l' else l | [] => [] end.

Definition Base (p : string) : string :=
  if String.eqb p "" then "."
  else match drop_empty (reverse (split_slash p)) with x :: _ => x | [] => "/" end.

(** [Clean] of the part up to the last slash. *)
Definition Dir (p : string) : string :=
  match reverse (split_slash p) with
  | _ :: (_ :: _) as dirs => Clean (join "/" (reverse dirs) +:+ "/")
  | _ => "."
  end.

Example demo_paths : (path_join ["/tmp/x"; "a.ll"], Base "/a/b/foo.goobj", Dir "/a/b/foo", Dir "/goc", Dir "foo", Clean "a//./b/../c/", Clean "/../x") =
  ("/tmp/x/a.ll", "foo.goobj", "/a/b", "/", ".", "a/c", "/x").
Proof. by vm_compute. Qed.

Lemma clean_pieces (P : string -> Prop) r l : P ".." -> Forall P l -> forall acc, Forall P acc -> Forall P (foldl (clean_step r) acc l).
Proof.
  intros Hp H. induction H as [|e l He _ IH]; intros acc Ha; [done|]. cbn [foldl]. apply IH. unfold clean_step.
  repeat case_match; auto; subst; repeat constructor; auto; by inversion Ha.
Qed.

(** The name of a file in a directory. *)
Definition plain_name (n : string) : bool := lacks "/" n && negb (String.eqb n "") && negb (String.eqb n ".") && negb (String.eqb n "..").

Lemma plain_name_true n : plain_name n = true -> lacks "/" n = true /\ n <> "" /\ n <> "." /\ n <> "..".
Proof. unfold plain_name. rewrite !andb_true_iff, !negb_true_iff, !String.eqb_neq. tauto. Qed.

(** The elements of a cleaned path. *)
Definition elements_of (d : string) : list string := reverse (foldl (clean_step (rooted d)) [] (split_slash d)).

Lemma elements_lack d : Forall (fun a => lacks "/" a = true) (elements_of d).
Proof. apply Forall_reverse, clean_pieces; [done | apply split_on_pieces | done]. Qed.

Lemma join_in d n : d <> "" -> plain_name n = true -> path_join [d; n] = (if rooted d then "/" else "") +:+ join "/" (elements_of d ++ [n]).
Proof.
  intros Hd (Hl & H1 & H2 & H3)%plain_name_true. unfold path_join.
  assert (filter (fun s => nonempty s = true) [d; n] = [d; n]) as ->.
  { unfold nonempty. cbn. by rewrite !(proj2 (String.eqb_neq _ _)) by done. }
  change (join "/" [d; n]) with (d +:+ String "/" n). unfold Clean, elements_of, split_slash. rewrite split_on_snoc, (split_on_lacks "/" n Hl), foldl_app.
  assert (rooted (d +:+ String "/" n) = rooted d) as ->.
  { destruct d as [|c d]; [done|]. change (String c d +:+ String "/" n) with (String c (d +:+ String "/" n)). unfold rooted. cbn [String.prefix].
    destruct (Ascii.ascii_dec "/" c); [by destruct d | done]. }
  set (acc := foldl (clean_step (rooted d)) [] (split_on "/" d)).
  assert (foldl (clean_step (rooted d)) acc [n] = n :: acc) as ->.
  { cbn [foldl]. unfold clean_step. by rewrite !(proj2 (String.eqb_neq n _)) by done. }
  rewrite reverse_cons. destruct (rooted d); [done|]. by destruct (reverse acc).
Qed.

Lemma Base_in d n : d <> "" -> plain_name n = true -> Base (path_join [d; n]) = n.
Proof.
  intros Hd Hn. rewrite join_in by done. apply plain_name_true in Hn as (Hl & H1 & H2 & H3).
  pose proof (elements_lack d) as Hel. set (e := elements_of d) in *.
  assert (split_on "/" (join "/" (e ++ [n])) = e ++ [n]) as Hs.
  { apply (split_on_join "/"); [by destruct e|]. apply Forall_app. split; [done | by repeat constructor]. }
  assert (exists e', split_on "/" ((if rooted d then "/" else "") +:+ join "/" (e ++ [n])) = e' ++ [n]) as [e' He].
  { destruct (rooted d); [exists ("" :: e) | by exists e]. change ("/" +:+ join "/" (e ++ [n])) with (String "/" (join "/" (e ++ [n]))). cbn [split_on]. by rewrite Hs. }
  unfold Base, split_slash. rewrite He, reverse_app. destruct (String.eqb_spec ((if rooted d then "/" else "") +:+ join "/" (e ++ [n])) "") as [E|_].
  - rewrite E in He. change ([""] = e' ++ [n]) in He. destruct e' as [|? [|]]; [|done..]. injection He as Hx. by destruct H1.
  - cbn [reverse rev_append app drop_empty]. by rewrite (proj2 (String.eqb_neq n "")).
Qed.

(** A file in a directory is the directory's path, a slash and the name. *)
Lemma join_clean d n : Clean d = d -> d <> "/" -> d <> "." -> plain_name n = true -> path_join [d; n] = d +:+ "/" +:+ n.
Proof.
  intros Hc H1 H2 Hn. assert (d <> "") as Hd by (intros ->; done). rewrite join_in by done. rewrite <-Hc at 3. unfold Clean. fold (elements_of d).
  assert (elements_of d <> []) as He.
  { intros E. unfold Clean in Hc. fold (elements_of d) in Hc. rewrite E in Hc. destruct (rooted d); [apply H1 | apply H2]; by symmetry. }
  assert (forall l, l <> [] -> join "/" (l ++ [n]) = join "/" l +:+ "/" +:+ n) as Hj.
  { induction l as [|x [|y l] IH]; [done | done |]. intros _. change (join "/" ((x :: y :: l) ++ [n])) with (x +:+ "/" +:+ join "/" ((y :: l) ++ [n])).
    rewrite IH by done. change (join "/" (x :: y :: l)) with (x +:+ "/" +:+ join "/" (y :: l)). by rewrite !string_app_assoc. }
  rewrite Hj by done. destruct (rooted d); [by rewrite string_app_assoc|]. by destruct (elements_of d).
Qed.

(** Paths that are not in the directory [d]. *)
Definition outside (d p : string) : Prop := under d p = false /\ forall name, plain_name name = true -> p <> path_join [d; name].

Lemma outside_clean d p : Clean d = d -> d <> "/" -> d <> "." -> under d p = false -> outside d p.
Proof.
  intros Hc H1 H2 Hu. split; [done|]. intros n Hn ->. rewrite join_clean in Hu by done. unfold under in Hu. apply orb_false_iff in Hu as [_ Hu].
  rewrite <-(string_app_assoc d "/" n) in Hu. by rewrite prefix_app in Hu.
Qed.

(** ** The processes of a run

    [calls_as m P]: a successful run of [m] starts processes [cs] with [P] of its result
    and [cs]. *)
Definition calls_as {A} (m : io A) (P : A -> list call -> Prop) : Prop :=
  forall w x w1, m w = (Ok x, w1) -> exists cs, wo_calls w1 = wo_calls w ++ cs /\ P x cs.

Definition quiet {A} (m : io A) : Prop := forall w, wo_calls (snd (m w)) = wo_calls w.

Lemma calls_quiet {A} (m : io A) : quiet m -> calls_as m (fun _ cs => cs = []).
Proof. intros H w x w1 E. specialize (H w). rewrite E in H. exists []. by rewrite app_nil_r. Qed.

Lemma calls_ret {A} (x : A) : calls_as (mret x) (fun y cs => y = x /\ cs = []).
Proof. intros w y w1 [= <- <-]. exists []. by rewrite app_nil_r. Qed.

Lemma calls_bind {A B} (m : io A) (k : A -> io B) P R : calls_as m P ->
  (forall x c1, P x c1 -> calls_as (k x) (fun y c2 => R y (c1 ++ c2))) -> calls_as (m ≫= k) R.
Proof.
  intros Hm Hk w y w2 E. apply io_bind_ok in E as (x & w1 & E1 & E2). apply Hm in E1 as (c1 & H1 & HP). apply (Hk _ _ HP) in E2 as (c2 & H2 & HR).
  exists (c1 ++ c2). split; [by rewrite H2, H1, app_assoc | exact HR].
Qed.

Lemma calls_weaken {A} (m : io A) P Q : calls_as m P -> (forall x cs, P x cs -> Q x cs) -> calls_as m Q.
Proof. intros H HPQ w x w1 E. apply H in E as (cs & Hc & HP). exists cs. auto. Qed.

Lemma calls_wrap {A} g (m : io A) P : calls_as m P -> calls_as (wrap_err g m) P.
Proof. intros H w x w1 E%wrap_ok. by apply H. Qed.

Lemma calls_run h c : calls_as (run_call h c) (fun _ cs => cs = [c]).
Proof. intros w x w1 E. unfold run_call in E. destruct (h_exec h c (wo_fs w)) as [r f]. injection E as _ <-. by exists [c]. Qed.

(** The end of a run. *)
Lemma calls_done {A} (x : A) (R : A -> list call -> Prop) : R x [] -> calls_as (mret x) R.
Proof. intros H. eapply calls_weaken; [apply calls_ret|]. by intros y cs [-> ->]. Qed.

(** A step without processes before the rest. *)
Lemma calls_skip {A B} (m : io A) (k : A -> io B) R : quiet m -> (forall x, calls_as (k x) R) -> calls_as (m ≫= k) R.
Proof. intros Hm Hk. eapply calls_bind; [by apply calls_quiet | by intros x c1 ->]. Qed.

Lemma quiet_ret {A} (x : A) : quiet (mret x : io A).
Proof. by intros w. Qed.

Lemma quiet_fail {A} e : quiet (@fail A e).
Proof. by intros w. Qed.

Lemma quiet_lift {A} (r : res string A) : quiet (lift r).
Proof. by intros w. Qed.

Lemma quiet_bind {A B} (m : io A) (k : A -> io B) : quiet m -> (forall x, quiet (k x)) -> quiet (m ≫= k).
Proof. intros Hm Hk w. specialize (Hm w). unfold mbind, io_bind. destruct (m w) as [[x|e] w1]; [|done]. by rewrite Hk. Qed.

Lemma quiet_if {A} (b : bool) (m n : io A) : quiet m -> quiet n -> quiet (if b then m else n).
Proof. by destruct b. Qed.

Lemma quiet_read h p : quiet (ReadFile h p).
Proof. intros w. unfold ReadFile. by destruct (wo_fs w !! p). Qed.

Lemma quiet_write h p b : quiet (WriteFile h p b).
Proof. intros w. unfold WriteFile. by destruct (h_writable h p). Qed.

Ltac solve_quiet :=
  repeat match goal with
  | |- quiet (lift _) => apply quiet_lift
  | |- quiet (mret _) => apply quiet_ret
  | |- quiet (fail _) => apply quiet_fail
  | |- quiet (ReadFile _ _) => apply quiet_read
  | |- quiet (WriteFile _ _ _) => apply quiet_write
  | |- quiet (if _ then _ else _) => apply quiet_if
  | |- quiet (_ ≫= _) => apply quiet_bind; [|intros ?]
  end.

Ltac io_step E x w := apply io_bind_ok in E as (x & w & ?E & E).
