(* ===== verification/Regex.v ===== *)
(** * Regular expressions

    The part of Go's package regexp that the code uses: leftmost-first matching of a
    pattern built from characters, classes, concatenation, alternation, greedy and
    lazy repetition, groups and the assertions [^], [$] and [\b].  A pattern is a
    value of [regex]; [run] matches by backtracking in Go's order of preference.
    Texts are bytes: the patterns of the code test single characters for ASCII classes
    only, so a multi-byte character behaves like its bytes.  A repeated pattern of the
    code never matches the empty string; [run] does not repeat one that does. *)

From Stdlib Require Import ZArith Lia Ascii.
From stdpp Require Import base list strings gmap.
From S2P Require Import Prelude Text.

Inductive regex :=
| Eps
| Class (f : ascii -> bool)
| Cat (a b : regex)
| Alt (a b : regex)
| Star (greedy : bool) (a : regex)
| Group (n : nat) (a : regex)
| LineStart | LineEnd | TextStart | TextEnd | WordB.

(** A place in the text: the character before it, the rest, its offset. *)
Record cursor := mkCur { cu_before : option ascii; cu_rest : string; cu_off : nat }.

(** The groups matched so far, the newest first. *)
Abbreviation groups := (list (nat * (nat * nat))).

(** ** Classes *)

Definition char_is (d : ascii) (c : ascii) : bool := Ascii.eqb c d.
Definition newline : ascii := "010"%char.

(** [\s], [[0-9]], [[A-Za-z]]. *)
Definition re_space (c : ascii) : bool := code_in 9 10 c || code_in 12 13 c || code_in 32 32 c.
Definition re_alpha (c : ascii) : bool := code_in 65 90 c || code_in 97 122 c.
(** [\w] *)
Definition re_word (c : ascii) : bool := re_alpha c || re_digit c || char_is "_"%char c.
(** [.] and [[^\n]] *)
Definition re_dot (c : ascii) : bool := negb (char_is newline c).

Definition is_word_at (o : option ascii) : bool := match o with Some c => re_word c | None => false end.

(** The next character. *)
Definition cu_next (c : cursor) : option ascii := match cu_rest c with String a _ => Some a | EmptyString => None end.

Definition nl_or_end (o : option ascii) : bool := match o with Some c => char_is newline c | None => true end.

(** The assertions at a place. *)
Definition line_start (c : cursor) : bool := nl_or_end (cu_before c).
Definition line_end (c : cursor) : bool := nl_or_end (cu_next c).
Definition text_start (c : cursor) : bool := match cu_before c with None => true | Some _ => false end.
Definition text_end (c : cursor) : bool := match cu_next c with None => true | Some _ => false end.
Definition word_boundary (c : cursor) : bool := negb (Bool.eqb (is_word_at (cu_before c)) (is_word_at (cu_next c))).

(** ** Matching *)

Definition orelse {X} (a b : option X) : option X := match a with Some x => Some x | None => b end.

(** The repetition of a matcher [m], at most [fuel] times: each turn consumes. *)
Fixpoint star {X} (m : (cursor -> groups -> option X) -> cursor -> groups -> option X) (greedy : bool) (fuel : nat)
    (k : cursor -> groups -> option X) (c : cursor) (g : groups) : option X :=
  match fuel with
  | O => k c g
  | S fuel =>
      let more := m (fun c' g' => if (cu_off c <? cu_off c')%nat then star m greedy fuel k c' g' else None) c g in
      if greedy then orelse more (k c g) else orelse (k c g) more
  end.

(** Matches [r] at a place and continues with [k]; the first way that succeeds. *)
Fixpoint run {X} (r : regex) (k : cursor -> groups -> option X) (c : cursor) (g : groups) : option X :=
  match r with
  | Eps => k c g
  | Class f =>
      match cu_rest c with
      | String a s => if f a then k (mkCur (Some a) s (S (cu_off c))) g else None
      | EmptyString => None
      end
  | Cat a b => run a (run b k) c g
  | Alt a b => orelse (run a k c g) (run b k c g)
  | Star greedy a => star (run a) greedy (String.length (cu_rest c)) k c g
  | Group n a => run a (fun c' g' => k c' ((n, (cu_off c, cu_off c')) :: g')) c g
  | LineStart => if line_start c then k c g else None
  | LineEnd => if line_end c then k c g else None
  | TextStart => if text_start c then k c g else None
  | TextEnd => if text_end c then k c g else None
  | WordB => if word_boundary c then k c g else None
  end.

(** A match: its span and its groups. *)
Record rmatch := mkMatch { rm_start : nat; rm_end : nat; rm_groups : groups }.

Definition match_at (r : regex) (c : cursor) : option rmatch :=
  run r (fun c' g => Some (mkMatch (cu_off c) (cu_off c') g)) c [].

(** The leftmost match from a place on. *)
Fixpoint find_from (r : regex) (before : option ascii) (text : string) (off : nat) : option rmatch :=
  match match_at r (mkCur before text off) with
  | Some m => Some m
  | None => match text with String a text => find_from r (Some a) text (S off) | EmptyString => None end
  end.

(** The place [n] characters further. *)
Fixpoint advance (n : nat) (c : cursor) : cursor :=
  match n, cu_rest c with
  | S n, String a s => advance n (mkCur (Some a) s (S (cu_off c)))
  | _, _ => c
  end.

Definition start_of (text : string) : cursor := mkCur None text 0.

(** [FindStringSubmatchIndex] *)
Definition find (r : regex) (text : string) : option rmatch := find_from r None text 0.

(** [FindAllStringSubmatchIndex(text, -1)]: each search goes on at the end of the match
    before, one further after an empty match; an empty match right after a match is
    no match ([prev] is the end of the last one). *)
Fixpoint find_all_go (r : regex) (fuel : nat) (prev : option nat) (c : cursor) : list rmatch :=
  match fuel with
  | O => []
  | S fuel =>
      match find_from r (cu_before c) (cu_rest c) (cu_off c) with
      | None => []
      | Some m =>
          if (rm_end m =? cu_off c)%nat then
            let rest := match cu_rest c with EmptyString => [] | _ => find_all_go r fuel (Some (rm_end m)) (advance 1 c) end in
            if bool_decide (prev = Some (rm_start m)) then rest else m :: rest
          else m :: find_all_go r fuel (Some (rm_end m)) (advance (rm_end m - cu_off c) c)
      end
  end.

Definition find_all (r : regex) (text : string) : list rmatch := find_all_go r (S (String.length text)) None (start_of text).

(** The text of a span, of a match and of one of its groups. *)
Definition span_text (text : string) (i j : nat) : string := String.substring i (j - i) text.
Definition match_text (text : string) (m : rmatch) : string := span_text text (rm_start m) (rm_end m).
Definition group_span (m : rmatch) (n : nat) : option (nat * nat) :=
  match list_find (fun p : nat * (nat * nat) => fst p = n) (rm_groups m) with Some (_, (_, sp)) => Some sp | None => None end.
Definition group_text (text : string) (m : rmatch) (n : nat) : string :=
  match group_span m n with Some (i, j) => span_text text i j | None => "" end.

(** [MatchString], [FindString], [FindAllString] *)
Definition is_match (r : regex) (text : string) : bool := match find r text with Some _ => true | None => false end.
Definition find_string (r : regex) (text : string) : string := match find r text with Some m => match_text text m | None => "" end.
Definition find_all_strings (r : regex) (text : string) : list string := match_text text <$> find_all r text.

(** ** Patterns *)

Fixpoint lit (s : string) : regex :=
  match s with EmptyString => Eps | String c EmptyString => Class (char_is c) | String c s => Cat (Class (char_is c)) (lit s) end.
Fixpoint cats (l : list regex) : regex := match l with [] => Eps | [r] => r | r :: l => Cat r (cats l) end.
Fixpoint alts (l : list regex) : regex := match l with [] => Eps | [r] => r | r :: l => Alt r (alts l) end.
Definition words (l : list string) : regex := alts (lit <$> l).
Definition many (f : ascii -> bool) : regex := Star true (Class f).
Definition many1 (f : ascii -> bool) : regex := Cat (Class f) (many f).
Definition opt (r : regex) : regex := Alt r Eps.

(** ** What a pattern means

    [accepts r c g c' g']: the pattern [r] matches the text between the places [c] and
    [c'] and records groups on top of [g]. *)
Inductive accepts : regex -> cursor -> groups -> cursor -> groups -> Prop :=
| ac_eps c g : accepts Eps c g c g
| ac_class (f : ascii -> bool) a s b o g : f a = true -> accepts (Class f) (mkCur b (String a s) o) g (mkCur (Some a) s (S o)) g
| ac_cat a b c g c1 g1 c2 g2 : accepts a c g c1 g1 -> accepts b c1 g1 c2 g2 -> accepts (Cat a b) c g c2 g2
| ac_left a b c g c' g' : accepts a c g c' g' -> accepts (Alt a b) c g c' g'
| ac_right a b c g c' g' : accepts b c g c' g' -> accepts (Alt a b) c g c' g'
| ac_stop greedy a c g : accepts (Star greedy a) c g c g
| ac_more greedy a c g c1 g1 c2 g2 : accepts a c g c1 g1 -> (cu_off c < cu_off c1)%nat -> accepts (Star greedy a) c1 g1 c2 g2 ->
    accepts (Star greedy a) c g c2 g2
| ac_group n a c g c' g' : accepts a c g c' g' -> accepts (Group n a) c g c' ((n, (cu_off c, cu_off c')) :: g')
| ac_line_start c g : line_start c = true -> accepts LineStart c g c g
| ac_line_end c g : line_end c = true -> accepts LineEnd c g c g
| ac_text_start c g : text_start c = true -> accepts TextStart c g c g
| ac_text_end c g : text_end c = true -> accepts TextEnd c g c g
| ac_word c g : word_boundary c = true -> accepts WordB c g c g.

(** The text after [w], read from [c]. *)
Fixpoint after (w : string) (c : cursor) : cursor :=
  match w with EmptyString => c | String a w => after w (mkCur (Some a) (match cu_rest c with String _ s => s | EmptyString => "" end) (S (cu_off c))) end.

(** [w] is the text between two places. *)
Definition between (w : string) (c c' : cursor) : Prop := exists s, cu_rest c = w +:+ s /\ c' = after w c.

Lemma between_nil c : between "" c c.
Proof. by exists (cu_rest c). Qed.

Lemma after_rest w : forall c s, cu_rest c = w +:+ s -> cu_rest (after w c) = s /\ cu_off (after w c) = (cu_off c + String.length w)%nat.
Proof.
  induction w as [|a w IH]; intros c s H; cbn [after String.length]; [by rewrite Nat.add_0_r|].
  change (String a w +:+ s) with (String a (w +:+ s)) in H. rewrite H. destruct (IH (mkCur (Some a) (w +:+ s) (S (cu_off c))) s eq_refl) as [H1 H2].
  rewrite H1, H2. cbn [cu_off]. split; [done | lia].
Qed.

Lemma after_app w1 w2 : forall c, after (w1 +:+ w2) c = after w2 (after w1 c).
Proof. induction w1 as [|a w1 IH]; intros c; [done|]. change (String a w1 +:+ w2) with (String a (w1 +:+ w2)). cbn [after]. apply IH. Qed.

Lemma between_app w1 w2 c c1 c2 : between w1 c c1 -> between w2 c1 c2 -> between (w1 +:+ w2) c c2.
Proof.
  intros (s1 & E1 & ->) (s2 & E2 & ->). destruct (after_rest _ _ _ E1) as [R1 _]. exists s2. rewrite E1. split; [|by rewrite after_app].
  rewrite R1 in E2. rewrite E2. clear. induction w1 as [|a w1 IH]; [done|]. change (String a w1 +:+ ?x) with (String a (w1 +:+ x)).
  change ((String a (w1 +:+ w2)) +:+ s2) with (String a ((w1 +:+ w2) +:+ s2)). by rewrite IH.
Qed.

Lemma between_len w c c' : between w c c' -> cu_off c' = (cu_off c + String.length w)%nat /\
  (String.length w + String.length (cu_rest c') = String.length (cu_rest c))%nat.
Proof.
  intros (s & E & ->). destruct (after_rest _ _ _ E) as [R1 R2]. split; [done|]. rewrite R1, E. clear.
  induction w as [|a w IH]; [done|]. change (String a w +:+ s) with (String a (w +:+ s)). cbn [String.length]. lia.
Qed.

(** A match consumes a text. *)
Lemma accepts_between r c g c' g' : accepts r c g c' g' -> exists w, between w c c'.
Proof.
  induction 1 as [c g|f a s b o g Hf|a b c g c1 g1 c2 g2 _ [w1 IH1] _ [w2 IH2]|a b c g c' g' _ IH|a b c g c' g' _ IH|greedy a c g
    |greedy a c g c1 g1 c2 g2 _ [w1 IH1] _ _ [w2 IH2]|n a c g c' g' _ IH|c g|c g|c g|c g|c g]; eauto using between_nil, between_app.
  exists (String a ""). by exists s.
Qed.

Lemma accepts_off r c g c' g' : accepts r c g c' g' -> (cu_off c <= cu_off c' /\ cu_off c' + String.length (cu_rest c') = cu_off c + String.length (cu_rest c))%nat.
Proof. intros [w [H1 H2]%between_len]%accepts_between. lia. Qed.

(** ** The matcher is right *)

Lemma orelse_Some {X} (a b : option X) x : orelse a b = Some x -> a = Some x \/ b = Some x.
Proof. destruct a; cbn; [intros [= ->]; by left | by right]. Qed.

Lemma orelse_is_Some {X} (a b : option X) : is_Some a \/ is_Some b -> is_Some (orelse a b).
Proof. intros [[x ->]|[x ->]]; cbn; [by eexists|]. by destruct a; eexists. Qed.

Section Star.
Context {X : Type} (a : regex) (m : (cursor -> groups -> option X) -> cursor -> groups -> option X).

Lemma star_sound greedy fuel k : (forall k c g x, m k c g = Some x -> exists c' g', accepts a c g c' g' /\ k c' g' = Some x) ->
  forall c g x, star m greedy fuel k c g = Some x -> exists c' g', accepts (Star greedy a) c g c' g' /\ k c' g' = Some x.
Proof.
  intros Hm. induction fuel as [|fuel IH]; intros c g x E; cbn [star] in E; [by exists c, g; split; [constructor|]|].
  set (more := m _ c g) in E. assert (more = Some x \/ k c g = Some x) as [H|H].
  { destruct greedy; apply orelse_Some in E; tauto. }
  - apply Hm in H as (c1 & g1 & Ha & H). destruct (Nat.ltb_spec (cu_off c) (cu_off c1)); [|done]. apply IH in H as (c2 & g2 & Hs & H).
    exists c2, g2. split; [by eapply ac_more | done].
  - exists c, g. split; [constructor | done].
Qed.

Lemma star_complete greedy k : (forall k c g c' g', accepts a c g c' g' -> is_Some (k c' g') -> is_Some (m k c g)) ->
  forall r c g c' g', accepts r c g c' g' -> r = Star greedy a -> forall fuel, (String.length (cu_rest c) <= fuel)%nat ->
    is_Some (k c' g') -> is_Some (star m greedy fuel k c g).
Proof.
  intros Hm r c g c' g' H. induction H as [| | | | |gr b c g|gr b c g c1 g1 c2 g2 Ha _ Hlt Hs IH| | | | | |]; intros E fuel Hf Hk; try done.
  - injection E as -> ->. destruct fuel as [|fuel]; cbn [star]; [done|]. destruct greedy; apply orelse_is_Some; auto.
  - injection E as -> ->. pose proof (accepts_off _ _ _ _ _ Ha) as Ho. destruct fuel as [|fuel]; [lia|]. cbn [star].
    assert (is_Some (m (fun c' g' => if (cu_off c <? cu_off c')%nat then star m greedy fuel k c' g' else None) c g)) as Hmore.
    { eapply Hm; [exact Ha|]. rewrite (proj2 (Nat.ltb_lt _ _)) by done. apply IH; [done | lia | done]. }
    destruct greedy; apply orelse_is_Some; auto.
Qed.
End Star.

Lemma run_sound {X} r : forall (k : cursor -> groups -> option X) c g x, run r k c g = Some x ->
  exists c' g', accepts r c g c' g' /\ k c' g' = Some x.
Proof.
  induction r as [|f|a IHa b IHb|a IHa b IHb|greedy a IHa|n a IHa| | | | |]; intros k c g x E; cbn [run] in E.
  - exists c, g. split; [constructor | done].
  - destruct c as [b [|d s] o]; [done|]. cbn [cu_rest cu_off] in E. destruct (f d) eqn:Ef; [|done]. eexists _, _. split; [by constructor | exact E].
  - apply IHa in E as (c1 & g1 & Ha & E). apply IHb in E as (c2 & g2 & Hb & E). exists c2, g2. split; [by eapply ac_cat | done].
  - apply orelse_Some in E as [E|E]; [apply IHa in E | apply IHb in E]; destruct E as (c' & g' & H & E); exists c', g'; (split; [by constructor | done]).
  - by eapply star_sound.
  - apply IHa in E as (c' & g' & H & E). eexists _, _. split; [by constructor | exact E].
  - destruct (line_start c) eqn:Eb; [|done]. exists c, g. split; [by constructor | done].
  - destruct (line_end c) eqn:Eb; [|done]. exists c, g. split; [by constructor | done].
  - destruct (text_start c) eqn:Eb; [|done]. exists c, g. split; [by constructor | done].
  - destruct (text_end c) eqn:Eb; [|done]. exists c, g. split; [by constructor | done].
  - destruct (word_boundary c) eqn:Eb; [|done]. exists c, g. split; [by constructor | done].
Qed.

Lemma run_complete {X} r : forall (k : cursor -> groups -> option X) c g c' g', accepts r c g c' g' -> is_Some (k c' g') -> is_Some (run r k c g).
Proof.
  induction r as [|f|a IHa b IHb|a IHa b IHb|greedy a IHa|n a IHa| | | | |]; intros k c g c' g' H Hk; cbn [run];
    try (inversion H; subst; cbn [cu_rest cu_off]; clear H;
         repeat match goal with Hb : _ = true |- _ => rewrite Hb; clear Hb end; done).
  - inversion H; subst. eapply IHa; [eassumption|]. by eapply IHb.
  - inversion H; subst; apply orelse_is_Some; [left; by eapply IHa | right; by eapply IHb].
  - by eapply (star_complete a (run a) greedy k IHa _ _ _ _ _ H eq_refl).
  - inversion H; subst. by eapply IHa.
Qed.

(** [find] returns the leftmost place where the pattern matches, and finds one when
    there is one. *)
Definition matches_at (r : regex) (c : cursor) : Prop := exists c' g', accepts r c [] c' g'.

Lemma match_at_Some r c m : match_at r c = Some m ->
  exists c', accepts r c [] c' (rm_groups m) /\ rm_start m = cu_off c /\ rm_end m = cu_off c'.
Proof. intros (c' & g' & H & [= <-])%run_sound. by exists c'. Qed.

Lemma match_at_None r c : match_at r c = None -> ~ matches_at r c.
Proof.
  intros E (c' & g' & H). destruct (run_complete r (fun c' g => Some (mkMatch (cu_off c) (cu_off c') g)) c [] c' g' H) as [x Hx]; [by eexists|].
  unfold match_at in E. by rewrite E in Hx.
Qed.

Lemma find_from_Some r : forall text before off m, find_from r before text off = Some m ->
  exists w c c', between w (mkCur before text off) c /\ accepts r c [] c' (rm_groups m) /\ rm_start m = cu_off c /\ rm_end m = cu_off c' /\
    forall w1 c1, between w1 (mkCur before text off) c1 -> (cu_off c1 < cu_off c)%nat -> ~ matches_at r c1.
Proof.
  induction text as [|a text IH]; intros before off m E; cbn [find_from] in E; destruct (match_at r (mkCur before _ off)) as [m'|] eqn:Em; try done.
  1, 2: injection E as ->; apply match_at_Some in Em as (c' & H & H1 & H2); eexists "", _, c'; split_and!; [apply between_nil | done..|];
        intros w1 c1 [Hl _]%between_len Hlt; cbn [cu_off] in *; lia.
  apply IH in E as (w & c & c' & (s & Es & ->) & Ha & H1 & H2 & Hmin). exists (String a w), (after (String a w) (mkCur before (String a text) off)), c'.
  cbn [cu_rest] in Es. split_and!; [exists s; cbn [cu_rest]; by rewrite Es | done..|].
  intros w1 c1 (s1 & E1 & ->) Hlt. destruct w1 as [|a1 w1]; [by apply match_at_None|].
  injection E1 as <- E1. apply (Hmin w1); [by exists s1 | exact Hlt].
Qed.

Lemma find_from_None r : forall text before off, find_from r before text off = None ->
  forall w c, between w (mkCur before text off) c -> ~ matches_at r c.
Proof.
  induction text as [|a text IH]; intros before off E w c (s & Es & ->); cbn [find_from] in E;
    destruct (match_at r (mkCur before _ off)) eqn:Em; try done; destruct w as [|a1 w].
  - by apply match_at_None.
  - done.
  - by apply match_at_None.
  - injection Es as <- Es. eapply IH; [done|]. by exists s.
Qed.

(** ** Pieces of patterns *)

(** All characters of a text are in a class. *)
Lemma inv_class f c g c' g' : accepts (Class f) c g c' g' -> g' = g /\ exists a, f a = true /\ between (String a "") c c'.
Proof. inversion 1; subst. split; [done|]. eexists. split; [done|]. by exists s. Qed.

Lemma inv_cat a b c g c' g' : accepts (Cat a b) c g c' g' -> exists c1 g1, accepts a c g c1 g1 /\ accepts b c1 g1 c' g'.
Proof. inversion 1; subst. eauto. Qed.

Lemma inv_group n a c g c' g' : accepts (Group n a) c g c' g' -> exists g1, accepts a c g c' g1 /\ g' = (n, (cu_off c, cu_off c')) :: g1.
Proof. inversion 1; subst. eauto. Qed.

Lemma inv_star greedy f c g c' g' : accepts (Star greedy (Class f)) c g c' g' -> g' = g /\ exists w, all_in f w = true /\ between w c c'.
Proof.
  intros H. remember (Star greedy (Class f)) as r eqn:E. revert E.
  induction H as [| | | | |gr b c g|gr b c g c1 g1 c2 g2 Ha _ Hlt Hs IH| | | | | |]; intros E; try done.
  - split; [done|]. exists "". split; [done | apply between_nil].
  - injection E as -> ->. destruct (IH eq_refl) as (-> & w & Hw & Hb). apply inv_class in Ha as (-> & a & Hf & Ha). split; [done|].
    exists (String a w). split; [cbn [all_in]; by rewrite Hf|]. exact (between_app _ _ _ _ _ Ha Hb).
Qed.

Lemma inv_lit s : forall c g c' g', accepts (lit s) c g c' g' -> g' = g /\ between s c c'.
Proof.
  induction s as [|a s IH]; intros c g c' g' H.
  { inversion H; subst. split; [done | apply between_nil]. }
  destruct s as [|b s].
  - apply inv_class in H as (-> & x & ->%Ascii.eqb_eq & H). done.
  - change (lit (String a (String b s))) with (Cat (Class (char_is a)) (lit (String b s))) in H.
    apply inv_cat in H as (c1 & g1 & (-> & x & ->%Ascii.eqb_eq & H1)%inv_class & (-> & H2)%IH). split; [done|]. exact (between_app _ _ _ _ _ H1 H2).
Qed.

Lemma inv_words l : l <> [] -> forall c g c' g', accepts (words l) c g c' g' -> g' = g /\ exists s, s ∈ l /\ between s c c'.
Proof.
  intros Hl. induction l as [|s l IH]; [done|]. intros c g c' g' H. destruct l as [|s2 l].
  - apply inv_lit in H as [-> H]. split; [done|]. exists s. split; [by left | done].
  - change (words (s :: s2 :: l)) with (Alt (lit s) (words (s2 :: l))) in H. inversion H; subst.
    + apply inv_lit in H6 as [-> H6]. split; [done|]. exists s. split; [by left | done].
    + apply IH in H6 as (-> & s' & Hs' & H6); [|done]. split; [done|]. exists s'. split; [by right | done].
Qed.

Lemma make_class f a c : f a = true -> forall s g, cu_rest c = String a s -> accepts (Class f) c g (after (String a "") c) g.
Proof. intros Hf s g E. destruct c as [b r o]. cbn in E. subst r. by constructor. Qed.

Lemma make_lit s : forall c g t, cu_rest c = s +:+ t -> accepts (lit s) c g (after s c) g.
Proof.
  induction s as [|a s IH]; intros c g t E; [constructor|]. assert (char_is a a = true) as Ha by apply Ascii.eqb_refl.
  change (String a s +:+ t) with (String a (s +:+ t)) in E. destruct s as [|b s].
  - by eapply make_class.
  - change (lit (String a (String b s))) with (Cat (Class (char_is a)) (lit (String b s))).
    eapply ac_cat; [by eapply make_class|]. change (after (String a (String b s)) c) with (after (String b s) (after (String a "") c)).
    apply (IH _ _ t). cbn [after cu_rest]. by rewrite E.
Qed.

Lemma make_star greedy f w : all_in f w = true -> forall c g t, cu_rest c = w +:+ t -> accepts (Star greedy (Class f)) c g (after w c) g.
Proof.
  induction w as [|a w IH]; intros H c g t E; [constructor|]. cbn [all_in] in H. apply andb_true_iff in H as [Ha Hw].
  change (String a w +:+ t) with (String a (w +:+ t)) in E. eapply ac_more; [by eapply make_class | cbn; lia|].
  change (after (String a w) c) with (after w (after (String a "") c)). apply (IH Hw _ _ t). cbn [after cu_rest]. by rewrite E.
Qed.

Lemma make_words s l : s ∈ l -> forall c g t, cu_rest c = s +:+ t -> accepts (words l) c g (after s c) g.
Proof.
  intros Hs c g t E. induction l as [|s' l IH]; [by apply not_elem_of_nil in Hs|]. destruct l as [|s2 l].
  - apply list_elem_of_singleton in Hs as ->. by eapply make_lit.
  - change (words (s' :: s2 :: l)) with (Alt (lit s') (words (s2 :: l))). apply elem_of_cons in Hs as [->|Hs].
    + apply ac_left. by eapply make_lit.
    + apply ac_right. by apply IH.
Qed.

(** ** Spans and lists of matches *)

Lemma substring_0 n : forall s t, String.length s = n -> String.substring 0 n (s +:+ t) = s.
Proof.
  induction n as [|n IH]; intros [|a s] t E; try done; [by destruct t|]. injection E as E. change (String a s +:+ t) with (String a (s +:+ t)).
  cbn [String.substring]. by rewrite IH.
Qed.

Lemma substring_mid a : forall b c, String.substring (String.length a) (String.length b) (a +:+ b +:+ c) = b.
Proof.
  induction a as [|x a IH]; intros b c; [exact (substring_0 _ b c eq_refl)|]. change (String x a +:+ ?y) with (String x (a +:+ y)). cbn [String.length String.substring]. apply IH.
Qed.

(** The text between two places of a text. *)
Lemma span_between text a w c c' : between a (start_of text) c -> between w c c' -> span_text text (cu_off c) (cu_off c') = w.
Proof.
  intros (s & E & ->) (s' & E' & ->). destruct (after_rest _ _ _ E) as [R O]. change (text = a +:+ s) in E. rewrite R in E'.
  destruct (after_rest w (after a (start_of text)) s') as [_ O']; [by rewrite R|]. unfold span_text. rewrite O', O. cbn [start_of cu_off].
  rewrite E, E'. replace (0 + String.length a + String.length w - (0 + String.length a))%nat with (String.length w) by lia. apply substring_mid.
Qed.

Lemma advance_after w : forall c s, cu_rest c = w +:+ s -> advance (String.length w) c = after w c.
Proof.
  induction w as [|a w IH]; intros c s E; [by destruct c|]. change (String a w +:+ s) with (String a (w +:+ s)) in E. cbn [advance String.length after].
  rewrite E. by apply (IH _ s).
Qed.

(** Every match that [find_all] lists is one. *)
Definition is_match_of (r : regex) (text : string) (m : rmatch) : Prop :=
  exists a c c', between a (start_of text) c /\ accepts r c [] c' (rm_groups m) /\ rm_start m = cu_off c /\ rm_end m = cu_off c'.

Lemma find_all_go_sound r text fuel : forall prev a c m, between a (start_of text) c -> m ∈ find_all_go r fuel prev c -> is_match_of r text m.
Proof.
  induction fuel as [|fuel IH]; intros prev a c m Ha Hm; cbn [find_all_go] in Hm; [by apply not_elem_of_nil in Hm|].
  destruct (find_from r _ _ _) as [m0|] eqn:E; [|by apply not_elem_of_nil in Hm].
  apply find_from_Some in E as (w & c1 & c2 & Hw & Hacc & Hs & He & _).
  assert (between w c c1) as Hw' by (by destruct c).
  assert (is_match_of r text m0) as H0 by (exists (a +:+ w), c1, c2; split_and!; [by eapply between_app | done..]).
  destruct (accepts_between _ _ _ _ _ Hacc) as [w2 Hw2]. pose proof (between_app _ _ _ _ _ Hw' Hw2) as Hall.
  destruct (rm_end m0 =? cu_off c)%nat.
  - assert (m ∈ (match cu_rest c with EmptyString => [] | _ => find_all_go r fuel (Some (rm_end m0)) (advance 1 c) end) -> is_match_of r text m) as Hrest.
    { destruct (cu_rest c) as [|x s] eqn:Er; [by intros []%not_elem_of_nil|]. apply (IH _ (a +:+ String x "")).
      eapply between_app; [exact Ha|]. exists s. split; [done|]. apply (advance_after (String x "") c s). done. }
    case_bool_decide; [auto|]. apply elem_of_cons in Hm as [->|Hm]; auto.
  - apply elem_of_cons in Hm as [->|Hm]; [done|]. revert Hm. apply (IH _ (a +:+ w +:+ w2)). eapply between_app; [exact Ha|].
    destruct Hall as (s & Es & Ec). exists s. split; [done|]. rewrite He, Ec.
    destruct (after_rest _ _ _ Es) as [_ ->]. replace (cu_off c + String.length (w +:+ w2) - cu_off c)%nat with (String.length (w +:+ w2)) by lia.
    by eapply advance_after.
Qed.

Lemma find_all_sound r text m : m ∈ find_all r text -> is_match_of r text m.
Proof. apply (find_all_go_sound r text _ _ ""). apply between_nil. Qed.

(** A pattern that never matches the empty text. *)
Definition consumes (r : regex) : Prop := forall c g c' g', accepts r c g c' g' -> (cu_off c < cu_off c')%nat.

(** Two places of a text, one at or before the other. *)
Lemma between_split w1 w2 c c1 c2 : between w1 c c1 -> between w2 c c2 -> (cu_off c1 <= cu_off c2)%nat -> exists w, between w c1 c2.
Proof.
  intros (s1 & E1 & ->) (s2 & E2 & ->) Hle. destruct (after_rest _ _ _ E1) as [_ O1]. destruct (after_rest _ _ _ E2) as [_ O2].
  assert (String.length w1 <= String.length w2)%nat as Hl by lia. clear Hle O1 O2.
  revert c w2 s1 s2 E1 E2 Hl. induction w1 as [|a w1 IH]; intros c w2 s1 s2 E1 E2 Hl; [exists w2; by exists s2|].
  destruct w2 as [|b w2]; [cbn in Hl; lia|]. cbn [after]. rewrite E1 in E2. injection E2 as <- E2. rewrite E1.
  apply (IH _ w2 s1 s2); [done | exact E2 | cbn in Hl; lia].
Qed.

Lemma find_all_go_covers r fuel : consumes r -> forall prev c w c1, between w c c1 -> matches_at r c1 ->
  (String.length (cu_rest c) < fuel)%nat -> exists m, m ∈ find_all_go r fuel prev c /\ (rm_start m <= cu_off c1 < rm_end m)%nat.
Proof.
  intros Hr. induction fuel as [|fuel IH]; intros prev c w c1 Hw Hm Hf; [lia|]. cbn [find_all_go].
  assert (mkCur (cu_before c) (cu_rest c) (cu_off c) = c) as Ec by (by destruct c).
  destruct (find_from r _ _ _) as [m0|] eqn:E; [|exfalso; by apply (find_from_None _ _ _ _ E w c1); [rewrite Ec|]].
  apply find_from_Some in E as (w0 & c0 & c2 & Hw0 & Hacc & Hs & He & Hmin). rewrite Ec in Hw0, Hmin. pose proof (Hr _ _ _ _ Hacc) as Hlt.
  destruct (between_len _ _ _ Hw0) as [L0 _]. rewrite (proj2 (Nat.eqb_neq _ _)) by lia.
  assert (rm_start m0 <= cu_off c1)%nat as Hle.
  { rewrite Hs. destruct (Nat.le_gt_cases (cu_off c0) (cu_off c1)); [done|]. by destruct (Hmin w c1 Hw). }
  destruct (Nat.lt_ge_cases (cu_off c1) (rm_end m0)) as [Hin|Hout]; [exists m0; split; [by left | lia]|].
  destruct (accepts_between _ _ _ _ _ Hacc) as [w2 Hw2]. pose proof (between_app _ _ _ _ _ Hw0 Hw2) as Hall.
  destruct (between_len _ _ _ Hall) as [L2 R2]. destruct (between_split _ _ _ _ _ Hall Hw ltac:(lia)) as [w3 Hw3].
  assert (advance (rm_end m0 - cu_off c) c = c2) as ->.
  { destruct Hall as (s & Es & ->). rewrite He, L2. replace (_ + _ - _)%nat with (String.length (w0 +:+ w2)) by lia. by eapply advance_after. }
  destruct (IH (Some (rm_end m0)) c2 w3 c1 Hw3 Hm) as (m & Hm' & Hspan); [lia|]. exists m. split; [by right | done].
Qed.

Lemma find_all_covers r text a c : consumes r -> between a (start_of text) c -> matches_at r c ->
  exists m, m ∈ find_all r text /\ (rm_start m <= cu_off c < rm_end m)%nat.
Proof. intros Hr Ha Hm. eapply find_all_go_covers; [done | exact Ha | done |]. cbn [start_of cu_rest]. lia. Qed.

(** Steps through a concatenation that matched. *)
Ltac next_piece H c g := let H1 := fresh "Hm" in apply inv_cat in H as (c & g & H1 & H).

Lemma many1_inv f c g c' g' : accepts (many1 f) c g c' g' -> g' = g /\ exists w, all_in f w = true /\ w <> "" /\ between w c c'.
Proof.
  intros (c1 & g1 & (-> & x & Hx & H1)%inv_class & (-> & w & Hw & H2)%inv_star)%inv_cat. split; [done|]. exists (String x w).
  split_and!; [cbn [all_in]; by rewrite Hx | done | exact (between_app _ _ _ _ _ H1 H2)].
Qed.

(** ** Greedy matching

    What [run] finds first when a pattern is a sequence of texts and of maximal runs of
    a class. *)

Lemma run_class {X} f (k : cursor -> groups -> option X) c g a s : cu_rest c = String a s ->
  run (Class f) k c g = if f a then k (after (String a "") c) g else None.
Proof. intros E. cbn [run after]. by rewrite E. Qed.

Lemma run_lit {X} s : forall (k : cursor -> groups -> option X) c g t, cu_rest c = s +:+ t -> run (lit s) k c g = k (after s c) g.
Proof.
  induction s as [|a s IH]; intros k c g t E; [done|]. change (String a s +:+ t) with (String a (s +:+ t)) in E.
  assert (char_is a a = true) as Ea by apply Ascii.eqb_refl. destruct s as [|b s].
  - cbn [lit]. by rewrite (run_class _ _ _ _ _ _ E), Ea.
  - change (run (lit (String a (String b s))) k c g) with (run (Class (char_is a)) (run (lit (String b s)) k) c g).
    rewrite (run_class _ _ _ _ _ _ E), Ea. destruct (after_rest (String a "") c (String b s +:+ t) E) as [R _]. by rewrite (IH k _ g t R).
Qed.

Definition stops (f : ascii -> bool) (t : string) : Prop := match t with String a _ => f a = false | EmptyString => True end.

Lemma star_greedy {X} f (k : cursor -> groups -> option X) w : forall fuel c g t x, all_in f w = true -> cu_rest c = w +:+ t -> stops f t ->
  (String.length w <= fuel)%nat -> k (after w c) g = Some x -> star (run (Class f)) true fuel k c g = Some x.
Proof.
  induction w as [|a w IH]; intros fuel c g t x Hw E Ht Hf Hk; (destruct fuel as [|fuel]; [try done; cbn [String.length] in Hf; lia|]); cbn [star].
  - change (cu_rest c = t) in E. cbn [after] in Hk. rewrite Hk. destruct t as [|b t]; [cbn [run]; by rewrite E|].
    rewrite (run_class _ _ _ _ _ _ E). unfold stops in Ht. by rewrite Ht.
  - cbn [all_in] in Hw. apply andb_true_iff in Hw as [Ha Hw]. change (String a w +:+ t) with (String a (w +:+ t)) in E.
    destruct (after_rest (String a "") c (w +:+ t) E) as [R O]. rewrite (run_class _ _ _ _ _ _ E), Ha, O. cbn [String.length] in *.
    rewrite (proj2 (Nat.ltb_lt _ _)) by lia. by rewrite (IH fuel _ g t x Hw R Ht ltac:(lia) Hk).
Qed.

Lemma run_many1 {X} f (k : cursor -> groups -> option X) w c g t x : all_in f w = true -> w <> "" -> cu_rest c = w +:+ t -> stops f t ->
  k (after w c) g = Some x -> run (many1 f) k c g = Some x.
Proof.
  destruct w as [|a w]; [done|]. intros Hw _ E Ht Hk. cbn [all_in] in Hw. apply andb_true_iff in Hw as [Ha Hw].
  change (run (many1 f) k c g) with (run (Class f) (run (many f) k) c g). change (String a w +:+ t) with (String a (w +:+ t)) in E.
  destruct (after_rest (String a "") c (w +:+ t) E) as [R _]. rewrite (run_class _ _ _ _ _ _ E), Ha.
  change (star (run (Class f)) true (String.length (cu_rest (after (String a "") c))) k (after (String a "") c) g = Some x).
  eapply star_greedy; [exact Hw | exact R | exact Ht | rewrite R, string_length_app; lia | exact Hk].
Qed.

Lemma find_here r text m : match_at r (start_of text) = Some m -> find r text = Some m.
Proof. unfold find, start_of. intros E. destruct text; cbn [find_from]; by rewrite E. Qed.

(** Past the start of a text there is a character before. *)
Lemma after_before w : forall a c, exists b, cu_before (after (String a w) c) = Some b.
Proof. induction w as [|b w IH]; intros a c; [by eexists|]. exact (IH b _). Qed.

Lemma start_begins w text c : between w (start_of text) c -> text_start c = true -> w = "".
Proof. intros (s & _ & ->). destruct w as [|a w]; [done|]. unfold text_start. destruct (after_before w a (start_of text)) as [b ->]. done. Qed.

(** The characters of a class at the start of a text. *)
Lemma split_class f s : exists w t, s = w +:+ t /\ all_in f w = true /\ stops f t.
Proof.
  induction s as [|a s (w & t & -> & Hw & Ht)]; [by exists "", ""|]. destruct (f a) eqn:E; [|by exists "", (String a (w +:+ t))].
  exists (String a w), t. cbn [all_in]. by rewrite E.
Qed.
