(* ===== verification/RegexLines.v ===== *)
(** * Patterns of whole lines

    Replacing the matches of a pattern that only matches whole lines changes the text
    line by line: what happens to a line depends on that line alone. *)

From Stdlib Require Import ZArith Lia Ascii.
From stdpp Require Import base list strings gmap.
From S2P Require Import Prelude Text Regex.

(** Lines joined again. *)
Fixpoint unlines (ls : list string) : string :=
  match ls with [] => "" | [l] => l | l :: ls => l +:+ String newline (unlines ls) end.

(** A text with its matches replaced. *)
Fixpoint splice (text : string) (last : nat) (ms : list rmatch) (f : rmatch -> string) : string :=
  match ms with
  | [] => String.substring last (String.length text - last) text
  | m :: ms => span_text text last (rm_start m) +:+ f m +:+ splice text (rm_end m) ms f
  end.

(** [ReplaceAllStringFunc] *)
Definition replace_all (r : regex) (text : string) (f : rmatch -> string) : string := splice text 0 (find_all r text) f.

(** ** Lines *)

(** A text is a line and the rest after its newline, if any. *)
Lemma split_line s : exists l t, all_in re_dot l = true /\ s = l +:+ t /\
  ((t = "" /\ split_on newline s = [l]) \/ exists s', t = String newline s' /\ split_on newline s = l :: split_on newline s').
Proof.
  induction s as [|c s (l & t & Hl & -> & H)]; [by exists "", ""; split_and!; [| |left]|]. cbn [split_on].
  destruct (Ascii.eqb_spec c newline) as [->|Hc].
  - exists "", (String newline (l +:+ t)). split_and!; [done.. | right]. by eexists.
  - exists (String c l), t. cbn [all_in]. unfold re_dot at 1, char_is. rewrite (proj2 (Ascii.eqb_neq _ _)) by done. split_and!; [done.. |].
    destruct H as [[-> ->]|(s' & -> & ->)]; [by left | right; by eexists].
Qed.

Lemma split_nonempty s : split_on newline s <> [].
Proof. destruct s as [|c s]; [done|]. cbn. destruct (Ascii.eqb c newline); [done|]. by destruct (split_on newline s). Qed.

(** The rest of the text after a place. *)
Lemma rest_of text a c : between a (start_of text) c -> text = a +:+ cu_rest c /\ cu_off c = String.length a.
Proof. intros (s & E & ->). change (text = a +:+ s) in E. destruct (after_rest a (start_of text) s E) as [-> ->]. by split. Qed.

Lemma drop_rest text a c : between a (start_of text) c -> String.substring (cu_off c) (String.length text - cu_off c) text = cu_rest c.
Proof.
  intros [E L]%rest_of. rewrite L. rewrite E at 1 2. rewrite string_length_app, Nat.add_comm, Nat.add_sub.
  rewrite <-(string_app_nil (cu_rest c)) at 2. apply substring_mid.
Qed.

(** *** Skipping places without a match *)

Section Skip.
Context (r : regex) (Hr : consumes r).

Lemma find_all_skip fuel prev c x s : cu_rest c = String x s -> ~ matches_at r c ->
  find_all_go r fuel prev c = find_all_go r fuel prev (after (String x "") c).
Proof using Hr.
  intros E Hn. destruct fuel as [|fuel]; [done|]. cbn [find_all_go after]. rewrite E. cbn [cu_before cu_rest cu_off].
  assert (find_from r (cu_before c) (String x s) (cu_off c) = find_from r (Some x) s (S (cu_off c))) as Ef.
  { cbn [find_from]. destruct (match_at r _) as [m|] eqn:Em; [|done]. exfalso. apply match_at_Some in Em as (c' & H & _).
    apply Hn. exists c', (rm_groups m). rewrite <-E in H. by destruct c. }
  rewrite Ef. destruct (find_from r (Some x) s (S (cu_off c))) as [m|] eqn:Em; [|done].
  apply find_from_Some in Em as (w & c1 & c2 & [Hw _]%between_len & Hacc%Hr & Hs & He & _). cbn [cu_off] in *.
  rewrite !(proj2 (Nat.eqb_neq _ _)) by lia. f_equal. f_equal. destruct c as [b rst o]. cbn in E. subst rst. cbn [cu_off] in *.
  replace (rm_end m - o)%nat with (S (rm_end m - S o)) by lia. done.
Qed.

Lemma find_all_skips w : forall fuel prev c s, cu_rest c = w +:+ s ->
  (forall w1 c1, between w1 c c1 -> (String.length w1 < String.length w)%nat -> ~ matches_at r c1) ->
  find_all_go r fuel prev c = find_all_go r fuel prev (after w c).
Proof using Hr.
  induction w as [|x w IH]; intros fuel prev c s E Hn; [done|]. change (String x w +:+ s) with (String x (w +:+ s)) in E.
  rewrite (find_all_skip _ _ _ _ _ E) by (apply (Hn ""); [apply between_nil | cbn; lia]).
  change (after (String x w) c) with (after w (after (String x "") c)).
  assert (between (String x "") c (after (String x "") c)) as Hb by (by exists (w +:+ s)).
  apply (IH _ _ _ s).
  - exact (proj1 (after_rest (String x "") c (w +:+ s) E)).
  - intros w1 c1 H1 Hl. apply (Hn (String x w1)); [exact (between_app _ _ _ _ _ Hb H1) | cbn; lia].
Qed.

Lemma find_all_start fuel prev c m : m ∈ find_all_go r fuel prev c -> (cu_off c <= rm_start m)%nat.
Proof using Hr.
  revert prev c. induction fuel as [|fuel IH]; intros prev c; cbn [find_all_go]; [by intros []%not_elem_of_nil|].
  destruct (find_from r _ _ _) as [m0|] eqn:E; [|by intros []%not_elem_of_nil].
  apply find_from_Some in E as (w & c1 & c2 & [Hw _]%between_len & Hacc%Hr & Hs & He & _). cbn [cu_off] in Hw.
  rewrite (proj2 (Nat.eqb_neq _ _)) by lia. intros [->|Hm]%elem_of_cons; [lia|]. apply IH in Hm.
  assert (forall n d, (cu_off d <= cu_off (advance n d))%nat) as Hadv; [|specialize (Hadv (rm_end m0 - cu_off c)%nat c); lia].
  induction n as [|n IHn]; intros d; [done|]. cbn [advance]. destruct (cu_rest d); [done|]. specialize (IHn (mkCur (Some a) s (S (cu_off d)))). cbn in IHn. lia.
Qed.

(** Text without a match is copied. *)
Lemma splice_skip text a w c s ms f : between a (start_of text) c -> cu_rest c = w +:+ s ->
  (forall m, m ∈ ms -> (cu_off c + String.length w <= rm_start m)%nat) ->
  splice text (cu_off c) ms f = w +:+ splice text (cu_off (after w c)) ms f.
Proof using.
  intros Ha E Hms. assert (between w c (after w c)) as Hw by (by exists s). pose proof (between_app _ _ _ _ _ Ha Hw) as Haw.
  destruct ms as [|m ms]; cbn [splice].
  - rewrite (drop_rest _ _ _ Ha), (drop_rest _ _ _ Haw), E. by rewrite (proj1 (after_rest _ _ _ E)).
  - assert (span_text text (cu_off c) (rm_start m) = w +:+ span_text text (cu_off (after w c)) (rm_start m)) as ->; [|by rewrite string_app_assoc]. specialize (Hms m (list_elem_of_here _ _)). destruct (rest_of _ _ _ Ha) as [Et La].
    destruct (between_len _ _ _ Hw) as [Lw _]. rewrite Lw. clear Haw.
    unfold span_text. rewrite Et, E, La.
    replace (rm_start m - String.length a)%nat with (String.length w + (rm_start m - (String.length a + String.length w)))%nat by lia.
    generalize (rm_start m - (String.length a + String.length w))%nat. intros n. clear.
    induction a as [|y a IH]; [|exact IH]. change ("" +:+ ?z) with z. cbn [String.length]. rewrite Nat.add_0_l.
    induction w as [|y w IHw]; [done|]. change (String y w +:+ s) with (String y (w +:+ s)). cbn [String.length String.substring Nat.add].
    by rewrite IHw.
Qed.
End Skip.

(** ** The same line elsewhere *)

(** Patterns that only look at lines. *)
Fixpoint local (r : regex) : bool :=
  match r with
  | TextStart | TextEnd | WordB => false
  | Cat a b | Alt a b => local a && local b
  | Star _ a | Group _ a => local a
  | _ => true
  end.

Lemma between_unique w w' c c' : between w c c' -> between w' c c' -> w = w'.
Proof.
  intros H1 H2. pose proof (proj1 (between_len _ _ _ H1)). pose proof (proj1 (between_len _ _ _ H2)).
  destruct H1 as (s & E & _), H2 as (s' & E' & _). rewrite E in E'. eapply app_same_length; [exact E' | lia].
Qed.

Lemma between_refl w c : between w c c -> w = "".
Proof. intros H. exact (between_unique _ _ _ _ H (between_nil c)). Qed.

(** Two places that look alike to a line pattern. *)
Definition alike (c d : cursor) : Prop := line_start c = line_start d /\ line_end c = line_end d.

Lemma alike_mid w1 w2 t c c1 c' d : between w1 c c1 -> between w2 c1 c' -> cu_rest d = w1 +:+ w2 +:+ t ->
  line_start c = line_start d -> line_end c' = line_end (after (w1 +:+ w2) d) -> alike c1 (after w1 d).
Proof.
  intros (s & E & ->) (s' & E' & ->) Ed Hs He. split.
  - destruct w1 as [|x w1]; [done|]. unfold line_start. f_equal. cbn [after]. generalize (S (cu_off c)), (S (cu_off d)).
    generalize (match cu_rest c with String _ s => s | EmptyString => "" end), (match cu_rest d with String _ s => s | EmptyString => "" end).
    clear. revert x. induction w1 as [|y w1 IH]; intros x a b n m; [done|]. cbn [after]. apply IH.
  - destruct w2 as [|x w2].
    + rewrite string_app_nil in He. exact He.
    + apply (after_rest w1) in Ed as [Ed _]. unfold line_end, cu_next. rewrite Ed, E'. done.
Qed.

Lemma accepts_moved r c g c' g' : accepts r c g c' g' -> local r = true -> forall w d t g2, between w c c' -> cu_rest d = w +:+ t ->
  line_start c = line_start d -> line_end c' = line_end (after w d) -> exists g2', accepts r d g2 (after w d) g2'.
Proof.
  induction 1 as [c g|f a s b o g Hf|a b c g c1 g1 c2 g2 Ha IHa Hb IHb|a b c g c' g' _ IH|a b c g c' g' _ IH|greedy a c g
    |greedy a c g c1 g1 c2 g2 Ha IHa Hlt Hb IHb|n a c g c' g' _ IH|c g Hc|c g Hc|c g Hc|c g Hc|c g Hc]; cbn [local]; intros Hl w d t k Hw Hd Hs He; try done;
    try (apply between_refl in Hw as ->).
  - eexists. constructor.
  - assert (w = String a "") as -> by (eapply between_unique; [exact Hw | by exists s]). eexists. by eapply make_class.
  - apply andb_true_iff in Hl as [Hla Hlb]. destruct (accepts_between _ _ _ _ _ Ha) as [w1 H1]. destruct (accepts_between _ _ _ _ _ Hb) as [w2 H2].
    assert (w = w1 +:+ w2) as -> by (eapply between_unique; [exact Hw | by eapply between_app]). rewrite string_app_assoc in Hd.
    destruct (alike_mid _ _ _ _ _ _ _ H1 H2 Hd Hs He) as [M1 M2].
    destruct (IHa Hla w1 d (w2 +:+ t) k H1 Hd Hs M2) as [k1 A1].
    destruct (IHb Hlb w2 (after w1 d) t k1 H2 (proj1 (after_rest _ _ _ Hd)) M1) as [k2 A2]; [by rewrite <-after_app|].
    exists k2. rewrite after_app. by eapply ac_cat.
  - apply andb_true_iff in Hl as [Hla _]. destruct (IH Hla w d t k Hw Hd Hs He) as [k' H]. exists k'. by apply ac_left.
  - apply andb_true_iff in Hl as [_ Hlb]. destruct (IH Hlb w d t k Hw Hd Hs He) as [k' H]. exists k'. by apply ac_right.
  - eexists. constructor.
  - destruct (accepts_between _ _ _ _ _ Ha) as [w1 H1]. destruct (accepts_between _ _ _ _ _ Hb) as [w2 H2].
    assert (w = w1 +:+ w2) as -> by (eapply between_unique; [exact Hw | by eapply between_app]). rewrite string_app_assoc in Hd.
    destruct (alike_mid _ _ _ _ _ _ _ H1 H2 Hd Hs He) as [M1 M2].
    destruct (IHa Hl w1 d (w2 +:+ t) k H1 Hd Hs M2) as [k1 A1].
    destruct (IHb Hl w2 (after w1 d) t k1 H2 (proj1 (after_rest _ _ _ Hd)) M1) as [k2 A2]; [by rewrite <-after_app|].
    exists k2. rewrite after_app. eapply ac_more; [exact A1 | | exact A2].
    rewrite (proj2 (after_rest _ _ _ Hd)). pose proof (proj1 (between_len _ _ _ H1)). lia.
  - destruct (IH Hl w d t k Hw Hd Hs He) as [k' H]. eexists. by apply ac_group.
  - exists k. apply (ac_line_start d). by rewrite <-Hs.
  - exists k. apply (ac_line_end d). by rewrite <-Hc.
Qed.

(** ** Whole lines *)

Definition whole_line (r : regex) : Prop := forall c g c' g', accepts r c g c' g' ->
  line_start c = true /\ line_end c' = true /\ exists w, between w c c' /\ all_in re_dot w = true /\ w <> "".

Lemma whole_line_consumes r : whole_line r -> consumes r.
Proof. intros H c g c' g' (_ & _ & w & [Hl _]%between_len & _ & Hne)%H. destruct w; [done|]. cbn in Hl. lia. Qed.

Definition ends_line (t : string) : Prop := nl_or_end (match t with String x _ => Some x | EmptyString => None end) = true.

Lemma line_prefix w : forall l s t, w +:+ s = l +:+ t -> all_in re_dot w = true -> all_in re_dot l = true -> ends_line s -> ends_line t -> w = l.
Proof.
  induction w as [|x w IH]; intros [|y l] s t E Hw Hl Hs Ht; try done.
  - change ("" +:+ s) with s in E. change (String y l +:+ t) with (String y (l +:+ t)) in E. rewrite E in Hs. unfold ends_line in Hs. cbn in Hs, Hl.
    apply andb_true_iff in Hl as [Hl _]. unfold re_dot in Hl. by rewrite Hs in Hl.
  - change ("" +:+ t) with t in E. change (String x w +:+ s) with (String x (w +:+ s)) in E. rewrite <-E in Ht. unfold ends_line in Ht. cbn in Ht, Hw.
    apply andb_true_iff in Hw as [Hw _]. unfold re_dot in Hw. by rewrite Ht in Hw.
  - change (String x (w +:+ s) = String y (l +:+ t)) in E. injection E as -> E. cbn [all_in] in Hw, Hl.
    apply andb_true_iff in Hw as [_ Hw], Hl as [_ Hl]. f_equal. by eapply IH.
Qed.

(** Inside a line no line starts. *)
Lemma inside_line w : all_in re_dot w = true -> w <> "" -> forall c, line_start (after w c) = false.
Proof.
  intros Hw Hne c. destruct w as [|x w]; [done|]. clear Hne. revert x c Hw. induction w as [|y w IH]; intros x c Hw.
  - cbn [all_in] in Hw. apply andb_true_iff in Hw as [Hx _]. unfold re_dot in Hx. apply negb_true_iff in Hx. cbn. by rewrite Hx.
  - cbn [all_in] in Hw. apply andb_true_iff in Hw as [_ Hw]. exact (IH y (after (String x "") c) Hw).
Qed.

Section WholeLines.
Context (r : regex) (Hloc : local r = true) (Hwl : whole_line r).

(** The pattern matches the line [l]. *)
Definition line_match (l : string) : bool := match match_at r (start_of l) with Some _ => true | None => false end.

Lemma line_end_of c l t : cu_rest c = l +:+ t -> ends_line t -> line_end (after l c) = true.
Proof using. intros E Ht. unfold line_end, cu_next. by rewrite (proj1 (after_rest _ _ _ E)). Qed.

Lemma line_accepts c l t c' g g' : cu_rest c = l +:+ t -> all_in re_dot l = true -> ends_line t -> accepts r c g c' g' -> c' = after l c.
Proof using Hwl.
  intros E Hl Ht H. destruct (Hwl _ _ _ _ H) as (_ & He & w & (s & Es & ->) & Hw & _).
  assert (w = l) as ->; [|done]. eapply line_prefix; [by rewrite <-Es, <-E | done | done | | done].
  unfold line_end, cu_next in He. by rewrite (proj1 (after_rest _ _ _ Es)) in He.
Qed.

Lemma line_match_at c l t : cu_rest c = l +:+ t -> all_in re_dot l = true -> ends_line t -> line_start c = true ->
  line_match l = true <-> matches_at r c.
Proof using Hloc Hwl.
  intros E Hl Ht Hs. assert (l = l +:+ "") as El by (by rewrite string_app_nil). assert (line_end (after l (start_of l)) = true) as He0 by (by eapply (line_end_of _ _ "")).
  unfold line_match. split.
  - destruct (match_at r (start_of l)) as [m|] eqn:Em; [|done]. intros _. apply match_at_Some in Em as (c' & H & _).
    pose proof (line_accepts (start_of l) l "" _ _ _ El Hl eq_refl H) as ->.
    destruct (accepts_moved _ _ _ _ _ H Hloc l c t [] ltac:(by exists "") E) as [g' H']; [by rewrite Hs | by rewrite He0, (line_end_of _ _ _ E Ht)|].
    by exists (after l c), g'.
  - intros (c' & g' & H). pose proof (line_accepts _ _ _ _ _ _ E Hl Ht H) as ->.
    destruct (accepts_moved _ _ _ _ _ H Hloc l (start_of l) "" [] ltac:(by exists t) El) as [g2 H']; [by rewrite Hs | by rewrite He0, (line_end_of _ _ _ E Ht)|].
    destruct (match_at r (start_of l)) eqn:Em; [done|]. apply match_at_None in Em. destruct Em. by eexists _, _.
Qed.

Lemma no_match_end c fuel prev : cu_rest c = "" -> find_all_go r fuel prev c = [].
Proof using Hwl.
  intros E. destruct fuel as [|fuel]; [done|]. cbn [find_all_go]. rewrite E. cbn [find_from].
  destruct (match_at r _) as [m|] eqn:Em; [|done]. apply match_at_Some in Em as (c' & H & _).
  destruct (Hwl _ _ _ _ H) as (_ & _ & w & (s & Es & _) & _ & Hne). by destruct w.
Qed.

Lemma find_line fuel prev c l t : cu_rest c = l +:+ t -> all_in re_dot l = true -> ends_line t -> line_start c = true -> line_match l = true ->
  l <> "" /\ exists m, rm_start m = cu_off c /\ rm_end m = cu_off (after l c) /\
    find_all_go r (S fuel) prev c = m :: find_all_go r fuel (Some (rm_end m)) (after l c).
Proof using Hloc Hwl.
  intros E Hl Ht Hs Hm. apply (line_match_at c l t E Hl Ht Hs) in Hm. destruct (match_at r c) as [m|] eqn:Em; [|by apply match_at_None in Em].
  pose proof Em as Em'. apply match_at_Some in Em' as (c' & H & Hst & Hen). pose proof (line_accepts _ _ _ _ _ _ E Hl Ht H) as ->.
  pose proof (whole_line_consumes r Hwl _ _ _ _ H) as Hlt. destruct (after_rest _ _ _ E) as [_ Lo].
  split; [intros ->; cbn in Hlt; lia|]. exists m. split_and!; [done..|]. cbn [find_all_go].
  assert (find_from r (cu_before c) (cu_rest c) (cu_off c) = Some m) as ->.
  { replace (match_at r c) with (match_at r (mkCur (cu_before c) (cu_rest c) (cu_off c))) in Em by (by destruct c). destruct (cu_rest c); cbn [find_from]; by rewrite Em. }
  rewrite (proj2 (Nat.eqb_neq _ _)) by lia. f_equal. f_equal. rewrite Hen, Lo.
  replace (_ + _ - _)%nat with (String.length l) by lia. by eapply advance_after.
Qed.

(** No match begins inside a line. *)
Lemma no_match_inside c l s w c1 : cu_rest c = l +:+ s -> all_in re_dot l = true -> between w c c1 -> w <> "" ->
  (String.length w <= String.length l)%nat -> ~ matches_at r c1.
Proof using Hwl.
  intros E Hl (s1 & E1 & ->) Hne Hlen (c' & g' & H). destruct (Hwl _ _ _ _ H) as (Hs & _).
  rewrite inside_line in Hs; [done | | done]. rewrite E in E1. clear -E1 Hl Hlen. revert l E1 Hl Hlen.
  induction w as [|x w IH]; intros [|y l] E Hl Hlen; try done; [cbn in Hlen; lia|].
  change (String y (l +:+ s) = String x (w +:+ s1)) in E. injection E as -> E. cbn [all_in] in *. apply andb_true_iff in Hl as [-> Hl].
  cbn. apply (IH l E Hl). cbn in Hlen. lia.
Qed.

Variable h : string -> string.

Definition new_line (l : string) : string := if line_match l then h l else l.

Lemma unlines_cons l ls : ls <> [] -> unlines (l :: ls) = l +:+ String newline (unlines ls).
Proof using. by destruct ls. Qed.

Lemma lines_go text n : forall a c fuel prev, (String.length (cu_rest c) <= n)%nat -> between a (start_of text) c -> line_start c = true ->
  (String.length (cu_rest c) < fuel)%nat ->
  splice text (cu_off c) (find_all_go r fuel prev c) (fun m => h (match_text text m)) = unlines (new_line <$> split_on newline (cu_rest c)).
Proof using Hloc Hwl.
  pose proof (whole_line_consumes r Hwl) as Hcons. set (f := fun m => h (match_text text m)).
  induction n as [n IH] using lt_wf_ind. intros a c fuel prev Hn Ha Hs Hf.
  destruct (split_line (cu_rest c)) as (l & t & Hl & E & Ht). assert (ends_line t) as Het by (destruct Ht as [[-> _]|(s' & -> & _)]; done).
  assert (between l c (after l c)) as Hlc by (by exists t). pose proof (between_app _ _ _ _ _ Ha Hlc) as Hal.
  destruct (after_rest _ _ _ E) as [Rl Ol].
  (* the rest of the text from the end of the line *)
  assert (forall fuel prev, (String.length t < fuel)%nat -> (l <> "" \/ ~ matches_at r (after l c)) ->
    splice text (cu_off (after l c)) (find_all_go r fuel prev (after l c)) f =
    match t with String _ s' => String newline (unlines (new_line <$> split_on newline s')) | EmptyString => "" end) as Htail.
  { intros fuel' prev' Hf' Hne. destruct Ht as [[-> _]|(s' & -> & _)].
    - rewrite no_match_end by done. cbn [splice]. by rewrite (drop_rest _ _ _ Hal).
    - assert (~ matches_at r (after l c)) as Hno.
      { destruct Hne as [Hne|]; [|done]. by eapply no_match_inside. }
      rewrite (find_all_skip r Hcons _ _ _ _ _ Rl Hno).
      assert (between (String newline "") (after l c) (after (String newline "") (after l c))) as Hnl by (by exists s').
      destruct (after_rest (String newline "") _ _ Rl) as [Rn On].
      rewrite (splice_skip text (a +:+ l) (String newline "") _ s' _ _ Hal Rl); [|].
      2: { intros m Hm%find_all_start; [|done]. rewrite On in Hm. cbn in *. lia. }
      change (String newline "" +:+ ?z) with (String newline z). f_equal.
      rewrite E, string_length_app in Hn. cbn [String.length] in Hn, Hf'.
      rewrite (IH (String.length s') ltac:(lia) ((a +:+ l) +:+ String newline "") (after (String newline "") (after l c)));
        [by rewrite Rn | by rewrite Rn | exact (between_app _ _ _ _ _ Hal Hnl) | done | rewrite Rn; lia]. }
  assert (unlines (new_line <$> split_on newline (cu_rest c)) = new_line l +:+
    match t with String _ s' => String newline (unlines (new_line <$> split_on newline s')) | EmptyString => "" end) as ->.
  { destruct Ht as [[-> ->]|(s' & -> & ->)]; [by rewrite string_app_nil|]. cbn [fmap list_fmap]. apply unlines_cons.
    intros H%fmap_nil_inv. by apply split_nonempty in H. }
  rewrite E, string_length_app in Hf. unfold new_line at 1. destruct (line_match l) eqn:Em.
  - destruct fuel as [|fuel]; [lia|]. destruct (find_line fuel prev c l t E Hl Het Hs Em) as (Hne & m & H1 & H2 & ->).
    cbn [splice]. rewrite H1. assert (span_text text (cu_off c) (cu_off c) = "") as -> by (eapply span_between; [exact Ha | apply between_nil]).
    assert (f m = h l) as -> by (unfold f, match_text; by rewrite H1, H2, (span_between _ _ _ _ _ Ha Hlc)).
    rewrite H2. change ("" +:+ ?z) with z. f_equal. apply Htail; [|by left]. destruct l; [done|]. cbn in Hf. lia.
  - assert (forall w1 c1, between w1 c c1 -> (String.length w1 <= String.length l)%nat -> ~ matches_at r c1) as Hno.
    { intros w1 c1 H1 Hlen. destruct (decide (w1 = "")) as [->|Hne]; [|by eapply no_match_inside].
      destruct H1 as (_ & _ & ->). intros Hm. apply (line_match_at c l t E Hl Het Hs) in Hm. congruence. }
    rewrite (find_all_skips r Hcons l _ _ _ _ E) by (intros w1 c1 H1 Hlt; eapply Hno; [exact H1 | lia]).
    rewrite (splice_skip text a l c t _ _ Ha E).
    + f_equal. apply Htail; [lia|]. right. by eapply Hno.
    + intros m Hm%find_all_start; [|done]. rewrite Ol in Hm. lia.
Qed.

(** Replacing the matches of a pattern of whole lines is a map on lines. *)
Lemma replace_all_lines text : replace_all r text (fun m => h (match_text text m)) = unlines (new_line <$> split_on newline text).
Proof using Hloc Hwl. apply (lines_go text (String.length text) "" (start_of text)); cbn; [done | apply between_nil | done | lia]. Qed.
End WholeLines.
