(* ===== verification/Layout.v ===== *)
(** * Argument layout of the two calling conventions

    Models src/internal/lower/goabi_layout.go, goargs.go and the register sets and
    bracket scanners of goabi_parse.go: where Go's ABIInternal and the C ABI put
    each scalar of a signature.  A [bank] is the string "int" or "float" of the
    source, a [loc] the struct of the same name.  A [(value, reason)] result is a
    [res reason]; an index out of range is the reason [Panic], which the theorems
    show is never reached.  Type texts are ASCII, so [TrimSpace] only meets ASCII
    white space. *)

From Stdlib Require Import ZArith Lia Ascii.
From stdpp Require Import base list strings gmap.
From S2P Require Import Prelude.

Inductive reason := Reason (s : string) | Panic.

(** ** Text *)

Definition is_space (c : ascii) : bool :=
  let n := byte_of_ascii c in (n =? 32) || ((9 <=? n) && (n <=? 13)).

Fixpoint drop_spaces (l : list ascii) : list ascii :=
  match l with
  | c :: l' => if is_space c then drop_spaces l' else l
  | [] => []
  end.

(** [strings.TrimSpace] *)
Definition TrimSpace (s : string) : string :=
  String.string_of_list_ascii (reverse (drop_spaces (reverse (drop_spaces (String.list_ascii_of_string s))))).

(** [strings.Fields] *)
Fixpoint fields_go (cur : string) (s : string) : list string :=
  match s with
  | EmptyString => if String.eqb cur "" then [] else [cur]
  | String c s =>
      if is_space c then (if String.eqb cur "" then [] else [cur]) ++ fields_go "" s
      else fields_go (cur +:+ String c "") s
  end.
Definition Fields (s : string) : list string := fields_go "" s.

Definition HasPrefix (s p : string) : bool := String.prefix p s.

Definition HasSuffix (s p : string) : bool :=
  (String.length p <=? String.length s)%nat &&
  String.eqb (String.substring (String.length s - String.length p) (String.length p) s) p.

Definition is_open (c : ascii) : bool :=
  Ascii.eqb c "("%char || Ascii.eqb c "["%char || Ascii.eqb c "{"%char || Ascii.eqb c "<"%char.

(** The map [pairs]: the opening bracket of a closing one. *)
Definition open_of (c : ascii) : option ascii :=
  if Ascii.eqb c ")"%char then Some "("%char
  else if Ascii.eqb c "]"%char then Some "["%char
  else if Ascii.eqb c "}"%char then Some "{"%char
  else if Ascii.eqb c ">"%char then Some "<"%char
  else None.

(** The bracket stack after a character. *)
Definition bracket_step (stack : list ascii) (c : ascii) : list ascii :=
  if is_open c then c :: stack
  else match open_of c, stack with
       | Some o, t :: stack' => if Ascii.eqb t o then stack' else stack
       | _, _ => stack
       end.

(** [splitTopLevel]: [cur] is [text[start:i]]. *)
Fixpoint split_go (stack : list ascii) (cur : string) (text : string) : list string :=
  match text with
  | EmptyString => let tail := TrimSpace cur in if String.eqb tail "" then [] else [tail]
  | String c text =>
      if Ascii.eqb c ","%char && (if stack then true else false)
      then TrimSpace cur :: split_go stack "" text
      else split_go (bracket_step stack c) (cur +:+ String c "") text
  end.

Definition splitTopLevel (text : string) : list string := split_go [] "" text.

(** [matchingParen]: the index of the parenthesis that closes the one at
    [opening], [None] for -1. *)
Fixpoint paren_go (text : string) (i depth : Z) : option Z :=
  match text with
  | EmptyString => None
  | String c text =>
      if Ascii.eqb c "("%char then paren_go text (i + 1) (depth + 1)
      else if Ascii.eqb c ")"%char then
        if depth - 1 =? 0 then Some i else paren_go text (i + 1) (depth - 1)
      else paren_go text (i + 1) depth
  end.

Definition matchingParen (text : string) (opening : nat) : option Z :=
  paren_go (String.substring opening (String.length text - opening) text) (Z.of_nat opening) 0.

(** ** Register sets *)

Record abiSet := mkAbi {
  a_arch : string; a_goInt : list string; a_goFloat : list string; a_sysvInt : list string;
  a_sysvFloat : list string; a_sysvIntResult : list string; a_sysvFloatResult : list string }.

(** [fmt.Sprintf(p+"%d", i)] for [i] from 0 to [n-1]. *)
Definition numbered (p : string) (n : nat) : list string :=
  (fun i => p +:+ dec (Z.of_nat i)) <$> seq 0 n.

Definition abiFor (arch : string) : res reason abiSet :=
  let arch := if String.eqb arch "" then "amd64" else arch in
  if negb (String.eqb arch "amd64") && negb (String.eqb arch "arm64")
  then Fail (Reason ("arch must be amd64 or arm64, got " +:+ arch))
  else if String.eqb arch "arm64" then
    Ok (mkAbi arch (numbered "x" 16) (numbered "d" 16) (numbered "x" 8) (numbered "d" 8)
          ["x0"; "x1"] ["d0"; "d1"])
  else
    Ok (mkAbi arch ["rax"; "rbx"; "rcx"; "rdi"; "rsi"; "r8"; "r9"; "r10"; "r11"]
          (numbered "xmm" 15) ["rdi"; "rsi"; "rdx"; "rcx"; "r8"; "r9"] (numbered "xmm" 8)
          ["rax"; "rdx"] ["xmm0"; "xmm1"]).

(** ** Scalars *)

Inductive bank := BInt | BFloat.

#[export] Instance bank_eq_dec : EqDecision bank.
Proof. solve_decision. Defined.

Record scalarInfo := mkScalar { si_bank : bank; si_size : Z; si_align : Z }.

Definition is_digit (c : ascii) : bool := let n := byte_of_ascii c in (48 <=? n) && (n <=? 57).

Fixpoint all_digits (s : string) : bool :=
  match s with EmptyString => true | String c s => is_digit c && all_digits s end.

(** The submatch of [intTypeRE], [^i([0-9]+)$]. *)
Definition int_type (ty : string) : option string :=
  match ty with
  | String c ds =>
      if Ascii.eqb c "i"%char && negb (String.eqb ds "") && all_digits ds then Some ds else None
  | EmptyString => None
  end.

Fixpoint atoi_go (n : Z) (s : string) : Z :=
  match s with
  | EmptyString => n
  | String c s => atoi_go (s64 (n * 10 + (byte_of_ascii c - 48))) s
  end.

Definition atoi (s : string) : Z := atoi_go 0 s.

Definition intWidths (bits : Z) : bool :=
  (bits =? 1) || (bits =? 8) || (bits =? 16) || (bits =? 32) || (bits =? 64).

Definition scalar (ty : string) : option scalarInfo :=
  if String.eqb ty "ptr" then Some (mkScalar BInt 8 8)
  else if String.eqb ty "float" then Some (mkScalar BFloat 4 4)
  else if String.eqb ty "double" then Some (mkScalar BFloat 8 8)
  else
    match int_type ty with
    | None => None
    | Some ds =>
        let bits := atoi ds in
        if negb (intWidths bits) then None
        else let size := if bits =? 1 then 1 else Z.quot bits 8 in Some (mkScalar BInt size size)
    end.

Definition alignUp (value alignment : Z) : Z := Z.land (value + alignment - 1) (- alignment).

(** ** Aggregates *)

Record fieldLay := mkField { fl_Type : string; fl_Bank : bank; fl_Size : Z; fl_Offset : Z }.
Record aggLay := mkAgg { ag_Fields : list fieldLay; ag_Size : Z; ag_Alignment : Z }.

(** The loop over the fields: the laid fields, the end offset and the alignment. *)
Fixpoint lay_fields (offset structAlign : Z) (fields : list string)
    : res reason (list fieldLay * Z * Z) :=
  match fields with
  | [] => Ok ([], offset, structAlign)
  | ty :: fields =>
      match scalar ty with
      | None => Fail (Reason ("aggregate field type " +:+ ty +:+ " is outside the supported scalar subset"))
      | Some info =>
          let offset := alignUp offset (si_align info) in
          '(laid, end_, al) ← lay_fields (offset + si_size info)
            (if structAlign <? si_align info then si_align info else structAlign) fields;
          Ok (mkField ty (si_bank info) (si_size info) offset :: laid, end_, al)
      end
  end.

Definition crosses (f : fieldLay) : bool :=
  negb (fl_Offset f / 8 =? (fl_Offset f + fl_Size f - 1) / 8).

(** The loop over [eight] with the map [seen]. *)
Fixpoint repeats (seen : gset Z) (eight : list Z) : bool :=
  match eight with
  | [] => false
  | e :: eight => if bool_decide (e ∈ seen) then true else repeats ({[ e ]} ∪ seen) eight
  end.

Definition aggregateLayout (ty purpose : string) (returnLimit : bool) : res reason (option aggLay) :=
  if HasPrefix ty "<{" then Fail (Reason ("packed aggregate " +:+ purpose +:+ " layouts are unsupported"))
  else if negb (HasPrefix ty "{" && HasSuffix ty "}") then Ok None
  else
    let body := TrimSpace (String.substring 1 (String.length ty - 2) ty) in
    let fields := if String.eqb body "" then [] else splitTopLevel body in
    match fields with
    | [] => Fail (Reason ("empty aggregate " +:+ purpose +:+ " is unsupported"))
    | _ =>
        '(laid, offset, structAlign) ← lay_fields 0 1 fields;
        let size := alignUp offset structAlign in
        if returnLimit && (16 <? size)
        then Fail (Reason ("aggregate return is " +:+ dec size +:+ " bytes; SysV register returns are limited to 16 bytes (larger results require sret)"))
        else if existsb crosses laid
        then Fail (Reason ("aggregate " +:+ purpose +:+ " field crosses an eightbyte boundary"))
        else if repeats ∅ ((fun f => fl_Offset f / 8) <$> laid)
        then Fail (Reason ("aggregate " +:+ purpose +:+ " packs several fields into one eightbyte"))
        else Ok (Some (mkAgg laid size structAlign))
    end.

(** ** Go types *)

Definition goType (ty : string) (attrs : list string) (aggregateField : bool) : string :=
  if String.eqb ty "ptr" then "unsafe.Pointer"
  else if String.eqb ty "float" then "float32"
  else if String.eqb ty "double" then "float64"
  else
    match int_type ty with
    | None => ""
    | Some ds =>
        let bits := atoi ds in
        if bits =? 1 then "bool"
        else if aggregateField then "uint" +:+ dec bits
        else (if existsb (String.eqb "zeroext") attrs then "uint" else "int") +:+ ds
    end.

Definition goParamType (ty : string) (attrs : list string) : string :=
  match scalar ty with
  | Some _ => goType ty attrs false
  | None =>
      match aggregateLayout ty "parameter" false with
      | Ok (Some agg) =>
          let fts := (fun f => goType (fl_Type f) [] true) <$> ag_Fields agg in
          if existsb (String.eqb "") fts then ""
          else "struct { " +:+
               join "; " (imap (fun i ft => "F" +:+ dec (Z.of_nat i) +:+ " " +:+ ft) fts) +:+ " }"
      | _ => ""
      end
  end.

(** ** Parameters *)

Inductive loc := RegLoc (r : string) | StkLoc (off : Z).

#[export] Instance loc_eq_dec : EqDecision loc.
Proof. solve_decision. Defined.

Record asg := mkAsg { as_Type : string; as_Go : loc; as_SysV : loc }.

#[export] Instance asg_eq_dec : EqDecision asg.
Proof. solve_decision. Defined.

Record assignResult := mkAssign {
  ar_Params : list asg; ar_GoStackSize : Z; ar_SysVStackSize : Z }.

(** [l[i]] *)
Definition index (l : list string) (i : nat) : res reason string :=
  match l !! i with Some r => Ok r | None => Fail Panic end.

(** The counters of one side: integer and float registers used, stack bytes. *)
Record side := mkSide { sd_int : nat; sd_float : nat; sd_stack : Z }.

(** The fields of an aggregate in registers, one bank each. *)
Fixpoint place_regs (ints floats : list string) (s : side) (fields : list fieldLay)
    : res reason (list loc * side) :=
  match fields with
  | [] => Ok ([], s)
  | f :: fields =>
      match fl_Bank f with
      | BInt =>
          r ← index ints (sd_int s);
          '(locs, s') ← place_regs ints floats (mkSide (S (sd_int s)) (sd_float s) (sd_stack s)) fields;
          Ok (RegLoc r :: locs, s')
      | BFloat =>
          r ← index floats (sd_float s);
          '(locs, s') ← place_regs ints floats (mkSide (sd_int s) (S (sd_float s)) (sd_stack s)) fields;
          Ok (RegLoc r :: locs, s')
      end
  end.

Definition needInt (agg : aggLay) : nat := length (filter (fun f => fl_Bank f = BInt) (ag_Fields agg)).
Definition needFloat (agg : aggLay) : nat := (length (ag_Fields agg) - needInt agg)%nat.

Definition fits (ints floats : list string) (s : side) (agg : aggLay) : bool :=
  (sd_int s + needInt agg <=? length ints)%nat && (sd_float s + needFloat agg <=? length floats)%nat.

Definition go_aggregate (a : abiSet) (s : side) (agg : aggLay) : res reason (list loc * side) :=
  if fits (a_goInt a) (a_goFloat a) s agg then place_regs (a_goInt a) (a_goFloat a) s (ag_Fields agg)
  else
    let base := alignUp (sd_stack s) (ag_Alignment agg) in
    Ok ((fun f => StkLoc (base + fl_Offset f)) <$> ag_Fields agg,
        mkSide (sd_int s) (sd_float s) (base + ag_Size agg)).

Definition c_aggregate (a : abiSet) (s : side) (agg : aggLay) : res reason (list loc * side) :=
  if (ag_Size agg <=? 16) && fits (a_sysvInt a) (a_sysvFloat a) s agg
  then place_regs (a_sysvInt a) (a_sysvFloat a) s (ag_Fields agg)
  else
    let base := alignUp (sd_stack s) 8 in
    Ok ((fun f => StkLoc (base + fl_Offset f)) <$> ag_Fields agg,
        mkSide (sd_int s) (sd_float s) (base + alignUp (ag_Size agg) 8)).

(** A scalar's register, if its bank has one left. *)
Definition scalar_reg (ints floats : list string) (s : side) (b : bank) : option (loc * side) :=
  match b with
  | BInt => if (sd_int s <? length ints)%nat
            then (fun r => (RegLoc r, mkSide (S (sd_int s)) (sd_float s) (sd_stack s))) <$> ints !! sd_int s
            else None
  | BFloat => if (sd_float s <? length floats)%nat
              then (fun r => (RegLoc r, mkSide (sd_int s) (S (sd_float s)) (sd_stack s)))
                     <$> floats !! sd_float s
              else None
  end.

Definition go_scalar (a : abiSet) (s : side) (info : scalarInfo) : loc * side :=
  match scalar_reg (a_goInt a) (a_goFloat a) s (si_bank info) with
  | Some r => r
  | None =>
      let off := alignUp (sd_stack s) (Z.min (si_align info) 8) in
      (StkLoc off, mkSide (sd_int s) (sd_float s) (off + si_size info))
  end.

Definition c_scalar (a : abiSet) (s : side) (info : scalarInfo) : loc * side :=
  match scalar_reg (a_sysvInt a) (a_sysvFloat a) s (si_bank info) with
  | Some r => r
  | None => (StkLoc (sd_stack s), mkSide (sd_int s) (sd_float s) (sd_stack s + 8))
  end.

(** One turn of the loop over [params]. *)
Definition assign_param (a : abiSet) (g c : side) (ty : string) : res reason (list asg * side * side) :=
  match scalar ty with
  | Some info =>
      let '(goL, g) := go_scalar a g info in
      let '(cL, c) := c_scalar a c info in
      Ok ([mkAsg ty goL cL], g, c)
  | None =>
      r ← aggregateLayout ty "parameter" false;
      match r with
      | Some agg =>
          '(goLocs, g) ← go_aggregate a g agg;
          '(cLocs, c) ← c_aggregate a c agg;
          Ok (zip_with (fun f '(gl, cl) => mkAsg (fl_Type f) gl cl) (ag_Fields agg) (zip goLocs cLocs),
              g, c)
      | None =>
          Fail (Reason
            (if HasPrefix ty "%" then
               "identified aggregate parameter type " +:+ ty +:+ " has no literal field layout and is unsupported"
             else if HasPrefix ty "{" || HasPrefix ty "<{" then
               "aggregate parameter type " +:+ ty +:+ " is unsupported"
             else "parameter type " +:+ ty +:+ " is outside the scalar subset"))
      end
  end.

Fixpoint assign_loop (a : abiSet) (g c : side) (params : list string) : res reason (list asg * side * side) :=
  match params with
  | [] => Ok ([], g, c)
  | ty :: params =>
      '(xs, g, c) ← assign_param a g c ty;
      '(ys, g, c) ← assign_loop a g c params;
      Ok (xs ++ ys, g, c)
  end.

Definition assignParams (a : abiSet) (params : list string) : res reason assignResult :=
  '(xs, g, c) ← assign_loop a (mkSide 0 0 0) (mkSide 0 0 0) params;
  Ok (mkAssign xs (alignUp (sd_stack g) 8) (sd_stack c)).

(** ** Results *)

Record resLoc := mkRes { rl_Type : string; rl_Location : loc }.

(** The registers of each field of an aggregate result. *)
Fixpoint place_results (a : abiSet) (ni nf : nat) (fields : list fieldLay)
    : res reason (list resLoc * list resLoc * list string) :=
  match fields with
  | [] => Ok ([], [], [])
  | f :: fields =>
      '(reg, sysvReg, ni, nf) ←
        match fl_Bank f with
        | BInt => reg ← index (a_goInt a) ni; sr ← index (a_sysvIntResult a) ni; Ok (reg, sr, S ni, nf)
        | BFloat =>
            reg ← index (a_goFloat a) nf; sr ← index (a_sysvFloatResult a) nf; Ok (reg, sr, ni, S nf)
        end;
      '(gs, ss, ts) ← place_results a ni nf fields;
      Ok (mkRes (fl_Type f) (RegLoc reg) :: gs, mkRes (fl_Type f) (RegLoc sysvReg) :: ss,
          fl_Type f :: ts)
  end.

Definition returnAssignment (a : abiSet) (ret : string)
    : res reason (list resLoc * list resLoc * list string) :=
  if String.eqb ret "void" then Ok ([], [], [])
  else
    match scalar ret with
    | Some info =>
        r0 ← index (a_goInt a) 0;
        reg ← (match si_bank info with BInt => Ok r0 | BFloat => index (a_goFloat a) 0 end);
        Ok ([mkRes ret (RegLoc reg)], [mkRes ret (RegLoc reg)], [])
    | None =>
        r ← aggregateLayout ret "return" true;
        match r with
        | Some agg => place_results a 0 0 (ag_Fields agg)
        | None =>
            Fail (Reason
              (if HasPrefix ret "{" || HasPrefix ret "<{" then
                 "aggregate return type " +:+ ret +:+ " is unsupported"
               else if HasPrefix ret "%" then
                 "identified aggregate return type " +:+ ret +:+ " has no literal field layout and is unsupported"
               else "return type " +:+ ret +:+ " is outside the supported result subset"))
        end
    end.

Definition outgoingBytes (stackSize : Z) : res reason Z :=
  if (stackSize <? 0) || negb (Z.rem stackSize 8 =? 0)
  then Fail (Reason ("stack argument area " +:+ dec stackSize +:+ " is not a multiple of 8"))
  else Ok (Z.land (stackSize + 15) (Z.lnot 15)).

(** ** Signatures *)

Record abiParam := mkParam { ap_Type : string; ap_Location : loc }.

Record abiSide := mkAbiSide {
  ab_Params : list abiParam; ab_Results : list resLoc; ab_StackArgsSize : Z }.

Record sigPlan := mkPlan {
  pl_Go : abiSide; pl_SysV : abiSide; pl_GoSignature : string;
  pl_ResultMoves : list (string * string); pl_Outgoing : Z }.

(** The parsed header of an LLVM function ([llFunc]). *)
Record llFunc := mkLL {
  ll_Name : string; ll_Ret : string; ll_RetAttrs : list string; ll_RetABI : list string;
  ll_Params : list string; ll_ParamAttrs : list (list string); ll_ParamABI : list (list string);
  ll_Varargs : bool; ll_Internal : bool; ll_NonC : bool }.

(** [l.Location.Reg]: empty for a stack location. *)
Definition loc_reg (l : loc) : string := match l with RegLoc r => r | StkLoc _ => "" end.

Fixpoint result_moves (ss gs : list resLoc) : list (string * string) :=
  match ss, gs with
  | s :: ss, g :: gs =>
      let src := loc_reg (rl_Location s) in
      let dst := loc_reg (rl_Location g) in
      if String.eqb src dst then result_moves ss gs else (src, dst) :: result_moves ss gs
  | _, _ => []
  end.

(** The Go types of the parameters; [None] when one has none. *)
Fixpoint go_params (params : list string) (attrs : list (list string)) : res reason (list string) :=
  match params with
  | [] => Ok []
  | ty :: params =>
      match attrs with
      | [] => Fail Panic
      | at_ :: attrs =>
          let t := goParamType ty at_ in
          if String.eqb t "" then Fail (Reason "a parameter has no supported Go-facing type")
          else ts ← go_params params attrs; Ok (t :: ts)
      end
  end.

Definition analyzeSignature (a : abiSet) (d : llFunc) : res reason sigPlan :=
  if HasPrefix (ll_Name d) "llvm." then Fail (Reason "LLVM intrinsics are not C entrypoints")
  else if ll_Internal d then Fail (Reason "file-local functions are not Go-callable")
  else if ll_Varargs d then Fail (Reason "variadic functions are unsupported")
  else if ll_NonC d then Fail (Reason "non-C LLVM calling conventions are unsupported")
  else if existsb (fun l => negb (bool_decide (l = []))) (ll_ParamABI d)
  then Fail (Reason "ABI-changing LLVM parameter attributes are unsupported")
  else if negb (bool_decide (ll_RetABI d = []))
  then Fail (Reason "ABI-changing LLVM return attributes are unsupported")
  else if String.eqb (ll_Ret d) "" then Fail (Reason "LLVM return type could not be parsed")
  else
    assigned ← assignParams a (ll_Params d);
    '(goResults, sysvResults, resultTypes) ← returnAssignment a (ll_Ret d);
    goParams ← go_params (ll_Params d) (ll_ParamAttrs d);
    let goResultTypes :=
      match resultTypes with
      | [] => if String.eqb (ll_Ret d) "void" then [] else [goType (ll_Ret d) (ll_RetAttrs d) false]
      | _ => (fun ty => goType ty [] true) <$> resultTypes
      end in
    if existsb (String.eqb "") goResultTypes
    then Fail (Reason "the result has no supported Go-facing type")
    else
      let signature := "func " +:+ ll_Name d +:+ "(" +:+ join ", " goParams +:+ ")" in
      let signature :=
        match goResultTypes with
        | [] => signature
        | [t] => signature +:+ " " +:+ t
        | _ => signature +:+ " (" +:+ join ", " goResultTypes +:+ ")"
        end in
      out ← outgoingBytes (ar_SysVStackSize assigned);
      Ok (mkPlan
        (mkAbiSide ((fun p => mkParam (as_Type p) (as_Go p)) <$> ar_Params assigned) goResults
           (ar_GoStackSize assigned))
        (mkAbiSide ((fun p => mkParam (as_Type p) (as_SysV p)) <$> ar_Params assigned) sysvResults
           (ar_SysVStackSize assigned))
        signature (result_moves sysvResults goResults) out).

(** ** The Go argument area (goargs.go) *)

Record argSpill := mkArgSpill { sp_Reg : string; sp_Off : Z; sp_Size : Z; sp_Ptr : bool }.

(** The map [sizes]. *)
Definition spill_sizes (ty : string) : option Z :=
  if String.eqb ty "ptr" then Some 8 else if String.eqb ty "float" then Some 4
  else if String.eqb ty "double" then Some 8 else if String.eqb ty "i1" then Some 1
  else if String.eqb ty "i8" then Some 1 else if String.eqb ty "i16" then Some 2
  else if String.eqb ty "i32" then Some 4 else if String.eqb ty "i64" then Some 8 else None.

Fixpoint args_loop (off : Z) (params : list abiParam) : res reason (list argSpill * list Z * Z) :=
  match params with
  | [] => Ok ([], [], off)
  | p :: params =>
      match ap_Location p with
      | StkLoc o =>
          '(spills, ptrs, off) ← args_loop off params;
          Ok (spills, if String.eqb (ap_Type p) "ptr" then o :: ptrs else ptrs, off)
      | RegLoc r =>
          match spill_sizes (ap_Type p) with
          | None => Fail (Reason ("realbody: FATAL Go argument type " +:+ ap_Type p +:+ " has no spill size"))
          | Some size =>
              let off := Z.land (off + size - 1) (- size) in
              '(spills, ptrs, end_) ← args_loop (off + size) params;
              Ok (mkArgSpill r (8 + off) size (String.eqb (ap_Type p) "ptr") :: spills, ptrs, end_)
          end
      end
  end.

Definition goArgsLayout (info : abiSide) : res reason (list argSpill * list Z * Z) :=
  '(spills, ptrs, off) ← args_loop (ab_StackArgsSize info) (ab_Params info);
  Ok (spills, ptrs, Z.land (off + 7) (-8)).
