(* ===== verification/Toolchain.v ===== *)
(** * The tools goc runs

    Models src/internal/toolchain/toolchain.go: where the tools of a tree are, the check
    that they are there, and the environment they run in. *)

From Stdlib Require Import ZArith Lia Ascii.
From stdpp Require Import base list strings gmap sorting.
From S2P Require Import Prelude Text World Layout.

Record Tools := mkTools {
  t_Root : string; t_Include : string; t_Clang : string; t_LibDir : string; t_Opt : string; t_MC : string; t_LLC : string; t_Passes : string }.

(** [Root]: from the path of the running binary, links resolved. *)
Definition Root (exe : string) : string := Dir (Dir exe).

Section Tree.
Variable h : host.

Definition IsRelease (root : string) : bool := h_exists h (path_join [root; "passes"; "goc-llc"]).

Definition no_clang : string :=
  "no patched clang next to goc." +:+ String "010"%char ("Download a release: https://github.com/LoyieKing/goc/releases" +:+
  String "010"%char "Or build the package: docs/build-from-source.md").

Definition clang_places (root : string) : list string :=
  [path_join [root; "bin"; "clang"]; path_join [root; "third_party"; "llvm-19.1.7-clang-build"; "bin"; "clang"]].

Definition Locate (root : string) : res string Tools :=
  match list_find (fun c => h_isExec h c = true) (clang_places root) with
  | None => Fail no_clang
  | Some (_, clang) =>
      match h_realpath h clang with
      | None => Fail (h_noent h clang)
      | Some real =>
          let bin := Dir real in
          let passes := if IsRelease root then [root; "passes"] else [root; "build"; "llvm"] in
          Ok (mkTools root (path_join [root; "include"]) clang (path_join [Dir bin; "lib"]) (path_join [bin; "opt"]) (path_join [bin; "llvm-mc"])
                (path_join (passes ++ ["goc-llc"])) (path_join (passes ++ ["libGocPasses.so"])))
      end
  end.

Definition LDPATH : string := "LD_LIBRARY_PATH=".

(** The variables other than LD_LIBRARY_PATH, and the value of the last of those. *)
Definition env_step (s : list string * string) (kv : string) : list string * string :=
  match after_prefix LDPATH kv with Some v => (fst s, v) | None => (fst s ++ [kv], snd s) end.

Definition Env (t : Tools) (env : list string) : list string :=
  if negb (h_isDir h (t_LibDir t)) then env
  else
    let '(out, cur) := foldl env_step ([], "") env in
    if existsb (String.eqb (t_LibDir t)) (split_on ":"%char cur) then out ++ [LDPATH +:+ cur]
    else if String.eqb cur "" then out ++ [LDPATH +:+ t_LibDir t]
    else out ++ [LDPATH +:+ t_LibDir t +:+ ":" +:+ cur].

(** The first word of each line of [ldd] that says "not found". *)
Definition missing_libs (out : string) : list string :=
  omap (fun l => if contains "not found" l then Fields l !! 0%nat else None) (split_on "010"%char out).

Definition needed (t : Tools) : list (string * string * string) :=
  [(t_Opt t, "opt", "See docs/build-from-source.md."); (t_MC t, "llvm-mc", "See docs/build-from-source.md.");
   (t_LLC t, "goc-llc", "Run scripts/build-passes.sh.")].

Definition Require (root : string) : io Tools :=
  t ← lift (Locate root);
  match list_find (fun '(p, _, _) => h_isExec h p = false) (needed t) with
  | Some (_, (p, what, fix_)) => fail (what +:+ " missing (" +:+ p +:+ "). " +:+ fix_)
  | None =>
      if negb (h_exists h (t_Passes t)) then fail ("libGocPasses.so missing (" +:+ t_Passes t +:+ "). Run scripts/build-passes.sh.")
      else fun w =>
        match run_call h (mkCall "ldd" [t_LLC t] (Env t (h_environ h))) w with
        | (Fail _, w) => (Ok t, w)
        | (Ok out, w) =>
            match missing_libs out with
            | [] => (Ok t, w)
            | l => (Fail ("LLVM libraries not loaded (" +:+ join " " (merge_sort str_le l) +:+
                     "). The clang lib dir is on LD_LIBRARY_PATH; libLLVM does not match these passes."), w)
            end
        end
  end.

End Tree.

(** ** The environment of the tools

    [ld_values] are the values of LD_LIBRARY_PATH in an environment, [others] its other
    variables; of several values the last counts. *)
Definition ld_values (env : list string) : list string := omap (after_prefix LDPATH) env.
Definition others (env : list string) : list string := filter (fun kv => after_prefix LDPATH kv = None) env.
Definition ld_path (env : list string) : list string := split_on ":"%char (default "" (last (ld_values env))).

Lemma ld_values_snoc env kv : ld_values (env ++ [kv]) = ld_values env ++ match after_prefix LDPATH kv with Some v => [v] | None => [] end.
Proof. unfold ld_values. rewrite omap_app. cbn. by destruct (after_prefix LDPATH kv). Qed.

Lemma others_snoc env kv : others (env ++ [kv]) = others env ++ match after_prefix LDPATH kv with Some _ => [] | None => [kv] end.
Proof. unfold others. rewrite filter_app. f_equal. destruct (after_prefix LDPATH kv) eqn:E; [by rewrite filter_cons_False by congruence | by rewrite filter_cons_True]. Qed.

Lemma env_steps env : foldl env_step ([], "") env = (others env, default "" (last (ld_values env))).
Proof.
  induction env as [|kv env IH] using rev_ind; [done|]. rewrite foldl_app, IH, others_snoc, ld_values_snoc. cbn [foldl]. unfold env_step.
  destruct (after_prefix LDPATH kv) as [v|]; [by rewrite last_snoc, app_nil_r | by rewrite app_nil_r].
Qed.

Lemma others_none env : ld_values (others env) = [].
Proof.
  induction env as [|kv env IH] using rev_ind; [done|]. rewrite others_snoc. destruct (after_prefix LDPATH kv) as [v|] eqn:E; [by rewrite app_nil_r|].
  by rewrite ld_values_snoc, E, app_nil_r.
Qed.

Lemma others_idem env : others (others env) = others env.
Proof. unfold others. rewrite list_filter_filter_l; [done|]. auto. Qed.

Lemma split_on_empty d s : split_on d s = [""] -> s = "".
Proof.
  destruct s as [|c s]; [done|]. cbn [split_on]. case (Ascii.eqb c d); [|by destruct (split_on d s)].
  destruct s as [|e s]; [done|]. cbn [split_on]. case (Ascii.eqb e d); [done|]. by destruct (split_on d s).
Qed.

Lemma env_shape env v (l := others env ++ [LDPATH +:+ v]) : others l = others env /\ ld_values l = [v].
Proof. subst l. rewrite others_snoc, ld_values_snoc, after_prefix_app, others_none, others_idem. by rewrite app_nil_r. Qed.

(** The environment of the tools: when the clang tree has its lib directory (and its
    path holds no colon), every other variable stays as it was, LD_LIBRARY_PATH occurs
    exactly once, every directory that was in force is still on it in the same order, and
    lib is on it: in front when it had not been on it.  Without that directory the
    environment is unchanged. *)
Theorem Env_spec h t env : lacks ":" (t_LibDir t) = true ->
  if h_isDir h (t_LibDir t) then
    others (Env h t env) = others env /\ length (ld_values (Env h t env)) = 1%nat /\ t_LibDir t ∈ ld_path (Env h t env) /\
    (if decide (t_LibDir t ∈ ld_path env) then ld_path (Env h t env) = ld_path env
     else ld_path (Env h t env) = t_LibDir t :: (if decide (ld_path env = [""]) then [] else ld_path env))
  else Env h t env = env.
Proof.
  intros L. unfold Env. destruct (h_isDir h (t_LibDir t)); [|done]. cbn [negb]. rewrite env_steps.
  set (cur := default "" (last (ld_values env))). change (ld_path env) with (split_on ":" cur). destruct (existsb _ _) eqn:Ex.
  - apply existsb_exists in Ex as (x & Hx & <-%String.eqb_eq). apply list_elem_of_In in Hx. destruct (env_shape env cur) as [-> Hl].
    unfold ld_path. rewrite Hl. cbn [last default id]. by rewrite decide_True by done.
  - assert (Hn : t_LibDir t ∉ split_on ":" cur).
    { intros Hx%list_elem_of_In. apply eq_true_false_abs with (2 := Ex). apply existsb_exists. exists (t_LibDir t). by rewrite String.eqb_refl. }
    rewrite decide_False by done. destruct (String.eqb_spec cur "") as [Ec|Ec].
    + destruct (env_shape env (t_LibDir t)) as [-> Hl]. unfold ld_path. rewrite Hl. cbn [last default id]. rewrite split_on_lacks by done.
      rewrite decide_True by by rewrite Ec. split_and!; [done | done | apply list_elem_of_singleton; done | done].
    + destruct (env_shape env (t_LibDir t +:+ ":" +:+ cur)) as [-> Hl]. unfold ld_path. rewrite Hl. cbn [last default id].
      rewrite (split_on_app ":" (t_LibDir t) cur L : split_on ":" (t_LibDir t +:+ ":" +:+ cur) = _).
      rewrite decide_False by (intros He; apply Ec; by eapply split_on_empty). split_and!; [done | done | by left | done].
Qed.

Definition demo_tools : Tools := mkTools "/g" "/g/include" "/g/bin/clang" "/g/lib" "/g/bin/opt" "/g/bin/llvm-mc" "/g/passes/goc-llc" "/g/passes/libGocPasses.so".
Definition demo_host : host :=
  mkHost (fun _ f => (Ok "", f)) (fun _ => true) (fun _ => true) (fun _ => true) (fun _ => true) Some [] (fun p => "no file " +:+ p) (fun _ => true) (fun p => Ok ("/tmp/" +:+ p)) None 1.

Example Env_spec_witness : Env demo_host demo_tools ["A=1"; "LD_LIBRARY_PATH=/x:/y"; "B=2"] = ["A=1"; "B=2"; "LD_LIBRARY_PATH=/g/lib:/x:/y"] /\
  others ["A=1"; "B=2"; "LD_LIBRARY_PATH=/g/lib:/x:/y"] = ["A=1"; "B=2"].
Proof.
  pose proof (Env_spec demo_host demo_tools ["A=1"; "LD_LIBRARY_PATH=/x:/y"; "B=2"] ltac:(reflexivity)) as H. split; [reflexivity|]. exact (proj1 H).
Defined.

(** The documentation of [Env] says that lib is first; a directory that is already on the
    path keeps its place, so another libLLVM before it stays before it. *)
Example Env_keeps_order : Env demo_host demo_tools ["LD_LIBRARY_PATH=/usr/lib/llvm:/g/lib"] = ["LD_LIBRARY_PATH=/usr/lib/llvm:/g/lib"].
Proof. reflexivity. Qed.

(** [Require] changes no file when [ldd] changes none. *)
Lemma Require_keeps h root f : (forall c g, cl_bin c = "ldd" -> snd (h_exec h c g) = g) -> keeps (fun w => wo_fs w = f) (Require h root).
Proof.
  intros Hx. apply keeps_bind; [auto with io|]. intros t. destruct (list_find _ _) as [[? [[p what] fx]]|]; [auto with io|].
  destruct (negb _); [auto with io|]. intros w Hw. unfold run_call. specialize (Hx (mkCall "ldd" [t_LLC t] (Env h t (h_environ h))) (wo_fs w) eq_refl).
  destruct (h_exec h _ _) as [[out|e] g]; cbn in *; [|by subst]. destruct (missing_libs out); cbn; by subst.
Qed.
