(* ===== verification/LayoutProofs.v ===== *)
(** * Properties of the argument layout

    The theorems on the definitions of Layout: aggregates are laid out like C
    structs, no two arguments share a register or stack bytes on either side, no
    index is out of range, and the spill area of register arguments is well
    formed. *)

From Stdlib Require Import ZArith Lia Ascii.
From stdpp Require Import base list strings gmap.
From S2P Require Import Prelude Layout.

(** ** Alignment *)

Definition is_align (a : Z) : Prop := a = 1 \/ a = 2 \/ a = 4 \/ a = 8.

Lemma land_neg_pow2 v k : 0 <= k -> Z.land v (- 2 ^ k) = v / 2 ^ k * 2 ^ k.
Proof.
  intros Hk. replace (- 2 ^ k) with (Z.lnot (Z.ones k)) by (rewrite Z.ones_equiv; unfold Z.lnot; lia).
  rewrite <-Z.ldiff_land, Z.ldiff_ones_r, Z.shiftl_mul_pow2, Z.shiftr_div_pow2 by done. done.
Qed.

Lemma align_pow2 a : is_align a -> exists k, 0 <= k /\ a = 2 ^ k.
Proof. intros [->|[->|[->| ->]]]; [exists 0|exists 1|exists 2|exists 3]; lia. Qed.

Lemma alignUp_spec v a : is_align a -> (a | alignUp v a) /\ v <= alignUp v a < v + a.
Proof.
  intros Ha. destruct (align_pow2 a Ha) as (k & Hk & ->). unfold alignUp.
  rewrite land_neg_pow2 by done. split; [apply Z.divide_factor_r|].
  pose proof (Z.pow_pos_nonneg 2 k). pose proof (Z.div_mod (v + 2 ^ k - 1) (2 ^ k)).
  pose proof (Z.mod_pos_bound (v + 2 ^ k - 1) (2 ^ k)). nia.
Qed.

Lemma alignUp_fix v a : is_align a -> (a | v) -> alignUp v a = v.
Proof.
  intros Ha [k ->]. destruct (alignUp_spec (k * a) a Ha) as [[j ->] H].
  assert (0 < a) by (destruct Ha as [->|[->|[->| ->]]]; lia). f_equal. nia.
Qed.

Lemma align_divide a b : is_align a -> is_align b -> a <= b -> (a | b).
Proof.
  intros [->|[->|[->| ->]]] [->|[->|[->| ->]]] H; try lia;
    first [by exists 1 | by exists 2 | by exists 4 | by exists 8].
Qed.

Lemma scalar_align ty info : scalar ty = Some info -> is_align (si_align info) /\ si_size info = si_align info.
Proof.
  unfold scalar, is_align. repeat case_bool; intros H; simplify_eq/=; [auto 6..|].
  destruct (int_type ty) as [ds|]; [|done]. unfold intWidths in H.
  destruct (Z.eqb_spec (atoi ds) 1) as [E|]; [rewrite E in H; simplify_eq/=; auto|].
  destruct (Z.eqb_spec (atoi ds) 8) as [E|]; [rewrite E in H; simplify_eq/=; auto|].
  destruct (Z.eqb_spec (atoi ds) 16) as [E|]; [rewrite E in H; simplify_eq/=; auto|].
  destruct (Z.eqb_spec (atoi ds) 32) as [E|]; [rewrite E in H; simplify_eq/=; auto|].
  destruct (Z.eqb_spec (atoi ds) 64) as [E|]; [rewrite E in H; simplify_eq/=; auto|]. done.
Qed.

(** ** Aggregates *)

(** Slots of [(offset, size)] in order, inside [lo, hi). *)
Fixpoint slots_in (lo hi : Z) (l : list (Z * Z)) : Prop :=
  match l with
  | [] => lo <= hi
  | (o, n) :: l => lo <= o /\ slots_in (o + n) hi l
  end.

Definition field_ok (f : fieldLay) : Prop :=
  exists info, scalar (fl_Type f) = Some info /\ fl_Bank f = si_bank info /\
    fl_Size f = si_size info /\ (si_align info | fl_Offset f).

Definition field_slot (f : fieldLay) : Z * Z := (fl_Offset f, fl_Size f).

Record agg_ok (agg : aggLay) : Prop := {
  ok_fields : Forall field_ok (ag_Fields agg);
  ok_ne : ag_Fields agg <> [];
  ok_slots : slots_in 0 (ag_Size agg) (field_slot <$> ag_Fields agg);
  ok_align : is_align (ag_Alignment agg);
  ok_size : (ag_Alignment agg | ag_Size agg);
  ok_max : Forall (fun f => fl_Size f <= ag_Alignment agg) (ag_Fields agg);
  ok_eight : NoDup ((fun f => fl_Offset f / 8) <$> ag_Fields agg);
  ok_cross : Forall (fun f => fl_Offset f / 8 = (fl_Offset f + fl_Size f - 1) / 8) (ag_Fields agg) }.

Lemma slots_in_weaken l : forall lo hi hi', hi <= hi' -> slots_in lo hi l -> slots_in lo hi' l.
Proof.
  induction l as [|[o n] l IH]; simpl; intros lo hi hi' Hh; [lia|]. intros [H1 H2]. eauto.
Qed.

Lemma slots_in_lo l : forall lo lo' hi, lo' <= lo -> slots_in lo hi l -> slots_in lo' hi l.
Proof. destruct l as [|[o n] l]; simpl; intros; [lia|]. destruct_and!. split; [lia|done]. Qed.

Lemma lay_fields_ok fields : forall off al laid end_ al',
  lay_fields off al fields = Ok (laid, end_, al') -> is_align al ->
  Forall field_ok laid /\ slots_in off end_ (field_slot <$> laid) /\ is_align al' /\ al <= al' /\
  Forall (fun f => fl_Size f <= al') laid /\ fl_Type <$> laid = fields.
Proof.
  induction fields as [|ty fields IH]; intros off al laid end_ al' H Hal; simpl in H.
  { simplify_eq. split_and!; simpl; try done; try lia; constructor. }
  destruct (scalar ty) as [info|] eqn:Es; [|done].
  destruct (scalar_align _ _ Es) as [Ha Hsz].
  set (al1 := if al <? si_align info then si_align info else al) in *.
  assert (is_align al1 /\ al <= al1 /\ si_align info <= al1) as (Hal1 & Hle & Hle').
  { unfold al1. destruct (Z.ltb_spec al (si_align info)); split_and!; try done; lia. }
  destruct (lay_fields _ al1 fields) as [[[laid' e'] a']|] eqn:E; [|done]. simpl in H. simplify_eq.
  destruct (IH _ _ _ _ _ E Hal1) as (H1 & H2 & H3 & H4 & H5 & H6).
  pose proof (alignUp_spec off _ Ha) as [Hd Hr]. split_and!; simpl; try done; try lia.
  - constructor; [|done]. by exists info.
  - split; [lia|done].
  - constructor; [simpl; lia|done].
  - f_equal. exact H6.
Qed.

Lemma repeats_false eight : forall seen,
  repeats seen eight = false -> NoDup eight /\ forall e, e ∈ eight -> e ∉ seen.
Proof.
  induction eight as [|e eight IH]; intros seen H; simpl in H; [split; [constructor | set_solver]|].
  case_bool_decide; [done|]. destruct (IH _ H) as [Hn Hs]. split; [|set_solver].
  constructor; [|done]. intros He. apply (Hs e He). set_solver.
Qed.

Lemma aggregateLayout_ok ty purpose lim agg :
  aggregateLayout ty purpose lim = Ok (Some agg) -> agg_ok agg /\ (lim = true -> ag_Size agg <= 16).
Proof.
  unfold aggregateLayout. destruct (HasPrefix ty "<{"); [done|].
  destruct (negb (HasPrefix ty "{" && HasSuffix ty "}")); [done|]. cbv zeta.
  set (fields := if String.eqb _ _ then _ else _). clearbody fields.
  destruct fields as [|f fs]; [done|].
  destruct (lay_fields 0 1 (f :: fs)) as [[[laid off] al]|] eqn:El; [|done]. cbn [mbind res_bind].
  destruct (lay_fields_ok _ _ _ _ _ _ El) as (H1 & H2 & H3 & H4 & H5 & H6); [by left|].
  destruct (lim && (16 <? alignUp off al)) eqn:Elim; [done|].
  destruct (existsb crosses laid) eqn:Ec; [done|].
  destruct (repeats ∅ _) eqn:Er; [done|]. intros [= <-]. split; cycle 1.
  { intros ->. simpl in *. by apply Z.ltb_ge in Elim. }
  destruct (alignUp_spec off al H3) as [Hd Hr]. split; simpl; try done.
  - by destruct laid.
  - eapply slots_in_weaken; [|exact H2]. lia.
  - by apply repeats_false in Er as [Hn _].
  - apply Forall_forall. intros x Hx. destruct (decide (fl_Offset x / 8 = (fl_Offset x + fl_Size x - 1) / 8)) as [|Hne]; [done|].
    assert (existsb crosses laid = true); [|congruence]. apply existsb_exists. exists x.
    split; [by apply list_elem_of_In|]. unfold crosses. apply negb_true_iff. by apply Z.eqb_neq.
Qed.

Lemma slots_in_le l : forall lo hi, Forall (fun s => 0 <= snd s) l -> slots_in lo hi l -> lo <= hi.
Proof.
  induction l as [|[o n] l IH]; simpl; intros lo hi Hp; [done|]. inversion Hp; subst. simpl in *.
  intros [? Hx]. specialize (IH _ _ ltac:(done) Hx). lia.
Qed.

(** A slot of an ordered list lies inside it, after the earlier ones. *)
Lemma slots_in_elem l : forall lo hi o n,
  Forall (fun s => 0 <= snd s) l -> slots_in lo hi l -> (o, n) ∈ l -> lo <= o /\ o + n <= hi.
Proof.
  induction l as [|[o' n'] l IH]; intros lo hi o n Hp; simpl; [set_solver|].
  inversion Hp as [|?? Hn Hp']; subst. simpl in Hn.
  intros [H1 H2] [[= -> ->]|Hin]%elem_of_cons.
  - split; [done|]. by apply slots_in_le in H2.
  - destruct (IH _ _ _ _ Hp' H2 Hin). split; lia.
Qed.

Lemma slots_in_disjoint l : forall lo hi i j o n o' n',
  Forall (fun s => 0 <= snd s) l -> slots_in lo hi l -> (i < j)%nat ->
  l !! i = Some (o, n) -> l !! j = Some (o', n') -> o + n <= o'.
Proof.
  induction l as [|[a b] l IH]; intros lo hi i j o n o' n' Hp Hs Hij Hi Hj; [done|].
  destruct Hs as [H1 H2]. inversion Hp as [|?? Hb Hp']; subst.
  destruct j as [|j]; [lia|]. simpl in Hj. destruct i as [|i]; simpl in Hi.
  - simplify_eq. apply list_elem_of_lookup_2 in Hj. by eapply slots_in_elem in Hj as [? ?].
  - eapply IH; [done | exact H2 | | exact Hi | exact Hj]. lia.
Qed.

Lemma field_size_pos f : field_ok f -> 0 < fl_Size f.
Proof.
  intros (info & Hs & _ & -> & _). destruct (scalar_align _ _ Hs) as [Ha ->].
  destruct Ha as [->|[->|[->| ->]]]; lia.
Qed.

Lemma fields_nonneg fs : Forall field_ok fs -> Forall (fun s => 0 <= snd s) (field_slot <$> fs).
Proof.
  intros H. apply Forall_fmap. eapply Forall_impl; [exact H|]. intros f Hf. simpl.
  pose proof (field_size_pos f Hf). lia.
Qed.

(** Two eightbytes hold at most two fields. *)
Lemma agg_two agg : agg_ok agg -> ag_Size agg <= 16 -> (length (ag_Fields agg) <= 2)%nat.
Proof.
  intros [H1 _ H2 _ _ _ H3 _] Hs.
  assert ((fun f => fl_Offset f / 8) <$> ag_Fields agg ⊆ [0; 1]) as Hsub.
  { intros e (f & -> & Hf)%list_elem_of_fmap. rewrite Forall_forall in H1.
    destruct (slots_in_elem _ 0 (ag_Size agg) (fl_Offset f) (fl_Size f)
      (fields_nonneg _ (proj2 (Forall_forall _ _) H1)) H2) as [Hlo Hhi].
    { by apply (list_elem_of_fmap_2 field_slot). }
    pose proof (field_size_pos f (H1 f Hf)). assert (0 <= fl_Offset f / 8 < 2) by (zarith). set_unfold. lia. }
  pose proof (submseteq_length _ _ (NoDup_submseteq _ _ H3 Hsub)) as Hl. by rewrite length_fmap in Hl.
Qed.

(** ** One side of an assignment *)

Definition size_of (ty : string) : Z := default 0 (si_size <$> scalar ty).

(** The registers of a bank that a list of arguments uses, in order. *)
Definition same_bank (b b' : bank) : bool :=
  match b, b' with BInt, BInt | BFloat, BFloat => true | _, _ => false end.

Definition reg_of (b : bank) (x : string * loc) : option string :=
  match snd x, scalar (fst x) with
  | RegLoc r, Some info => if same_bank (si_bank info) b then Some r else None
  | _, _ => None
  end.
Definition regs_of (b : bank) (l : list (string * loc)) : list string := omap (reg_of b) l.

(** The stack slots, in order. *)
Definition slot_of (x : string * loc) : option (Z * Z) :=
  match snd x with StkLoc o => Some (o, size_of (fst x)) | RegLoc _ => None end.
Definition slots_of (l : list (string * loc)) : list (Z * Z) := omap slot_of l.

Definition arg_ok (x : string * loc) : Prop :=
  scalar (fst x) <> None /\ match snd x with StkLoc o => (size_of (fst x) | o) | RegLoc _ => True end.

(** The arguments placed so far use the first registers of each bank and slots
    below the stack mark. *)
Record side_inv (ints floats : list string) (s : side) (l : list (string * loc)) : Prop := {
  sn_int : regs_of BInt l = take (sd_int s) ints;
  sn_int_le : (sd_int s <= length ints)%nat;
  sn_float : regs_of BFloat l = take (sd_float s) floats;
  sn_float_le : (sd_float s <= length floats)%nat;
  sn_slots : slots_in 0 (sd_stack s) (slots_of l);
  sn_args : Forall arg_ok l }.

Lemma slots_in_app l k lo mid hi :
  slots_in lo mid l -> slots_in mid hi k -> slots_in lo hi (l ++ k).
Proof.
  revert lo. induction l as [|[o n] l IH]; intros lo; simpl.
  - intros H1 H2. by eapply slots_in_lo.
  - intros [H1 H2] H3. auto.
Qed.

Lemma slots_in_shift l b : forall lo hi,
  slots_in lo hi l -> slots_in (lo + b) (hi + b) ((fun s => (b + s.1, s.2)) <$> l).
Proof.
  induction l as [|[o n] l IH]; intros lo hi; simpl; [lia|]. intros [H1 H2]. split; [lia|].
  specialize (IH _ _ H2). eapply slots_in_lo; [|exact IH]. lia.
Qed.

Lemma regs_of_app b l k : regs_of b (l ++ k) = regs_of b l ++ regs_of b k.
Proof. apply omap_app. Qed.

Lemma slots_of_app l k : slots_of (l ++ k) = slots_of l ++ slots_of k.
Proof. apply omap_app. Qed.

Lemma regs_of_reg b ty info r :
  scalar ty = Some info -> regs_of b [(ty, RegLoc r)] = if same_bank (si_bank info) b then [r] else [].
Proof. intros H. unfold regs_of, reg_of. simpl. rewrite H. by destruct (same_bank _ _). Qed.

Section Side.
Variables (ints floats : list string).

Lemma side_int s l ty info r :
  side_inv ints floats s l -> scalar ty = Some info -> si_bank info = BInt -> ints !! sd_int s = Some r ->
  side_inv ints floats (mkSide (S (sd_int s)) (sd_float s) (sd_stack s)) (l ++ [(ty, RegLoc r)]).
Proof.
  intros [H1 H2 H3 H4 H5 H6] Hs Hb Hr.
  split; cbn [sd_int sd_float sd_stack]; rewrite ?regs_of_app, ?slots_of_app, ?(regs_of_reg _ _ _ _ Hs), ?Hb;
    cbn [same_bank]; rewrite ?app_nil_r; try done.
  - erewrite take_S_r by done. by f_equal.
  - apply lookup_lt_Some in Hr. lia.
  - apply Forall_app. split; [done|]. apply Forall_singleton. split; simpl; [congruence|done].
Qed.

Lemma side_float s l ty info r :
  side_inv ints floats s l -> scalar ty = Some info -> si_bank info = BFloat ->
  floats !! sd_float s = Some r ->
  side_inv ints floats (mkSide (sd_int s) (S (sd_float s)) (sd_stack s)) (l ++ [(ty, RegLoc r)]).
Proof.
  intros [H1 H2 H3 H4 H5 H6] Hs Hb Hr.
  split; cbn [sd_int sd_float sd_stack]; rewrite ?regs_of_app, ?slots_of_app, ?(regs_of_reg _ _ _ _ Hs), ?Hb;
    cbn [same_bank]; rewrite ?app_nil_r; try done.
  - erewrite take_S_r by done. by f_equal.
  - apply lookup_lt_Some in Hr. lia.
  - apply Forall_app. split; [done|]. apply Forall_singleton. split; simpl; [congruence|done].
Qed.

(** Any list of stack arguments above the mark. *)
Lemma side_stack s l k hi :
  side_inv ints floats s l -> Forall arg_ok k -> (forall x, x ∈ k -> exists o, snd x = StkLoc o) ->
  slots_in (sd_stack s) hi (slots_of k) ->
  side_inv ints floats (mkSide (sd_int s) (sd_float s) hi) (l ++ k).
Proof.
  intros [H1 H2 H3 H4 H5 H6] Hk Hst Hsl.
  assert (forall b, regs_of b k = []) as Hr.
  { intros b. unfold regs_of. clear -Hst. induction k as [|x k IH]; [done|]. simpl.
    destruct (Hst x) as [o Ho]; [set_solver|]. unfold reg_of at 1. rewrite Ho. apply IH. set_solver. }
  split; cbn [sd_int sd_float sd_stack]; rewrite ?regs_of_app, ?slots_of_app, ?Hr, ?app_nil_r; try done.
  - by eapply slots_in_app.
  - by apply Forall_app.
Qed.

Definition nint (fs : list fieldLay) : nat := length (filter (fun f => fl_Bank f = BInt) fs).

Lemma place_regs_ok fs : forall s l,
  Forall field_ok fs -> side_inv ints floats s l ->
  (sd_int s + nint fs <= length ints)%nat -> (sd_float s + (length fs - nint fs) <= length floats)%nat ->
  exists locs s', place_regs ints floats s fs = Ok (locs, s') /\ length locs = length fs /\
    sd_stack s' = sd_stack s /\ side_inv ints floats s' (l ++ zip (fl_Type <$> fs) locs).
Proof.
  induction fs as [|f fs IH]; intros s l Hok Hinv Hi Hf.
  { exists [], s. by rewrite app_nil_r. }
  inversion Hok as [|?? Hf1 Hok']; subst. pose proof Hf1 as (info & Hs & Hb & Hsz & Hd). simpl.
  unfold nint in *. rewrite filter_cons in Hi, Hf.
  pose proof (length_filter (fun f => fl_Bank f = BInt) fs) as Hle.
  destruct (fl_Bank f) eqn:Eb; [rewrite decide_True in Hi, Hf by done | rewrite decide_False in Hi, Hf by done];
    simpl in Hi, Hf.
  - destruct (lookup_lt_is_Some_2 ints (sd_int s)) as [r Hr]; [lia|].
    unfold index. rewrite Hr. simpl.
    destruct (IH (mkSide (S (sd_int s)) (sd_float s) (sd_stack s)) (l ++ [(fl_Type f, RegLoc r)]))
      as (locs & s' & -> & Hlen & Hst & Hin); simpl; try done; try lia; [by eapply side_int|].
    exists (RegLoc r :: locs), s'. rewrite <-app_assoc in Hin. simpl. split_and!; try done. lia.
  - destruct (lookup_lt_is_Some_2 floats (sd_float s)) as [r Hr]; [lia|].
    unfold index. rewrite Hr. simpl.
    destruct (IH (mkSide (sd_int s) (S (sd_float s)) (sd_stack s)) (l ++ [(fl_Type f, RegLoc r)]))
      as (locs & s' & -> & Hlen & Hst & Hin); simpl; try done; try lia; [by eapply side_float|].
    exists (RegLoc r :: locs), s'. rewrite <-app_assoc in Hin. simpl. split_and!; try done. lia.
Qed.
End Side.

Lemma scalar_reg_ok ints floats s l ty info lc s' :
  side_inv ints floats s l -> scalar ty = Some info ->
  scalar_reg ints floats s (si_bank info) = Some (lc, s') ->
  sd_stack s' = sd_stack s /\ side_inv ints floats s' (l ++ [(ty, lc)]).
Proof.
  intros Hinv Hs. unfold scalar_reg. destruct (si_bank info) eqn:Eb; case_bool; try done;
    intros (r & Hr & [= -> ->])%fmap_Some; (split; [done|]); [by eapply side_int | by eapply side_float].
Qed.

Lemma side_one ints floats s l ty info o hi :
  side_inv ints floats s l -> scalar ty = Some info -> sd_stack s <= o -> (si_size info | o) ->
  o + si_size info <= hi ->
  side_inv ints floats (mkSide (sd_int s) (sd_float s) hi) (l ++ [(ty, StkLoc o)]).
Proof.
  intros Hinv Hs Hlo Hd Hhi. assert (size_of ty = si_size info) as Hsz by (unfold size_of; by rewrite Hs).
  apply side_stack; [done | | |].
  - apply Forall_singleton. split; simpl; [congruence | by rewrite Hsz].
  - intros x ->%list_elem_of_singleton. by exists o.
  - simpl. rewrite Hsz. lia.
Qed.

Lemma go_scalar_ok a s l ty info lc s' :
  side_inv (a_goInt a) (a_goFloat a) s l -> scalar ty = Some info -> go_scalar a s info = (lc, s') ->
  side_inv (a_goInt a) (a_goFloat a) s' (l ++ [(ty, lc)]).
Proof.
  intros Hinv Hs. unfold go_scalar.
  destruct (scalar_reg _ _ _ _) as [[lc0 s0]|] eqn:E.
  - intros [= -> ->]. by eapply scalar_reg_ok in E as [_ ?].
  - intros [= <- <-]. destruct (scalar_align _ _ Hs) as [Ha Hsz].
    assert (Z.min (si_align info) 8 = si_align info) as ->
      by (destruct Ha as [->|[->|[->| ->]]]; lia).
    destruct (alignUp_spec (sd_stack s) _ Ha) as [Hd Hr].
    eapply side_one; [done | done | lia | by rewrite Hsz | lia].
Qed.

Lemma c_scalar_ok a s l ty info lc s' :
  side_inv (a_sysvInt a) (a_sysvFloat a) s l -> (8 | sd_stack s) -> scalar ty = Some info ->
  c_scalar a s info = (lc, s') ->
  side_inv (a_sysvInt a) (a_sysvFloat a) s' (l ++ [(ty, lc)]) /\ (8 | sd_stack s').
Proof.
  intros Hinv H8 Hs. unfold c_scalar.
  destruct (scalar_reg _ _ _ _) as [[lc0 s0]|] eqn:E.
  - intros [= -> ->]. eapply scalar_reg_ok in E as [-> ?]; done.
  - intros [= <- <-]. destruct (scalar_align _ _ Hs) as [Ha Hsz].
    assert (si_size info <= 8 /\ (si_size info | 8)) as [Hle Hd].
    { rewrite Hsz. assert (si_align info <= 8) by (destruct Ha as [->|[->|[->| ->]]]; lia).
      split; [done|]. apply align_divide; [done | unfold is_align; lia | done]. }
    split; [eapply side_one; [done | done | lia | by etransitivity | simpl; lia]|].
    simpl. apply Z.divide_add_r; [done | by exists 1].
Qed.

(** An aggregate on the stack. *)
Definition agg_stack (agg : aggLay) (base : Z) : list loc :=
  (fun f => StkLoc (base + fl_Offset f)) <$> ag_Fields agg.

Lemma agg_stack_ok ints floats s l agg base hi :
  agg_ok agg -> side_inv ints floats s l -> sd_stack s <= base ->
  Forall (fun f => (fl_Size f | base)) (ag_Fields agg) -> base + ag_Size agg <= hi ->
  side_inv ints floats (mkSide (sd_int s) (sd_float s) hi)
    (l ++ zip (fl_Type <$> ag_Fields agg) (agg_stack agg base)).
Proof.
  intros [Hf _ Hsl _ _ _ _ _] Hinv Hlo Hd Hhi.
  assert (zip (fl_Type <$> ag_Fields agg) (agg_stack agg base) =
    (fun f => (fl_Type f, StkLoc (base + fl_Offset f))) <$> ag_Fields agg) as ->.
  { unfold agg_stack. clear. induction (ag_Fields agg) as [|f fs IH]; [done|]. simpl. f_equal. exact IH. }
  apply side_stack; [done | | |].
  - apply Forall_fmap. rewrite Forall_forall in Hf, Hd. apply Forall_forall. intros f Hin.
    destruct (Hf f Hin) as (info & Hs & _ & Hsz & Ho). destruct (scalar_align _ _ Hs) as [_ Hal].
    split; simpl; [congruence|]. unfold size_of. rewrite Hs. simpl.
    apply Z.divide_add_r; [rewrite <-Hsz; by apply Hd | by rewrite Hal].
  - intros x (f & -> & _)%list_elem_of_fmap. by eexists.
  - assert (slots_of ((fun f => (fl_Type f, StkLoc (base + fl_Offset f))) <$> ag_Fields agg) =
      (fun s => (base + s.1, s.2)) <$> (field_slot <$> ag_Fields agg)) as ->.
    { clear -Hf. unfold slots_of. induction Hf as [|f fs (info & Hs & _ & Hsz & _) _ IH]; [done|]. simpl.
      unfold slot_of at 1. simpl. f_equal; [|exact IH]. unfold size_of. rewrite Hs, Hsz. done. }
    eapply slots_in_lo; [|eapply slots_in_weaken; [|apply slots_in_shift, Hsl]]; lia.
Qed.

Lemma go_aggregate_ok a s l agg :
  agg_ok agg -> side_inv (a_goInt a) (a_goFloat a) s l ->
  exists locs s', go_aggregate a s agg = Ok (locs, s') /\ length locs = length (ag_Fields agg) /\
    side_inv (a_goInt a) (a_goFloat a) s' (l ++ zip (fl_Type <$> ag_Fields agg) locs).
Proof.
  intros Hok Hinv. unfold go_aggregate, fits, needFloat, needInt. case_bool.
  - bool_simp. rewrite Nat.leb_le in *.
    destruct (place_regs_ok (a_goInt a) (a_goFloat a) (ag_Fields agg) s l) as (locs & s' & -> & ? & _ & ?);
      [apply Hok | done | done | done | eauto].
  - destruct (alignUp_spec (sd_stack s) _ (ok_align _ Hok)) as [Hd Hr].
    eexists _, _. split; [done|]. split; [by rewrite length_fmap|]. apply agg_stack_ok; [done | done | lia | | simpl; lia].
    pose proof (ok_fields _ Hok) as Hf. pose proof (ok_max _ Hok) as Hm. rewrite Forall_forall in Hf, Hm.
    apply Forall_forall. intros f Hin. destruct (Hf f Hin) as (info & Hs & _ & Hsz & _).
    destruct (scalar_align _ _ Hs) as [Ha Hal]. etransitivity; [|exact Hd].
    apply align_divide; [by rewrite Hsz, Hal | apply Hok | by apply Hm].
Qed.

Lemma c_aggregate_ok a s l agg :
  agg_ok agg -> side_inv (a_sysvInt a) (a_sysvFloat a) s l -> (8 | sd_stack s) ->
  exists locs s', c_aggregate a s agg = Ok (locs, s') /\ length locs = length (ag_Fields agg) /\
    side_inv (a_sysvInt a) (a_sysvFloat a) s' (l ++ zip (fl_Type <$> ag_Fields agg) locs) /\
    (8 | sd_stack s').
Proof.
  intros Hok Hinv H8. assert (is_align 8) as H8a by (unfold is_align; lia).
  unfold c_aggregate, fits, needFloat, needInt. case_bool.
  - bool_simp. rewrite Nat.leb_le in *.
    destruct (place_regs_ok (a_sysvInt a) (a_sysvFloat a) (ag_Fields agg) s l) as (locs & s' & -> & ? & Hst & ?);
      [apply Hok | done | done | done |]. eexists _, _. split_and!; [done | done | done | by rewrite Hst].
  - rewrite alignUp_fix by done. destruct (alignUp_spec (ag_Size agg) 8 H8a) as [Hd Hr].
    eexists _, _. split; [done|]. split; [by rewrite length_fmap|]. split.
    + apply agg_stack_ok; [done | done | lia | | simpl; lia].
      pose proof (ok_fields _ Hok) as Hf. rewrite Forall_forall in Hf.
      apply Forall_forall. intros f Hin. destruct (Hf f Hin) as (info & Hs & _ & Hsz & _).
      destruct (scalar_align _ _ Hs) as [Ha Hal]. etransitivity; [|exact H8].
      apply align_divide; [by rewrite Hsz, Hal | done | rewrite Hsz, Hal; destruct Ha as [->|[->|[->| ->]]]; lia].
    + simpl. by apply Z.divide_add_r.
Qed.

(** ** All parameters *)

Definition go_args (xs : list asg) : list (string * loc) := (fun x => (as_Type x, as_Go x)) <$> xs.
Definition c_args (xs : list asg) : list (string * loc) := (fun x => (as_Type x, as_SysV x)) <$> xs.

Lemma zip_asgs fs : forall gl cl, length gl = length fs -> length cl = length fs ->
  let xs := zip_with (fun f '(g, c) => mkAsg (fl_Type f) g c) fs (zip gl cl) in
  go_args xs = zip (fl_Type <$> fs) gl /\ c_args xs = zip (fl_Type <$> fs) cl.
Proof.
  induction fs as [|f fs IH]; intros [|g gl] [|c cl] Hg Hc; simplify_eq/=; [done|].
  destruct (IH gl cl ltac:(done) ltac:(done)) as [H1 H2]. unfold go_args, c_args in *.
  split; f_equal; [exact H1 | exact H2].
Qed.

Section Assign.
Variable a : abiSet.
Let go_inv := side_inv (a_goInt a) (a_goFloat a).
Let c_inv s l := side_inv (a_sysvInt a) (a_sysvFloat a) s l /\ (8 | sd_stack s).

Lemma assign_param_ok g c l k ty xs g' c' :
  go_inv g l -> c_inv c k -> assign_param a g c ty = Ok (xs, g', c') ->
  go_inv g' (l ++ go_args xs) /\ c_inv c' (k ++ c_args xs).
Proof.
  intros Hg [Hc H8]. unfold assign_param. destruct (scalar ty) as [info|] eqn:Es.
  - destruct (go_scalar a g info) as [gl g1] eqn:Eg. destruct (c_scalar a c info) as [cl c1] eqn:Ec.
    intros [= <- <- <-]. split; [by eapply go_scalar_ok | by eapply c_scalar_ok].
  - destruct (aggregateLayout ty "parameter" false) as [[agg|]|] eqn:E; try done. cbn [mbind res_bind].
    apply aggregateLayout_ok in E as [Hok _].
    destruct (go_aggregate_ok a g l agg Hok Hg) as (gl & g1 & -> & Lg & Ig).
    destruct (c_aggregate_ok a c k agg Hok Hc H8) as (cl & c1 & -> & Lc & Ic & H8').
    cbn [mbind res_bind]. intros [= <- <- <-].
    destruct (zip_asgs (ag_Fields agg) gl cl Lg Lc) as [-> ->]. done.
Qed.

Lemma assign_loop_ok ps : forall g c l k xs g' c',
  go_inv g l -> c_inv c k -> assign_loop a g c ps = Ok (xs, g', c') ->
  go_inv g' (l ++ go_args xs) /\ c_inv c' (k ++ c_args xs).
Proof.
  induction ps as [|ty ps IH]; intros g c l k xs g' c' Hg Hc; cbn [assign_loop].
  { intros [= <- <- <-]. by rewrite !app_nil_r. }
  destruct (assign_param a g c ty) as [[[ys g1] c1]|] eqn:E; [|done]. cbn [mbind res_bind].
  destruct (assign_loop a g1 c1 ps) as [[[zs g2] c2]|] eqn:E'; [|done]. intros [= <- <- <-].
  destruct (assign_param_ok _ _ _ _ _ _ _ _ Hg Hc E) as [Hg1 Hc1].
  destruct (IH _ _ _ _ _ _ _ Hg1 Hc1 E') as [Hg2 Hc2].
  unfold go_args, c_args in *. by rewrite !fmap_app, !app_assoc.
Qed.

Lemma side_inv_nil ints floats : side_inv ints floats (mkSide 0 0 0) [].
Proof. split; simpl; try done; try lia. Qed.

Lemma assignParams_ok ps r :
  assignParams a ps = Ok r -> exists g c,
    go_inv g (go_args (ar_Params r)) /\ c_inv c (c_args (ar_Params r)) /\
    ar_GoStackSize r = alignUp (sd_stack g) 8 /\ ar_SysVStackSize r = sd_stack c.
Proof.
  unfold assignParams. destruct (assign_loop a _ _ ps) as [[[xs g] c]|] eqn:E; [|done].
  intros [= <-]. exists g, c.
  apply (assign_loop_ok _ _ _ [] []) in E as [Hg Hc]; [done | apply side_inv_nil|].
  split; [apply side_inv_nil | by exists 0].
Qed.
End Assign.

(** No failure of the layout is a panic. *)
Lemma lay_fields_reason fields : forall off al, lay_fields off al fields <> Fail Panic.
Proof.
  induction fields as [|ty fields IH]; intros off al; simpl; [done|].
  destruct (scalar ty) as [info|]; [|done].
  destruct (lay_fields _ _ fields) as [[[? ?] ?]|e] eqn:E; [done|]. simpl. intros [= ->]. by apply IH in E.
Qed.

Lemma aggregateLayout_reason ty p lim : aggregateLayout ty p lim <> Fail Panic.
Proof.
  unfold aggregateLayout. destruct (HasPrefix ty "<{"); [done|].
  destruct (negb _); [done|]. cbv zeta. destruct (if String.eqb _ "" then _ else _); [done|].
  destruct (lay_fields 0 1 _) as [[[? ?] ?]|e] eqn:E; cbn [mbind res_bind].
  - repeat case_bool; done.
  - intros [= ->]. by apply lay_fields_reason in E.
Qed.

Lemma assign_loop_reason a ps : forall g c l k,
  side_inv (a_goInt a) (a_goFloat a) g l ->
  side_inv (a_sysvInt a) (a_sysvFloat a) c k -> (8 | sd_stack c) -> assign_loop a g c ps <> Fail Panic.
Proof.
  induction ps as [|ty ps IH]; intros g c l k Hg Hc H8; cbn [assign_loop]; [done|].
  destruct (assign_param a g c ty) as [[[ys g1] c1]|e] eqn:E; cbn [mbind res_bind].
  - destruct (assign_param_ok a g c l k ty ys g1 c1) as [Hg1 [Hc1 H81]]; [done..|].
    destruct (assign_loop a g1 c1 ps) as [[[zs g2] c2]|e'] eqn:E'; [done|].
    intros [= ->]. by eapply IH in E'.
  - intros [= ->]. unfold assign_param in E. destruct (scalar ty) as [info|].
    { by destruct (go_scalar a g info), (c_scalar a c info). }
    destruct (aggregateLayout ty "parameter" false) as [[agg|]|e] eqn:Ea; cbn [mbind res_bind] in E; [|done|].
    + apply aggregateLayout_ok in Ea as [Hok _].
      destruct (go_aggregate_ok a g l agg Hok Hg) as (gl & g1 & Eg & _). rewrite Eg in E.
      destruct (c_aggregate_ok a c k agg Hok Hc H8) as (cl & c1 & Ec & _). cbn [mbind res_bind] in E.
      by rewrite Ec in E.
    + simplify_eq. by apply aggregateLayout_reason in Ea.
Qed.

(** ** Register sets *)

Record abi_ok (a : abiSet) : Prop := {
  abi_go : NoDup (a_goInt a ++ a_goFloat a);
  abi_c : NoDup (a_sysvInt a ++ a_sysvFloat a);
  abi_goInt : (2 <= length (a_goInt a))%nat;
  abi_goFloat : (2 <= length (a_goFloat a))%nat;
  abi_intResult : (2 <= length (a_sysvIntResult a))%nat;
  abi_floatResult : (2 <= length (a_sysvFloatResult a))%nat }.

Lemma abiFor_cases arch a : abiFor arch = Ok a ->
  (abiFor "amd64" = Ok a) \/ (abiFor "arm64" = Ok a).
Proof.
  unfold abiFor. destruct (String.eqb_spec arch "") as [->|H0]; [by left|].
  destruct (String.eqb_spec arch "amd64") as [->|H1]; [by left|].
  destruct (String.eqb_spec arch "arm64") as [->|H2]; [by right|]. done.
Qed.

Lemma abiFor_ok arch a : abiFor arch = Ok a -> abi_ok a.
Proof.
  intros [H|H]%abiFor_cases; vm_compute in H; injection H as <-;
    (split; [apply (bool_decide_unpack _); vm_compute; exact I
            | apply (bool_decide_unpack _); vm_compute; exact I | simpl; lia..]).
Qed.

(** ** The properties *)

(** Two byte ranges do not overlap. *)
Definition apart (s t : Z * Z) : Prop := s.1 + s.2 <= t.1 \/ t.1 + t.2 <= s.1.

Definition pairwise_apart (l : list (Z * Z)) : Prop :=
  forall i j s t, i <> j -> l !! i = Some s -> l !! j = Some t -> apart s t.

Lemma slots_in_apart lo hi l :
  Forall (fun s => 0 <= snd s) l -> slots_in lo hi l -> pairwise_apart l.
Proof.
  intros Hp Hs i j [o n] [o' n'] Hij Hi Hj. unfold apart; simpl.
  destruct (decide (i < j)%nat).
  - left. eapply slots_in_disjoint; [exact Hp | exact Hs | done | exact Hi | exact Hj].
  - right. eapply slots_in_disjoint; [exact Hp | exact Hs | | exact Hj | exact Hi]. lia.
Qed.

Lemma size_of_nonneg ty : 0 <= size_of ty.
Proof.
  unfold size_of. destruct (scalar ty) as [info|] eqn:E; [|done]. simpl.
  destruct (scalar_align _ _ E) as [Ha ->]. destruct Ha as [->|[->|[->| ->]]]; lia.
Qed.

Lemma slots_of_nonneg l : Forall (fun s => 0 <= snd s) (slots_of l).
Proof.
  apply Forall_forall. intros [o n] ([ty lc] & Hx & E)%list_elem_of_omap. unfold slot_of in E.
  destruct lc; simplify_eq/=. apply size_of_nonneg.
Qed.

(** The registers of a list of arguments, of both banks. *)
Definition arg_regs (l : list (string * loc)) : list string := regs_of BInt l ++ regs_of BFloat l.

(** One side is well formed: distinct registers, stack slots naturally aligned,
    pairwise disjoint and inside the argument area. *)
Definition side_ok (l : list (string * loc)) (size : Z) : Prop :=
  NoDup (arg_regs l) /\ Forall arg_ok l /\ pairwise_apart (slots_of l) /\
  Forall (fun s => 0 <= s.1 /\ s.1 + s.2 <= size) (slots_of l).

Lemma side_inv_ok ints floats s l size :
  NoDup (ints ++ floats) -> side_inv ints floats s l -> sd_stack s <= size -> side_ok l size.
Proof.
  intros Hnd [H1 _ H3 _ H5 H6] Hle. unfold side_ok, arg_regs. rewrite H1, H3. split_and!; try done.
  - apply NoDup_app in Hnd as (Hi & Hd & Hf). apply NoDup_app. split_and!.
    + eapply sublist_NoDup; [exact Hi | apply sublist_take].
    + intros x (i & Hx & _)%elem_of_take (j & Hx' & _)%elem_of_take.
      apply (Hd x); by eapply list_elem_of_lookup_2.
    + eapply sublist_NoDup; [exact Hf | apply sublist_take].
  - by eapply slots_in_apart; [apply slots_of_nonneg|].
  - apply Forall_forall. intros [o n] Hin.
    destruct (slots_in_elem _ _ _ _ _ (slots_of_nonneg l) H5 Hin). simpl. lia.
Qed.



(** C13. Argument assignment: for both register sets, whenever [assignParams]
    accepts a signature, on the Go side and on the C side no two arguments share a
    register, stack slots are naturally aligned, pairwise disjoint and inside the
    stack argument area; both areas are multiples of 8. *)
Theorem assignParams_sound arch a ps r :
  abiFor arch = Ok a -> assignParams a ps = Ok r ->
  side_ok (go_args (ar_Params r)) (ar_GoStackSize r) /\ (8 | ar_GoStackSize r) /\
  side_ok (c_args (ar_Params r)) (ar_SysVStackSize r) /\ (8 | ar_SysVStackSize r).
Proof.
  intros Ha%abiFor_ok (g & c & Hg & [Hc H8] & -> & ->)%assignParams_ok.
  assert (is_align 8) as Hal by (unfold is_align; lia).
  destruct (alignUp_spec (sd_stack g) 8 Hal) as [Hd Hr]. split_and!; try done.
  - eapply side_inv_ok; [exact (abi_go _ Ha) | exact Hg | lia].
  - eapply side_inv_ok; [exact (abi_c _ Ha) | exact Hc | lia].
Qed.

Definition amd64_abi : abiSet :=
  Eval vm_compute in match abiFor "amd64" with Ok a => a | Fail _ => mkAbi "" [] [] [] [] [] [] end.

Definition demo_params : list string :=
  ["i64"; "{ ptr, i64, i64 }"; "i32"; "ptr"; "i64"; "i64"; "i8"; "i8"; "float"].

Definition demo_assign : assignResult :=
  Eval vm_compute in match assignParams amd64_abi demo_params with Ok r => r | Fail _ => mkAssign [] 0 0 end.

Lemma assignParams_sound_witness :
  side_ok (c_args (ar_Params demo_assign)) (ar_SysVStackSize demo_assign) /\
  ar_SysVStackSize demo_assign = 32.
Proof.
  split; [|reflexivity].
  refine (proj1 (proj2 (proj2 (assignParams_sound "amd64" amd64_abi demo_params demo_assign _ _))));
    vm_compute; reflexivity.
Defined.

(** ** Signatures *)

Lemma outgoing_spec n : 0 <= n -> (8 | n) -> exists out, outgoingBytes n = Ok out /\ (16 | out) /\ n <= out < n + 16.
Proof.
  intros Hn Hd. unfold outgoingBytes.
  rewrite (proj2 (Z.ltb_ge n 0)) by lia.
  rewrite (proj2 (Z.eqb_eq _ 0)) by (apply Z.rem_divide; [lia|done]). simpl. eexists. split; [done|].
  change (Z.lnot 15) with (- 2 ^ 4). rewrite land_neg_pow2 by lia. change (2 ^ 4) with 16.
  split; [apply Z.divide_factor_r|]. pose proof (Z.div_mod (n + 15) 16). pose proof (Z.mod_pos_bound (n + 15) 16). lia.
Qed.

Lemma place_results_ok a fs : forall ni nf,
  abi_ok a -> (ni + nf + length fs <= 2)%nat -> exists r, place_results a ni nf fs = Ok r.
Proof.
  intros ni nf Ha. revert ni nf. induction fs as [|f fs IH]; intros ni nf Hl; [by eexists|]. simpl in *.
  unfold index. destruct (fl_Bank f).
  - destruct (lookup_lt_is_Some_2 (a_goInt a) ni) as [r1 ->]; [pose proof (abi_goInt _ Ha); lia|]. simpl.
    destruct (lookup_lt_is_Some_2 (a_sysvIntResult a) ni) as [r2 ->]; [pose proof (abi_intResult _ Ha); lia|]. simpl.
    destruct (IH (S ni) nf) as [[[gs ss] ts] ->]; [lia|]. by eexists.
  - destruct (lookup_lt_is_Some_2 (a_goFloat a) nf) as [r1 ->]; [pose proof (abi_goFloat _ Ha); lia|]. simpl.
    destruct (lookup_lt_is_Some_2 (a_sysvFloatResult a) nf) as [r2 ->]; [pose proof (abi_floatResult _ Ha); lia|]. simpl.
    destruct (IH ni (S nf)) as [[[gs ss] ts] ->]; [lia|]. by eexists.
Qed.

Lemma returnAssignment_reason a ret : abi_ok a -> returnAssignment a ret <> Fail Panic.
Proof.
  intros Ha. unfold returnAssignment. destruct (String.eqb ret "void"); [done|].
  destruct (scalar ret) as [info|].
  - unfold index. destruct (lookup_lt_is_Some_2 (a_goInt a) 0) as [r1 ->]; [pose proof (abi_goInt _ Ha); lia|].
    destruct (lookup_lt_is_Some_2 (a_goFloat a) 0) as [r2 ->]; [pose proof (abi_goFloat _ Ha); lia|].
    by destruct (si_bank info).
  - destruct (aggregateLayout ret "return" true) as [[agg|]|e] eqn:E; cbn [mbind res_bind]; [|done|].
    + apply aggregateLayout_ok in E as [Hok Hs].
      destruct (place_results_ok a (ag_Fields agg) 0 0 Ha) as [r ->]; [|done].
      apply agg_two; auto.
    + intros [= ->]. by apply aggregateLayout_reason in E.
Qed.

Lemma go_params_reason ps : forall attrs, (length ps <= length attrs)%nat -> go_params ps attrs <> Fail Panic.
Proof.
  induction ps as [|ty ps IH]; intros [|x attrs] Hl; simpl in *; try done; [lia|].
  case_bool; [done|]. destruct (go_params ps attrs) as [ts|e] eqn:E; [done|]. cbn [mbind res_bind].
  intros [= ->]. by apply IH in E; [|lia].
Qed.

Lemma assignParams_reason a ps : assignParams a ps <> Fail Panic.
Proof.
  unfold assignParams. destruct (assign_loop a _ _ ps) as [[[xs g] c]|e] eqn:E; [done|].
  cbn [mbind res_bind]. intros [= ->]. apply assign_loop_reason with (l := []) (k := []) in E; try done;
    [apply side_inv_nil | apply side_inv_nil | by exists 0].
Qed.

Lemma sysv_stack_nonneg a ps r : assignParams a ps = Ok r -> 0 <= ar_SysVStackSize r /\ (8 | ar_SysVStackSize r).
Proof.
  intros (g & c & _ & [Hc H8] & _ & ->)%assignParams_ok. split; [|done].
  pose proof (sn_slots _ _ _ _ Hc) as Hs. revert Hs. generalize (slots_of_nonneg (c_args (ar_Params r))).
  intros Hp Hs. by eapply slots_in_le in Hs.
Qed.

(** What an accepted signature's plan holds. *)
Lemma analyzeSignature_inv a d plan :
  analyzeSignature a d = Ok plan -> exists r gs ss ts,
    assignParams a (ll_Params d) = Ok r /\ returnAssignment a (ll_Ret d) = Ok (gs, ss, ts) /\
    outgoingBytes (ar_SysVStackSize r) = Ok (pl_Outgoing plan) /\
    pl_Go plan = mkAbiSide ((fun p => mkParam (as_Type p) (as_Go p)) <$> ar_Params r) gs (ar_GoStackSize r) /\
    pl_SysV plan = mkAbiSide ((fun p => mkParam (as_Type p) (as_SysV p)) <$> ar_Params r) ss (ar_SysVStackSize r) /\
    pl_ResultMoves plan = result_moves ss gs.
Proof.
  unfold analyzeSignature. do 7 (case_bool; [done|]).
  destruct (assignParams a (ll_Params d)) as [r|] eqn:E1; [|done]. cbn [mbind res_bind].
  destruct (returnAssignment a (ll_Ret d)) as [[[gs ss] ts]|] eqn:E2; [|done]. cbn [mbind res_bind].
  destruct (go_params _ _) as [gp|]; [|done]. cbn [mbind res_bind]. case_bool; [done|].
  destruct (outgoingBytes _) as [out|] eqn:E3; [|done]. cbn [mbind res_bind]. intros [= <-].
  by exists r, gs, ss, ts.
Qed.

(** Signature analysis never indexes out of range (an aggregate result has at
    most two fields per bank, an aggregate in registers was counted first) and,
    when it accepts, reserves an outgoing area that is 16-byte aligned and holds
    all C stack arguments, for both register sets and every parsed header. *)
Theorem analyzeSignature_sound arch a d :
  abiFor arch = Ok a -> (length (ll_Params d) <= length (ll_ParamAttrs d))%nat ->
  analyzeSignature a d <> Fail Panic /\
  forall plan, analyzeSignature a d = Ok plan ->
    (16 | pl_Outgoing plan) /\
    ab_StackArgsSize (pl_SysV plan) <= pl_Outgoing plan < ab_StackArgsSize (pl_SysV plan) + 16 /\
    ap_Type <$> ab_Params (pl_Go plan) = ap_Type <$> ab_Params (pl_SysV plan).
Proof.
  intros Ha%abiFor_ok Hl. split.
  2: { intros plan E. apply analyzeSignature_inv in E as (r & gs & ss & ts & E1 & _ & E3 & -> & -> & _). simpl.
    destruct (sysv_stack_nonneg _ _ _ E1) as [H0 H8].
    destruct (outgoing_spec _ H0 H8) as (out & E3' & Hd & Hr). rewrite E3 in E3'. simplify_eq.
    split_and!; try lia; [done|]. by rewrite <-!list_fmap_compose. }
  unfold analyzeSignature. do 7 (case_bool; [done|]).
    destruct (assignParams a (ll_Params d)) as [r|e] eqn:E1; cbn [mbind res_bind];
      [|intros [= ->]; by apply assignParams_reason in E1].
    destruct (returnAssignment a (ll_Ret d)) as [[[gs ss] ts]|e] eqn:E2; cbn [mbind res_bind];
      [|intros [= ->]; by apply returnAssignment_reason in E2].
    destruct (go_params _ _) as [gp|e] eqn:E3; cbn [mbind res_bind];
      [|intros [= ->]; by apply go_params_reason in E3].
    case_bool; [done|]. destruct (sysv_stack_nonneg _ _ _ E1) as [H0 H8].
    by destruct (outgoing_spec _ H0 H8) as (out & -> & _).
Qed.

Definition demo_func : llFunc :=
  mkLL "f" "{ i64, double }" [] [] demo_params (replicate 9 []) (replicate 9 []) false false false.

Definition demo_plan : sigPlan :=
  Eval vm_compute in match analyzeSignature amd64_abi demo_func with
  | Ok p => p | Fail _ => mkPlan (mkAbiSide [] [] 0) (mkAbiSide [] [] 0) "" [] 0 end.

Lemma demo_plan_eq : analyzeSignature amd64_abi demo_func = Ok demo_plan.
Proof. vm_compute. reflexivity. Qed.

Lemma analyzeSignature_sound_witness :
  pl_Outgoing demo_plan = 32 /\ (16 | pl_Outgoing demo_plan) /\
  ab_StackArgsSize (pl_SysV demo_plan) <= pl_Outgoing demo_plan < ab_StackArgsSize (pl_SysV demo_plan) + 16 /\
  ap_Type <$> ab_Params (pl_Go demo_plan) = ap_Type <$> ab_Params (pl_SysV demo_plan).
Proof.
  split; [reflexivity|].
  apply (analyzeSignature_sound "amd64" amd64_abi demo_func); [vm_compute; reflexivity | simpl; lia | exact demo_plan_eq].
Defined.

(** ** The spill area *)

Lemma spill_sizes_scalar ty n : spill_sizes ty = Some n -> is_align n /\ size_of ty = n.
Proof.
  unfold spill_sizes, is_align.
  repeat match goal with
  | |- context [String.eqb ty ?x] =>
      destruct (String.eqb_spec ty x) as [->|_]; [intros [= <-]; split; [lia | vm_compute; reflexivity]|]
  end. done.
Qed.

Definition spill_slot (s : argSpill) : Z * Z := (sp_Off s - 8, sp_Size s).

Definition reg_param (p : abiParam) : option string :=
  match ap_Location p with RegLoc r => Some r | StkLoc _ => None end.

Definition stack_ptr (p : abiParam) : option Z :=
  match ap_Location p with StkLoc o => if String.eqb (ap_Type p) "ptr" then Some o else None | RegLoc _ => None end.

Lemma args_loop_ok params : forall off,
  Forall (fun p => spill_sizes (ap_Type p) <> None) params ->
  exists spills end_, args_loop off params = Ok (spills, omap stack_ptr params, end_) /\
    slots_in off end_ (spill_slot <$> spills) /\ sp_Reg <$> spills = omap reg_param params /\
    Forall (fun s => 0 < sp_Size s /\ (sp_Size s | sp_Off s)) spills.
Proof.
  induction params as [|p params IH]; intros off Hok.
  { exists [], off. split_and!; [done | simpl; lia | done | constructor]. }
  inversion Hok as [|?? Hp Hok']; subst. cbn [args_loop omap list_omap]. unfold stack_ptr at 1, reg_param at 1.
  destruct (ap_Location p) as [r|o].
  - destruct (spill_sizes (ap_Type p)) as [n|] eqn:En; [|done].
    destruct (spill_sizes_scalar _ _ En) as [Ha _]. pose proof (alignUp_spec off n Ha) as [Hd Hr].
    unfold alignUp in *. set (off' := Z.land _ _) in *.
    destruct (IH (off' + n) Hok') as (spills & end_ & -> & Hs & Hreg & Hal). cbn [mbind res_bind].
    eexists _, end_. split; [done|]. split_and!.
    + simpl. split; [lia|]. replace (8 + off' - 8 + n) with (off' + n) by lia. exact Hs.
    + simpl. f_equal. exact Hreg.
    + constructor; [|done]. simpl. split; [destruct Ha as [->|[->|[->| ->]]]; lia|].
      apply Z.divide_add_r; [|done]. apply align_divide; [done | unfold is_align; lia |].
      destruct Ha as [->|[->|[->| ->]]]; lia.
  - destruct (IH off Hok') as (spills & end_ & -> & Hs & Hreg & Hal). cbn [mbind res_bind].
    exists spills, end_. split_and!; try done. by destruct (String.eqb (ap_Type p) "ptr").
Qed.

(** A pointer argument on the stack of either side is a whole aligned word. *)
Lemma side_ptr ints floats s (f : asg -> loc) xs o :
  side_inv ints floats s ((fun x => (as_Type x, f x)) <$> xs) ->
  o ∈ omap stack_ptr ((fun x => mkParam (as_Type x) (f x)) <$> xs) ->
  (8 | o) /\ 0 <= o /\ o + 8 <= sd_stack s.
Proof.
  intros Hinv (p & (x & -> & Hx)%list_elem_of_fmap & Ho)%list_elem_of_omap.
  unfold stack_ptr in Ho. simpl in Ho. destruct (f x) as [|o'] eqn:Ef; [done|].
  destruct (String.eqb_spec (as_Type x) "ptr") as [Ety|]; [|done]. simplify_eq.
  assert ((as_Type x, StkLoc o) ∈ (fun x => (as_Type x, f x)) <$> xs) as Hin.
  { rewrite <-Ef. by apply (list_elem_of_fmap_2 (fun x => (as_Type x, f x))). }
  destruct (proj1 (Forall_forall _ _) (sn_args _ _ _ _ Hinv) _ Hin) as [_ Hdiv]. simpl in Hdiv. rewrite Ety in *.
  destruct (slots_in_elem _ _ _ o (size_of "ptr") (slots_of_nonneg _) (sn_slots _ _ _ _ Hinv)); [|done].
  apply list_elem_of_omap. by exists ("ptr", StkLoc o).
Qed.

Lemma goArgsLayout_ok arch a d plan :
  abiFor arch = Ok a -> analyzeSignature a d = Ok plan ->
  Forall (fun p => spill_sizes (ap_Type p) <> None) (ab_Params (pl_Go plan)) ->
  exists spills ptrs area, goArgsLayout (pl_Go plan) = Ok (spills, ptrs, area) /\
    ptrs = omap stack_ptr (ab_Params (pl_Go plan)) /\ (8 | area) /\
    sp_Reg <$> spills = omap reg_param (ab_Params (pl_Go plan)) /\
    pairwise_apart (spill_slot <$> spills) /\
    Forall (fun s => (sp_Size s | sp_Off s) /\ ab_StackArgsSize (pl_Go plan) <= sp_Off s - 8 /\
      sp_Off s - 8 + sp_Size s <= area) spills /\
    Forall (fun o => (8 | o) /\ 0 <= o /\ o + 8 <= area) ptrs.
Proof.
  intros Ha%abiFor_ok E Hty. unfold goArgsLayout.
  destruct (args_loop_ok _ (ab_StackArgsSize (pl_Go plan)) Hty) as (spills & end_ & -> & Hs & Hreg & Hal).
  cbn [mbind res_bind]. eexists _, _, _. split; [done|]. split; [done|].
  replace (Z.land (end_ + 7) (-8)) with (alignUp end_ 8) by (unfold alignUp; f_equal; lia).
  destruct (alignUp_spec end_ 8) as [Hd Hr]; [unfold is_align; lia|].
  assert (Forall (fun s => 0 <= s.2) (spill_slot <$> spills)) as Hp.
  { apply Forall_fmap. eapply Forall_impl; [exact Hal|]. intros s [? _]. simpl. lia. }
  split_and!; try done; [by eapply slots_in_apart | |].
  - rewrite Forall_forall in Hal. apply Forall_forall. intros s Hin.
    destruct (slots_in_elem _ _ _ (sp_Off s - 8) (sp_Size s) Hp Hs);
      [by apply (list_elem_of_fmap_2 spill_slot)|]. destruct (Hal s Hin). split_and!; [done | lia | lia].
  - pose proof (slots_in_le _ _ _ Hp Hs) as Hle.
    apply analyzeSignature_inv in E as (r & gs & ss & ts & (g & c & Hg & _ & Hsz & _)%assignParams_ok & _ & _ & Hgo & _).
    rewrite Hgo in *. cbn [ab_Params ab_StackArgsSize] in *.
    apply Forall_forall. intros o Ho. destruct (side_ptr _ _ _ as_Go _ o Hg Ho) as (H8 & H0 & Hhi).
    rewrite Hsz in Hle. destruct (alignUp_spec (sd_stack g) 8) as [_ ?]; [unfold is_align; lia|].
    split_and!; [done | lia | lia].
Qed.

(** The Go argument area: for every signature the analysis accepts whose
    types are in canonical form, [goArgsLayout] succeeds; the spill slots of the
    register arguments, in argument order, lie above the stack arguments, are
    aligned and pairwise disjoint and inside the area, whose size is a multiple of
    8; every pointer argument on the stack is a whole word of the area. *)
Theorem goArgsLayout_sound arch a d plan :
  abiFor arch = Ok a -> analyzeSignature a d = Ok plan ->
  Forall (fun p => spill_sizes (ap_Type p) <> None) (ab_Params (pl_Go plan)) ->
  exists spills ptrs area, goArgsLayout (pl_Go plan) = Ok (spills, ptrs, area) /\ (8 | area) /\
    sp_Reg <$> spills = omap reg_param (ab_Params (pl_Go plan)) /\
    pairwise_apart (spill_slot <$> spills) /\
    Forall (fun s => (sp_Size s | sp_Off s) /\ ab_StackArgsSize (pl_Go plan) <= sp_Off s - 8 /\
      sp_Off s - 8 + sp_Size s <= area) spills /\
    Forall (fun o => (8 | o) /\ 0 <= o /\ o + 8 <= area) ptrs.
Proof.
  intros Ha E Hty. destruct (goArgsLayout_ok arch a d plan Ha E Hty) as (spills & ptrs & area & H1 & _ & H2).
  by exists spills, ptrs, area.
Qed.

Lemma goArgsLayout_sound_witness :
  exists spills ptrs area, goArgsLayout (pl_Go demo_plan) = Ok (spills, ptrs, area) /\ (8 | area) /\
    pairwise_apart (spill_slot <$> spills).
Proof.
  destruct (goArgsLayout_sound "amd64" amd64_abi demo_func demo_plan) as (spills & ptrs & area & H1 & H2 & _ & H3 & _).
  - vm_compute. reflexivity.
  - exact demo_plan_eq.
  - apply Forall_forall. intros p Hp. simpl in Hp.
    repeat (apply elem_of_cons in Hp as [->|Hp]; [discriminate|]). by apply not_elem_of_nil in Hp.
  - exists spills, ptrs, area. split; [exact H1 | split; [exact H2 | exact H3]].
Defined.
