(* ===== verification/GoParse.v ===== *)
(** * Reading LLVM IR headers

    Models the reading half of src/internal/lower/goabi_parse.go: the patterns, the
    type at the start of a parameter, the return type at the end of a header's prefix,
    and [parseFunctions].  The text of an IR file is ASCII where the patterns look. *)

From Stdlib Require Import ZArith Lia Ascii.
From stdpp Require Import base list strings gmap.
From S2P Require Import Prelude Text Regex Layout.

(** ** Patterns *)

Definition ident_start (c : ascii) : bool := re_alpha c || char_is "_"%char c.
Definition ident_char (c : ascii) : bool := re_alpha c || re_digit c || char_is "_"%char c || char_is "."%char c || char_is "$"%char c.
Definition named_char (c : ascii) : bool := ident_char c || char_is "-"%char c.

Definition nameRE : regex := Cat TextStart (Cat (Class ident_start) (many ident_char)).
Definition headerRE : regex :=
  cats [LineStart; many re_space; Group 1 (words ["define"; "declare"]); many1 re_space;
        Group 2 (Cat (Class re_dot) (Star false (Class re_dot))); lit "@"; Group 3 (Cat (Class ident_start) (many ident_char)); lit "("].
Definition int_re : regex := Cat (lit "i") (many1 re_digit).
Definition typeRE : regex := cats [TextStart; Group 1 (alts [lit "void"; lit "ptr"; lit "float"; lit "double"; int_re]); WordB].
Definition namedTypeRE : regex := cats [TextStart; lit "%"; many1 named_char].
Definition addrspace_re : regex := cats [lit "addrspace("; many1 re_digit; lit ")"].
Definition typedPtrRE : regex :=
  cats [TextStart; alts [lit "void"; lit "float"; lit "double"; int_re]; opt (Cat (many1 re_space) addrspace_re); many re_space; lit "*"].
Definition addrspaceRE : regex := cats [TextStart; lit "ptr"; many1 re_space; addrspace_re].
Definition nonCRE : regex :=
  cats [WordB; alts [words ["fastcc"; "coldcc"; "ghccc"; "hipecc"; "webkit_jscc"; "anyregcc"; "preserve_mostcc"; "preserve_allcc"; "swiftcc";
          "cxx_fast_tlscc"; "tailcc"; "cfguard_checkcc"; "x86_stdcallcc"; "x86_fastcallcc"; "x86_thiscallcc"; "x86_vectorcallcc";
          "x86_64_sysvcc"]; cats [lit "cc"; many1 re_space; many1 re_digit]]; WordB].
Definition word_re (l : list string) : regex := cats [WordB; Group 1 (words l); WordB].
Definition abiParamRE : regex :=
  word_re ["byval"; "sret"; "inalloca"; "preallocated"; "byref"; "inreg"; "nest"; "swiftself"; "swiftasync"; "swifterror"].
Definition abiRetRE : regex := word_re ["sret"; "inreg"].
Definition extRE : regex := word_re ["signext"; "zeroext"; "noundef"].
Definition signRE : regex := word_re ["signext"; "zeroext"].
Definition retTailRE : regex :=
  cats [Group 1 (alts [Cat (lit "%") (many1 named_char); cats [lit "ptr"; many1 re_space; addrspace_re]; lit "void"; lit "ptr"; lit "float";
          lit "double"; int_re]); many re_space; TextEnd].
Definition internalRE : regex := cats [WordB; lit "internal"; WordB].

(** ** Types *)

(** [s[n:]] and [s[:n]] *)
Definition drop_str (n : nat) (s : string) : string := String.substring n (String.length s - n) s.
Definition take_str (n : nat) (s : string) : string := String.substring 0 n s.

(** The end of a struct in braces, and of one in angle brackets ([i] is the index of
    the first character). *)
Fixpoint brace_end (s : string) (i : nat) (depth : Z) : option nat :=
  match s with
  | EmptyString => None
  | String c s =>
      if Ascii.eqb c "{"%char then brace_end s (S i) (depth + 1)
      else if Ascii.eqb c "}"%char then if depth - 1 =? 0 then Some (S i) else brace_end s (S i) (depth - 1)
      else brace_end s (S i) depth
  end.

Fixpoint packed_end (s : string) (i : nat) (depth : Z) : option nat :=
  match s with
  | EmptyString => None
  | String c s =>
      if Ascii.eqb c "{"%char then packed_end s (S i) (depth + 1)
      else if Ascii.eqb c "}"%char then
        if (depth - 1 =? 0) && HasPrefix s ">" then Some (S (S i)) else packed_end s (S i) (depth - 1)
      else packed_end s (S i) depth
  end.

Definition scalar_prefix (text : string) : string :=
  let m := find_string typedPtrRE text in
  if negb (String.eqb m "") then TrimSpace m
  else
    let m := find_string addrspaceRE text in
    if negb (String.eqb m "") then m
    else
      let m := find_string namedTypeRE text in
      if negb (String.eqb m "") then m
      else match find typeRE text with Some m => group_text text m 1 | None => "" end.

Definition llvmTypePrefix (text : string) : string :=
  let text := TrimSpace text in
  match (if HasPrefix text "<{" then packed_end (drop_str 1 text) 1 0 else None) with
  | Some n => take_str n text
  | None =>
      if HasPrefix text "{" then match brace_end text 0 0 with Some n => take_str n text | None => "" end
      else scalar_prefix text
  end.

Definition parseParam (text : string) : string * list string * list string :=
  let ty := llvmTypePrefix text in
  let rest := drop_str (String.length ty) text in
  (ty, find_all_strings extRE rest, find_all_strings abiParamRE rest).

(** ** Return types *)

(** [strings.TrimRight(s, " \t")] *)
Fixpoint drop_blanks (l : list ascii) : list ascii :=
  match l with c :: l' => if Ascii.eqb c " "%char || Ascii.eqb c "009"%char then drop_blanks l' else l | [] => [] end.
Definition TrimRight (s : string) : string :=
  String.string_of_list_ascii (reverse (drop_blanks (reverse (String.list_ascii_of_string s)))).

(** The scan to the left: [l] are the characters from index [i] down. *)
Fixpoint brace_start (l : list ascii) (i : nat) (depth : Z) : option nat :=
  match l with
  | [] => None
  | c :: l =>
      if Ascii.eqb c "}"%char then brace_start l (i - 1) (depth + 1)
      else if Ascii.eqb c "{"%char then
        if depth - 1 =? 0 then Some (match l with "<"%char :: _ => i - 1 | _ => i end)%nat else brace_start l (i - 1) (depth - 1)
      else brace_start l (i - 1) depth
  end.

Definition parseReturn (prefix : string) : string :=
  let prefix := TrimRight prefix in
  let packed := HasSuffix prefix "}>" in
  if HasSuffix prefix "}" || packed then
    let end_ := (String.length prefix - (if packed then 2 else 1))%nat in
    match brace_start (reverse (take (S end_) (String.list_ascii_of_string prefix))) end_ 0 with
    | Some n => drop_str n prefix
    | None => ""
    end
  else match find retTailRE prefix with Some m => group_text prefix m 1 | None => "" end.

(** ** Headers *)

Record params := mkParams { pr_varargs : bool; pr_types : list string; pr_attrs : list (list string); pr_abi : list (list string) }.

Definition add_param (s : params) (p : string) : params :=
  if String.eqb p "..." then mkParams true (pr_types s) (pr_attrs s) (pr_abi s)
  else let '(ty, attrs, abi) := parseParam p in
       mkParams (pr_varargs s) (pr_types s ++ [ty]) (pr_attrs s ++ [attrs]) (pr_abi s ++ [abi]).

Definition parse_params (paramsText : string) : params :=
  foldl add_param (mkParams false [] [] [])
    (if String.eqb (TrimSpace paramsText) "" then [] else splitTopLevel paramsText).

(** One match of [headerRE]. *)
Definition parse_function (text keyword : string) (m : rmatch) : option llFunc :=
  if negb (String.eqb (group_text text m 1) keyword) then None
  else
    let opening := (rm_end m - 1)%nat in
    match matchingParen text opening with
    | None => None
    | Some closing =>
        let p := parse_params (span_text text (S opening) (Z.to_nat closing)) in
        let prefix := group_text text m 2 in
        Some (mkLL (group_text text m 3) (parseReturn prefix) (find_all_strings signRE prefix) (find_all_strings abiRetRE prefix)
                (pr_types p) (pr_attrs p) (pr_abi p) (pr_varargs p) (is_match internalRE prefix) (is_match nonCRE prefix))
    end.

Definition parseFunctions (text keyword : string) : list llFunc := omap (parse_function text keyword) (find_all headerRE text).
