(* ===== verification/GoParseProofs.v ===== *)
(** * What the header reader returns

    Properties of GoParse.v: every function that [parseFunctions] returns stands in the
    text as a header, its fields are read from the pieces of that header, and no header
    is passed over. *)

From Stdlib Require Import ZArith Lia Ascii.
From stdpp Require Import base list strings gmap.
From S2P Require Import Prelude Text Regex Layout GoParse.

(** ** Headers *)

(** A text after which a line begins. *)
Definition line_begins (a : string) : Prop := a = "" \/ exists b, a = b +:+ String newline "".

(** The pieces of a header: white space, keyword, white space, prefix, name; it starts
    at the beginning of a line and the parenthesis follows. *)
Record header (a ws1 kw ws2 prefix name : string) : Prop := {
  hd_line : line_begins a;
  hd_ws1 : all_in re_space ws1 = true;
  hd_kw : kw ∈ ["define"; "declare"];
  hd_ws2 : all_in re_space ws2 = true /\ ws2 <> "";
  hd_prefix : all_in re_dot prefix = true /\ prefix <> "";
  hd_name : exists c s, name = String c s /\ ident_start c = true /\ all_in ident_char s = true }.

Definition header_text (ws1 kw ws2 prefix name : string) : string := ws1 +:+ kw +:+ ws2 +:+ prefix +:+ "@" +:+ name +:+ "(".

(** Parentheses nest, from depth [d] down to 0. *)
Fixpoint nests (d : nat) (s : string) : bool :=
  match s with
  | EmptyString => (d =? 0)%nat
  | String c s =>
      if Ascii.eqb c "("%char then nests (S d) s
      else if Ascii.eqb c ")"%char then match d with O => false | S d => nests d s end
      else nests d s
  end.

(** The function of a header with the parameter text [ps]. *)
Definition read_header (name prefix ps : string) : llFunc :=
  let p := parse_params ps in
  mkLL name (parseReturn prefix) (find_all_strings signRE prefix) (find_all_strings abiRetRE prefix)
    (pr_types p) (pr_attrs p) (pr_abi p) (pr_varargs p) (is_match internalRE prefix) (is_match nonCRE prefix).

(** *** The place after a text *)

Lemma last_before w : forall c, cu_before (after w c) = match reverse (String.list_ascii_of_string w) with x :: _ => Some x | [] => cu_before c end.
Proof.
  induction w as [|a w IH]; intros c; [done|]. cbn [after String.list_ascii_of_string]. rewrite IH, reverse_cons.
  by destruct (reverse (String.list_ascii_of_string w)).
Qed.

Lemma line_start_begins a text c : between a (start_of text) c -> line_start c = true <-> line_begins a.
Proof.
  intros (s & E & ->). unfold line_start. rewrite last_before. split.
  - destruct (reverse (String.list_ascii_of_string a)) as [|x l] eqn:Er.
    + intros _. left. apply (f_equal reverse) in Er. rewrite reverse_involutive in Er. by destruct a.
    + cbn [nl_or_end]. intros ->%Ascii.eqb_eq. right. exists (String.string_of_list_ascii (reverse l)).
      apply (f_equal reverse) in Er. rewrite reverse_involutive, reverse_cons in Er.
      rewrite <-(String.string_of_list_ascii_of_string a), Er. clear. induction (reverse l) as [|y m IH]; [done|].
      cbn [app String.string_of_list_ascii]. rewrite IH. done.
  - intros [->|[b ->]]; [done|]. assert (reverse (String.list_ascii_of_string (b +:+ String newline "")) = newline :: reverse (String.list_ascii_of_string b)) as ->; [|done].
    rewrite <-reverse_snoc. f_equal. clear. induction b as [|y b IH]; [done|]. change (String y b +:+ ?z) with (String y (b +:+ z)). cbn. by rewrite IH.
Qed.

(** *** The pattern *)

Definition header_groups (a ws1 kw ws2 prefix name : string) : groups :=
  let n1 := (String.length a + String.length ws1)%nat in
  let n2 := (n1 + String.length kw)%nat in
  let n3 := (n2 + String.length ws2)%nat in
  let n4 := (n3 + String.length prefix)%nat in
  [(3, (S n4, (S n4 + String.length name)%nat)); (2, (n3, n4)); (1, (n1, n2))]%nat.

Lemma header_inv a text c c' g : between a (start_of text) c -> accepts headerRE c [] c' g ->
  exists ws1 kw ws2 prefix name, header a ws1 kw ws2 prefix name /\ between (header_text ws1 kw ws2 prefix name) c c' /\
    g = header_groups a ws1 kw ws2 prefix name.
Proof.
  intros Ha H. unfold headerRE, cats in H.
  next_piece H c0 g0. inversion Hm as [| | | | | | | |? ? Hl| | | |]; subst. apply (line_start_begins a text) in Hl; [|done].
  next_piece H c1 g1. apply inv_star in Hm0 as (-> & ws1 & Hws1 & B1).
  next_piece H c2 g2. apply inv_group in Hm0 as (g1 & (-> & kw & Hkw & B2)%inv_words & ->); [|done].
  next_piece H c3 g3. apply many1_inv in Hm0 as (-> & ws2 & Hws2 & Hne2 & B3).
  next_piece H c4 g4. apply inv_group in Hm0 as (g2 & (c31 & g31 & (-> & x & Hx & B4a)%inv_class & (-> & w & Hw & B4b)%inv_star)%inv_cat & ->).
  pose proof (between_app _ _ _ _ _ B4a B4b) as B4. change (String x "" +:+ w) with (String x w) in B4.
  next_piece H c5 g5. apply inv_lit in Hm0 as [-> B5].
  next_piece H c6 g6. apply inv_group in Hm0 as (g3 & (c51 & g51 & (-> & y & Hy & B6a)%inv_class & (-> & v & Hv & B6b)%inv_star)%inv_cat & ->).
  pose proof (between_app _ _ _ _ _ B6a B6b) as B6. change (String y "" +:+ v) with (String y v) in B6.
  apply inv_lit in H as [-> B7].
  exists ws1, kw, ws2, (String x w), (String y v). split_and!.
  - split; try done; [split; [cbn [all_in]; by rewrite Hx | done] | by exists y, v].
  - unfold header_text. repeat (eapply between_app; [eassumption|]). exact B7.
  - unfold header_groups. pose proof (proj1 (between_len _ _ _ Ha)) as L0. cbn [start_of cu_off] in L0.
    rewrite (proj1 (between_len _ _ _ B6)), (proj1 (between_len _ _ _ B5)), (proj1 (between_len _ _ _ B4)), (proj1 (between_len _ _ _ B3)),
      (proj1 (between_len _ _ _ B2)), (proj1 (between_len _ _ _ B1)), L0. cbn [String.length]. repeat (f_equal; try lia).
Qed.

Lemma make_cat a b c c1 c2 g g1 g2 : accepts a c g c1 g1 -> accepts b c1 g1 c2 g2 -> accepts (Cat a b) c g c2 g2.
Proof. apply ac_cat. Qed.

Lemma make_many1 f w c g t : all_in f w = true -> w <> "" -> cu_rest c = w +:+ t -> accepts (many1 f) c g (after w c) g.
Proof.
  intros Hw Hne E. destruct w as [|a w]; [done|]. cbn [all_in] in Hw. apply andb_true_iff in Hw as [Ha Hw].
  change (String a w +:+ t) with (String a (w +:+ t)) in E. eapply ac_cat; [by eapply make_class|].
  change (after (String a w) c) with (after w (after (String a "") c)). eapply (make_star true f w Hw _ _ t). cbn [after cu_rest]. by rewrite E.
Qed.

Lemma header_matches a text c ws1 kw ws2 prefix name rest : between a (start_of text) c ->
  header a ws1 kw ws2 prefix name -> cu_rest c = header_text ws1 kw ws2 prefix name +:+ rest -> matches_at headerRE c.
Proof.
  intros Ha [Hl Hws1 Hkw [Hws2 Hne2] [Hp Hnep] (y & v & -> & Hy & Hv)] E. destruct prefix as [|x w]; [done|].
  cbn [all_in] in Hp. apply andb_true_iff in Hp as [Hx Hw]. eexists _, _. unfold headerRE, cats.
  unfold header_text in E. rewrite !string_app_assoc in E.
  eapply ac_cat; [by apply ac_line_start, (line_start_begins a text)|].
  eapply ac_cat; [exact (make_star true _ _ Hws1 _ _ _ E)|]. apply after_rest in E as [E _].
  eapply ac_cat; [eapply ac_group; exact (make_words _ _ Hkw _ _ _ E)|]. apply after_rest in E as [E _].
  eapply ac_cat; [exact (make_many1 _ _ _ _ _ Hws2 Hne2 E)|]. apply after_rest in E as [E _].
  eapply ac_cat; [eapply ac_group; eapply ac_cat; [exact (make_class _ _ _ Hx _ _ E) | eapply (make_star false); [exact Hw|]]|].
  { exact (proj1 (after_rest (String x "") _ _ E)). }
  change (after w (after (String x "") ?z)) with (after (String x w) z). apply (after_rest (String x w)) in E as [E _].
  eapply ac_cat; [exact (make_lit _ _ _ _ E)|]. apply after_rest in E as [E _].
  eapply ac_cat; [eapply ac_group; eapply ac_cat; [exact (make_class _ _ _ Hy _ _ E) | eapply (make_star true); [exact Hv|]]|].
  { exact (proj1 (after_rest (String y "") _ _ E)). }
  change (after v (after (String y "") ?z)) with (after (String y v) z). apply (after_rest (String y v)) in E as [E _].
  exact (make_lit _ _ _ _ E).
Qed.

Lemma header_consumes : consumes headerRE.
Proof.
  intros c g c' g' H. unfold headerRE, cats in H. repeat (let c1 := fresh "c" in let g1 := fresh "g" in next_piece H c1 g1).
  apply inv_lit in H as [_ [L _]%between_len]. apply accepts_off in Hm, Hm0, Hm1, Hm2, Hm3, Hm4, Hm5. cbn [String.length] in L. lia.
Qed.

(** *** The parameters *)

Lemma paren_go_nests s : forall i d n, paren_go s i (Z.of_nat d + 1) = Some n ->
  exists s1 s2, s = s1 +:+ ")" +:+ s2 /\ n = i + Z.of_nat (String.length s1) /\ nests d s1 = true.
Proof.
  induction s as [|c s IH]; intros i d n E; cbn [paren_go] in E; [done|]. destruct (Ascii.eqb c "("%char) eqn:Eo.
  - replace (Z.of_nat d + 1 + 1) with (Z.of_nat (S d) + 1) in E by lia. apply IH in E as (s1 & s2 & -> & -> & H).
    exists (String c s1), s2. split_and!; [done | cbn [String.length]; lia | cbn [nests]; by rewrite Eo].
  - destruct (Ascii.eqb c ")"%char) eqn:Ec.
    + destruct (Z.eqb_spec (Z.of_nat d + 1 - 1) 0) as [H0|H0].
      * injection E as <-. exists "", s. apply Ascii.eqb_eq in Ec as ->. split_and!; [done | cbn; lia | cbn; assert (d = 0%nat) as -> by lia; done].
      * destruct d as [|d]; [lia|]. replace (Z.of_nat (S d) + 1 - 1) with (Z.of_nat d + 1) in E by lia. apply IH in E as (s1 & s2 & -> & -> & H).
        exists (String c s1), s2. split_and!; [done | cbn [String.length]; lia | cbn [nests]; by rewrite Eo, Ec].
    + apply IH in E as (s1 & s2 & -> & -> & H). exists (String c s1), s2. split_and!; [done | cbn [String.length]; lia | cbn [nests]; by rewrite Eo, Ec].
Qed.

Lemma matchingParen_nests a s n : matchingParen (a +:+ "(" +:+ s) (String.length a) = Some n ->
  exists ps b, s = ps +:+ ")" +:+ b /\ n = Z.of_nat (String.length a + 1 + String.length ps) /\ nests 0 ps = true.
Proof.
  unfold matchingParen. rewrite string_length_app. replace (String.length a + String.length ("(" +:+ s) - String.length a)%nat with (String.length ("(" +:+ s)) by lia.
  replace (a +:+ "(" +:+ s) with (a +:+ ("(" +:+ s) +:+ "") by (by rewrite string_app_nil). rewrite substring_mid.
  change ("(" +:+ s) with (String "("%char s). cbn [paren_go]. rewrite Ascii.eqb_refl. change (0 + 1) with (Z.of_nat 0 + 1).
  intros (ps & b & -> & -> & H)%paren_go_nests. exists ps, b. split_and!; [done | lia | done].
Qed.

(** A span by the text before it. *)
Lemma span_at text a b c i j : text = a +:+ b +:+ c -> i = String.length a -> j = (i + String.length b)%nat -> span_text text i j = b.
Proof. intros -> -> ->. unfold span_text. rewrite Nat.add_comm, Nat.add_sub. apply substring_mid. Qed.

(** The texts of the groups of a header. *)
Lemma group_spans a ws1 kw ws2 prefix name s e text rest : text = a +:+ header_text ws1 kw ws2 prefix name +:+ rest ->
  let m := mkMatch s e (header_groups a ws1 kw ws2 prefix name) in
  group_text text m 1 = kw /\ group_text text m 2 = prefix /\ group_text text m 3 = name.
Proof.
  intros E. unfold header_text in E. unfold group_text, group_span, header_groups. cbn [rm_groups]. simpl list_find. cbn [fst snd]. split_and!.
  - apply (span_at _ (a +:+ ws1) _ (ws2 +:+ prefix +:+ "@" +:+ name +:+ "(" +:+ rest)); rewrite ?E, ?string_app_assoc, ?string_length_app; lia || done.
  - apply (span_at _ (a +:+ ws1 +:+ kw +:+ ws2) _ ("@" +:+ name +:+ "(" +:+ rest)); rewrite ?E, ?string_app_assoc, ?string_length_app; lia || done.
  - apply (span_at _ (a +:+ ws1 +:+ kw +:+ ws2 +:+ prefix +:+ "@") _ ("(" +:+ rest));
      rewrite ?E, ?string_app_assoc, ?string_length_app; cbn [String.length]; lia || done.
Qed.

Lemma parse_function_inv text keyword m f : is_match_of headerRE text m -> parse_function text keyword m = Some f ->
  exists a ws1 ws2 prefix name ps b, header a ws1 keyword ws2 prefix name /\
    text = a +:+ header_text ws1 keyword ws2 prefix name +:+ ps +:+ ")" +:+ b /\ nests 0 ps = true /\ f = read_header name prefix ps.
Proof.
  intros (a & c & c' & Ha & Hacc & Hs & He) E. destruct (header_inv _ _ _ _ _ Ha Hacc) as (ws1 & kw & ws2 & prefix & name & Hh & Hb & Hg).
  destruct m as [s e g]. cbn [rm_start rm_end rm_groups] in *. subst g. destruct (between_app _ _ _ _ _ Ha Hb) as (rest & Et & _).
  change (text = (a +:+ header_text ws1 kw ws2 prefix name) +:+ rest) in Et. rewrite string_app_assoc in Et.
  destruct (group_spans a ws1 kw ws2 prefix name s e text rest Et) as (G1 & G2 & G3).
  unfold parse_function in E. rewrite G1, G2, G3 in E. destruct (String.eqb_spec kw keyword) as [->|]; [|done]. cbn [negb rm_end] in E.
  set (pre := a +:+ ws1 +:+ keyword +:+ ws2 +:+ prefix +:+ "@" +:+ name). assert (text = pre +:+ "(" +:+ rest) as Et2
    by (rewrite Et; unfold header_text, pre; by rewrite !string_app_assoc).
  assert (e = S (String.length pre)) as ->.
  { rewrite He, (proj1 (between_len _ _ _ Hb)), (proj1 (between_len _ _ _ Ha)). unfold header_text, pre. rewrite !string_length_app. cbn. lia. }
  replace (S (String.length pre) - 1)%nat with (String.length pre) in E by lia.
  destruct (matchingParen text (String.length pre)) as [n|] eqn:Em; [|done]. injection E as <-. rewrite Et2 in Em.
  apply matchingParen_nests in Em as (ps & b & -> & -> & Hn). exists a, ws1, ws2, prefix, name, ps, b. split_and!; [done | done | done |].
  unfold read_header. rewrite (span_at text (pre +:+ "(") ps (")" +:+ b)); [done | rewrite Et2, !string_app_assoc; done | |];
    rewrite ?string_length_app; cbn [String.length]; lia.
Qed.

(** Reading headers: a function that [parseFunctions] returns stands in the text
    as a header at the start of a line, with the keyword, a prefix on one line, an
    identifier, and a parameter list up to the parenthesis that closes it; its fields
    are what the type and attribute readers find in these pieces.  And no header is
    passed over: wherever one stands, a match of the scan lies across its start. *)
Theorem parseFunctions_reads text keyword :
  (forall f, f ∈ parseFunctions text keyword -> exists a ws1 ws2 prefix name ps b, header a ws1 keyword ws2 prefix name /\
     text = a +:+ header_text ws1 keyword ws2 prefix name +:+ ps +:+ ")" +:+ b /\ nests 0 ps = true /\ f = read_header name prefix ps) /\
  (forall a ws1 kw ws2 prefix name rest, header a ws1 kw ws2 prefix name -> text = a +:+ header_text ws1 kw ws2 prefix name +:+ rest ->
     exists m, m ∈ find_all headerRE text /\ (rm_start m <= String.length a < rm_end m)%nat).
Proof.
  split.
  - intros f (m & Hm & E)%list_elem_of_omap. by eapply parse_function_inv; [apply find_all_sound|].
  - intros a ws1 kw ws2 prefix name rest Hh E. assert (between a (start_of text) (after a (start_of text))) as Ha by (by exists (header_text ws1 kw ws2 prefix name +:+ rest)).
    pose proof (proj1 (between_len _ _ _ Ha)) as L. cbn [start_of cu_off] in L.
    destruct (find_all_covers headerRE text a _ header_consumes Ha) as (m & Hm & Hspan); [|exists m; split; [done | lia]].
    eapply header_matches; [exact Ha | exact Hh |]. by apply (after_rest a (start_of text)).
Qed.

Definition demo_header : string := "; a module" +:+ String newline "define internal i32 @add(i32 noundef %a, ptr byval(i8) %b) {".

Lemma demo_header_pieces : header ("; a module" +:+ String newline "") "" "define" " " "internal i32 " "add".
Proof. constructor; [right; by exists "; a module" | done | by left | done | done | by exists "a"%char, "dd"]. Qed.

Example parseFunctions_reads_witness :
  parseFunctions demo_header "define" =
    [mkLL "add" "i32" [] [] ["i32"; "ptr"] [["noundef"]; []] [[]; ["byval"]] false true false] /\
  (exists a ws1 ws2 prefix name ps b, header a ws1 "define" ws2 prefix name /\
     demo_header = a +:+ header_text ws1 "define" ws2 prefix name +:+ ps +:+ ")" +:+ b /\ nests 0 ps = true) /\
  (exists m, m ∈ find_all headerRE demo_header /\ (rm_start m <= 11 < rm_end m)%nat).
Proof.
  split; [by vm_compute|]. destruct (parseFunctions_reads demo_header "define") as [Hr Hc]. split.
  - destruct (Hr (mkLL "add" "i32" [] [] ["i32"; "ptr"] [["noundef"]; []] [[]; ["byval"]] false true false))
      as (a & ws1 & ws2 & p & n & ps & b & Hh & Et & Hn & _).
    + replace (parseFunctions demo_header "define") with
        [mkLL "add" "i32" [] [] ["i32"; "ptr"] [["noundef"]; []] [[]; ["byval"]] false true false] by by vm_compute. by left.
    + by exists a, ws1, ws2, p, n, ps, b.
  - exact (Hc _ _ _ _ _ _ "i32 noundef %a, ptr byval(i8) %b) {" demo_header_pieces eq_refl).
Defined.
