(* ===== verification/ParMove.v ===== *)
(** * Parallel register moves

    The four functions [parallelGPR], [parallelXMM] (src/internal/lower/goabi_x86.go),
    [parallelArm64GPR] and [parallelArm64FPR] (goabi_a64.go) are one algorithm over
    four register files: emit a move whose destination is no pending source, and
    when there is none save the first source in a scratch register.  It is modelled
    once, over the type [T] of what a move carries besides its registers (nothing,
    the LLVM type, or the size), and proved to end and to implement the parallel
    assignment; the four instances add the scratch register and the text. *)

From stdpp Require Import functions base list strings gmap.
From S2P Require Import Prelude.

Record pmove (T : Type) := mkMove { pm_src : string; pm_dst : string; pm_ty : T }.
Arguments mkMove {T}.
Arguments pm_src {T}.
Arguments pm_dst {T}.
Arguments pm_ty {T}.

Section Algorithm.
Context {T : Type}.
Variable tmp : string.

Definition srcs (ms : list (pmove T)) : list string := pm_src <$> ms.
Definition dsts (ms : list (pmove T)) : list string := pm_dst <$> ms.

(** The index of the first pending move whose destination is not a source. *)
Definition ready (ms : list (pmove T)) : option nat :=
  fst <$> list_find (fun m => pm_dst m ∉ srcs ms) ms.

(** [if pending[i].src == src { pending[i].src = tmp }] *)
Definition redirect (src : string) (m : pmove T) : pmove T :=
  if String.eqb (pm_src m) src then mkMove tmp (pm_dst m) (pm_ty m) else m.

(** The loop [for len(pending) > 0]; its output is the moves executed, in order.
    [None] when the fuel runs out. *)
Fixpoint moves_go (fuel : nat) (pending : list (pmove T)) : option (list (pmove T)) :=
  match fuel, pending with
  | _, [] => Some []
  | O, _ => None
  | S fuel, m0 :: _ =>
      match ready pending with
      | Some i =>
          m ← pending !! i;
          out ← moves_go fuel (take i pending ++ drop (S i) pending);
          Some (m :: out)
      | None =>
          out ← moves_go fuel (redirect (pm_src m0) <$> pending);
          Some (mkMove (pm_src m0) tmp (pm_ty m0) :: out)
      end
  end.

(** Moves from a register to itself are dropped first.  Two turns per move are
    enough: a turn that saves a source is followed by one that moves. *)
Definition parallel (moves : list (pmove T)) : list (pmove T) :=
  let pending := filter (fun m => pm_src m <> pm_dst m) moves in
  default [] (moves_go (2 * length pending + 1) pending).

(** ** Execution

    [mv t old v] is the new value of the destination; [low t] is the part of a
    value a move of type [t] is about. *)

Variables (mv : T -> Z -> Z -> Z) (low : T -> Z -> Z).
Hypothesis low_mv : forall t old v, low t (mv t old v) = low t v.

Definition exec_move (rf : string -> Z) (m : pmove T) : string -> Z :=
  <[pm_dst m := mv (pm_ty m) (rf (pm_dst m)) (rf (pm_src m))]> rf.

Definition exec (rf : string -> Z) (ms : list (pmove T)) : string -> Z := foldl exec_move rf ms.

Lemma ready_spec ms i :
  ready ms = Some i -> exists m, ms !! i = Some m /\ pm_dst m ∉ srcs ms.
Proof.
  unfold ready. intros ([j m] & H & ->)%fmap_Some. apply list_find_Some in H as (H1 & H2 & _). eauto.
Qed.

Lemma ready_none ms : ready ms = None -> forall m, m ∈ ms -> pm_dst m ∈ srcs ms.
Proof.
  unfold ready. intros H%fmap_None m Hm. apply list_find_None in H. rewrite Forall_forall in H.
  destruct (decide (pm_dst m ∈ srcs ms)); [done|]. by destruct (H m Hm).
Qed.

(** With no move ready the sources are the destinations. *)
Lemma stuck_sources ms :
  NoDup (srcs ms) -> NoDup (dsts ms) -> ready ms = None -> srcs ms ≡ₚ dsts ms.
Proof.
  intros Hs Hd Hr. symmetry. apply submseteq_length_Permutation.
  - apply NoDup_submseteq; [done|]. intros x (m & -> & Hm)%list_elem_of_fmap. by apply ready_none.
  - unfold srcs, dsts. by rewrite !length_fmap.
Qed.

Lemma redirect_others m0 ms :
  NoDup (srcs (m0 :: ms)) -> redirect (pm_src m0) <$> (m0 :: ms) = mkMove tmp (pm_dst m0) (pm_ty m0) :: ms.
Proof.
  intros [Hn _]%NoDup_cons. rewrite fmap_cons. f_equal.
  - unfold redirect. by rewrite String.eqb_refl.
  - rewrite <-(list_fmap_id ms) at 2. apply list_fmap_ext. intros i m Hm. unfold redirect.
    destruct (String.eqb_spec (pm_src m) (pm_src m0)) as [E|]; [|done].
    destruct Hn. rewrite <-E. apply (list_elem_of_fmap_2 pm_src). by eapply list_elem_of_lookup_2.
Qed.

Definition need (ms : list (pmove T)) : nat :=
  2 * length ms + (if decide (tmp ∈ srcs ms) then 0 else 1).

Record wf (ms : list (pmove T)) : Prop := {
  wf_src : NoDup (srcs ms); wf_dst : NoDup (dsts ms); wf_tmp : tmp ∉ dsts ms }.

Lemma wf_remove ms i m : ms !! i = Some m -> wf ms ->
  wf (take i ms ++ drop (S i) ms) /\ pm_dst m ∉ dsts (take i ms ++ drop (S i) ms) /\
  (forall x, x ∈ ms <-> x = m \/ x ∈ take i ms ++ drop (S i) ms).
Proof.
  intros Hi [H1 H2 H3]. assert (ms ≡ₚ m :: (take i ms ++ drop (S i) ms)) as Hp.
  { rewrite <-(take_drop_middle ms i m Hi) at 1. by rewrite Permutation_middle. }
  set (rest := take i ms ++ drop (S i) ms) in *. clearbody rest.
  unfold srcs, dsts in *. rewrite Hp in H1, H2, H3. rewrite fmap_cons in H1, H2, H3.
  apply NoDup_cons in H1 as [_ H1]. apply NoDup_cons in H2 as [H2' H2].
  split; [split; set_solver|]. split; [done|]. intros x. rewrite Hp. set_solver.
Qed.

(** The invariant of the loop: from any register file, the emitted moves give
    every pending destination the value of its source. *)
Lemma moves_go_ok fuel : forall ms rf, wf ms -> (need ms <= fuel)%nat ->
  exists out, moves_go fuel ms = Some out /\
    (forall m, m ∈ ms -> low (pm_ty m) (exec rf out (pm_dst m)) = low (pm_ty m) (rf (pm_src m))) /\
    (forall r, r ∉ dsts ms -> r <> tmp -> exec rf out r = rf r).
Proof using low_mv.
  induction fuel as [|fuel IH]; intros ms rf Hwf Hf; (destruct ms as [|m0 ms]; [exists []; set_solver|]);
    unfold need in Hf; cbn [length] in Hf; [lia|]. cbn [moves_go].
  destruct (ready (m0 :: ms)) as [i|] eqn:Er.
  - destruct (ready_spec _ _ Er) as (m & Hi & Hsrc). rewrite Hi. cbn [mbind option_bind].
    destruct (wf_remove _ _ _ Hi Hwf) as (Hwf' & Hdst & Hin).
    set (rest := take i (m0 :: ms) ++ drop (S i) (m0 :: ms)) in *.
    assert (length rest = length ms) as Hlen.
    { unfold rest. rewrite length_app, length_take, length_drop. apply lookup_lt_Some in Hi. simpl in *. lia. }
    destruct (IH rest (exec_move rf m) Hwf') as (out & -> & Hv & Ho).
    { unfold need. rewrite Hlen. destruct (decide (tmp ∈ srcs rest)), (decide (tmp ∈ srcs (m0 :: ms))); lia. }
    exists (m :: out). split; [done|]. cbn [exec foldl].
    assert (pm_dst m <> tmp) as Htmp.
    { intros E. apply (wf_tmp _ Hwf). rewrite <-E. apply (list_elem_of_fmap_2 pm_dst), Hin. by left. }
    split.
    + intros x [->|Hx]%Hin.
      * unfold exec in Ho. rewrite Ho by done. unfold exec_move. rewrite fn_lookup_insert. apply low_mv.
      * unfold exec in Hv. rewrite Hv by done. unfold exec_move. rewrite fn_lookup_insert_ne; [done|].
        intros E. apply Hsrc. rewrite E. apply (list_elem_of_fmap_2 pm_src), Hin. by right.
    + intros r Hr Hrt. unfold exec in Ho. rewrite Ho; [|intros H; apply Hr|done].
      * unfold exec_move. apply fn_lookup_insert_ne. intros <-. apply Hr, (list_elem_of_fmap_2 pm_dst), Hin. by left.
      * apply list_elem_of_fmap in H as (x & -> & Hx). apply (list_elem_of_fmap_2 pm_dst), Hin. by right.
  - pose proof (stuck_sources _ (wf_src _ Hwf) (wf_dst _ Hwf) Er) as Hperm.
    assert (tmp ∉ srcs (m0 :: ms)) as Hts by (rewrite Hperm; apply Hwf).
    rewrite decide_False in Hf by done. rewrite redirect_others by apply Hwf.
    set (ms' := mkMove tmp (pm_dst m0) (pm_ty m0) :: ms).
    assert (wf ms') as Hwf'.
    { destruct Hwf as [H1 H2 H3]. split; [|exact H2|exact H3]. unfold srcs in *. simpl in *.
      apply NoDup_cons in H1 as [_ H1]. apply NoDup_cons. split; [set_solver|done]. }
    set (sv := mkMove (pm_src m0) tmp (pm_ty m0)).
    destruct (IH ms' (exec_move rf sv) Hwf') as (out & -> & Hv & Ho).
    { unfold need, ms'. rewrite decide_True by (simpl; left). cbn [length]. lia. }
    exists (sv :: out). split; [done|]. cbn [exec foldl]. unfold exec in Hv, Ho. split.
    + intros x [->|Hx]%elem_of_cons.
      * pose proof (Hv (mkMove tmp (pm_dst m0) (pm_ty m0)) ltac:(by left)) as H. simpl in H. rewrite H.
        unfold exec_move, sv; simpl. rewrite fn_lookup_insert. apply low_mv.
      * rewrite (Hv x) by by right. unfold exec_move, sv; simpl. rewrite fn_lookup_insert_ne; [done|].
        intros E. apply Hts. rewrite E. right. by apply (list_elem_of_fmap_2 pm_src).
    + intros r Hr Hrt. rewrite Ho by done. unfold exec_move, sv; simpl. by rewrite fn_lookup_insert_ne.
Qed.

Lemma NoDup_fmap_filter (f : pmove T -> string) (ms : list (pmove T)) :
  NoDup (f <$> ms) -> NoDup (f <$> filter (fun m => pm_src m <> pm_dst m) ms).
Proof.
  induction ms as [|m ms IH]; [done|]. rewrite fmap_cons, filter_cons. intros [Hn Hd]%NoDup_cons.
  case_decide; [|by apply IH]. rewrite fmap_cons. apply NoDup_cons. split; [|by apply IH].
  intros (x & E & Hx)%list_elem_of_fmap. apply Hn. rewrite E. apply (list_elem_of_fmap_2 f).
  by apply list_elem_of_filter in Hx as [_ Hx].
Qed.

Lemma wf_filter ms :
  NoDup (srcs ms) -> NoDup (dsts ms) -> tmp ∉ dsts ms -> wf (filter (fun m => pm_src m <> pm_dst m) ms).
Proof.
  intros Hs Hd Ht. split; [by apply NoDup_fmap_filter | by apply NoDup_fmap_filter |].
  intros (m & E & Hm)%list_elem_of_fmap. apply Ht. rewrite E. apply (list_elem_of_fmap_2 pm_dst).
  by apply list_elem_of_filter in Hm as [_ Hm].
Qed.

(** The whole function, self-moves included. *)
Lemma parallel_ok moves rf :
  NoDup (srcs moves) -> NoDup (dsts moves) -> tmp ∉ dsts moves ->
  (forall m, m ∈ moves ->
     low (pm_ty m) (exec rf (parallel moves) (pm_dst m)) = low (pm_ty m) (rf (pm_src m))) /\
  (forall r, r ∉ dsts moves -> r <> tmp -> exec rf (parallel moves) r = rf r).
Proof using low_mv.
  intros Hs Hd Ht. pose proof (wf_filter _ Hs Hd Ht) as Hwf. unfold parallel. set (pending := filter _ moves) in *.
  destruct (moves_go_ok (2 * length pending + 1) pending rf Hwf) as (out & -> & Hv & Ho).
  { unfold need. destruct (decide (tmp ∈ srcs pending)); lia. }
  simpl. split.
  - intros m Hm. destruct (decide (pm_src m = pm_dst m)) as [E|E].
    + rewrite Ho; [by rewrite E | |].
      * intros (x & Ex & Hx)%list_elem_of_fmap. apply list_elem_of_filter in Hx as [Hne Hx].
        apply list_elem_of_lookup in Hm as [i Hi]. apply list_elem_of_lookup in Hx as [j Hj].
        assert (i = j) as ->; [|congruence].
        apply (NoDup_lookup (dsts moves) i j (pm_dst m) Hd); unfold dsts; rewrite list_lookup_fmap.
        { by rewrite Hi. }
        { rewrite Hj. simpl. by rewrite Ex. }
      * intros E'. apply Ht. rewrite <-E'. by apply (list_elem_of_fmap_2 pm_dst).
    + apply Hv. by apply list_elem_of_filter.
  - intros r Hr Hrt. apply Ho; [|done]. intros (x & -> & Hx)%list_elem_of_fmap. apply Hr.
    apply (list_elem_of_fmap_2 pm_dst). by apply list_elem_of_filter in Hx as [_ Hx].
Qed.

(** C9. Parallel moves: for every list of moves with distinct sources, distinct
    destinations and a scratch register that is no destination, the loop ends and
    the emitted sequence, executed on any register file, leaves in each
    destination what its source held before (the part the move's type is about)
    and changes no other register but the scratch one.  [mv] is the machine's move,
    so this covers 64-bit moves, partial SSE moves and the arm64 moves. *)
Theorem parallel_correct moves rf :
  NoDup (srcs moves) -> NoDup (dsts moves) -> tmp ∉ dsts moves ->
  moves_go (2 * length (filter (fun m => pm_src m <> pm_dst m) moves) + 1)
    (filter (fun m => pm_src m <> pm_dst m) moves) = Some (parallel moves) /\
  (forall m, m ∈ moves ->
     low (pm_ty m) (exec rf (parallel moves) (pm_dst m)) = low (pm_ty m) (rf (pm_src m))) /\
  (forall r, r ∉ dsts moves -> r <> tmp -> exec rf (parallel moves) r = rf r).
Proof using low_mv.
  intros Hs Hd Ht. split; [|by apply parallel_ok]. pose proof (wf_filter _ Hs Hd Ht) as Hwf. unfold parallel.
  set (pending := filter _ moves) in *.
  destruct (moves_go_ok (2 * length pending + 1) pending rf Hwf) as (out & -> & _); [|done].
  unfold need. case_decide; lia.
Qed.
End Algorithm.

(** A rotation of three registers. *)
Lemma parallel_correct_witness :
  let ms := [mkMove "rax" "rdi" tt; mkMove "rdi" "rsi" tt; mkMove "rsi" "rax" tt] in
  let rf := fun r : string => if String.eqb r "rax" then 1 else if String.eqb r "rdi" then 2 else 3 in
  exec (fun _ _ v => v) rf (parallel "r12" ms) "rdi" = 1 /\
  exec (fun _ _ v => v) rf (parallel "r12" ms) "rsi" = 2 /\
  exec (fun _ _ v => v) rf (parallel "r12" ms) "rax" = 3.
Proof.
  intros ms rf.
  destruct (parallel_correct "r12" (fun _ _ v => v) (fun _ v => v) (fun _ _ _ => eq_refl) ms rf) as (_ & H & _).
  - apply (bool_decide_unpack _). vm_compute. exact I.
  - apply (bool_decide_unpack _). vm_compute. exact I.
  - apply (bool_decide_unpack _). vm_compute. exact I.
  - split; [|split].
    + exact (H (mkMove "rax" "rdi" tt) ltac:(left)).
    + exact (H (mkMove "rdi" "rsi" tt) ltac:(right; left)).
    + exact (H (mkMove "rsi" "rax" tt) ltac:(right; right; left)).
Defined.
