(* ===== verification/Thunk.v ===== *)
(** * Entry thunks from Go's ABIInternal to the C ABI

    Models src/internal/lower/goabi_x86.go and goabi_a64.go.  The code of a thunk
    that moves the arguments is a list of instructions [ins]; [x86_text] and
    [a64_text] print them exactly as the source does, and [emitThunksL] assembles
    the whole text.  File ThunkProofs executes the instructions and finds every
    argument where the C ABI wants it. *)

From Stdlib Require Import ZArith Lia Ascii.
From stdpp Require Import functions base list strings gmap.
From S2P Require Import Prelude Layout LayoutProofs ParMove.

(** ** Instructions

    A move between registers, a load from the Go stack arguments and a store to
    the outgoing C stack arguments, of the width of the LLVM type [ty]. *)
Inductive ins :=
| IMov (ty src dst : string)
| ILoad (ty : string) (off : Z) (dst : string)
| IStore (ty src : string) (off : Z).

Definition bank_of (ty : string) : bank := from_option si_bank BInt (scalar ty).

(** The registers a thunk may overwrite freely. *)
Record scratch := mkScratch { tmp_int : string; tmp_float : string }.
Definition x86_scratch : scratch := mkScratch "r12" "xmm15".
Definition a64_scratch : scratch := mkScratch "x16" "d16".

Definition tmp_of (t : scratch) (b : bank) : string :=
  match b with BInt => tmp_int t | BFloat => tmp_float t end.

(** [emitStackArgument], [emitArm64StackArgument] *)
Definition emitStackArgument (t : scratch) (ty : string) (source : loc) (off : Z) : list ins :=
  match source with
  | RegLoc r => [IStore ty r off]
  | StkLoc o => [ILoad ty o (tmp_of t (bank_of ty)); IStore ty (tmp_of t (bank_of ty)) off]
  end.

(** [emitRegisterArgument], [emitArm64RegisterArgument] *)
Definition emitRegisterArgument (ty : string) (off : Z) (dest : string) : list ins := [ILoad ty off dest].

(** ** The argument moves of a thunk

    The loop over the parameters: stack arguments are stored at once, the rest is
    collected in [regMoves], [floatMoves], [intLoads] and [floatLoads]. *)

Definition stores (t : scratch) (x : asg) : list ins :=
  match as_SysV x with
  | StkLoc o => emitStackArgument t (as_Type x) (as_Go x) o
  | RegLoc _ => []
  end.

Definition reg_move (b : bank) (x : asg) : option (pmove string) :=
  match as_Go x, as_SysV x with
  | RegLoc g, RegLoc c => if same_bank (bank_of (as_Type x)) b then Some (mkMove g c (as_Type x)) else None
  | _, _ => None
  end.

Definition reg_load (b : bank) (x : asg) : list ins :=
  match as_Go x, as_SysV x with
  | StkLoc o, RegLoc c => if same_bank (bank_of (as_Type x)) b then emitRegisterArgument (as_Type x) o c else []
  | _, _ => []
  end.

Definition move_ins (m : pmove string) : ins := IMov (pm_ty m) (pm_src m) (pm_dst m).

(** [parallelGPR] and [parallelArm64GPR]: the payload of a move is the type it
    moves (the x86 function always moves 64 bits and does not look at it). *)
Definition parallelInt (t : scratch) (moves : list (pmove string)) : list ins :=
  move_ins <$> parallel (tmp_int t) moves.

(** [parallelXMM] and [parallelArm64FPR] *)
Definition parallelFloat (t : scratch) (moves : list (pmove string)) : list ins :=
  move_ins <$> parallel (tmp_float t) moves.

Definition thunk_moves (t : scratch) (xs : list asg) : list ins :=
  concat (stores t <$> xs) ++
  parallelInt t (omap (reg_move BInt) xs) ++
  parallelFloat t (omap (reg_move BFloat) xs) ++
  concat (reg_load BInt <$> xs) ++
  concat (reg_load BFloat <$> xs).

(** The parameters of a plan, both sides. *)
Definition plan_args (plan : sigPlan) : list asg :=
  zip_with (fun g c => mkAsg (ap_Type g) (ap_Location g) (ap_Location c))
    (ab_Params (pl_Go plan)) (ab_Params (pl_SysV plan)).

(** ** Text *)

Definition tab : string := String "009"%char EmptyString.
Definition nl : string := String "010"%char EmptyString.
Definition dq : string := String "034"%char EmptyString.

Definition gprViews : list (string * (string * string * string)) :=
  [("rax", ("al", "ax", "eax")); ("rbx", ("bl", "bx", "ebx")); ("rcx", ("cl", "cx", "ecx"));
   ("rdx", ("dl", "dx", "edx")); ("rsi", ("sil", "si", "esi")); ("rdi", ("dil", "di", "edi"));
   ("r8", ("r8b", "r8w", "r8d")); ("r9", ("r9b", "r9w", "r9d")); ("r10", ("r10b", "r10w", "r10d"));
   ("r11", ("r11b", "r11w", "r11d")); ("r12", ("r12b", "r12w", "r12d"))].

(** A name that is not in the map, or a size it has no view for, gives "". *)
Definition gprView (reg : string) (size : Z) : string :=
  match snd <$> list_find (fun p => fst p = reg) gprViews with
  | Some (_, (b, w, d)) =>
      if size =? 1 then b else if size =? 2 then w else if size =? 4 then d
      else if size =? 8 then reg else ""
  | None => ""
  end.

Definition moveMnemonic (size : Z) : string :=
  if size =? 1 then "movb" else if size =? 2 then "movw" else if size =? 4 then "movl"
  else if size =? 8 then "movq" else "".

Definition x86_float_op (ty : string) : string := if size_of ty =? 4 then "movss" else "movsd".

Definition stackSource (off : Z) : string := dec (16 + off) +:+ "(%rbp)".

Definition x86_text (i : ins) : string :=
  match i with
  | IMov ty s d =>
      match bank_of ty with
      | BInt => tab +:+ "movq" +:+ tab +:+ "%" +:+ s +:+ ", %" +:+ d
      | BFloat => tab +:+ "mov" +:+ (if String.eqb ty "float" then "ss" else "sd") +:+ tab +:+ "%" +:+ s +:+
                  ", %" +:+ d
      end
  | ILoad ty off d =>
      match bank_of ty with
      | BInt => tab +:+ moveMnemonic (size_of ty) +:+ tab +:+ stackSource off +:+ ", %" +:+
                gprView d (size_of ty)
      | BFloat => tab +:+ x86_float_op ty +:+ tab +:+ stackSource off +:+ ", %" +:+ d
      end
  | IStore ty s off =>
      match bank_of ty with
      | BInt => tab +:+ moveMnemonic (size_of ty) +:+ tab +:+ "%" +:+ gprView s (size_of ty) +:+ ", " +:+
                dec off +:+ "(%rsp)"
      | BFloat => tab +:+ x86_float_op ty +:+ tab +:+ "%" +:+ s +:+ ", " +:+ dec off +:+ "(%rsp)"
      end
  end.

(** [reg[1:]] *)
Definition reg_number (reg : string) : string := match reg with String _ n => n | EmptyString => "" end.

Definition arm64IntName (reg : string) (size : Z) : string :=
  (if size =? 8 then "x" else "w") +:+ reg_number reg.

Definition arm64FloatName (reg ty : string) : string :=
  (if String.eqb ty "float" then "s" else "d") +:+ reg_number reg.

Definition arm64Mem (base : string) (offset : Z) : string := "[" +:+ base +:+ ", #" +:+ dec offset +:+ "]".

Definition a64LRArea : Z := 16.

Definition outArea (a64 : bool) (outgoing : Z) : Z :=
  if a64 && (0 <? outgoing) then outgoing + a64LRArea else outgoing.

Definition a64_text (i : ins) : string :=
  match i with
  | IMov ty s d =>
      match bank_of ty with
      | BInt => tab +:+ "mov" +:+ tab +:+ arm64IntName d (size_of ty) +:+ ", " +:+ arm64IntName s (size_of ty)
      | BFloat => tab +:+ "fmov" +:+ tab +:+ arm64FloatName d ty +:+ ", " +:+ arm64FloatName s ty
      end
  | ILoad ty off d =>
      let src := arm64Mem "x29" (24 + off) in
      match bank_of ty with
      | BInt => let op := if size_of ty =? 1 then "ldrb" else if size_of ty =? 2 then "ldrh" else "ldr" in
                tab +:+ op +:+ tab +:+ arm64IntName d (size_of ty) +:+ ", " +:+ src
      | BFloat => tab +:+ "ldr" +:+ tab +:+ arm64FloatName d ty +:+ ", " +:+ src
      end
  | IStore ty s off =>
      let dest := arm64Mem "sp" (off + a64LRArea) in
      match bank_of ty with
      | BInt => let op := if size_of ty =? 1 then "strb" else if size_of ty =? 2 then "strh" else "str" in
                tab +:+ op +:+ tab +:+ arm64IntName s (size_of ty) +:+ ", " +:+ dest
      | BFloat => tab +:+ "str" +:+ tab +:+ arm64FloatName s ty +:+ ", " +:+ dest
      end
  end.

(** A function with its plan, as the driver hands it over. *)
Record goFunc := mkGoFunc { gf_Name : string; gf_Impl : string; gf_plan : sigPlan }.

(** ** Lines of a generated function

    A line is text with what it does to the stack pointer: nothing ([Line]), a
    label ([Lbl]), lower or raise it ([SpDown], [SpUp]), set the frame pointer [k]
    bytes above it ([FpSet]) or set it to the frame pointer ([SpFromFp]). *)
Inductive item :=
| Line (s : string)
| Lbl (l : string)
| SpDown (n : Z) (s : string)
| SpUp (n : Z) (s : string)
| FpSet (k : Z) (s : string)
| SpFromFp (s : string).

Definition item_text (i : item) : string :=
  match i with
  | Lbl l => l +:+ ":"
  | Line s | SpDown _ s | SpUp _ s | FpSet _ s | SpFromFp s => s
  end.

(** [mark]: a label, only with tables. *)
Definition mark (px : string) (labels : bool) (l : string) (ti : nat) : list item :=
  if labels then [Lbl (px +:+ l +:+ dec (Z.of_nat ti))] else [].

Definition px_w : string := ".Lgocw_".

(** The lines before the body of a function. *)
Definition x86_head (labels : bool) (name : string) : list item :=
  (if labels then [Line (tab +:+ ".section" +:+ tab +:+ ".text." +:+ name +:+ "," +:+ dq +:+ "ax" +:+ dq +:+
                         ",@progbits")] else []) ++
  [Line (tab +:+ ".globl" +:+ tab +:+ name); Line (tab +:+ ".type" +:+ tab +:+ name +:+ ",@function");
   Lbl name].

Definition size_line (name : string) : item := Line (tab +:+ ".size" +:+ tab +:+ name +:+ ", .-" +:+ name).

Definition x86_thunk (labels : bool) (ti : nat) (d : goFunc) : list item :=
  let plan := gf_plan d in
  let mark := mark px_w labels in
  x86_head labels (gf_Name d) ++ [SpDown 8 (tab +:+ "pushq" +:+ tab +:+ "%rbp")] ++
  mark "p" ti ++ [FpSet 0 (tab +:+ "movq" +:+ tab +:+ "%rsp, %rbp")] ++
  (if 0 <? pl_Outgoing plan
   then [SpDown (pl_Outgoing plan) (tab +:+ "subq" +:+ tab +:+ "$" +:+ dec (pl_Outgoing plan) +:+ ", %rsp")] ++
        mark "a" ti else []) ++
  ((fun i => Line (x86_text i)) <$> thunk_moves x86_scratch (plan_args plan)) ++
  mark "c" ti ++ [Line (tab +:+ "call" +:+ tab +:+ gf_Impl d)] ++ mark "r" ti ++
  ((fun mv => Line (tab +:+ "movq" +:+ tab +:+ "%" +:+ fst mv +:+ ", %" +:+ snd mv)) <$> pl_ResultMoves plan) ++
  [Line (tab +:+ "pxor" +:+ tab +:+ "%xmm15, %xmm15"); SpFromFp (tab +:+ "movq" +:+ tab +:+ "%rbp, %rsp")] ++
  mark "m" ti ++ [SpUp 8 (tab +:+ "popq" +:+ tab +:+ "%rbp")] ++ mark "o" ti ++ [Line (tab +:+ "ret")] ++
  mark "e" ti ++ [size_line (gf_Name d)].

(** [strings.ContainsAny(s[:1], "dsqv")]: the empty name would panic; result
    registers are not empty. *)
Definition is_float_reg (s : string) : bool :=
  match s with
  | String c _ => Ascii.eqb c "d"%char || Ascii.eqb c "s"%char || Ascii.eqb c "q"%char || Ascii.eqb c "v"%char
  | EmptyString => false
  end.

Definition a64_thunk (labels : bool) (ti : nat) (d : goFunc) : list item :=
  let plan := gf_plan d in
  let mark := mark px_w labels in
  (if labels then [Line (tab +:+ ".section" +:+ tab +:+ ".text." +:+ gf_Name d +:+ "," +:+ dq +:+ "ax" +:+ dq +:+
                         ",%progbits")] else []) ++
  [Line (tab +:+ ".globl" +:+ tab +:+ gf_Name d); Line (tab +:+ ".type" +:+ tab +:+ gf_Name d +:+ ", %function");
   Line (tab +:+ ".balign" +:+ tab +:+ "4"); Lbl (gf_Name d); SpDown 32 (tab +:+ "sub" +:+ tab +:+ "sp, sp, #32")] ++
  mark "p" ti ++
  [Line (tab +:+ "stp" +:+ tab +:+ "x29, x30, [sp, #16]"); FpSet 16 (tab +:+ "add" +:+ tab +:+ "x29, sp, #16");
   Line (tab +:+ "str" +:+ tab +:+ "x30, [sp]")] ++
  (if 0 <? pl_Outgoing plan
   then [SpDown (outArea true (pl_Outgoing plan))
           (tab +:+ "sub" +:+ tab +:+ "sp, sp, #" +:+ dec (outArea true (pl_Outgoing plan)))] ++
        mark "a" ti ++ [Line (tab +:+ "str" +:+ tab +:+ "x30, [sp]")] else []) ++
  ((fun i => Line (a64_text i)) <$> thunk_moves a64_scratch (plan_args plan)) ++
  mark "c" ti ++ [Line (tab +:+ "bl" +:+ tab +:+ gf_Impl d)] ++ mark "r" ti ++
  ((fun mv => Line (tab +:+ (if is_float_reg (fst mv) then "fmov" else "mov") +:+ tab +:+ snd mv +:+ ", " +:+ fst mv))
     <$> pl_ResultMoves plan) ++
  [SpFromFp (tab +:+ "mov" +:+ tab +:+ "sp, x29")] ++ mark "m" ti ++
  [SpUp 16 (tab +:+ "ldp" +:+ tab +:+ "x29, x30, [sp], #16")] ++ mark "o" ti ++ [Line (tab +:+ "ret")] ++
  mark "e" ti ++ [size_line (gf_Name d)].

Definition emitArm64Thunks (goabi : list goFunc) (labels : bool) : string :=
  join nl (["// Go 1.24 arm64 ABIInternal -> AAPCS64 entry thunks — generated"; tab +:+ ".text"] ++
           (item_text <$> concat (imap (a64_thunk labels) goabi)) ++ [""]).

Definition emitThunksL (a : abiSet) (goabi : list goFunc) (labels : bool) : string :=
  if String.eqb (a_arch a) "arm64" then emitArm64Thunks goabi labels
  else
    join nl (["# Go 1.24 ABIInternal -> SysV entry thunks — generated"; tab +:+ ".text"] ++
             (item_text <$> concat (imap (x86_thunk labels) goabi)) ++ [""]).
