(* ===== verification/ThunkProofs.v ===== *)
(** * Entry thunks put every argument in place

    An execution model of the instructions of Thunk over an interface [Machine]
    (what a partial register write does), with the two architectures as instances,
    and the theorem that after the argument moves of a thunk every C argument
    location holds the Go argument's value. *)

From Stdlib Require Import ZArith Lia Ascii.
From stdpp Require Import functions base list strings gmap.
From S2P Require Import Prelude Layout LayoutProofs ParMove Thunk.

(** ** Execution *)

(** The part of a register that a value of type [ty] occupies. *)
Definition low (ty : string) (v : Z) : Z := v mod 2 ^ (8 * size_of ty).

(** What an architecture promises about register writes: a move and a load of
    type [ty] define the low part of the destination (the rest may be kept, as
    partial x86 writes do, or cleared, as arm64 writes do). *)
Class Machine := {
  mv : string -> Z -> Z -> Z;  (* type, old destination, source *)
  ld : string -> Z -> Z -> Z;  (* type, old destination, loaded value *)
  low_mv : forall ty old v, low ty (mv ty old v) = low ty v;
  low_ld : forall ty old v, low ty (ld ty old v) = low ty v }.

(** Registers and memory, a byte per address. *)
Record mstate := mkM { m_regs : string -> Z; m_mem : Z -> Z }.

Definition load (mem : Z -> Z) (n : nat) (a : Z) : Z :=
  le_value ((fun i => mem (a + Z.of_nat i)) <$> seq 0 n).

Definition store (mem : Z -> Z) (n : nat) (a v : Z) : Z -> Z := fun x =>
  if (a <=? x) && (x <? a + Z.of_nat n) then default 0 (le_bytes n v !! Z.to_nat (x - a)) else mem x.

Definition bytes_of (ty : string) : nat := Z.to_nat (size_of ty).

Section Exec.
Context `{Machine}.
(** The addresses of the first Go stack argument and the first C stack argument. *)
Variables (goArgs cArgs : Z).

Definition step (s : mstate) (i : ins) : mstate :=
  let r := m_regs s in
  match i with
  | IMov ty src dst => mkM (<[dst := mv ty (r dst) (r src)]> r) (m_mem s)
  | ILoad ty off dst =>
      mkM (<[dst := ld ty (r dst) (load (m_mem s) (bytes_of ty) (goArgs + off))]> r) (m_mem s)
  | IStore ty src off => mkM r (store (m_mem s) (bytes_of ty) (cArgs + off) (r src))
  end.

Definition run (s : mstate) (l : list ins) : mstate := foldl step s l.

(** The value of an argument of type [ty] at a location of each side. *)
Definition go_value (s : mstate) (ty : string) (l : loc) : Z :=
  match l with
  | RegLoc r => low ty (m_regs s r)
  | StkLoc o => low ty (load (m_mem s) (bytes_of ty) (goArgs + o))
  end.

Definition c_value (s : mstate) (ty : string) (l : loc) : Z :=
  match l with
  | RegLoc r => low ty (m_regs s r)
  | StkLoc o => low ty (load (m_mem s) (bytes_of ty) (cArgs + o))
  end.
End Exec.

(** ** The two architectures *)

(** The low [w] bits of [old] replaced. *)
Definition merge (w old v : Z) : Z := old / 2 ^ w * 2 ^ w + v mod 2 ^ w.

Lemma low_merge ty old v : low ty (merge (8 * size_of ty) old v) = low ty v.
Proof.
  unfold low, merge. pose proof (size_of_nonneg ty).
  rewrite Z.add_comm, Z.mod_add, Z.mod_mod; [done | | ]; apply Z.pow_nonzero; lia.
Qed.

(** x86: 64-bit integer moves, SSE moves and byte or word loads keep the upper
    part, 32-bit and SSE loads clear it. *)
#[export, program] Instance x86_machine : Machine := {|
  mv ty old v := match bank_of ty with BInt => v | BFloat => merge (8 * size_of ty) old v end;
  ld ty old v := match bank_of ty with
                 | BInt => if size_of ty <=? 2 then merge (8 * size_of ty) old v else v
                 | BFloat => v
                 end |}.
Next Obligation. intros ty old v. simpl. destruct (bank_of ty); [done | apply low_merge]. Qed.
Next Obligation.
  intros ty old v. simpl. destruct (bank_of ty); [|done]. destruct (size_of ty <=? 2); [apply low_merge | done].
Qed.

Lemma size_of_cases ty : size_of ty = 0 \/ is_align (size_of ty).
Proof.
  unfold size_of. destruct (scalar ty) as [info|] eqn:E; [right|by left]. simpl.
  destruct (scalar_align _ _ E) as [Ha ->]. done.
Qed.

(** arm64: moves of w registers and of s and d registers clear the upper part;
    loads zero-extend. *)
Definition a64_width (ty : string) : Z :=
  match bank_of ty with BInt => if size_of ty =? 8 then 64 else 32 | BFloat => 8 * size_of ty end.

#[export, program] Instance a64_machine : Machine := {|
  mv ty old v := v mod 2 ^ a64_width ty;
  ld ty old v := v |}.
Next Obligation.
  intros ty old v. unfold low. simpl.
  assert (0 <= 8 * size_of ty <= a64_width ty) as [H0 H1].
  { unfold a64_width. destruct (bank_of ty), (size_of_cases ty) as [->|[->|[->|[->| ->]]]]; simpl; lia. }
  rewrite <-Znumtheory.Zmod_div_mod; [done | | |].
  - apply Z.pow_pos_nonneg; lia.
  - apply Z.pow_pos_nonneg; lia.
  - exists (2 ^ (a64_width ty - 8 * size_of ty)). rewrite <-Z.pow_add_r by lia. f_equal. lia.
Qed.
Next Obligation. done. Qed.

(** ** Memory *)

Lemma load_store_same mem n a v : load (store mem n a v) n a = v mod 2 ^ (8 * Z.of_nat n).
Proof.
  unfold load. rewrite <-le_value_le_bytes. f_equal. apply list_eq. intros i.
  rewrite list_lookup_fmap. destruct (decide (i < n)%nat) as [Hi|Hi].
  - rewrite lookup_seq_lt by done. simpl. unfold store.
    rewrite (proj2 (Z.leb_le _ _)), (proj2 (Z.ltb_lt _ _)) by lia. simpl.
    replace (Z.to_nat (a + Z.of_nat i - a)) with i by lia.
    destruct (lookup_lt_is_Some_2 (le_bytes n v) i) as [b ->]; [by rewrite length_le_bytes | done].
  - rewrite lookup_seq_ge by lia. simpl. symmetry. apply lookup_ge_None_2. rewrite length_le_bytes. lia.
Qed.

Lemma load_ext mem mem' n a :
  (forall x, a <= x < a + Z.of_nat n -> mem x = mem' x) -> load mem n a = load mem' n a.
Proof.
  intros H. unfold load. f_equal. apply list_fmap_ext. intros i x Hx.
  apply lookup_seq in Hx as [-> Hx]. simpl. apply H. lia.
Qed.

Lemma store_out mem n a v x : x < a \/ a + Z.of_nat n <= x -> store mem n a v x = mem x.
Proof.
  intros Hx. unfold store. destruct (Z.leb_spec a x), (Z.ltb_spec x (a + Z.of_nat n)); simpl; try done; lia.
Qed.

Lemma bytes_of_Z ty : Z.of_nat (bytes_of ty) = size_of ty.
Proof. unfold bytes_of. pose proof (size_of_nonneg ty). lia. Qed.

Lemma low_low ty v : low ty (low ty v) = low ty v.
Proof. unfold low. apply Z.mod_mod, Z.pow_nonzero; pose proof (size_of_nonneg ty); lia. Qed.

(** ** Lists of locations *)

Lemma NoDup_omap_inj {A B} (f : A -> option B) l x y v :
  NoDup (omap f l) -> x ∈ l -> y ∈ l -> f x = Some v -> f y = Some v -> x = y.
Proof.
  induction l as [|a l IH]; [set_solver|]. cbn [omap list_omap]. intros Hnd.
  intros [->|Hx]%elem_of_cons [->|Hy]%elem_of_cons Ex Ey; [done| | |].
  - rewrite Ex in Hnd. apply NoDup_cons in Hnd as [Hn _]. destruct Hn. apply list_elem_of_omap. eauto.
  - rewrite Ey in Hnd. apply NoDup_cons in Hnd as [Hn _]. destruct Hn. apply list_elem_of_omap. eauto.
  - apply IH; try done. destruct (f a); [by apply NoDup_cons in Hnd as [_ ?] | done].
Qed.

Lemma omap_fmap_list {A B C} (f : A -> B) (g : B -> option C) (l : list A) :
  omap g (f <$> l) = omap (fun x => g (f x)) l.
Proof. induction l as [|x l IH]; [done|]. cbn. rewrite <-IH. by destruct (g (f x)). Qed.

Lemma omap_NoDup {A B C} (f : A -> option B) (g : A -> option C) (h : B -> C) l :
  (forall x y, x ∈ l -> f x = Some y -> g x = Some (h y)) -> NoDup (omap g l) -> NoDup (h <$> omap f l).
Proof.
  induction l as [|a l IH]; [done|]. intros Hfg. cbn [omap list_omap]. intros Hnd.
  specialize (IH ltac:(set_solver)).
  destruct (f a) as [b|] eqn:Ef.
  - rewrite (Hfg a b ltac:(by left) Ef) in Hnd. apply NoDup_cons in Hnd as [Hn Hd]. rewrite fmap_cons. apply NoDup_cons.
    split; [|by apply IH]. intros (z & Ez & Hz)%list_elem_of_fmap. apply Hn. rewrite Ez.
    apply list_elem_of_omap in Hz as (x & Hx & Ex). apply list_elem_of_omap.
    exists x. split; [done|]. apply Hfg; [by right | done].
  - apply IH. destruct (g a); [by apply NoDup_cons in Hnd as [_ ?] | done].
Qed.

Lemma pairwise_apart_cons s l :
  pairwise_apart (s :: l) -> (forall t, t ∈ l -> apart s t) /\ pairwise_apart l.
Proof.
  intros H. split.
  - intros t [i Hi]%list_elem_of_lookup. by apply (H 0%nat (S i)).
  - intros i j u v Hij Hu Hv. apply (H (S i) (S j)); [lia | done | done].
Qed.

Lemma reg_of_bank b ty r info :
  scalar ty = Some info -> reg_of b (ty, RegLoc r) = if same_bank (si_bank info) b then Some r else None.
Proof. intros E. unfold reg_of. simpl. by rewrite E. Qed.

Lemma in_regs b l r : r ∈ regs_of b l -> r ∈ arg_regs l.
Proof. unfold arg_regs. destruct b; set_solver. Qed.

Lemma regs_NoDup b l : NoDup (arg_regs l) -> NoDup (regs_of b l).
Proof. unfold arg_regs. intros (? & _ & ?)%NoDup_app. by destruct b. Qed.

Section Correct.
Context `{M : Machine}.
Variables (goArgs cArgs size : Z) (t : scratch) (xs : list asg).

Hypothesis Hgo : NoDup (arg_regs (go_args xs)).
Hypothesis Hc : NoDup (arg_regs (c_args xs)).
Hypothesis Hbanks : forall r, r ∈ regs_of BFloat (go_args xs) -> r ∉ regs_of BInt (c_args xs).
Hypothesis Htmp : forall b, tmp_of t b ∉ arg_regs (go_args xs) /\ tmp_of t b ∉ arg_regs (c_args xs).
Hypothesis Hty : Forall (fun x => scalar (as_Type x) <> None) xs.
Hypothesis Hslots : pairwise_apart (slots_of (c_args xs)).
Hypothesis Hin : Forall (fun s => 0 <= s.1 /\ s.1 + s.2 <= size) (slots_of (c_args xs)).
Hypothesis Hgoff : forall x o, x ∈ xs -> as_Go x = StkLoc o -> 0 <= o.
Hypothesis Hareas : cArgs + size <= goArgs.

Abbreviation step := (step goArgs cArgs).
Abbreviation run := (run goArgs cArgs).

Lemma run_app s l k : run s (l ++ k) = run (run s l) k.
Proof using All. unfold run. apply foldl_app. Qed.

(** *** Which registers an argument uses *)

Lemma bank_reg x f r : x ∈ xs -> f x = RegLoc r ->
  reg_of (bank_of (as_Type x)) (as_Type x, f x) = Some r.
Proof using All.
  intros Hx E. destruct (scalar (as_Type x)) as [info|] eqn:Es; [|by destruct (proj1 (Forall_forall _ _) Hty x Hx)].
  rewrite E, (reg_of_bank _ _ _ _ Es). unfold bank_of. rewrite Es. simpl. by destruct (si_bank info).
Qed.

Lemma in_arg_regs (f : asg -> loc) x r : x ∈ xs -> f x = RegLoc r ->
  r ∈ regs_of (bank_of (as_Type x)) ((fun x => (as_Type x, f x)) <$> xs).
Proof using All.
  intros Hx E. apply list_elem_of_omap. exists (as_Type x, f x). split; [|by apply bank_reg].
  by apply (list_elem_of_fmap_2 (fun x => (as_Type x, f x))).
Qed.

(** Two arguments in the same C register are the same argument. *)
Lemma c_unique x y r : x ∈ xs -> y ∈ xs -> as_SysV x = RegLoc r -> as_SysV y = RegLoc r -> x = y.
Proof using All.
  intros Hx Hy Ex Ey.
  pose proof (in_arg_regs as_SysV x r Hx Ex) as Ix. pose proof (in_arg_regs as_SysV y r Hy Ey) as Iy.
  assert (bank_of (as_Type x) = bank_of (as_Type y)) as Eb.
  { pose proof Hc as Hc'. unfold arg_regs in Hc'. apply NoDup_app in Hc' as (_ & Hd & _). unfold c_args in Hd.
    destruct (bank_of (as_Type x)), (bank_of (as_Type y)); try done; by destruct (Hd r). }
  pose proof (bank_reg x as_SysV r Hx Ex) as Rx. pose proof (bank_reg y as_SysV r Hy Ey) as Ry.
  rewrite <-Eb in Ry. pose proof (regs_NoDup (bank_of (as_Type x)) _ Hc) as Hnd.
  unfold regs_of, c_args in Hnd. rewrite omap_fmap_list in Hnd.
  by apply (NoDup_omap_inj _ _ x y r Hnd).
Qed.

Lemma tmp_go b x r : x ∈ xs -> as_Go x = RegLoc r -> r <> tmp_of t b.
Proof using All.
  intros Hx E ->. apply (proj1 (Htmp b)). eapply in_regs. by apply (in_arg_regs as_Go).
Qed.

Lemma tmp_c b x r : x ∈ xs -> as_SysV x = RegLoc r -> r <> tmp_of t b.
Proof using All.
  intros Hx E ->. apply (proj2 (Htmp b)). eapply in_regs. by apply (in_arg_regs as_SysV).
Qed.

(** *** Phase 1: stack arguments *)

(** Registers other than the scratch ones and the Go stack arguments are kept. *)
Definition keeps (s s' : mstate) : Prop :=
  (forall r, (forall b, r <> tmp_of t b) -> m_regs s' r = m_regs s r) /\
  (forall a, goArgs <= a -> m_mem s' a = m_mem s a).

Lemma keeps_go s s' x : keeps s s' -> x ∈ xs ->
  go_value goArgs s' (as_Type x) (as_Go x) = go_value goArgs s (as_Type x) (as_Go x).
Proof using All.
  intros [Hr Hm] Hx. unfold go_value. destruct (as_Go x) as [r|o] eqn:E.
  - rewrite Hr; [done|]. intros b. by eapply tmp_go.
  - f_equal. apply load_ext. intros a Ha. apply Hm. pose proof (Hgoff x o Hx E). lia.
Qed.

(** The instructions of one stack argument. *)
Lemma stores_one s x o : x ∈ xs -> as_SysV x = StkLoc o ->
  let s' := run s (stores t x) in
  (forall r, (forall b, r <> tmp_of t b) -> m_regs s' r = m_regs s r) /\
  (forall a, a < cArgs + o \/ cArgs + o + size_of (as_Type x) <= a -> m_mem s' a = m_mem s a) /\
  c_value cArgs s' (as_Type x) (StkLoc o) = go_value goArgs s (as_Type x) (as_Go x).
Proof using All.
  intros Hx E. unfold stores. rewrite E. pose proof (bytes_of_Z (as_Type x)) as Hb.
  unfold emitStackArgument, go_value, c_value.
  assert (forall v, low (as_Type x) (v mod 2 ^ (8 * Z.of_nat (bytes_of (as_Type x)))) = low (as_Type x) v) as Hlow.
  { intros v. rewrite Hb. apply low_low. }
  destruct (as_Go x) as [g|o']; cbn [ThunkProofs.run foldl ThunkProofs.step m_regs m_mem].
  - split_and!; [done | intros a Ha; apply store_out; lia | by rewrite load_store_same, Hlow].
  - split_and!.
    + intros r Hr. by rewrite fn_lookup_insert_ne by (intros <-; by eapply Hr).
    + intros a Ha. apply store_out. lia.
    + rewrite load_store_same, Hlow, fn_lookup_insert. apply low_ld.
Qed.

Lemma stores_all l : forall s, (forall x, x ∈ l -> x ∈ xs) -> pairwise_apart (slots_of (c_args l)) ->
  let s' := run s (concat (stores t <$> l)) in
  keeps s s' /\
  (forall a, (forall u, u ∈ slots_of (c_args l) -> a < cArgs + u.1 \/ cArgs + u.1 + u.2 <= a) ->
     m_mem s' a = m_mem s a) /\
  (forall x o, x ∈ l -> as_SysV x = StkLoc o ->
     c_value cArgs s' (as_Type x) (StkLoc o) = go_value goArgs s (as_Type x) (as_Go x)).
Proof using All.
  induction l as [|x l IH]; intros s Hl Hp; cbn [fmap list_fmap concat].
  { split_and!; [done | done | set_solver]. }
  rewrite run_app. assert (x ∈ xs) as Hx by (apply Hl; by left).
  destruct (as_SysV x) as [c|o] eqn:E.
  { assert (stores t x = []) as -> by (unfold stores; by rewrite E).
    assert (slots_of (c_args (x :: l)) = slots_of (c_args l)) as Es
      by (unfold slots_of, c_args; cbn; unfold slot_of at 1; cbn; by rewrite E).
    rewrite Es in *. destruct (IH s) as (H1 & H2 & H3); [set_solver | done |]. split_and!; [done | done |].
    intros y o [->|Hy]%elem_of_cons Ey; [congruence | by apply H3]. }
  assert (slots_of (c_args (x :: l)) = (o, size_of (as_Type x)) :: slots_of (c_args l)) as Es
    by (unfold slots_of, c_args; cbn; unfold slot_of at 1; cbn; by rewrite E).
  rewrite Es in *. apply pairwise_apart_cons in Hp as [Hap Hp].
  destruct (stores_one s x o Hx E) as (R1 & M1 & V1). set (s1 := run s (stores t x)) in *.
  assert (0 <= o /\ o + size_of (as_Type x) <= size) as Ho.
  { apply (proj1 (Forall_forall _ _) Hin (o, size_of (as_Type x))). apply list_elem_of_omap.
    exists (as_Type x, StkLoc o). split; [|done]. rewrite <-E.
    by apply (list_elem_of_fmap_2 (fun x => (as_Type x, as_SysV x))). }
  assert (keeps s s1) as K1 by (split; [done|]; intros a Ha; apply M1; lia).
  destruct (IH s1) as ((R2 & G2) & M2 & V2); [set_solver | done |]. split_and!.
  - split; [intros r Hr; by rewrite R2, R1 | intros a Ha; by rewrite G2, (proj2 K1)].
  - intros a Ha. rewrite M2 by (intros u Hu; apply Ha; by right). apply M1. apply (Ha (o, size_of (as_Type x))). by left.
  - intros y o' [->|Hy]%elem_of_cons Ey.
    + rewrite E in Ey. simplify_eq. rewrite <-V1. unfold c_value. f_equal. apply load_ext. intros a Ha.
      rewrite bytes_of_Z in Ha. apply M2. intros u Hu. specialize (Hap u Hu). unfold apart in Hap. simpl in Hap. lia.
    + rewrite (V2 y o' Hy Ey). apply keeps_go; [done|]. apply Hl. by right.
Qed.

(** *** Phases 2 and 3: register moves *)

Lemma run_moves ms : forall s,
  run s (move_ins <$> ms) = mkM (exec mv (m_regs s) ms) (m_mem s).
Proof using All. induction ms as [|m ms IH]; intros [r k]; [done|]. rewrite fmap_cons. exact (IH _). Qed.

Lemma reg_move_spec b x m : reg_move b x = Some m ->
  as_Go x = RegLoc (pm_src m) /\ as_SysV x = RegLoc (pm_dst m) /\ pm_ty m = as_Type x /\
  bank_of (as_Type x) = b.
Proof using All.
  unfold reg_move. destruct (as_Go x), (as_SysV x); try done.
  destruct (bank_of (as_Type x)), b; simpl; intros [= <-]; done.
Qed.

Lemma moves_src_NoDup b : NoDup (srcs (omap (reg_move b) xs)).
Proof using All.
  pose proof (regs_NoDup b _ Hgo) as Hnd. unfold regs_of, go_args in Hnd. rewrite omap_fmap_list in Hnd.
  eapply omap_NoDup; [|exact Hnd]. intros x m Hx Hm. apply reg_move_spec in Hm as (E & _ & _ & <-).
  rewrite <-(bank_reg x as_Go (pm_src m) Hx E). done.
Qed.

Lemma moves_dst_NoDup b : NoDup (dsts (omap (reg_move b) xs)).
Proof using All.
  pose proof (regs_NoDup b _ Hc) as Hnd. unfold regs_of, c_args in Hnd. rewrite omap_fmap_list in Hnd.
  eapply omap_NoDup; [|exact Hnd]. intros x m Hx Hm. apply reg_move_spec in Hm as (_ & E & _ & <-).
  rewrite <-(bank_reg x as_SysV (pm_dst m) Hx E). done.
Qed.

Lemma moves_dst b r : r ∈ dsts (omap (reg_move b) xs) ->
  exists x g, x ∈ xs /\ as_Go x = RegLoc g /\ as_SysV x = RegLoc r /\ bank_of (as_Type x) = b.
Proof using All.
  intros (m & -> & (x & Hx & Hm)%list_elem_of_omap)%list_elem_of_fmap.
  apply reg_move_spec in Hm as (E1 & E2 & _ & Eb). eauto 7.
Qed.

Lemma moves_tmp b b' : tmp_of t b' ∉ dsts (omap (reg_move b) xs).
Proof using All. intros (x & g & Hx & _ & E & _)%moves_dst. by eapply tmp_c in E. Qed.

Lemma moves_ok b s : let s' := run s (move_ins <$> parallel (tmp_of t b) (omap (reg_move b) xs)) in
  m_mem s' = m_mem s /\
  (forall r, r ∉ dsts (omap (reg_move b) xs) -> r <> tmp_of t b -> m_regs s' r = m_regs s r) /\
  (forall x g c, x ∈ xs -> as_Go x = RegLoc g -> as_SysV x = RegLoc c -> bank_of (as_Type x) = b ->
     low (as_Type x) (m_regs s' c) = low (as_Type x) (m_regs s g)).
Proof using All.
  rewrite run_moves.
  destruct (parallel_ok (tmp_of t b) mv low low_mv (omap (reg_move b) xs) (m_regs s)
    (moves_src_NoDup b) (moves_dst_NoDup b) (moves_tmp b b)) as [Hv Ho].
  split_and!; [done | done |]. intros x g c Hx Eg Ec Eb.
  apply (Hv (mkMove g c (as_Type x))). apply list_elem_of_omap. exists x. split; [done|].
  unfold reg_move. rewrite Eg, Ec, Eb. by destruct b.
Qed.

(** *** Phases 4 and 5: loads *)

Lemma loads_ok b l : forall s, (forall x, x ∈ l -> x ∈ xs) -> NoDup (regs_of b (c_args l)) ->
  let s' := run s (concat (reg_load b <$> l)) in
  m_mem s' = m_mem s /\
  (forall r, (forall x o, x ∈ l -> as_Go x = StkLoc o -> as_SysV x = RegLoc r -> bank_of (as_Type x) <> b) ->
     m_regs s' r = m_regs s r) /\
  (forall x o c, x ∈ l -> as_Go x = StkLoc o -> as_SysV x = RegLoc c -> bank_of (as_Type x) = b ->
     low (as_Type x) (m_regs s' c) = low (as_Type x) (load (m_mem s) (bytes_of (as_Type x)) (goArgs + o))).
Proof using All.
  induction l as [|x l IH]; intros s Hl Hnd; cbn [fmap list_fmap concat].
  { split_and!; [done | done | set_solver]. }
  rewrite run_app. assert (x ∈ xs) as Hx by (apply Hl; by left).
  assert (NoDup (regs_of b (c_args l))) as Hnd'.
  { unfold regs_of, c_args in *. cbn in Hnd. destruct (reg_of b _); [by apply NoDup_cons in Hnd as [_ ?] | done]. }
  assert (reg_load b x = [] \/ exists o c, as_Go x = StkLoc o /\ as_SysV x = RegLoc c /\
    bank_of (as_Type x) = b /\ reg_load b x = [ILoad (as_Type x) o c]) as [E|(o & c & Eg & Ec & Eb & E)].
  { unfold reg_load, emitRegisterArgument. destruct (as_Go x), (as_SysV x); try by left.
    destruct (bank_of (as_Type x)), b; simpl; first [by left | right; eauto 7]. }
  - destruct (IH s) as (Mm & R & V); [set_solver | done |]. rewrite E. split_and!; [done | |].
    + intros r Hr. apply R. intros y o Hy. apply (Hr y o). by right.
    + intros y o c [->|Hy]%elem_of_cons Eg Ec Eb; [|by apply V]. exfalso. revert E.
      unfold reg_load. rewrite Eg, Ec, Eb. by destruct b.
  - rewrite E. cbn [ThunkProofs.run foldl ThunkProofs.step].
    set (s1 := mkM _ _). destruct (IH s1) as (Mm & R & V); [set_solver | done |]. split_and!; [done | |].
    + intros r Hr. rewrite R by (intros y o' Hy; apply (Hr y o'); by right). unfold s1; simpl.
      apply fn_lookup_insert_ne. intros <-. by apply (Hr x o ltac:(by left)).
    + intros y o' c' [->|Hy]%elem_of_cons Eg' Ec' Eb'.
      * rewrite Eg in Eg'. rewrite Ec in Ec'. injection Eg' as <-. injection Ec' as <-. rewrite R.
        { unfold s1; simpl. rewrite fn_lookup_insert. apply low_ld. }
        intros y o'' Hy Ey Ey' _. assert (y = x) as -> by (eapply c_unique; [apply Hl; by right | done..]).
        unfold regs_of, c_args in Hnd. cbn in Hnd. rewrite <-Eb, (bank_reg x as_SysV c Hx Ec) in Hnd.
        apply NoDup_cons in Hnd as [Hn _]. apply Hn. apply list_elem_of_omap.
        exists (as_Type x, as_SysV x). split; [by apply (list_elem_of_fmap_2 (fun x => (as_Type x, as_SysV x)))|].
        by apply (bank_reg x as_SysV c Hx Ec).
      * by rewrite (V y o' c').
Qed.

(** A C register argument's register is no other argument's. *)
Lemma not_moved b x c : x ∈ xs -> as_SysV x = RegLoc c ->
  (bank_of (as_Type x) <> b \/ exists o, as_Go x = StkLoc o) -> c ∉ dsts (omap (reg_move b) xs).
Proof using All.
  intros Hx E Hd (y & g & Hy & Eg & Ey & Eb)%moves_dst. assert (y = x) as -> by by eapply c_unique.
  destruct Hd as [|[o Eo]]; [done | congruence].
Qed.

Lemma not_loaded b x c : x ∈ xs -> as_SysV x = RegLoc c ->
  (bank_of (as_Type x) <> b \/ exists g, as_Go x = RegLoc g) ->
  forall y o, y ∈ xs -> as_Go y = StkLoc o -> as_SysV y = RegLoc c -> bank_of (as_Type y) <> b.
Proof using All.
  intros Hx E Hd y o Hy Eg Ey Eb. assert (y = x) as -> by by eapply c_unique.
  destruct Hd as [|[g Eo]]; [done | congruence].
Qed.

Lemma thunk_moves_ok s x : x ∈ xs ->
  c_value cArgs (run s (thunk_moves t xs)) (as_Type x) (as_SysV x) =
  go_value goArgs s (as_Type x) (as_Go x).
Proof using All.
  intros Hx. unfold thunk_moves, parallelInt, parallelFloat. rewrite !run_app.
  destruct (stores_all xs s ltac:(done) Hslots) as (K1 & _ & V1).
  set (s1 := run s (concat (stores t <$> xs))) in *.
  destruct (moves_ok BInt s1) as (M2 & R2 & V2). set (s2 := run s1 (_ <$> _)) in *.
  destruct (moves_ok BFloat s2) as (M3 & R3 & V3). set (s3 := run s2 (_ <$> _)) in *.
  destruct (loads_ok BInt xs s3 ltac:(done) (regs_NoDup _ _ Hc)) as (M4 & R4 & V4).
  set (s4 := run s3 (concat (reg_load BInt <$> xs))) in *.
  destruct (loads_ok BFloat xs s4 ltac:(done) (regs_NoDup _ _ Hc)) as (M5 & R5 & V5).
  set (s5 := run s4 (concat (reg_load BFloat <$> xs))) in *.
  assert (m_mem s5 = m_mem s1) as Hm by (by rewrite M5, M4, M3, M2).
  rewrite <-(keeps_go s s1 x K1 Hx). destruct (as_SysV x) as [c|o] eqn:Ec.
  2: { rewrite (keeps_go s s1 x K1 Hx), <-(V1 x o Hx Ec). unfold c_value. by rewrite Hm. }
  unfold c_value, go_value. destruct (as_Go x) as [g|o] eqn:Eg.
  - rewrite R5 by (eapply not_loaded; eauto). rewrite R4 by (eapply not_loaded; eauto).
    destruct (bank_of (as_Type x)) eqn:Eb.
    + rewrite R3; [by eapply V2 | eapply not_moved; [done|done|left; congruence] |].
      exact (tmp_c BFloat x c Hx Ec).
    + rewrite (V3 x g c Hx Eg Ec Eb). f_equal. apply R2; [|exact (tmp_go BInt x g Hx Eg)].
      intros (y & g' & Hy & _ & Ey & Eb')%moves_dst.
      pose proof (in_arg_regs as_Go x g Hx Eg) as I1. rewrite Eb in I1.
      pose proof (in_arg_regs as_SysV y g Hy Ey) as I2. rewrite Eb' in I2. by apply (Hbanks g).
  - destruct (bank_of (as_Type x)) eqn:Eb.
    + rewrite R5 by (eapply not_loaded; [done|done|left; congruence]).
      rewrite (V4 x o c Hx Eg Ec Eb), M3, M2. done.
    + rewrite (V5 x o c Hx Eg Ec Eb), M4, M3, M2. done.
Qed.

(** The moves write no memory outside the C stack arguments. *)
Lemma thunk_moves_mem s a : a < cArgs \/ cArgs + size <= a ->
  m_mem (run s (thunk_moves t xs)) a = m_mem s a.
Proof using All.
  intros Ha. unfold thunk_moves, parallelInt, parallelFloat. rewrite !run_app.
  rewrite (proj1 (loads_ok BFloat xs _ ltac:(done) (regs_NoDup _ _ Hc))).
  rewrite (proj1 (loads_ok BInt xs _ ltac:(done) (regs_NoDup _ _ Hc))).
  rewrite (proj1 (moves_ok BFloat _)), (proj1 (moves_ok BInt _)).
  destruct (stores_all xs s ltac:(done) Hslots) as (_ & H & _). apply H.
  intros u Hu. destruct (proj1 (Forall_forall _ _) Hin u Hu). lia.
Qed.
(** *** Register moves first

    The C-to-Go stubs emit the stack stores after the register moves.  That is
    right when no value still to be stored sits in a register that another
    argument's destination overwrites. *)

Definition late (x : asg) : list ins := stores t x ++ reg_load BInt x ++ reg_load BFloat x.

Definition safe (x : asg) : Prop :=
  forall g o c y, as_Go x = RegLoc g -> as_SysV x = StkLoc o -> y ∈ xs -> as_SysV y = RegLoc c -> g <> c.

Lemma late_cases x : x ∈ xs ->
  (exists o, as_SysV x = StkLoc o /\ late x = stores t x) \/
  (exists o c, as_Go x = StkLoc o /\ as_SysV x = RegLoc c /\ late x = [ILoad (as_Type x) o c]) \/
  (exists g c, as_Go x = RegLoc g /\ as_SysV x = RegLoc c /\ late x = []).
Proof using All.
  intros Hx. unfold late, reg_load, stores, emitRegisterArgument.
  destruct (as_SysV x) as [c|o].
  - destruct (as_Go x) as [g|o]; [right; right; eauto|]. right; left. exists o, c. split_and!; [done..|].
    by destruct (bank_of (as_Type x)).
  - left. exists o. split; [done|]. destruct (as_Go x); by rewrite app_nil_r.
Qed.

Lemma slots_of_late x l : pairwise_apart (slots_of (c_args (x :: l))) -> x ∈ xs ->
  pairwise_apart (slots_of (c_args l)) /\
  (forall o, as_SysV x = StkLoc o -> 0 <= o /\ o + size_of (as_Type x) <= size /\
     forall u, u ∈ slots_of (c_args l) -> apart (o, size_of (as_Type x)) u).
Proof using All.
  intros Hp Hx. unfold slots_of, c_args in Hp. cbn in Hp. unfold slot_of at 1 in Hp. cbn in Hp.
  destruct (as_SysV x) as [c|o] eqn:E; [by split|].
  apply pairwise_apart_cons in Hp as [Ha Hp]. split; [done|]. intros ? [= <-].
  assert ((o, size_of (as_Type x)) ∈ slots_of (c_args xs)) as Hu.
  { apply list_elem_of_omap. exists (as_Type x, StkLoc o). split; [|done]. rewrite <-E.
    by apply (list_elem_of_fmap_2 (fun x => (as_Type x, as_SysV x))). }
  destruct (proj1 (Forall_forall _ _) Hin _ Hu). done.
Qed.

(** What the late part of an argument writes. *)
Lemma late_one s x : x ∈ xs ->
  let s' := run s (late x) in
  (forall r, (forall b, r <> tmp_of t b) -> (forall o, as_Go x = StkLoc o -> as_SysV x <> RegLoc r) ->
     m_regs s' r = m_regs s r) /\
  (forall a, (forall o, as_SysV x = StkLoc o -> a < cArgs + o \/ cArgs + o + size_of (as_Type x) <= a) ->
     m_mem s' a = m_mem s a) /\
  ((exists o, as_SysV x = StkLoc o) \/ (exists o, as_Go x = StkLoc o) ->
     c_value cArgs s' (as_Type x) (as_SysV x) = go_value goArgs s (as_Type x) (as_Go x)).
Proof using All.
  intros Hx. destruct (late_cases x Hx) as [(o & Ec & ->)|[(o & c & Eg & Ec & ->)|(g & c & Eg & Ec & ->)]].
  - destruct (stores_one s x o Hx Ec) as (R & Mm & V). rewrite Ec. split_and!; [auto | auto | by intros _].
  - cbn [ThunkProofs.run foldl ThunkProofs.step]. rewrite Ec, Eg. split_and!; [|done|].
    + intros r _ Hr. simpl. apply fn_lookup_insert_ne. intros <-. by apply (Hr o).
    + intros _. simpl. rewrite fn_lookup_insert. apply low_ld.
  - rewrite Eg, Ec. split_and!; [done | done |]. intros [[o ?]|[o ?]]; done.
Qed.

Lemma late_all l : forall s, (forall x, x ∈ l -> x ∈ xs) -> pairwise_apart (slots_of (c_args l)) -> Forall safe l ->
  let s' := run s (concat (late <$> l)) in
  (forall r, (forall b, r <> tmp_of t b) -> (forall x o, x ∈ l -> as_Go x = StkLoc o -> as_SysV x <> RegLoc r) ->
     m_regs s' r = m_regs s r) /\
  (forall a, (forall u, u ∈ slots_of (c_args l) -> a < cArgs + u.1 \/ cArgs + u.1 + u.2 <= a) ->
     m_mem s' a = m_mem s a) /\
  (forall x, x ∈ l -> (exists o, as_SysV x = StkLoc o) \/ (exists o, as_Go x = StkLoc o) ->
     c_value cArgs s' (as_Type x) (as_SysV x) = go_value goArgs s (as_Type x) (as_Go x)).
Proof using All.
  induction l as [|x l IH]; intros s Hl Hp Hsafe; cbn [fmap list_fmap concat].
  { split_and!; [done | done | set_solver]. }
  rewrite run_app. assert (x ∈ xs) as Hx by (apply Hl; by left).
  destruct (slots_of_late x l Hp Hx) as [Hp' Hslot]. apply Forall_cons in Hsafe as [Hsx Hsl].
  destruct (late_one s x Hx) as (R1 & M1 & V1). set (s1 := run s (late x)) in *.
  destruct (IH s1) as (R2 & M2 & V2); [set_solver | done | done |]. set (s2 := run s1 (concat (late <$> l))) in *.
  assert (forall y, y ∈ l -> (exists o, as_SysV y = StkLoc o) \/ (exists o, as_Go y = StkLoc o) ->
    go_value goArgs s1 (as_Type y) (as_Go y) = go_value goArgs s (as_Type y) (as_Go y)) as Hkeep.
  { intros y Hy Hd. assert (y ∈ xs) as Hy' by (apply Hl; by right). unfold go_value. destruct (as_Go y) as [g|o] eqn:Ey.
    - destruct Hd as [[o Eo]|[o Eo]]; [|done]. rewrite R1; [done | intros b; by eapply tmp_go |].
      intros o' _ Ec. by apply (proj1 (Forall_forall _ _) Hsl y Hy g o g x).
    - f_equal. apply load_ext. intros a Ha. apply M1. intros o' Eo'. right.
      destruct (Hslot o' Eo') as (? & ? & _). pose proof (Hgoff y o Hy' Ey). lia. }
  assert (forall u, u ∈ slots_of (c_args l) -> u ∈ slots_of (c_args (x :: l))) as Hsub.
  { intros u Hu. unfold slots_of, c_args in *. cbn. destruct (slot_of _); [by right | done]. }
  split_and!.
  - intros r Ht Hr. rewrite R2, R1; [done | done | intros o; apply (Hr x o); by left | done |].
    intros y o Hy. apply (Hr y o). by right.
  - intros a Ha. rewrite M2, M1; [done | |auto].
    intros o Eo. apply (Ha (o, size_of (as_Type x))). unfold slots_of, c_args. cbn. unfold slot_of at 1. cbn.
    rewrite Eo. by left.
  - intros y [->|Hy]%elem_of_cons Hd; [|by rewrite V2, Hkeep]. destruct (decide (x ∈ l)) as [Hxl|Hxl].
    { by rewrite V2, Hkeep. }
    rewrite <-(V1 Hd). unfold c_value. destruct (as_SysV x) as [c|o] eqn:Ec.
    + rewrite R2; [done | intros b; by eapply tmp_c |]. intros y o Hy Eg Ey. apply Hxl.
      assert (y = x) as <- by (eapply c_unique; [apply Hl; by right | done..]). done.
    + f_equal. apply load_ext. intros a Ha. apply M2. intros u Hu.
      destruct (Hslot o eq_refl) as (_ & _ & Hap). specialize (Hap u Hu). unfold apart in Hap. simpl in Hap.
      rewrite bytes_of_Z in Ha. lia.
Qed.

Lemma late_moves_ok s : Forall safe xs ->
  let s' := run s (parallelInt t (omap (reg_move BInt) xs) ++ parallelFloat t (omap (reg_move BFloat) xs) ++
                   concat (late <$> xs)) in
  (forall x, x ∈ xs ->
    c_value cArgs s' (as_Type x) (as_SysV x) = go_value goArgs s (as_Type x) (as_Go x)) /\
  (forall a, a < cArgs \/ cArgs + size <= a -> m_mem s' a = m_mem s a).
Proof using All.
  intros Hsafe. unfold parallelInt, parallelFloat. rewrite !run_app.
  destruct (moves_ok BInt s) as (M2 & R2 & V2). set (s2 := run s (_ <$> _)) in *.
  destruct (moves_ok BFloat s2) as (M3 & R3 & V3). set (s3 := run s2 (_ <$> _)) in *.
  destruct (late_all xs s3 ltac:(done) Hslots Hsafe) as (R4 & M4 & V4).
  set (s4 := run s3 (concat (late <$> xs))) in *. split.
  2: { intros a Ha. rewrite M4, M3, M2; [done|]. intros u Hu.
       destruct (proj1 (Forall_forall _ _) Hin u Hu). lia. }
  intros x Hx. destruct (as_Go x) as [g|o] eqn:Eg.
  - destruct (as_SysV x) as [c|o] eqn:Ec.
    + unfold c_value, go_value. rewrite R4; [| intros b; by eapply tmp_c |].
      2: { intros y o Hy Ey Ey'. assert (y = x) as -> by by eapply c_unique. congruence. }
      destruct (bank_of (as_Type x)) eqn:Eb.
      * rewrite R3; [by eapply V2 | eapply not_moved; [done|done|left; congruence] | exact (tmp_c BFloat x c Hx Ec)].
      * rewrite (V3 x g c Hx Eg Ec Eb). f_equal. apply R2; [|exact (tmp_go BInt x g Hx Eg)].
        intros (y & g' & Hy & _ & Ey & Eb')%moves_dst.
        pose proof (in_arg_regs as_Go x g Hx Eg) as I1. rewrite Eb in I1.
        pose proof (in_arg_regs as_SysV y g Hy Ey) as I2. rewrite Eb' in I2. by apply (Hbanks g).
    + rewrite <-Ec, (V4 x Hx ltac:(left; eauto)), Eg. unfold go_value. f_equal.
      assert (forall b, g ∉ dsts (omap (reg_move b) xs)) as Hg.
      { intros b (y & g' & Hy & _ & Ey & _)%moves_dst. by apply (proj1 (Forall_forall _ _) Hsafe x Hx g o g y). }
      rewrite R3, R2; [done | apply Hg | exact (tmp_go BInt x g Hx Eg) | apply Hg | exact (tmp_go BFloat x g Hx Eg)].
  - rewrite (V4 x Hx ltac:(right; eauto)), Eg. unfold go_value. by rewrite M3, M2.
Qed.
End Correct.

(** ** Plans *)

(** What the two register sets and their scratch registers satisfy. *)
Record abi_thunk (a : abiSet) (t : scratch) : Prop := {
  at_abi : abi_ok a;
  at_banks : Forall (fun r => r ∉ a_sysvInt a) (a_goFloat a);
  at_tmp : forall b, tmp_of t b ∉ a_goInt a ++ a_goFloat a /\ tmp_of t b ∉ a_sysvInt a ++ a_sysvFloat a }.

Lemma regs_of_take b ints floats s l : side_inv ints floats s l ->
  forall r, r ∈ regs_of b l -> r ∈ match b with BInt => ints | BFloat => floats end.
Proof.
  intros [H1 _ H3 _ _ _] r. destruct b; [rewrite H1 | rewrite H3]; intros (i & Hr & _)%elem_of_take;
    by eapply list_elem_of_lookup_2.
Qed.

Lemma zip_with_same {A B C D} (f : B -> C -> D) (g : A -> B) (h : A -> C) (l : list A) :
  zip_with f (g <$> l) (h <$> l) = (fun x => f (g x) (h x)) <$> l.
Proof. induction l as [|x l IH]; [done|]. cbn. f_equal. exact IH. Qed.

Definition bank_regs (b : bank) (ints floats : list string) : list string :=
  match b with BInt => ints | BFloat => floats end.

(** Both sides of an accepted signature are well formed and use the registers of
    their bank. *)
Lemma plan_sides a d plan : abi_ok a -> analyzeSignature a d = Ok plan ->
  let xs := plan_args plan in
  side_ok (go_args xs) (ab_StackArgsSize (pl_Go plan)) /\ side_ok (c_args xs) (ab_StackArgsSize (pl_SysV plan)) /\
  (forall b r, r ∈ regs_of b (go_args xs) -> r ∈ bank_regs b (a_goInt a) (a_goFloat a)) /\
  (forall b r, r ∈ regs_of b (c_args xs) -> r ∈ bank_regs b (a_sysvInt a) (a_sysvFloat a)) /\
  (exists r, assignParams a (ll_Params d) = Ok r /\ ar_Params r = xs).
Proof.
  intros Ha E. apply analyzeSignature_inv in E as (r & gs & ss & ts & E1 & _ & _ & Ego & Ec & _).
  pose proof E1 as (g & c & Hg & [Hc _] & Hgs & Hcs)%assignParams_ok. cbn zeta.
  assert (plan_args plan = ar_Params r) as ->.
  { unfold plan_args. rewrite Ego, Ec. cbn [ab_Params]. rewrite zip_with_same. simpl.
    rewrite <-(list_fmap_id (ar_Params r)) at 2. apply list_fmap_ext. intros i [] _. done. }
  rewrite Ego, Ec. cbn [ab_StackArgsSize]. split_and!; [| | | | by eauto].
  - eapply side_inv_ok; [exact (abi_go _ Ha) | exact Hg |]. rewrite Hgs.
    destruct (alignUp_spec (sd_stack g) 8) as [_ ?]; [unfold is_align; lia | lia].
  - eapply side_inv_ok; [exact (abi_c _ Ha) | exact Hc | lia].
  - intros b r'. exact (regs_of_take b _ _ _ _ Hg r').
  - intros b r'. exact (regs_of_take b _ _ _ _ Hc r').
Qed.

Lemma side_ok_offset (f : asg -> loc) xs size x o : side_ok ((fun x => (as_Type x, f x)) <$> xs) size ->
  x ∈ xs -> f x = StkLoc o -> 0 <= o.
Proof.
  intros (_ & _ & _ & I1) Hx Eo. rewrite Forall_forall in I1. apply (I1 (o, size_of (as_Type x))).
  apply list_elem_of_omap. exists (as_Type x, StkLoc o). split; [|done]. rewrite <-Eo.
  by apply (list_elem_of_fmap_2 (fun x => (as_Type x, f x))).
Qed.

Lemma side_ok_scalar (f : asg -> loc) xs size : side_ok ((fun x => (as_Type x, f x)) <$> xs) size ->
  Forall (fun x => scalar (as_Type x) <> None) xs.
Proof.
  intros (_ & A1 & _). rewrite Forall_fmap in A1. eapply Forall_impl; [exact A1|]. by intros x [? _].
Qed.

Lemma not_arg_reg l ints floats r : (forall b r, r ∈ regs_of b l -> r ∈ bank_regs b ints floats) ->
  r ∉ ints ++ floats -> r ∉ arg_regs l.
Proof.
  intros H Hn Hr. apply Hn. apply elem_of_app. unfold arg_regs in Hr. apply elem_of_app in Hr as [Hr|Hr];
    [left; by apply (H BInt) | right; by apply (H BFloat)].
Qed.

(** Every accepted signature meets the conditions of the moves. *)
Lemma plan_thunk_ok `{Machine} a t d plan goArgs cArgs s :
  abi_thunk a t -> analyzeSignature a d = Ok plan ->
  cArgs + ab_StackArgsSize (pl_SysV plan) <= goArgs ->
  let s' := run goArgs cArgs s (thunk_moves t (plan_args plan)) in
  (forall x, x ∈ plan_args plan ->
     c_value cArgs s' (as_Type x) (as_SysV x) = go_value goArgs s (as_Type x) (as_Go x)) /\
  (forall m, m < cArgs \/ cArgs + ab_StackArgsSize (pl_SysV plan) <= m -> m_mem s' m = m_mem s m).
Proof.
  intros [Ha Hb Ht] E Hareas. destruct (plan_sides a d plan Ha E) as (Hg & Hc & Rg & Rc & _).
  pose proof (fun x o => side_ok_offset as_Go _ _ x o Hg) as Hoff.
  pose proof (side_ok_scalar as_Go _ _ Hg) as Hty.
  destruct Hg as (N1 & _). destruct Hc as (N2 & _ & P2 & I2).
  assert (forall r', r' ∈ regs_of BFloat (go_args (plan_args plan)) -> r' ∉ regs_of BInt (c_args (plan_args plan))) as Hbk.
  { intros r' H1%Rg H2%Rc. by apply (proj1 (Forall_forall _ _) Hb r'). }
  assert (forall b, tmp_of t b ∉ arg_regs (go_args (plan_args plan)) /\ tmp_of t b ∉ arg_regs (c_args (plan_args plan))) as Htm.
  { intros b. destruct (Ht b) as [H1 H2]. split; by eapply not_arg_reg. }
  split; [intros x Hx; by eapply thunk_moves_ok | intros m Hm; by eapply thunk_moves_mem].
Qed.

Lemma plan_outgoing a d plan : analyzeSignature a d = Ok plan ->
  0 <= ab_StackArgsSize (pl_SysV plan) <= pl_Outgoing plan.
Proof.
  intros (r & gs & ss & ts & E1 & _ & E3 & _ & -> & _)%analyzeSignature_inv. simpl.
  destruct (sysv_stack_nonneg _ _ _ E1) as [H0 H8].
  destruct (outgoing_spec _ H0 H8) as (out & E3' & _ & Hr). rewrite E3 in E3'. simplify_eq. lia.
Qed.

Lemma amd64_thunk : abi_thunk amd64_abi x86_scratch.
Proof.
  split; [apply (abiFor_ok "amd64"); vm_compute; reflexivity | | intros []; split];
    apply (bool_decide_unpack _); vm_compute; exact I.
Qed.

Definition arm64_abi : abiSet :=
  Eval vm_compute in match abiFor "arm64" with Ok a => a | Fail _ => mkAbi "" [] [] [] [] [] [] end.

Lemma arm64_thunk : abi_thunk arm64_abi a64_scratch.
Proof.
  split; [apply (abiFor_ok "arm64"); vm_compute; reflexivity | | intros []; split];
    apply (bool_decide_unpack _); vm_compute; exact I.
Qed.

(** C6. amd64 entry thunks: for every signature the analysis accepts and every
    machine state, with RBP at [rbp] and RSP at [rbp - Outgoing] as the prologue
    leaves them, after the emitted argument moves every C argument location (a
    register or [off(%rsp)]) holds the value the Go caller passed (in a register or
    at [16+off(%rbp)]), and no byte outside the C stack argument area changed. *)
Theorem x86_thunk_correct a d plan rbp s :
  abiFor "amd64" = Ok a -> analyzeSignature a d = Ok plan ->
  let goArgs := rbp + 16 in
  let cArgs := rbp - pl_Outgoing plan in
  let s' := run (H := x86_machine) goArgs cArgs s (thunk_moves x86_scratch (plan_args plan)) in
  (forall x, x ∈ plan_args plan ->
     c_value cArgs s' (as_Type x) (as_SysV x) = go_value goArgs s (as_Type x) (as_Go x)) /\
  (forall m, m < cArgs \/ rbp <= m -> m_mem s' m = m_mem s m).
Proof.
  intros Ea E goArgs cArgs s'. pose proof (plan_outgoing a d plan E) as Ho.
  assert (a = amd64_abi) as -> by (vm_compute in Ea; injection Ea as <-; reflexivity).
  destruct (plan_thunk_ok (H := x86_machine) _ _ _ _ goArgs cArgs s amd64_thunk E) as [Hv Hm]; [unfold goArgs, cArgs; lia|].
  split; [exact Hv|]. intros m Hlt. apply Hm. unfold cArgs in *. lia.
Qed.

(** C7. arm64 entry thunks: the same for AAPCS64, with X29 16 below the entry SP
    [sp], the Go stack arguments from [sp+8] and the C stack arguments 16 bytes
    above the new SP; the saved X29 and X30 and the caller's frame are kept. *)
Theorem a64_thunk_correct a d plan sp s :
  abiFor "arm64" = Ok a -> analyzeSignature a d = Ok plan ->
  let goArgs := sp - 16 + 24 in
  let cArgs := sp - 32 - outArea true (pl_Outgoing plan) + a64LRArea in
  let s' := run (H := a64_machine) goArgs cArgs s (thunk_moves a64_scratch (plan_args plan)) in
  (forall x, x ∈ plan_args plan ->
     c_value cArgs s' (as_Type x) (as_SysV x) = go_value goArgs s (as_Type x) (as_Go x)) /\
  (forall m, sp - 16 <= m -> m_mem s' m = m_mem s m).
Proof.
  intros Ea E goArgs cArgs s'. pose proof (plan_outgoing a d plan E) as Ho.
  assert (a = arm64_abi) as -> by (vm_compute in Ea; injection Ea as <-; reflexivity).
  assert (cArgs + ab_StackArgsSize (pl_SysV plan) <= sp - 16) as Hle.
  { unfold cArgs, outArea, a64LRArea. destruct (Z.ltb_spec 0 (pl_Outgoing plan)); simpl; lia. }
  destruct (plan_thunk_ok (H := a64_machine) _ _ _ _ goArgs cArgs s arm64_thunk E) as [Hv Hm]; [unfold goArgs; lia|].
  split; [exact Hv|]. intros m Hlt. apply Hm. lia.
Qed.

Definition demo_state : mstate :=
  mkM (fun r => if String.eqb r "rax" then 7 else if String.eqb r "xmm0" then 9 else 5)
      (fun a => if a =? 1016 then 3 else 0).

Lemma x86_thunk_correct_witness :
  let s' := run (H := x86_machine) 1016 (1000 - 32) demo_state (thunk_moves x86_scratch (plan_args demo_plan)) in
  c_value (1000 - 32) s' "i64" (RegLoc "rdi") = 7 /\ c_value (1000 - 32) s' "float" (RegLoc "xmm0") = 9.
Proof.
  intros s'.
  destruct (x86_thunk_correct amd64_abi demo_func demo_plan 1000 demo_state) as [H _];
    [vm_compute; reflexivity | exact demo_plan_eq |].
  split.
  - exact (H (mkAsg "i64" (RegLoc "rax") (RegLoc "rdi")) ltac:(left)).
  - exact (H (mkAsg "float" (RegLoc "xmm0") (RegLoc "xmm0"))
      (list_elem_of_lookup_2 (plan_args demo_plan) 10 _ eq_refl)).
Defined.

Definition nine_func : llFunc :=
  mkLL "sum9" "i64" [] [] (replicate 9 "i64") (replicate 9 []) (replicate 9 []) false false false.

Definition nine_plan : sigPlan :=
  Eval vm_compute in match analyzeSignature arm64_abi nine_func with
  | Ok p => p | Fail _ => mkPlan (mkAbiSide [] [] 0) (mkAbiSide [] [] 0) "" [] 0 end.

Lemma a64_thunk_correct_witness :
  let s := mkM (fun r => if String.eqb r "x8" then 11 else 0) (fun _ => 0) in
  let s' := run (H := a64_machine) 1008 952 s (thunk_moves a64_scratch (plan_args nine_plan)) in
  c_value 952 s' "i64" (StkLoc 0) = 11.
Proof.
  intros s s'.
  destruct (a64_thunk_correct arm64_abi nine_func nine_plan 1000 s) as [H _];
    [vm_compute; reflexivity | vm_compute; reflexivity |].
  exact (H (mkAsg "i64" (RegLoc "x8") (StkLoc 0))
    (list_elem_of_lookup_2 (plan_args nine_plan) 8 _ eq_refl)).
Defined.

(** ** Results *)

(** The moves after the call, executed in order. *)
Definition exec_results (rf : string -> Z) (mvs : list (string * string)) : string -> Z :=
  foldl (fun rf m => <[snd m := rf (fst m)]> rf) rf mvs.

Definition results_moved (gs ss : list resLoc) : Prop :=
  forall (rf : string -> Z) i g c, gs !! i = Some g -> ss !! i = Some c ->
    exec_results rf (result_moves ss gs) (loc_reg (rl_Location g)) = rf (loc_reg (rl_Location c)).

Lemma results_ok a t ret gs ss ts :
  abiFor a = Ok t -> returnAssignment t ret = Ok (gs, ss, ts) -> results_moved gs ss.
Proof.
  intros Ha E. unfold returnAssignment in E.
  destruct (String.eqb ret "void"); [by simplify_eq; intros rf []|].
  destruct (scalar ret) as [info|].
  { assert (exists r, gs = [mkRes ret (RegLoc r)] /\ ss = [mkRes ret (RegLoc r)]) as (r & -> & ->).
    { destruct (index (a_goInt t) 0) as [r0|]; [|done]. cbn [mbind res_bind] in E.
      destruct (si_bank info); cbn [mbind res_bind] in E; [simplify_eq; eauto|].
      destruct (index (a_goFloat t) 0); simplify_eq/=; eauto. }
    intros rf [|i] g c Hg Hc; simplify_eq/=. by rewrite String.eqb_refl. }
  destruct (aggregateLayout ret "return" true) as [[agg|]|] eqn:Ea; try done. cbn [mbind res_bind] in E.
  apply aggregateLayout_ok in Ea as [Hok Hlim]. pose proof (agg_two _ Hok (Hlim eq_refl)) as Hlen.
  destruct (ag_Fields agg) as [|f1 [|f2 [|]]]; simpl in Hlen; [ | | |lia]; clear -E Ha;
    apply abiFor_cases in Ha as [Ha|Ha]; vm_compute in Ha; injection Ha as <-; simpl in E;
    repeat (destruct (fl_Bank _); simpl in E); simplify_eq;
    intros rf [|[|i]] g c Hg Hc; simplify_eq/=; done.
Qed.

(** Results: after the call, the emitted result moves give every Go result
    register the value the C ABI returned it in, for every return type the
    analysis accepts on either architecture. *)
Theorem results_correct arch a d plan rf i g c :
  abiFor arch = Ok a -> analyzeSignature a d = Ok plan ->
  ab_Results (pl_Go plan) !! i = Some g -> ab_Results (pl_SysV plan) !! i = Some c ->
  exec_results rf (pl_ResultMoves plan) (loc_reg (rl_Location g)) = rf (loc_reg (rl_Location c)).
Proof.
  intros Ha (r & gs & ss & ts & _ & E2 & _ & -> & -> & ->)%analyzeSignature_inv Hg Hc.
  by eapply results_ok.
Qed.

Definition pair_func : llFunc := mkLL "pair" "{ i64, i64 }" [] [] [] [] [] false false false.
Definition pair_plan : sigPlan :=
  Eval vm_compute in match analyzeSignature amd64_abi pair_func with
  | Ok p => p | Fail _ => mkPlan (mkAbiSide [] [] 0) (mkAbiSide [] [] 0) "" [] 0 end.

Lemma results_correct_witness :
  exec_results (fun r => if String.eqb r "rdx" then 4 else 0) (pl_ResultMoves pair_plan) "rbx" = 4.
Proof.
  apply (results_correct "amd64" amd64_abi pair_func pair_plan
    (fun r => if String.eqb r "rdx" then 4 else 0) 1
    (mkRes "i64" (RegLoc "rbx")) (mkRes "i64" (RegLoc "rdx"))); vm_compute; reflexivity.
Defined.

(** ** Agreement with the repository's expected output

    The texts of src/internal/lower/testdata/goabi: seven.s, agg.s and arm.s. *)
Definition thunk_text (arch : string) (fs : list (string * string * list string)) : string :=
  match abiFor arch with
  | Ok a =>
      emitThunksL a (omap (fun '(name, ret, ps) =>
        match analyzeSignature a (mkLL name ret [] [] ps (replicate (length ps) []) [] false false false) with
        | Ok plan => Some (mkGoFunc name (name +:+ ".impl") plan)
        | Fail _ => None
        end) fs) false
  | Fail _ => ""
  end.

Example golden_seven : thunk_text "amd64" [("sum7", "i32", replicate 7 "i32")] =
"# Go 1.24 ABIInternal -> SysV entry thunks — generated
	.text
	.globl	sum7
	.type	sum7,@function
sum7:
	pushq	%rbp
	movq	%rsp, %rbp
	subq	$16, %rsp
	movl	%r9d, 0(%rsp)
	movq	%rcx, %rdx
	movq	%rdi, %rcx
	movq	%rax, %rdi
	movq	%r8, %r9
	movq	%rsi, %r8
	movq	%rbx, %rsi
	call	sum7.impl
	pxor	%xmm15, %xmm15
	movq	%rbp, %rsp
	popq	%rbp
	ret
	.size	sum7, .-sum7
".
Proof. vm_compute. reflexivity. Qed.

Example golden_agg : thunk_text "amd64" [("pair", "{ i64, i64 }", ["i64"; "{ i64, i64 }"])] =
"# Go 1.24 ABIInternal -> SysV entry thunks — generated
	.text
	.globl	pair
	.type	pair,@function
pair:
	pushq	%rbp
	movq	%rsp, %rbp
	movq	%rax, %rdi
	movq	%rbx, %rsi
	movq	%rcx, %rdx
	call	pair.impl
	movq	%rdx, %rbx
	pxor	%xmm15, %xmm15
	movq	%rbp, %rsp
	popq	%rbp
	ret
	.size	pair, .-pair
".
Proof. vm_compute. reflexivity. Qed.

Example golden_arm : thunk_text "arm64" [("sum9", "i64", replicate 9 "i64"); ("box", "ptr", ["ptr"])] =
"// Go 1.24 arm64 ABIInternal -> AAPCS64 entry thunks — generated
	.text
	.globl	sum9
	.type	sum9, %function
	.balign	4
sum9:
	sub	sp, sp, #32
	stp	x29, x30, [sp, #16]
	add	x29, sp, #16
	str	x30, [sp]
	sub	sp, sp, #32
	str	x30, [sp]
	str	x8, [sp, #16]
	bl	sum9.impl
	mov	sp, x29
	ldp	x29, x30, [sp], #16
	ret
	.size	sum9, .-sum9
	.globl	box
	.type	box, %function
	.balign	4
box:
	sub	sp, sp, #32
	stp	x29, x30, [sp, #16]
	add	x29, sp, #16
	str	x30, [sp]
	bl	box.impl
	mov	sp, x29
	ldp	x29, x30, [sp], #16
	ret
	.size	box, .-box
".
Proof. vm_compute. reflexivity. Qed.
