(* ===== verification/Tables.v ===== *)
(** * Metadata tables of the generated functions

    Models [emitWrapperTables] (src/internal/lower/goabi.go): the assembler text of
    the [.goc.*] records of entry thunks.  The strings.Builder and the closures
    [ref], [begin], [end], [uleb] and [u8] are operations on a [tb] state, which
    file GoExtern uses for the records of C-to-Go stubs with its own label
    prefix. *)

From Stdlib Require Import ZArith Lia Ascii.
From stdpp Require Import base list strings gmap sorting.
From S2P Require Import Prelude Layout LayoutProofs Thunk.

(** ** The builder *)

Record tb := mkTb { tb_out : string; tb_strs : gmap string nat; tb_list : list string; tb_rec : nat }.

Definition tb0 : tb := mkTb "" ∅ [] 0.

Definition write (s : string) : st tb unit := fun t =>
  (tt, mkTb (tb_out t +:+ s) (tb_strs t) (tb_list t) (tb_rec t)).

Section Closures.
Variable px : string.  (* ".Lgocw_" or ".Lgocx_" *)

(** [ref]: the label of a string, added on first use. *)
Definition ref (s : string) : st tb string := fun t =>
  let text i := px +:+ "s" +:+ dec (Z.of_nat i) +:+ "-.Lgoc_strtab" in
  match tb_strs t !! s with
  | Some i => (text i, t)
  | None =>
      let i := length (tb_list t) in
      (text i, mkTb (tb_out t) (<[s := i]> (tb_strs t)) (tb_list t ++ [s]) (tb_rec t))
  end.

Definition begin : st tb string := fun t =>
  let l := px +:+ "q" +:+ dec (Z.of_nat (tb_rec t)) in
  (l, mkTb (tb_out t +:+ l +:+ ":" +:+ nl +:+ tab +:+ ".uleb128 " +:+ l +:+ "e-" +:+ l +:+ "b" +:+ nl +:+
            l +:+ "b:" +:+ nl) (tb_strs t) (tb_list t) (S (tb_rec t))).

Definition end_ (l : string) : st tb unit := write (l +:+ "e:" +:+ nl).
End Closures.

Definition uleb (v : string) : st tb unit := write (tab +:+ ".uleb128 " +:+ v +:+ nl).
Definition ulebz (v : Z) : st tb unit := uleb (dec v).
Definition sleb (v : Z) : st tb unit := write (tab +:+ ".sleb128 " +:+ dec v +:+ nl).
Definition byte_ (v : Z) : st tb unit := write (tab +:+ ".byte " +:+ dec v +:+ nl).

Definition section (name : string) : st tb unit :=
  write (tab +:+ ".section " +:+ name +:+ "," +:+ dq +:+ dq +:+ ",%progbits" +:+ nl).

Fixpoint each_ {A} (f : A -> st tb unit) (l : list A) : st tb unit :=
  match l with [] => mret tt | x :: l => _ ← f x; each_ f l end.

(** A loop over [goabi] that collects a label per element. *)
Fixpoint labels_ {A} (f : nat -> A -> st tb string) (i : nat) (l : list A) : st tb (list string) :=
  match l with
  | [] => mret []
  | x :: l => r ← f i x; rs ← labels_ f (S i) l; mret (r :: rs)
  end.

Fixpoint eachi_ {A} (f : nat -> A -> st tb unit) (i : nat) (l : list A) : st tb unit :=
  match l with [] => mret tt | x :: l => _ ← f i x; eachi_ f (S i) l end.

(** [%q] of a symbol name: names are ASCII identifiers, nothing is escaped. *)
Definition quoted (s : string) : string := dq +:+ s +:+ dq.

Definition strtab (px : string) : st tb unit := fun t =>
  (_ ← section ".goc.strtab";
   eachi_ (fun i s => write (px +:+ "s" +:+ dec (Z.of_nat i) +:+ ":" +:+ nl +:+ tab +:+ ".asciz " +:+ quoted s +:+ nl))
     0 (tb_list t)) t.

(** ** Bitmaps *)

(** [m[i/8] |= 1 << (i%8)] *)
Definition set_bit (m : list Z) (i : Z) : list Z :=
  alter (fun b => Z.lor b (Z.shiftl 1 (i mod 8))) (Z.to_nat (i / 8)) m.

Definition zeros (nbits : Z) : list Z := replicate (Z.to_nat ((nbits + 7) / 8)) 0.

(** Bit [i] of a bitmap. *)
Definition bit (m : list Z) (i : Z) : bool := Z.testbit (default 0 (m !! Z.to_nat (i / 8))) (i mod 8).

(** ** Thunk tables *)

Record thunkInfo := mkThunk {
  th_spills : list argSpill; th_stackPtrs : list Z; th_area : Z; th_slots : list Z; th_mask : Z }.

Definition save (a64 : bool) : Z := if a64 then 32 else 8.
Definition restored (a64 : bool) : Z := if a64 then 16 else 8.

(** The words below varp that hold an outgoing pointer argument. *)
Definition thunk_slots (a64 : bool) (plan : sigPlan) : list Z :=
  merge_sort Z.le
    (omap (fun p =>
       match ap_Location p with
       | StkLoc off =>
           if String.eqb (ap_Type p) "ptr"
           then Some (pl_Outgoing plan - off + (if a64 then save a64 - 8 else 0)) else None
       | RegLoc _ => None
       end) (ab_Params (pl_SysV plan)) ++ (if a64 then [8] else [])).

Definition thunk_info (a64 : bool) (d : goFunc) : res reason thunkInfo :=
  '(spills, ptrs, area) ← goArgsLayout (pl_Go (gf_plan d));
  Ok (mkThunk spills ptrs area (thunk_slots a64 (gf_plan d)) 0).

Definition thunk_nlocals (a64 : bool) (outgoing : Z) : Z :=
  if a64 then (outArea a64 outgoing + save a64 - 8) / 8 else outgoing / 8.

(** The args bitmap; an offset outside the area is an error. *)
Fixpoint args_bitmap (name : string) (area nargs : Z) (m : list Z) (ptrs : list Z) : res reason (list Z) :=
  match ptrs with
  | [] => Ok m
  | o :: ptrs =>
      if negb (Z.rem o 8 =? 0) || (nargs <=? Z.quot o 8)
      then Fail (Reason ("goabi: " +:+ name +:+ ": stack pointer argument +" +:+ dec o +:+ " outside the " +:+
                         dec area +:+ "-byte area"))
      else args_bitmap name area nargs (set_bit m (Z.quot o 8)) ptrs
  end.

Fixpoint locals_bitmap (name : string) (nlocals : Z) (m : list Z) (slots : list Z) : res reason (list Z) :=
  match slots with
  | [] => Ok m
  | o :: slots =>
      if (o <? 8) || negb (Z.rem o 8 =? 0) || (nlocals <? Z.quot o 8)
      then Fail (Reason ("goabi: " +:+ name +:+ ": outgoing pointer slot BP-" +:+ dec o +:+ " outside the frame"))
      else locals_bitmap name nlocals (set_bit m (nlocals - Z.quot o 8)) slots
  end.

(** The bitmaps of the one safepoint of a thunk. *)
Definition thunk_maps (a64 : bool) (name : string) (outgoing : Z) (t : thunkInfo)
    : res reason (Z * Z * list Z * list Z) :=
  if negb (Z.rem (th_area t) 8 =? 0) || negb (Z.rem outgoing 8 =? 0)
  then Fail (Reason ("goabi: " +:+ name +:+ ": Go argument area " +:+ dec (th_area t) +:+ " or outgoing area " +:+
                     dec outgoing +:+ " is not word aligned"))
  else
    let nargs := Z.quot (th_area t) 8 in
    let nlocals := thunk_nlocals a64 outgoing in
    args ← args_bitmap name (th_area t) nargs (zeros nargs) (th_stackPtrs t);
    locals ← locals_bitmap name nlocals (zeros nlocals) (th_slots t);
    Ok (nargs, nlocals, args, locals).

Fixpoint mapr {A B} (f : A -> res reason B) (l : list A) : res reason (list B) :=
  match l with
  | [] => Ok []
  | x :: l => y ← f x; ys ← mapr f l; Ok (y :: ys)
  end.

(** The calls of [at]: a label and the stack depth there. *)
Definition thunk_deltas (a64 : bool) (out : Z) : list (string * Z) :=
  [("p", save a64)] ++ (if 0 <? out then [("a", save a64 + outArea a64 out)] else []) ++
  [("m", restored a64); ("o", 0)].

(** [at] *)
Definition put_delta (px : string) (i : nat) (name : string) (e : string * Z) : st tb unit :=
  _ ← uleb (px +:+ fst e +:+ dec (Z.of_nat i) +:+ "-" +:+ name); sleb (snd e).

(** [.goc.pcvalue]: the SP_DELTA table of a thunk. *)
Definition thunk_pcv (a64 : bool) (i : nat) (d : goFunc) : st tb string :=
  let out := pl_Outgoing (gf_plan d) in
  l ← begin px_w;
  _ ← ulebz 1; _ ← byte_ 1; _ ← ulebz (if 0 <? out then 5 else 4); _ ← ulebz 0; _ ← sleb 0;
  _ ← each_ (put_delta px_w i (gf_Name d)) (thunk_deltas a64 out);
  _ ← end_ l; mret l.

(** [.goc.gcmaps] *)
Definition thunk_gc (i : nat) (x : goFunc * (Z * Z * list Z * list Z)) : st tb string :=
  let '(d, (nargs, nlocals, args, locals)) := x in
  l ← begin px_w;
  _ ← ulebz nargs; _ ← ulebz nlocals; _ ← ulebz 1;
  _ ← uleb (px_w +:+ "r" +:+ dec (Z.of_nat i) +:+ "-" +:+ gf_Name d);
  _ ← each_ byte_ args; _ ← each_ byte_ locals; _ ← ulebz 0;
  _ ← end_ l; mret l.

(** [.goc.funcs] *)
Definition thunk_func (a64 : bool) (i : nat) (x : goFunc * thunkInfo * string * string) : st tb unit :=
  let '(d, t, pcv, gc) := x in
  l ← begin px_w;
  n ← ref px_w (gf_Name d);
  _ ← uleb n;
  _ ← uleb (px_w +:+ "e" +:+ dec (Z.of_nat i) +:+ "-" +:+ gf_Name d);
  _ ← ulebz (save a64 + outArea a64 (pl_Outgoing (gf_plan d)));
  _ ← ulebz (th_area t); _ ← byte_ 1; _ ← byte_ 1; _ ← ulebz (Z.lor 4 8); _ ← byte_ 0; _ ← ulebz 0; _ ← ulebz 0;
  _ ← uleb (pcv +:+ "-.Lgoc_pcvbase+1"); _ ← uleb (gc +:+ "-.Lgoc_gcbase+1"); _ ← ulebz 0;
  _ ← ulebz (th_mask t); _ ← ulebz (zlen (th_slots t)); _ ← each_ ulebz (th_slots t);
  end_ l.

Definition put_spill (px : string) (sp : argSpill) : st tb unit :=
  r ← ref px (sp_Reg sp);
  _ ← uleb r; _ ← ulebz (sp_Off sp); _ ← ulebz (sp_Size sp);
  byte_ (if sp_Ptr sp then 1 else 0).

(** [.goc.wrappers] *)
Definition thunk_wrapper (d : goFunc * thunkInfo) : st tb unit :=
  let '(d, t) := d in
  l ← begin px_w;
  n ← ref px_w (gf_Name d); _ ← uleb n;
  m ← ref px_w (gf_Impl d); _ ← uleb m;
  _ ← byte_ 1; _ ← byte_ 2;
  _ ← ulebz (zlen (th_spills t)); _ ← each_ (put_spill px_w) (th_spills t);
  _ ← ulebz (zlen (th_stackPtrs t)); _ ← each_ ulebz (th_stackPtrs t);
  end_ l.

(** [.goc.relocs] *)
Definition thunk_reloc (a64 : bool) (i : nat) (d : goFunc) : st tb unit :=
  l ← begin px_w;
  n ← ref px_w (gf_Name d); _ ← uleb n;
  _ ← (if a64 then
         _ ← uleb (px_w +:+ "c" +:+ dec (Z.of_nat i) +:+ "-" +:+ gf_Name d); _ ← byte_ 4; _ ← byte_ 11;
         m ← ref px_w (gf_Impl d); _ ← uleb m; sleb 0
       else
         _ ← uleb (px_w +:+ "r" +:+ dec (Z.of_nat i) +:+ "-4-" +:+ gf_Name d); _ ← byte_ 4; _ ← byte_ 1;
         m ← ref px_w (gf_Impl d); _ ← uleb m; sleb (-4));
  _ ← byte_ 0;
  end_ l.

Definition emitWrapperTables (a : abiSet) (goabi : list goFunc) : res reason string :=
  let a64 := String.eqb (a_arch a) "arm64" in
  ts ← mapr (thunk_info a64) goabi;
  ms ← mapr (fun '(d, t) => thunk_maps a64 (gf_Name d) (pl_Outgoing (gf_plan d)) t) (zip goabi ts);
  Ok (tb_out (snd (
    (_ ← write ("# .goc.* records of the Go ABI thunks (lower goabi)" +:+ nl);
     _ ← section ".goc.pcvalue";
     pcv ← labels_ (thunk_pcv a64) 0 goabi;
     _ ← section ".goc.gcmaps";
     gc ← labels_ thunk_gc 0 (zip goabi ms);
     _ ← section ".goc.funcs";
     _ ← eachi_ (thunk_func a64) 0 (zip (zip (zip goabi ts) pcv) gc);
     _ ← section ".goc.wrappers";
     _ ← each_ thunk_wrapper (zip goabi ts);
     _ ← section ".goc.relocs";
     _ ← eachi_ (thunk_reloc a64) 0 goabi;
     strtab px_w) tb0))).

(** ** Bitmap lemmas *)

Lemma set_bit_length m i : length (set_bit m i) = length m.
Proof. apply length_alter. Qed.

Lemma bit_set m i j : 0 <= i -> 0 <= j -> (Z.to_nat (i / 8) < length m)%nat ->
  bit (set_bit m i) j = (i =? j) || bit m j.
Proof.
  intros Hi Hj Hlen. unfold bit, set_bit.
  pose proof (Z.mod_pos_bound i 8 ltac:(lia)). pose proof (Z.mod_pos_bound j 8 ltac:(lia)).
  pose proof (Z.div_mod i 8 ltac:(lia)). pose proof (Z.div_mod j 8 ltac:(lia)).
  assert (0 <= i / 8 /\ 0 <= j / 8) as [? ?] by (split; apply Z.div_pos; lia).
  destruct (decide (i / 8 = j / 8)) as [E|E].
  - rewrite E, list_lookup_alter_eq. destruct (lookup_lt_is_Some_2 m (Z.to_nat (j / 8))) as [b ->]; [lia|]. simpl.
    rewrite Z.lor_spec, Z.shiftl_1_l, Z.pow2_bits_eqb by lia. rewrite orb_comm.
    destruct (Z.eqb_spec (i mod 8) (j mod 8)), (Z.eqb_spec i j); try done; lia.
  - rewrite list_lookup_alter_ne by lia. destruct (Z.eqb_spec i j); [by subst | done].
Qed.

Lemma bit_zeros n j : bit (zeros n) j = false.
Proof.
  unfold bit, zeros. destruct (replicate _ 0 !! _) as [b|] eqn:E; [|apply Z.testbit_0_l].
  apply lookup_replicate in E as [-> _]. apply Z.testbit_0_l.
Qed.

(** Word [k] of the args area is marked exactly when a pointer lies there. *)
Lemma args_bitmap_ok name area nargs ptrs : forall m,
  Forall (fun o => (8 | o) /\ 0 <= o /\ o + 8 <= area) ptrs -> area = 8 * nargs ->
  length m = Z.to_nat ((nargs + 7) / 8) ->
  exists m', args_bitmap name area nargs m ptrs = Ok m' /\ length m' = length m /\
    forall k, 0 <= k -> bit m' k = bit m k || bool_decide (8 * k ∈ ptrs).
Proof.
  induction ptrs as [|o ptrs IH]; intros m Hok Ha Hlen; cbn [args_bitmap].
  { exists m. split_and!; [done..|]. intros k _. by rewrite orb_false_r. }
  inversion Hok as [|?? ([q ->] & H0 & Hhi) Hok']; subst.
  rewrite Z.rem_mul, Z.quot_mul by lia. rewrite (proj2 (Z.leb_gt _ _)) by lia. simpl.
  assert (Z.to_nat (q / 8) < length m)%nat as Hq.
  { rewrite Hlen. assert (q / 8 < (nargs + 7) / 8); [|assert (0 <= q / 8) by (apply Z.div_pos; lia); lia].
    apply Z.div_lt_upper_bound; [lia|]. pose proof (Z.div_mod (nargs + 7) 8 ltac:(lia)).
    pose proof (Z.mod_pos_bound (nargs + 7) 8 ltac:(lia)). lia. }
  destruct (IH (set_bit m q) Hok' eq_refl) as (m' & -> & Hl & Hb); [by rewrite set_bit_length|].
  exists m'. split; [done|]. split; [by rewrite Hl, set_bit_length|]. intros k Hk.
  rewrite Hb, bit_set by lia.
  assert (bool_decide (8 * k ∈ q * 8 :: ptrs) = (q =? k) || bool_decide (8 * k ∈ ptrs)) as ->.
  { destruct (Z.eqb_spec q k) as [->|Hne]; simpl.
    - apply bool_decide_eq_true, elem_of_cons. left. lia.
    - apply bool_decide_ext. rewrite elem_of_cons. split; [intros [?|?]; [lia|done] | by right]. }
  destruct (q =? k), (bit m k); done.
Qed.

Lemma locals_bitmap_ok name nlocals slots : forall m,
  Forall (fun o => (8 | o) /\ 8 <= o <= 8 * nlocals) slots ->
  length m = Z.to_nat ((nlocals + 7) / 8) ->
  exists m', locals_bitmap name nlocals m slots = Ok m' /\ length m' = length m /\
    forall k, 0 <= k -> bit m' k = bit m k || bool_decide (8 * (nlocals - k) ∈ slots).
Proof.
  induction slots as [|o slots IH]; intros m Hok Hlen; cbn [locals_bitmap].
  { exists m. split_and!; [done..|]. intros k _. by rewrite orb_false_r. }
  inversion Hok as [|?? ([q ->] & Hlo & Hhi) Hok']; subst.
  rewrite Z.rem_mul, Z.quot_mul by lia.
  rewrite (proj2 (Z.ltb_ge _ _)), (proj2 (Z.ltb_ge _ _)) by lia. simpl.
  assert (Z.to_nat ((nlocals - q) / 8) < length m)%nat as Hq.
  { rewrite Hlen. assert ((nlocals - q) / 8 < (nlocals + 7) / 8);
      [|assert (0 <= (nlocals - q) / 8) by (apply Z.div_pos; lia); lia].
    apply Z.div_lt_upper_bound; [lia|]. pose proof (Z.div_mod (nlocals + 7) 8 ltac:(lia)).
    pose proof (Z.mod_pos_bound (nlocals + 7) 8 ltac:(lia)). lia. }
  destruct (IH (set_bit m (nlocals - q)) Hok') as (m' & -> & Hl & Hb); [by rewrite set_bit_length|].
  exists m'. split; [done|]. split; [by rewrite Hl, set_bit_length|]. intros k Hk.
  rewrite Hb, bit_set by lia.
  assert (bool_decide (8 * (nlocals - k) ∈ q * 8 :: slots) = (nlocals - q =? k) || bool_decide (8 * (nlocals - k) ∈ slots)) as ->.
  { destruct (Z.eqb_spec (nlocals - q) k) as [<-|Hne]; simpl.
    - apply bool_decide_eq_true, elem_of_cons. left. lia.
    - apply bool_decide_ext. rewrite elem_of_cons. split; [intros [?|?]; [lia|done] | by right]. }
  destruct (nlocals - q =? k), (bit m k); done.
Qed.

(** ** Accepted signatures have tables *)

(** The pointer arguments on the C stack, as offsets from its start. *)
Definition c_stack_ptrs (plan : sigPlan) : list Z := omap stack_ptr (ab_Params (pl_SysV plan)).

Definition canonical (plan : sigPlan) : Prop :=
  Forall (fun p => spill_sizes (ap_Type p) <> None) (ab_Params (pl_Go plan)).

Lemma merge_sort_elem (l : list Z) o : o ∈ merge_sort Z.le l <-> o ∈ l.
Proof. by rewrite (merge_sort_Permutation Z.le l). Qed.

Lemma list_omap_ext' {A B} (f g : A -> option B) (l : list A) :
  (forall x, f x = g x) -> omap f l = omap g l.
Proof. intros H. induction l as [|x l IH]; [done|]. cbn. by rewrite H, IH. Qed.

Lemma omap_fmap_option {A B C} (f : A -> option B) (g : B -> C) (l : list A) :
  omap (fun x => g <$> f x) l = g <$> omap f l.
Proof. induction l as [|x l IH]; [done|]. cbn. destruct (f x); cbn; by rewrite IH. Qed.

Lemma thunk_slots_elem a64 plan o :
  o ∈ thunk_slots a64 plan <->
  (exists off, o = pl_Outgoing plan - off + (if a64 then 24 else 0) /\ off ∈ c_stack_ptrs plan) \/
  (a64 = true /\ o = 8).
Proof.
  unfold thunk_slots, c_stack_ptrs. rewrite merge_sort_elem, elem_of_app.
  assert (omap (fun p => match ap_Location p with
    | StkLoc off => if String.eqb (ap_Type p) "ptr"
        then Some (pl_Outgoing plan - off + (if a64 then save a64 - 8 else 0)) else None
    | RegLoc _ => None end) (ab_Params (pl_SysV plan)) =
    (fun off => pl_Outgoing plan - off + (if a64 then 24 else 0)) <$> omap stack_ptr (ab_Params (pl_SysV plan))) as ->.
  { rewrite <-omap_fmap_option. apply list_omap_ext'. intros p. unfold stack_ptr.
    destruct (ap_Location p); [done|]. destruct (String.eqb (ap_Type p) "ptr"); [|done]. by destruct a64. }
  rewrite list_elem_of_fmap. destruct a64; [|set_solver].
  rewrite list_elem_of_singleton. naive_solver.
Qed.

Lemma c_stack_ptrs_ok a d plan o : analyzeSignature a d = Ok plan -> o ∈ c_stack_ptrs plan ->
  (8 | o) /\ 0 <= o /\ o + 8 <= ab_StackArgsSize (pl_SysV plan).
Proof.
  intros (r & gs & ss & ts & (g & c & _ & [Hc _] & _ & Hsz)%assignParams_ok & _ & _ & _ & E & _)%analyzeSignature_inv.
  unfold c_stack_ptrs. rewrite E. cbn [ab_Params ab_StackArgsSize]. rewrite Hsz.
  exact (side_ptr _ _ _ as_SysV _ o Hc).
Qed.

(** The words of the frame below varp that the locals bitmap covers: word [k] is
    [8*k] bytes above the stack pointer of the call. *)
Definition frame_word (a64 : bool) (off : Z) : Z := off + (if a64 then a64LRArea else 0).

Lemma plan_out a d plan : analyzeSignature a d = Ok plan ->
  0 <= ab_StackArgsSize (pl_SysV plan) <= pl_Outgoing plan /\ (16 | pl_Outgoing plan) /\
  (ab_StackArgsSize (pl_SysV plan) = 0 -> pl_Outgoing plan = 0).
Proof.
  intros (r & gs & ss & ts & E1 & _ & E3 & _ & -> & _)%analyzeSignature_inv. simpl.
  destruct (sysv_stack_nonneg _ _ _ E1) as [H0 H8].
  destruct (outgoing_spec _ H0 H8) as (out & E3' & Hd & Hr). rewrite E3 in E3'. simplify_eq.
  split_and!; [lia | lia | done |]. intros E. destruct Hd as [q Hq]. lia.
Qed.

Lemma nlocals_spec a64 out : 0 <= out -> (16 | out) ->
  8 * thunk_nlocals a64 out = (if a64 then outArea true out + 24 else out).
Proof.
  intros H0 [q ->]. unfold thunk_nlocals, outArea, save, a64LRArea.
  destruct a64; simpl; [destruct (0 <? q * 16)|].
  - replace (q * 16 + 16 + 32 - 8) with ((2 * q + 5) * 8) by lia. rewrite Z.div_mul by lia. lia.
  - replace (q * 16 + 32 - 8) with ((2 * q + 3) * 8) by lia. rewrite Z.div_mul by lia. lia.
  - replace (q * 16) with (2 * q * 8) by lia. rewrite Z.div_mul by lia. lia.
Qed.

Lemma thunk_slots_ok a d plan a64 : analyzeSignature a d = Ok plan ->
  Forall (fun o => (8 | o) /\ 8 <= o <= 8 * thunk_nlocals a64 (pl_Outgoing plan)) (thunk_slots a64 plan).
Proof.
  intros E. destruct (plan_out _ _ _ E) as (Ho & Hd & Hz). rewrite nlocals_spec by (done || lia).
  apply Forall_forall. intros o [(off & -> & Hoff)|[-> ->]]%thunk_slots_elem.
  - destruct (c_stack_ptrs_ok _ _ _ _ E Hoff) as ([q ->] & H0 & H1). destruct Hd as [p Hp]. rewrite Hp in *.
    split; [exists (2 * p - q + (if a64 then 3 else 0)); destruct a64; lia|].
    unfold outArea, a64LRArea. destruct a64; simpl; [|lia]. destruct (Z.ltb_spec 0 (p * 16)); lia.
  - split; [by exists 1|]. unfold outArea, a64LRArea. destruct (Z.ltb_spec 0 (pl_Outgoing plan)); simpl; lia.
Qed.

Lemma thunk_maps_ok arch a d plan name impl a64 :
  abiFor arch = Ok a -> analyzeSignature a d = Ok plan -> canonical plan ->
  exists t nargs nlocals args locals,
    thunk_info a64 (mkGoFunc name impl plan) = Ok t /\
    thunk_maps a64 name (pl_Outgoing plan) t = Ok (nargs, nlocals, args, locals) /\
    th_area t = 8 * nargs /\ nlocals = thunk_nlocals a64 (pl_Outgoing plan) /\
    (forall k, 0 <= k -> bit args k = bool_decide (8 * k ∈ omap stack_ptr (ab_Params (pl_Go plan)))) /\
    (forall k, 0 <= k -> bit locals k = bool_decide (8 * (nlocals - k) ∈ thunk_slots a64 plan)).
Proof.
  intros Ha E Hcan. destruct (goArgsLayout_ok arch a d plan Ha E Hcan)
    as (spills & ptrs & area & Hl & -> & [nargs ->] & _ & _ & _ & Hptr).
  destruct (plan_out _ _ _ E) as (Ho & Hd & _).
  unfold thunk_info. cbn [gf_plan]. rewrite Hl. cbn [mbind res_bind].
  eexists (mkThunk _ _ _ _ _), nargs, (thunk_nlocals a64 (pl_Outgoing plan)). unfold thunk_maps.
  cbn [th_area th_stackPtrs th_slots].
  rewrite Z.rem_mul, Z.quot_mul by lia.
  rewrite (proj2 (Z.eqb_eq (Z.rem (pl_Outgoing plan) 8) 0)); cycle 1.
  { apply Z.rem_divide; [lia|]. destruct Hd as [q ->]. exists (2 * q). lia. }
  cbn [negb orb Z.eqb].
  destruct (args_bitmap_ok name (nargs * 8) nargs (omap stack_ptr (ab_Params (pl_Go plan))) (zeros nargs) Hptr)
    as (args & -> & _ & Hargs); [lia | by unfold zeros; rewrite length_replicate |].
  destruct (locals_bitmap_ok name (thunk_nlocals a64 (pl_Outgoing plan)) (thunk_slots a64 plan)
    (zeros (thunk_nlocals a64 (pl_Outgoing plan))) (thunk_slots_ok a d plan a64 E))
    as (locals & -> & _ & Hlocals); [by unfold zeros; rewrite length_replicate |].
  exists args, locals. split_and!; try done; [lia | |].
  - intros k Hk. by rewrite Hargs, bit_zeros by done.
  - intros k Hk. by rewrite Hlocals, bit_zeros by done.
Qed.

(** C33. GC maps of the entry thunks: for every accepted signature with canonical
    types the layout and the bitmaps of its thunk are built without error; bit [k]
    of the args bitmap is set exactly when a pointer argument lies at word [k] of
    the Go argument area, and bit [k] of the locals bitmap exactly when word [k]
    above the call's stack pointer is an outgoing pointer argument or, on arm64,
    the saved frame pointer. *)
Theorem thunk_gc_maps_exact arch a d plan name impl :
  abiFor arch = Ok a -> analyzeSignature a d = Ok plan -> canonical plan ->
  let a64 := String.eqb (a_arch a) "arm64" in
  exists t nargs nlocals args locals,
    thunk_info a64 (mkGoFunc name impl plan) = Ok t /\
    thunk_maps a64 name (pl_Outgoing plan) t = Ok (nargs, nlocals, args, locals) /\
    th_area t = 8 * nargs /\
    (forall k, 0 <= k -> bit args k = true <-> 8 * k ∈ omap stack_ptr (ab_Params (pl_Go plan))) /\
    (forall k, 0 <= k -> bit locals k = true <->
      (exists off, off ∈ c_stack_ptrs plan /\ 8 * k = frame_word a64 off) \/ (a64 = true /\ k = nlocals - 1)).
Proof.
  intros Ha E Hcan a64. destruct (thunk_maps_ok arch a d plan name impl a64 Ha E Hcan)
    as (t & nargs & nlocals & args & locals & H1 & H2 & H3 & -> & H4 & H5).
  exists t, nargs, (thunk_nlocals a64 (pl_Outgoing plan)), args, locals. split_and!; try done.
  - intros k Hk. rewrite H4 by done. apply bool_decide_eq_true.
  - intros k Hk. rewrite H5 by done. rewrite bool_decide_eq_true, thunk_slots_elem.
    destruct (plan_out _ _ _ E) as (Ho & Hd & Hz).
    pose proof (nlocals_spec a64 (pl_Outgoing plan) ltac:(lia) Hd) as Hn. unfold frame_word, a64LRArea in *.
    assert (forall off, off ∈ c_stack_ptrs plan -> 0 < pl_Outgoing plan) as Hpos.
    { intros off Hoff. destruct (c_stack_ptrs_ok _ _ _ _ E Hoff) as (_ & ? & ?). lia. }
    clear H1 H2 H4 H5.
    set (n := thunk_nlocals a64 (pl_Outgoing plan)) in *. clearbody n.
    unfold outArea, a64LRArea in Hn. clearbody a64. destruct a64; simpl in Hn; split.
    + intros [(off & Eq & Hoff)|[_ Eq]]; [|right; split; [done|lia]]. left. exists off. split; [done|].
      specialize (Hpos off Hoff). rewrite (proj2 (Z.ltb_lt _ _)) in Hn by lia. lia.
    + intros [(off & Hoff & Eq)|[_ Eq]]; [|right; split; [done|lia]]. left. exists off. split; [|done].
      specialize (Hpos off Hoff). rewrite (proj2 (Z.ltb_lt _ _)) in Hn by lia. lia.
    + intros [(off & Eq & Hoff)|[? _]]; [|done]. left. exists off. split; [done|lia].
    + intros [(off & Hoff & Eq)|[? _]]; [|done]. left. exists off. split; [lia|done].
Qed.

Definition ptr_func : llFunc :=
  mkLL "f" "void" [] [] (replicate 10 "ptr") (replicate 10 []) (replicate 10 []) false false false.
Definition ptr_plan : sigPlan :=
  Eval vm_compute in match analyzeSignature amd64_abi ptr_func with
  | Ok p => p | Fail _ => mkPlan (mkAbiSide [] [] 0) (mkAbiSide [] [] 0) "" [] 0 end.

Lemma ptr_plan_canonical : canonical ptr_plan.
Proof.
  apply Forall_forall. intros p Hp. simpl in Hp.
  repeat (apply elem_of_cons in Hp as [->|Hp]; [discriminate|]). by apply not_elem_of_nil in Hp.
Qed.

Lemma thunk_gc_maps_exact_witness :
  exists t nargs nlocals args locals,
    thunk_info false (mkGoFunc "f" "f.impl" ptr_plan) = Ok t /\
    thunk_maps false "f" (pl_Outgoing ptr_plan) t = Ok (nargs, nlocals, args, locals) /\
    bit args 0 = true /\ bit locals 3 = true.
Proof.
  destruct (thunk_gc_maps_exact "amd64" amd64_abi ptr_func ptr_plan "f" "f.impl")
    as (t & nargs & nlocals & args & locals & H1 & H2 & _ & H3 & H4).
  - vm_compute. reflexivity.
  - vm_compute. reflexivity.
  - exact ptr_plan_canonical.
  - exists t, nargs, nlocals, args, locals. split; [exact H1 | split; [exact H2 | split]].
    + apply H3; [lia|]. vm_compute. left.
    + apply H4; [lia|]. left. exists 24. split; [vm_compute; do 3 right; left | reflexivity].
Defined.

(** No accepted module loses its tables: for every list of accepted functions
    with canonical types, [emitWrapperTables] returns text, never an error. *)
Theorem emitWrapperTables_total arch a goabi :
  abiFor arch = Ok a ->
  Forall (fun d => exists ll, analyzeSignature a ll = Ok (gf_plan d) /\ canonical (gf_plan d)) goabi ->
  exists text, emitWrapperTables a goabi = Ok text.
Proof.
  intros Ha Hall. unfold emitWrapperTables. set (a64 := String.eqb (a_arch a) "arm64").
  assert (exists ts ms, mapr (thunk_info a64) goabi = Ok ts /\
    mapr (fun '(d, t) => thunk_maps a64 (gf_Name d) (pl_Outgoing (gf_plan d)) t) (zip goabi ts) = Ok ms)
    as (ts & ms & -> & E).
  { induction Hall as [|d goabi (ll & E & Hc) _ (ts & ms & Hts & Hms)]; [by exists [], []|].
    destruct d as [name impl plan]. destruct (thunk_maps_ok arch a ll plan name impl a64 Ha E Hc)
      as (t & n1 & n2 & m1 & m2 & Ht & Hm & _). cbn [gf_plan] in *.
    exists (t :: ts), ((n1, n2, m1, m2) :: ms). cbn [mapr]. rewrite Ht. cbn [mbind res_bind]. rewrite Hts.
    cbn [mbind res_bind]. split; [done|]. cbn [zip_with mapr gf_Name gf_plan]. rewrite Hm. cbn [mbind res_bind].
    by rewrite Hms. }
  cbn [mbind res_bind]. rewrite E. cbn [mbind res_bind]. by eexists.
Qed.

Lemma emitWrapperTables_total_witness :
  exists text, emitWrapperTables amd64_abi [mkGoFunc "f" "f.impl" ptr_plan] = Ok text.
Proof.
  apply (emitWrapperTables_total "amd64"); [vm_compute; reflexivity|].
  apply Forall_singleton. exists ptr_func. split; [vm_compute; reflexivity | exact ptr_plan_canonical].
Defined.

(** ** Stack depths *)

(** The stack pointer's distance below its value on entry and the frame
    pointer's, after a line. *)
Definition depth_step (s : Z * Z) (i : item) : Z * Z :=
  match i with
  | Line _ | Lbl _ => s
  | SpDown n _ => (fst s + n, snd s)
  | SpUp n _ => (fst s - n, snd s)
  | FpSet k _ => (fst s, fst s - k)
  | SpFromFp _ => (snd s, snd s)
  end.

(** The depth at the first occurrence of a label. *)
Fixpoint depth_at (l : string) (s : Z * Z) (items : list item) : option Z :=
  match items with
  | [] => None
  | i :: items =>
      match i with
      | Lbl l' => if String.eqb l' l then Some (fst s) else depth_at l s items
      | _ => depth_at l (depth_step s i) items
      end
  end.

Lemma depth_at_lines {A} (f : A -> string) l s (ms : list A) items :
  depth_at l s (((fun m => Line (f m)) <$> ms) ++ items) = depth_at l s items.
Proof. induction ms as [|m ms IH]; [done|]. rewrite fmap_cons. exact IH. Qed.

Lemma depth_at_lbl l s l' items : l' <> l -> depth_at l s (Lbl l' :: items) = depth_at l s items.
Proof. intros H. cbn [depth_at]. by destruct (String.eqb_spec l' l). Qed.

Lemma depth_at_hit l s items : depth_at l s (Lbl l :: items) = Some (fst s).
Proof. cbn [depth_at]. by rewrite String.eqb_refl. Qed.

Definition is_label (i : item) : bool := match i with Lbl _ => true | _ => false end.

Lemma depth_at_skip l s i items : is_label i = false -> depth_at l s (i :: items) = depth_at l (depth_step s i) items.
Proof. by destruct i. Qed.

(** Labels of different kinds differ. *)
Lemma label_ne px c c' n n' : c <> c' -> px +:+ String c "" +:+ n <> px +:+ String c' "" +:+ n'.
Proof.
  intros H. induction px as [|a px IH]; [|by intros [= ?%IH]]. simpl. by intros [= ? _].
Qed.

Lemma HasPrefix_app p s : HasPrefix (p +:+ s) p = true.
Proof.
  unfold HasPrefix. induction p as [|c p IH]; [by destruct s|].
  change (String c p +:+ s) with (String c (p +:+ s)). unfold String.prefix; fold String.prefix.
  by destruct (ascii_dec c c).
Qed.

(** Walks through the lines of a function to the label asked for. *)
Ltac walk :=
  repeat first
    [ rewrite depth_at_hit; cbn [fst snd]
    | rewrite depth_at_lines
    | rewrite depth_at_lbl by first [by apply label_ne | match goal with H : forall s, _ <> _ |- _ => apply H end]
    | rewrite depth_at_skip by reflexivity; cbn [depth_step fst snd]
    | progress cbn [app] ].

(** Unwinding through an entry thunk: for both architectures, at every label
    the SP_DELTA table of the thunk names, the stack pointer is exactly the
    recorded number of bytes below its value on entry, and the table declares as
    many entries as it writes. *)
Theorem thunk_sp_deltas a64 ti d l v :
  HasPrefix (gf_Name d) ".Lgocw_" = false ->
  (l, v) ∈ thunk_deltas a64 (pl_Outgoing (gf_plan d)) ->
  depth_at (px_w +:+ l +:+ dec (Z.of_nat ti)) (0, 0) ((if a64 then a64_thunk else x86_thunk) true ti d) = Some v /\
  zlen (thunk_deltas a64 (pl_Outgoing (gf_plan d))) + 1 = (if 0 <? pl_Outgoing (gf_plan d) then 5 else 4).
Proof.
  intros Hname Hl.
  assert (forall s, gf_Name d <> px_w +:+ s) as Hne.
  { intros s E. by rewrite E, HasPrefix_app in Hname. }
  split; [|unfold thunk_deltas; by destruct (0 <? _)].
  unfold thunk_deltas in Hl. unfold x86_thunk, a64_thunk, x86_head, mark, size_line.
  destruct a64, (0 <? pl_Outgoing (gf_plan d)); cbn [app save restored] in Hl;
    repeat (apply elem_of_cons in Hl as [[= -> ->]|Hl]); try (by apply not_elem_of_nil in Hl);
    cbn [app]; walk; try done.
  all: f_equal; lia.
Qed.

Lemma thunk_sp_deltas_witness :
  depth_at ".Lgocw_a0" (0, 0) (x86_thunk true 0 (mkGoFunc "f" "f.impl" ptr_plan)) = Some 40.
Proof.
  destruct (thunk_sp_deltas false 0 (mkGoFunc "f" "f.impl" ptr_plan) "a" 40) as [H _].
  - reflexivity.
  - vm_compute. right. left.
  - exact H.
Defined.
