(* ===== verification/GoExtern.v ===== *)
(** * Stubs from C to Go

    Models src/internal/lower/go_extern.go: the annotations that bind a C
    declaration to a Go function, the stubs that move the C arguments to Go's
    ABIInternal, and their [.goc.*] tables.  A [goExtern] carries the mutable field
    [Spill]: [emitGoExternStubs] returns the list with that field overwritten, and
    [emitGoExternTables] reads the new value. *)

From Stdlib Require Import ZArith Lia Ascii.
From stdpp Require Import functions base list strings gmap sorting.
From S2P Require Import Prelude Text Regex Layout LayoutProofs GoParse ParMove Thunk ThunkProofs Tables.

(** ** Annotations *)

Definition hex_digit (c : ascii) : Z :=
  let n := byte_of_ascii c in
  if (48 <=? n) && (n <=? 57) then n - 48
  else if (97 <=? n) && (n <=? 102) then n - 97 + 10
  else if (65 <=? n) && (n <=? 70) then n - 65 + 10
  else 0.

(** An LLVM [c"..."] literal: [\XX] is the byte XX, except that a zero byte is
    dropped; a character that is no hex digit counts as 0. *)
Fixpoint decodeLLVMCString (s : string) : string :=
  match s with
  | String c ((String h (String l rest)) as s') =>
      if Ascii.eqb c "092"%char then
        let v := Z.lor (Z.shiftl (hex_digit h) 4) (hex_digit l) in
        (if v =? 0 then "" else String (ascii_of_byte v) "") +:+ decodeLLVMCString rest
      else String c (decodeLLVMCString s')
  | String c s' => String c (decodeLLVMCString s')
  | EmptyString => ""
  end.

(** *** Patterns *)

Definition sym_char (c : ascii) : bool := re_word c || char_is "."%char c || char_is "/"%char c.
Definition goExternAnnRE : regex := Cat (lit "goc.attr.go_extern:") (Group 1 (many1 sym_char)).
Definition annGlobRE : regex :=
  cats [lit "@llvm.global.annotations"; many re_space; lit "="; many re_space; lit "appending"; many1 re_space; lit "global"; many1 re_space;
        lit "["; Group 1 (many1 re_digit); many1 re_space; lit "x"; many1 re_space; lit "{"; many1 (fun c => negb (char_is "}"%char c)); lit "}]";
        many re_space; lit "["; Group 2 (many1 re_dot); lit "]"].
Definition annEntryRE : regex :=
  cats [lit "{"; many re_space; lit "ptr"; many1 re_space; lit "@"; Group 1 (Cat (Class ident_start) (many ident_char)); many re_space; lit ",";
        many re_space; lit "ptr"; many1 re_space; lit "@"; Group 2 (many1 ident_char); many re_space; lit ","].
Definition quote_char : ascii := "034"%char.
Definition strConstRE : regex :=
  cats [lit "@"; Group 1 (many1 ident_char); many re_space; lit "="; many re_space; opt (Cat (lit "private") (many1 re_space));
        opt (Cat (lit "unnamed_addr") (many1 re_space)); lit "constant"; many1 re_space; lit "["; many1 re_digit; lit " x i8]"; many1 re_space;
        lit "c"; Class (char_is quote_char); Group 2 (many (fun c => negb (char_is quote_char c))); Class (char_is quote_char)].

(** *** [parseGoExterns] *)

Definition goExternAnn (s : string) : option string := (fun m => group_text s m 1) <$> find goExternAnnRE s.

(** The loop over the annotation entries of a text. *)
Definition bind_annotations (strs : gmap string string) (text : string) : gmap string string :=
  foldl (fun out em =>
    match strs !! group_text text em 2 with
    | None => out
    | Some s => match goExternAnn s with Some g => <[group_text text em 1 := g]> out | None => out end
    end) ∅ (find_all annEntryRE text).

(** Without an annotations array every entry of the text counts
    ([parseGoExternsLoose]). *)
Definition parseGoExterns (text : string) : gmap string string :=
  let strs := foldl (fun strs m => <[group_text text m 1 := decodeLLVMCString (group_text text m 2)]> strs) ∅ (find_all strConstRE text) in
  bind_annotations strs (match find annGlobRE text with Some gm => group_text text gm 2 | None => text end).

Record goExtern := mkExtern {
  gx_CName : string; gx_GoSym : string; gx_Fn : llFunc; gx_Plan : sigPlan; gx_Spill : Z }.

Definition sorted_names (m : gmap string string) : list string :=
  merge_sort str_le (fst <$> map_to_list m).

Definition align16 (n : Z) : Z := Z.land (n + 15) (Z.lnot 15).

Definition reason_text (r : reason) : string := match r with Reason s => s | Panic => "" end.

Fixpoint collect_loop (a : abiSet) (m : gmap string string) (byName : gmap string llFunc) (names : list string)
    : res reason (list goExtern * list string) :=
  match names with
  | [] => Ok ([], [])
  | cName :: names =>
      let goSym := default "" (m !! cName) in
      match byName !! cName with
      | None => Fail (Reason ("go_extern: " +:+ cName +:+ " annotated but not declared"))
      | Some d =>
          match analyzeSignature a d with
          | Fail Panic => Fail Panic
          | Fail (Reason why) =>
              '(xs, skipped) ← collect_loop a m byName names;
              Ok (xs, (cName +:+ " (" +:+ why +:+ ")") :: skipped)
          | Ok plan =>
              match goArgsLayout (pl_Go plan) with
              | Fail r => Fail (Reason ("go_extern " +:+ cName +:+ ": " +:+ reason_text r))
              | Ok (_, _, area) =>
                  '(xs, skipped) ← collect_loop a m byName names;
                  Ok (mkExtern cName goSym d plan (align16 area) :: xs, skipped)
              end
          end
      end
  end.

Definition collectGoExterns (a : abiSet) (text : string) : res reason (list goExtern * list string) :=
  let m := parseGoExterns text in
  if decide (m = ∅) then Ok ([], [])
  else
    let byName := foldl (fun b d => <[ll_Name d := d]> b) ∅ (parseFunctions text "declare") in
    collect_loop a m byName (sorted_names m).

(** ** Stubs *)

(** The copy of a C stack argument to the Go stack goes through [%r12] whatever its
    width; the rest are the instructions of Thunk with source and destination
    exchanged: a load reads the C stack arguments, a store writes the Go ones. *)
Inductive xins :=
| XI (i : ins)
| XLoad12 (ty : string) (off : Z)
| XStore12 (ty : string) (off : Z)
| XSave (reg : string) (off : Z)
| XRestore (reg : string) (off : Z)
| XMovq (src dst : string)
| XGetG
| XZero15.

Definition mustSize (ty : string) : Z := match scalar ty with Some info => si_size info | None => 8 end.

Definition xins_text (x : xins) : string :=
  match x with
  | XI i => x86_text i
  | XLoad12 ty off => tab +:+ moveMnemonic (mustSize ty) +:+ tab +:+ stackSource off +:+ ", %r12"
  | XStore12 ty off => tab +:+ moveMnemonic (mustSize ty) +:+ tab +:+ "%r12, " +:+ dec off +:+ "(%rsp)"
  | XSave r off => tab +:+ "movq" +:+ tab +:+ "%" +:+ r +:+ ", " +:+ dec off +:+ "(%rsp)"
  | XRestore r off => tab +:+ "movq" +:+ tab +:+ dec off +:+ "(%rsp), %" +:+ r
  | XMovq s d => tab +:+ "movq" +:+ tab +:+ "%" +:+ s +:+ ", %" +:+ d
  | XGetG => tab +:+ "movq" +:+ tab +:+ "%fs:-8, %r14"
  | XZero15 => tab +:+ "pxor" +:+ tab +:+ "%xmm15, %xmm15"
  end.

(** The argument with the C side as its source. *)
Definition flip (x : asg) : asg := mkAsg (as_Type x) (as_SysV x) (as_Go x).

(** What one parameter adds to [stores]; [x] is flipped. *)
Definition x_store (x : asg) : list xins :=
  match as_SysV x, as_Go x with
  | StkLoc o, RegLoc r => [XI (IStore (as_Type x) r o)]
  | StkLoc o, StkLoc o' =>
      match bank_of (as_Type x) with
      | BFloat => [XI (ILoad (as_Type x) o' "xmm15"); XI (IStore (as_Type x) "xmm15" o)]
      | BInt => [XLoad12 (as_Type x) o'; XStore12 (as_Type x) o]
      end
  | RegLoc c, StkLoc o => XI <$> emitRegisterArgument (as_Type x) o c
  | RegLoc _, RegLoc _ => []
  end.

Definition emitSysVToGoMoves (plan : sigPlan) : list xins :=
  let xs := flip <$> plan_args plan in
  (XI <$> parallelInt x86_scratch (omap (reg_move BInt) xs)) ++
  (XI <$> parallelFloat x86_scratch (omap (reg_move BFloat) xs)) ++
  concat (x_store <$> xs).

Definition saveExtra : Z := 40.
Definition saved_regs : list string := ["rbx"; "r12"; "r13"; "r14"; "r15"].

Definition frame_of (spill : Z) : Z :=
  let frame := spill + saveExtra in
  if negb (Z.rem frame 16 =? 0) then align16 frame else frame.

Definition save_regs (spill : Z) : list xins := imap (fun k r => XSave r (spill + 8 * Z.of_nat k)) saved_regs.
Definition restore_regs (spill : Z) : list xins := imap (fun k r => XRestore r (spill + 8 * Z.of_nat k)) saved_regs.

(** Go result register to C result register. *)
Definition result_ins (plan : sigPlan) : list xins := (fun mv => XMovq (snd mv) (fst mv)) <$> pl_ResultMoves plan.

Definition stub_before (x : goExtern) : list xins :=
  save_regs (gx_Spill x) ++ emitSysVToGoMoves (gx_Plan x) ++ [XGetG; XZero15].

Definition stub_after (x : goExtern) : list xins := result_ins (gx_Plan x) ++ restore_regs (gx_Spill x).

Definition px_x : string := ".Lgocx_".

Definition xline (i : xins) : item := Line (xins_text i).

Definition go_stub (labels : bool) (ti : nat) (x : goExtern) : list item :=
  let name := ll_Name (gx_Fn x) in
  let mark := mark px_x labels in
  let frame := frame_of (gx_Spill x) in
  x86_head labels name ++ [SpDown 8 (tab +:+ "pushq" +:+ tab +:+ "%rbp")] ++
  mark "p" ti ++ [FpSet 0 (tab +:+ "movq" +:+ tab +:+ "%rsp, %rbp")] ++
  (if 0 <? frame
   then [SpDown frame (tab +:+ "subq" +:+ tab +:+ "$" +:+ dec frame +:+ ", %rsp")] ++ mark "a" ti else []) ++
  (xline <$> stub_before x) ++
  mark "c" ti ++ [Line (tab +:+ "call" +:+ tab +:+ gx_GoSym x +:+ ".goabi")] ++ mark "r" ti ++
  (xline <$> stub_after x) ++
  [SpFromFp (tab +:+ "movq" +:+ tab +:+ "%rbp, %rsp")] ++ mark "m" ti ++
  [SpUp 8 (tab +:+ "popq" +:+ tab +:+ "%rbp")] ++ mark "o" ti ++ [Line (tab +:+ "ret")] ++
  mark "e" ti ++ [size_line name].

(** The arm64 stub moves no arguments. *)
Definition a64_stub (labels : bool) (ti : nat) (x : goExtern) : list item :=
  let name := ll_Name (gx_Fn x) in
  let mark := mark px_x labels in
  let spill := align16 (if gx_Spill x <? 16 then 16 else gx_Spill x) in
  (if labels then [Line (tab +:+ ".section" +:+ tab +:+ ".text." +:+ name +:+ "," +:+ dq +:+ "ax" +:+ dq +:+
                         ",%progbits")] else []) ++
  [Line (tab +:+ ".globl" +:+ tab +:+ name); Line (tab +:+ ".type" +:+ tab +:+ name +:+ ",%function"); Lbl name;
   SpDown 16 (tab +:+ "stp" +:+ tab +:+ "x29, x30, [sp, #-16]!"); FpSet 0 (tab +:+ "mov" +:+ tab +:+ "x29, sp");
   SpDown spill (tab +:+ "sub" +:+ tab +:+ "sp, sp, #" +:+ dec spill)] ++ mark "a" ti ++
  [Line (tab +:+ "mrs" +:+ tab +:+ "x28, TPIDR_EL0"); Line (tab +:+ "ldr" +:+ tab +:+ "x28, [x28, #-8]")] ++
  mark "c" ti ++ [Line (tab +:+ "bl" +:+ tab +:+ gx_GoSym x +:+ ".goabi")] ++ mark "r" ti ++
  [SpFromFp (tab +:+ "mov" +:+ tab +:+ "sp, x29"); SpUp 16 (tab +:+ "ldp" +:+ tab +:+ "x29, x30, [sp], #16");
   Line (tab +:+ "ret")] ++ mark "e" ti ++ [size_line name].

Definition set_spill (x : goExtern) (n : Z) : goExtern :=
  mkExtern (gx_CName x) (gx_GoSym x) (gx_Fn x) (gx_Plan x) n.

Definition emitGoExternStubsA64 (xs : list goExtern) (labels : bool) : string :=
  join nl (["# C → Go stubs (__go_extern) arm64 — generated"; tab +:+ ".text"] ++
           (item_text <$> concat (imap (a64_stub labels) xs)) ++ [""]).

(** The text and [xs] after the call: on amd64 [Spill] becomes the frame size. *)
Definition emitGoExternStubs (a : abiSet) (xs : list goExtern) (labels : bool) : string * list goExtern :=
  if String.eqb (a_arch a) "arm64" then (emitGoExternStubsA64 xs labels, xs)
  else
    (join nl (["# C → Go ABIInternal stubs (__go_extern) — generated"; tab +:+ ".text"] ++
              (item_text <$> concat (imap (go_stub labels) xs)) ++ [""]),
     (fun x => set_spill x (frame_of (gx_Spill x))) <$> xs).

(** ** Tables *)

Record xinfo := mkXInfo { xi_spills : list argSpill; xi_area : Z }.

Definition x_info (x : goExtern) : res reason xinfo :=
  '(spills, _, area) ← goArgsLayout (pl_Go (gx_Plan x));
  Ok (mkXInfo spills area).

(** The first loop over the args bitmap: pointer spill slots. *)
Definition mark_spill (nargs : Z) (m : list Z) (sp : argSpill) : list Z :=
  if negb (sp_Ptr sp) then m
  else
    let o := sp_Off sp - 8 in
    if (o <? 0) || negb (Z.rem o 8 =? 0) || (nargs <=? Z.quot o 8) then m else set_bit m (Z.quot o 8).

(** The second loop: pointer stack arguments. *)
Definition mark_param (nargs : Z) (m : list Z) (p : abiParam) : list Z :=
  match stack_ptr p with
  | Some o => if (Z.rem o 8 =? 0) && (Z.quot o 8 <? nargs) then set_bit m (Z.quot o 8) else m
  | None => m
  end.

Definition x_args (x : goExtern) (t : xinfo) : list Z :=
  let nargs := Z.quot (xi_area t) 8 in
  foldl (mark_param nargs) (foldl (mark_spill nargs) (zeros nargs) (xi_spills t)) (ab_Params (pl_Go (gx_Plan x))).

Definition x_maps (e : goExtern * xinfo) : res reason (Z * Z * list Z * list Z) :=
  let '(x, t) := e in
  if negb (Z.rem (xi_area t) 8 =? 0)
  then Fail (Reason ("go_extern: " +:+ gx_CName x +:+ ": Go argument area " +:+ dec (xi_area t) +:+ " not word aligned"))
  else
    let nlocals := Z.quot (gx_Spill x) 8 in
    Ok (Z.quot (xi_area t) 8, nlocals, x_args x t, zeros nlocals).

(** The calls of [at]. *)
Definition x_deltas (spill : Z) : list (string * Z) :=
  [("p", 8)] ++ (if 0 <? spill then [("a", 8 + spill)] else []) ++ [("m", 8); ("o", 0)].

Definition x_pcv (i : nat) (x : goExtern) : st tb string :=
  l ← begin px_x;
  _ ← ulebz 1; _ ← byte_ 1; _ ← ulebz (if 0 <? gx_Spill x then 5 else 4); _ ← ulebz 0; _ ← sleb 0;
  _ ← each_ (put_delta px_x i (gx_CName x)) (x_deltas (gx_Spill x));
  _ ← end_ l; mret l.

Definition x_gc (i : nat) (e : goExtern * (Z * Z * list Z * list Z)) : st tb string :=
  let '(x, (nargs, nlocals, args, locals)) := e in
  l ← begin px_x;
  _ ← ulebz nargs; _ ← ulebz nlocals; _ ← ulebz 1;
  _ ← uleb (px_x +:+ "r" +:+ dec (Z.of_nat i) +:+ "-" +:+ gx_CName x);
  _ ← each_ byte_ args; _ ← each_ byte_ locals; _ ← ulebz 0;
  _ ← end_ l; mret l.

Definition x_func (i : nat) (e : goExtern * xinfo * string * string) : st tb unit :=
  let '(x, t, pcv, gc) := e in
  l ← begin px_x;
  n ← ref px_x (gx_CName x); _ ← uleb n;
  _ ← uleb (px_x +:+ "e" +:+ dec (Z.of_nat i) +:+ "-" +:+ gx_CName x);
  _ ← ulebz (8 + gx_Spill x); _ ← ulebz (xi_area t); _ ← byte_ 0; _ ← byte_ 1; _ ← ulebz (Z.lor 4 8); _ ← byte_ 0;
  _ ← ulebz 0; _ ← ulebz 0;
  _ ← uleb (pcv +:+ "-.Lgoc_pcvbase+1"); _ ← uleb (gc +:+ "-.Lgoc_gcbase+1");
  _ ← ulebz 0; _ ← ulebz 0; _ ← ulebz 0;
  end_ l.

Definition x_wrapper (e : goExtern * xinfo) : st tb unit :=
  let '(x, t) := e in
  l ← begin px_x;
  n ← ref px_x (gx_CName x); _ ← uleb n;
  m ← ref px_x (gx_GoSym x +:+ ".goabi"); _ ← uleb m;
  _ ← byte_ 2; _ ← byte_ 1;
  _ ← ulebz (zlen (xi_spills t)); _ ← each_ (put_spill px_x) (xi_spills t);
  _ ← ulebz 0;
  end_ l.

Definition x_reloc (i : nat) (x : goExtern) : st tb unit :=
  l ← begin px_x;
  n ← ref px_x (gx_CName x); _ ← uleb n;
  _ ← uleb (px_x +:+ "r" +:+ dec (Z.of_nat i) +:+ "-4-" +:+ gx_CName x); _ ← byte_ 4; _ ← byte_ 1;
  m ← ref px_x (gx_GoSym x +:+ ".goabi"); _ ← uleb m;
  _ ← sleb (-4); _ ← byte_ 0;
  end_ l.

Definition emitGoExternTablesA64 (xs : list goExtern) : res reason string :=
  Ok ("# go_extern arm64: tables deferred (QJS host is amd64)" +:+ nl).

Definition emitGoExternTables (a : abiSet) (xs : list goExtern) : res reason string :=
  match xs with
  | [] => Ok ""
  | _ =>
      if String.eqb (a_arch a) "arm64" then emitGoExternTablesA64 xs
      else
        ts ← mapr x_info xs;
        ms ← mapr x_maps (zip xs ts);
        Ok (tb_out (snd (
          (_ ← write ("# .goc.* records of the C → Go stubs (lower go_extern)" +:+ nl);
           _ ← section ".goc.pcvalue";
           pcv ← labels_ x_pcv 0 xs;
           _ ← section ".goc.gcmaps";
           gc ← labels_ x_gc 0 (zip xs ms);
           _ ← section ".goc.funcs";
           _ ← eachi_ x_func 0 (zip (zip (zip xs ts) pcv) gc);
           _ ← section ".goc.wrappers";
           _ ← each_ x_wrapper (zip xs ts);
           _ ← section ".goc.relocs";
           _ ← eachi_ x_reloc 0 xs;
           strtab px_x) tb0)))
  end.

(** ** Stubs are unwound correctly *)

(** Unwinding through a C-to-Go stub: at every label the SP_DELTA table names,
    after the stubs were emitted (which overwrites [Spill] with the frame size the
    table then reads), the stack pointer is the recorded number of bytes below its
    value on entry; the table declares as many entries as it writes. *)
Theorem stub_sp_deltas a xs labels text xs' ti x x' l v :
  a_arch a = "amd64" -> emitGoExternStubs a xs labels = (text, xs') ->
  xs !! ti = Some x -> xs' !! ti = Some x' -> HasPrefix (ll_Name (gx_Fn x)) ".Lgocx_" = false ->
  (l, v) ∈ x_deltas (gx_Spill x') ->
  depth_at (px_x +:+ l +:+ dec (Z.of_nat ti)) (0, 0) (go_stub true ti x) = Some v /\
  zlen (x_deltas (gx_Spill x')) + 1 = (if 0 <? gx_Spill x' then 5 else 4).
Proof.
  intros Ha E Hx Hx' Hname Hl. unfold emitGoExternStubs in E. rewrite Ha in E. injection E as _ <-.
  rewrite list_lookup_fmap, Hx in Hx'. injection Hx' as <-. cbn [gx_Spill set_spill] in *.
  assert (forall s, ll_Name (gx_Fn x) <> px_x +:+ s) as Hne by (intros s E; by rewrite E, HasPrefix_app in Hname).
  split; [|unfold x_deltas; by destruct (0 <? _)].
  unfold x_deltas in Hl. unfold go_stub, x86_head, mark, size_line, xline.
  destruct (0 <? frame_of (gx_Spill x)); cbn [app] in Hl;
    repeat (apply elem_of_cons in Hl as [[= -> ->]|Hl]); try (by apply not_elem_of_nil in Hl);
    cbn [app]; walk; try done.
  all: f_equal; lia.
Qed.

Definition demo_extern : goExtern := mkExtern "f" "main.F" ptr_func ptr_plan 80.

Lemma stub_sp_deltas_witness : depth_at ".Lgocx_a0" (0, 0) (go_stub true 0 demo_extern) = Some 136.
Proof.
  destruct (stub_sp_deltas amd64_abi [demo_extern] false
    (fst (emitGoExternStubs amd64_abi [demo_extern] false)) (snd (emitGoExternStubs amd64_abi [demo_extern] false))
    0 demo_extern (set_spill demo_extern 128) "a" 136) as [H _].
  - reflexivity.
  - vm_compute. reflexivity.
  - reflexivity.
  - vm_compute. reflexivity.
  - reflexivity.
  - vm_compute. right. left.
  - exact H.
Defined.

(** ** Execution of a stub *)

(** An integer copy through [%r12] exists only with 64-bit operands. *)
Definition assembles (x : xins) : bool :=
  match x with XLoad12 ty _ | XStore12 ty _ => mustSize ty =? 8 | _ => true end.

Section Exec.
(** RSP after the prologue, RBP, and the goroutine pointer at %fs:-8. *)
Variables (rsp rbp g : Z).

Definition xstep (s : mstate) (x : xins) : mstate :=
  let step := step (H := x86_machine) (rbp + 16) rsp in
  match x with
  | XI i => step s i
  | XLoad12 ty off => step s (ILoad ty off "r12")
  | XStore12 ty off => step s (IStore ty "r12" off)
  | XSave r off => mkM (m_regs s) (store (m_mem s) 8 (rsp + off) (m_regs s r))
  | XRestore r off => mkM (<[r := load (m_mem s) 8 (rsp + off)]> (m_regs s)) (m_mem s)
  | XMovq a b => mkM (<[b := m_regs s a]> (m_regs s)) (m_mem s)
  | XGetG => mkM (<["r14" := g]> (m_regs s)) (m_mem s)
  | XZero15 => mkM (<["xmm15" := 0]> (m_regs s)) (m_mem s)
  end.

Definition xrun (s : mstate) (l : list xins) : mstate := foldl xstep s l.

Lemma xrun_app s l k : xrun s (l ++ k) = xrun (xrun s l) k.
Proof. apply foldl_app. Qed.

Lemma xrun_ins s (l : list ins) : xrun s (XI <$> l) = run (H := x86_machine) (rbp + 16) rsp s l.
Proof. revert s. induction l as [|i l IH]; intros s; [done|]. rewrite fmap_cons. exact (IH _). Qed.

(** A parameter's late instructions do what the thunk instructions would. *)
Lemma xrun_store s x : xrun s (x_store x) = run (H := x86_machine) (rbp + 16) rsp s (late x86_scratch x).
Proof.
  unfold x_store, late, stores, reg_load, emitStackArgument, emitRegisterArgument.
  destruct (as_SysV x), (as_Go x); cbn [app]; rewrite ?app_nil_r; try done;
    by destruct (bank_of (as_Type x)).
Qed.

Lemma xrun_stores xs : forall s,
  xrun s (concat (x_store <$> xs)) = run (H := x86_machine) (rbp + 16) rsp s (concat (late x86_scratch <$> xs)).
Proof.
  induction xs as [|x xs IH]; intros s; [done|]. cbn [fmap list_fmap concat]. rewrite xrun_app, xrun_store, IH.
  unfold run. by rewrite foldl_app.
Qed.

Lemma imap_shift (f : string -> Z -> xins) base r l :
  imap (fun k r => f r (base + 8 * Z.of_nat k)) (r :: l) =
  f r base :: imap (fun k r => f r (base + 8 + 8 * Z.of_nat k)) l.
Proof.
  cbn [imap]. f_equal; [f_equal; lia|]. apply imap_ext. intros i x _. simpl. f_equal. lia.
Qed.

Lemma save_ok l : forall s base,
  let s' := xrun s (imap (fun k r => XSave r (base + 8 * Z.of_nat k)) l) in
  m_regs s' = m_regs s /\
  (forall a, a < rsp + base \/ rsp + base + 8 * zlen l <= a -> m_mem s' a = m_mem s a) /\
  (forall k r, l !! k = Some r -> load (m_mem s') 8 (rsp + (base + 8 * Z.of_nat k)) = m_regs s r mod 2 ^ 64).
Proof.
  induction l as [|r l IH]; intros s base; [done|]. rewrite imap_shift. cbn [xrun foldl xstep].
  unfold zlen. cbn [length]. unfold zlen in IH.
  destruct (IH (mkM (m_regs s) (store (m_mem s) 8 (rsp + base) (m_regs s r))) (base + 8)) as (R & M & V).
  cbn [m_regs m_mem] in R, M, V. unfold xrun in *. split_and!; [done | |].
  - intros a Ha. rewrite M by lia. apply store_out. lia.
  - intros [|k] r' Hk; simpl in Hk.
    + injection Hk as ->. erewrite load_ext.
      2: { intros x Hx. apply M. lia. }
      replace (rsp + (base + 8 * Z.of_nat 0)) with (rsp + base) by lia. apply (load_store_same _ 8).
    + rewrite <-(V k r' Hk). f_equal. lia.
Qed.

Lemma restore_ok l : forall s base, NoDup l ->
  let s' := xrun s (imap (fun k r => XRestore r (base + 8 * Z.of_nat k)) l) in
  m_mem s' = m_mem s /\ (forall r, r ∉ l -> m_regs s' r = m_regs s r) /\
  (forall k r, l !! k = Some r -> m_regs s' r = load (m_mem s) 8 (rsp + (base + 8 * Z.of_nat k))).
Proof.
  induction l as [|r l IH]; intros s base Hnd; [done|]. rewrite imap_shift. cbn [xrun foldl xstep].
  apply NoDup_cons in Hnd as [Hn Hnd].
  destruct (IH (mkM (<[r := load (m_mem s) 8 (rsp + base)]> (m_regs s)) (m_mem s)) (base + 8) Hnd) as (M & R & V).
  cbn [m_regs m_mem] in R, M, V. unfold xrun in *. split_and!; [done | |].
  - intros r' [H1 H2]%not_elem_of_cons. rewrite R by done. by apply fn_lookup_insert_ne.
  - intros [|k] r' Hk; simpl in Hk.
    + injection Hk as ->. rewrite R by done. rewrite fn_lookup_insert. f_equal. lia.
    + rewrite (V k r' Hk). f_equal. lia.
Qed.
End Exec.

(** ** When the order of a stub's moves is right *)

Definition go_reg (x : asg) : option string := match as_Go x with RegLoc r => Some r | StkLoc _ => None end.

(** No C register whose value goes to the Go stack is the destination of another
    argument: the stores come after the register moves. *)
Definition no_clobber (xs : list asg) : bool :=
  forallb (fun x => match as_SysV x, as_Go x with
                    | RegLoc r, StkLoc _ => bool_decide (r ∉ omap go_reg xs)
                    | _, _ => true
                    end) xs.

(** Integers copied from stack to stack are 8 bytes wide. *)
Definition copies_ok (xs : list asg) : bool :=
  forallb (fun x => match as_SysV x, as_Go x with
                    | StkLoc _, StkLoc _ => match bank_of (as_Type x) with BInt => mustSize (as_Type x) =? 8
                                            | BFloat => true end
                    | _, _ => true
                    end) xs.

Lemma flip_c xs : c_args (flip <$> xs) = go_args xs.
Proof. unfold c_args, go_args. rewrite <-list_fmap_compose. done. Qed.

Lemma flip_go xs : go_args (flip <$> xs) = c_args xs.
Proof. unfold c_args, go_args. rewrite <-list_fmap_compose. done. Qed.

Lemma forallb_elem {A} (f : A -> bool) l x : forallb f l = true -> x ∈ l -> f x = true.
Proof. intros H Hx. rewrite forallb_forall in H. apply H. by apply list_elem_of_In. Qed.

Lemma no_clobber_safe xs : no_clobber xs = true -> Forall (safe (flip <$> xs)) (flip <$> xs).
Proof.
  intros H. rewrite Forall_fmap. apply Forall_forall. intros x Hx gr o c y Eg Ec Hy Ey ->.
  pose proof (forallb_elem _ _ _ H Hx) as Hc. simpl in Eg, Ec. cbv beta in Hc. rewrite Eg, Ec in Hc.
  apply bool_decide_eq_true in Hc. apply Hc. apply list_elem_of_fmap in Hy as (z & -> & Hz).
  apply list_elem_of_omap. exists z. split; [done|]. unfold go_reg. simpl in Ey. by rewrite Ey.
Qed.

Lemma forallb_concat {A B} (f : B -> bool) (h : A -> list B) l :
  (forall x, x ∈ l -> forallb f (h x) = true) -> forallb f (concat (h <$> l)) = true.
Proof.
  induction l as [|x l IH]; intros H; [done|]. cbn [fmap list_fmap concat]. rewrite forallb_app.
  rewrite (H x) by left. apply IH. intros y Hy. apply H. by right.
Qed.

Lemma forallb_XI l : forallb assembles (XI <$> l) = true.
Proof. by induction l. Qed.

Lemma copies_assemble plan : copies_ok (plan_args plan) = true -> forallb assembles (emitSysVToGoMoves plan) = true.
Proof.
  intros H. unfold emitSysVToGoMoves. rewrite !forallb_app, !forallb_XI. apply forallb_concat.
  intros y (x & -> & Hx)%list_elem_of_fmap. pose proof (forallb_elem _ _ _ H Hx) as Hc. simpl in Hc.
  unfold x_store, emitRegisterArgument. simpl. destruct (as_Go x), (as_SysV x); try done.
  destruct (bank_of (as_Type x)); [|done]. simpl. by rewrite Hc.
Qed.

Lemma args_loop_le params : forall off spills ptrs end_,
  args_loop off params = Ok (spills, ptrs, end_) -> off <= end_.
Proof.
  induction params as [|p params IH]; intros off spills ptrs end_; cbn [args_loop]; [intros [= _ _ <-]; lia|].
  destruct (ap_Location p) as [r|o].
  - destruct (spill_sizes (ap_Type p)) as [n|] eqn:En; [|done]. destruct (spill_sizes_scalar _ _ En) as [Ha _].
    pose proof (alignUp_spec off n Ha) as [_ Hr]. unfold alignUp in Hr.
    destruct (args_loop (_ + n) params) as [[[sp pt] e]|] eqn:E; [|done]. apply IH in E. cbn. intros [= _ _ <-].
    assert (0 < n) by (destruct Ha as [->|[->|[->| ->]]]; lia). lia.
  - destruct (args_loop off params) as [[[sp pt] e]|] eqn:E; [|done]. apply IH in E. cbn. intros [= _ _ <-]. done.
Qed.

Lemma align16_spec n : (16 | align16 n) /\ n <= align16 n < n + 16.
Proof.
  unfold align16. change (Z.lnot 15) with (- 2 ^ 4). rewrite land_neg_pow2 by lia.
  pose proof (Z.div_mod (n + 15) (2 ^ 4) ltac:(lia)). pose proof (Z.mod_pos_bound (n + 15) (2 ^ 4) ltac:(lia)).
  split; [exists ((n + 15) / 2 ^ 4); lia | lia].
Qed.

(** The frame holds the Go arguments and, above them, the saved registers. *)
Lemma frame_spec n : (16 | n) -> (16 | frame_of n) /\ n + 40 <= frame_of n < n + 56.
Proof.
  intros Hn. unfold frame_of, saveExtra. destruct (align16_spec (n + 40)) as [Hd Hr].
  destruct (Z.eqb_spec (Z.rem (n + 40) 16) 0) as [E|_]; simpl; [|by split; [|lia]].
  split; [|lia]. by apply Z.rem_divide.
Qed.

Lemma area_spec plan spills ptrs area : goArgsLayout (pl_Go plan) = Ok (spills, ptrs, area) ->
  ab_StackArgsSize (pl_Go plan) <= area.
Proof.
  unfold goArgsLayout. destruct (args_loop _ _) as [[[sp pt] e]|] eqn:E; [|done]. apply args_loop_le in E.
  cbn. intros [= _ _ <-]. replace (Z.land (e + 7) (-8)) with (alignUp e 8) by (unfold alignUp; f_equal; lia).
  destruct (alignUp_spec e 8) as [_ ?]; [unfold is_align; lia | lia].
Qed.

(** The moves of a stub, from any state. *)
Lemma stub_moves_ok d plan rsp rbp g s :
  analyzeSignature amd64_abi d = Ok plan -> no_clobber (plan_args plan) = true ->
  rsp + ab_StackArgsSize (pl_Go plan) <= rbp + 16 ->
  let s' := xrun rsp rbp g s (emitSysVToGoMoves plan) in
  (forall x, x ∈ plan_args plan ->
     c_value rsp s' (as_Type x) (as_Go x) = go_value (rbp + 16) s (as_Type x) (as_SysV x)) /\
  (forall m, m < rsp \/ rsp + ab_StackArgsSize (pl_Go plan) <= m -> m_mem s' m = m_mem s m).
Proof.
  intros E Hnc Hle. destruct amd64_thunk as [Ha _ Ht]. destruct (plan_sides _ d plan Ha E) as (Hg & Hc & Rg & Rc & _).
  set (xs := plan_args plan) in *. unfold emitSysVToGoMoves. fold xs.
  rewrite !xrun_app, !xrun_ins, xrun_stores. unfold run. rewrite <-!foldl_app.
  pose proof (fun x o => side_ok_offset as_SysV _ _ x o Hc) as Hoff.
  pose proof (side_ok_scalar as_SysV _ _ Hc) as Hty.
  pose proof Hg as (N1 & _ & P1 & I1). pose proof Hc as (N2 & _).
  assert (forall r, r ∈ regs_of BFloat (c_args xs) -> r ∉ regs_of BInt (go_args xs)) as Hbk.
  { intros r H1%Rc H2%Rg. simpl in H1, H2. revert r H1 H2. apply (Forall_forall (fun r => r ∉ _)).
    apply (bool_decide_unpack _). vm_compute. exact I. }
  assert (forall b, tmp_of x86_scratch b ∉ arg_regs (c_args xs) /\ tmp_of x86_scratch b ∉ arg_regs (go_args xs)) as Htm.
  { intros b. destruct (Ht b) as [H1 H2]. split; by eapply not_arg_reg. }
  destruct (late_moves_ok (M := x86_machine) (rbp + 16) rsp (ab_StackArgsSize (pl_Go plan)) x86_scratch (flip <$> xs))
    with (s := s) as [Hv Hm]; rewrite ?flip_c, ?flip_go; try done.
  - by rewrite Forall_fmap.
  - intros y o (x & -> & Hx)%list_elem_of_fmap. by apply Hoff.
  - by apply no_clobber_safe.
  - split.
    + intros x Hx. exact (Hv (flip x) ltac:(by apply (list_elem_of_fmap_2 flip))).
    + intros m Hlt. by apply Hm.
Qed.

(** Registers a stub's bookkeeping uses are not argument registers. *)
Lemma not_go_reg d plan r x : analyzeSignature amd64_abi d = Ok plan -> x ∈ plan_args plan ->
  as_Go x = RegLoc r -> r ∈ a_goInt amd64_abi ++ a_goFloat amd64_abi.
Proof.
  intros E Hx Er. destruct amd64_thunk as [Ha _ _]. destruct (plan_sides _ d plan Ha E) as (Hg & _ & Rg & _).
  pose proof (side_ok_scalar as_Go _ _ Hg) as Hty. rewrite Forall_forall in Hty. specialize (Hty x Hx).
  destruct (scalar (as_Type x)) as [info|] eqn:Es; [|done].
  apply elem_of_app. assert (r ∈ regs_of (si_bank info) (go_args (plan_args plan))) as Hr.
  { apply list_elem_of_omap. exists (as_Type x, RegLoc r). split.
    - rewrite <-Er. by apply (list_elem_of_fmap_2 (fun x => (as_Type x, as_Go x))).
    - rewrite (reg_of_bank _ _ _ _ Es). by destruct (si_bank info). }
  apply Rg in Hr. destruct (si_bank info); [by left | by right].
Qed.

Lemma c_value_regs rsp s s' ty l : m_mem s' = m_mem s -> (forall r, l = RegLoc r -> m_regs s' r = m_regs s r) ->
  c_value rsp s' ty l = c_value rsp s ty l.
Proof. intros Hm Hr. unfold c_value. destruct l as [r|o]; [by rewrite Hr | by rewrite Hm]. Qed.

Lemma stub_before_ok cName goSym d plan spills ptrs area rbp g s :
  analyzeSignature amd64_abi d = Ok plan -> goArgsLayout (pl_Go plan) = Ok (spills, ptrs, area) ->
  no_clobber (plan_args plan) = true ->
  let x := mkExtern cName goSym d plan (align16 area) in
  let rsp := rbp - frame_of (align16 area) in
  let s' := xrun rsp rbp g s (stub_before x) in
  (forall y, y ∈ plan_args plan ->
     c_value rsp s' (as_Type y) (as_Go y) = go_value (rbp + 16) s (as_Type y) (as_SysV y)) /\
  m_regs s' "r14" = g /\ m_regs s' "xmm15" = 0 /\
  (forall m, rbp <= m -> m_mem s' m = m_mem s m) /\
  (forall k r, saved_regs !! k = Some r ->
     load (m_mem s') 8 (rsp + (align16 area + 8 * Z.of_nat k)) = m_regs s r mod 2 ^ 64).
Proof.
  intros E El Hnc x rsp s'. pose proof (area_spec _ _ _ _ El) as Harea.
  destruct (align16_spec area) as [Hd16 Ha16]. destruct (frame_spec _ Hd16) as [_ Hf]. set (spill := align16 area) in *.
  unfold s', stub_before. rewrite !xrun_app. cbn [gx_Spill gx_Plan x].
  destruct (save_ok rsp rbp g saved_regs s spill) as (R1 & M1 & V1). fold (save_regs spill) in R1, M1, V1.
  set (s1 := xrun rsp rbp g s (save_regs spill)) in *.
  change (zlen saved_regs) with 5 in M1.
  destruct (stub_moves_ok d plan rsp rbp g s1 E Hnc) as [V2 M2]; [unfold rsp; lia|].
  set (s2 := xrun rsp rbp g s1 (emitSysVToGoMoves plan)) in *. cbn [xrun foldl xstep m_regs m_mem].
  split_and!.
  - intros y Hy. rewrite (c_value_regs rsp s2); [|done|].
    + rewrite (V2 y Hy). unfold go_value. destruct (as_SysV y) as [r|o] eqn:Ey; [by rewrite R1|].
      f_equal. apply load_ext. intros a Ha. apply M1. right. unfold rsp. 
      destruct amd64_thunk as [Habi _ _]. destruct (plan_sides _ d plan Habi E) as (_ & Hc & _).
      pose proof (side_ok_offset as_SysV _ _ y o Hc Hy Ey). lia.
    + intros r Er. pose proof (not_go_reg d plan r y E Hy Er) as Hr. cbn [m_regs].
      rewrite !fn_lookup_insert_ne; [done | |]; intros <-; revert Hr; apply (bool_decide_unpack _); vm_compute; exact I.
  - rewrite fn_lookup_insert_ne by done. apply fn_lookup_insert.
  - apply fn_lookup_insert.
  - intros m Hm. rewrite M2, M1; [done | |]; right; unfold rsp; lia.
  - intros k r Hk. rewrite <-(V1 k r Hk). apply load_ext. intros a Ha. apply M2. unfold rsp in *. lia.
Qed.



Lemma stub_results_ok rsp rbp g a ret gs ss ts : abiFor "amd64" = Ok a -> returnAssignment a ret = Ok (gs, ss, ts) ->
  forall s, let s' := xrun rsp rbp g s ((fun mv => XMovq (snd mv) (fst mv)) <$> result_moves ss gs) in
  m_mem s' = m_mem s /\
  forall i gl c, gs !! i = Some gl -> ss !! i = Some c ->
    m_regs s' (loc_reg (rl_Location c)) = m_regs s (loc_reg (rl_Location gl)) /\
    loc_reg (rl_Location c) ∉ saved_regs.
Proof.
  intros Ha E. assert (a = amd64_abi) as -> by (vm_compute in Ha; injection Ha as <-; reflexivity). clear Ha.
  unfold returnAssignment in E. destruct (String.eqb ret "void"); [by simplify_eq|].
  assert (forall r, r ∈ ["rax"; "rdx"; "xmm0"; "xmm1"] -> r ∉ saved_regs) as Hs.
  { apply (Forall_forall (fun r => r ∉ saved_regs)), (bool_decide_unpack _). vm_compute. exact I. }
  destruct (scalar ret) as [info|].
  { destruct (si_bank info); cbn in E; simplify_eq/=; intros s; (split; [done|]); intros [|i] gl c Hg Hc; simplify_eq/=;
      (split; [done|]; apply Hs; set_solver). }
  destruct (aggregateLayout ret "return" true) as [[agg|]|] eqn:Ea; try done. cbn [mbind res_bind] in E.
  apply aggregateLayout_ok in Ea as [Hok Hlim]. pose proof (agg_two _ Hok (Hlim eq_refl)) as Hlen.
  destruct (ag_Fields agg) as [|f1 [|f2 [|]]]; simpl in Hlen; [ | | |lia]; clear -E Hs; simpl in E;
    repeat (destruct (fl_Bank _); simpl in E); simplify_eq; intros s; (split; [done|]);
    intros [|[|i]] gl c Hg Hc; simplify_eq/=; (split; [done|]; apply Hs; set_solver).
Qed.

(** Returning from Go to C: whatever the Go function did to the registers, if
    it left the part of the stub's frame above its argument area alone, then after
    the rest of the stub RBX and R12 to R15 hold the values they had on entry, and
    every C result register holds the Go result. *)
Theorem stub_returns cName goSym a d plan spills ptrs area rbp g s s2 :
  abiFor "amd64" = Ok a -> analyzeSignature a d = Ok plan -> goArgsLayout (pl_Go plan) = Ok (spills, ptrs, area) ->
  no_clobber (plan_args plan) = true ->
  let x := mkExtern cName goSym d plan (align16 area) in
  let rsp := rbp - frame_of (align16 area) in
  (forall m, rsp + area <= m -> m_mem s2 m = m_mem (xrun rsp rbp g s (stub_before x)) m) ->
  let s3 := xrun rsp rbp g s2 (stub_after x) in
  (forall r, r ∈ saved_regs -> m_regs s3 r = m_regs s r mod 2 ^ 64) /\
  (forall i gl c, ab_Results (pl_Go plan) !! i = Some gl -> ab_Results (pl_SysV plan) !! i = Some c ->
     m_regs s3 (loc_reg (rl_Location c)) = m_regs s2 (loc_reg (rl_Location gl))).
Proof.
  intros Ea E El Hnc x rsp Hmem s3. assert (a = amd64_abi) as -> by (vm_compute in Ea; injection Ea as <-; reflexivity).
  destruct (stub_before_ok cName goSym d plan spills ptrs area rbp g s E El Hnc) as (_ & _ & _ & _ & V).
  unfold s3, stub_after. rewrite xrun_app. cbn [gx_Plan gx_Spill x]. unfold result_ins.
  apply analyzeSignature_inv in E as (r & gs & ss & ts & _ & E2 & _ & -> & -> & ->).
  destruct (stub_results_ok rsp rbp g _ _ _ _ _ Ea E2 s2) as [M1 R1]. set (s2' := xrun rsp rbp g s2 (_ <$> result_moves ss gs)) in *.
  assert (NoDup saved_regs) as Hnd by (apply (bool_decide_unpack _); vm_compute; exact I).
  destruct (restore_ok rsp rbp g saved_regs s2' (align16 area) Hnd) as (_ & K & R). fold (restore_regs (align16 area)) in K, R.
  split.
  - intros q [k Hk]%list_elem_of_lookup. rewrite (R k q Hk), M1, <-(V k q Hk). apply load_ext. intros m Hm. apply Hmem.
    destruct (align16_spec area) as [_ ?]. fold rsp in Hm. lia.
  - intros i gl c Hg Hc. destruct (R1 i gl c Hg Hc) as [Er Hn]. by rewrite (K _ Hn).
Qed.

Definition pair_extern : goExtern := mkExtern "pair" "main.Pair" pair_func pair_plan 0.

Lemma stub_returns_witness :
  let before := xrun (1000 - 48) 1000 77 demo_state (stub_before pair_extern) in
  let back := mkM (fun r => if String.eqb r "rbx" then 42 else 13) (m_mem before) in
  let s3 := xrun (1000 - 48) 1000 77 back (stub_after pair_extern) in
  m_regs s3 "rdx" = 42 /\ m_regs s3 "rbx" = 5.
Proof.
  intros before back s3.
  destruct (stub_returns "pair" "main.Pair" amd64_abi pair_func pair_plan [] [] 0 1000 77 demo_state back) as [H1 H2].
  - vm_compute. reflexivity.
  - vm_compute. reflexivity.
  - vm_compute. reflexivity.
  - vm_compute. reflexivity.
  - intros m _. reflexivity.
  - split.
    + exact (H2 1%nat (mkRes "i64" (RegLoc "rbx")) (mkRes "i64" (RegLoc "rdx")) eq_refl eq_refl).
    + exact (H1 "rbx" ltac:(left)).
Defined.

(** ** Scalar signatures *)

(** The counters of the two sides run together: Go has more registers than C. *)
Definition counts (g c : side) : Prop :=
  sd_int c = Nat.min (sd_int g) 6 /\ (sd_int g <= 9)%nat /\ sd_float c = Nat.min (sd_float g) 8 /\ (sd_float g <= 15)%nat.

(** A scalar takes the next register of its bank on a side if there is one. *)
Lemma scalar_reg_next ints floats s b :
  scalar_reg ints floats s b =
  match bank_regs b ints floats !! match b with BInt => sd_int s | BFloat => sd_float s end with
  | Some r => Some (RegLoc r, match b with BInt => mkSide (S (sd_int s)) (sd_float s) (sd_stack s)
                              | BFloat => mkSide (sd_int s) (S (sd_float s)) (sd_stack s) end)
  | None => None
  end.
Proof.
  unfold scalar_reg. destruct b; simpl.
  - destruct (Nat.ltb_spec (sd_int s) (length ints)) as [H|H]; [|by rewrite lookup_ge_None_2].
    by destruct (ints !! sd_int s).
  - destruct (Nat.ltb_spec (sd_float s) (length floats)) as [H|H]; [|by rewrite lookup_ge_None_2].
    by destruct (floats !! sd_float s).
Qed.

Lemma next_bound (l : list string) (i : nat) :
  match l !! i with Some _ => (i < length l)%nat | None => (length l <= i)%nat end.
Proof. destruct (l !! i) eqn:E; [by eapply lookup_lt_Some | by apply lookup_ge_None]. Qed.

Lemma scalar_counts g c ty xs g' c' : counts g c -> scalar ty <> None ->
  assign_param amd64_abi g c ty = Ok (xs, g', c') ->
  counts g' c' /\ Forall (fun x => as_Type x = ty /\ forall o, as_Go x = StkLoc o -> exists o', as_SysV x = StkLoc o') xs.
Proof.
  intros (H1 & H2 & H3 & H4) Hs E. unfold assign_param in E. destruct (scalar ty) as [info|]; [|done]. clear Hs.
  unfold go_scalar, c_scalar in E. rewrite !scalar_reg_next in E. unfold counts.
  destruct (si_bank info); cbn [bank_regs] in E.
  - pose proof (next_bound (a_goInt amd64_abi) (sd_int g)) as Bg. change (length (a_goInt amd64_abi)) with 9%nat in Bg.
    pose proof (next_bound (a_sysvInt amd64_abi) (sd_int c)) as Bc. change (length (a_sysvInt amd64_abi)) with 6%nat in Bc.
    destruct (a_goInt amd64_abi !! _), (a_sysvInt amd64_abi !! _); injection E as <- <- <-; cbn [sd_int sd_float];
      (split; [lia|]; apply Forall_singleton; split; [done|]; intros o Eo; simpl in *; eauto; try done; lia).
  - pose proof (next_bound (a_goFloat amd64_abi) (sd_float g)) as Bg. change (length (a_goFloat amd64_abi)) with 15%nat in Bg.
    pose proof (next_bound (a_sysvFloat amd64_abi) (sd_float c)) as Bc. change (length (a_sysvFloat amd64_abi)) with 8%nat in Bc.
    destruct (a_goFloat amd64_abi !! _), (a_sysvFloat amd64_abi !! _); injection E as <- <- <-; cbn [sd_int sd_float];
      (split; [lia|]; apply Forall_singleton; split; [done|]; intros o Eo; simpl in *; eauto; try done; lia).
Qed.

Lemma scalar_loop ps : forall g c xs g' c', counts g c -> Forall (fun ty => scalar ty <> None) ps ->
  assign_loop amd64_abi g c ps = Ok (xs, g', c') ->
  Forall (fun x => as_Type x ∈ ps /\ forall o, as_Go x = StkLoc o -> exists o', as_SysV x = StkLoc o') xs.
Proof.
  induction ps as [|ty ps IH]; intros g c xs g' c' Hc Hs; cbn [assign_loop]; [by intros [= <- _ _]|].
  apply Forall_cons in Hs as [Hty Hs].
  destruct (assign_param _ _ _ _) as [[[ys g1] c1]|] eqn:E; [|done]. cbn.
  apply (scalar_counts _ _ _ _ _ _ Hc Hty) in E as [Hc1 Hys].
  destruct (assign_loop amd64_abi g1 c1 ps) as [[[zs g2] c2]|] eqn:E; [|done]. cbn. intros [= <- _ _].
  apply (IH _ _ _ _ _ Hc1 Hs) in E. apply Forall_app. split.
  - eapply Forall_impl; [exact Hys|]. intros x [-> ?]. split; [by left | done].
  - eapply Forall_impl; [exact E|]. intros x [? ?]. split; [by right | done].
Qed.

Lemma forallb_of_Forall {A} (f : A -> bool) l : Forall (fun x => f x = true) l -> forallb f l = true.
Proof. intros H. apply forallb_forall. intros x Hx. rewrite Forall_forall in H. apply H. by apply list_elem_of_In. Qed.

(** Signatures of scalars are safe: when every parameter is a scalar, a value
    bound for the Go stack is never in a register, so no store of a stub reads a
    clobbered register; and when its integers are 8 bytes wide, every stack copy of
    the stub is a 64-bit one. *)
Theorem scalar_signatures_safe a d plan :
  abiFor "amd64" = Ok a -> analyzeSignature a d = Ok plan -> Forall (fun ty => scalar ty <> None) (ll_Params d) ->
  no_clobber (plan_args plan) = true /\
  (Forall (fun ty => bank_of ty = BInt -> mustSize ty = 8) (ll_Params d) -> copies_ok (plan_args plan) = true).
Proof.
  intros Ea E Hs. assert (a = amd64_abi) as -> by (vm_compute in Ea; injection Ea as <-; reflexivity).
  destruct amd64_thunk as [Ha _ _]. destruct (plan_sides _ d plan Ha E) as (_ & _ & _ & _ & r & Er & Exs).
  unfold assignParams in Er. destruct (assign_loop _ _ _ _) as [[[xs g] c]|] eqn:El; [|done]. cbn in Er.
  injection Er as <-. simpl in Exs. rewrite <-Exs. apply scalar_loop in El; [|unfold counts; simpl; lia | done].
  split.
  - apply forallb_of_Forall. eapply Forall_impl; [exact El|]. intros x [_ H].
    destruct (as_SysV x) eqn:E1, (as_Go x) eqn:E2; try done. destruct (H off eq_refl) as [o' ?]. done.
  - intros H8. apply forallb_of_Forall. eapply Forall_impl; [exact El|]. intros x [Hin _].
    destruct (as_SysV x), (as_Go x); try done. destruct (bank_of (as_Type x)) eqn:Eb; [|done].
    apply Z.eqb_eq. by apply (proj1 (Forall_forall _ _) H8).
Qed.

Lemma scalar_signatures_safe_witness :
  no_clobber (plan_args ptr_plan) = true /\ copies_ok (plan_args ptr_plan) = true.
Proof.
  destruct (scalar_signatures_safe amd64_abi ptr_func ptr_plan) as [H1 H2].
  - vm_compute. reflexivity.
  - vm_compute. reflexivity.
  - apply Forall_replicate. vm_compute. discriminate.
  - split; [exact H1 | apply H2]. apply Forall_replicate. vm_compute. reflexivity.
Defined.

(** ** Signatures outside that class *)

Definition agg_func : llFunc :=
  mkLL "h" "void" [] [] ["{ i64, i64, i64, i64, i64, i64, i64, i64, i64 }"; "i64"] [[]; []] [[]; []] false false false.
Definition agg_plan : sigPlan :=
  Eval vm_compute in match analyzeSignature amd64_abi agg_func with
  | Ok p => p | Fail _ => mkPlan (mkAbiSide [] [] 0) (mkAbiSide [] [] 0) "" [] 0 end.

(** Nine words in Go registers and a scalar in RDI: the load of the fourth word
    overwrites RDI before the scalar is stored, and Go receives the wrong value. *)
Example stub_clobbers :
  let s := mkM (fun r => if String.eqb r "rdi" then 7 else 0) (fun _ => 0) in
  let s' := xrun 900 1000 0 s (emitSysVToGoMoves agg_plan) in
  analyzeSignature amd64_abi agg_func = Ok agg_plan /\
  mkAsg "i64" (StkLoc 0) (RegLoc "rdi") ∈ plan_args agg_plan /\
  go_value 1016 s "i64" (RegLoc "rdi") = 7 /\ c_value 900 s' "i64" (StkLoc 0) = 0.
Proof.
  split_and!; [vm_compute; reflexivity | | vm_compute; reflexivity | vm_compute; reflexivity].
  apply (list_elem_of_lookup_2 _ 9). vm_compute. reflexivity.
Qed.

Definition ten_func : llFunc :=
  mkLL "k" "void" [] [] (replicate 10 "i32") (replicate 10 []) (replicate 10 []) false false false.
Definition ten_plan : sigPlan :=
  Eval vm_compute in match analyzeSignature amd64_abi ten_func with
  | Ok p => p | Fail _ => mkPlan (mkAbiSide [] [] 0) (mkAbiSide [] [] 0) "" [] 0 end.

(** The tenth [i32] is copied with [movl 40(%rbp), %r12]: not an x86 instruction. *)
Example stub_does_not_assemble :
  analyzeSignature amd64_abi ten_func = Ok ten_plan /\ forallb assembles (emitSysVToGoMoves ten_plan) = false /\
  xins_text (XLoad12 "i32" 24) = tab +:+ "movl" +:+ tab +:+ "40(%rbp), %r12" /\
  XLoad12 "i32" 24 ∈ emitSysVToGoMoves ten_plan.
Proof.
  split_and!; [vm_compute; reflexivity | vm_compute; reflexivity | vm_compute; reflexivity |].
  vm_compute. repeat first [left | right].
Qed.
