(* ===== verification/GoAbi.v ===== *)
(** * The Go ABI pass over a module

    Models [runGoABI] and [replaceAtName] of src/internal/lower/goabi.go: which
    functions get an entry thunk, which names are renamed, and the texts the pass
    returns, from the text of the module.  The sidecar is its list of functions and skipped names, before JSON encoding. *)

From Stdlib Require Import ZArith Lia Ascii.
From stdpp Require Import base list strings gmap sorting.
From S2P Require Import Prelude Text Regex Layout LayoutProofs GoParse Thunk ThunkProofs Tables GoExtern.

(** ** Renaming *)

Definition symCont (c : ascii) : bool :=
  let n := byte_of_ascii c in
  ((65 <=? n) && (n <=? 90)) || ((97 <=? n) && (n <=? 122)) || ((48 <=? n) && (n <=? 57)) ||
  (n =? 95) || (n =? 46) || (n =? 36).

Definition starts_cont (s : string) : bool := match s with String c _ => symCont c | EmptyString => false end.

(** The scan of [replaceAtName]: [skip] characters belong to a needle found
    before, to be copied ([keep]) or dropped. *)
Fixpoint rep_go (name repl : string) (skip : nat) (keep : bool) (text : string) : string :=
  match text with
  | EmptyString => ""
  | String c rest =>
      match skip with
      | S k => if keep then String c (rep_go name repl k keep rest) else rep_go name repl k keep rest
      | O =>
          match after_prefix (String "@"%char name) text with
          | None => String c (rep_go name repl 0 true rest)
          | Some tail =>
              if starts_cont tail then String c (rep_go name repl (String.length name) true rest)
              else "@" +:+ repl +:+ rep_go name repl (String.length name) false rest
          end
      end
  end.

Definition replaceAtName (text name repl : string) : string := rep_go name repl 0 true text.

(** ** The pass *)

Record goABIResult := mkABIResult {
  gr_outLL : string; gr_asm : string; gr_log : string; gr_wrappers : string;
  gr_Functions : list (llFunc * goFunc); gr_Skipped : list string }.

(** The loop over the definitions: accepted functions, skipped names, reasons. *)
Fixpoint scan_defs (a : abiSet) (externNames : gset string) (defs : list llFunc)
    (goabi : list (llFunc * goFunc)) (skipped : list string) (reasons : gmap string string)
    : list (llFunc * goFunc) * list string * gmap string string :=
  match defs with
  | [] => (goabi, skipped, reasons)
  | d :: defs =>
      if bool_decide (ll_Name d ∈ externNames) then
        scan_defs a externNames defs goabi (skipped ++ [ll_Name d])
          (<[ll_Name d := "__go_extern declaration cannot have a C body in this TU"]> reasons)
      else
        match analyzeSignature a d with
        | Fail r => scan_defs a externNames defs goabi (skipped ++ [ll_Name d]) (<[ll_Name d := reason_text r]> reasons)
        | Ok plan =>
            scan_defs a externNames defs (goabi ++ [(d, mkGoFunc (ll_Name d) (ll_Name d +:+ ".impl") plan)]) skipped reasons
        end
  end.

Definition accepted (a : abiSet) (d : llFunc) : bool := match analyzeSignature a d with Ok _ => true | Fail _ => false end.

(** The names to rename. *)
Definition renames (a : abiSet) (externNames : gset string) (goabi : list (llFunc * goFunc)) (declares : list llFunc)
    : gset string :=
  foldl (fun m d =>
    if bool_decide (ll_Name d ∈ m) || bool_decide (ll_Name d ∈ externNames) then m
    else if accepted a d then {[ ll_Name d ]} ∪ m else m)
    (list_to_set ((fun x => gf_Name (snd x)) <$> goabi)) declares.

Definition rename_all (text : string) (names : list string) : string :=
  foldl (fun text name => replaceAtName text name (name +:+ ".impl")) text names.

Definition log_text (ngo : nat) (skipped : list string) (reasons : gmap string string) (nx : nat) (xskipped : list string)
    : string :=
  "goabi: " +:+ dec (Z.of_nat ngo) +:+ " rewritten, " +:+ dec (zlen skipped) +:+ " left SysV-only" +:+
  (match skipped with [] => "" | _ => " [" +:+ join ", " skipped +:+ "]" end) +:+ nl +:+
  foldr (fun name s => "goabi: skipped " +:+ name +:+ ": " +:+ default "" (reasons !! name) +:+ nl +:+ s) "" skipped +:+
  (if (0 <? nx)%nat || (0 <? length xskipped)%nat then
     "go_extern: " +:+ dec (Z.of_nat nx) +:+ " stubs" +:+
     (match xskipped with [] => "" | _ => ", " +:+ dec (zlen xskipped) +:+ " skipped [" +:+ join ", " xskipped +:+ "]" end) +:+
     nl
   else "").

Definition runGoABI (text arch : string) (tables : bool) : res reason goABIResult :=
  a ← abiFor arch;
  '(externs, externSkipped) ← collectGoExterns a text;
  let externNames : gset string := list_to_set (gx_CName <$> externs) in
  let '(goabi, skipped, reasons) := scan_defs a externNames (parseFunctions text "define") [] [] ∅ in
  let fs := snd <$> goabi in
  let rename := renames a externNames goabi (parseFunctions text "declare") in
  let outLL := rename_all text (merge_sort str_le (elements rename)) in
  let '(stubs, externs') := match externs with [] => ("", externs) | _ => emitGoExternStubs a externs tables end in
  let asm := emitThunksL a fs tables +:+ stubs in
  wrappers ← (if tables then
                w ← emitWrapperTables a fs; x ← emitGoExternTables a externs'; Ok (w +:+ x)
              else Ok "");
  Ok (mkABIResult outLL asm (log_text (length goabi) skipped reasons (length externs) externSkipped) wrappers goabi skipped).

(** ** Renaming is by whole names *)

Fixpoint has_at (s : string) : bool :=
  match s with String c s => Ascii.eqb c "@"%char || has_at s | EmptyString => false end.

(** The text up to the first '@' and the segments after each '@'. *)
Fixpoint segments (s : string) : string * list string :=
  match s with
  | EmptyString => ("", [])
  | String c s =>
      let '(h, t) := segments s in
      if Ascii.eqb c "@"%char then ("", h :: t) else (String c h, t)
  end.

Fixpoint glue (l : list string) : string := match l with [] => "" | s :: l => "@" +:+ s +:+ glue l end.

(** The segment after an '@', when it starts with the whole name. *)
Definition rename_seg (name repl s : string) : string :=
  match after_prefix name s with
  | Some tail => if starts_cont tail then s else repl +:+ tail
  | None => s
  end.

Definition rename_spec (text name repl : string) : string :=
  let '(h, t) := segments text in h +:+ glue (rename_seg name repl <$> t).

Lemma rep_keep name repl b text : rep_go name repl 0 b text = rep_go name repl 0 true text.
Proof. by destruct text. Qed.

Lemma segments_text s : let '(h, t) := segments s in s = h +:+ glue t /\ has_at h = false /\ Forall (fun s => has_at s = false) t.
Proof.
  induction s as [|c s IH]; [done|]. cbn [segments]. destruct (segments s) as [h t]. destruct IH as (-> & Hh & Ht).
  destruct (Ascii.eqb_spec c "@"%char) as [->|Hc]; [by split_and!; [| |constructor]|].
  split_and!; [done | | done]. cbn [has_at]. by destruct (Ascii.eqb_spec c "@"%char).
Qed.

Lemma rep_plain name repl h rest : has_at h = false ->
  rep_go name repl 0 true (h +:+ rest) = h +:+ rep_go name repl 0 true rest.
Proof.
  induction h as [|c h IH]; [done|]. cbn [has_at]. intros [Hc Hh]%orb_false_elim. specialize (IH Hh).
  change (String c h +:+ rest) with (String c (h +:+ rest)). cbn [rep_go after_prefix].
  destruct (Ascii.eqb_spec "@"%char c) as [<-|]; [done|]. by rewrite IH.
Qed.

Lemma rep_skip name repl keep n rest :
  rep_go name repl (String.length n) keep (n +:+ rest) = (if keep then n else "") +:+ rep_go name repl 0 true rest.
Proof.
  induction n as [|c n IH]; [rewrite rep_keep; by destruct keep|].
  change (String c n +:+ rest) with (String c (n +:+ rest)). cbn [String.length rep_go]. rewrite IH. by destruct keep.
Qed.

(** What follows a segment: nothing or another '@'. *)
Lemma after_prefix_glue name : forall s t, has_at name = false ->
  after_prefix name (s +:+ glue t) = (fun r => r +:+ glue t) <$> after_prefix name s.
Proof.
  induction name as [|c name IH]; intros s t; [done|]. cbn [has_at]. intros [Hc Hn]%orb_false_elim.
  destruct s as [|d s].
  - change ("" +:+ glue t) with (glue t). destruct t as [|x t]; [done|]. cbn [glue]. change ("@" +:+ ?x) with (String "@"%char x).
    cbn [after_prefix]. by rewrite Hc.
  - change (String d s +:+ glue t) with (String d (s +:+ glue t)). cbn [after_prefix].
    destruct (Ascii.eqb c d); [by apply IH | done].
Qed.

Lemma starts_cont_glue s t : starts_cont (s +:+ glue t) = starts_cont s.
Proof. destruct s as [|c s]; [|done]. by destruct t. Qed.

Lemma has_at_app a b : has_at (a +:+ b) = has_at a || has_at b.
Proof. induction a as [|c a IH]; [done|]. cbn [has_at]. change (String c a +:+ b) with (String c (a +:+ b)). cbn [has_at]. by rewrite IH, orb_assoc. Qed.

Lemma rep_segment name repl s t : has_at name = false -> has_at s = false ->
  rep_go name repl 0 true ("@" +:+ s +:+ glue t) = "@" +:+ rename_seg name repl s +:+ rep_go name repl 0 true (glue t).
Proof.
  intros Hn Hs. change ("@" +:+ ?x) with (String "@"%char x). cbn [rep_go after_prefix].
  rewrite Ascii.eqb_refl, after_prefix_glue by done. unfold rename_seg.
  destruct (after_prefix name s) as [r|] eqn:E; cbn [fmap option_fmap option_map].
  - apply after_prefix_Some in E as ->. rewrite has_at_app in Hs. apply orb_false_elim in Hs as [_ Hr].
    rewrite starts_cont_glue. destruct (starts_cont r).
    + by rewrite !string_app_assoc, rep_skip, rep_plain.
    + rewrite !string_app_assoc, rep_skip, rep_plain by done. done.
  - by rewrite rep_plain.
Qed.

Lemma rep_glue name repl t : has_at name = false -> Forall (fun s => has_at s = false) t ->
  rep_go name repl 0 true (glue t) = glue (rename_seg name repl <$> t).
Proof.
  intros Hn. induction 1 as [|s t Hs _ IH]; [done|]. cbn [glue fmap list_fmap]. by rewrite rep_segment, IH.
Qed.

Lemma replaceAtName_ok text name repl : has_at name = false -> replaceAtName text name repl = rename_spec text name repl.
Proof.
  intros Hn. unfold replaceAtName, rename_spec. pose proof (segments_text text) as H. destruct (segments text) as [h t].
  destruct H as (-> & Hh & Ht). by rewrite rep_plain, rep_glue.
Qed.

Lemma segments_glue h t : has_at h = false -> Forall (fun s => has_at s = false) t -> segments (h +:+ glue t) = (h, t).
Proof.
  intros Hh Ht. revert h Hh. induction Ht as [|s t Hs Ht IH]; intros h Hh; cbn [glue].
  - rewrite string_app_nil. induction h as [|c h IHh]; [done|]. cbn [has_at] in Hh. apply orb_false_elim in Hh as [Hc Hh].
    cbn [segments]. by rewrite (IHh Hh), Hc.
  - induction h as [|c h IHh].
    + change ("" +:+ "@" +:+ s +:+ glue t) with (String "@"%char (s +:+ glue t)). cbn [segments]. by rewrite (IH s Hs).
    + cbn [has_at] in Hh. apply orb_false_elim in Hh as [Hc Hh].
      change (String c h +:+ ?x) with (String c (h +:+ x)). cbn [segments]. by rewrite (IHh Hh), Hc.
Qed.

(** Renaming replaces whole names: [replaceAtName] changes exactly the
    segments after an '@' that start with the name and do not continue it with an
    identifier character, and nothing else, for every text and every name without
    an '@'; and renaming to [name.impl] twice is the same as once. *)
Theorem replaceAtName_spec text name repl : has_at name = false ->
  replaceAtName text name repl = rename_spec text name repl /\
  (repl = name +:+ ".impl" -> replaceAtName (replaceAtName text name repl) name repl = replaceAtName text name repl).
Proof.
  intros Hn. split; [by apply replaceAtName_ok|]. intros ->. rewrite !replaceAtName_ok by done. unfold rename_spec at 2 3.
  pose proof (segments_text text) as H. destruct (segments text) as [h t]. destruct H as (_ & Hh & Ht).
  unfold rename_spec. rewrite segments_glue; [| done |].
  - f_equal. f_equal. rewrite <-list_fmap_compose. apply list_fmap_ext. intros i s _. unfold compose, rename_seg.
    destruct (after_prefix name s) as [r|] eqn:E; [|by rewrite E]. destruct (starts_cont r) eqn:Ec; [by rewrite E, Ec|].
    by rewrite string_app_assoc, after_prefix_app.
  - rewrite Forall_fmap. eapply Forall_impl; [exact Ht|]. intros s Hs. unfold compose, rename_seg.
    destruct (after_prefix name s) as [r|] eqn:E; [|done]. destruct (starts_cont r); [done|].
    apply after_prefix_Some in E as ->. rewrite has_at_app in Hs. apply orb_false_elim in Hs as [_ Hr].
    rewrite !has_at_app, Hn, Hr. done.
Qed.

Lemma replaceAtName_spec_witness :
  replaceAtName "call @f(ptr @f.x, ptr @fg, ptr @f)" "f" "f.impl" = rename_spec "call @f(ptr @f.x, ptr @fg, ptr @f)" "f" "f.impl" /\
  rename_spec "call @f(ptr @f.x, ptr @fg, ptr @f)" "f" "f.impl" = "call @f.impl(ptr @f.x, ptr @fg, ptr @f.impl)".
Proof. split; [apply (replaceAtName_spec _ "f" "f.impl"); reflexivity | vm_compute; reflexivity]. Defined.

(** ** Every definition is accounted for *)

Lemma scan_defs_ok a ext defs : forall goabi skipped reasons g s r,
  scan_defs a ext defs goabi skipped reasons = (g, s, r) ->
  (ll_Name ∘ fst <$> g) ++ s ≡ₚ ((ll_Name ∘ fst <$> goabi) ++ skipped) ++ (ll_Name <$> defs) /\
  (Forall (fun x => gf_Name (snd x) = ll_Name (fst x) /\ gf_Impl (snd x) = ll_Name (fst x) +:+ ".impl" /\
             analyzeSignature a (fst x) = Ok (gf_plan (snd x))) goabi ->
   Forall (fun x => gf_Name (snd x) = ll_Name (fst x) /\ gf_Impl (snd x) = ll_Name (fst x) +:+ ".impl" /\
             analyzeSignature a (fst x) = Ok (gf_plan (snd x))) g).
Proof.
  induction defs as [|d defs IH]; intros goabi skipped reasons g s r; cbn [scan_defs].
  { intros [= -> -> ->]. rewrite fmap_nil, app_nil_r. done. }
  assert (forall (A B C : list string) n, (A ++ (B ++ [n])) ++ C ≡ₚ (A ++ B) ++ n :: C) as Hp1.
  { intros A B C n. rewrite <-!app_assoc. done. }
  assert (forall (A B C : list string) n, ((A ++ [n]) ++ B) ++ C ≡ₚ (A ++ B) ++ n :: C) as Hp2.
  { intros A B C n. rewrite <-!app_assoc. apply Permutation_app_head. simpl. by rewrite Permutation_middle. }
  destruct (bool_decide _).
  { intros [H1 H2]%IH. split; [|done]. by rewrite H1, Hp1, fmap_cons. }
  destruct (analyzeSignature a d) as [plan|why] eqn:E; intros [H1 H2]%IH.
  - split.
    + rewrite H1, fmap_app. apply Hp2.
    + intros Hg. apply H2. apply Forall_app. split; [done|]. by apply Forall_singleton.
  - split; [|done]. by rewrite H1, Hp1, fmap_cons.
Qed.

(** C40. The pass loses no function: whenever it succeeds, every [define] of the
    module is either in the sidecar with the plan of its signature and the body
    name [name.impl], or in the skipped list, and none is in both. *)
Theorem runGoABI_accounts text arch tables a out :
  abiFor arch = Ok a -> runGoABI text arch tables = Ok out ->
  (ll_Name ∘ fst <$> gr_Functions out) ++ gr_Skipped out ≡ₚ ll_Name <$> parseFunctions text "define" /\
  Forall (fun x => gf_Name (snd x) = ll_Name (fst x) /\ gf_Impl (snd x) = ll_Name (fst x) +:+ ".impl" /\
    analyzeSignature a (fst x) = Ok (gf_plan (snd x))) (gr_Functions out).
Proof.
  intros Ha. unfold runGoABI. rewrite Ha. cbn [mbind res_bind].
  destruct (collectGoExterns _ _) as [[xs xskip]|]; [|done]. cbn [mbind res_bind].
  destruct (scan_defs _ _ _ _ _ _) as [[g s] r] eqn:E. apply scan_defs_ok in E as [H1 H2].
  destruct (match xs with [] => _ | _ => _ end) as [stubs xs'].
  destruct (if tables then _ else _) as [w|]; [|done]. cbn [mbind res_bind]. intros [= <-].
  split; [exact H1 | by apply H2].
Qed.

(** A small module: a definition with a thunk, one with varargs, and a declaration
    bound to a Go function. *)
Definition demo_text : string :=
  "@.str.1 = private unnamed_addr constant [29 x i8] c" +:+ String quote_char "goc.attr.go_extern:main.Clock\00" +:+ String quote_char "" +:+ nl +:+
  "@llvm.global.annotations = appending global [1 x { ptr, ptr, ptr, i32, ptr }] [{ ptr, ptr, ptr, i32, ptr } { ptr @clock, ptr @.str.1, ptr @.str.2, i32 3, ptr null }], section" +:+ nl +:+
  "define dso_local i64 @f(i64 noundef %x) #0 {" +:+ nl +:+ "  %1 = call i64 @f(i64 %x)" +:+ nl +:+ "}" +:+ nl +:+
  "define void @v(i32 %n, ...) {" +:+ nl +:+ "declare i64 @clock(i32 noundef) #1" +:+ nl +:+ "declare i32 @puts(ptr)".

Example demo_externs : parseGoExterns demo_text = {[ "clock" := "main.Clock" ]}.
Proof. vm_compute. reflexivity. Qed.

Lemma runGoABI_accounts_witness :
  match runGoABI demo_text "amd64" true with
  | Ok out => (ll_Name ∘ fst <$> gr_Functions out) ++ gr_Skipped out ≡ₚ ["f"; "v"] /\ gr_Skipped out = ["v"]
  | Fail _ => False
  end.
Proof.
  destruct (runGoABI demo_text "amd64" true) as [out|] eqn:E; [|vm_compute in E; discriminate].
  split; [exact (proj1 (runGoABI_accounts demo_text "amd64" true amd64_abi out eq_refl E))|].
  vm_compute in E. injection E as <-. reflexivity.
Defined.
