(* ===== verification/Rewrite.v ===== *)
(** * Rewriting the IR and the assembly

    Models src/internal/lower/rewrite.go.  Each function of the source reads a file,
    changes its text and writes it back; here it is the function of the text (the
    messages it prints are left out).  The patterns are those of the source. *)

From Stdlib Require Import ZArith Lia Ascii.
From stdpp Require Import base list strings gmap.
From S2P Require Import Prelude Text Regex RegexLines Layout GoParse Thunk GoExtern GoAbi.

(** ** Strings *)

(** [strings.Replace(s, old, neu, 1)] for a nonempty [old]. *)
Fixpoint replace_first (old neu s : string) : string :=
  match after_prefix old s with
  | Some rest => neu +:+ rest
  | None => match s with String c s => String c (replace_first old neu s) | EmptyString => "" end
  end.

(** [strings.Cut(s, ":")] *)
Fixpoint cut_colon (s : string) : option (string * string) :=
  match s with
  | EmptyString => None
  | String c s =>
      if Ascii.eqb c ":"%char then Some ("", s)
      else match cut_colon s with Some (a, b) => Some (String c a, b) | None => None end
  end.

(** [strconv.Atoi] of digits, without its error: out of range it is the largest
    [int]. *)
Definition Atoi (s : string) : Z := Z.min (digits_value 0 s) (2 ^ 63 - 1).

(** ** FixIR *)

Definition mdRE : regex := cats [LineStart; lit "!"; Group 1 (many1 re_digit); lit " = "].
Definition attach_re : regex :=
  cats [lit " !"; Class (fun c => re_alpha c || char_is "_"%char c || char_is "."%char c);
        many (fun c => re_word c || char_is "."%char c); lit " !"; many1 re_digit].
Definition defRE : regex :=
  cats [LineStart; Group 1 (Cat (lit "define ") (Star false (Class re_dot))); Group 2 (Star true attach_re); lit " {"; LineEnd].

Definition quoted_text (s : string) : string := String quote_char (s +:+ String quote_char "").
Definition no_realign : string := quoted_text "no-realign-stack".
Definition flags_open : string := "!llvm.module.flags = !{".

(** A metadata id above every one in use. *)
Definition fresh_id (ll : string) : Z :=
  foldl (fun id m => let n := Atoi (group_text ll m 1) in if id <=? n then s64 (n + 1) else id) 9000 (find_all mdRE ll).

Definition add_alignment (ll : string) : string :=
  let md := "!" +:+ dec (fresh_id ll) in
  let ll := if contains flags_open ll then replace_first flags_open (flags_open +:+ md +:+ ", ") ll
            else ll +:+ nl +:+ flags_open +:+ md +:+ "}" +:+ nl in
  ll +:+ nl +:+ md +:+ " = !{i32 1, !" +:+ quoted_text "override-stack-alignment" +:+ ", i32 8}" +:+ nl.

(** The new text of a [define] line; the source indexes the second match, which is
    there (lemma [defRE_again]). *)
Definition fix_define (s : string) : string :=
  if contains no_realign s then s
  else match find defRE s with
       | Some m => group_text s m 1 +:+ " " +:+ no_realign +:+ group_text s m 2 +:+ " {"
       | None => s
       end.

Definition mark_defines (ll : string) : string := replace_all defRE ll (fun m => fix_define (match_text ll m)).

Definition FixIR (ll arch : string) : string :=
  let arch := if String.eqb arch "" then "amd64" else arch in
  let ll := if negb (String.eqb arch "arm64") && negb (contains "override-stack-alignment" ll) then add_alignment ll else ll in
  mark_defines ll.

(** ** RenameIR *)

Fixpoint rename_pairs (text : string) (pairs : list string) : res string string :=
  match pairs with
  | [] => Ok text
  | p :: pairs =>
      match cut_colon p with
      | Some (old, neu) => rename_pairs (replaceAtName text old neu) pairs
      | None => Fail ("realbody: IR rename " +:+ quoted_text p +:+ " is not old:new")
      end
  end.

Definition RenameIR (text spec : string) : res string string := rename_pairs text (Fields spec).

(** ** AlignASM *)

Definition one_of (s : string) : regex := Class (fun c => existsb (char_is c) (String.list_ascii_of_string s)).
Definition alignOK : regex :=
  Cat TextStart (alts [Cat (lit "movs") (one_of "sd"); cats [lit "mov"; one_of "lh"; lit "p"; one_of "sd"]; lit "movu"; lit "movq"; lit "movd";
    lit "cvt"; lit "ucomis"; lit "comis"; cats [lit "cmp"; many (code_in 97 122); lit "s"; one_of "sd"; TextEnd];
    cats [words ["add"; "sub"; "mul"; "div"; "sqrt"; "min"; "max"]; lit "s"; one_of "sd"; TextEnd]; lit "pinsr"; lit "pextr"]).

Definition movRE (op : string) : regex :=
  cats [LineStart; Group 1 (many re_space); lit op; Group 2 (cats [Class re_space; many re_dot; lit "("])].

(** [re.ReplaceAllString(text, "${1}"+neu+"${2}")] *)
Definition unalign (text : string) (p : string * string) : string :=
  replace_all (movRE (fst p)) text (fun m => group_text text m 1 +:+ snd p +:+ group_text text m 2).

Definition unaligned_moves : list (string * string) := [("movaps", "movups"); ("movapd", "movupd"); ("movdqa", "movdqu")].

(** A line with an SSE register and a memory operand off the constant pool. *)
Definition sse_memory (s : string) : bool :=
  contains "%xmm" s && contains "(" s && negb (contains "(%rip)" s) && negb (HasPrefix s "#") && negb (HasPrefix s ".").

Definition line_op (s : string) : string := match Fields s with op :: _ => op | [] => "" end.

Fixpoint check_lines (lines : list string) : res string () :=
  match lines with
  | [] => Ok ()
  | line :: lines =>
      let s := TrimSpace line in
      if sse_memory s && negb (is_match alignOK (line_op s))
      then Fail ("realbody: FATAL alignment-requiring SSE memory operand on an 8-byte-aligned Go stack: " +:+ s)
      else check_lines lines
  end.

Definition AlignASM (text : string) : res string string :=
  let text := foldl unalign text unaligned_moves in
  _ ← check_lines (split_on newline text); Ok text.

(** ** FirstFnName and ObjectHasMagic *)

Definition fnNameRE : regex :=
  cats [lit "define "; many (fun c => negb (char_is "@"%char c)); lit "@"; Group 1 (Cat (Class ident_start) (many re_word))].

Definition FirstFnName (text : string) : string := match find fnNameRE text with Some m => group_text text m 1 | None => "" end.

(** [bytes.Contains] *)
Fixpoint has_bytes (pat b : list Z) : bool :=
  bool_decide (take (length pat) b = pat) || match b with _ :: b => has_bytes pat b | [] => false end.

Definition ObjectHasMagic (b : list Z) : res string () :=
  if has_bytes (le_bytes 4 0x28C0DE42) b then Ok () else Fail "FAIL: magic 0x28C0DE42 not in goobj TEXT — body not from source".
