(* ===== verification/RewriteProofs.v ===== *)
(** * What the rewrites guarantee

    Properties of Rewrite.v: [FixIR] works line by line, leaves every definition with
    the attribute, changes nothing when it runs again, and adds metadata under an id
    that the module does not define. *)

From Stdlib Require Import ZArith Lia Ascii.
From stdpp Require Import base list strings gmap pretty.
From S2P Require Import Prelude Text Regex RegexLines Layout GoParse GoParseProofs Thunk GoExtern GoAbi Rewrite.

(** ** The pattern of a definition *)

Fixpoint one_line (r : regex) : bool :=
  match r with
  | Class f => negb (f newline)
  | Cat a b | Alt a b => one_line a && one_line b
  | Star _ a | Group _ a => one_line a
  | _ => true
  end.

Lemma one_line_accepts r c g c' g' : accepts r c g c' g' -> one_line r = true -> exists w, between w c c' /\ all_in re_dot w = true.
Proof.
  induction 1 as [c g|f a s b o g Hf|a b c g c1 g1 c2 g2 _ IHa _ IHb|a b c g c' g' _ IH|a b c g c' g' _ IH|greedy a c g
    |greedy a c g c1 g1 c2 g2 _ IHa _ _ IHb|n a c g c' g' _ IH|c g|c g|c g|c g|c g]; cbn [one_line]; intros Ho;
    try (by exists ""; split; [apply between_nil|]).
  - exists (String a ""). split; [by exists s|]. cbn [all_in]. unfold re_dot, char_is. destruct (Ascii.eqb_spec a newline) as [->|]; [|done].
    by rewrite Hf in Ho.
  - apply andb_true_iff in Ho as [Ha Hb]. destruct (IHa Ha) as (w1 & H1 & A1), (IHb Hb) as (w2 & H2 & A2). exists (w1 +:+ w2).
    split; [by eapply between_app | by rewrite all_in_app, A1, A2].
  - apply andb_true_iff in Ho as [Ha _]. auto.
  - apply andb_true_iff in Ho as [_ Hb]. auto.
  - destruct (IHa Ho) as (w1 & H1 & A1), (IHb Ho) as (w2 & H2 & A2). exists (w1 +:+ w2). split; [by eapply between_app | by rewrite all_in_app, A1, A2].
  - auto.
Qed.

Definition space_led (q : string) : Prop := q = "" \/ exists q', q = String " "%char q'.

Lemma attach_led c g c' g' w : accepts (Star true attach_re) c g c' g' -> between w c c' -> space_led w.
Proof.
  intros H Hw. inversion H as [| | | | |? ? ? ?|? ? ? ? c1 g1 ? ? Ha _ Hs| | | | | |]; subst; [left; by apply between_refl in Hw|]. right.
  unfold attach_re in Ha. cbn [cats] in Ha. apply inv_cat in Ha as (c2 & g2 & [_ Hl]%inv_lit & Ha).
  destruct (accepts_between _ _ _ _ _ Ha) as [w1 H1]. destruct (accepts_between _ _ _ _ _ Hs) as [w2 H2].
  rewrite (between_unique _ _ _ _ Hw (between_app _ _ _ _ _ (between_app _ _ _ _ _ Hl H1) H2)). by eexists.
Qed.

Lemma attach_no_groups c g c' g' : accepts (Star true attach_re) c g c' g' -> g' = g.
Proof.
  intros H. remember (Star true attach_re) as r eqn:E. revert E.
  induction H as [| | | | |gr b c g|gr b c g c1 g1 c2 g2 Ha _ Hlt Hs IH| | | | | |]; intros E; try done. injection E as -> ->. rewrite (IH eq_refl).
  unfold attach_re in Ha. cbn [cats] in Ha. next_piece Ha d1 k1. next_piece Ha d2 k2. next_piece Ha d3 k3. next_piece Ha d4 k4.
  apply inv_lit in Hm as [-> _], Hm2 as [-> _]. apply inv_class in Hm0 as [-> _]. apply inv_star in Hm1 as [-> _]. by apply many1_inv in Ha as [-> _].
Qed.

Lemma def_inv c c' g : accepts defRE c [] c' g -> line_start c = true /\ line_end c' = true /\ exists p q, between (p +:+ q +:+ " {") c c' /\
  all_in re_dot (p +:+ q +:+ " {") = true /\ p <> "" /\ space_led q /\
  g = [(2, (cu_off c + String.length p, cu_off c + String.length p + String.length q)); (1, (cu_off c, cu_off c + String.length p))]%nat.
Proof.
  intros H. pose proof (one_line_accepts _ _ _ _ _ H eq_refl) as (w & Hw & Hd). unfold defRE in H. cbn [cats] in H.
  next_piece H c0 g0. inversion Hm as [| | | | | | | |? ? Hl| | | |]; subst.
  next_piece H c1 g1. apply inv_group in Hm0 as (k & (d & k1 & [-> H1]%inv_lit & (-> & p & _ & H2)%inv_star)%inv_cat & ->).
  next_piece H c2 g2. apply inv_group in Hm0 as (k & Ha & ->). pose proof (attach_no_groups _ _ _ _ Ha) as ->.
  destruct (accepts_between _ _ _ _ _ Ha) as [q Hq]. pose proof (attach_led _ _ _ _ _ Ha Hq) as Hled.
  next_piece H c3 g3. apply inv_lit in Hm0 as [-> H4]. inversion H as [| | | | | | | | |? ? He| | |]; subst.
  pose proof (between_app _ _ _ _ _ H1 H2) as Hp. pose proof (between_app _ _ _ _ _ Hp (between_app _ _ _ _ _ Hq H4)) as Hall.
  split_and!; [done.. |]. exists ("define " +:+ p), q.
  rewrite string_app_assoc in Hall. pose proof (between_unique _ _ _ _ Hall Hw) as E. rewrite <-E in Hd. split_and!; try done.
  by rewrite (proj1 (between_len _ _ _ Hq)), (proj1 (between_len _ _ _ Hp)).
Qed.

Lemma def_whole_line : whole_line defRE.
Proof.
  intros c g c' g' H. pose proof (one_line_accepts _ _ _ _ _ H eq_refl) as (w & Hw & Hd). unfold defRE in H. cbn [cats] in H.
  next_piece H c0 g0. inversion Hm as [| | | | | | | |? ? Hl| | | |]; subst. next_piece H c1 g1. next_piece H c2 g2. next_piece H c3 g3.
  apply inv_lit in Hm2 as [_ [L _]%between_len]. inversion H as [| | | | | | | | |? ? He| | |]; subst. split_and!; [done.. |]. exists w. split_and!; [done.. |].
  intros ->. apply between_len in Hw as [L0 _]. apply accepts_off in Hm0, Hm1. cbn in *. lia.
Qed.

(** ** One line *)

Lemma find_whole s : all_in re_dot s = true -> line_match defRE s = true -> exists m, find defRE s = Some m /\
  exists c', accepts defRE (start_of s) [] c' (rm_groups m) /\ c' = after s (start_of s).
Proof.
  intros Hs Hm. unfold line_match in Hm. destruct (match_at defRE (start_of s)) as [m|] eqn:Em; [|done]. exists m. split.
  - unfold find. unfold start_of in Em. destruct s; cbn [find_from]; by rewrite Em.
  - apply match_at_Some in Em as (c' & H & _). exists c'. split; [done|].
    eapply (line_accepts defRE def_whole_line (start_of s) s ""); [by rewrite string_app_nil | done | done | exact H].
Qed.

(** The new text of a definition without the attribute. *)
Lemma fix_define_shape s : all_in re_dot s = true -> line_match defRE s = true -> contains no_realign s = false ->
  exists p q, s = p +:+ q +:+ " {" /\ p <> "" /\ space_led q /\ fix_define s = p +:+ " " +:+ no_realign +:+ q +:+ " {".
Proof.
  intros Hs Hm Hc. destruct (find_whole s Hs Hm) as (m & Ef & c' & H & ->). apply def_inv in H as (_ & _ & p & q & Hb & _ & Hp & Hq & Hg).
  assert (between s (start_of s) (after s (start_of s))) as Hs0 by (exists ""; split; [by rewrite string_app_nil | done]).
  pose proof (between_unique _ _ _ _ Hb Hs0) as E. cbn [start_of cu_off] in Hg. exists p, q. split_and!; [done..|].
  unfold fix_define. rewrite Hc, Ef. unfold group_text, group_span. rewrite Hg. simpl list_find. cbn [fst snd].
  f_equal; [apply (span_at s "" p (q +:+ " {")); done|]. do 2 f_equal. f_equal. by apply (span_at s p q " {").
Qed.

(** The second search of the source always finds the line again. *)
Lemma defRE_again s : all_in re_dot s = true -> line_match defRE s = true -> is_Some (find defRE s).
Proof. intros Hs Hm. destruct (find_whole s Hs Hm) as (m & -> & _). by eexists. Qed.

Lemma fix_define_attr s : all_in re_dot s = true -> line_match defRE s = true -> contains no_realign (fix_define s) = true.
Proof.
  intros Hs Hm. destruct (contains no_realign s) eqn:Hc; [unfold fix_define; by rewrite !Hc|].
  destruct (fix_define_shape s Hs Hm Hc) as (p & q & _ & _ & _ & ->). apply contains_iff. exists (p +:+ " "), (q +:+ " {"). by rewrite string_app_assoc.
Qed.

Lemma fix_define_line s : all_in re_dot s = true -> line_match defRE s = true -> all_in re_dot (fix_define s) = true.
Proof.
  intros Hs Hm. destruct (contains no_realign s) eqn:Hc; [unfold fix_define; by rewrite Hc|].
  destruct (fix_define_shape s Hs Hm Hc) as (p & q & -> & _ & _ & ->). rewrite !all_in_app in *.
  apply andb_true_iff in Hs as [-> [-> ->]%andb_true_iff]. done.
Qed.

(** A text without spaces that the line held is still there. *)
Lemma fix_define_keeps sub s : lacks " "%char sub = true -> all_in re_dot s = true -> line_match defRE s = true ->
  contains sub s = true -> contains sub (fix_define s) = true.
Proof.
  intros Hsub Hs Hm H. destruct (contains no_realign s) eqn:Hc; [unfold fix_define; by rewrite Hc|].
  destruct (fix_define_shape s Hs Hm Hc) as (p & q & -> & _ & Hq & ->).
  assert (exists r, q +:+ " {" = String " "%char r) as [r Er].
  { destruct Hq as [->|[q' ->]]; [by exists "{" | by exists (q' +:+ " {")]. }
  rewrite Er in *. destruct (contains_around _ _ _ _ Hsub H) as [Hp|Hr].
  - apply (contains_app sub "" p). exact Hp.
  - apply contains_iff in Hr as (x & y & ->). apply contains_iff. exists (p +:+ " " +:+ no_realign +:+ String " "%char x), y.
    rewrite !string_app_assoc. done.
Qed.

(** ** All lines *)

Definition fix_line : string -> string := new_line defRE fix_define.

Lemma mark_lines ll : mark_defines ll = unlines (fix_line <$> split_on newline ll).
Proof. exact (replace_all_lines defRE eq_refl def_whole_line fix_define ll). Qed.

Lemma split_lines s : Forall (fun l => all_in re_dot l = true) (split_on newline s).
Proof.
  remember (String.length s) as n eqn:Hn. revert s Hn. induction n as [n IH] using lt_wf_ind. intros s ->.
  destruct (split_line s) as (l & t & Hl & Es & [[-> ->]|(s' & -> & ->)]); [by apply Forall_singleton|]. constructor; [done|].
  apply (IH (String.length s')); [|done]. rewrite Es, string_length_app. cbn [String.length]. lia.
Qed.

Lemma split_app l s : all_in re_dot l = true -> split_on newline (l +:+ String newline s) = l :: split_on newline s.
Proof.
  induction l as [|c l IH]; intros H; [done|]. cbn [all_in] in H. apply andb_true_iff in H as [Hc Hl].
  change (String c l +:+ ?x) with (String c (l +:+ x)). cbn [split_on]. rewrite (IH Hl). unfold re_dot, char_is in Hc.
  by destruct (Ascii.eqb c newline).
Qed.

Lemma split_line_self l : all_in re_dot l = true -> split_on newline l = [l].
Proof.
  induction l as [|c l IH]; intros H; [done|]. cbn [all_in] in H. apply andb_true_iff in H as [Hc Hl]. cbn [split_on]. rewrite (IH Hl).
  unfold re_dot, char_is in Hc. by destruct (Ascii.eqb c newline).
Qed.

Lemma split_unlines ls : ls <> [] -> Forall (fun l => all_in re_dot l = true) ls -> split_on newline (unlines ls) = ls.
Proof.
  intros Hne H. induction H as [|l ls Hl Hls IH]; [done|]. destruct ls as [|l2 ls]; [by apply split_line_self|].
  rewrite unlines_cons by done. rewrite split_app by done. by rewrite IH.
Qed.

Lemma fix_line_dot l : all_in re_dot l = true -> all_in re_dot (fix_line l) = true.
Proof. intros H. unfold fix_line, new_line. destruct (line_match defRE l) eqn:E; [by apply fix_define_line | done]. Qed.

Lemma lines_marked ll : split_on newline (mark_defines ll) = fix_line <$> split_on newline ll.
Proof.
  rewrite mark_lines. apply split_unlines.
  - intros H%fmap_nil_inv. by apply split_nonempty in H.
  - apply Forall_fmap. eapply Forall_impl; [apply split_lines|]. intros l. apply fix_line_dot.
Qed.

Lemma fix_line_attr l : all_in re_dot l = true -> line_match defRE (fix_line l) = true -> contains no_realign (fix_line l) = true.
Proof.
  intros Hl. unfold fix_line, new_line. destruct (line_match defRE l) eqn:E; [by intros _; apply fix_define_attr|]. by rewrite E.
Qed.

Lemma fix_line_twice l : all_in re_dot l = true -> fix_line (fix_line l) = fix_line l.
Proof.
  intros Hl. unfold fix_line at 1, new_line. destruct (line_match defRE (fix_line l)) eqn:E; [|done].
  pose proof (fix_line_attr l Hl E) as Ha. unfold fix_define. by rewrite Ha.
Qed.

Lemma mark_twice ll : mark_defines (mark_defines ll) = mark_defines ll.
Proof.
  rewrite mark_lines at 1. rewrite lines_marked, mark_lines. f_equal. rewrite <-list_fmap_compose. apply list_fmap_ext.
  intros i l Hl. apply fix_line_twice. eapply (Forall_lookup_1 _ _ _ _ (split_lines ll)). exact Hl.
Qed.

(** ** FixIR *)

Lemma unlines_contains sub l ls : l ∈ ls -> contains sub l = true -> contains sub (unlines ls) = true.
Proof.
  induction ls as [|x ls IH]; intros Hl Hc; [by apply not_elem_of_nil in Hl|]. apply elem_of_cons in Hl as [->|Hl].
  - destruct ls as [|y ls]; [done|]. rewrite unlines_cons by done. by apply (contains_app sub "" x).
  - destruct ls as [|y ls]; [by apply not_elem_of_nil in Hl|]. rewrite unlines_cons by done.
    pose proof (contains_app sub (x +:+ String newline "") _ "" (IH Hl Hc)) as H. by rewrite string_app_nil, string_app_assoc in H.
Qed.

(** A text on one line is on one of the lines. *)
Lemma contains_line sub s : lacks newline sub = true -> contains sub s = true -> exists l, l ∈ split_on newline s /\ contains sub l = true.
Proof.
  remember (String.length s) as n eqn:Hn. revert s Hn. induction n as [n IH] using lt_wf_ind. intros s -> Hsub Hc.
  destruct (split_line s) as (l & t & _ & Es & [[-> ->]|(s' & -> & ->)]).
  - exists l. split; [by apply list_elem_of_singleton|]. by rewrite Es, string_app_nil in Hc.
  - rewrite Es in Hc. destruct (contains_around _ _ _ _ Hsub Hc) as [H|H]; [exists l; by split; [left|]|].
    destruct (IH (String.length s')) with (s := s') as (l' & Hl' & Hc'); [|done..|].
    + rewrite Es, string_length_app. cbn [String.length]. lia.
    + exists l'. by split; [right|].
Qed.

Lemma fix_line_keeps sub l : lacks " "%char sub = true -> all_in re_dot l = true -> contains sub l = true -> contains sub (fix_line l) = true.
Proof. intros Hsub Hl Hc. unfold fix_line, new_line. destruct (line_match defRE l) eqn:E; [by apply fix_define_keeps | done]. Qed.

Lemma mark_keeps sub ll : lacks newline sub = true -> lacks " "%char sub = true -> contains sub ll = true -> contains sub (mark_defines ll) = true.
Proof.
  intros Hn Hs Hc. destruct (contains_line sub ll Hn Hc) as (l & Hl & Hcl). rewrite mark_lines. apply (unlines_contains _ (fix_line l)).
  - by apply list_elem_of_fmap_2.
  - apply fix_line_keeps; [done | | done]. by apply (proj1 (Forall_forall _ _) (split_lines ll)).
Qed.

Definition stamped (arch ll : string) : bool := String.eqb arch "arm64" || contains "override-stack-alignment" ll.

Lemma add_alignment_stamps ll : contains "override-stack-alignment" (add_alignment ll) = true.
Proof.
  unfold add_alignment, quoted_text. set (t := if contains _ _ then _ else _). set (md := "!" +:+ dec (fresh_id ll)).
  apply contains_iff. exists (t +:+ nl +:+ md +:+ " = !{i32 1, !" +:+ String quote_char ""), (String quote_char "" +:+ ", i32 8}" +:+ nl).
  rewrite !string_app_assoc. done.
Qed.

(** The module before its definitions are marked. *)
Definition with_alignment (arch ll : string) : string :=
  let arch := if String.eqb arch "" then "amd64" else arch in
  if negb (String.eqb arch "arm64") && negb (contains "override-stack-alignment" ll) then add_alignment ll else ll.

Lemma with_alignment_id arch ll : stamped arch ll = true -> with_alignment arch ll = ll.
Proof.
  unfold stamped, with_alignment. intros [->%String.eqb_eq| ->]%orb_true_iff; [done|]. by rewrite andb_false_r.
Qed.

Lemma with_alignment_stamped arch ll : stamped arch (with_alignment arch ll) = true.
Proof.
  unfold stamped, with_alignment. destruct (String.eqb_spec arch "arm64") as [->|Ha]; [done|]. cbn [orb].
  assert (String.eqb (if String.eqb arch "" then "amd64" else arch) "arm64" = false) as ->.
  { destruct (String.eqb_spec arch ""); [done|]. by apply String.eqb_neq. }
  cbn [negb andb]. destruct (contains "override-stack-alignment" ll) eqn:E; [done|]. apply add_alignment_stamps.
Qed.

(** [FixIR] marks a module line by line: every line of the result comes from one
    line of the module with its alignment metadata, a line changes only when it is a
    definition without the attribute, every definition of the result carries the
    attribute, the module of an architecture other than arm64 names the stack alignment,
    and a second run changes nothing. *)
Theorem FixIR_marks ll arch :
  split_on newline (FixIR ll arch) = fix_line <$> split_on newline (with_alignment arch ll) /\
  (forall l, l ∈ split_on newline (with_alignment arch ll) -> fix_line l <> l -> line_match defRE l = true /\ contains no_realign l = false /\
     exists p q, l = p +:+ q +:+ " {" /\ p <> "" /\ space_led q /\ fix_line l = p +:+ " " +:+ no_realign +:+ q +:+ " {") /\
  (forall l, l ∈ split_on newline (FixIR ll arch) -> line_match defRE l = true -> contains no_realign l = true) /\
  (arch <> "arm64" -> contains "override-stack-alignment" (FixIR ll arch) = true) /\
  FixIR (FixIR ll arch) arch = FixIR ll arch.
Proof.
  change (FixIR ll arch) with (mark_defines (with_alignment arch ll)). set (t := with_alignment arch ll).
  pose proof (proj1 (Forall_forall _ _) (split_lines t)) as Hdot. pose proof (with_alignment_stamped arch ll) as Hst. fold t in Hst.
  assert (stamped arch (mark_defines t) = true) as Hst2.
  { unfold stamped in *. destruct (String.eqb arch "arm64"); [done|]. cbn [orb] in *. by apply mark_keeps. }
  split_and!.
  - apply lines_marked.
  - intros l Hl. unfold fix_line, new_line. destruct (line_match defRE l) eqn:E; [|done]. intros Hne. split; [done|].
    destruct (contains no_realign l) eqn:Ec; [unfold fix_define in Hne; by rewrite Ec in Hne|]. split; [done|]. apply fix_define_shape; auto.
  - intros l. rewrite lines_marked. intros (l0 & -> & Hl0)%list_elem_of_fmap. apply fix_line_attr. auto.
  - intros Ha. unfold stamped in Hst2. by rewrite (proj2 (String.eqb_neq _ _) Ha) in Hst2.
  - change (FixIR ?x arch) with (mark_defines (with_alignment arch x)). rewrite with_alignment_id by done. apply mark_twice.
Qed.

Example FixIR_marks_witness : contains "override-stack-alignment" (FixIR ("define void @f() {" +:+ nl +:+ "}") "amd64") = true /\
  (forall l, l ∈ split_on newline (FixIR ("define void @f() {" +:+ nl +:+ "}") "amd64") -> line_match defRE l = true -> contains no_realign l = true).
Proof.
  destruct (FixIR_marks ("define void @f() {" +:+ nl +:+ "}") "amd64") as (_ & _ & H & Ha & _). split; [by apply Ha | exact H].
Defined.

(** ** The metadata id *)

(** The text holds a definition of the metadata id with the digits [d], after [a]. *)
Definition md_at (ll a d b : string) : Prop :=
  ll = a +:+ "!" +:+ d +:+ " = " +:+ b /\ (a = "" \/ exists a', a = a' +:+ String newline "") /\ all_in re_digit d = true /\ d <> "".
Definition defines_md (ll d : string) : Prop := exists a b, md_at ll a d b.

Lemma md_one_line c g c' g' : accepts mdRE c g c' g' -> exists d, line_start c = true /\ all_in re_digit d = true /\ d <> "" /\
  between ("!" +:+ d +:+ " = ") c c' /\ g' = (1%nat, (S (cu_off c), S (cu_off c + String.length d))) :: g.
Proof.
  intros H. unfold mdRE in H. cbn [cats] in H. next_piece H c0 g0. inversion Hm as [| | | | | | | |? ? Hl| | | |]; subst.
  next_piece H c1 g1. apply inv_lit in Hm0 as [-> H1]. next_piece H c2 g2. apply inv_group in Hm0 as (k & Hd & ->).
  apply many1_inv in Hd as (-> & d & Hd & Hne & H2). apply inv_lit in H as [-> H3]. exists d. split_and!; [done..| |].
  - exact (between_app _ _ _ _ _ H1 (between_app _ _ _ _ _ H2 H3)).
  - rewrite (proj1 (between_len _ _ _ H2)), (proj1 (between_len _ _ _ H1)).
    by replace (cu_off c0 + String.length "!")%nat with (S (cu_off c0)) by (cbn; lia).
Qed.

Lemma md_consumes : consumes mdRE.
Proof. intros c g c' g' (d & _ & _ & _ & [-> _]%between_len & _)%md_one_line. change (String.length ("!" +:+ ?x)) with (S (String.length x)). lia. Qed.

(** A place of a text, by the text before it. *)
Lemma line_start_at a ll : line_start (after a (start_of ll)) = true <-> a = "" \/ exists a', a = a' +:+ String newline "".
Proof.
  split.
  - destruct (snoc_case a) as [->|(a' & c & ->)]; [by left|]. rewrite after_app. intros H. right. exists a'.
    cbn [after] in H. unfold line_start in H. cbn [cu_before nl_or_end] in H. unfold char_is in H. by apply Ascii.eqb_eq in H as ->.
  - intros [->|[a' ->]]; [done|]. by rewrite after_app.
Qed.

Lemma digits_dot d : all_in re_digit d = true -> all_in re_dot d = true.
Proof.
  induction d as [|c d IH]; [done|]. cbn [all_in]. intros [Hc Hd]%andb_true_iff. rewrite (IH Hd), andb_true_r. unfold re_dot, char_is.
  destruct (Ascii.eqb_spec c newline) as [->|]; [by vm_compute in Hc | done].
Qed.

(** A place of a text inside another piece of it. *)
Lemma before_place a : forall a2 w2 t b2, a +:+ t = a2 +:+ w2 +:+ b2 ->
  (String.length a2 <= String.length a < String.length a2 + String.length w2)%nat ->
  exists w v, w2 = w +:+ v /\ a = a2 +:+ w /\ t = v +:+ b2 /\ v <> "".
Proof.
  induction a as [|x a IH]; intros a2 w2 t b2 E Hl.
  - destruct a2; [|cbn in Hl; lia]. exists "", w2. split_and!; [done.. |]. intros ->. cbn in Hl. lia.
  - change (String x (a +:+ t) = a2 +:+ w2 +:+ b2) in E. destruct a2 as [|y a2].
    + destruct w2 as [|y w2]; [cbn in Hl; lia|]. change (String x (a +:+ t) = String y (w2 +:+ b2)) in E. injection E as -> E.
      destruct (IH "" w2 t b2 E) as (w & v & -> & -> & Ht & Hv); [cbn in *; lia|]. by exists (String y w), v.
    + change (String x (a +:+ t) = String y (a2 +:+ w2 +:+ b2)) in E. injection E as -> E.
      destruct (IH a2 w2 t b2 E) as (w & v & -> & -> & Ht & Hv); [cbn in *; lia|]. by exists w, v.
Qed.

Lemma md_at_matches ll a d b : md_at ll a d b -> between a (start_of ll) (after a (start_of ll)) /\ matches_at mdRE (after a (start_of ll)).
Proof.
  intros (-> & Ha & Hd & Hne). set (ll := a +:+ "!" +:+ d +:+ " = " +:+ b). set (c := after a (start_of ll)).
  assert (cu_rest c = "!" +:+ d +:+ " = " +:+ b) as Hc by (by apply (after_rest a (start_of ll))).
  split; [by exists ("!" +:+ d +:+ " = " +:+ b)|]. destruct d as [|x d]; [done|]. cbn [all_in] in Hd. apply andb_true_iff in Hd as [Hx Hd].
  assert (cu_rest (after "!" c) = String x (d +:+ " = " +:+ b)) as H1 by (by apply (after_rest "!" c)).
  assert (cu_rest (after (String x "") (after "!" c)) = d +:+ " = " +:+ b) as H2 by (by apply (after_rest (String x "") (after "!" c))).
  assert (cu_rest (after d (after (String x "") (after "!" c))) = " = " +:+ b) as H3 by (by apply (after_rest d (after (String x "") (after "!" c)))).
  do 2 eexists. unfold mdRE. cbn [cats]. econstructor; [constructor; by apply line_start_at|]. econstructor; [eapply make_lit; exact Hc|].
  econstructor; [constructor; econstructor; [eapply make_class; [exact Hx | exact H1] | eapply make_star; [exact Hd | exact H2]]|].
  eapply make_lit. exact H3.
Qed.

(** Digits before a space are the whole number. *)
Lemma digits_unique d : forall d' s s', d +:+ " " +:+ s = d' +:+ " " +:+ s' -> all_in re_digit d = true -> all_in re_digit d' = true -> d = d'.
Proof.
  induction d as [|x d IH]; intros [|x' d'] s s' E Hd Hd'; [done | | |].
  - injection E as <- _. by vm_compute in Hd'.
  - injection E as -> _. by vm_compute in Hd.
  - change (String x (d +:+ " " +:+ s) = String x' (d' +:+ " " +:+ s')) in E. injection E as -> E. cbn [all_in] in Hd, Hd'.
    apply andb_true_iff in Hd as [_ Hd], Hd' as [_ Hd']. f_equal. by eapply IH.
Qed.

(** The matches of the scan are the definitions, and none is passed over. *)
Lemma md_matches ll m : m ∈ find_all mdRE ll -> defines_md ll (group_text ll m 1) /\ exists a d b, md_at ll a d b /\
  rm_start m = String.length a /\ rm_end m = (String.length a + String.length ("!" +:+ d +:+ " = "))%nat /\ group_text ll m 1 = d.
Proof.
  intros (a & c & c' & Ha & Hacc & Hs & He)%find_all_sound. pose proof (md_one_line _ _ _ _ Hacc) as (d & Hl & Hd & Hne & Hb & Hg).
  destruct (rest_of _ _ _ Ha) as [E La]. destruct Hb as (b & Eb & ->). rewrite Eb, !string_app_assoc in E.
  assert (md_at ll a d b) as Hat.
  { split_and!; [done | | done..]. apply (line_start_at a ll). by destruct Ha as (? & _ & <-). }
  assert (group_text ll m 1 = d) as Eg.
  { unfold group_text, group_span. rewrite Hg. simpl list_find. cbn [fst snd].
    apply (span_at ll (a +:+ "!") d (" = " +:+ b)); [by rewrite E, !string_app_assoc | rewrite string_length_app; cbn; lia | lia]. }
  rewrite Eg. split; [by exists a, b|]. exists a, d, b. split_and!; [done | lia | | done].
  rewrite He. rewrite <-La. apply (after_rest _ c b). by rewrite Eb, !string_app_assoc.
Qed.

Lemma md_covered ll d : defines_md ll d -> exists m, m ∈ find_all mdRE ll /\ group_text ll m 1 = d.
Proof.
  intros (a & b & Hat). destruct (md_at_matches _ _ _ _ Hat) as [Ha Hm].
  destruct (find_all_covers mdRE ll a _ md_consumes Ha Hm) as (m & Hin & Hspan). exists m. split; [done|].
  destruct (rest_of _ _ _ Ha) as [_ La]. rewrite La in Hspan. destruct (md_matches ll m Hin) as (_ & a2 & d2 & b2 & Hat2 & Hs & He & Eg).
  rewrite Eg. destruct Hat as (E & Hla & Hd & Hne), Hat2 as (E2 & Hla2 & Hd2 & Hne2). rewrite Hs, He in Hspan.
  assert (String.length a = String.length a2) as Hlen.
  { destruct (Nat.eq_dec (String.length a) (String.length a2)) as [|Hn]; [done|exfalso].
    destruct (before_place a a2 ("!" +:+ d2 +:+ " = ") ("!" +:+ d +:+ " = " +:+ b) b2) as (w & v & Ew & Ea & Hw & Hv);
      [by rewrite <-E, E2, !string_app_assoc | lia |].
    assert (all_in re_dot w = true) as Hdot.
    { assert (all_in re_dot ("!" +:+ d2 +:+ " = ") = true) as H by (rewrite !all_in_app, (digits_dot _ Hd2); done).
      rewrite Ew, all_in_app in H. by apply andb_true_iff in H as [? _]. }
    assert (w <> "") as Hne3 by (intros ->; rewrite Ea, string_app_nil in Hn; done).
    pose proof (inside_line w Hdot Hne3 (after a2 (start_of ll))) as Hin2. rewrite <-after_app, <-Ea in Hin2.
    rewrite (proj2 (line_start_at a ll) Hla) in Hin2. done. }
  rewrite E in E2. pose proof (app_same_length _ _ _ _ E2 Hlen) as <-. apply string_app_inj in E2. injection E2 as E2.
  symmetry. eapply digits_unique; [exact E2 | done | done].
Qed.

Definition id_step (ll : string) (id : Z) (m : rmatch) : Z := let n := Atoi (group_text ll m 1) in if id <=? n then s64 (n + 1) else id.

Lemma fresh_above ll ms : forall id, 0 <= id < 2 ^ 63 -> Forall (fun m => 0 <= Atoi (group_text ll m 1) < 2 ^ 63 - 1) ms ->
  id <= foldl (id_step ll) id ms < 2 ^ 63 /\ Forall (fun m => Atoi (group_text ll m 1) < foldl (id_step ll) id ms) ms.
Proof.
  induction ms as [|m ms IH]; intros id Hid Hms; [split; [cbn; lia | done]|]. apply Forall_cons in Hms as [Hm Hms]. cbn [foldl].
  assert (id <= id_step ll id m < 2 ^ 63 /\ Atoi (group_text ll m 1) < id_step ll id m) as [Hs Hlt].
  { unfold id_step. destruct (Z.leb_spec id (Atoi (group_text ll m 1))); [rewrite s64_small by (unfold is_s64; lia)|]; lia. }
  destruct (IH (id_step ll id m)) as [Hr Ha]; [lia | done|]. split; [lia|]. constructor; [lia | done].
Qed.

Lemma digits_value_nonneg d : forall n, 0 <= n -> all_in re_digit d = true -> 0 <= digits_value n d.
Proof.
  induction d as [|c d IH]; intros n Hn; [done|]. cbn [all_in digits_value]. intros [Hc Hd]%andb_true_iff. apply IH; [|done].
  unfold re_digit, code_in in Hc. apply andb_true_iff in Hc as [Hc%Z.leb_le _]. lia.
Qed.

Lemma add_alignment_text ll : exists t, add_alignment ll = t +:+ nl +:+ "!" +:+ dec (fresh_id ll) +:+ " = !{i32 1, !" +:+
  quoted_text "override-stack-alignment" +:+ ", i32 8}" +:+ nl /\ contains (flags_open +:+ "!" +:+ dec (fresh_id ll)) t = true.
Proof.
  unfold add_alignment. set (md := "!" +:+ dec (fresh_id ll)).
  set (t := if contains flags_open ll then _ else _). exists t. split.
  { set (rest := " = !{i32 1, !" +:+ _). unfold md. by rewrite (string_app_assoc "!"). }
  change (contains (flags_open +:+ md) t = true). subst t. clearbody md.
  destruct (contains flags_open ll) eqn:E.
  - apply contains_iff in E as (a & b & ->). apply contains_iff. induction a as [|c a (x & y & IH)].
    + exists "", (", " +:+ b). change ("" +:+ flags_open +:+ b) with (flags_open +:+ b). unfold flags_open.
      change ("!llvm.module.flags = !{" +:+ b) with (String "!"%char ("llvm.module.flags = !{" +:+ b)). cbn [replace_first].
      change (String "!"%char ("llvm.module.flags = !{" +:+ b)) with ("!llvm.module.flags = !{" +:+ b).
      change (after_prefix "!llvm.module.flags = !{" ("!llvm.module.flags = !{" +:+ b)) with (Some b). by rewrite !string_app_assoc.
    + change (String c a +:+ flags_open +:+ b) with (String c (a +:+ flags_open +:+ b)). cbn [replace_first].
      destruct (after_prefix flags_open (String c (a +:+ flags_open +:+ b))) as [rest|]; [exists "", (", " +:+ rest); by rewrite !string_app_assoc|].
      exists (String c x), y. by rewrite IH.
  - apply contains_iff. exists (ll +:+ nl), ("}" +:+ nl). by rewrite !string_app_assoc.
Qed.

(** The alignment metadata gets an id of its own: when the ids of the module are
    below the largest [int], the new id is at least 9000, no line of the module defines
    it, the new module defines it with the alignment of 8, and its module flags name
    it. *)
Theorem fresh_id_new ll : (forall d, defines_md ll d -> digits_value 0 d < 2 ^ 63 - 1) ->
  9000 <= fresh_id ll < 2 ^ 63 /\ ~ defines_md ll (dec (fresh_id ll)) /\
  (exists a, md_at (add_alignment ll) a (dec (fresh_id ll)) ("!{i32 1, !" +:+ quoted_text "override-stack-alignment" +:+ ", i32 8}" +:+ nl)) /\
  contains (flags_open +:+ "!" +:+ dec (fresh_id ll)) (add_alignment ll) = true.
Proof.
  intros Hsmall. assert (Forall (fun m => 0 <= Atoi (group_text ll m 1) < 2 ^ 63 - 1) (find_all mdRE ll)) as Hms.
  { apply Forall_forall. intros m [Hd Hat]%md_matches. destruct Hat as (a & d & b & (_ & _ & Hdig & _) & _ & _ & <-).
    specialize (Hsmall _ Hd). unfold Atoi. pose proof (digits_value_nonneg _ 0 ltac:(done) Hdig). lia. }
  destruct (fresh_above ll _ 9000 ltac:(lia) Hms) as [Hr Hlt]. change (foldl (id_step ll) 9000 (find_all mdRE ll)) with (fresh_id ll) in *.
  destruct (dec_digits (fresh_id ll)) as (Hdig & Hne & Hv); [lia|]. destruct (add_alignment_text ll) as (t & Et & Hc). split_and!; try lia.
  - intros (m & Hin & Eg)%md_covered. apply (proj1 (Forall_forall _ _) Hlt) in Hin. unfold Atoi in Hin. rewrite Eg, Hv in Hin. lia.
  - exists (t +:+ nl). rewrite Et. split_and!; [by rewrite !string_app_assoc | right; by exists t | done..].
  - rewrite Et. by apply (contains_app _ "" t).
Qed.

Definition demo_module : string := "define i32 @f() {" +:+ nl +:+ "}" +:+ nl +:+ "!9001 = !{}" +:+ nl.

Example fresh_id_new_witness : fresh_id demo_module = 9002 /\ ~ defines_md demo_module "9002".
Proof.
  split; [by vm_compute|]. destruct (fresh_id_new demo_module) as (_ & H & _); [|by replace (fresh_id demo_module) with 9002 in H by by vm_compute].
  intros d (m & Hm & <-)%md_covered. replace (find_all mdRE demo_module) with [mkMatch 20 28 [(1, (21, 25))]]%nat in Hm by by vm_compute.
  apply list_elem_of_singleton in Hm as ->. by vm_compute.
Defined.

(** An id of the largest [int] wraps: the next id is negative. *)
Example fresh_id_wraps : fresh_id ("!9223372036854775807 = !{}" +:+ nl) = - 2 ^ 63.
Proof. by vm_compute. Qed.
