(* ===== verification/Link.v ===== *)
(** * The Go object under construction

    Models src/internal/goobj/link.go and dwarf.go: the symbols of one object, the
    lookup tables that share them, data and TEXT declarations and the DWARF
    fragments of each function.  Symbols are shared pointers in the source; here a
    pointer is an index [sid] into the store [l_syms], which only grows.  The facts
    of a Go release (package gometa) and the settings of a [Link] that never change
    after it is made are the record [lconf].  The numbering fields of a symbol
    (pkgIdx, symIdx) belong to write.go: they are the map [w_num] of ObjWrite.v. *)

From Stdlib Require Import ZArith Lia Ascii.
From stdpp Require Import base list strings gmap.
From S2P Require Import Prelude Text Codec.

(** A pointer to a symbol. *)
Abbreviation sid := nat.

Record LReloc := mkLReloc { lr_Off : Z; lr_Siz : Z; lr_Type : string; lr_Add : Z; lr_Sym : sid }.

Record LInlNode := mkLInl { li_Parent : Z; li_File : Z; li_Line : Z; li_Func : sid; li_ParentPC : Z }.

(** [fi_funcdata] holds the FUNCDATA instructions before Flush; a value may be a nil
    symbol. *)
Record FuncInfo := mkFI {
  fi_Args : Z; fi_Locals : Z; fi_FuncID : Z; fi_FuncFlag : Z; fi_StartLine : Z;
  fi_Pcsp : option sid; fi_Pcfile : option sid; fi_Pcline : option sid; fi_Pcinline : option sid;
  fi_Pcdata : list (option sid); fi_Funcdata : list (option sid); fi_UsedFiles : gset Z;
  fi_InlTree : list LInlNode;
  fi_funcdata : gmap Z (option sid); fi_pcdataProg : bool;
  fi_dwarfInfo : option sid; fi_dwarfLines : option sid; fi_dwarfRanges : option sid }.

Record Sym := mkSym {
  s_Name : string; s_ABI : Z; s_Kind : string; s_P : list Z; s_Size : Z; s_R : list LReloc;
  s_Dupok : bool; s_NoSplit : bool; s_Local : bool; s_Static : bool; s_ContentAddressable : bool;
  s_Pcdata : bool; s_Align : Z; s_Func : option FuncInfo; s_onList : bool }.

(** [&Sym{Name: name, ABI: abi}] *)
Definition new_sym (name : string) (abi : Z) : Sym :=
  mkSym name abi "" [] 0 [] false false false false false false 0 None false.

(** [&Sym{Kind: kind}] with contents *)
Definition anon_sym (kind : string) (p : list Z) (r : list LReloc) : Sym :=
  mkSym "" 0 kind p (zlen p) r false false false false false false 0 None false.

(** Assignments to fields of a symbol. *)
Definition set_data (s : Sym) (kind : string) (p : list Z) (size : Z) : Sym :=
  mkSym (s_Name s) (s_ABI s) kind p size (s_R s) (s_Dupok s) (s_NoSplit s) (s_Local s) (s_Static s)
    (s_ContentAddressable s) (s_Pcdata s) (s_Align s) (s_Func s) (s_onList s).

Definition set_R (s : Sym) (r : list LReloc) : Sym :=
  mkSym (s_Name s) (s_ABI s) (s_Kind s) (s_P s) (s_Size s) r (s_Dupok s) (s_NoSplit s) (s_Local s) (s_Static s)
    (s_ContentAddressable s) (s_Pcdata s) (s_Align s) (s_Func s) (s_onList s).

Definition set_Func (s : Sym) (f : FuncInfo) : Sym :=
  mkSym (s_Name s) (s_ABI s) (s_Kind s) (s_P s) (s_Size s) (s_R s) (s_Dupok s) (s_NoSplit s) (s_Local s) (s_Static s)
    (s_ContentAddressable s) (s_Pcdata s) (s_Align s) (Some f) (s_onList s).

Record lconf := mkConf {
  lc_Pkgpath : string; lc_DwTextCount : Z; lc_Dwarf5 : bool; lc_PtrSize : Z;
  lc_FuncIDs : gmap string Z; lc_RuntimeFuncIDs : gmap string Z; lc_FuncFlags : gmap string Z;
  lc_Funcdata : gmap string Z; lc_AsmArgsStackmap : bool; lc_TrimInlineHash : bool;
  lc_AbbrevFunction : Z; lc_FuncDIE : string; lc_TextAddrx : list (Z * string * Z) }.

Record Link := mkLink {
  l_syms : list Sym; l_hash : gmap string sid; l_funchash : gmap string sid;
  l_Text : list sid; l_Data : list sid; l_files : list string; l_fileIdx : gmap string nat;
  l_flushed : bool }.

(** [m[k]]: the zero value when absent. *)
Definition at_ (m : gmap string Z) (k : string) : Z := default 0 (m !! k).

(** [go] is the release, [known] whether it has facts for [arch]. *)
Definition NewLink (go arch pkgpath : string) (known : bool) : res string Link :=
  if negb known then Fail ("no " +:+ go +:+ " facts for GOARCH=" +:+ arch)
  else if String.eqb pkgpath "" then Fail "empty package path"
  else Ok (mkLink [] ∅ ∅ [] [] [] ∅ false).

Definition alloc (s : Sym) : st Link sid := fun l =>
  (length (l_syms l), mkLink (l_syms l ++ [s]) (l_hash l) (l_funchash l) (l_Text l) (l_Data l) (l_files l)
                        (l_fileIdx l) (l_flushed l)).

(** A write through the pointer [i]. *)
Definition modify (i : sid) (f : Sym -> Sym) (l : Link) : Link :=
  mkLink (alter f i (l_syms l)) (l_hash l) (l_funchash l) (l_Text l) (l_Data l) (l_files l) (l_fileIdx l) (l_flushed l).

Definition ABI0 : Z := 0.
Definition ABIInternal : Z := 1.

Definition LookupABI (name : string) (abi : Z) : st Link sid := fun l =>
  match (if abi =? ABIInternal then l_funchash l else l_hash l) !! name with
  | Some i => (i, l)
  | None =>
      let '(i, l) := alloc (new_sym name abi) l in
      (i, if abi =? ABIInternal
          then mkLink (l_syms l) (l_hash l) (<[name := i]> (l_funchash l)) (l_Text l) (l_Data l) (l_files l) (l_fileIdx l) (l_flushed l)
          else mkLink (l_syms l) (<[name := i]> (l_hash l)) (l_funchash l) (l_Text l) (l_Data l) (l_files l) (l_fileIdx l) (l_flushed l))
  end.

Definition Lookup (name : string) : st Link sid := LookupABI name ABI0.

Definition AddFile (name : string) : st Link nat := fun l =>
  match l_fileIdx l !! name with
  | Some i => (i, l)
  | None =>
      let i := length (l_files l) in
      (i, mkLink (l_syms l) (l_hash l) (l_funchash l) (l_Text l) (l_Data l) (l_files l ++ [name])
            (<[name := i]> (l_fileIdx l)) (l_flushed l))
  end.

Definition DUPOK : Z := Z.shiftl 1 0.
Definition RODATA : Z := Z.shiftl 1 1.
Definition NOPTR : Z := Z.shiftl 1 2.

(** The new kind of a declared symbol. *)
Definition globl_kind (kind : string) (flag : Z) : string :=
  let kind := if String.eqb kind "" then "SBSS" else kind in
  if negb (Z.land flag RODATA =? 0) then "SRODATA"
  else if negb (Z.land flag NOPTR =? 0) then if String.eqb kind "SDATA" then "SNOPTRDATA" else "SNOPTRBSS"
  else kind.

Definition declare (flag size : Z) (s : Sym) : Sym :=
  mkSym (s_Name s) (s_ABI s) (globl_kind (s_Kind s) flag) (s_P s) size (s_R s)
    (if negb (Z.land flag DUPOK =? 0) then true else s_Dupok s) (s_NoSplit s) (s_Local s) (s_Static s)
    (s_ContentAddressable s) (s_Pcdata s) (s_Align s) (s_Func s) true.

(** A nil or dangling pointer would panic; [Fail "nil"] stands for it. *)
Definition Globl (i : sid) (size flag : Z) (l : Link) : res string Link :=
  match l_syms l !! i with
  | None => Fail "nil"
  | Some s =>
      if s_onList s then Fail ("symbol " +:+ s_Name s +:+ " redeclared")
      else
        let l := modify i (declare flag size) l in
        Ok (mkLink (l_syms l) (l_hash l) (l_funchash l) (l_Text l) (l_Data l ++ [i]) (l_files l) (l_fileIdx l) (l_flushed l))
  end.

(** ** Contents *)

Definition grow (p : list Z) (n : Z) : list Z := p ++ replicate (Z.to_nat (n - zlen p)) 0.

Definition prepwrite (off siz : Z) (s : Sym) : Sym :=
  let kind := if String.eqb (s_Kind s) "" || String.eqb (s_Kind s) "SBSS" then "SDATA"
              else if String.eqb (s_Kind s) "SNOPTRBSS" then "SNOPTRDATA" else s_Kind s in
  let n := off + siz in
  set_data s kind (if zlen (s_P s) <? n then grow (s_P s) n else s_P s) (if s_Size s <? n then n else s_Size s).

(** [copy(p[off:], b)] for [b] that fits *)
Definition put_at (p : list Z) (off : Z) (b : list Z) : list Z :=
  take (Z.to_nat off) p ++ b ++ drop (Z.to_nat off + length b) p.

(** [WriteInt]: [None] for the panic on another size. *)
Definition WriteInt (off siz v : Z) (s : Sym) : option Sym :=
  if (siz =? 1) || (siz =? 2) || (siz =? 4) || (siz =? 8) then
    let s := prepwrite off siz s in
    Some (set_data s (s_Kind s) (put_at (s_P s) off (le_bytes (Z.to_nat siz) v)) (s_Size s))
  else None.

Definition WriteBytes (off : Z) (b : list Z) (s : Sym) : Sym :=
  match b with
  | [] => s
  | _ => let s := prepwrite off (zlen b) s in set_data s (s_Kind s) (put_at (s_P s) off b) (s_Size s)
  end.

Definition AddRel (r : LReloc) (s : Sym) : Sym := set_R s (s_R s ++ [r]).

(** ** TEXT symbols *)

Definition TextNoSplit : Z := Z.shiftl 1 0.
Definition TextDupok : Z := Z.shiftl 1 1.

Fixpoint cut_prefix (p s : string) : option string :=
  match p, s with
  | EmptyString, _ => Some s
  | String a p, String b s => if Ascii.eqb a b then cut_prefix p s else None
  | String _ _, EmptyString => None
  end.

Section Text.
Variable cf : lconf.

Definition funcID (name : string) : Z :=
  match cut_prefix "runtime." name with
  | Some rest =>
      match lc_RuntimeFuncIDs cf !! rest with Some id => id | None => at_ (lc_FuncIDs cf) "Normal" end
  | None => at_ (lc_FuncIDs cf) "Normal"
  end.

Definition new_finfo (name : string) : FuncInfo :=
  mkFI 0 0 (u8 (funcID name)) (u8 (at_ (lc_FuncFlags cf) "Asm")) 1 None None None None [] [] ∅ [] ∅ false None None None.

Definition text_sym (flag : Z) (s : Sym) : Sym :=
  mkSym (s_Name s) (s_ABI s) "STEXT" (s_P s) (s_Size s) (s_R s)
    (negb (Z.land flag TextDupok =? 0)) (negb (Z.land flag TextNoSplit =? 0)) (s_Local s) (s_Static s)
    (s_ContentAddressable s) (s_Pcdata s) (s_Align s) (Some (new_finfo (s_Name s))) true.

Definition InitText (i : sid) (flag : Z) (l : Link) : res string Link :=
  match l_syms l !! i with
  | None => Fail "nil"
  | Some s =>
      if (if s_Func s then true else false) || s_onList s then Fail ("symbol " +:+ s_Name s +:+ " redeclared")
      else
        let l := modify i (text_sym flag) l in
        Ok (mkLink (l_syms l) (l_hash l) (l_funchash l) (l_Text l ++ [i]) (l_Data l) (l_files l) (l_fileIdx l) (l_flushed l))
  end.

Definition with_func (f : FuncInfo -> FuncInfo) (s : Sym) : Sym :=
  match s_Func s with Some fi => set_Func s (f fi) | None => s end.

Definition set_funcdata (fi : FuncInfo) (m : gmap Z (option sid)) : FuncInfo :=
  mkFI (fi_Args fi) (fi_Locals fi) (fi_FuncID fi) (fi_FuncFlag fi) (fi_StartLine fi) (fi_Pcsp fi) (fi_Pcfile fi)
    (fi_Pcline fi) (fi_Pcinline fi) (fi_Pcdata fi) (fi_Funcdata fi) (fi_UsedFiles fi) (fi_InlTree fi) m
    (fi_pcdataProg fi) (fi_dwarfInfo fi) (fi_dwarfLines fi) (fi_dwarfRanges fi).

(** A symbol that is no TEXT symbol has no Func to write to (the source would
    panic); both are called on TEXT symbols only. *)
Definition Funcdata (i : sid) (idx : Z) (sym : sid) : Link -> Link :=
  modify i (with_func (fun fi => set_funcdata fi (<[idx := Some sym]> (fi_funcdata fi)))).

Definition PCDATA (i : sid) : Link -> Link :=
  modify i (with_func (fun fi =>
    mkFI (fi_Args fi) (fi_Locals fi) (fi_FuncID fi) (fi_FuncFlag fi) (fi_StartLine fi) (fi_Pcsp fi) (fi_Pcfile fi)
      (fi_Pcline fi) (fi_Pcinline fi) (fi_Pcdata fi) (fi_Funcdata fi) (fi_UsedFiles fi) (fi_InlTree fi)
      (fi_funcdata fi) true (fi_dwarfInfo fi) (fi_dwarfLines fi) (fi_dwarfRanges fi))).

Definition pcsym (p : list Z) : st Link sid :=
  alloc (mkSym "" 0 "SRODATA" p (zlen p) [] false false false false true true 1 None false).

(** *** DWARF *)

(** The loop of [uleb]; ten turns cover 64 bits. *)
Fixpoint uleb_go (fuel : nat) (v : Z) : list Z :=
  match fuel with
  | O => []
  | S fuel =>
      let c := Z.land v 127 in
      let v := Z.shiftr v 7 in
      if v =? 0 then [c] else Z.lor c 128 :: uleb_go fuel v
  end.

Definition uleb_bytes (v : Z) : list Z := uleb_go 10 v.

(** [strings.Cut(name, "#")] *)
Fixpoint cut_hash (s : string) : option (string * string) :=
  match s with
  | EmptyString => None
  | String c s => if Ascii.eqb c "#"%char then Some ("", s)
                  else match cut_hash s with Some (a, b) => Some (String c a, b) | None => None end
  end.

(** [base64.StdEncoding.EncodedLen(8)] is 12. *)
Definition TrimInlineHash (name : string) : string :=
  match cut_hash name with
  | None => name
  | Some (a, b) =>
      if (String.length b <? 13)%nat then name
      else match String.get 12 b with
           | Some c => if Ascii.eqb c "#"%char then a +:+ String.substring 13 (String.length b - 13) b else name
           | None => name
           end
  end.

(** [None]: the panic when no flavor covers the count. *)
Fixpoint addrxFlavor (fs : list (Z * string * Z)) (maxFuncs : Z) : option (string * Z) :=
  match fs with
  | [] => None
  | (mx, reloc, size) :: fs => if maxFuncs <=? mx then Some (reloc, size) else addrxFlavor fs maxFuncs
  end.

Definition addr_zeros (n : Z) : list Z := replicate (Z.to_nat n) 0.

(** The address part of a function's DIE: bytes and relocations at offset [off]. *)
Definition die_addrs (i : sid) (size off : Z) : option (list Z * list LReloc) :=
  if String.eqb (lc_FuncDIE cf) "v2" && lc_Dwarf5 cf then
    match addrxFlavor (lc_TextAddrx cf) (lc_DwTextCount cf * 2) with
    | None => None
    | Some (typ, sz) => Some (addr_zeros sz ++ uleb_bytes (u64 size), [mkLReloc (s32 off) (u8 sz) typ 0 i])
    end
  else
    Some (addr_zeros (lc_PtrSize cf) ++ addr_zeros (lc_PtrSize cf),
          [mkLReloc (s32 off) (u8 (lc_PtrSize cf)) "R_ADDR" 0 i;
           mkLReloc (s32 (off + lc_PtrSize cf)) (u8 (lc_PtrSize cf)) "R_ADDR" size i]).

Definition dwarf_info (i : sid) (s : Sym) (fi : FuncInfo) : option Sym :=
  let name := if lc_TrimInlineHash cf then TrimInlineHash (s_Name s) else s_Name s in
  let head := uleb_bytes (u64 (lc_AbbrevFunction cf)) ++ bytes_of_string name ++ [0] in
  match die_addrs i (s_Size s) (zlen head) with
  | None => None
  | Some (b, rs) =>
      Some (anon_sym "SDWARFFCN"
        (head ++ b ++ [1; 156] ++ [1; 0; 0; 0] ++
         (if String.eqb (lc_FuncDIE cf) "v0" then [] else uleb_bytes (u64 (fi_StartLine fi))) ++
         [if s_Static s then 0 else 1; 0]) rs)
  end.

Definition dwarf_lines (i : sid) (s : Sym) : Sym :=
  let head := [0] ++ uleb_bytes (u64 (1 + lc_PtrSize cf)) ++ [2] in
  anon_sym "SDWARFLINES" (head ++ addr_zeros (lc_PtrSize cf) ++ [2] ++ uleb_bytes (u64 (s_Size s)) ++ [0; 1; 1])
    [mkLReloc (s32 (zlen head)) (u8 (lc_PtrSize cf)) "R_ADDR" 0 i].

Definition set_dwarf (info lines ranges : sid) (fi : FuncInfo) : FuncInfo :=
  mkFI (fi_Args fi) (fi_Locals fi) (fi_FuncID fi) (fi_FuncFlag fi) (fi_StartLine fi) (fi_Pcsp fi) (fi_Pcfile fi)
    (fi_Pcline fi) (fi_Pcinline fi) (fi_Pcdata fi) (fi_Funcdata fi) (fi_UsedFiles fi) (fi_InlTree fi)
    (fi_funcdata fi) (fi_pcdataProg fi) (Some info) (Some lines) (Some ranges).

(** [dwarf] of the TEXT symbol [i]; [None] for a panic. *)
Definition dwarf (i : sid) (l : Link) : option Link :=
  match l_syms l !! i with
  | None => None
  | Some s =>
      match s_Func s with
      | None => None
      | Some fi =>
          match dwarf_info i s fi with
          | None => None
          | Some info =>
              let '(a, l) := alloc info l in
              let '(b, l) := alloc (dwarf_lines i s) l in
              let '(c, l) := alloc (anon_sym "SDWARFRANGE" [] []) l in
              Some (modify i (with_func (set_dwarf a b c)) l)
          end
      end
  end.

(** *** Flush *)

(** Index of the last slash, -1 without one. *)
Fixpoint last_slash (i last : Z) (s : list Z) : Z :=
  match s with [] => last | c :: s => last_slash (i + 1) (if c =? 47 then i else last) s end.

Fixpoint prefix_go (slash i : Z) (s : list Z) : list Z :=
  match s with
  | [] => []
  | c :: s =>
      (if (c <=? 32) || ((c =? 46) && (slash <? i)) || (c =? 37) || (c =? 34) || (127 <=? c)
       then [37; hex_char (Z.shiftr c 4); hex_char (Z.land c 15)] else [c]) ++ prefix_go slash (i + 1) s
  end.

Definition PathToPrefix (s : string) : string :=
  let b := bytes_of_string s in string_of_bytes (prefix_go (last_slash 0 (-1) b) 0 b).

Definition derived (s : Sym) (name : string) : st Link (option sid) := fun l =>
  if s_Static s then (None, l) else let '(i, l) := Lookup name l in (Some i, l).

(** [if _, ok := fn.funcdata[idx]; !ok { fn.funcdata[idx] = l.derived(s, name) }] *)
Definition add_derived (i : sid) (s : Sym) (idx : Z) (name : string) (l : Link) : Link :=
  match l_syms l !! i with
  | Some s' =>
      match s_Func s' with
      | Some fi =>
          match fi_funcdata fi !! idx with
          | Some _ => l
          | None =>
              let '(d, l) := derived s name l in
              modify i (with_func (fun fi => set_funcdata fi (<[idx := d]> (fi_funcdata fi)))) l
          end
      | None => l
      end
  | None => l
  end.

(** The funcdata slots: as many as the largest index needs. *)
Definition slot_count (m : gmap Z (option sid)) : Z := map_fold (fun i _ n => Z.max (i + 1) n) 0 m.

Definition funcdata_slots (m : gmap Z (option sid)) : list (option sid) :=
  (fun i => default None (m !! Z.of_nat i)) <$> seq 0 (Z.to_nat (slot_count m)).

Definition finish_func (hasProgs : bool) (pci : sid) (fi : FuncInfo) : FuncInfo :=
  mkFI (fi_Args fi) (fi_Locals fi) (fi_FuncID fi) (fi_FuncFlag fi) (fi_StartLine fi) (fi_Pcsp fi) (fi_Pcfile fi)
    (fi_Pcline fi) (Some pci) (fi_Pcdata fi) (funcdata_slots (fi_funcdata fi)) (if hasProgs then {[ 0 ]} else ∅)
    (fi_InlTree fi) (fi_funcdata fi) (fi_pcdataProg fi) (fi_dwarfInfo fi) (fi_dwarfLines fi) (fi_dwarfRanges fi).

Definition flush_text (l : Link) (i : sid) : option Link :=
  match l_syms l !! i with
  | None => None
  | Some s =>
      match s_Func s with
      | None => None
      | Some fn =>
          let hasProgs := negb (bool_decide (fi_funcdata fn = ∅)) || fi_pcdataProg fn in
          let l :=
            if lc_AsmArgsStackmap cf && String.prefix (PathToPrefix (lc_Pkgpath cf) +:+ ".") (s_Name s) &&
               (s_ABI s =? ABI0) && negb (String.eqb (s_Name s) "runtime.addmoduledata")
            then
              let l := add_derived i s (at_ (lc_Funcdata cf) "ArgsPointerMaps") (s_Name s +:+ ".args_stackmap") l in
              add_derived i s (at_ (lc_Funcdata cf) "ArgInfo") (s_Name s +:+ ".arginfo" +:+ dec (s_ABI s)) l
            else l in
          let '(pci, l) := pcsym [0; 0; 0] l in
          dwarf i (modify i (with_func (finish_func hasProgs pci)) l)
      end
  end.

Fixpoint flush_all (l : Link) (ts : list sid) : option Link :=
  match ts with
  | [] => Some l
  | i :: ts => match flush_text l i with Some l => flush_all l ts | None => None end
  end.

(** [Flush]: [Ok None] stands for a panic. *)
Definition Flush (l : Link) : res string (option Link) :=
  if l_flushed l then Fail "Flush called twice"
  else
    let l := mkLink (l_syms l) (l_hash l) (l_funchash l) (l_Text l) (l_Data l) (l_files l) (l_fileIdx l) true in
    Ok (flush_all l (l_Text l)).
End Text.

(** ** Invariant *)

(** Every table entry names a symbol of its name and calling convention; the TEXT
    and data lists hold each declared symbol once; the file table and its index
    agree; no symbol is static, since nothing sets that mark. *)
Record link_ok (l : Link) : Prop := {
  ok_hash : forall name i, l_hash l !! name = Some i ->
    exists s, l_syms l !! i = Some s /\ s_Name s = name /\ s_ABI s = ABI0;
  ok_funchash : forall name i, l_funchash l !! name = Some i ->
    exists s, l_syms l !! i = Some s /\ s_Name s = name /\ s_ABI s = ABIInternal;
  ok_nodup : NoDup (l_Text l ++ l_Data l);
  ok_listed : forall i, i ∈ l_Text l ++ l_Data l -> exists s, l_syms l !! i = Some s /\ s_onList s = true;
  ok_text : forall i, i ∈ l_Text l -> exists s, l_syms l !! i = Some s /\ s_Func s <> None /\ s_Kind s = "STEXT";
  ok_files : forall name i, l_fileIdx l !! name = Some i <-> l_files l !! i = Some name;
  ok_static : forall i s, l_syms l !! i = Some s -> s_Static s = false }.

(** What a write through a pointer may not change. *)
Definition keeps_identity (f : Sym -> Sym) : Prop := forall s,
  s_Name (f s) = s_Name s /\ s_ABI (f s) = s_ABI s /\ (s_onList s = true -> s_onList (f s) = true) /\
  (s_Func s <> None -> s_Func (f s) <> None) /\ (s_Kind s = "STEXT" -> s_Kind (f s) = "STEXT") /\ s_Static (f s) = s_Static s.

Lemma modify_lookup i f l j s : l_syms l !! j = Some s ->
  l_syms (modify i f l) !! j = Some (if decide (i = j) then f s else s).
Proof.
  intros Hj. unfold modify. cbn [l_syms]. destruct (decide (i = j)) as [->|Hne].
  - by rewrite list_lookup_alter_eq, Hj.
  - by rewrite list_lookup_alter_ne.
Qed.

Lemma modify_static i f (l : Link) : (forall s, s_Static (f s) = s_Static s) ->
  (forall j s, l_syms l !! j = Some s -> s_Static s = false) -> forall j s, l_syms (modify i f l) !! j = Some s -> s_Static s = false.
Proof.
  intros Hf H j s. cbn [modify l_syms]. destruct (decide (i = j)) as [->|]; [|rewrite list_lookup_alter_ne by done; apply H].
  rewrite list_lookup_alter_eq. destruct (l_syms l !! j) as [s'|] eqn:E; [|done]. intros [= <-]. rewrite Hf. by eapply H.
Qed.

Lemma modify_ok i f l : keeps_identity f -> link_ok l -> link_ok (modify i f l).
Proof.
  intros Hf [H1 H2 H3 H4 H5 H6 H7]. split; [| |done| | |done|].
  - intros name j (s & Hs & <- & Ha)%H1. eexists. split; [by apply modify_lookup|].
    destruct (decide (i = j)); [|done]. destruct (Hf s) as (-> & -> & _). done.
  - intros name j (s & Hs & <- & Ha)%H2. eexists. split; [by apply modify_lookup|].
    destruct (decide (i = j)); [|done]. destruct (Hf s) as (-> & -> & _). done.
  - intros j (s & Hs & Ho)%H4. eexists. split; [by apply modify_lookup|].
    destruct (decide (i = j)); [|done]. by apply (Hf s).
  - intros j (s & Hs & Ho & Hk)%H5. eexists. split; [by apply modify_lookup|].
    destruct (decide (i = j)); [|done]. by split; apply (Hf s).
  - by apply modify_static; [apply Hf|].
Qed.

Lemma alloc_lookup s l i j s' : alloc s l = (i, j) -> l_syms l !! i = None /\
  (forall k, l_syms l !! k = Some s' -> l_syms j !! k = Some s').
Proof.
  unfold alloc. intros [= <- <-]. split; [by apply lookup_ge_None|]. intros k Hk. cbn [l_syms].
  by apply lookup_app_l_Some.
Qed.

Lemma alloc_ok s l : s_Static s = false -> link_ok l -> link_ok (snd (alloc s l)).
Proof.
  intros Hst [H1 H2 H3 H4 H5 H6 H7]. split; cbn [snd alloc l_syms l_hash l_funchash l_Text l_Data l_fileIdx l_files]; [| |done| | |done|].
  - intros name j (s' & Hs & ?)%H1. exists s'. split; [by apply lookup_app_l_Some | done].
  - intros name j (s' & Hs & ?)%H2. exists s'. split; [by apply lookup_app_l_Some | done].
  - intros j (s' & Hs & ?)%H4. exists s'. split; [by apply lookup_app_l_Some | done].
  - intros j (s' & Hs & ?)%H5. exists s'. split; [by apply lookup_app_l_Some | done].
  - intros j s' [Hs|[_ Hs]]%lookup_app_Some; [by eapply H7|]. by apply list_lookup_singleton_Some in Hs as [_ <-].
Qed.

Lemma LookupABI_ok name abi l : abi = ABI0 \/ abi = ABIInternal -> link_ok l ->
  let '(i, l') := LookupABI name abi l in
  link_ok l' /\ (exists s, l_syms l' !! i = Some s /\ s_Name s = name /\ s_ABI s = abi) /\
  (if abi =? ABIInternal then l_funchash l' else l_hash l') !! name = Some i /\
  (forall k s, l_syms l !! k = Some s -> l_syms l' !! k = Some s) /\
  (forall k j, l_hash l !! k = Some j -> l_hash l' !! k = Some j) /\
  (forall k j, l_funchash l !! k = Some j -> l_funchash l' !! k = Some j).
Proof.
  intros Habi Hok. unfold LookupABI.
  destruct ((if abi =? ABIInternal then l_funchash l else l_hash l) !! name) as [i|] eqn:E.
  { split_and!; try done. destruct Habi as [->| ->]; simpl in E; [by apply (ok_hash _ Hok) | by apply (ok_funchash _ Hok)]. }
  pose proof (alloc_ok (new_sym name abi) l eq_refl Hok) as Hok'. destruct (alloc (new_sym name abi) l) as [i l'] eqn:Ea.
  assert (l_syms l' !! i = Some (new_sym name abi)) as Hi.
  { unfold alloc in Ea. injection Ea as <- <-. cbn [l_syms]. by rewrite lookup_app_r, Nat.sub_diag. }
  assert (l_hash l' = l_hash l /\ l_funchash l' = l_funchash l /\ l_Text l' = l_Text l /\ l_Data l' = l_Data l) as (Eh & Ef & Et & Ed)
    by (unfold alloc in Ea; by injection Ea as <- <-).
  pose proof (alloc_lookup _ _ _ _ (new_sym name abi) Ea) as [_ _].
  destruct Hok' as [H1 H2 H3 H4 H5 H6 H7]. cbn [snd] in *.
  destruct Habi as [->| ->]; cbn in E |- *.
  - split_and!; [split| | | | |]; cbn [l_syms l_hash l_funchash l_Text l_Data l_fileIdx l_files]; try done.
    + intros k j [[<- <-]|[Hne Hj]]%lookup_insert_Some; [by eexists | by apply H1].
    + by eexists.
    + by rewrite lookup_insert_eq.
    + intros k s. by apply (alloc_lookup _ _ _ _ s Ea).
    + intros k j Hj. rewrite lookup_insert_ne; [by rewrite Eh|]. intros ->. congruence.
    + intros k j. by rewrite Ef.
  - split_and!; [split| | | | |]; cbn [l_syms l_hash l_funchash l_Text l_Data l_fileIdx l_files]; try done.
    + intros k j [[<- <-]|[Hne Hj]]%lookup_insert_Some; [by eexists | by apply H2].
    + by eexists.
    + by rewrite lookup_insert_eq.
    + intros k s. by apply (alloc_lookup _ _ _ _ s Ea).
    + intros k j. by rewrite Eh.
    + intros k j Hj. rewrite lookup_insert_ne; [by rewrite Ef|]. intros ->. congruence.
Qed.

(** What one operation may do: keep the invariant, the tables and the list entries. *)
Record extends (l l' : Link) : Prop := {
  ex_ok : link_ok l -> link_ok l';
  ex_hash : forall k j, l_hash l !! k = Some j -> l_hash l' !! k = Some j;
  ex_funchash : forall k j, l_funchash l !! k = Some j -> l_funchash l' !! k = Some j;
  ex_text : forall i, i ∈ l_Text l -> i ∈ l_Text l';
  ex_flushed : l_flushed l = true -> l_flushed l' = true }.

#[export] Instance extends_refl : Reflexive extends.
Proof. intros l. by split. Qed.

#[export] Instance extends_trans : Transitive extends.
Proof. intros a b c [? ? ? ? ?] [? ? ? ? ?]. split; eauto. Qed.

Lemma extends_modify i f l : keeps_identity f -> extends l (modify i f l).
Proof. intros Hf. split; [by apply modify_ok | done..]. Qed.

Lemma extends_alloc s l i l' : alloc s l = (i, l') -> s_Static s = false -> extends l l'.
Proof.
  intros E Hst. split; [intros H; pose proof (alloc_ok s l Hst H) as H'; by rewrite E in H' | | | |]; unfold alloc in E;
    by injection E as <- <-.
Qed.

Lemma LookupABI_lists name abi l : l_Text (snd (LookupABI name abi l)) = l_Text l /\
  l_flushed (snd (LookupABI name abi l)) = l_flushed l.
Proof.
  unfold LookupABI. destruct (_ !! _); [done|]. unfold alloc. cbn. by destruct (abi =? ABIInternal).
Qed.

Lemma extends_lookup name abi l i l' : abi = ABI0 \/ abi = ABIInternal -> LookupABI name abi l = (i, l') -> extends l l'.
Proof.
  intros Ha E. pose proof (LookupABI_lists name abi l) as Ht. rewrite E in Ht. cbn in Ht. destruct Ht as [Ht Hfl]. split.
  - intros H. pose proof (LookupABI_ok name abi l Ha H) as H'. rewrite E in H'. apply H'.
  - revert E. unfold LookupABI. destruct (_ !! name) eqn:En; [by intros [= <- <-]|]. unfold alloc. cbn.
    destruct Ha as [->| ->]; cbn in *; intros [= <- <-] k j Hk; cbn; [|done]. rewrite lookup_insert_ne; [done | congruence].
  - revert E. unfold LookupABI. destruct (_ !! name) eqn:En; [by intros [= <- <-]|]. unfold alloc. cbn.
    destruct Ha as [->| ->]; cbn in *; intros [= <- <-] k j Hk; cbn; [done|]. rewrite lookup_insert_ne; [done | congruence].
  - by rewrite Ht.
  - by rewrite Hfl.
Qed.

Lemma extends_file name l : extends l (snd (AddFile name l)).
Proof.
  unfold AddFile. destruct (l_fileIdx l !! name) as [i|] eqn:E; [done|]. cbn [snd]. split; [|done..].
  intros [H1 H2 H3 H4 H5 H6 H7]. split; cbn [l_syms l_hash l_funchash l_Text l_Data l_fileIdx l_files]; try done.
  intros k j. rewrite lookup_insert_Some, H6, lookup_app_Some. split.
  - intros [[<- <-]|[Hne Hj]]; [right; by rewrite Nat.sub_diag | by left].
  - intros [Hj|[Hge Hj]]; [right; split; [|done] | left].
    + intros <-. apply H6 in Hj. congruence.
    + destruct (j - length (l_files l))%nat eqn:Ej; [|done]. injection Hj as <-. split; [done | lia].
Qed.

(** Putting a fresh symbol on a list. *)
Lemma listed_ok (l : Link) i s f (b : bool) : l_syms l !! i = Some s -> s_onList s = false ->
  (forall s, s_Name (f s) = s_Name s /\ s_ABI (f s) = s_ABI s /\ s_onList (f s) = true /\ s_Static (f s) = s_Static s) ->
  (b = true -> s_Func (f s) <> None /\ s_Kind (f s) = "STEXT") ->
  let m := modify i f l in
  extends l (mkLink (l_syms m) (l_hash m) (l_funchash m) (if b then l_Text m ++ [i] else l_Text m)
    (if b then l_Data m else l_Data m ++ [i]) (l_files m) (l_fileIdx m) (l_flushed m)).
Proof.
  intros Hi Hon Hf Hb m.
  split; [|done|done| |done]. 2: { cbn [l_Text]. intros j Hj. destruct b; [set_solver | done]. }
  intros [H1 H2 H3 H4 H5 H6 H7].
  assert (i ∉ l_Text l ++ l_Data l) as Hn by (intros (s' & Hs' & Ho)%H4; congruence).
  assert (forall j, j ∈ l_Text l ++ l_Data l -> i <> j) as Hne by (intros j Hj ->; done).
  assert ((if b then l_Text l ++ [i] else l_Text l) ++ (if b then l_Data l else l_Data l ++ [i]) ≡ₚ i :: (l_Text l ++ l_Data l)) as Hp.
  { destruct b; [rewrite <-app_assoc; simpl; by rewrite Permutation_middle | by rewrite app_assoc, Permutation_app_comm]. }
  split; cbn [l_syms l_hash l_funchash l_Text l_Data l_fileIdx l_files m modify]; try done.
  - intros name j (s' & Hs & <- & Ha)%H1. eexists. split; [by apply (modify_lookup i f l)|].
    destruct (decide (i = j)); [|done]. destruct (Hf s') as (-> & -> & _). done.
  - intros name j (s' & Hs & <- & Ha)%H2. eexists. split; [by apply (modify_lookup i f l)|].
    destruct (decide (i = j)); [|done]. destruct (Hf s') as (-> & -> & _). done.
  - rewrite Hp. by apply NoDup_cons.
  - intros j. rewrite Hp. intros [->|Hj]%elem_of_cons.
    + eexists. split; [by apply (modify_lookup i f l)|]. rewrite decide_True by done. apply Hf.
    + destruct (H4 j Hj) as (s' & Hs' & Ho). eexists. split; [by apply (modify_lookup i f l)|].
      rewrite decide_False by (by apply Hne). done.
  - intros j Hj. assert (j ∈ l_Text l \/ b = true /\ j = i) as [Hj'|[Eb ->]] by (destruct b; set_solver).
    + destruct (H5 j Hj') as (s' & Hs' & Ho). eexists. split; [by apply (modify_lookup i f l)|].
      rewrite decide_False by (apply Hne; set_solver). done.
    + eexists. split; [by apply (modify_lookup i f l)|]. rewrite decide_True by done. by apply Hb.
  - apply (modify_static i f l); [intros z; by apply Hf | done].
Qed.

Lemma extends_Globl i size flag l l' : Globl i size flag l = Ok l' -> extends l l'.
Proof.
  unfold Globl. destruct (l_syms l !! i) as [s|] eqn:Ei; [|done]. destruct (s_onList s) eqn:Eo; [done|].
  intros [= <-]. by apply (listed_ok l i s (declare flag size) false).
Qed.

Lemma extends_InitText cf i flag l l' : InitText cf i flag l = Ok l' -> extends l l'.
Proof.
  unfold InitText. destruct (l_syms l !! i) as [s|] eqn:Ei; [|done].
  destruct (_ || s_onList s) eqn:Eo; [done|]. apply orb_false_elim in Eo as [_ Eo].
  intros [= <-]. by apply (listed_ok l i s (text_sym cf flag) true).
Qed.

(** Writes that respect the identity of a symbol. *)
Lemma keeps_func f : keeps_identity (with_func f).
Proof. intros s. unfold with_func. destruct (s_Func s); by split_and!. Qed.

Lemma keeps_prep off siz : keeps_identity (prepwrite off siz).
Proof.
  intros s. unfold prepwrite. cbn. split_and!; try done. by intros ->.
Qed.

Lemma keeps_WriteBytes off b : keeps_identity (WriteBytes off b).
Proof. intros s. unfold WriteBytes. destruct b; [by split_and! | exact (keeps_prep off _ s)]. Qed.

Lemma keeps_WriteInt off siz v : keeps_identity (fun s => default s (WriteInt off siz v s)).
Proof. intros s. unfold WriteInt. destruct (_ || _); cbn [default from_option]; [exact (keeps_prep off siz s) | by split_and!]. Qed.

Lemma keeps_AddRel r : keeps_identity (AddRel r).
Proof. intros s. by split_and!. Qed.

Lemma dwarf_info_static cf i s fi info : dwarf_info cf i s fi = Some info -> s_Static info = false.
Proof. unfold dwarf_info. destruct (die_addrs _ _ _ _) as [[b rs]|]; [|done]. by intros [= <-]. Qed.

Lemma extends_dwarf cf i l l' : dwarf cf i l = Some l' -> extends l l'.
Proof.
  unfold dwarf. destruct (l_syms l !! i) as [s|]; [|done]. destruct (s_Func s) as [fi|]; [|done].
  destruct (dwarf_info cf i s fi) as [info|] eqn:Ei; [|done].
  destruct (alloc info l) as [a l1] eqn:E1. destruct (alloc (dwarf_lines cf i s) l1) as [b l2] eqn:E2.
  destruct (alloc (anon_sym "SDWARFRANGE" [] []) l2) as [c l3] eqn:E3. intros [= <-].
  etrans; [exact (extends_alloc _ _ _ _ E1 (dwarf_info_static _ _ _ _ _ Ei))|]. etrans; [by apply (extends_alloc _ _ _ _ E2 eq_refl)|].
  etrans; [by apply (extends_alloc _ _ _ _ E3 eq_refl)|]. apply extends_modify, keeps_func.
Qed.

Lemma extends_derived i s idx name l : extends l (add_derived i s idx name l).
Proof.
  unfold add_derived. destruct (l_syms l !! i) as [s'|]; [|done]. destruct (s_Func s') as [fi|]; [|done].
  destruct (fi_funcdata fi !! idx); [done|]. unfold derived. destruct (s_Static s).
  - apply extends_modify, keeps_func.
  - destruct (Lookup name l) as [j l1] eqn:E. etrans; [eapply extends_lookup; [by left | exact E]|].
    apply extends_modify, keeps_func.
Qed.

Lemma extends_flush_text cf l i l' : flush_text cf l i = Some l' -> extends l l'.
Proof.
  unfold flush_text. destruct (l_syms l !! i) as [s|]; [|done]. destruct (s_Func s) as [fn|]; [|done].
  match goal with |- context [pcsym _ ?e] => set (l1 := e) end. assert (extends l l1) as H1.
  { unfold l1. destruct (_ && _); [|done]. etrans; apply extends_derived. }
  clearbody l1. destruct (pcsym [0; 0; 0] l1) as [pci l2] eqn:E. intros H%extends_dwarf. rewrite H1.
  etrans; [exact (extends_alloc _ _ _ _ E eq_refl)|]. etrans; [|exact H]. apply extends_modify, keeps_func.
Qed.

Lemma extends_flush_all cf ts : forall l l', flush_all cf l ts = Some l' -> extends l l'.
Proof.
  induction ts as [|i ts IH]; intros l l'; cbn [flush_all]; [by intros [= <-]|].
  destruct (flush_text cf l i) as [l1|] eqn:E; [|done]. intros H%IH. by rewrite (extends_flush_text _ _ _ _ E).
Qed.

(** ** Reachable objects *)

(** Assigning [Kind] before the declaration, as the data emitter does. *)
Definition set_kind (k : string) (s : Sym) : Sym := set_data s k (s_P s) (s_Size s).

(** One operation of the converter on the object. *)
Inductive lstep (cf : lconf) : Link -> Link -> Prop :=
| step_lookup name abi l : abi = ABI0 \/ abi = ABIInternal -> lstep cf l (snd (LookupABI name abi l))
| step_file name l : lstep cf l (snd (AddFile name l))
| step_kind i k s l : l_syms l !! i = Some s -> s_onList s = false -> lstep cf l (modify i (set_kind k) l)
| step_globl i size flag l l' : Globl i size flag l = Ok l' -> lstep cf l l'
| step_text i flag l l' : InitText cf i flag l = Ok l' -> lstep cf l l'
| step_bytes i off b l : lstep cf l (modify i (WriteBytes off b) l)
| step_int i off siz v l : lstep cf l (modify i (fun s => default s (WriteInt off siz v s)) l)
| step_rel i r l : lstep cf l (modify i (AddRel r) l)
| step_funcdata i idx d l : lstep cf l (Funcdata i idx d l)
| step_pcdata i l : lstep cf l (PCDATA i l)
| step_pctab p l : lstep cf l (snd (pcsym p l))
| step_flush l l' : Flush cf l = Ok (Some l') -> lstep cf l l'.

Lemma extends_kind i k s l : l_syms l !! i = Some s -> s_onList s = false -> extends l (modify i (set_kind k) l).
Proof.
  intros Hi Ho. split; [|done..]. intros [H1 H2 H3 H4 H5 H6 H7].
  assert (forall j, j ∈ l_Text l ++ l_Data l -> i <> j) as Hne
    by (intros j (s' & Hs' & Ho')%H4 ->; congruence).
  split; cbn [l_hash l_funchash l_Text l_Data l_fileIdx l_files modify]; try done.
  - intros name j (s' & Hs & <- & Ha)%H1. eexists. split; [by apply (modify_lookup i)|]. by destruct (decide (i = j)).
  - intros name j (s' & Hs & <- & Ha)%H2. eexists. split; [by apply (modify_lookup i)|]. by destruct (decide (i = j)).
  - intros j Hj. destruct (H4 j Hj) as (s' & Hs' & Ho'). eexists. split; [by apply (modify_lookup i)|].
    by rewrite decide_False by (by apply Hne).
  - intros j Hj. destruct (H5 j Hj) as (s' & Hs' & Ho'). eexists. split; [by apply (modify_lookup i)|].
    rewrite decide_False; [done|]. apply Hne. set_solver.
  - by apply (modify_static i (set_kind k) l).
Qed.

Lemma lstep_extends cf l l' : lstep cf l l' -> extends l l'.
Proof.
  intros H. induction H as [name abi l Ha|name l|i k s l Hi Ho|i size flag l l' E|i flag l l' E|i off b l|i off siz v l|i r l
    |i idx d l|i l|p l|l l' E].
  - destruct (LookupABI name abi l) as [i l'] eqn:E. by eapply extends_lookup.
  - apply extends_file.
  - by eapply extends_kind.
  - by eapply extends_Globl.
  - by eapply extends_InitText.
  - apply extends_modify, keeps_WriteBytes.
  - apply extends_modify, keeps_WriteInt.
  - apply extends_modify, keeps_AddRel.
  - apply extends_modify, keeps_func.
  - apply extends_modify, keeps_func.
  - destruct (pcsym p l) as [i l'] eqn:E. exact (extends_alloc _ _ _ _ E eq_refl).
  - unfold Flush in E. destruct (l_flushed l); [done|]. injection E as E%extends_flush_all. etrans; [|exact E].
    split; [|done..]. intros [H1 H2 H3 H4 H5 H6 H7]. by split.
Qed.

Lemma lsteps_extends cf l l' : rtc (lstep cf) l l' -> extends l l'.
Proof. induction 1 as [|a b c H%lstep_extends _ IH]; [done | by rewrite H]. Qed.

Definition reachable (cf : lconf) (l : Link) : Prop :=
  exists go arch l0, NewLink go arch (lc_Pkgpath cf) true = Ok l0 /\ rtc (lstep cf) l0 l.

Lemma reachable_ok cf l : reachable cf l -> link_ok l.
Proof.
  intros (go & arch & l0 & E & H). unfold NewLink in E. cbn in E. destruct (String.eqb _ ""); [done|]. injection E as <-.
  apply (ex_ok _ _ (lsteps_extends _ _ _ H)). split.
  - intros name i. cbn. by rewrite lookup_empty.
  - intros name i. cbn. by rewrite lookup_empty.
  - apply NoDup_nil_2.
  - intros i []%not_elem_of_nil.
  - intros i []%not_elem_of_nil.
  - intros name i. cbn. by rewrite lookup_empty, lookup_nil.
  - done.
Qed.


Definition demo_conf : lconf := mkConf "main" 1 false 8 ∅ ∅ ∅ {[ "ArgsPointerMaps" := 0; "ArgInfo" := 5 ]} true false 5 "v1" [].
Definition demo_link0 : Link := Eval vm_compute in
  match NewLink "go1.24" "amd64" "main" true with Ok l => l | Fail _ => mkLink [] ∅ ∅ [] [] [] ∅ false end.
Definition demo_link : Link := Eval vm_compute in
  match InitText demo_conf 0 TextNoSplit (snd (LookupABI "main.f" 1 demo_link0)) with Ok l => l | Fail _ => demo_link0 end.

Lemma demo_reachable : reachable demo_conf demo_link.
Proof.
  exists "go1.24", "amd64", demo_link0. split; [vm_compute; reflexivity|].
  eapply rtc_l; [exact (step_lookup demo_conf "main.f" 1 _ (or_intror eq_refl))|].
  apply rtc_once. apply (step_text demo_conf 0 TextNoSplit). vm_compute. reflexivity.
Qed.


(** Symbols have identity: between two lookups any operations may happen, and
    the second returns the first's symbol exactly when name and calling convention
    are the same. *)
Theorem lookup_identity cf l n1 a1 i l1 l2 n2 a2 j l3 :
  reachable cf l -> (a1 = ABI0 \/ a1 = ABIInternal) -> (a2 = ABI0 \/ a2 = ABIInternal) ->
  LookupABI n1 a1 l = (i, l1) -> rtc (lstep cf) l1 l2 -> LookupABI n2 a2 l2 = (j, l3) ->
  i = j <-> n1 = n2 /\ a1 = a2.
Proof.
  intros Hl%reachable_ok Ha1 Ha2 E1 H E2.
  pose proof (LookupABI_ok n1 a1 l Ha1 Hl) as P1. rewrite E1 in P1. destruct P1 as (Hl1 & _ & T1 & _).
  pose proof (lsteps_extends _ _ _ H) as X. pose proof (ex_ok _ _ X Hl1) as Hl2.
  pose proof (LookupABI_ok n2 a2 l2 Ha2 Hl2) as P2. rewrite E2 in P2. destruct P2 as (Hl3 & (s & Hs & Hn & Ha) & _ & _ & K1 & K2).
  assert ((if a1 =? ABIInternal then l_funchash l2 else l_hash l2) !! n1 = Some i) as T2.
  { destruct (a1 =? ABIInternal); [by apply (ex_funchash _ _ X) | by apply (ex_hash _ _ X)]. }
  split.
  - intros <-. assert (exists s', l_syms l3 !! i = Some s' /\ s_Name s' = n1 /\ s_ABI s' = a1) as (s' & Hs' & <- & <-).
    { destruct Ha1 as [->| ->]; cbn in T2; [apply (ok_hash _ Hl3), K1, T2 | apply (ok_funchash _ Hl3), K2, T2]. }
    rewrite Hs in Hs'. injection Hs' as <-. done.
  - intros [-> ->]. unfold LookupABI in E2. rewrite T2 in E2. by injection E2.
Qed.

Lemma lookup_identity_witness :
  fst (LookupABI "main.f" 0 demo_link) <> fst (LookupABI "main.f" 1 (snd (LookupABI "main.f" 0 demo_link))).
Proof.
  intros E. destruct (LookupABI "main.f" 0 demo_link) as [i l1] eqn:E1. cbn [fst snd] in E.
  destruct (LookupABI "main.f" 1 l1) as [j l3] eqn:E3.
  destruct (lookup_identity demo_conf demo_link "main.f" 0 i l1 l1 "main.f" 1 j l3) as [H _].
  - exact demo_reachable.
  - by left.
  - by right.
  - exact E1.
  - apply rtc_refl.
  - exact E3.
  - destruct (H E) as [_ A]. discriminate A.
Defined.

(** ** Contents *)

Lemma length_put_at p off b : 0 <= off -> off + zlen b <= zlen p -> zlen (put_at p off b) = zlen p.
Proof.
  unfold put_at, zlen. intros H0 H. rewrite !length_app, length_take, length_drop. lia.
Qed.

(** Writing data: after [WriteBytes off b] the symbol's bytes at [off] are
    exactly [b], all earlier contents outside that range are kept, bytes between the
    old end and [off] are zero, and the size covers the write. *)
Lemma WriteBytes_spec off b s : 0 <= off -> b <> [] ->
  let s' := WriteBytes off b s in
  zlen (s_P s') = Z.max (zlen (s_P s)) (off + zlen b) /\ s_Size s' = Z.max (s_Size s) (off + zlen b) /\
  forall k, s_P s' !! k =
    if decide (Z.to_nat off <= k < Z.to_nat off + length b)%nat then b !! (k - Z.to_nat off)%nat
    else if decide (k < length (s_P s))%nat then s_P s !! k
    else if decide (k < Z.to_nat off + length b)%nat then Some 0 else None.
Proof.
  intros H0 Hb. destruct b as [|x b']; [done|]. set (b := x :: b') in *. cbn zeta.
  set (p := if zlen (s_P s) <? off + zlen b then grow (s_P s) (off + zlen b) else s_P s).
  assert (WriteBytes off b s = set_data (prepwrite off (zlen b) s) (s_Kind (prepwrite off (zlen b) s)) (put_at p off b)
    (if s_Size s <? off + zlen b then off + zlen b else s_Size s)) as -> by reflexivity.
  cbn [set_data s_P s_Size]. pose proof (zlen_nonneg b).
  assert (zlen p = Z.max (zlen (s_P s)) (off + zlen b)) as Hp.
  { unfold p. destruct (Z.ltb_spec (zlen (s_P s)) (off + zlen b)); [|lia].
    unfold grow. rewrite zlen_app. unfold zlen at 2. rewrite length_replicate. lia. }
  split_and!.
  - rewrite length_put_at; lia.
  - destruct (Z.ltb_spec (s_Size s) (off + zlen b)); lia.
  - assert (forall k, p !! k = if decide (k < length (s_P s))%nat then s_P s !! k
        else if decide (k < Z.to_nat off + length b)%nat then Some 0 else None) as Hpk.
    { intros k. unfold p, zlen in *. destruct (Z.ltb_spec (Z.of_nat (length (s_P s))) (off + Z.of_nat (length b))).
      - unfold grow. destruct (decide (k < length (s_P s))%nat); [by rewrite lookup_app_l|].
        rewrite lookup_app_r by lia. unfold zlen. destruct (decide (k < Z.to_nat off + length b)%nat).
        + apply lookup_replicate_2. lia.
        + apply lookup_ge_None_2. rewrite length_replicate. lia.
      - destruct (decide (k < length (s_P s))%nat); [done|]. rewrite decide_False by lia. apply lookup_ge_None_2. lia. }
    intros k. unfold put_at, zlen in *. 
    destruct (decide (k < Z.to_nat off)%nat).
    { rewrite decide_False by lia. rewrite lookup_app_l by (rewrite length_take; lia). rewrite lookup_take, decide_True by lia. apply Hpk. }
    rewrite lookup_app_r by (rewrite length_take; lia). rewrite length_take, Nat.min_l by lia.
    destruct (decide (k < Z.to_nat off + length b)%nat).
    + rewrite decide_True by lia. apply lookup_app_l. lia.
    + rewrite (decide_False (P := (Z.to_nat off <= k < _)%nat)) by lia. rewrite lookup_app_r by lia. rewrite lookup_drop.
      replace (Z.to_nat off + length b + (k - Z.to_nat off - length b))%nat with k by lia.
      rewrite Hpk. rewrite (decide_False (P := (k < Z.to_nat off + _)%nat)) by lia. done.
Qed.

Lemma WriteBytes_spec_witness : s_P (WriteBytes 2 [7] (new_sym "x" 0)) !! 1%nat = Some 0.
Proof.
  destruct (WriteBytes_spec 2 [7] (new_sym "x" 0)) as (_ & _ & H); [lia | discriminate|].
  exact (H 1%nat).
Defined.

(** ** Flush *)

Definition flavor_ok (cf : lconf) : Prop :=
  lc_FuncDIE cf = "v2" -> lc_Dwarf5 cf = true -> addrxFlavor (lc_TextAddrx cf) (lc_DwTextCount cf * 2) <> None.

Lemma modify_func i f l s fi : l_syms l !! i = Some s -> s_Func s = Some fi ->
  exists s', l_syms (modify i (with_func f) l) !! i = Some s' /\ s_Func s' = Some (f fi).
Proof.
  intros Hs Hf. eexists. split; [by apply modify_lookup|]. rewrite decide_True by done. unfold with_func. by rewrite Hf.
Qed.

Lemma dwarf_total cf i l s fi : flavor_ok cf -> l_syms l !! i = Some s -> s_Func s = Some fi ->
  exists l', dwarf cf i l = Some l'.
Proof.
  intros Hfl Hs Hf. unfold dwarf, dwarf_info, die_addrs. rewrite Hs, Hf.
  destruct (String.eqb_spec (lc_FuncDIE cf) "v2") as [Ev|_]; cbn [andb]; [|by eexists].
  destruct (lc_Dwarf5 cf) eqn:E5; [|by eexists].
  destruct (addrxFlavor _ _) as [[typ sz]|] eqn:Ea; [by eexists|]. by destruct (Hfl Ev E5).
Qed.

Lemma extends_func l l' i : extends l l' -> link_ok l -> i ∈ l_Text l ->
  exists s fi, l_syms l' !! i = Some s /\ s_Func s = Some fi.
Proof.
  intros X Hok Hi. destruct (ok_text _ (ex_ok _ _ X Hok) i (ex_text _ _ X i Hi)) as (s & Hs & Hf & _).
  exists s. destruct (s_Func s) as [fi|]; [|done]. by exists fi.
Qed.

Lemma flush_text_total cf l i : flavor_ok cf -> link_ok l -> i ∈ l_Text l -> exists l', flush_text cf l i = Some l'.
Proof.
  intros Hfl Hok Hi. destruct (extends_func l l i ltac:(done) Hok Hi) as (s & fi & Hs & Hf).
  unfold flush_text. rewrite Hs, Hf. match goal with |- context [pcsym _ ?e] => set (l1 := e) end.
  assert (extends l l1) as H1 by (unfold l1; destruct (_ && _); [etrans; apply extends_derived | done]).
  clearbody l1. destruct (pcsym [0; 0; 0] l1) as [pci l2] eqn:E.
  assert (extends l l2) as H2 by (rewrite H1; exact (extends_alloc _ _ _ _ E eq_refl)).
  destruct (extends_func _ _ i H2 Hok Hi) as (s2 & fi2 & Hs2 & Hf2).
  destruct (modify_func i (finish_func (negb (bool_decide (fi_funcdata fi = ∅)) || fi_pcdataProg fi) pci) l2 s2 fi2 Hs2 Hf2)
    as (s3 & Hs3 & Hf3). by eapply dwarf_total.
Qed.

Lemma flush_all_total cf ts : flavor_ok cf -> forall l, link_ok l -> (forall i, i ∈ ts -> i ∈ l_Text l) ->
  exists l', flush_all cf l ts = Some l'.
Proof.
  intros Hfl. induction ts as [|i ts IH]; intros l Hok Hts; cbn [flush_all]; [by eexists|].
  destruct (flush_text_total cf l i Hfl Hok ltac:(apply Hts; by left)) as [l1 E]. rewrite E.
  pose proof (extends_flush_text _ _ _ _ E) as X. apply IH; [by apply (ex_ok _ _ X)|].
  intros j Hj. apply (ex_text _ _ X), Hts. by right.
Qed.

(** Flush: on every object the converter can build that was not flushed yet,
    Flush succeeds and never dereferences a missing function record, provided the
    release has a DWARF 5 address form for the number of functions (when that form
    is used); the object stays well formed and a second Flush is an error. *)
Theorem Flush_total cf l : reachable cf l -> l_flushed l = false -> flavor_ok cf ->
  exists l', Flush cf l = Ok (Some l') /\ link_ok l' /\ (forall i, i ∈ l_Text l -> i ∈ l_Text l') /\
    Flush cf l' = Fail "Flush called twice".
Proof.
  intros Hr Hf Hfl. pose proof (reachable_ok _ _ Hr) as Hok. unfold Flush. rewrite Hf.
  set (l1 := mkLink _ _ _ _ _ _ _ true).
  assert (link_ok l1) as Hok1 by (destruct Hok as [H1 H2 H3 H4 H5 H6 H7]; by split).
  destruct (flush_all_total cf (l_Text l) Hfl l1 Hok1 ltac:(done)) as [l' E]. exists l'.
  change (l_Text l1) with (l_Text l). rewrite E. pose proof (extends_flush_all _ _ _ _ E) as X. split_and!; [done | by apply (ex_ok _ _ X) | apply (ex_text _ _ X) |].
  by rewrite (ex_flushed _ _ X eq_refl).
Qed.

Lemma Flush_total_witness : exists l', Flush demo_conf demo_link = Ok (Some l') /\ Flush demo_conf l' = Fail "Flush called twice".
Proof.
  destruct (Flush_total demo_conf demo_link) as (l' & H1 & _ & _ & H2).
  - exact demo_reachable.
  - reflexivity.
  - intros H. discriminate H.
  - exists l'. split; [exact H1 | exact H2].
Defined.
