(* ===== verification/ObjWrite.v ===== *)
(** * Writing the Go object file

    Models src/internal/goobj/write.go: the traversal of an object's symbols, the
    numbering, the FuncInfo symbols and the blocks of the file.  The facts of a Go
    release (package gometa) are the record [objMeta]; the hash functions of Go's
    crypto packages are arguments.  The callbacks of [traverse] never change what it
    reads, so a traversal is the list of the symbols it visits, together with the
    object, in which it may create file symbols.  The indices of the symbols, fields
    of [Sym] in the source, are the map [w_num] ([None]: not [indexed]); a panic is
    the error [WPanic]. *)

From Stdlib Require Import ZArith Lia Ascii.
From stdpp Require Import base list strings gmap sorting.
From S2P Require Import Prelude Text Link.

Inductive werr := WErr (msg : string) | WPanic.

Record objMeta := mkMeta {
  om_Go : string; om_Magic : list Z; om_Blocks : list string;
  om_ObjFlags : gmap string Z; om_SymFlags : gmap string Z; om_SymFlags2 : gmap string Z;
  om_AuxTypes : gmap string Z; om_PkgIdx : gmap string Z; om_SymABIStatic : Z;
  om_HashSize : Z; om_Hash64Size : Z; om_Builtins : list (string * Z);
  om_ContentHash : string; om_AsmNamedSymsLinkname : bool; om_Align : string; om_TrimInlineHash : bool;
  om_TypePrefix : string; om_ItabPrefix : string; om_SortRelocs : bool; om_FuncInfoStartLine : bool;
  om_InlFileSymRefs : bool; om_Kinds : gmap string Z; om_Relocs : gmap string Z;
  om_PtrSize : Z; om_Pkgpath : string; om_RegabiWrappers : bool }.

(** ** Traversal *)

Definition travDefs : Z := Z.shiftl 1 0.
Definition travRefs : Z := Z.shiftl 1 1.
Definition travAux : Z := Z.shiftl 1 2.
Definition travPcdata : Z := Z.shiftl 1 3.
Definition travAll : Z := Z.lor (Z.lor (Z.lor travDefs travRefs) travAux) travPcdata.

Definition has (flag bit : Z) : bool := negb (Z.land flag bit =? 0).

Definition sym_at (l : Link) (i : sid) : res werr Sym :=
  match l_syms l !! i with Some s => Ok s | None => Fail WPanic end.

Definition func_of (s : Sym) : res werr FuncInfo :=
  match s_Func s with Some f => Ok f | None => Fail WPanic end.

Definition sortedFiles (m : gset Z) : list Z := merge_sort Z.le (elements m).

(** [l.Lookup(l.files[i])] *)
Definition file_sym (l : Link) (i : Z) : res werr (sid * Link) :=
  match (if i <? 0 then None else l_files l !! Z.to_nat i) with Some f => Ok (Lookup f l) | None => Fail WPanic end.

Definition visit_file (s : list sid * Link) (i : Z) : res werr (list sid * Link) :=
  '(j, l) ← file_sym (snd s) i; Ok (fst s ++ [j], l).

Definition is_text (s : Sym) : bool := String.eqb (s_Kind s) "STEXT".

(** [a == nil || a.Size == 0] leaves [a] out. *)
Definition sized (l : Link) (o : option sid) : list sid :=
  match o with
  | Some i => match l_syms l !! i with Some s => if s_Size s =? 0 then [] else [i] | None => [] end
  | None => []
  end.

Definition rel_syms (l : Link) (i : sid) : list sid :=
  match l_syms l !! i with Some s => lr_Sym <$> s_R s | None => [] end.

(** The DWARF symbols of a function, in the writer's order. *)
Definition dwarf_syms (l : Link) (f : FuncInfo) : list sid :=
  sized l (fi_dwarfRanges f) ++ sized l (fi_dwarfLines f) ++ sized l (fi_dwarfInfo f).

Definition pcdata_syms (f : FuncInfo) : list sid :=
  omap id ([fi_Pcsp f; fi_Pcfile f; fi_Pcline f; fi_Pcinline f] ++ fi_Pcdata f).

Section Write.
Variable m : objMeta.

Definition visit_inl (s : list sid * Link) (n : LInlNode) : res werr (list sid * Link) :=
  let s := (fst s ++ [li_Func n], snd s) in
  if om_InlFileSymRefs m then visit_file s (li_File n) else Ok s.

Definition traverseFuncAux (flag : Z) (l : Link) (s : Sym) : res werr (list sid * Link) :=
  f ← func_of s;
  r ← rfold visit_file (omap id (fi_Funcdata f), l) (sortedFiles (fi_UsedFiles f));
  r ← rfold visit_inl r (fi_InlTree f);
  Ok (fst r ++ concat ((fun a => a :: (if has flag travRefs then rel_syms l a else [])) <$> dwarf_syms l f), snd r).

Definition visit (flag : Z) (st : list sid * Link) (i : sid) : res werr (list sid * Link) :=
  let '(acc, l) := st in
  s ← sym_at l i;
  '(aux, l) ← (if has flag travAux && is_text s then traverseFuncAux flag l s else Ok ([], l));
  pcs ← (if has flag travPcdata && is_text s then f ← func_of s; Ok (pcdata_syms f) else Ok []);
  Ok (acc ++ (if has flag travDefs then [i] else []) ++ (if has flag travRefs then lr_Sym <$> s_R s else []) ++
      aux ++ pcs, l).

Definition traverse (flag : Z) (l : Link) : res werr (list sid * Link) :=
  rfold (visit flag) ([], l) (l_Text l ++ l_Data l).

(** ** Numbering *)

Record wstate := mkW {
  w_link : Link; w_num : gmap sid (Z * Z); w_finfo : gmap sid sid;
  w_defs : list sid; w_hashed64 : list sid; w_hashed : list sid; w_nonpkgdefs : list sid; w_nonpkgrefs : list sid }.

Definition hashSection (s : Sym) : res werr Z :=
  if s_Pcdata s then Ok 80
  else Fail (WErr ("content-addressable symbol " +:+ quote (s_Name s) +:+ " is not a pc-value table")).

(** The last entry of a name wins. *)
Fixpoint last_index (name : string) (i : Z) (idx : Z) (bs : list (string * Z)) : Z :=
  match bs with [] => idx | (n, _) :: bs => last_index name (i + 1) (if String.eqb n name then i else idx) bs end.

Definition builtinIdx (name : string) (abi : Z) : Z :=
  let idx := last_index name 0 (-1) (om_Builtins m) in
  if idx <? 0 then -1
  else if om_RegabiWrappers m && negb (default 0 (snd <$> om_Builtins m !! Z.to_nat idx) =? abi) then -1
  else idx.

Definition pk (name : string) : Z := s32 (at_ (om_PkgIdx m) name).
Definition len32 {A} (l : list A) : Z := s32 (zlen l).

Definition number_def (w : wstate) (i : sid) : res werr wstate :=
  s ← sym_at (w_link w) i;
  let '(mkW l num fi defs h64 h nd nr) := w in
  if s_ContentAddressable s then
    sec ← hashSection s;
    if (s_Size s <=? 8) && (match s_R s with [] => true | _ => false end) && (sec =? 0)
    then Ok (mkW l (<[i := (pk "Hashed64", len32 h64)]> num) fi defs (h64 ++ [i]) h nd nr)
    else Ok (mkW l (<[i := (pk "Hashed", len32 h)]> num) fi defs h64 (h ++ [i]) nd nr)
  else if negb (s_Static s) then Ok (mkW l (<[i := (pk "None", len32 nd)]> num) fi defs h64 h (nd ++ [i]) nr)
  else Ok (mkW l (<[i := (pk "Self", len32 defs)]> num) fi (defs ++ [i]) h64 h nd nr).

(** [nonpkg] counts the non-package symbols numbered so far. *)
Definition number_ref (w : wstate) (i : sid) : res werr wstate :=
  s ← sym_at (w_link w) i;
  let '(mkW l num fi defs h64 h nd nr) := w in
  match num !! i with
  | Some _ => Ok w
  | None =>
      let b := builtinIdx (s_Name s) (s_ABI s) in
      if 0 <=? b then Ok (mkW l (<[i := (pk "Builtin", s32 b)]> num) fi defs h64 h nd nr)
      else if s_ContentAddressable s
      then Fail (WErr ("reference to undefined content-addressable symbol " +:+ quote (s_Name s)))
      else Ok (mkW l (<[i := (pk "None", s32 (zlen nd + zlen nr))]> num) fi defs h64 h nd (nr ++ [i]))
  end.

Definition number (l : Link) : res werr wstate :=
  '(ds, l) ← traverse (Z.lor travDefs travPcdata) l;
  w ← rfold number_def (mkW l ∅ ∅ [] [] [] [] []) ds;
  '(rs, l) ← traverse (Z.lor travRefs travAux) (w_link w);
  rfold number_ref (mkW l (w_num w) (w_finfo w) (w_defs w) (w_hashed64 w) (w_hashed w) (w_nonpkgdefs w) (w_nonpkgrefs w)) rs.

(** ** FuncInfo symbols *)

Definition symRef (w : wstate) (o : option sid) : res werr (Z * Z) :=
  match o with
  | None => Ok (0, 0)
  | Some i => match w_num w !! i with Some (p, x) => Ok (u32 p, u32 x) | None => Fail WPanic end
  end.

Definition le32 (z : Z) : list Z := le_bytes 4 z.

Definition inl_bytes (w : wstate) (b : list Z) (n : LInlNode) : res werr (list Z) :=
  '(p, x) ← symRef w (Some (li_Func n));
  Ok (b ++ le32 (li_Parent n) ++ le32 (li_File n) ++ le32 (li_Line n) ++ le32 p ++ le32 x ++ le32 (li_ParentPC n)).

Definition funcinfo_bytes (w : wstate) (f : FuncInfo) : res werr (list Z) :=
  let files := sortedFiles (fi_UsedFiles f) in
  rfold (inl_bytes w)
    (le32 (fi_Args f) ++ le32 (fi_Locals f) ++ [fi_FuncID f; fi_FuncFlag f; 0; 0] ++
     (if om_FuncInfoStartLine m then le32 (fi_StartLine f) else []) ++
     le32 (zlen files) ++ concat (le32 <$> files) ++ le32 (zlen (fi_InlTree f))) (fi_InlTree f).

Definition info_sym (b : list Z) : Sym := anon_sym "SDATA" b [].

(** Gives the symbol [a] the next index of the package. *)
Definition number_self (st : wstate * list sid) (a : sid) : wstate * list sid :=
  let '(w, out) := st in
  (mkW (w_link w) (<[a := (pk "Self", s32 (zlen (w_defs w) + zlen out))]> (w_num w)) (w_finfo w) (w_defs w) (w_hashed64 w)
     (w_hashed w) (w_nonpkgdefs w) (w_nonpkgrefs w), out ++ [a]).

Definition func_info_sym (st : wstate * list sid) (i : sid) : res werr (wstate * list sid) :=
  let '(w, out) := st in
  s ← sym_at (w_link w) i;
  f ← func_of s;
  b ← funcinfo_bytes w f;
  let '(is_, l) := alloc (info_sym b) (w_link w) in
  let w := mkW l (w_num w) (<[i := is_]> (w_finfo w)) (w_defs w) (w_hashed64 w) (w_hashed w) (w_nonpkgdefs w) (w_nonpkgrefs w) in
  Ok (foldl number_self (w, out) (is_ :: dwarf_syms l f)).

Definition funcInfoSyms (w : wstate) : res werr wstate :=
  '(w, out) ← rfold func_info_sym (w, []) (l_Text (w_link w));
  Ok (mkW (w_link w) (w_num w) (w_finfo w) (w_defs w ++ out) (w_hashed64 w) (w_hashed w) (w_nonpkgdefs w) (w_nonpkgrefs w)).

(** ** The writer *)

Record writer := mkWr { wr_b : list Z; wr_strs : gmap string Z; wr_off : list Z }.

Definition off (o : writer) : Z := u32 (zlen (wr_b o)).
Definition put (b : list Z) (o : writer) : writer := mkWr (wr_b o ++ b) (wr_strs o) (wr_off o).

Definition addString (o : writer) (s : string) : writer :=
  match wr_strs o !! s with
  | Some _ => o
  | None => mkWr (wr_b o ++ bytes_of_string s) (<[s := off o]> (wr_strs o)) (wr_off o)
  end.

Definition stringRef (s : string) (o : writer) : res werr writer :=
  match wr_strs o !! s with
  | Some x => Ok (put (le32 (Z.of_nat (String.length s)) ++ le32 x) o)
  | None => Fail WPanic
  end.

(** [blk[b]]: 0 for a name that is not listed, the last index of a name listed
    twice. *)
Fixpoint block_index (i idx : nat) (bs : list string) (b : string) : nat :=
  match bs with [] => idx | x :: bs => block_index (S i) (if String.eqb x b then i else idx) bs b end.

Definition blk (b : string) : nat := block_index 0 0 (om_Blocks m) b.

Definition mark (b : string) (o : writer) : writer := mkWr (wr_b o) (wr_strs o) (<[blk b := off o]> (wr_off o)).

Definition sym_name_ (s : Sym) : string := if om_TrimInlineHash m then TrimInlineHash (s_Name s) else s_Name s.

Definition has_prefix (p s : string) : bool := if cut_prefix p s then true else false.

Definition flag_if (c : bool) (flags : gmap string Z) (name : string) (flag : Z) : Z :=
  if c then Z.lor flag (at_ flags name) else flag.

Definition is_gotype (s : Sym) : bool :=
  match cut_prefix (om_TypePrefix m) (s_Name s) with
  | Some (String c _) => negb (Ascii.eqb c "."%char) && String.eqb (s_Kind s) "SRODATA"
  | _ => false
  end.

Definition is_dict (s : Sym) : bool :=
  match cut_prefix (om_Pkgpath m +:+ ".") (s_Name s) with Some rest => has_prefix ".dict" rest | None => false end.

Definition sym_flag (s : Sym) : Z :=
  flag_if (is_gotype s) (om_SymFlags m) "GoType"
    (flag_if (s_NoSplit s) (om_SymFlags m) "NoSplit"
       (flag_if (s_Local s) (om_SymFlags m) "Local" (flag_if (s_Dupok s) (om_SymFlags m) "Dupok" 0))).

Definition sym_flag2 (s : Sym) : Z :=
  flag_if ((om_AsmNamedSymsLinkname m && negb (String.eqb (s_Name s) "")) || String.eqb (s_Name s) "main.main")
    (om_SymFlags2 m) "Linkname"
    (flag_if (is_dict s) (om_SymFlags2 m) "Dict"
       (flag_if (has_prefix (om_ItabPrefix m) (s_Name s) && String.eqb (s_Kind s) "SRODATA") (om_SymFlags2 m) "Itab" 0)).

Definition sym_align (s : Sym) (name : string) : res werr Z :=
  if String.eqb (om_Align m) "explicit" then Ok (u32 (s_Align s))
  else if s_ContentAddressable s && negb (s_Size s =? 0) then
    if negb (String.eqb name "")
    then Fail (WErr ("named content-addressable symbol " +:+ quote name +:+ ": alignment rule not modelled"))
    else Ok (if (Z.rem (s_Size s) 8 =? 0) && (om_PtrSize m =? 8) then 8
             else if Z.rem (s_Size s) 4 =? 0 then 4 else if Z.rem (s_Size s) 2 =? 0 then 2 else 1)
  else Ok 0.

Definition kindName (k : string) : string := if String.eqb k "" then "Sxxx" else k.

Definition sym_abi (s : Sym) : Z := if s_Static s then om_SymABIStatic m else s_ABI s.

Definition sym_rest (s : Sym) (kind align : Z) : list Z :=
  le_bytes 2 (sym_abi s) ++ [u8 kind; u8 (sym_flag s); u8 (sym_flag2 s)] ++ le32 (s_Size s) ++ le32 align.

Definition writeSym (l : Link) (o : writer) (i : sid) : res werr writer :=
  s ← sym_at l i;
  let name := sym_name_ s in
  align ← sym_align s name;
  match om_Kinds m !! kindName (s_Kind s) with
  | None => Fail (WErr (om_Go m +:+ " has no symbol kind " +:+ s_Kind s))
  | Some kind => o ← stringRef name o; Ok (put (sym_rest s kind align) o)
  end.

(** The aux symbols of the symbol [i]: type and symbol. *)
Definition aux (w : wstate) (i : sid) (s : Sym) : list (Z * option sid) :=
  match s_Func s with
  | None => []
  | Some f =>
      let ty := at_ (om_AuxTypes m) in
      let nz t o := (fun a => (ty t, Some a)) <$> sized (w_link w) o in
      [(ty "FuncInfo", w_finfo w !! i)] ++ ((fun d => (ty "Funcdata", d)) <$> fi_Funcdata f) ++
      nz "DwarfInfo" (fi_dwarfInfo f) ++ nz "DwarfRanges" (fi_dwarfRanges f) ++ nz "DwarfLines" (fi_dwarfLines f) ++
      nz "Pcsp" (fi_Pcsp f) ++ nz "Pcfile" (fi_Pcfile f) ++ nz "Pcline" (fi_Pcline f) ++ nz "Pcinline" (fi_Pcinline f) ++
      ((fun d => (ty "Pcdata", d)) <$> fi_Pcdata f)
  end.

(** [sort.SliceStable] by offset, as the release asks. *)
Definition rel_le (a b : LReloc) : Prop := lr_Off a <= lr_Off b.
#[export] Instance rel_le_dec a b : Decision (rel_le a b) := decide (lr_Off a <= lr_Off b).

Definition relocs_of (s : Sym) : list LReloc := if om_SortRelocs m then merge_sort rel_le (s_R s) else s_R s.

Definition reloc_bytes (w : wstate) (r : LReloc) : res werr (list Z) :=
  match om_Relocs m !! lr_Type r with
  | None => Fail (WErr (om_Go m +:+ " has no relocation type " +:+ lr_Type r))
  | Some t =>
      '(p, x) ← symRef w (Some (lr_Sym r));
      Ok (le32 (lr_Off r) ++ [u8 (lr_Siz r)] ++ le_bytes 2 t ++ le_bytes 8 (lr_Add r) ++ le32 p ++ le32 x)
  end.

Definition aux_bytes (w : wstate) (a : Z * option sid) : res werr (list Z) :=
  '(p, x) ← symRef w (snd a); Ok ([u8 (fst a)] ++ le32 p ++ le32 x).

(** Entries of one symbol after another. *)
Definition put_each {A} (f : A -> res werr (list Z)) (o : writer) (l : list A) : res werr writer :=
  rfold (fun o x => b ← f x; Ok (put b o)) o l.

(** [bytes.TrimRight(p, "\x00")] *)
Fixpoint trim_right (p : list Z) : list Z :=
  match p with
  | [] => []
  | b :: p => match trim_right p with [] => if b =? 0 then [] else [b] | t => b :: t end
  end.

Variable sha256 : list Z -> list Z.
Variable sha1 : list Z -> list Z.

Definition contentHash (s : Sym) : res werr (list Z) :=
  match s_R s with
  | _ :: _ => Fail (WErr "content-addressable symbol with relocations")
  | [] =>
      sec ← hashSection s;
      let in_ := le_bytes 8 (s_Size s) ++ [sec] ++ trim_right (s_P s) in
      sum ← (if String.eqb (om_ContentHash m) "notsha256" then Ok (Z.lxor 255 <$> sha256 in_)
             else if String.eqb (om_ContentHash m) "sha256-prefix01" then Ok (sha256 (1 :: in_))
             else if String.eqb (om_ContentHash m) "sha1" then Ok (sha1 in_ ++ replicate 12 0)
             else Fail (WErr ("unknown content hash " +:+ quote (om_ContentHash m))));
      if (om_HashSize m <? 0) || (32 <? om_HashSize m) then Fail WPanic else Ok (take (Z.to_nat (om_HashSize m)) sum)
  end.

(** [h[:o.Hash64Size]] of the first bytes of the contents. *)
Definition hash64 (s : Sym) : res werr (list Z) :=
  if (om_Hash64Size m <? 0) || (8 <? om_Hash64Size m) then Fail WPanic
  else Ok (take (Z.to_nat (om_Hash64Size m)) (take 8 (s_P s ++ replicate 8 0))).

(** Running totals: the index blocks. *)
Fixpoint totals (n : Z) (l : list Z) : list Z := u32 n :: match l with [] => [] | x :: l => totals (n + x) l end.

Definition put_index (l : list Z) (o : writer) : writer := put (concat (le32 <$> totals 0 l)) o.

Definition defined (w : wstate) : list sid := w_defs w ++ w_hashed64 w ++ w_hashed w ++ w_nonpkgdefs w.

Definition syms_of (w : wstate) (is_ : list sid) : res werr (list (sid * Sym)) :=
  rfold (fun acc i => s ← sym_at (w_link w) i; Ok (acc ++ [(i, s)])) [] is_.

Definition headerSize : Z := zlen (om_Magic m) + 8 + 4.

Definition init_writer : writer :=
  let n := length (om_Blocks m) in
  mkWr (om_Magic m ++ replicate 8 0 ++ le32 (at_ (om_ObjFlags m) "FromAssembly") ++ concat (replicate n (le32 0))) ∅ (replicate n 0).

(** Strings: the names of all symbols but builtins', then the files. *)
Definition add_name (w : wstate) (o : writer) (i : sid) : res werr writer :=
  s ← sym_at (w_link w) i;
  Ok (if default 0 (fst <$> w_num w !! i) =? pk "Builtin" then o else addString o (sym_name_ s)).

Definition strings (w : wstate) (visited : list sid) (o : writer) : res werr writer :=
  o ← rfold (add_name w) (addString o "") visited;
  Ok (foldl addString o (l_files (w_link w))).

Definition put_files (w : wstate) (o : writer) : res werr writer := rfold (fun o f => stringRef f o) o (l_files (w_link w)).

Definition put_syms (w : wstate) (b : string) (is_ : list sid) (o : writer) : res werr writer :=
  rfold (writeSym (w_link w)) (mark b o) is_.

Definition blocks (w : wstate) (o : writer) : res werr writer :=
  o ← stringRef "" (mark "PkgIdx" (mark "Autolib" o));
  o ← put_files w (mark "File" o);
  o ← put_syms w "Symdef" (w_defs w) o;
  o ← put_syms w "Hashed64def" (w_hashed64 w) o;
  o ← put_syms w "Hasheddef" (w_hashed w) o;
  o ← put_syms w "Nonpkgdef" (w_nonpkgdefs w) o;
  o ← put_syms w "Nonpkgref" (w_nonpkgrefs w) o;
  h64 ← syms_of w (w_hashed64 w);
  o ← put_each (hash64 ∘ snd) (mark "Hash64" (mark "RefFlags" o)) h64;
  h ← syms_of w (w_hashed w);
  o ← put_each (contentHash ∘ snd) (mark "Hash" o) h;
  ds ← syms_of w (defined w);
  let o := put_index ((fun x => zlen (s_R (snd x))) <$> ds) (mark "RelocIdx" o) in
  let o := put_index ((fun x => zlen (aux w (fst x) (snd x))) <$> ds) (mark "AuxIdx" o) in
  let o := put_index ((fun x => zlen (s_P (snd x))) <$> ds) (mark "DataIdx" o) in
  o ← put_each (reloc_bytes w) (mark "Reloc" o) (concat ((fun x => relocs_of (snd x)) <$> ds));
  o ← put_each (aux_bytes w) (mark "Aux" o) (concat ((fun x => aux w (fst x) (snd x)) <$> ds));
  let o := put (concat ((fun x => s_P (snd x)) <$> ds)) (mark "Data" o) in
  Ok (mark "End" (mark "RefName" o)).

(** The bytes with the block offsets filled in. *)
Definition patched (o : writer) : list Z := put_at (wr_b o) headerSize (concat (le32 <$> wr_off o)).

Fixpoint join_blocks (l : list string) : string :=
  match l with [] => "" | [x] => x | x :: l => x +:+ " " +:+ join_blocks l end.

(** The symbols with their final numbers, and the visit that collects the names. *)
Definition numbered (l : Link) : res werr (wstate * list sid) :=
  w ← number l;
  w ← funcInfoSyms w;
  '(vs, l) ← traverse travAll (w_link w);
  Ok (mkW l (w_num w) (w_finfo w) (w_defs w) (w_hashed64 w) (w_hashed w) (w_nonpkgdefs w) (w_nonpkgrefs w), vs).

Definition blocks_ok : bool :=
  bool_decide ("End" ∈ om_Blocks m) && (length (om_Blocks m) =? blk "End" + 1)%nat.

Definition Write (l : Link) (header : string) : res werr (list Z) :=
  if negb (l_flushed l) then Fail (WErr "Write before Flush")
  else
    w ← number l;
    w ← funcInfoSyms w;
    if negb blocks_ok then Fail (WErr (om_Go m +:+ ": unexpected goobj block list [" +:+ join_blocks (om_Blocks m) +:+ "]"))
    else
      '(vs, l) ← traverse travAll (w_link w);
      let w := mkW l (w_num w) (w_finfo w) (w_defs w) (w_hashed64 w) (w_hashed w) (w_nonpkgdefs w) (w_nonpkgrefs w) in
      o ← strings w vs init_writer;
      o ← blocks w o;
      Ok (bytes_of_string header ++ [33; 10] ++ patched o).
End Write.
