(* ===== verification/ObjNumber.v ===== *)
(** * Symbol numbers of the Go object file

    The numbering of ObjWrite is sound: every index a symbol got points at that
    symbol in the list its package index selects, and every TEXT and data symbol of
    the object is defined in it. *)

From Stdlib Require Import ZArith Lia Ascii.
From stdpp Require Import base list strings gmap sorting.
From S2P Require Import Prelude Text Link ObjWrite.

(** ** What the writer may do to an object: create symbols *)

Record grows (l l' : Link) : Prop := {
  gr_syms : forall i s, l_syms l !! i = Some s -> l_syms l' !! i = Some s;
  gr_text : l_Text l' = l_Text l;
  gr_data : l_Data l' = l_Data l;
  gr_files : l_files l' = l_files l }.

#[export] Instance grows_refl : Reflexive grows.
Proof. intros l. by split. Qed.

#[export] Instance grows_trans : Transitive grows.
Proof. intros a b c [H1 H2 H3 H4] [K1 K2 K3 K4]. split; [eauto | congruence..]. Qed.

Lemma grows_alloc s l i l' : alloc s l = (i, l') -> grows l l' /\ l_syms l' !! i = Some s.
Proof.
  unfold alloc. intros [= <- <-]. split; [split; [|done..] |]; cbn [l_syms].
  - intros i s' Hi. by apply lookup_app_l_Some.
  - by rewrite lookup_app_r, Nat.sub_diag.
Qed.

Lemma grows_Lookup name l i l' : Lookup name l = (i, l') -> grows l l'.
Proof.
  unfold Lookup, LookupABI. cbn. destruct (l_hash l !! name) as [j|]; [by intros [= <- <-]|]. intros [= <- <-].
  split; [|done..]. intros i s Hi. cbn. by apply lookup_app_l_Some.
Qed.

(** ** Traversals *)

Lemma visit_file_grows st i st' : visit_file st i = Ok st' -> grows (snd st) (snd st') /\ exists k, fst st' = fst st ++ k.
Proof.
  unfold visit_file, file_sym. intros E. destruct (if i <? 0 then _ else _) as [f|]; [|done]. cbn [mbind res_bind] in E.
  destruct (Lookup f (snd st)) as [j l] eqn:El. injection E as <-. split; [by eapply grows_Lookup | by eexists].
Qed.

Section Number.
Context (m : objMeta).

(** What a traversal keeps: the object grows, the list of visits too. *)
Definition visits (a b : list sid * Link) : Prop := grows (snd a) (snd b) /\ exists k, fst b = fst a ++ k.

#[local] Instance visits_refl : Reflexive visits.
Proof. intros a. split; [done | exists []; by rewrite app_nil_r]. Qed.

#[local] Instance visits_trans : Transitive visits.
Proof. intros a b c [H1 [k Hk]] [H2 [k' Hk']]. split; [by etrans | exists (k ++ k'); by rewrite Hk', Hk, app_assoc]. Qed.

Lemma rfold_visits {A} (f : list sid * Link -> A -> res werr (list sid * Link)) xs s s' :
  (forall s x s', f s x = Ok s' -> visits s s') -> rfold f s xs = Ok s' -> visits s s'.
Proof.
  intros Hf. apply (rfold_ind (visits s)); [|done]. intros s1 x s2 _ H E. etrans; [exact H | by eapply Hf].
Qed.

Lemma aux_grows flag l s vs l' : traverseFuncAux m flag l s = Ok (vs, l') -> grows l l'.
Proof.
  unfold traverseFuncAux. intros E. ok_step E f. ok_step E r1. ok_step E r2. injection E as _ <-.
  apply (rfold_visits _ _ _ _ visit_file_grows) in Er1 as [H1 _].
  apply rfold_visits in Er2 as [H2 _]; [by etrans|].
  intros s1 n s2 En. unfold visit_inl in En. destruct (om_InlFileSymRefs m).
  - apply visit_file_grows in En as [H [k Hk]]. split; [done|]. rewrite Hk. cbn [fst]. eexists. by rewrite <-app_assoc.
  - injection En as <-. split; [done | by eexists].
Qed.

Lemma visit_ok flag st i st' : visit m flag st i = Ok st' -> visits st st' /\
  (has flag travDefs = true -> i ∈ fst st').
Proof.
  unfold visit. destruct st as [acc l]. intros E. ok_step E s. ok_step E a. destruct a as [aux l1]. ok_step E pcs. injection E as <-.
  assert (grows l l1) as Hg by (destruct (has flag travAux && is_text s); [by eapply aux_grows | by injection Ea as _ <-]).
  split; [split; [done | by eexists]|]. intros ->. cbn [fst]. set_solver.
Qed.

Lemma traverse_grows flag l vs l' : traverse m flag l = Ok (vs, l') -> grows l l'.
Proof.
  unfold traverse. intros E. apply rfold_visits in E as [H _]; [done|]. intros ? ? ? Hv. by eapply visit_ok.
Qed.

Lemma traverse_defs flag l vs l' : has flag travDefs = true -> traverse m flag l = Ok (vs, l') ->
  forall i, i ∈ l_Text l ++ l_Data l -> i ∈ vs.
Proof.
  unfold traverse. intros Hd E i Hi. apply list_elem_of_split in Hi as (l1 & l2 & El). rewrite El, rfold_app in E.
  ok_step E s1. cbn [rfold] in E. ok_step E s2. destruct (visit_ok _ _ _ _ Es2) as [_ Hin].
  apply rfold_visits in E as [_ [k Hk]]; [|by intros ? ? ? [? _]%visit_ok]. cbn [fst] in Hk. rewrite Hk. set_solver.
Qed.

(** ** Indices *)

(** [points w out i p k]: entry [k] of the list that package index [p] selects is [i];
    [out] are the symbols of the package still to be appended. *)
Inductive points (w : wstate) (out : list sid) (i : sid) : Z -> nat -> Prop :=
| points_self k : (w_defs w ++ out) !! k = Some i -> points w out i (pk m "Self") k
| points_hashed64 k : w_hashed64 w !! k = Some i -> points w out i (pk m "Hashed64") k
| points_hashed k : w_hashed w !! k = Some i -> points w out i (pk m "Hashed") k
| points_none k : (w_nonpkgdefs w ++ w_nonpkgrefs w) !! k = Some i -> points w out i (pk m "None") k
| points_builtin k s abi : l_syms (w_link w) !! i = Some s -> om_Builtins m !! k = Some (s_Name s, abi) ->
    (om_RegabiWrappers m = true -> abi = s_ABI s) -> points w out i (pk m "Builtin") k.

Definition numbers_ok (w : wstate) (out : list sid) : Prop :=
  forall i p x, w_num w !! i = Some (p, x) -> exists k, x = s32 (Z.of_nat k) /\ points w out i p k.

(** The lists only grow. *)
Record wle (w : wstate) (out : list sid) (w' : wstate) (out' : list sid) : Prop := {
  wle_link : grows (w_link w) (w_link w');
  wle_defs : (w_defs w ++ out) `prefix_of` (w_defs w' ++ out');
  wle_h64 : w_hashed64 w `prefix_of` w_hashed64 w';
  wle_h : w_hashed w `prefix_of` w_hashed w';
  wle_np : (w_nonpkgdefs w ++ w_nonpkgrefs w) `prefix_of` (w_nonpkgdefs w' ++ w_nonpkgrefs w') }.

Lemma points_mono w out w' out' i p k : wle w out w' out' -> points w out i p k -> points w' out' i p k.
Proof.
  intros [Hl H1 H2 H3 H4] [j H|j H|j H|j H|j s abi Hs Hb Hr]; [constructor; by eapply prefix_lookup_Some ..|].
  eapply points_builtin; [by apply (gr_syms _ _ Hl) | done | done].
Qed.

(** Giving [i] one more index. *)
Lemma numbers_insert w out w' out' i p k : numbers_ok w out -> wle w out w' out' ->
  w_num w' = <[i := (p, s32 (Z.of_nat k))]> (w_num w) -> points w' out' i p k -> numbers_ok w' out'.
Proof.
  intros Hok Hle Hn Hp j q x. rewrite Hn. intros [[<- [= <- <-]]|[_ Hj]]%lookup_insert_Some; [by exists k|].
  destruct (Hok j q x Hj) as (k' & Hx & Hk). exists k'. split; [done | by eapply points_mono].
Qed.

Lemma numbers_mono w out w' out' : numbers_ok w out -> wle w out w' out' -> w_num w' = w_num w -> numbers_ok w' out'.
Proof.
  intros Hok Hle Hn i p x. rewrite Hn. intros (k & Hx & Hk)%Hok. exists k. split; [done | by eapply points_mono].
Qed.

Lemma last_lookup {A} (l : list A) x : (l ++ [x]) !! length l = Some x.
Proof. by rewrite lookup_app_r, Nat.sub_diag. Qed.

Lemma number_def_ok w i w' : number_def m w i = Ok w' -> w_nonpkgrefs w = [] -> numbers_ok w [] ->
  numbers_ok w' [] /\ w_nonpkgrefs w' = [] /\ w_link w' = w_link w /\ w_finfo w' = w_finfo w /\ i ∈ defined w' /\
  (forall j, j ∈ defined w -> j ∈ defined w').
Proof.
  unfold number_def. intros E Hr Hok. ok_step E s. destruct w as [l num fi defs h64 h nd nr]. cbn in Hr. subst nr.
  assert (forall A (x : list A) y, x `prefix_of` x ++ y) as Hpre by (intros; by apply prefix_app_r).
  unfold defined. destruct (s_ContentAddressable s).
  - ok_step E sec. destruct (_ && _ && _); injection E as <-; cbn;
      (split_and!; [|done|done|done|set_solver|set_solver]).
    + eapply (numbers_insert _ [] _ [] i _ (length h64)); [exact Hok | by split; cbn | done |]. constructor. apply last_lookup.
    + eapply (numbers_insert _ [] _ [] i _ (length h)); [exact Hok | by split; cbn | done |]. constructor. apply last_lookup.
  - destruct (negb (s_Static s)); injection E as <-; cbn; (split_and!; [|done|done|done|set_solver|set_solver]).
    + eapply (numbers_insert _ [] _ [] i _ (length nd)); [exact Hok | split; cbn; rewrite ?app_nil_r; done | done |].
      constructor. cbn. rewrite app_nil_r. apply last_lookup.
    + eapply (numbers_insert _ [] _ [] i _ (length defs)); [exact Hok | split; cbn; rewrite ?app_nil_r; done | done |].
      constructor. cbn. rewrite app_nil_r. apply last_lookup.
Qed.

Lemma last_index_ok name bs : forall i idx, last_index name i idx bs = idx \/
  exists k abi, bs !! k = Some (name, abi) /\ last_index name i idx bs = i + Z.of_nat k.
Proof.
  induction bs as [|[n a] bs IH]; intros i idx; [by left|]. cbn [last_index].
  destruct (IH (i + 1) (if String.eqb n name then i else idx)) as [->|(k & abi & Hk & ->)].
  - destruct (String.eqb_spec n name) as [->|]; [|by left]. right. exists 0%nat, a. split; [done | lia].
  - right. exists (S k), abi. split; [done | lia].
Qed.

Lemma builtinIdx_ok name abi : 0 <= builtinIdx m name abi -> exists k abi',
  builtinIdx m name abi = Z.of_nat k /\ om_Builtins m !! k = Some (name, abi') /\ (om_RegabiWrappers m = true -> abi' = abi).
Proof.
  unfold builtinIdx. destruct (last_index_ok name (om_Builtins m) 0 (-1)) as [->|(k & a & Hk & ->)]; [cbn; lia|].
  rewrite (proj2 (Z.ltb_ge _ _)) by lia. rewrite Z.add_0_l, Nat2Z.id, Hk. cbn.
  destruct (om_RegabiWrappers m) eqn:Er; cbn.
  - destruct (Z.eqb_spec a abi) as [->|]; cbn; [intros _; by exists k, abi | lia].
  - intros _. by exists k, a.
Qed.

Lemma number_ref_ok w i w' : number_ref m w i = Ok w' -> numbers_ok w [] ->
  numbers_ok w' [] /\ w_link w' = w_link w /\ defined w' = defined w.
Proof.
  unfold number_ref. intros E Hok. ok_step E s. destruct w as [l num fi defs h64 h nd nr]. unfold sym_at in Es. cbn in Es.
  destruct (l_syms l !! i) as [s'|] eqn:Ei; [|done]. injection Es as ->.
  destruct (num !! i); [by injection E as <-|]. destruct (Z.leb_spec 0 (builtinIdx m (s_Name s) (s_ABI s))) as [Hb|Hb].
  - injection E as <-. split_and!; [|done..]. destruct (builtinIdx_ok _ _ Hb) as (k & abi & -> & Hk & Hr).
    eapply (numbers_insert _ [] _ [] i _ k); [exact Hok | by split | done |]. by eapply points_builtin.
  - destruct (s_ContentAddressable s); [done|]. injection E as <-. split_and!; [|done..].
    eapply (numbers_insert _ [] _ [] i _ (length nd + length nr)); [exact Hok | | |].
    + split; cbn; try done. rewrite app_assoc. by apply prefix_app_r.
    + cbn. do 3 f_equal. unfold zlen. lia.
    + constructor. cbn. rewrite app_assoc, <-length_app. apply last_lookup.
Qed.

Lemma number_defs_ok ds : forall w w', rfold (number_def m) w ds = Ok w' -> w_nonpkgrefs w = [] -> numbers_ok w [] ->
  numbers_ok w' [] /\ w_nonpkgrefs w' = [] /\ w_link w' = w_link w /\ (forall i, i ∈ ds \/ i ∈ defined w -> i ∈ defined w').
Proof.
  induction ds as [|i ds IH]; intros w w' E Hr Hok; cbn [rfold] in E.
  - injection E as <-. split_and!; try done. intros i [Hi|Hi]; [by apply not_elem_of_nil in Hi | done].
  - ok_step E w1. destruct (number_def_ok _ _ _ Ew1 Hr Hok) as (Hok1 & Hr1 & Hl1 & _ & Hi & Hd).
    destruct (IH _ _ E Hr1 Hok1) as (H2 & H3 & H4 & H5). split_and!; try done; [congruence|].
    intros j [[->|Hj]%elem_of_cons|Hj]; eauto.
Qed.

Lemma number_refs_ok rs : forall w w', rfold (number_ref m) w rs = Ok w' -> numbers_ok w [] ->
  numbers_ok w' [] /\ w_link w' = w_link w /\ defined w' = defined w.
Proof.
  intros w w' E Hok. apply (rfold_ind (fun w' => numbers_ok w' [] /\ w_link w' = w_link w /\ defined w' = defined w)
    (number_ref m) rs) with (s := w); [|done..]. intros w1 i w2 _ (H1 & H2 & H3) E1.
  destruct (number_ref_ok _ _ _ E1 H1) as (K1 & K2 & K3). split_and!; [done | congruence..].
Qed.

Lemma number_ok l w : number m l = Ok w -> numbers_ok w [] /\ grows l (w_link w) /\
  forall i, i ∈ l_Text l ++ l_Data l -> i ∈ defined w.
Proof.
  unfold number. intros E. ok_step E t. destruct t as [ds l1]. cbn beta iota in E. ok_step E w1. ok_step E t0. destruct t0 as [rs l2]. cbn beta iota in E.
  pose proof (traverse_defs _ _ _ _ (eq_refl : has (Z.lor travDefs travPcdata) travDefs = true) Et) as Hds.
  destruct (number_defs_ok _ _ _ Ew1 eq_refl) as (Hok & Hr & Hl & Hdef).
  { intros i p x. cbn. by rewrite lookup_empty. }
  pose proof (traverse_grows _ _ _ _ Et0) as Hg2.
  destruct (number_refs_ok _ _ _ E) as (Hok2 & Hl2 & Hd2).
  { eapply numbers_mono; [exact Hok | by split | done]. }
  split_and!; [done | |].
  - rewrite Hl2. cbn. etrans; [by eapply traverse_grows|]. rewrite Hl in Hg2. exact Hg2.
  - intros i Hi. rewrite Hd2. apply Hdef. left. by apply Hds.
Qed.

(** ** FuncInfo symbols *)

Lemma number_self_ok w out a : numbers_ok w out ->
  let '(w', out') := number_self m (w, out) a in
  numbers_ok w' out' /\ w_link w' = w_link w /\ defined w' = defined w /\ w_defs w' = w_defs w /\ w_nonpkgrefs w' = w_nonpkgrefs w.
Proof.
  intros Hok. cbn [number_self]. split_and!; [|done..].
  eapply (numbers_insert _ out _ (out ++ [a]) a _ (length (w_defs w) + length out)); [exact Hok | | |].
  - split; cbn; try done. rewrite app_assoc. by apply prefix_app_r.
  - cbn. do 3 f_equal. unfold zlen. lia.
  - constructor. cbn. rewrite app_assoc, <-length_app. apply last_lookup.
Qed.

Lemma number_selfs_ok xs : forall w out, numbers_ok w out ->
  let '(w', out') := foldl (number_self m) (w, out) xs in
  numbers_ok w' out' /\ w_link w' = w_link w /\ defined w' = defined w.
Proof.
  induction xs as [|a xs IH]; intros w out Hok; [done|]. cbn [foldl]. pose proof (number_self_ok w out a Hok) as H.
  destruct (number_self m (w, out) a) as [w1 out1]. destruct H as (H1 & H2 & H3 & _).
  specialize (IH w1 out1 H1). destruct (foldl (number_self m) (w1, out1) xs) as [w2 out2]. destruct IH as (K1 & K2 & K3).
  split_and!; [done | congruence..].
Qed.

Lemma func_info_sym_ok w out i w' out' : func_info_sym m (w, out) i = Ok (w', out') -> numbers_ok w out ->
  numbers_ok w' out' /\ grows (w_link w) (w_link w') /\ defined w' = defined w.
Proof.
  unfold func_info_sym. intros E Hok. ok_step E s. ok_step E f. ok_step E b.
  destruct (alloc (info_sym b) (w_link w)) as [a l] eqn:Ea. apply grows_alloc in Ea as [Hg _].
  apply (f_equal (fun r => match r with Ok x => x | Fail _ => (w', out') end)) in E. set (w1 := mkW _ _ _ _ _ _ _ _) in E.
  assert (numbers_ok w1 out) as Hok1 by (eapply numbers_mono; [exact Hok | by split; unfold w1 | done]).
  pose proof (number_selfs_ok (a :: dwarf_syms l f) w1 out Hok1) as H.
  cbn beta iota in E. rewrite E in H. destruct H as (H1 & H2 & H3). split_and!; [done | by rewrite H2 | done].
Qed.

Lemma funcInfoSyms_ok w w' : funcInfoSyms m w = Ok w' -> numbers_ok w [] ->
  numbers_ok w' [] /\ grows (w_link w) (w_link w') /\ forall i, i ∈ defined w -> i ∈ defined w'.
Proof.
  unfold funcInfoSyms. intros E Hok. ok_step E t. destruct t as [w1 out]. cbn beta iota in E. injection E as <-.
  assert (numbers_ok w1 out /\ grows (w_link w) (w_link w1) /\ defined w1 = defined w) as (H1 & H2 & H3).
  { change (let '(w1, out) := (w1, out) in numbers_ok w1 out /\ grows (w_link w) (w_link w1) /\ defined w1 = defined w).
    eapply (rfold_ind (fun '(w1, out) => numbers_ok w1 out /\ grows (w_link w) (w_link w1) /\ defined w1 = defined w)
      (func_info_sym m)); [| |exact Et]; [|done].
    intros [a o] i [a' o'] _ (K1 & K2 & K3) Ei. destruct (func_info_sym_ok _ _ _ _ _ Ei K1) as (J1 & J2 & J3).
    split_and!; [done | by etrans | congruence]. }
  split_and!; [| done |].
  - intros i p x Hi. destruct (H1 i p x Hi) as (k & Hx & Hp). exists k. split; [done|].
    eapply points_mono; [|exact Hp]. split; cbn; try done. by rewrite app_nil_r.
  - intros i. rewrite <-H3. unfold defined. cbn. set_solver.
Qed.

(** The whole numbering: every index points at its symbol, every TEXT and data
    symbol is defined, and the symbols of the object are unchanged. *)
Lemma numbered_ok l w vs : numbered m l = Ok (w, vs) ->
  numbers_ok w [] /\ grows l (w_link w) /\ forall i, i ∈ l_Text l ++ l_Data l -> i ∈ defined w.
Proof.
  unfold numbered. intros E. ok_step E w1. ok_step E w2. ok_step E t. destruct t as [vs' l3]. cbn beta iota in E. injection E as <- <-.
  destruct (number_ok _ _ Ew1) as (H1 & H2 & H3). destruct (funcInfoSyms_ok _ _ Ew2 H1) as (K1 & K2 & K3).
  pose proof (traverse_grows _ _ _ _ Et) as Hg. split_and!.
  - eapply numbers_mono; [exact K1 | by split | done].
  - cbn. by do 2 (etrans; [eassumption|]).
  - intros i Hi. by apply K3, H3.
Qed.

(** ** Definitions *)

(** [dpoints w out i p k]: as [points], but the entry is one of a defined symbol. *)
Inductive dpoints (w : wstate) (out : list sid) (i : sid) : Z -> nat -> Prop :=
| dpoints_self k : (w_defs w ++ out) !! k = Some i -> dpoints w out i (pk m "Self") k
| dpoints_hashed64 k : w_hashed64 w !! k = Some i -> dpoints w out i (pk m "Hashed64") k
| dpoints_hashed k : w_hashed w !! k = Some i -> dpoints w out i (pk m "Hashed") k
| dpoints_none k : w_nonpkgdefs w !! k = Some i -> dpoints w out i (pk m "None") k.

Definition defs_ok (D : list sid) (w : wstate) (out : list sid) : Prop :=
  forall i, i ∈ D -> exists p k, w_num w !! i = Some (p, s32 (Z.of_nat k)) /\ dpoints w out i p k.

(** The lists of definitions only grow. *)
Definition dle (w : wstate) (out : list sid) (w' : wstate) (out' : list sid) : Prop :=
  (w_defs w ++ out) `prefix_of` (w_defs w' ++ out') /\ w_hashed64 w `prefix_of` w_hashed64 w' /\
  w_hashed w `prefix_of` w_hashed w' /\ w_nonpkgdefs w `prefix_of` w_nonpkgdefs w'.

Lemma dpoints_mono w out w' out' i p k : dle w out w' out' -> dpoints w out i p k -> dpoints w' out' i p k.
Proof. intros (H1 & H2 & H3 & H4) [j H|j H|j H|j H]; constructor; by eapply prefix_lookup_Some. Qed.

(** Indices are kept, or replaced by one of a definition. *)
Lemma defs_step D w out w' out' : defs_ok D w out -> dle w out w' out' ->
  (forall i, i ∈ D -> w_num w' !! i = w_num w !! i \/ exists p k, w_num w' !! i = Some (p, s32 (Z.of_nat k)) /\ dpoints w' out' i p k) ->
  defs_ok D w' out'.
Proof.
  intros HD Hle Hn i Hi. destruct (Hn i Hi) as [E|H]; [|done]. destruct (HD i Hi) as (p & k & Hp & Hk). exists p, k.
  split; [by rewrite E | by eapply dpoints_mono].
Qed.

Lemma number_def_defs D w i w' : number_def m w i = Ok w' -> defs_ok D w [] -> defs_ok (i :: D) w' [].
Proof.
  unfold number_def. intros E HD. ok_step E s. destruct w as [l num fi defs h64 h nd nr].
  assert (forall A (x : list A) y, x `prefix_of` x ++ y) as Hpre by (intros; by apply prefix_app_r).
  assert (forall w1 p k, w_num w1 = <[i := (p, s32 (Z.of_nat k))]> num -> dpoints w1 [] i p k -> dle (mkW l num fi defs h64 h nd nr) [] w1 [] ->
    defs_ok (i :: D) w1 []) as Hins.
  { intros w1 p k Hn Hp Hle j Hj. destruct (decide (j = i)) as [->|Hne]; [exists p, k; by rewrite Hn, lookup_insert_eq|].
    apply elem_of_cons in Hj as [?|Hj]; [done|]. revert j Hj Hne. 
    intros j Hj Hne. destruct (HD j Hj) as (q & k' & Hq & Hk). exists q, k'. rewrite Hn, lookup_insert_ne by done.
    split; [done | by eapply dpoints_mono]. }
  destruct (s_ContentAddressable s).
  - ok_step E sec. destruct (_ && _ && _); injection E as <-.
    + apply (Hins _ (pk m "Hashed64") (length h64)); [done | apply dpoints_hashed64, last_lookup | unfold dle; split_and!; cbn; auto].
    + apply (Hins _ (pk m "Hashed") (length h)); [done | apply dpoints_hashed, last_lookup | unfold dle; split_and!; cbn; auto].
  - destruct (negb (s_Static s)); injection E as <-.
    + apply (Hins _ (pk m "None") (length nd)); [done | apply dpoints_none, last_lookup | unfold dle; split_and!; cbn; auto].
    + apply (Hins _ (pk m "Self") (length defs)); [done | apply dpoints_self; cbn; rewrite app_nil_r; apply last_lookup |].
      unfold dle; split_and!; cbn; rewrite ?app_nil_r; auto.
Qed.

Lemma number_defs_defs ds : forall D w w', rfold (number_def m) w ds = Ok w' -> defs_ok D w [] -> defs_ok (ds ++ D) w' [].
Proof.
  induction ds as [|i ds IH]; intros D w w' E HD; cbn [rfold] in E; [by injection E as <-|]. ok_step E w1.
  pose proof (IH _ _ _ E (number_def_defs _ _ _ _ Ew1 HD)) as H. intros j Hj. apply H. set_solver.
Qed.

Lemma number_ref_defs D w i w' : number_ref m w i = Ok w' -> defs_ok D w [] -> defs_ok D w' [].
Proof.
  unfold number_ref. intros E HD. ok_step E s. destruct w as [l num fi defs h64 h nd nr].
  destruct (num !! i) as [z|] eqn:Ei; [by injection E as <-|].
  assert (forall w1 z, w_num w1 = <[i := z]> num -> dle (mkW l num fi defs h64 h nd nr) [] w1 [] -> defs_ok D w1 []) as Hins.
  { intros w1 z Hn Hle. eapply defs_step; [exact HD | exact Hle|]. intros j Hj. left. rewrite Hn. apply lookup_insert_ne. intros <-.
    destruct (HD i Hj) as (p & k & Hp & _). cbn in Hp. by rewrite Ei in Hp. }
  destruct (0 <=? _); [injection E as <-; by eapply Hins|]. destruct (s_ContentAddressable s); [done|]. injection E as <-. by eapply Hins.
Qed.

Lemma number_self_defs D w out a : defs_ok D w out -> let '(w', out') := number_self m (w, out) a in defs_ok D w' out'.
Proof.
  intros HD. cbn [number_self]. eapply defs_step; [exact HD | |].
  - split_and!; cbn; try done. rewrite app_assoc. by apply prefix_app_r.
  - intros j Hj. cbn [w_num]. destruct (decide (a = j)) as [->|]; [right | left; by apply lookup_insert_ne].
    exists (pk m "Self"), (length (w_defs w ++ out)). rewrite lookup_insert_eq. split; [do 2 f_equal; unfold zlen; by rewrite length_app, Nat2Z.inj_add|].
    constructor. cbn. rewrite app_assoc. apply last_lookup.
Qed.

Lemma number_selfs_defs D xs : forall w out, defs_ok D w out -> let '(w', out') := foldl (number_self m) (w, out) xs in defs_ok D w' out'.
Proof.
  induction xs as [|a xs IH]; intros w out HD; [done|]. cbn [foldl]. pose proof (number_self_defs D w out a HD) as H.
  destruct (number_self m (w, out) a) as [w1 out1]. by apply IH.
Qed.

Lemma func_info_sym_defs D w out i w' out' : func_info_sym m (w, out) i = Ok (w', out') -> defs_ok D w out -> defs_ok D w' out'.
Proof.
  unfold func_info_sym. intros E HD. ok_step E s. ok_step E f. ok_step E b. destruct (alloc (info_sym b) (w_link w)) as [a l].
  apply (f_equal (fun r => match r with Ok x => x | Fail _ => (w', out') end)) in E. set (w1 := mkW _ _ _ _ _ _ _ _) in E.
  assert (defs_ok D w1 out) as HD1 by (eapply defs_step; [exact HD | unfold dle; split_and!; done | by left]).
  pose proof (number_selfs_defs D (a :: dwarf_syms l f) w1 out HD1) as H. cbn beta iota in E. by rewrite E in H.
Qed.

Lemma traverse_pcdata flag l vs l' i s f : has flag travPcdata = true -> traverse m flag l = Ok (vs, l') ->
  i ∈ l_Text l -> l_syms l !! i = Some s -> is_text s = true -> s_Func s = Some f -> forall j, j ∈ pcdata_syms f -> j ∈ vs.
Proof.
  unfold traverse. intros Hd E Hi Hs Ht Hf j Hj. apply list_elem_of_split in Hi as (l1 & l2 & El). rewrite El, <-app_assoc, rfold_app in E.
  ok_step E s1. cbn [app rfold] in E. ok_step E s2. apply rfold_visits in Es1 as [G1 _]; [|by intros ? ? ? [? _]%visit_ok]. cbn [snd] in G1.
  assert (j ∈ fst s2) as Hj2.
  { unfold visit in Es2. destruct s1 as [acc l3]. cbn [snd] in G1. apply (gr_syms _ _ G1) in Hs. unfold sym_at in Es2. rewrite Hs in Es2.
    cbn [mbind res_bind] in Es2. ok_step Es2 a. destruct a as [aux l4]. rewrite Hd, Ht in Es2. unfold func_of in Es2. rewrite Hf in Es2.
    cbn [andb mbind res_bind] in Es2. injection Es2 as <-. cbn [fst]. rewrite !elem_of_app. by right; right; right; right. }
  apply rfold_visits in E as [_ [k Hk]]; [|by intros ? ? ? [? _]%visit_ok]. cbn [fst] in Hk. rewrite Hk. set_solver.
Qed.

(** Every TEXT and data symbol, and every pc-value table of a TEXT symbol, has the
    index of a definition. *)
Lemma numbered_defs l w vs : numbered m l = Ok (w, vs) -> exists D, defs_ok D w [] /\ (forall i, i ∈ l_Text l ++ l_Data l -> i ∈ D) /\
  forall i s f j, i ∈ l_Text l -> l_syms l !! i = Some s -> is_text s = true -> s_Func s = Some f -> j ∈ pcdata_syms f -> j ∈ D.
Proof.
  unfold numbered. intros E. ok_step E w1. ok_step E w2. ok_step E t. destruct t as [vs' l3]. cbn beta iota in E. injection E as <- <-.
  unfold number in Ew1. ok_step Ew1 t. destruct t as [ds l1]. cbn beta iota in Ew1. ok_step Ew1 w0. ok_step Ew1 t0. destruct t0 as [rs l2].
  cbn beta iota in Ew1. exists ds.
  assert (defs_ok ds w0 []) as H0 by (rewrite <-(app_nil_r ds); eapply number_defs_defs; [exact Ew0|]; by intros i []%not_elem_of_nil).
  assert (defs_ok ds w1 []) as H1.
  { refine (rfold_ind (fun w => defs_ok ds w []) _ _ _ _ _ _ Ew1); [|eapply defs_step; [exact H0 | unfold dle; split_and!; done | by left]]. intros a x b _ Ha Ex. by eapply number_ref_defs. }
  assert (defs_ok ds w2 []) as H2.
  { unfold funcInfoSyms in Ew2. ok_step Ew2 t. destruct t as [w3 out]. cbn beta iota in Ew2. injection Ew2 as <-.
    assert (defs_ok ds w3 out) as H3.
    { change (let '(w3, out) := (w3, out) in defs_ok ds w3 out).
      eapply (rfold_ind (fun '(w3, out) => defs_ok ds w3 out) (func_info_sym m)); [| |exact Et2]; [|done].
      intros [a o] i [a' o'] _ Ha Ei. by eapply func_info_sym_defs. }
    intros i Hi. destruct (H3 i Hi) as (p & k & Hp & Hk). exists p, k. split; [done|]. eapply dpoints_mono; [|exact Hk].
    split_and!; cbn; try done. by rewrite app_nil_r. }
  split_and!; [eapply defs_step; [exact H2 | unfold dle; split_and!; done | by left] | |].
  - exact (traverse_defs _ _ _ _ (eq_refl : has (Z.lor travDefs travPcdata) travDefs = true) Et0).
  - intros i s f j Hi Hs Ht Hf Hj. exact (traverse_pcdata _ _ _ _ _ _ _ (eq_refl : has (Z.lor travDefs travPcdata) travPcdata = true) Et0 Hi Hs Ht Hf _ Hj).
Qed.
End Number.
