(* ===== verification/Convert.v ===== *)
(** * From a [.gocobj] to a Go object: names, addresses and relocations

    Models src/internal/convert/convert.go, relocmap.go, arm64.go and the text
    relocation loop of write.go: which Go symbol and offset an ELF relocation
    refers to, and the Go relocation it becomes.  A [converter] is the part of the
    struct that is fixed once it is made; the object under construction is a
    [Link] passed through.  Errors are strings; [fatalf] is an error too, since it
    ends the conversion. *)

From Stdlib Require Import ZArith Lia Ascii.
From stdpp Require Import base list strings gmap sorting.
From S2P Require Import Prelude Text Codec Format Elf Layout Link.

(** ** Relocation types (relocmap.go) *)

Record sizedReloc := mkSized { sz_Type : string; sz_Siz : Z }.

(** A map with few keys, as the composite literal lists it. *)
Definition alookup {A} (k : Z) (m : list (Z * A)) : option A :=
  match list_find (fun p : Z * A => fst p = k) m with Some (_, (_, x)) => Some x | None => None end.

Definition X86Text : list (Z * string) :=
  [(R_X86_64_PC32, "R_PCREL"); (R_X86_64_PLT32, "R_PCREL"); (R_X86_64_32, "R_ADDR"); (R_X86_64_32S, "R_ADDR")].
Definition X86Call : string := "R_CALL".
Definition X86Data : list (Z * sizedReloc) :=
  [(R_X86_64_64, mkSized "R_ADDR" 8); (R_X86_64_32, mkSized "R_ADDR" 4); (R_X86_64_32S, mkSized "R_ADDR" 4);
   (R_X86_64_PC32, mkSized "R_PCREL" 4); (R_X86_64_PLT32, mkSized "R_PCREL" 4)].
Definition A64Call : string := "R_CALLARM64".
Definition A64Page : string := "R_ARM64_PCREL".
Definition A64PagePair : list (Z * string) :=
  [(R_AARCH64_ADD_ABS_LO12_NC, "R_ADDRARM64"); (R_AARCH64_LDST8_ABS_LO12_NC, "R_ARM64_PCREL_LDST8");
   (R_AARCH64_LDST16_ABS_LO12_NC, "R_ARM64_PCREL_LDST16"); (R_AARCH64_LDST32_ABS_LO12_NC, "R_ARM64_PCREL_LDST32");
   (R_AARCH64_LDST64_ABS_LO12_NC, "R_ARM64_PCREL_LDST64")].
Definition A64Lo12 : list (Z * string) :=
  [(R_AARCH64_ADD_ABS_LO12_NC, "R_ARM64_PCREL"); (R_AARCH64_LDST8_ABS_LO12_NC, "R_ARM64_LDST8");
   (R_AARCH64_LDST16_ABS_LO12_NC, "R_ARM64_LDST16"); (R_AARCH64_LDST32_ABS_LO12_NC, "R_ARM64_LDST32");
   (R_AARCH64_LDST64_ABS_LO12_NC, "R_ARM64_LDST64"); (R_AARCH64_LDST128_ABS_LO12_NC, "R_ARM64_LDST128")].
Definition A64GOTPair : string := "R_ARM64_GOTPCREL".
Definition A64Data : list (Z * sizedReloc) :=
  [(R_AARCH64_ABS64, mkSized "R_ADDR" 8); (R_AARCH64_ABS32, mkSized "R_ADDR" 4)].

(** The facts of a release that [profileFor] reads. *)
Record archFacts := mkFacts {
  af_PtrSize : Z; af_GReg : string; af_Morestack : string; af_IntArgs : list string; af_FloatArgs : list string;
  af_StackCopyAdjustsFP : bool; af_stackguard0 : Z; af_StackSmall : Z; af_StackBig : Z }.

(** [r[0]]; indexing the empty string would panic. *)
Definition int_reg (goarch r : string) : res string string :=
  match r with
  | EmptyString => if String.eqb goarch "amd64" then Fail "index out of range" else Ok r
  | String c _ => Ok (if String.eqb goarch "amd64" && negb (Ascii.eqb c "R"%char) then "R" +:+ r else r)
  end.

Fixpoint int_regs (goarch : string) (l : list string) : res string (list string) :=
  match l with
  | [] => Ok []
  | r :: l => r ← int_reg goarch r; rs ← int_regs goarch l; Ok (r :: rs)
  end.

(** The loop over [gocobj.Profiles()]; [None] is the zero [best]. *)
Definition better (got : Profile) (best : option Profile) (p : Profile) : option Profile :=
  if SameFacts p got &&
     match best with
     | None => true
     | Some b => HasPrefix (p_Name p) "goabi" && negb (HasPrefix (p_Name b) "goabi")
     end
  then Some p else best.

(** The last message goes on with a dump of the facts, left out here. *)
Definition profileFor (go : string) (facts : option archFacts) (goarch : string) : res string Profile :=
  match facts with
  | None => Fail (go +:+ ": no facts for GOARCH=" +:+ goarch)
  | Some a =>
      if negb (af_StackCopyAdjustsFP a) then 
        Fail ("goc does not support GOARCH=" +:+ goarch +:+ " with " +:+ go +:+
              ": its runtime does not adjust saved frame pointers when it copies a stack (runtime.adjustframe), and goc's code addresses locals from the frame pointer (docs/design/go-versions.md)")
      else
        ir ← int_regs goarch (af_IntArgs a);
        let got := mkProfile "" goarch (af_PtrSize a) (af_GReg a) (af_stackguard0 a) (af_StackSmall a)
                     (af_StackBig a) (af_Morestack a) ir (af_FloatArgs a) in
        match foldl (better got) None profiles with
        | Some p => Ok p
        | None => Fail (go +:+ " " +:+ goarch +:+ " has ABI facts no goc profile states")
        end
  end.

(** ** The converter (convert.go) *)

Record rela := mkRela { re_Off : Z; re_Type : Z; re_Sym : Z; re_Add : Z }.

(** [cf_sym] is set when the object is made, before anything reads it. *)
Record fn := mkFn {
  cf_tab : Func; cf_sec : Z; cf_off : Z; cf_name : string; cf_sym : sid; cf_abi : Z }.

Record converter := mkConv {
  cv_pkg : string; cv_tu : string; cv_arm64 : bool; cv_libcallImpl : gset string;
  cv_ef : efile; cv_syms : list esymbol; cv_fns : list fn; cv_bySec : gmap Z (list fn);
  cv_abiByGoSym : gmap string Z; cv_goName : gmap string string;
  cv_dataSym : gmap Z sid; cv_secSym : gmap Z sid }.

(** [path.Base] of a non-empty path. *)
Fixpoint drop_slashes (l : list ascii) : list ascii :=
  match l with c :: l' => if Ascii.eqb c "/"%char then drop_slashes l' else l | [] => [] end.
Fixpoint until_slash (l : list ascii) : list ascii :=
  match l with c :: l' => if Ascii.eqb c "/"%char then [] else c :: until_slash l' | [] => [] end.

Definition base (s : string) : string :=
  match drop_slashes (reverse (String.list_ascii_of_string s)) with
  | [] => if String.eqb s "" then "." else "/"
  | r => String.string_of_list_ascii (reverse (until_slash r))
  end.

Definition is_word (c : ascii) : bool :=
  let n := byte_of_ascii c in
  ((65 <=? n) && (n <=? 90)) || ((97 <=? n) && (n <=? 122)) || ((48 <=? n) && (n <=? 57)) || (n =? 95).

Fixpoint map_string (f : ascii -> ascii) (s : string) : string :=
  match s with String c s => String (f c) (map_string f s) | EmptyString => "" end.

(** [tuTag]: every character outside the word class becomes '_'; the suffix
    expression then needs a '.' and never matches what is left.  File names are
    ASCII (the expression replaces a character, not a byte). *)
Definition tuTag (f : File) : string :=
  match f_Files f with
  | [] => "tu"
  | s :: _ =>
      if String.eqb s "" then "tu"
      else map_string (fun c => if is_word c then c else "_"%char) (base s)
  end.

Definition libcallSet (names : string) : gset string :=
  if negb (String.eqb names "") then list_to_set (Fields names)
  else list_to_set ["memcpy"; "memmove"; "memset"; "memcmp"; "bcmp"; "strlen"; "strcpy"; "strcmp"; "vsnprintf"; "snprintf"].

(** The map [elfFn]: the last function symbol of a name. *)
Definition elf_fns (ef : efile) (syms : list esymbol) : gmap string esymbol :=
  foldl (fun m y => if (ST_TYPE (ey_info y) =? STT_FUNC) && sym_defined ef y then <[ey_name y := y]> m else m) ∅ syms.

(** The Go name and calling convention of a function record. *)
Definition go_name (pkg tu : string) (t : Func) : string :=
  if (fn_Kind t =? 0) && negb (Z.land (fn_Flags t) FuncInternal =? 0) then pkg +:+ "." +:+ tu +:+ "." +:+ fn_Name t
  else pkg +:+ "." +:+ fn_Name t.

Definition go_abi (t : Func) : Z := if (fn_Kind t =? 0) && (fn_ABI t =? 0) then ABI0 else ABIInternal.

Record tables := mkTables {
  ct_fns : list fn; ct_bySec : gmap Z (list fn); ct_abi : gmap string Z; ct_goName : gmap string string }.

Definition add_fn (pkg tu : string) (elfFn : gmap string esymbol) (s : tables) (t : Func) : res string tables :=
  match elfFn !! fn_Name t with
  | None => Fail (fn_Name t +:+ ": no ELF function symbol")
  | Some y =>
      if ey_size y <? fn_TextSize t
      then Fail (fn_Name t +:+ ": table size " +:+ dec (fn_TextSize t) +:+ " exceeds ELF size " +:+ dec (ey_size y))
      else
        let x := mkFn t (ey_section y) (ey_value y) (fn_Name t) 0 (go_abi t) in
        let gn := go_name pkg tu t in
        Ok (mkTables (ct_fns s ++ [x])
              (<[cf_sec x := default [] (ct_bySec s !! cf_sec x) ++ [x]]> (ct_bySec s))
              (<[gn := cf_abi x]> (ct_abi s)) (<[fn_Name t := gn]> (ct_goName s)))
  end.

Fixpoint add_fns (pkg tu : string) (elfFn : gmap string esymbol) (s : tables) (l : list Func) : res string tables :=
  match l with [] => Ok s | t :: l => s ← add_fn pkg tu elfFn s t; add_fns pkg tu elfFn s l end.

Definition fn_le (a b : fn) : Prop := cf_off a <= cf_off b.
#[export] Instance fn_le_dec a b : Decision (fn_le a b) := decide (cf_off a <= cf_off b).

(** [newConverter]; the messages for a wrong machine and for the errors of debug/elf
    are shortened. *)
Definition newConverter (p : string) (f : File) (pkg goarch libcalls : string) (ef : efile) : res string converter :=
  let want := if String.eqb goarch "amd64" then EM_X86_64 else if String.eqb goarch "arm64" then EM_AARCH64 else 0 in
  if want =? 0 then Fail ("GOARCH=" +:+ goarch +:+ ": only amd64 and arm64 objects are converted")
  else if negb (ef_machine ef =? want) then Fail (p +:+ ": ELF machine for GOARCH=" +:+ goarch)
  else
    match ef_symbols ef with
    | SymNone | SymErr => Fail "no symbol section"
    | SymOk syms =>
        let tu := tuTag f in
        s ← add_fns pkg tu (elf_fns ef syms) (mkTables [] ∅ ∅ ∅) (f_Funcs f);
        Ok (mkConv pkg tu (String.eqb goarch "arm64") (libcallSet libcalls) ef syms (ct_fns s)
              (merge_sort fn_le <$> ct_bySec s) (ct_abi s) (ct_goName s) ∅ ∅)
    end.

Definition symabis (c : converter) : string :=
  foldr (fun x s => "def " +:+ default "" (cv_goName c !! cf_name x) +:+ " " +:+
                    (if cf_abi x =? ABI0 then "ABI0" else "ABIInternal") +:+ String "010"%char "" +:+ s) "" (cv_fns c).

(** [relas]: the section exists, as the callers' indices do. *)
Definition relas (c : converter) (sec : Z) : res string (list rela) :=
  match elf_section_at (cv_ef c) sec with
  | None => Fail "index out of range"
  | Some sc =>
      match elf_section (cv_ef c) (".rela" +:+ es_name sc) with
      | None => Ok []
      | Some rs =>
          match es_data rs with
          | None => Fail "section data"
          | Some d => Ok ((fun '(off, info, add) => mkRela off (u32 info) (u32 (Z.shiftr info 32)) add) <$> rela_entries d)
          end
      end
  end.

Definition isText (c : converter) (sec : Z) : bool :=
  (0 <? sec) && (sec <? zlen (ef_sections (cv_ef c))) &&
  match elf_section_at (cv_ef c) sec with
  | Some s => negb (Z.land (es_flags s) SHF_EXECINSTR =? 0)
  | None => false
  end.

(** ** Addresses *)

Definition TrimPrefix (s p : string) : string := default s (cut_prefix p s).

Definition TrimSuffix (s p : string) : string :=
  if HasSuffix s p then String.substring 0 (String.length s - String.length p) s else s.

Lemma substring_all s : String.substring 0 (String.length s) s = s.
Proof. induction s as [|c s IH]; [done|]. cbn. by rewrite IH. Qed.

Lemma substring_cut s : forall n, (n <= String.length s)%nat -> s = String.substring 0 n s +:+ String.substring n (String.length s - n) s.
Proof.
  induction s as [|c s IH]; intros n Hn; [by destruct n|]. destruct n as [|n]; [by rewrite Nat.sub_0_r, substring_all|].
  cbn [String.length] in *. change (String c s = String c (String.substring 0 n s +:+ String.substring n (String.length s - n) s)). f_equal. apply IH. lia.
Qed.

Lemma TrimSuffix_app s p : HasSuffix s p = true -> s = TrimSuffix s p +:+ p.
Proof.
  intros H. unfold TrimSuffix. rewrite H. unfold HasSuffix in H. apply andb_true_iff in H as [Hl%Nat.leb_le He%String.eqb_eq].
  rewrite (substring_cut s (String.length s - String.length p)) at 1 by lia. f_equal.
  replace (String.length s - (String.length s - String.length p))%nat with (String.length p) by lia. exact He.
Qed.

Lemma HasSuffix_app x p : HasSuffix (x +:+ p) p = true.
Proof.
  unfold HasSuffix. rewrite string_length_app, (proj2 (Nat.leb_le _ _)) by lia. apply String.eqb_eq.
  replace (String.length x + String.length p - String.length p)%nat with (String.length x) by lia. induction x as [|c x IH]; [apply substring_all | exact IH].
Qed.

Lemma TrimSuffix_of x p : TrimSuffix (x +:+ p) p = x.
Proof. pose proof (TrimSuffix_app _ _ (HasSuffix_app x p)) as E. by apply app_same_suffix in E as [E _]. Qed.

(** The name of the symbol a function has. *)
Definition sym_name (l : Link) (i : sid) : string := match l_syms l !! i with Some s => s_Name s | None => "" end.

(** [addr >= x.off && addr < x.off+x.tab.TextSize] *)
Definition covers (addr : Z) (x : fn) : bool := (cf_off x <=? addr) && (addr <? u64 (cf_off x + fn_TextSize (cf_tab x))).

(** A C reference to the start of a libcall's Go thunk means the C body. *)
Definition libcall_body (c : converter) (l : Link) (x : fn) (addr : Z) : option string :=
  let name := sym_name l (cf_sym x) in
  if (addr =? cf_off x) && HasPrefix name (cv_pkg c +:+ ".") then
    let b := TrimPrefix name (cv_pkg c +:+ ".") in
    let impl := cv_pkg c +:+ "." +:+ b +:+ ".impl" in
    if bool_decide (b ∈ cv_libcallImpl c) && bool_decide (cv_abiByGoSym c !! impl = Some ABI0) then Some impl else None
  else None.

Definition resolveText (c : converter) (sec addr : Z) (l : Link) : (option sid * Z) * Link :=
  let fns := default [] (cv_bySec c !! sec) in
  match snd <$> list_find (fun x => covers addr x = true) fns with
  | Some x =>
      match libcall_body c l x addr with
      | Some impl => let '(i, l) := LookupABI impl ABI0 l in ((Some i, 0), l)
      | None => ((Some (cf_sym x), s64 (addr - cf_off x)), l)
      end
  | None =>
      match snd <$> list_find (fun x => addr < cf_off x) fns with
      | Some x => ((Some (cf_sym x), s64 (- s64 (cf_off x - addr))), l)
      | None => ((None, 0), l)
      end
  end.

(** Whether a name has a dot. *)
Fixpoint has_dot (s : string) : bool :=
  match s with String c s => Ascii.eqb c "."%char || has_dot s | EmptyString => false end.

Definition resolveCName (c : converter) (name : string) : st Link sid :=
  let name := TrimSuffix name "@plt" in
  if HasSuffix name ".goabi" then LookupABI (TrimSuffix name ".goabi") ABIInternal
  else if bool_decide (name ∈ cv_libcallImpl c) then LookupABI (cv_pkg c +:+ "." +:+ name +:+ ".impl") ABI0
  else
    let name := default name (cv_goName c !! name) in
    match cv_abiByGoSym c !! name with
    | Some ab => LookupABI name ab
    | None =>
        if String.eqb name "llvm.trap" || String.eqb name "llvm.trap.impl" then Lookup "runtime.abort"
        else if String.eqb name "" || HasPrefix name (cv_pkg c +:+ ".") then Lookup name
        else
          let '(b, suffix) := if HasSuffix name ".impl" then (TrimSuffix name ".impl", ".impl") else (name, "") in
          if has_dot b then Lookup name
          else if String.eqb suffix ".impl" || bool_decide (b ∈ cv_libcallImpl c)
          then LookupABI (cv_pkg c +:+ "." +:+ b +:+ ".impl") ABI0
          else Lookup (cv_pkg c +:+ "." +:+ b +:+ suffix)
    end.

Definition pcRelELF (t : Z) : bool :=
  (t =? R_X86_64_PC32) || (t =? R_X86_64_PLT32) || (t =? R_X86_64_GOTPCREL) || (t =? R_X86_64_GOTPCRELX) ||
  (t =? R_X86_64_REX_GOTPCRELX).

(** The symbol (or nil), the offset from its start and the ELF name. *)
Definition resolveTarget (c : converter) (r : rela) (l : Link) : (option sid * Z * string) * Link :=
  let abs := if negb (cv_arm64 c) && pcRelELF (re_Type r) then s64 (re_Add r + 4) else re_Add r in
  match (if re_Sym r =? 0 then None else cv_syms c !! Z.to_nat (re_Sym r - 1)) with
  | None => ((None, 0, ""), l)
  | Some es =>
      let sec := ey_section es in
      if sec =? SHN_UNDEF then
        let '(i, l) := resolveCName c (ey_name es) l in ((Some i, abs, ey_name es), l)
      else if isText c sec then
        let addr := s64 (s64 (ey_value es) + abs) in
        if addr <? 0 then ((None, 0, ey_name es), l)
        else let '((i, delta), l) := resolveText c sec addr l in ((i, delta, ey_name es), l)
      else
        match cv_dataSym c !! (re_Sym r - 1) with
        | Some i => ((Some i, abs, ey_name es), l)
        | None =>
            match cv_secSym c !! sec with
            | Some i => ((Some i, s64 (s64 (ey_value es) + abs), ey_name es), l)
            | None => ((None, 0, ey_name es), l)
            end
        end
  end.

Definition sanitize (name : string) : string :=
  map_string (fun c => if is_word c || Ascii.eqb c "."%char || Ascii.eqb c "$"%char then c else "_"%char) name.

(** ** GOT slots *)

(** [gotSyms] and the object. *)
Record cstate := mkCst { cs_got : gmap string sid; cs_link : Link }.

Definition got_key (l : Link) (target : sid) (add : Z) : string := sym_name l target +:+ "+" +:+ dec add.

Definition gotSlot (c : converter) (target : sid) (add : Z) (s : cstate) : res string (sid * cstate) :=
  let key := got_key (cs_link s) target add in
  match cs_got s !! key with
  | Some i => Ok (i, s)
  | None =>
      let '(i, l) := Lookup ("goc.got." +:+ cv_tu c +:+ "." +:+ sanitize (sym_name (cs_link s) target)) (cs_link s) in
      l ← Globl i 8 NOPTR (modify i (set_kind "SDATA") l);
      let l := modify i (fun y => default y (WriteInt 0 8 0 y)) l in
      let l := modify i (AddRel (mkLReloc 0 8 "R_ADDR" add target)) l in
      Ok (i, mkCst (<[key := i]> (cs_got s)) l)
  end.

(** ** amd64 text relocations (write.go) *)

Definition isGOT (t : Z) : bool :=
  (t =? R_X86_64_GOTPCREL) || (t =? R_X86_64_GOTPCRELX) || (t =? R_X86_64_REX_GOTPCRELX).

(** [callAt]: the offsets the tables list as calls, by function. *)
Definition callAt (f : File) : gset (string * Z) :=
  foldl (fun m r => if r_Kind r =? RCall then {[ (r_Func r, r_Offset r) ]} ∪ m else m) ∅ (f_Relocs f).

Definition where_ (l : Link) (i : sid) (off : Z) : string := sym_name l i +:+ "+" +:+ hex off.

(** The relocation becomes one of the Go symbol of [x]. *)
Definition x86_reloc (c : converter) (calls : gset (string * Z)) (x : fn) (s : cstate) (r : rela) : res string cstate :=
  if (re_Off r <? cf_off x) || (u64 (cf_off x + fn_TextSize (cf_tab x)) <=? re_Off r) then Ok s
  else
    let off := re_Off r - cf_off x in
    let '((target, goAdd, ename), l) := resolveTarget c r (cs_link s) in
    let s := mkCst (cs_got s) l in
    match target with
    | None => Fail ("reloc at " +:+ where_ l (cf_sym x) off +:+ ": unresolved symbol " +:+ quote ename)
    | Some target =>
        '(target, goAdd, ty, s) ←
          (if isGOT (re_Type r) then '(i, s) ← gotSlot c target goAdd s; Ok (i, 0, R_X86_64_PC32, s)
           else Ok (target, goAdd, re_Type r, s));
        match alookup ty X86Text with
        | None => Fail ("unsupported text reloc type " +:+ dec (re_Type r) +:+ " in " +:+ sym_name l (cf_sym x) +:+ " at " +:+ hex off)
        | Some typ =>
            let call := ((ty =? R_X86_64_PLT32) || (ty =? R_X86_64_PC32)) && bool_decide ((cf_name x, off) ∈ calls) in
            if call && negb (goAdd =? 0) then Fail ("call at " +:+ where_ l (cf_sym x) off +:+ " has addend " +:+ dec goAdd)
            else if (re_Add r <? - 2 ^ 31) || (2 ^ 31 - 1 <? re_Add r)
            then Fail ("reloc at " +:+ where_ l (cf_sym x) off +:+ ": addend " +:+ dec (re_Add r) +:+ " out of range")
            else
              let rel := mkLReloc (s32 off) 4 (if call then X86Call else typ) goAdd target in
              Ok (mkCst (cs_got s) (modify (cf_sym x) (AddRel rel) (cs_link s)))
        end
    end.

Fixpoint x86_relocs (c : converter) (calls : gset (string * Z)) (x : fn) (s : cstate) (rs : list rela) : res string cstate :=
  match rs with [] => Ok s | r :: rs => s ← x86_reloc c calls x s r; x86_relocs c calls x s rs end.

(** ** arm64 text relocations (arm64.go) *)

Definition insnAt (b : list Z) (off : Z) : Z := le_value (take 4 (drop (Z.to_nat off) b)).
Definition putInsnAt (b : list Z) (off w : Z) : list Z := put_at b off (le_bytes 4 w).

Definition arm64PagePair (second : Z) : option string := alookup second A64PagePair.

Definition adrpMask : Z := 0x60FFFFE0.
Definition imm12Mask : Z := 0x003FFC00.

Definition arm64ClearPagePair (code : list Z) (off : Z) : list Z :=
  let code := putInsnAt code off (Z.ldiff (insnAt code off) adrpMask) in
  let w1 := Z.ldiff (insnAt code (off + 4)) imm12Mask in
  let w1 := if Z.shiftr w1 24 =? 0x91 then Z.ldiff w1 (Z.shiftl 1 22) else w1 in
  putInsnAt code (off + 4) w1.

(** Writes to the code of the symbol. *)
Definition set_code (i : sid) (f : list Z -> list Z) : Link -> Link :=
  modify i (fun s => set_data s (s_Kind s) (f (s_P s)) (s_Size s)).

Definition code_of (l : Link) (i : sid) : list Z := match l_syms l !! i with Some s => s_P s | None => [] end.

(** [arm64ClearPagePair(s.P, off)]: slicing past the end panics. *)
Definition clear_pair (i : sid) (off : Z) (l : Link) : res string Link :=
  if zlen (code_of l i) <? off + 8 then Fail "index out of range" else Ok (set_code i (fun p => arm64ClearPagePair p off) l).

Definition is_lo12 (t : Z) : bool :=
  (t =? R_AARCH64_ADD_ABS_LO12_NC) || (t =? R_AARCH64_LDST8_ABS_LO12_NC) || (t =? R_AARCH64_LDST16_ABS_LO12_NC) ||
  (t =? R_AARCH64_LDST32_ABS_LO12_NC) || (t =? R_AARCH64_LDST64_ABS_LO12_NC) || (t =? R_AARCH64_LDST128_ABS_LO12_NC).

(** The closure [pair]: the type of the pair at [off], when [next] completes it. *)
Definition a64_pair (want : Z -> option string) (r : rela) (next : option rela) (at_off : string) : res string string :=
  match next with
  | None => Fail (at_off +:+ ": ADRP without a low-12 relocation on the next instruction")
  | Some n =>
      match want (re_Type n) with
      | None => Fail (at_off +:+ ": ADRP followed by relocation type " +:+ dec (re_Type n))
      | Some typ =>
          if negb (re_Sym n =? re_Sym r) || negb (re_Add n =? re_Add r) then Fail (at_off +:+ ": ADRP pair targets differ")
          else Ok typ
      end
  end.

(** One relocation; [next] is the relocation of the next instruction.  The boolean
    tells that [next] was used up. *)
Definition a64_reloc (c : converter) (x : fn) (r : rela) (next : option rela) (l : Link) : res string (bool * Link) :=
  let i := cf_sym x in
  let off := re_Off r - cf_off x in
  if negb (Z.rem off 4 =? 0) || (zlen (code_of l i) <? off + 4)
  then Fail (where_ l i off +:+ ": relocation is not on a 4-byte instruction")
  else
    let '((target, add, ename), l) := resolveTarget c r l in
    match target with
    | None => Fail ("reloc at " +:+ where_ l i off +:+ ": unresolved symbol " +:+ quote ename)
    | Some target =>
        let rel siz typ add := AddRel (mkLReloc (s32 off) siz typ add target) in
        let t := re_Type r in
        if (t =? R_AARCH64_CALL26) || (t =? R_AARCH64_JUMP26) then
          if negb (add =? 0) then Fail ("call at " +:+ where_ l i off +:+ " has addend " +:+ dec add)
          else
            let l := set_code i (fun p => putInsnAt p off (Z.ldiff (insnAt p off) 0x03ffffff)) l in
            Ok (false, modify i (rel 4 A64Call 0) l)
        else if t =? R_AARCH64_ADR_PREL_PG_HI21 then
          let next := match next with
                      | Some n => match arm64PagePair (re_Type n) with Some _ => Some n | None => None end
                      | None => None
                      end in
          if match next with
             | None => true
             | Some n => negb (re_Sym n =? re_Sym r) || negb (re_Add n =? re_Add r)
             end
          then
            let l := set_code i (fun p => putInsnAt p off (Z.ldiff (insnAt p off) adrpMask)) l in
            Ok (false, modify i (rel 4 A64Page add) l)
          else
            typ ← a64_pair arm64PagePair r next (where_ l i off);
            l ← clear_pair i off l;
            Ok (true, modify i (rel 8 typ add) l)
        else if t =? R_AARCH64_ADR_GOT_PAGE then
          _ ← a64_pair (fun t => if t =? R_AARCH64_LD64_GOT_LO12_NC then Some A64GOTPair else None) r next (where_ l i off);
          l ← clear_pair i off l;
          Ok (true, modify i (rel 8 A64GOTPair add) l)
        else if is_lo12 t then
          let l := set_code i (fun p =>
            let w := Z.ldiff (insnAt p off) imm12Mask in
            putInsnAt p off (if t =? R_AARCH64_ADD_ABS_LO12_NC then Z.ldiff w (Z.shiftl 1 22) else w)) l in
          Ok (false, modify i (rel 4 (default "" (alookup t A64Lo12)) add) l)
        else if (t =? R_AARCH64_ABS64) || (t =? R_AARCH64_ABS32) then
          match alookup t A64Data with
          | Some d => Ok (false, modify i (rel (sz_Siz d) (sz_Type d) add) l)
          | None => Fail "unreachable"
          end
        else Fail ("unsupported arm64 text reloc type " +:+ dec t +:+ " in " +:+ sym_name l i +:+ " at " +:+ hex off)
    end.

Definition rela_le (a b : rela) : Prop := re_Off a <= re_Off b.
#[export] Instance rela_le_dec a b : Decision (rela_le a b) := decide (re_Off a <= re_Off b).

(** The loop over [mine]: a used relocation is the next one, and is skipped. *)
Fixpoint a64_loop (c : converter) (x : fn) (used : bool) (mine : list rela) (l : Link) : res string Link :=
  match mine with
  | [] => Ok l
  | r :: mine =>
      if used then a64_loop c x false mine l
      else
        let next := match mine with n :: _ => if re_Off n =? u64 (re_Off r + 4) then Some n else None | [] => None end in
        '(used, l) ← a64_reloc c x r next l;
        a64_loop c x used mine l
  end.

Definition arm64TextRelocs (c : converter) (x : fn) (rs : list rela) (l : Link) : res string Link :=
  let mine := filter (fun r => covers (re_Off r) x = true) rs in
  a64_loop c x false (merge_sort rela_le mine) l.

Definition arm64DataReloc (t : Z) : option sizedReloc := alookup t A64Data.

(** ** Instruction words *)

Lemma insnAt_same b off w : 0 <= off -> off + 4 <= zlen b -> insnAt (putInsnAt b off w) off = w mod 2 ^ 32.
Proof.
  intros H0 H4. unfold insnAt, putInsnAt, put_at, zlen in *.
  rewrite drop_app_ge by (rewrite length_take; lia). rewrite length_take, Nat.min_l by lia. rewrite Nat.sub_diag, drop_0.
  rewrite take_app_le by (rewrite length_le_bytes; lia). rewrite take_ge by (rewrite length_le_bytes; lia).
  apply (le_value_le_bytes 4).
Qed.

Lemma put_at_lookup p off b k : 0 <= off -> off + zlen b <= zlen p ->
  put_at p off b !! k = if decide (Z.to_nat off <= k < Z.to_nat off + length b)%nat then b !! (k - Z.to_nat off)%nat else p !! k.
Proof.
  unfold put_at, zlen. intros H0 H. destruct (decide (k < Z.to_nat off)%nat).
  { rewrite decide_False by lia. rewrite lookup_app_l by (rewrite length_take; lia). by rewrite lookup_take, decide_True. }
  rewrite lookup_app_r by (rewrite length_take; lia). rewrite length_take, Nat.min_l by lia.
  destruct (decide (k < Z.to_nat off + length b)%nat).
  - rewrite decide_True by lia. apply lookup_app_l. lia.
  - rewrite decide_False by lia. rewrite lookup_app_r by lia. rewrite lookup_drop. f_equal. lia.
Qed.

Lemma insnAt_ext b b' off : 0 <= off -> (forall k, (Z.to_nat off <= k < Z.to_nat off + 4)%nat -> b !! k = b' !! k) ->
  insnAt b off = insnAt b' off.
Proof.
  intros H0 H. unfold insnAt. f_equal. apply list_eq. intros k. rewrite !lookup_take.
  destruct (decide (k < 4)%nat); [|done]. rewrite !lookup_drop. apply H. lia.
Qed.

Lemma zlen_putInsnAt b off w : 0 <= off -> off + 4 <= zlen b -> zlen (putInsnAt b off w) = zlen b.
Proof. intros H0 H. apply length_put_at; [done|]. unfold zlen at 1. rewrite length_le_bytes. lia. Qed.

Lemma putInsnAt_lookup b off w k : 0 <= off -> off + 4 <= zlen b ->
  (k < Z.to_nat off \/ Z.to_nat off + 4 <= k)%nat -> putInsnAt b off w !! k = b !! k.
Proof.
  intros H0 H Hk. unfold putInsnAt. rewrite put_at_lookup; [| done | unfold zlen at 1; rewrite length_le_bytes; lia].
  rewrite length_le_bytes. by rewrite decide_False by lia.
Qed.

Lemma le_value_range l : Forall is_u8 l -> 0 <= le_value l < 2 ^ (8 * zlen l).
Proof.
  induction 1 as [|b l Hb _ IH]; [done|]. cbn [le_value]. rewrite zlen_cons.
  replace (8 * (1 + zlen l)) with (8 + 8 * zlen l) by lia. pose proof (zlen_nonneg l).
  rewrite Z.pow_add_r by lia. unfold is_u8 in Hb. change (2 ^ 8) with 256 in *. lia.
Qed.

Lemma insnAt_range b off : Forall is_u8 b -> 0 <= insnAt b off < 2 ^ 32.
Proof.
  intros Hb. unfold insnAt. assert (Forall is_u8 (take 4 (drop (Z.to_nat off) b))) as H by (by apply Forall_take, Forall_drop).
  pose proof (le_value_range _ H). assert (zlen (take 4 (drop (Z.to_nat off) b)) <= 4) by (unfold zlen; rewrite length_take; lia).
  assert (2 ^ (8 * zlen (take 4 (drop (Z.to_nat off) b))) <= 2 ^ 32) by (apply Z.pow_le_mono_r; lia). lia.
Qed.

Lemma ldiff_range w m n : 0 <= n -> 0 <= w < 2 ^ n -> 0 <= Z.ldiff w m < 2 ^ n.
Proof.
  intros Hn [H0 H1]. assert (0 <= Z.ldiff w m) by (apply Z.ldiff_nonneg; by left). split; [done|].
  assert (Z.ldiff w m = Z.ldiff w m mod 2 ^ n) as ->; [|apply Z.mod_pos_bound; lia].
  apply Z.bits_inj'. intros k Hk. destruct (Z.ltb_spec k n).
  - by rewrite Z.mod_pow2_bits_low.
  - rewrite Z.mod_pow2_bits_high by lia. rewrite Z.ldiff_spec.
    by rewrite <-(Z.mod_small w (2 ^ n)), Z.mod_pow2_bits_high by lia.
Qed.

(** The linker ORs a value [v] into a cleared field [m] of [w]: the field is then
    [v] and the rest of [w] is as it was. *)
Lemma patch_field w m v : Z.land v m = v ->
  Z.land (Z.lor (Z.ldiff w m) v) m = v /\ Z.ldiff (Z.lor (Z.ldiff w m) v) m = Z.ldiff w m.
Proof.
  intros Hv. assert (forall k, Z.testbit v k = Z.testbit v k && Z.testbit m k) as Hb
    by (intros k; rewrite <-Z.land_spec; by rewrite Hv).
  split; apply Z.bits_inj'; intros k Hk.
  - rewrite Z.land_spec, Z.lor_spec, Z.ldiff_spec. rewrite (Hb k).
    destruct (Z.testbit w k), (Z.testbit m k), (Z.testbit v k); done.
  - rewrite !Z.ldiff_spec, Z.lor_spec, Z.ldiff_spec. rewrite (Hb k).
    destruct (Z.testbit w k), (Z.testbit m k), (Z.testbit v k); done.
Qed.

(** Clearing an ADRP pair leaves the code ready for Go's linker, which ORs
    immediates in: only the two instructions change; whatever immediate [v] the
    linker ORs into the ADRP, that field then holds [v] and the other bits are the
    original's; and likewise for the 12-bit field of the next instruction, whose
    shift bit is cleared as well exactly when it is a 64-bit ADD. *)
Lemma arm64ClearPagePair_spec code off v1 v2 :
  Forall is_u8 code -> 0 <= off -> off + 8 <= zlen code ->
  Z.land v1 adrpMask = v1 -> Z.land v2 imm12Mask = v2 ->
  let code' := arm64ClearPagePair code off in
  let w0 := insnAt code off in
  let w1 := insnAt code (off + 4) in
  let m1 := if Z.shiftr (Z.ldiff w1 imm12Mask) 24 =? 0x91 then Z.lor imm12Mask (Z.shiftl 1 22) else imm12Mask in
  zlen code' = zlen code /\
  (forall k, (k < Z.to_nat off \/ Z.to_nat off + 8 <= k)%nat -> code' !! k = code !! k) /\
  Z.land (Z.lor (insnAt code' off) v1) adrpMask = v1 /\
  Z.ldiff (Z.lor (insnAt code' off) v1) adrpMask = Z.ldiff w0 adrpMask /\
  Z.land (Z.lor (insnAt code' (off + 4)) v2) m1 = v2 /\
  Z.ldiff (Z.lor (insnAt code' (off + 4)) v2) m1 = Z.ldiff w1 m1.
Proof.
  intros Hb H0 H8 Hv1 Hv2. cbn zeta. unfold arm64ClearPagePair.
  set (code1 := putInsnAt code off _). assert (zlen code1 = zlen code) as Hl1 by (apply zlen_putInsnAt; lia).
  assert (insnAt code1 (off + 4) = insnAt code (off + 4)) as ->.
  { apply insnAt_ext; [lia|]. intros k Hk. apply putInsnAt_lookup; lia. }
  set (w1 := insnAt code (off + 4)). pose proof (insnAt_range code (off + 4) Hb) as R1. fold w1 in R1.
  set (m1 := if _ =? _ then Z.lor _ _ else _). set (w1' := if _ =? _ then Z.ldiff _ _ else _).
  assert (w1' = Z.ldiff w1 m1) as Ew.
  { unfold w1', m1. destruct (_ =? _); [|done]. apply Z.bits_inj'. intros k Hk. rewrite !Z.ldiff_spec, Z.lor_spec.
    by destruct (Z.testbit w1 k), (Z.testbit imm12Mask k), (Z.testbit (Z.shiftl 1 22) k). }
  assert (Z.land v2 m1 = v2) as Hv2'.
  { unfold m1. destruct (_ =? _); [|done]. apply Z.bits_inj'. intros k Hk. rewrite <-Hv2, !Z.land_spec, Z.lor_spec.
    by destruct (Z.testbit v2 k), (Z.testbit imm12Mask k), (Z.testbit (Z.shiftl 1 22) k). }
  assert (insnAt (putInsnAt code1 (off + 4) w1') off = Z.ldiff (insnAt code off) adrpMask) as E0.
  { rewrite (insnAt_ext _ code1 off H0) by (intros k Hk; apply putInsnAt_lookup; lia). unfold code1.
    rewrite insnAt_same by lia. apply Z.mod_small. apply ldiff_range; [lia | by apply insnAt_range]. }
  assert (insnAt (putInsnAt code1 (off + 4) w1') (off + 4) = Z.ldiff w1 m1) as E1.
  { rewrite insnAt_same by lia. rewrite Ew. apply Z.mod_small. apply ldiff_range; [lia | done]. }
  rewrite E0, E1. destruct (patch_field (insnAt code off) adrpMask v1 Hv1). destruct (patch_field w1 m1 v2 Hv2').
  split_and!; try done.
  - rewrite zlen_putInsnAt; lia.
  - intros k Hk. rewrite putInsnAt_lookup by lia. apply putInsnAt_lookup; lia.
Qed.

Lemma arm64ClearPagePair_spec_witness :
  Z.land (Z.lor (insnAt (arm64ClearPagePair [0; 0; 0; 144; 33; 4; 64; 249] 0) 0) 0x20000020) adrpMask = 0x20000020.
Proof.
  destruct (arm64ClearPagePair_spec [0; 0; 0; 144; 33; 4; 64; 249] 0 0x20000020 0x400) as (_ & _ & H & _).
  - apply (bool_decide_unpack (Forall (fun z => 0 <= z < 2 ^ 8) _)). vm_compute. exact I.
  - lia.
  - vm_compute. discriminate.
  - vm_compute. reflexivity.
  - vm_compute. reflexivity.
  - exact H.
Defined.

(** ** Addresses in text *)

(** A function's bytes lie below 2^63, as ELF file offsets do. *)
Definition fn_ok (x : fn) : Prop :=
  0 <= cf_off x /\ 0 <= fn_TextSize (cf_tab x) /\ cf_off x + fn_TextSize (cf_tab x) < 2 ^ 63.

Definition sec_fns (c : converter) (sec : Z) : list fn := default [] (cv_bySec c !! sec).

Definition no_libcall (c : converter) (l : Link) (sec addr : Z) : Prop :=
  Forall (fun x => libcall_body c l x addr = None) (sec_fns c sec).

Lemma covers_spec addr x : fn_ok x -> covers addr x = true <-> cf_off x <= addr < cf_off x + fn_TextSize (cf_tab x).
Proof.
  intros (H0 & H1 & H2). unfold covers. rewrite andb_true_iff, Z.leb_le, Z.ltb_lt, u64_small; [done|].
  unfold is_u64. pow2. lia.
Qed.

Lemma resolveText_ok c sec addr l i d l' :
  0 <= addr < 2 ^ 63 -> Forall fn_ok (sec_fns c sec) -> no_libcall c l sec addr ->
  resolveText c sec addr l = ((Some i, d), l') ->
  l' = l /\ exists x, x ∈ sec_fns c sec /\ i = cf_sym x /\ cf_off x + d = addr /\
    ((exists y, y ∈ sec_fns c sec /\ covers addr y = true) -> 0 <= d < fn_TextSize (cf_tab x)).
Proof.
  intros Ha Hok Hl. unfold resolveText. fold (sec_fns c sec). rewrite Forall_forall in Hok. unfold no_libcall in Hl.
  rewrite Forall_forall in Hl.
  destruct (list_find (fun x => covers addr x = true) (sec_fns c sec)) as [[k x]|] eqn:E; cbn [fmap option_fmap option_map snd].
  - apply list_find_Some in E as (Hk & Hc & _). apply list_elem_of_lookup_2 in Hk. rewrite (Hl x Hk). intros [= <- <- <-].
    pose proof (proj1 (covers_spec addr x (Hok x Hk)) Hc). destruct (Hok x Hk) as (? & ? & ?). split; [done|]. exists x.
    rewrite s64_small by (unfold is_s64; lia). split_and!; [done | done | lia | intros _; lia].
  - apply list_find_None in E. rewrite Forall_forall in E.
    destruct (list_find (fun x => addr < cf_off x) (sec_fns c sec)) as [[k x]|] eqn:E2; cbn [fmap option_fmap option_map snd]; [|done].
    apply list_find_Some in E2 as (Hk & Hc & _). apply list_elem_of_lookup_2 in Hk. intros [= <- <- <-].
    destruct (Hok x Hk) as (? & ? & ?). split; [done|]. exists x.
    rewrite (s64_small (cf_off x - addr)) by (unfold is_s64; lia). rewrite s64_small by (unfold is_s64; lia).
    split_and!; [done | done | lia |]. intros (y & Hy & Hcy). by destruct (E y Hy).
Qed.

Lemma resolveText_none c sec addr l d l' :
  resolveText c sec addr l = ((None, d), l') -> forall x, x ∈ sec_fns c sec -> covers addr x = false /\ cf_off x <= addr.
Proof.
  unfold resolveText. fold (sec_fns c sec).
  destruct (list_find (fun x => covers addr x = true) (sec_fns c sec)) as [[k x]|] eqn:E; cbn [fmap option_fmap option_map snd].
  { destruct (libcall_body _ _ _ _); [|done]. by destruct (LookupABI _ _ _). }
  destruct (list_find (fun x => addr < cf_off x) (sec_fns c sec)) as [[k x]|] eqn:E2; cbn [fmap option_fmap option_map snd]; [done|].
  intros _ x Hx. apply list_find_None in E, E2. rewrite Forall_forall in E, E2. specialize (E x Hx). specialize (E2 x Hx).
  split; [by destruct (covers addr x) | lia].
Qed.

(** Addresses in text: for every address below 2^63 in a section whose
    functions lie below 2^63, and no libcall thunk involved, [resolveText] returns a
    function of the section and the distance of the address from its start; if some
    function covers the address the distance is inside the returned function, and
    it returns no symbol only for an address past the start of all functions that
    none covers. *)
Theorem resolveText_sound c sec addr l i d l' :
  0 <= addr < 2 ^ 63 -> Forall fn_ok (sec_fns c sec) -> no_libcall c l sec addr ->
  resolveText c sec addr l = ((i, d), l') ->
  match i with
  | Some i => l' = l /\ exists x, x ∈ sec_fns c sec /\ i = cf_sym x /\ cf_off x + d = addr /\
      ((exists y, y ∈ sec_fns c sec /\ covers addr y = true) -> 0 <= d < fn_TextSize (cf_tab x))
  | None => forall x, x ∈ sec_fns c sec -> covers addr x = false /\ cf_off x <= addr
  end.
Proof.
  intros Ha Hok Hl E. destruct i as [i|]; [by eapply resolveText_ok | by eapply resolveText_none].
Qed.

Definition demo_tab (name : string) (size : Z) : Func :=
  mkFunc name size 0 0 1 0 0 0 0 0 0 [] None None None 0 0 0.
Definition demo_fns : list fn := [mkFn (demo_tab "f" 16) 1 0 "f" 0 1; mkFn (demo_tab "g" 8) 1 32 "g" 1 1].
Definition demo_conv : converter :=
  mkConv "main" "x_c" false ∅
    (mkElf EM_X86_64 [mkSec "" 0 0 0 None; mkSec ".text" 1 6 40 (Some (replicate 40 0))] (SymOk []))
    [Elf.mkSym "g" 2 1 32 8] demo_fns {[ 1 := demo_fns ]} {[ "main.f" := 1; "main.g" := 1 ]}
    {[ "f" := "main.f"; "g" := "main.g" ]} ∅ ∅.
Definition text2 (flag : Z) (l : Link) : Link :=
  match InitText demo_conf 0 flag l with Ok l => match InitText demo_conf 1 flag l with Ok l => l | Fail _ => l end | Fail _ => l end.
Definition demo_l : Link := Eval vm_compute in
  text2 0 (snd (LookupABI "main.g" 1 (snd (LookupABI "main.f" 1 demo_link0)))).

Lemma demo_fns_ok : Forall fn_ok (sec_fns demo_conv 1).
Proof. unfold fn_ok. apply (bool_decide_unpack _). vm_compute. exact I. Qed.

Lemma demo_no_libcall addr : no_libcall demo_conv demo_l 1 addr.
Proof.
  apply Forall_forall. intros x _. unfold libcall_body. destruct (_ && _); [|done].
  by rewrite bool_decide_eq_false_2 by set_solver.
Qed.

Lemma resolveText_sound_witness :
  exists x, x ∈ sec_fns demo_conv 1 /\ 1%nat = cf_sym x /\ cf_off x + 4 = 36.
Proof.
  destruct (resolveText_sound demo_conv 1 36 demo_l (Some 1%nat) 4 demo_l) as (_ & x & H1 & H2 & H3 & _).
  - vm_compute. split; [discriminate | reflexivity].
  - exact demo_fns_ok.
  - apply demo_no_libcall.
  - vm_compute. reflexivity.
  - exists x. split; [exact H1 | split; [exact H2 | exact H3]].
Defined.

(** The byte of the ELF file a resolved reference denotes, relative to its symbol. *)
Lemma resolveTarget_text c r l es i d name l' :
  re_Sym r <> 0 -> cv_syms c !! Z.to_nat (re_Sym r - 1) = Some es -> isText c (ey_section es) = true ->
  ey_section es <> SHN_UNDEF -> cv_arm64 c = false -> pcRelELF (re_Type r) = true ->
  0 <= ey_value es < 2 ^ 62 -> - 2 ^ 62 <= re_Add r < 2 ^ 62 - 4 ->
  Forall fn_ok (sec_fns c (ey_section es)) -> no_libcall c l (ey_section es) (ey_value es + re_Add r + 4) ->
  resolveTarget c r l = ((Some i, d, name), l') ->
  l' = l /\ exists x, x ∈ sec_fns c (ey_section es) /\ i = cf_sym x /\ cf_off x + d = ey_value es + re_Add r + 4.
Proof.
  intros Hs He Ht Hu Ha Hp Hv Hadd Hok Hl. unfold resolveTarget. rewrite Ha, Hp. cbn [negb andb].
  rewrite (proj2 (Z.eqb_neq _ _) Hs), He, (proj2 (Z.eqb_neq _ _) Hu), Ht.
  rewrite (s64_small (re_Add r + 4)), (s64_small (ey_value es)) by (unfold is_s64; lia).
  rewrite s64_small by (unfold is_s64; lia). destruct (Z.ltb_spec (ey_value es + (re_Add r + 4)) 0); [done|].
  destruct (resolveText c (ey_section es) (ey_value es + (re_Add r + 4)) l) as [[i' d'] l''] eqn:E. intros [= -> -> _ ->].
  replace (ey_value es + re_Add r + 4) with (ey_value es + (re_Add r + 4)) in Hl by lia.
  apply resolveText_ok in E as (-> & x & Hx & -> & Eq & _); [|lia | done | done]. split; [done|]. exists x. split_and!; [done..|lia].
Qed.

(** The value Go's linker stores for an R_PCREL or R_CALL at [off] in the symbol
    [host], with symbols placed by [place]. *)
Definition go_pcrel (place : sid -> Z) (host : sid) (off : Z) (target : sid) (add : Z) : Z :=
  place target + add - (place host + off + 4).

(** C16. PC-relative references keep their meaning: for a PC-relative amd64
    relocation against a symbol in text that resolves to ([i], [d]), the value Go's
    linker computes is the ELF value S + A - P whenever the functions are placed as
    in the ELF section, and however they are placed the reference denotes the byte
    of the function [y] that the ELF reference denoted, at the same distance from
    the function's start. *)
Theorem pcrel_preserved c r l es i d name l' x0 :
  re_Sym r <> 0 -> cv_syms c !! Z.to_nat (re_Sym r - 1) = Some es -> isText c (ey_section es) = true ->
  ey_section es <> SHN_UNDEF -> cv_arm64 c = false -> pcRelELF (re_Type r) = true ->
  0 <= ey_value es < 2 ^ 62 -> - 2 ^ 62 <= re_Add r < 2 ^ 62 - 4 ->
  Forall fn_ok (sec_fns c (ey_section es)) -> no_libcall c l (ey_section es) (ey_value es + re_Add r + 4) ->
  x0 ∈ sec_fns c (ey_section es) ->
  resolveTarget c r l = ((Some i, d, name), l') ->
  (exists y, y ∈ sec_fns c (ey_section es) /\ i = cf_sym y /\ d = ey_value es + re_Add r + 4 - cf_off y) /\
  forall place k, (forall z, z ∈ sec_fns c (ey_section es) -> place (cf_sym z) = k + cf_off z) ->
    go_pcrel place (cf_sym x0) (re_Off r - cf_off x0) i d = ey_value es + re_Add r - re_Off r.
Proof.
  intros Hs He Ht Hu Ha Hp Hv Hadd Hok Hl Hx0 E.
  destruct (resolveTarget_text c r l es i d name l') as (_ & y & Hy & -> & Eq); try done.
  split; [exists y; split_and!; [done..|lia]|]. intros place k Hk. unfold go_pcrel.
  rewrite (Hk y Hy), (Hk x0 Hx0). lia.
Qed.

Lemma pcrel_preserved_witness :
  let r := mkRela 5 R_X86_64_PLT32 1 (-4) in
  go_pcrel (fun i => 1000 + (if i : nat then 0 else 32)) 0 5 1 0 = 32 - 4 - 5.
Proof.
  intros r. pose (es := Elf.mkSym "g" 2 1 32 8). pose (f := mkFn (demo_tab "f" 16) 1 0 "f" 0 1).
  assert (forall place k, (forall z, z ∈ sec_fns demo_conv 1 -> place (cf_sym z) = k + cf_off z) ->
    go_pcrel place 0 5 1 0 = 32 - 4 - 5) as H.
  { apply (pcrel_preserved demo_conv r demo_l es 1 0 "g" demo_l f); try reflexivity; try discriminate; try (cbn; lia).
    - exact demo_fns_ok.
    - apply demo_no_libcall.
    - vm_compute. left. }
  apply (H _ 1000). intros z Hz. vm_compute in Hz. apply elem_of_cons in Hz as [->|Hz]; [reflexivity|].
  apply elem_of_cons in Hz as [->|Hz]; [reflexivity | by apply not_elem_of_nil in Hz].
Defined.

(** ** The relocations of a function *)

Lemma lookup_keeps name abi l i y : l_syms l !! i = Some y -> l_syms (snd (LookupABI name abi l)) !! i = Some y.
Proof.
  intros Hi. unfold LookupABI. destruct (_ !! name); [done|]. unfold alloc.
  destruct (abi =? ABIInternal); cbn; by apply lookup_app_l_Some.
Qed.

Lemma resolveText_keeps c sec addr l i y : l_syms l !! i = Some y -> l_syms (snd (resolveText c sec addr l)) !! i = Some y.
Proof.
  intros Hi. unfold resolveText.
  destruct (snd <$> list_find (fun x => covers addr x = true) _) as [x|].
  - destruct (libcall_body c l x addr) as [impl|]; [|done].
    pose proof (lookup_keeps impl ABI0 l i y Hi) as H. by destruct (LookupABI impl ABI0 l).
  - by destruct (snd <$> list_find _ _).
Qed.

Lemma resolveCName_keeps c name l i y : l_syms l !! i = Some y -> l_syms (snd (resolveCName c name l)) !! i = Some y.
Proof.
  intros Hi. unfold resolveCName. set (n := TrimSuffix name "@plt"). clearbody n. 
  destruct (HasSuffix n ".goabi"); [by apply lookup_keeps|].
  destruct (bool_decide (n ∈ cv_libcallImpl c)); [by apply lookup_keeps|].
  set (m := default n (cv_goName c !! n)). clearbody m. destruct (cv_abiByGoSym c !! m); [by apply lookup_keeps|].
  destruct (_ || _); [by apply lookup_keeps|]. destruct (_ || _); [by apply lookup_keeps|].
  destruct (if HasSuffix m ".impl" then _ else _) as [b suffix]. destruct (has_dot b); [by apply lookup_keeps|].
  destruct (_ || _); by apply lookup_keeps.
Qed.

Lemma resolveTarget_keeps c r l i y : l_syms l !! i = Some y -> l_syms (snd (resolveTarget c r l)) !! i = Some y.
Proof.
  intros Hi. unfold resolveTarget. destruct (if re_Sym r =? 0 then None else _) as [es|]; [|done].
  destruct (_ =? SHN_UNDEF).
  { pose proof (resolveCName_keeps c (ey_name es) l i y Hi) as H. by destruct (resolveCName c (ey_name es) l). }
  destruct (isText c (ey_section es)).
  - match goal with |- context [resolveText c _ ?a l] => set (addr := a) end. destruct (addr <? 0); [done|].
    pose proof (resolveText_keeps c (ey_section es) addr l i y Hi) as H. by destruct (resolveText _ _ _ _) as [[? ?] ?].
  - destruct (cv_dataSym c !! _); [done|]. by destruct (cv_secSym c !! _).
Qed.

(** A GOT slot is a new declaration, so it is no declared symbol. *)
Lemma gotSlot_keeps c target add s t s' i y : gotSlot c target add s = Ok (t, s') ->
  l_syms (cs_link s) !! i = Some y -> s_onList y = true -> l_syms (cs_link s') !! i = Some y.
Proof.
  intros E Hi Ho. unfold gotSlot in E. destruct (cs_got s !! _); [by injection E as <- <-|].
  set (name := "goc.got." +:+ _) in E. pose proof (lookup_keeps name ABI0 (cs_link s) i y Hi) as Hl.
  fold (Lookup name (cs_link s)) in Hl. destruct (Lookup name (cs_link s)) as [j l1]. cbn [snd] in Hl.
  assert (i <> j -> forall f, l_syms (modify j f l1) !! i = Some y) as Hne.
  { intros H f. unfold modify. cbn. by rewrite list_lookup_alter_ne. }
  unfold Globl in E. destruct (decide (i = j)) as [<-|Hij].
  - assert (l_syms (modify i (set_kind "SDATA") l1) !! i = Some (set_kind "SDATA" y)) as Hk
      by (rewrite (modify_lookup _ _ _ _ _ Hl); by rewrite decide_True).
    rewrite Hk in E. unfold set_kind in E. cbn [set_data s_onList] in E. by rewrite Ho in E.
  - destruct (l_syms (modify j _ l1) !! j) as [z|]; [|done]. destruct (s_onList z); [done|]. cbn [mbind res_bind] in E.
    injection E as <- <-. cbn. by rewrite !list_lookup_alter_ne by done.
Qed.

Definition x86_types : list string := ["R_PCREL"; "R_ADDR"; "R_CALL"].

Lemma X86Text_types ty typ : alookup ty X86Text = Some typ -> typ = "R_PCREL" \/ typ = "R_ADDR".
Proof.
  unfold alookup. destruct (list_find _ _) as [[k [t v]]|] eqn:E; [|done]. intros [= <-].
  apply list_find_Some in E as (Hk & _ & _). apply list_elem_of_lookup_2 in Hk.
  repeat (apply elem_of_cons in Hk as [[= _ ->]|Hk]; [by (left + right)|]). by apply not_elem_of_nil in Hk.
Qed.

(** What one relocation in range adds. *)
Definition reloc_of (calls : gset (string * Z)) (x : fn) (r : rela) (rel : LReloc) : Prop :=
  lr_Off rel = s32 (re_Off r - cf_off x) /\ lr_Siz rel = 4 /\ lr_Type rel ∈ x86_types /\
  (lr_Type rel = X86Call -> lr_Add rel = 0 /\ (cf_name x, re_Off r - cf_off x) ∈ calls).

Lemma x86_reloc_ok c calls x s r s' y : x86_reloc c calls x s r = Ok s' ->
  l_syms (cs_link s) !! cf_sym x = Some y -> s_onList y = true ->
  exists y', l_syms (cs_link s') !! cf_sym x = Some y' /\ s_onList y' = true /\ s_P y' = s_P y /\
    s_Size y' = s_Size y /\ if covers (re_Off r) x then exists rel, s_R y' = s_R y ++ [rel] /\ reloc_of calls x r rel else s_R y' = s_R y.
Proof.
  intros E Hi Ho. unfold x86_reloc in E. unfold covers.
  destruct (Z.ltb_spec (re_Off r) (cf_off x)) as [Hlt|Hge].
  { cbn [orb] in E. injection E as <-. exists y. rewrite (proj2 (Z.leb_gt _ _)) by lia. done. }
  rewrite (proj2 (Z.leb_le _ _)) by lia. cbn [orb andb] in *.
  destruct (Z.leb_spec (u64 (cf_off x + fn_TextSize (cf_tab x))) (re_Off r)) as [Hhi|Hhi].
  { injection E as <-. exists y. rewrite (proj2 (Z.ltb_ge _ _)) by lia. done. }
  rewrite (proj2 (Z.ltb_lt _ _)) by lia.
  pose proof (resolveTarget_keeps c r (cs_link s) (cf_sym x) y Hi) as Hl.
  destruct (resolveTarget c r (cs_link s)) as [[[[target|] goAdd] ename] l]; [|done]. cbn [snd] in Hl.
  match type of E with (mbind _ ?m) = _ => destruct m as [[[[tgt add] ty] s1]|] eqn:Es; [|done] end.
  cbn [mbind res_bind] in E.
  assert (l_syms (cs_link s1) !! cf_sym x = Some y) as Hl1.
  { destruct (isGOT (re_Type r)); [|by injection Es as <- <- <- <-].
    destruct (gotSlot c target goAdd (mkCst (cs_got s) l)) as [[i s2]|] eqn:Eg; [|done]. injection Es as <- <- <- <-.
    by eapply gotSlot_keeps. }
  destruct (alookup ty X86Text) as [typ|] eqn:Et; [|done]. apply X86Text_types in Et.
  set (call := _ && bool_decide _) in E. destruct (call && negb (add =? 0)) eqn:Ec; [done|].
  destruct ((re_Add r <? _) || _); [done|]. injection E as <-. eexists. split; [by apply modify_lookup|]. rewrite decide_True by done.
  split_and!; [done.. |]. eexists. split; [reflexivity|]. unfold reloc_of. cbn [lr_Off lr_Siz lr_Type lr_Add].
  split_and!; [done | done | |].
  - destruct call; [unfold x86_types, X86Call; set_solver|]. unfold x86_types. set_solver.
  - intros Hc. destruct call eqn:Ecall; [|destruct Et as [->| ->]; done]. cbn [andb] in Ec.
    apply negb_false_iff, Z.eqb_eq in Ec. split; [done|]. unfold call in Ecall. apply andb_true_iff in Ecall as [_ Hin].
    by apply bool_decide_eq_true in Hin.
Qed.

Lemma x86_relocs_kept c calls x rs s s' y :
  x86_relocs c calls x s rs = Ok s' -> l_syms (cs_link s) !! cf_sym x = Some y -> s_onList y = true ->
  exists y' rels, l_syms (cs_link s') !! cf_sym x = Some y' /\ s_P y' = s_P y /\ s_R y' = s_R y ++ rels /\
    Forall2 (reloc_of calls x) (filter (fun r => covers (re_Off r) x = true) rs) rels /\ s_Size y' = s_Size y.
Proof.
  revert s y. induction rs as [|r rs IH]; intros s y; cbn [x86_relocs].
  { intros [= <-] Hi Ho. exists y, []. rewrite app_nil_r. done. }
  destruct (x86_reloc c calls x s r) as [s1|] eqn:E; [|done]. cbn [mbind res_bind]. intros E2 Hi Ho.
  destruct (x86_reloc_ok _ _ _ _ _ _ _ E Hi Ho) as (y1 & Hi1 & Ho1 & HP & HS & HR).
  destruct (IH s1 y1 E2 Hi1 Ho1) as (y' & rels & Hi' & HP' & HR' & HF & HS').
  rewrite filter_cons. destruct (covers (re_Off r) x) eqn:Ecov.
  - destruct HR as (rel & HR & Hrel). exists y', (rel :: rels). rewrite decide_True by done. rewrite HR', HR, HP', HP.
    rewrite <-app_assoc. split_and!; [done..| |congruence]. by apply Forall2_cons.
  - exists y', rels. rewrite decide_False by done. rewrite HR', HR, HP', HP, HS', HS. done.
Qed.

(** C14. No relocation is lost: converting the relocations of an amd64 function,
    when it succeeds, appends to its symbol exactly one 4-byte Go relocation for
    each ELF relocation inside the function, in order and at the same offset, of a
    type the converter knows; only offsets the tables list as calls become R_CALL,
    and those have no addend; the code bytes are not touched. *)
Theorem x86_relocs_complete c calls x rs s s' y :
  x86_relocs c calls x s rs = Ok s' -> l_syms (cs_link s) !! cf_sym x = Some y -> s_onList y = true ->
  exists y' rels, l_syms (cs_link s') !! cf_sym x = Some y' /\ s_P y' = s_P y /\ s_R y' = s_R y ++ rels /\
    Forall2 (reloc_of calls x) (filter (fun r => covers (re_Off r) x = true) rs) rels.
Proof.
  intros E Hi Ho. destruct (x86_relocs_kept _ _ _ _ _ _ _ E Hi Ho) as (y' & rels & H1 & H2 & H3 & H4 & _). by exists y', rels.
Qed.

Lemma x86_relocs_complete_witness :
  exists y' rels, s_R y' = rels /\ length rels = 1%nat /\ s_Name y' = "main.f".
Proof.
  destruct (x86_relocs demo_conv {[ ("f", 5) ]} (mkFn (demo_tab "f" 16) 1 0 "f" 0 1) (mkCst ∅ demo_l)
    [mkRela 5 R_X86_64_PLT32 1 (-4); mkRela 33 R_X86_64_PLT32 1 (-4)]) as [s'|e] eqn:E; [|vm_compute in E; discriminate].
  pose proof E as E'. vm_compute in E'. injection E' as Es.
  destruct (x86_relocs_complete _ _ _ _ _ _ (default (new_sym "" 0) (l_syms demo_l !! 0%nat)) E) as (y' & rels & H1 & H2 & H3 & H4).
  - reflexivity.
  - reflexivity.
  - exists y', rels. split; [exact H3|]. split.
    + symmetry. exact (Forall2_length _ _ _ H4).
    + rewrite <-Es in H1. vm_compute in H1. injection H1 as <-. reflexivity.
Defined.

(** ** GOT slots of one target

    The name of a slot depends on the target's name only, its key in [gotSyms] on
    the addend too: a second addend finds no slot, looks the same symbol up and
    cannot declare it again. *)
Example gotSlot_second_addend :
  match gotSlot demo_conv 1 0 (mkCst ∅ demo_l) with
  | Ok (_, s) => gotSlot demo_conv 1 8 s = Fail "symbol goc.got.x_c.main.g redeclared"
  | Fail _ => False
  end.
Proof. vm_compute. reflexivity. Qed.

(** The suffix expression of [tuTag] runs after dots are gone: the extension stays. *)
Example tuTag_keeps_extension :
  tuTag (mkFile (mkHeader 1 4 1 0 "" "") ["dir/foo.c"] [] [] [] [] [] ∅ ∅ ∅ ∅ ∅) = "foo_c".
Proof. vm_compute. reflexivity. Qed.
