(* ===== verification/Arm64Proofs.v ===== *)
(** * Relocations of arm64 text

    What [arm64TextRelocs] (src/internal/convert/arm64.go, modelled in Convert.v)
    does to a function: which Go relocation each ELF relocation becomes, and which
    bits of the code change. *)

From Stdlib Require Import ZArith Lia Ascii.
From stdpp Require Import base list strings gmap sorting.
From S2P Require Import Prelude Text Codec Format Elf Layout Link Convert.

(** ** Bits of instruction words

    [clears F Q p p']: the code [p'] is [p] with some bits of its aligned words
    zeroed: only bits of [F], and all bits of [Q]. *)
Definition word (p : list Z) (k : Z) : Prop := 0 <= k /\ (4 | k) /\ k + 4 <= zlen p.

Record clears (F Q : Z -> Z -> Prop) (p p' : list Z) : Prop := {
  cl_len : zlen p' = zlen p;
  cl_bytes : Forall is_u8 p';
  cl_bits : forall k b, word p k -> 0 <= b ->
    Z.testbit (insnAt p' k) b = Z.testbit (insnAt p k) b \/ Z.testbit (insnAt p' k) b = false /\ F k b;
  cl_zero : forall k b, word p k -> 0 <= b -> Q k b -> Z.testbit (insnAt p' k) b = false;
  cl_tail : forall j, zlen p / 4 * 4 <= Z.of_nat j -> p' !! j = p !! j }.

Lemma clears_refl F p : Forall is_u8 p -> clears F (fun _ _ => False) p p.
Proof. split; try done. intros. by left. Qed.

Lemma clears_mono (F Q F' Q' : Z -> Z -> Prop) p p' : clears F Q p p' ->
  (forall k b, F k b -> F' k b) -> (forall k b, word p k -> 0 <= b -> Q' k b -> Q k b) -> clears F' Q' p p'.
Proof. intros [H1 H2 H3 H4 H5] HF HQ. split; eauto. intros k b Hk Hb. destruct (H3 k b Hk Hb) as [|[]]; eauto. Qed.

Lemma clears_trans F1 Q1 F2 Q2 p p1 p2 : clears F1 Q1 p p1 -> clears F2 Q2 p1 p2 ->
  clears (fun k b => F1 k b \/ F2 k b) (fun k b => Q1 k b \/ Q2 k b) p p2.
Proof.
  intros [L1 B1 K1 Z1 T1] [L2 B2 K2 Z2 T2].
  assert (forall k, word p k -> word p1 k) as Hw by (intros k; unfold word; by rewrite L1).
  split; [congruence | done | | |].
  - intros k b Hk Hb. destruct (K2 k b (Hw k Hk) Hb) as [->|[? ?]]; [|right; auto].
    destruct (K1 k b Hk Hb) as [->|[? ?]]; auto.
  - intros k b Hk Hb [HQ|HQ]; [|eauto]. destruct (K2 k b (Hw k Hk) Hb) as [->|[? ?]]; eauto.
  - intros j Hj. rewrite T2 by (by rewrite L1). auto.
Qed.

Lemma le_bytes_u8 n z : Forall is_u8 (le_bytes n z).
Proof.
  revert z. induction n as [|n IH]; intros z; cbn [le_bytes]; [constructor|]. constructor; [|done].
  unfold is_u8, u8, wrap. apply Z.mod_pos_bound. lia.
Qed.

Lemma putInsnAt_u8 p off w : Forall is_u8 p -> Forall is_u8 (putInsnAt p off w).
Proof. intros H. unfold putInsnAt, put_at. rewrite !Forall_app. split_and!; [by apply Forall_take | apply le_bytes_u8 | by apply Forall_drop]. Qed.

(** Zeroing the field [m] of one word. *)
Definition at_word (off m k b : Z) : Prop := k = off /\ Z.testbit m b = true.

Lemma clears_put p off m : Forall is_u8 p -> word p off ->
  clears (at_word off m) (at_word off m) p (putInsnAt p off (Z.ldiff (insnAt p off) m)).
Proof.
  intros Hp (H0 & H4 & Hl). assert (insnAt (putInsnAt p off (Z.ldiff (insnAt p off) m)) off = Z.ldiff (insnAt p off) m) as E.
  { rewrite insnAt_same by done. apply Z.mod_small, ldiff_range; [lia | by apply insnAt_range]. }
  split.
  - by apply zlen_putInsnAt.
  - by apply putInsnAt_u8.
  - intros k b (Hk0 & Hk4 & Hkl) Hb. destruct (decide (k = off)) as [->|Hne].
    + rewrite E, Z.ldiff_spec. destruct (Z.testbit m b) eqn:Em; [right | left]; [|by rewrite andb_true_r].
      split; [by rewrite andb_false_r | done].
    + left. f_equal. apply insnAt_ext; [done|]. intros j Hj. apply putInsnAt_lookup; [done.. |].
      destruct H4 as [a ->], Hk4 as [a' ->]. lia.
  - intros k b _ Hb [-> Hm]. rewrite E, Z.ldiff_spec, Hm. apply andb_false_r.
  - intros j Hj. apply putInsnAt_lookup; [done..|]. destruct H4 as [a ->]. right.
    assert (a * 4 + 4 <= zlen p / 4 * 4); [|lia]. pose proof (Z.div_le_mono (a * 4 + 4) (zlen p) 4 ltac:(lia) Hl) as H.
    replace (a * 4 + 4) with ((a + 1) * 4) in H by lia. rewrite Z.div_mul in H by lia. lia.
Qed.

Lemma ldiff_ldiff w m n : Z.ldiff (Z.ldiff w m) n = Z.ldiff w (Z.lor m n).
Proof. apply Z.bits_inj'. intros k Hk. rewrite !Z.ldiff_spec, Z.lor_spec. by destruct (Z.testbit w k), (Z.testbit m k), (Z.testbit n k). Qed.

(** The shift bit of an ADD. *)
Definition lsl12 : Z := Z.shiftl 1 22.

Lemma clears_pair p off : Forall is_u8 p -> word p off -> word p (off + 4) ->
  clears (fun k b => at_word off adrpMask k b \/ at_word (off + 4) (Z.lor imm12Mask lsl12) k b)
    (fun k b => at_word off adrpMask k b \/ at_word (off + 4) imm12Mask k b) p (arm64ClearPagePair p off).
Proof.
  intros Hp Hw Hw4. pose proof (clears_put p off adrpMask Hp Hw) as C1. unfold arm64ClearPagePair.
  set (p1 := putInsnAt p off _) in *. destruct (cl_len _ _ _ _ C1). pose proof (cl_bytes _ _ _ _ C1) as Hp1.
  set (w1 := insnAt p1 (off + 4)). assert (word p1 (off + 4)) as Hw1 by (unfold word; by rewrite (cl_len _ _ _ _ C1)).
  eapply clears_trans; [exact C1|]. destruct (_ =? 0x91).
  - fold lsl12. rewrite ldiff_ldiff. eapply clears_mono; [exact (clears_put p1 _ _ Hp1 Hw1) | done |].
    intros k b _ _ [-> Hb]. split; [done|]. by rewrite Z.lor_spec, Hb.
  - eapply clears_mono; [exact (clears_put p1 _ _ Hp1 Hw1) | | done].
    intros k b [-> Hb]. split; [done|]. by rewrite Z.lor_spec, Hb.
Qed.

(** ** What a relocation stands for *)

(** The bits of its instruction that a relocation type owns, and those among them
    that the linker fills. *)
Definition a64_field (t : Z) : Z :=
  if (t =? R_AARCH64_CALL26) || (t =? R_AARCH64_JUMP26) then 0x03ffffff
  else if (t =? R_AARCH64_ADR_PREL_PG_HI21) || (t =? R_AARCH64_ADR_GOT_PAGE) then adrpMask
  else if is_lo12 t || (t =? R_AARCH64_LD64_GOT_LO12_NC) then Z.lor imm12Mask lsl12
  else 0.

Definition a64_imm (t : Z) : Z := if is_lo12 t || (t =? R_AARCH64_LD64_GOT_LO12_NC) then imm12Mask else a64_field t.

(** The bits of the words that the relocations [rs] are on. *)
Definition on_words (bits : Z -> Z) (x : fn) (rs : list rela) (k b : Z) : Prop :=
  exists r, r ∈ rs /\ re_Off r - cf_off x = k /\ Z.testbit (bits (re_Type r)) b = true.

(** The Go relocation of one ELF relocation, by type. *)
Definition a64_single (t : Z) : option sizedReloc :=
  if (t =? R_AARCH64_CALL26) || (t =? R_AARCH64_JUMP26) then Some (mkSized A64Call 4)
  else if t =? R_AARCH64_ADR_PREL_PG_HI21 then Some (mkSized A64Page 4)
  else if is_lo12 t then typ ← alookup t A64Lo12; Some (mkSized typ 4)
  else alookup t A64Data.

(** The Go relocation of an ADRP and the relocation on the next instruction. *)
Definition a64_double (t u : Z) : option string :=
  if t =? R_AARCH64_ADR_PREL_PG_HI21 then arm64PagePair u
  else if (t =? R_AARCH64_ADR_GOT_PAGE) && (u =? R_AARCH64_LD64_GOT_LO12_NC) then Some A64GOTPair
  else None.

(** The relocations [ys] account for the ELF relocations [rs]: one stands for one or,
    for two halves of an address, for two. *)
Inductive accounts {R} (one : rela -> R -> Prop) (two : rela -> rela -> R -> Prop) : list rela -> list R -> Prop :=
| acc_nil : accounts one two [] []
| acc_one r rs y ys : one r y -> accounts one two rs ys -> accounts one two (r :: rs) (y :: ys)
| acc_two r n rs y ys : re_Off n = re_Off r + 4 -> two r n y -> accounts one two rs ys -> accounts one two (r :: n :: rs) (y :: ys).

Lemma accounts_map {R R'} (one : rela -> R -> Prop) two (one' : rela -> R' -> Prop) two' (P : R -> R' -> Prop) rs ys ys' :
  (forall r y y', one r y -> P y y' -> one' r y') -> (forall r n y y', two r n y -> P y y' -> two' r n y') ->
  accounts one two rs ys -> Forall2 P ys ys' -> accounts one' two' rs ys'.
Proof.
  intros H1 H2 H. revert ys'. induction H as [|r rs y ys Ho _ IH|r n rs y ys Hn Ht _ IH]; intros ys' HF.
  - apply Forall2_nil_inv_l in HF as ->. constructor.
  - apply Forall2_cons_inv_l in HF as (y' & ys1 & Hy & HF & ->). apply acc_one; eauto.
  - apply Forall2_cons_inv_l in HF as (y' & ys1 & Hy & HF & ->). apply acc_two; eauto.
Qed.

(** The Go relocation [rel] of the function [x] for [r], and for [r] and [n]. *)
Definition stands_for (x : fn) (r : rela) (rel : LReloc) : Prop :=
  lr_Off rel = s32 (re_Off r - cf_off x) /\ a64_single (re_Type r) = Some (mkSized (lr_Type rel) (lr_Siz rel)) /\
  (lr_Type rel = A64Call -> lr_Add rel = 0).

Definition stands_for_two (x : fn) (r n : rela) (rel : LReloc) : Prop :=
  lr_Off rel = s32 (re_Off r - cf_off x) /\ a64_double (re_Type r) (re_Type n) = Some (lr_Type rel) /\ lr_Siz rel = 8.

Section Matches.
Variable c : converter.
Variable x : fn.

(** [rel] refers to what [r] refers to. *)
Definition resolves (r : rela) (rel : LReloc) : Prop :=
  exists l ename, fst (resolveTarget c r l) = (Some (lr_Sym rel), lr_Add rel, ename).

(** The Go relocations [rels] account for [rs] and refer to what they refer to. *)
Definition matches : list rela -> list LReloc -> Prop :=
  accounts (fun r rel => stands_for x r rel /\ resolves r rel) (fun r n rel => stands_for_two x r n rel /\ resolves r rel /\ resolves n rel).

(** On arm64 a target depends on the symbol and the addend only. *)
Lemma resolves_same r n rel : cv_arm64 c = true -> re_Sym n = re_Sym r -> re_Add n = re_Add r -> resolves r rel -> resolves n rel.
Proof.
  intros Ha Hs Hd (l & e & H). exists l, e. rewrite <-H. unfold resolveTarget. rewrite Ha, Hs, Hd. done.
Qed.

(** *** One relocation *)

(** The symbol after a relocation was recorded. *)
Definition recorded (y y' : Sym) (rel : LReloc) (p : list Z) : Prop :=
  y' = AddRel rel (set_data y (s_Kind y) p (s_Size y)).

Lemma set_code_lookup f l i y : l_syms l !! i = Some y ->
  l_syms (set_code i f l) !! i = Some (set_data y (s_Kind y) (f (s_P y)) (s_Size y)).
Proof. intros H. unfold set_code. rewrite (modify_lookup _ _ _ _ _ H). by rewrite decide_True. Qed.

Lemma set_data_same y : set_data y (s_Kind y) (s_P y) (s_Size y) = y.
Proof. by destruct y. Qed.

(** What one turn of the loop does to the function's symbol. *)
Definition turn_single (r : rela) (y y' : Sym) : Prop :=
  exists rel p, recorded y y' rel p /\ lr_Off rel = s32 (re_Off r - cf_off x) /\
    a64_single (re_Type r) = Some (mkSized (lr_Type rel) (lr_Siz rel)) /\ (lr_Type rel = A64Call -> lr_Add rel = 0) /\ resolves r rel /\
    clears (on_words a64_field x [r]) (on_words a64_imm x [r]) (s_P y) p.

Definition turn_pair (r n : rela) (y y' : Sym) : Prop :=
  exists rel, recorded y y' rel (arm64ClearPagePair (s_P y) (re_Off r - cf_off x)) /\ lr_Off rel = s32 (re_Off r - cf_off x) /\
    a64_double (re_Type r) (re_Type n) = Some (lr_Type rel) /\ lr_Siz rel = 8 /\ resolves r rel /\
    re_Sym n = re_Sym r /\ re_Add n = re_Add r /\ word (s_P y) (re_Off r - cf_off x + 4).

Lemma on_words_one bits r k b : on_words bits x [r] k b <-> at_word (re_Off r - cf_off x) (bits (re_Type r)) k b.
Proof.
  split.
  - intros (r' & ->%list_elem_of_singleton & <- & H). done.
  - intros [-> H]. exists r. split; [by apply list_elem_of_singleton | done].
Qed.

(** Clearing the field of [r] in its word. *)
Lemma clears_field r p m : Forall is_u8 p -> word p (re_Off r - cf_off x) ->
  Z.land m (a64_field (re_Type r)) = m -> Z.land (a64_imm (re_Type r)) m = a64_imm (re_Type r) ->
  clears (on_words a64_field x [r]) (on_words a64_imm x [r]) p
    (putInsnAt p (re_Off r - cf_off x) (Z.ldiff (insnAt p (re_Off r - cf_off x)) m)).
Proof.
  intros Hp Hw Hm Hi. eapply clears_mono; [by apply (clears_put p _ m) | |].
  - intros k b [-> Hb]. apply on_words_one. split; [done|]. rewrite <-Hm, Z.land_spec in Hb. by apply andb_true_iff in Hb as [].
  - intros k b _ _ [-> Hb]%on_words_one. split; [done|]. rewrite <-Hi, Z.land_spec in Hb. by apply andb_true_iff in Hb as [].
Qed.

(** A relocation on data in the text changes no code. *)
Lemma clears_none r p : Forall is_u8 p -> a64_imm (re_Type r) = 0 ->
  clears (on_words a64_field x [r]) (on_words a64_imm x [r]) p p.
Proof.
  intros Hp Hi. eapply clears_mono; [by apply clears_refl | done |].
  intros k b _ _ [-> Hb]%on_words_one. rewrite Hi, Z.testbit_0_l in Hb. done.
Qed.

(** Membership of the low-half types. *)
Lemma is_lo12_cases t : is_lo12 t = true ->
  t ∈ [R_AARCH64_ADD_ABS_LO12_NC; R_AARCH64_LDST8_ABS_LO12_NC; R_AARCH64_LDST16_ABS_LO12_NC;
       R_AARCH64_LDST32_ABS_LO12_NC; R_AARCH64_LDST64_ABS_LO12_NC; R_AARCH64_LDST128_ABS_LO12_NC].
Proof. unfold is_lo12. rewrite !orb_true_iff, !Z.eqb_eq. set_solver. Qed.

Lemma a64_pair_inv want r next w typ : a64_pair want r next w = Ok typ ->
  exists n, next = Some n /\ want (re_Type n) = Some typ /\ re_Sym n = re_Sym r /\ re_Add n = re_Add r.
Proof.
  unfold a64_pair. destruct next as [n|]; [|done]. destruct (want (re_Type n)) eqn:Ew; [|done].
  destruct (Z.eqb_spec (re_Sym n) (re_Sym r)), (Z.eqb_spec (re_Add n) (re_Add r)); try done. intros [= ->]. by exists n.
Qed.

Lemma clear_pair_inv i off l l' y : clear_pair i off l = Ok l' -> l_syms l !! i = Some y ->
  off + 8 <= zlen (s_P y) /\ l_syms l' !! i = Some (set_data y (s_Kind y) (arm64ClearPagePair (s_P y) off) (s_Size y)).
Proof.
  unfold clear_pair, code_of. intros E Hi. rewrite Hi in E. destruct (Z.ltb_spec (zlen (s_P y)) (off + 8)); [done|].
  injection E as <-. split; [lia|]. exact (set_code_lookup (fun p => arm64ClearPagePair p off) _ _ _ Hi).
Qed.

(** The turn of a relocation whose field [m] is cleared in place. *)
Lemma turn_put r l y target add typ siz e m l0 f :
  f (s_P y) = putInsnAt (s_P y) (re_Off r - cf_off x) (Z.ldiff (insnAt (s_P y) (re_Off r - cf_off x)) m) ->
  l_syms l !! cf_sym x = Some y -> Forall is_u8 (s_P y) -> word (s_P y) (re_Off r - cf_off x) ->
  fst (resolveTarget c r l0) = (Some target, add, e) ->
  a64_single (re_Type r) = Some (mkSized typ siz) -> (typ = A64Call -> add = 0) ->
  Z.land m (a64_field (re_Type r)) = m -> Z.land (a64_imm (re_Type r)) m = a64_imm (re_Type r) ->
  exists y', l_syms (modify (cf_sym x) (AddRel (mkLReloc (s32 (re_Off r - cf_off x)) siz typ add target))
      (set_code (cf_sym x) f l)) !! cf_sym x = Some y' /\
    turn_single r y y'.
Proof.
  intros Hf Hi Hp Hw Hr Hs Hc Hm Hz. pose proof (set_code_lookup f _ _ _ Hi) as Hi1. rewrite Hf in Hi1.
  eexists. split; [by rewrite (modify_lookup _ _ _ _ _ Hi1), decide_True|]. eexists _, _. split_and!; [reflexivity | done.. | |].
  - exists l0, e. exact Hr.
  - by apply clears_field.
Qed.

Lemma turn_data r l y target add d e l0 :
  l_syms l !! cf_sym x = Some y -> Forall is_u8 (s_P y) ->
  fst (resolveTarget c r l0) = (Some target, add, e) ->
  a64_single (re_Type r) = Some d -> sz_Type d <> A64Call -> a64_imm (re_Type r) = 0 ->
  exists y', l_syms (modify (cf_sym x) (AddRel (mkLReloc (s32 (re_Off r - cf_off x)) (sz_Siz d) (sz_Type d) add target)) l) !! cf_sym x = Some y' /\
    turn_single r y y'.
Proof.
  intros Hi Hp Hr Hs Hc Hz. eexists. split; [by rewrite (modify_lookup _ _ _ _ _ Hi), decide_True|].
  eexists _, (s_P y). split_and!; [unfold recorded; by rewrite set_data_same | done | by destruct d | done | by exists l0, e | by apply clears_none].
Qed.

Lemma turn_double r n l l' y target add typ e l0 :
  l_syms l !! cf_sym x = Some y -> clear_pair (cf_sym x) (re_Off r - cf_off x) l = Ok l' -> word (s_P y) (re_Off r - cf_off x) ->
  fst (resolveTarget c r l0) = (Some target, add, e) ->
  a64_double (re_Type r) (re_Type n) = Some typ -> re_Sym n = re_Sym r -> re_Add n = re_Add r ->
  exists y', l_syms (modify (cf_sym x) (AddRel (mkLReloc (s32 (re_Off r - cf_off x)) 8 typ add target)) l') !! cf_sym x = Some y' /\
    turn_pair r n y y'.
Proof.
  intros Hi E (H0 & [a Ha] & _) Hr Hd Hs Hadd. destruct (clear_pair_inv _ _ _ _ _ E Hi) as [H8 Hi1].
  eexists. split; [by rewrite (modify_lookup _ _ _ _ _ Hi1), decide_True|]. eexists. split_and!; [reflexivity | done.. | by exists l0, e | done | done |].
  split_and!; [lia | exists (a + 1); lia | lia].
Qed.
Lemma a64_reloc_ok r next l u l' y : a64_reloc c x r next l = Ok (u, l') -> l_syms l !! cf_sym x = Some y ->
  Forall is_u8 (s_P y) -> cf_off x <= re_Off r ->
  word (s_P y) (re_Off r - cf_off x) /\ exists y', l_syms l' !! cf_sym x = Some y' /\
    if u then exists n, next = Some n /\ turn_pair r n y y' else turn_single r y y'.
Proof.
  intros E Hi Hp Hge. unfold a64_reloc in E. unfold code_of in E at 1. rewrite Hi in E.
  set (off := re_Off r - cf_off x) in *. destruct (negb (Z.rem off 4 =? 0) || (zlen (s_P y) <? off + 4)) eqn:Eg; [done|].
  apply orb_false_iff in Eg as [Hrem%negb_false_iff%Z.eqb_eq Hlen%Z.ltb_ge].
  assert (word (s_P y) off) as Hw by (split_and!; [lia | apply Z.rem_divide; lia | lia]). split; [done|].
  pose proof (resolveTarget_keeps c r l _ _ Hi) as Hl. destruct (resolveTarget c r l) as [[[[target|] add] ename] l1] eqn:Er; [|done].
  cbn [snd] in Hl. assert (fst (resolveTarget c r l) = (Some target, add, ename)) as Hr by (by rewrite Er). cbv zeta in E.
  destruct ((re_Type r =? R_AARCH64_CALL26) || (re_Type r =? R_AARCH64_JUMP26)) eqn:Et1.
  { destruct (Z.eqb_spec add 0) as [->|]; [|done]. injection E as <- <-.
    eapply (turn_put r l1 y target 0 A64Call 4 _ 0x03ffffff); try done; unfold a64_single, a64_imm, a64_field; rewrite ?Et1; try done.
    apply orb_true_iff in Et1 as [->%Z.eqb_eq| ->%Z.eqb_eq]; done. }
  destruct (re_Type r =? R_AARCH64_ADR_PREL_PG_HI21) eqn:Et2.
  { apply Z.eqb_eq in Et2. set (next' := match next with Some _ => _ | None => None end) in E.
    destruct (match next' with Some _ => _ | None => true end).
    - injection E as <- <-. eapply (turn_put r l1 y target add A64Page 4 _ adrpMask); try done; by rewrite Et2.
    - ok_step E typ. ok_step E l2. injection E as <- <-. destruct (a64_pair_inv _ _ _ _ _ Etyp) as (n & En & Ht & Hs & Ha).
      destruct (turn_double r n l1 l2 y target add typ ename l Hl El2 Hw Hr) as (y' & H1 & H2); try done.
      { unfold a64_double. by rewrite Et2, Ht. }
      exists y'. split; [done|]. exists n. split; [|done]. subst next'. destruct next as [n'|]; [|done].
      by destruct (arm64PagePair (re_Type n')). }
  destruct (re_Type r =? R_AARCH64_ADR_GOT_PAGE) eqn:Et3.
  { apply Z.eqb_eq in Et3. ok_step E typ. ok_step E l2. injection E as <- <-.
    destruct (a64_pair_inv _ _ _ _ _ Etyp) as (n & En & Ht & Hs & Ha).
    destruct (re_Type n =? R_AARCH64_LD64_GOT_LO12_NC) eqn:Ed; [|done].
    destruct (turn_double r n l1 l2 y target add A64GOTPair ename l Hl El2 Hw Hr) as (y' & H1 & H2); try done.
    { unfold a64_double. rewrite Et3. cbn. by rewrite Ed. }
    exists y'. split; [done|]. by exists n. }
  destruct (is_lo12 (re_Type r)) eqn:Et4.
  { injection E as <- <-. apply is_lo12_cases in Et4. set (m := if re_Type r =? R_AARCH64_ADD_ABS_LO12_NC then Z.lor imm12Mask lsl12 else imm12Mask).
    eapply (turn_put r l1 y target add _ 4 _ m); try done.
    { subst m. cbv beta. fold off lsl12. by destruct (re_Type r =? R_AARCH64_ADD_ABS_LO12_NC); rewrite ?ldiff_ldiff. }
    all: subst m; clear -Et4; repeat (apply elem_of_cons in Et4 as [->|Et4]; [done|]); by apply not_elem_of_nil in Et4. }
  destruct ((re_Type r =? R_AARCH64_ABS64) || (re_Type r =? R_AARCH64_ABS32)) eqn:Et5; [|done].
  destruct (alookup (re_Type r) A64Data) as [d|] eqn:Ed; [|done]. injection E as <- <-.
  eapply (turn_data r l1 y target add d); try done.
  - unfold a64_single. by rewrite Et1, Et2, Et4.
  - apply orb_true_iff in Et5 as [E5%Z.eqb_eq|E5%Z.eqb_eq]; rewrite E5 in Ed; by injection Ed as <-.
  - apply orb_true_iff in Et5 as [->%Z.eqb_eq| ->%Z.eqb_eq]; done.
Qed.
(** *** The loop *)

(** The symbol [y] with new code and more relocations. *)
Definition with_relocs (y y' : Sym) (rels : list LReloc) (p : list Z) : Prop :=
  y' = set_R (set_data y (s_Kind y) p (s_Size y)) (s_R y ++ rels).

Lemma with_relocs_trans y y1 y2 rels1 rels2 p1 p2 : with_relocs y y1 rels1 p1 -> with_relocs y1 y2 rels2 p2 ->
  with_relocs y y2 (rels1 ++ rels2) p2.
Proof. unfold with_relocs. intros -> ->. cbn. by rewrite app_assoc. Qed.

Lemma on_words_app bits rs1 rs2 k b : on_words bits x (rs1 ++ rs2) k b <-> on_words bits x rs1 k b \/ on_words bits x rs2 k b.
Proof. unfold on_words. set_solver. Qed.

(** Clearing for some relocations, then for others. *)
Lemma clears_app rs1 rs2 p p1 p2 :
  clears (on_words a64_field x rs1) (on_words a64_imm x rs1) p p1 -> clears (on_words a64_field x rs2) (on_words a64_imm x rs2) p1 p2 ->
  clears (on_words a64_field x (rs1 ++ rs2)) (on_words a64_imm x (rs1 ++ rs2)) p p2.
Proof.
  intros H1 H2. eapply clears_mono; [exact (clears_trans _ _ _ _ _ _ _ H1 H2) | |]; intros k b; [|intros _ _]; rewrite on_words_app; tauto.
Qed.

Lemma clears_double r n p : a64_double (re_Type r) (re_Type n) <> None -> re_Off n = re_Off r + 4 -> Forall is_u8 p ->
  word p (re_Off r - cf_off x) -> word p (re_Off r - cf_off x + 4) ->
  clears (on_words a64_field x [r; n]) (on_words a64_imm x [r; n]) p (arm64ClearPagePair p (re_Off r - cf_off x)).
Proof.
  intros Hd Hn Hp H0 H4. assert (a64_field (re_Type r) = adrpMask /\ a64_imm (re_Type r) = adrpMask /\
    a64_field (re_Type n) = Z.lor imm12Mask lsl12 /\ a64_imm (re_Type n) = imm12Mask) as (F1 & I1 & F2 & I2).
  { unfold a64_double in Hd. destruct (Z.eqb_spec (re_Type r) R_AARCH64_ADR_PREL_PG_HI21) as [->|].
    - destruct (arm64PagePair (re_Type n)) as [t|] eqn:E; [|done]. unfold arm64PagePair, alookup in E.
      destruct (list_find _ _) as [[k [t' v]]|] eqn:Ef; [|done]. apply list_find_Some in Ef as (Hk & Ht & _).
      cbn in Ht. subst t'. apply list_elem_of_lookup_2 in Hk.
      repeat (apply elem_of_cons in Hk as [[= -> _]|Hk]; [done|]). by apply not_elem_of_nil in Hk.
    - destruct (Z.eqb_spec (re_Type r) R_AARCH64_ADR_GOT_PAGE) as [->|]; [|done].
      destruct (Z.eqb_spec (re_Type n) R_AARCH64_LD64_GOT_LO12_NC) as [->|]; done. }
  assert (re_Off n - cf_off x = re_Off r - cf_off x + 4) as Eo by lia. unfold on_words.
  eapply clears_mono; [exact (clears_pair p _ Hp H0 H4) | |].
  - intros k b [[-> Hb]|[-> Hb]]; [exists r; rewrite F1 | exists n; rewrite F2]; (split; [set_solver | done]).
  - intros k b _ _ (r' & [->|[->|[]%not_elem_of_nil]%elem_of_cons]%elem_of_cons & <- & Hb); [left | right]; (split; [done|]).
    + by rewrite I1 in Hb.
    + by rewrite I2 in Hb.
Qed.

(** The offset after an ADRP does not wrap: the pair lies in the function. *)
Lemma next_off r m p : is_u64 (cf_off x) -> zlen p < 2 ^ 63 -> word p (re_Off r - cf_off x + 4) -> cf_off x <= re_Off m ->
  re_Off m = u64 (re_Off r + 4) -> re_Off m = re_Off r + 4.
Proof.
  intros Ho Hz (H0 & _ & H4) Hm E. unfold is_u64, u64, wrap in *. rewrite Z.mod_eq in E by lia.
  assert (0 <= re_Off r + 4 < 2 * 2 ^ 64) as R by lia. assert ((re_Off r + 4) / 2 ^ 64 = 0); [|lia].
  assert (0 <= (re_Off r + 4) / 2 ^ 64 < 2) by (split; [apply Z.div_pos | apply Z.div_lt_upper_bound]; lia). lia.
Qed.

Lemma covers_ge r : covers (re_Off r) x = true -> cf_off x <= re_Off r.
Proof. intros [H%Z.leb_le _]%andb_true_iff. done. Qed.

(** The loop after one turn that relocated the symbol for [rs1]. *)
Definition loop_done (l' : Link) (mine : list rela) (y : Sym) : Prop :=
  exists y' rels p, l_syms l' !! cf_sym x = Some y' /\ with_relocs y y' rels p /\ matches mine rels /\
    clears (on_words a64_field x mine) (on_words a64_imm x mine) (s_P y) p.

Lemma loop_turn l' rs1 mine y y1 rel p : with_relocs y y1 [rel] p ->
  clears (on_words a64_field x rs1) (on_words a64_imm x rs1) (s_P y) p ->
  (forall rels, matches mine rels -> matches (rs1 ++ mine) (rel :: rels)) ->
  loop_done l' mine y1 -> loop_done l' (rs1 ++ mine) y.
Proof.
  intros Hre Hcl Hm (y' & rels & p' & Hi' & Hre' & Hm' & Hcl'). exists y', (rel :: rels), p'.
  split_and!; [done | exact (with_relocs_trans _ _ _ _ _ _ _ Hre Hre') | by apply Hm |].
  eapply clears_app; [exact Hcl|]. by rewrite Hre in Hcl'.
Qed.

Lemma a64_loop_ok mine l l' y : cv_arm64 c = true -> is_u64 (cf_off x) -> zlen (s_P y) < 2 ^ 63 ->
  Forall (fun r => covers (re_Off r) x = true) mine ->
  a64_loop c x false mine l = Ok l' -> l_syms l !! cf_sym x = Some y -> Forall is_u8 (s_P y) ->
  loop_done l' mine y.
Proof.
  intros Harm Ho. remember (length mine) as n eqn:Hn. revert mine Hn l y.
  induction (lt_wf n) as [n _ IH]. intros [|r mine] Hn l y Hz Hc E Hi Hp; cbn [a64_loop] in E.
  { injection E as <-. exists y, [], (s_P y). split_and!; [done | | constructor |].
    - unfold with_relocs. rewrite app_nil_r, set_data_same. by destruct y.
    - eapply clears_mono; [by apply clears_refl | done |]. intros k b _ _ (? & []%not_elem_of_nil & _). }
  apply Forall_cons in Hc as [Hcr%covers_ge Hc]. set (next := match mine with n :: _ => _ | [] => None end) in E. ok_step E ul.
  destruct ul as [u l1]. destruct (a64_reloc_ok _ _ _ _ _ _ Eul Hi Hp Hcr) as (Hw & y1 & Hi1 & Ht). destruct u.
  - destruct Ht as (m & Em & rel & Hrec & Hoff & Hd & Hsiz & Hres & Hs & Ha & Hw4). destruct mine as [|m' mine]; [done|].
    subst next. destruct (Z.eqb_spec (re_Off m') (u64 (re_Off r + 4))) as [Eo|]; [|done]. injection Em as ->.
    apply Forall_cons in Hc as [Hcm%covers_ge Hc]. pose proof (next_off r m _ Ho Hz Hw4 Hcm Eo) as Eo4.
    pose proof (clears_double r m _ ltac:(by rewrite Hd) Eo4 Hp Hw Hw4) as Hcl.
    apply (loop_turn l' [r; m] mine y y1 rel _ Hrec Hcl).
    { intros rels Hm. apply acc_two; [done | | done]. split_and!; [by split_and! | done | by eapply resolves_same]. }
    cbn [a64_loop] in E. eapply (IH (length mine)); try done; [cbn in Hn; lia | |]; rewrite Hrec; cbn.
    + by rewrite (cl_len _ _ _ _ Hcl).
    + exact (cl_bytes _ _ _ _ Hcl).
  - destruct Ht as (rel & p1 & Hrec & Hoff & Hsg & Hcall & Hres & Hcl).
    apply (loop_turn l' [r] mine y y1 rel _ Hrec Hcl); [intros rels Hm; apply acc_one; [split; [by split_and! | done] | done]|].
    eapply (IH (length mine)); try done; [cbn in Hn; lia | |]; rewrite Hrec; cbn.
    + by rewrite (cl_len _ _ _ _ Hcl).
    + exact (cl_bytes _ _ _ _ Hcl).
Qed.
End Matches.

Lemma arm64_kept c x rs l l' y :
  cv_arm64 c = true -> is_u64 (cf_off x) -> l_syms l !! cf_sym x = Some y -> Forall is_u8 (s_P y) -> zlen (s_P y) < 2 ^ 63 ->
  arm64TextRelocs c x rs l = Ok l' ->
  exists mine y' rels p,
    mine ≡ₚ filter (fun r => covers (re_Off r) x = true) rs /\ Sorted rela_le mine /\
    l_syms l' !! cf_sym x = Some y' /\ with_relocs y y' rels p /\ matches c x mine rels /\
    clears (on_words a64_field x mine) (on_words a64_imm x mine) (s_P y) p.
Proof.
  intros Harm Ho Hi Hp Hz E. unfold arm64TextRelocs in E. set (mine := filter _ rs) in *.
  pose proof (merge_sort_Permutation rela_le mine) as Hperm.
  destruct (a64_loop_ok c x (merge_sort rela_le mine) l l' y Harm Ho Hz) as (y' & rels & p & Hi' & Hre & Hm & Hcl); try done.
  { rewrite Hperm. apply Forall_forall. by intros r [? _]%list_elem_of_filter. }
  eexists _, y', rels, p. split_and!; [exact Hperm | | done..]. apply Sorted_merge_sort. intros a b. unfold rela_le. lia.
Qed.


(** An address in two instructions, then a call; every immediate is nonzero. *)
Definition a64_conv : converter :=
  mkConv "main" "x_c" true ∅ (cv_ef demo_conv) (cv_syms demo_conv) demo_fns (cv_bySec demo_conv) (cv_abiByGoSym demo_conv) (cv_goName demo_conv) ∅ ∅.
Definition a64_code : list Z := [32; 0; 0; 176; 0; 64; 0; 145; 3; 0; 0; 148; 192; 3; 95; 214].
Definition a64_l : Link := modify 0 (fun s => set_data s (s_Kind s) a64_code 16) demo_l.
Definition a64_fn : fn := mkFn (demo_tab "f" 16) 1 0 "f" 0 1.

Definition a64_relas : list rela :=
  [mkRela 8 R_AARCH64_CALL26 1 0; mkRela 0 R_AARCH64_ADR_PREL_PG_HI21 1 4; mkRela 4 R_AARCH64_ADD_ABS_LO12_NC 1 4; mkRela 32 R_AARCH64_CALL26 1 0].
Definition a64_out : Link := Eval vm_compute in
  match arm64TextRelocs a64_conv a64_fn a64_relas a64_l with Ok l => l | Fail _ => a64_l end.

