(* ===== verification/Data.v ===== *)
(** * Program data and jump tables

    Models src/internal/convert/data.go, and [textSecs] and [sortedKeys] of
    convert.go: one Go symbol per named global, one copy per data section, and the
    relocations of both.  The symbol maps that [emitData] fills are fields of the
    converter; here the operation returns the converter with its maps set.  A panic
    is an error like the others, since each ends the conversion. *)

From Stdlib Require Import ZArith Lia Ascii.
From stdpp Require Import base list strings gmap sorting.
From S2P Require Import Prelude Text Codec Format Elf Layout Link Convert.

Definition isDataSection (name : string) : bool :=
  existsb (HasPrefix name) [".rodata"; ".data"; ".bss"; ".sdata"; ".sbss"; ".tdata"; ".tbss"].

(** [sortedKeys] *)
Definition sortedKeys {V} (m : gmap Z V) : list Z := merge_sort Z.le (elements (dom m)).

Definition textSecs (c : converter) : list Z := sortedKeys (cv_bySec c).

(** ** Symbols *)

Record nameRange := mkRange { nr_start : Z; nr_end : Z; nr_sym : sid }.

(** What the two loops that create symbols build. *)
Record dstate := mkD { d_dataSym : gmap Z sid; d_secSym : gmap Z sid; d_ranges : gmap Z (list nameRange); d_link : Link }.

Definition with_link (d : dstate) (l : Link) : dstate := mkD (d_dataSym d) (d_secSym d) (d_ranges d) l.

(** The section of a symbol that gets a Go symbol of its own. *)
Definition data_global (c : converter) (es : esymbol) : option esection :=
  let sec := ey_section es in
  if (sec =? SHN_UNDEF) || (SHN_LORESERVE <=? sec) || (zlen (ef_sections (cv_ef c)) <=? sec) || (ey_size es =? 0) ||
     String.eqb (ey_name es) "" || isText c sec then None
  else if negb (ST_TYPE (ey_info es) =? STT_OBJECT) && negb (ST_TYPE (ey_info es) =? STT_NOTYPE) then None
  else if negb (ST_BIND (ey_info es) =? STB_GLOBAL) && negb (ST_BIND (ey_info es) =? STB_WEAK) then None
  else match elf_section_at (cv_ef c) sec with
       | Some sc => if Z.land (es_flags sc) SHF_ALLOC =? 0 then None else Some sc
       | None => None
       end.

(** [c.dataSym[i] = ls] and the new range of the section. *)
Definition add_global (i : Z) (es : esymbol) (ls : sid) (l : Link) (d : dstate) : dstate :=
  let sec := ey_section es in
  mkD (<[i := ls]> (d_dataSym d)) (d_secSym d)
    (<[sec := default [] (d_ranges d !! sec) ++ [mkRange (ey_value es) (u64 (ey_value es + ey_size es)) ls]]> (d_ranges d)) l.

Definition emit_global (c : converter) (d : dstate) (x : Z * esymbol) : res string dstate :=
  let '(i, es) := x in
  match data_global c es with
  | None => Ok d
  | Some sc =>
      let '(ls, l) := Lookup (cv_pkg c +:+ "." +:+ ey_name es) (d_link d) in
      if es_type sc =? SHT_NOBITS then
        l ← Globl ls (s64 (ey_size es)) NOPTR l; Ok (add_global i es ls l d)
      else
        match es_data sc with
        | None => Fail "section data"
        | Some b =>
            let hi := u64 (ey_value es + ey_size es) in
            if zlen b <? hi then Ok (with_link d l)
            else
              l ← Globl ls (s64 (ey_size es)) NOPTR (modify ls (set_kind "SDATA") l);
              match slice_ b (ey_value es) hi with
              | None => Fail "slice bounds out of range"
              | Some p => Ok (add_global i es ls (modify ls (WriteBytes 0 p) l) d)
              end
        end
  end.

(** Whether section [i] is copied. *)
Definition data_section (c : converter) (i : Z) (sc : esection) : bool :=
  negb ((Z.land (es_flags sc) SHF_ALLOC =? 0) || isText c i || (es_size sc =? 0) ||
        (negb (es_type sc =? SHT_PROGBITS) && negb (es_type sc =? SHT_NOBITS)) || negb (isDataSection (es_name sc))).

Definition emit_section (c : converter) (d : dstate) (x : Z * esection) : res string dstate :=
  let '(i, sc) := x in
  if negb (data_section c i sc) then Ok d
  else
    let '(ls, l) := Lookup ("goc.data." +:+ cv_tu c +:+ "." +:+ sanitize (es_name sc)) (d_link d) in
    l ← (if es_type sc =? SHT_NOBITS then Globl ls (s64 (es_size sc)) NOPTR l
         else match es_data sc with
              | None => Fail "section data"
              | Some b =>
                  l ← (if negb (Z.land (es_flags sc) SHF_WRITE =? 0)
                       then Globl ls (zlen b) NOPTR (modify ls (set_kind "SDATA") l)
                       else Globl ls (zlen b) (Z.lor RODATA DUPOK) l);
                  Ok (modify ls (WriteBytes 0 b) l)
              end);
    Ok (mkD (d_dataSym d) (<[i := ls]> (d_secSym d)) (d_ranges d) l).

(** A slice with its indices. *)
Definition indexed {A} (l : list A) : list (Z * A) := imap (fun i x => (Z.of_nat i, x)) l.

(** ** Relocations *)

(** [for int64(len(ls.P)) < ls.Size]: each turn writes one zero byte at the end. *)
Fixpoint pad_go (fuel : nat) (s : Sym) : Sym :=
  match fuel with
  | O => s
  | S fuel => if zlen (s_P s) <? s_Size s then pad_go fuel (default s (WriteInt (zlen (s_P s)) 1 0 s)) else s
  end.
Definition pad (s : Sym) : Sym := pad_go (Z.to_nat (s_Size s - zlen (s_P s))) s.

(** [c.syms[r.Sym-1]], when there is one. *)
Definition rela_sym (c : converter) (r : rela) : option esymbol :=
  if re_Sym r =? 0 then None else cv_syms c !! Z.to_nat (re_Sym r - 1).

(** A PC32 word against text: a jump table entry. *)
Definition is_entry (c : converter) (r : rela) : bool :=
  negb (cv_arm64 c) && (re_Type r =? R_X86_64_PC32) &&
  match rela_sym c r with Some es => isText c (ey_section es) | None => false end.

Definition pcTextAt (c : converter) (rs : list rela) : gset Z :=
  list_to_set (re_Off <$> filter (fun r => is_entry c r = true) rs).

Record tableBase := mkBase { tb_sec : Z; tb_off : Z; tb_owner : sid }.

Definition add_table (c : converter) (i : Z) (name : string) (ats : gset Z) (st : list tableBase * Link) (x : Z * rela) :
    res string (list tableBase * Link) :=
  let '(tables, l) := st in
  let '(sec, r) := x in
  if cv_arm64 c || negb (re_Type r =? R_X86_64_PC32) then Ok st
  else match rela_sym c r with
       | None => Ok st
       | Some es =>
           let base := s64 (s64 (ey_value es) + re_Add r + 4) in
           if negb (ey_section es =? i) || (base <? 0) || negb (bool_decide (base ∈ ats)) then Ok st
           else match resolveText c sec (re_Off r) l with
                | ((None, _), _) => Fail ("jump table " +:+ name +:+ "+" +:+ hex base +:+ " has no owning function")
                | ((Some owner, _), l) => Ok (tables ++ [mkBase sec base owner], l)
                end
       end.

Definition base_le (a b : tableBase) : Prop := tb_off a <= tb_off b.
#[export] Instance base_le_dec a b : Decision (base_le a b) := decide (tb_off a <= tb_off b).

(** Neighbours at one offset must have one owner; the offset of the first that have
    not. *)
Fixpoint two_owners (ts : list tableBase) : option Z :=
  match ts with
  | a :: ((b :: _) as ts) =>
      if (tb_off a =? tb_off b) && negb (bool_decide (tb_owner a = tb_owner b)) then Some (tb_off b) else two_owners ts
  | _ => None
  end.

(** [sort.Search]: binary search for the least index where [f] holds; the interval
    shrinks in every turn. *)
Fixpoint search_go (fuel : nat) (f : nat -> bool) (i j : nat) : nat :=
  match fuel with
  | O => i
  | S fuel =>
      if (i <? j)%nat
      then let h := ((i + j) / 2)%nat in if f h then search_go fuel f i h else search_go fuel f (S h) j
      else i
  end.
Definition Search (n : nat) (f : nat -> bool) : nat := search_go n f 0 n.

(** The last table base at or before [off]. *)
Definition table_at (tables : list tableBase) (off : Z) : option tableBase :=
  let j := Search (length tables) (fun j => match tables !! j with Some t => off <? tb_off t | None => false end) in
  match j with O => None | S j => tables !! j end.

(** Target, addend and ELF name of a jump table entry. *)
Definition entry_target (c : converter) (name : string) (tables : list tableBase) (r : rela) (l : Link) :
    res string (sid * Z * Link) :=
  let at_off := name +:+ "+" +:+ hex (re_Off r) in
  match table_at tables (re_Off r) with
  | None => Fail ("no base for jump table entry " +:+ at_off)
  | Some t =>
      let idx := s64 (re_Off r - tb_off t) in
      match cv_syms c !! Z.to_nat (u32 (re_Sym r - 1)) with
      | None => Fail "index out of range"
      | Some es =>
          let actual := s64 (s64 (ey_value es) + re_Add r - idx) in
          if actual <? 0 then Fail ("negative jump table target " +:+ at_off)
          else
            let '((target, delta), l) := resolveText c (ey_section es) actual l in
            if bool_decide (target = Some (tb_owner t)) then Ok (tb_owner t, s64 (delta + idx + 4), l)
            else Fail ("jump table " +:+ at_off +:+ " targets another function than its owner")
      end
  end.

(** The symbol that holds the word at [off] of the section copied to [ls]. *)
Definition host_of (ranges : list nameRange) (ls : sid) (off : Z) : sid * Z :=
  match snd <$> list_find (fun nr => nr_start nr <= off < nr_end nr) ranges with
  | Some nr => (nr_sym nr, s64 (off - nr_start nr))
  | None => (ls, s64 off)
  end.

Definition data_type (c : converter) (t : Z) : option sizedReloc := if cv_arm64 c then arm64DataReloc t else alookup t X86Data.

Definition data_reloc (c : converter) (name : string) (ls : sid) (ranges : list nameRange) (ats : gset Z)
    (tables : list tableBase) (l : Link) (r : rela) : res string Link :=
  '(target, add, l) ←
    (if bool_decide (re_Off r ∈ ats) then entry_target c name tables r l
     else if re_Sym r =? 0 then Ok (ls, re_Add r, l)
     else match resolveTarget c r l with
          | ((Some i, add, _), l) => Ok (i, add, l)
          | ((None, _, ename), _) =>
              Fail ("data reloc at " +:+ name +:+ "+" +:+ hex (re_Off r) +:+ ": unresolved " +:+ quote ename)
          end);
  let '(host, off) := host_of ranges ls (re_Off r) in
  match data_type c (re_Type r) with
  | None => Fail ("unsupported " +:+ (if cv_arm64 c then "arm64 " else "") +:+ "data reloc type " +:+ dec (re_Type r) +:+
                  " in " +:+ name +:+ " at " +:+ hex (re_Off r))
  | Some t => Ok (modify host (AddRel (mkLReloc (s32 off) (sz_Siz t) (sz_Type t) add target)) l)
  end.

(** The relocations of one section. *)
Definition section_relocs (c : converter) (d : dstate) (codeRels : list (Z * rela)) (l : Link) (i : Z) : res string Link :=
  let ls := default 0%nat (d_secSym d !! i) in
  let name := match elf_section_at (cv_ef c) i with Some sc => es_name sc | None => "" end in
  rs ← relas c i;
  match rs with
  | [] => Ok l
  | _ =>
      let ats := pcTextAt c rs in
      '(tables, l) ← rfold (add_table c i name ats) ([], modify ls pad l) codeRels;
      let tables := merge_sort base_le tables in
      match two_owners tables with
      | Some off => Fail ("jump table " +:+ name +:+ "+" +:+ hex off +:+ " has two owners")
      | None => rfold (data_reloc c name ls (default [] (d_ranges d !! i)) ats tables) l rs
      end
  end.

(** The relocations of all text sections, with their section. *)
Definition code_rels (c : converter) : res string (list (Z * rela)) :=
  rfold (fun acc sec => rs ← relas c sec; Ok (acc ++ (pair sec <$> rs))) [] (textSecs c).

Definition with_data (c : converter) (d : dstate) : converter :=
  mkConv (cv_pkg c) (cv_tu c) (cv_arm64 c) (cv_libcallImpl c) (cv_ef c) (cv_syms c) (cv_fns c) (cv_bySec c)
    (cv_abiByGoSym c) (cv_goName c) (d_dataSym d) (d_secSym d).

(** The symbols, then the relocations. *)
Definition emit_symbols (c : converter) (l : Link) : res string dstate :=
  d ← rfold (emit_global c) (mkD (cv_dataSym c) (cv_secSym c) ∅ l) (indexed (cv_syms c));
  rfold (emit_section c) d (indexed (ef_sections (cv_ef c))).

Definition emitData (c : converter) (l : Link) : res string (converter * Link) :=
  d ← emit_symbols c l;
  let c := with_data c d in
  codeRels ← code_rels c;
  l ← rfold (section_relocs c d codeRels) (d_link d) (sortedKeys (d_secSym d));
  Ok (c, l).
