(* ===== verification/DataProofs.v ===== *)
(** * Properties of the data emitter

    The relocations of Data.v: every ELF relocation of a data section becomes one Go
    relocation of the symbol that holds its bytes, and the words of a jump table
    keep their meaning. *)

From Stdlib Require Import ZArith Lia Ascii.
From stdpp Require Import base list strings gmap sorting.
From S2P Require Import Prelude Text Codec Format Elf Layout Link Convert Data.

(** ** Binary search *)

Section Search.
Context (n : nat) (f : nat -> bool).
Hypothesis mono : forall k k', (k <= k')%nat -> (k' < n)%nat -> f k = true -> f k' = true.

Lemma search_go_spec fuel : forall i j, (i <= j <= n)%nat -> (j - i <= fuel)%nat ->
  (forall k, (k < i)%nat -> f k = false) -> (forall k, (j <= k < n)%nat -> f k = true) ->
  let r := search_go fuel f i j in
  (r <= n)%nat /\ (forall k, (k < r)%nat -> f k = false) /\ (forall k, (r <= k < n)%nat -> f k = true).
Proof using mono.
  induction fuel as [|fuel IH]; intros i j Hij Hf Hlo Hhi r; subst r; cbn [search_go].
  { replace j with i in Hhi by lia. split_and!; [lia | done | done]. }
  destruct (Nat.ltb_spec i j); [|replace j with i in Hhi by lia; split_and!; [lia | done | done]].
  set (h := ((i + j) / 2)%nat). assert (i <= h < j)%nat as Hh by (unfold h; split; [apply Nat.div_le_lower_bound | apply Nat.div_lt_upper_bound]; lia).
  destruct (f h) eqn:E.
  - apply IH; [lia | lia | done |]. intros k Hk. apply (mono h k); [lia.. | done].
  - apply IH; [lia | lia | | done]. intros k Hk. destruct (f k) eqn:Ek; [|done]. rewrite (mono k h) in E; [done | lia.. | done].
Qed.

Lemma Search_spec : (Search n f <= n)%nat /\ (forall k, (k < Search n f)%nat -> f k = false) /\
  (forall k, (Search n f <= k < n)%nat -> f k = true).
Proof using mono. apply search_go_spec; [lia.. | intros k; lia | intros k; lia]. Qed.
End Search.

Lemma StronglySorted_lookup {A} (R : relation A) l i j x y :
  StronglySorted R l -> l !! i = Some x -> l !! j = Some y -> (i < j)%nat -> R x y.
Proof.
  intros Hs Hi Hj Hlt. rewrite <-(take_drop_middle l i x Hi) in Hs. apply (StronglySorted_app_1_r R) in Hs.
  apply (StronglySorted_cons R) in Hs as [Hall _]. rewrite Forall_forall in Hall. apply Hall.
  apply list_elem_of_lookup. exists (j - S i)%nat. rewrite lookup_drop. replace (S i + (j - S i))%nat with j by lia. done.
Qed.

Lemma Forall2_impl_in {A B} (P Q : A -> B -> Prop) l k : Forall2 P l k -> (forall x y, x ∈ l -> P x y -> Q x y) -> Forall2 Q l k.
Proof.
  induction 1 as [|x y l k Hp _ IH]; intros H; constructor; [apply H; [left | done] | apply IH; intros; apply H; [by right | done]].
Qed.

Lemma Forall2_zip {A B} (P : A -> B -> Prop) l k : Forall2 P l k -> Forall (fun p => P (fst p) (snd p)) (zip l k).
Proof. induction 1; constructor; done. Qed.

#[export] Instance base_le_total : Total base_le.
Proof. intros a b. unfold base_le. lia. Qed.

#[export] Instance base_le_trans : Transitive base_le.
Proof. intros a b c. unfold base_le. lia. Qed.

Lemma table_at_spec tables off : StronglySorted base_le tables ->
  match table_at tables off with
  | Some t => t ∈ tables /\ tb_off t <= off /\ forall t', t' ∈ tables -> tb_off t' <= off -> tb_off t' <= tb_off t
  | None => forall t, t ∈ tables -> off < tb_off t
  end.
Proof.
  intros Hs. unfold table_at. set (f := fun j => _). destruct (Search_spec (length tables) f) as (Hn & Hlo & Hhi).
  { intros k k' Hk Hk' Hf. unfold f in *. destruct (lookup_lt_is_Some_2 tables k' Hk') as [t' Ht'].
    destruct (tables !! k) as [t|] eqn:Et; [|done]. rewrite Ht'. apply Z.ltb_lt in Hf. apply Z.ltb_lt.
    destruct (decide (k = k')) as [->|]; [rewrite Et in Ht'; by injection Ht' as ->|].
    pose proof (StronglySorted_lookup base_le tables k k' t t' Hs Et Ht' ltac:(lia)) as H. unfold base_le in H. lia. }
  assert (forall k t, tables !! k = Some t -> (Search (length tables) f <= k)%nat <-> off < tb_off t) as Hf.
  { intros k t Hk. pose proof (lookup_lt_Some _ _ _ Hk). split.
    - intros Hge. pose proof (Hhi k ltac:(lia)) as H1. unfold f in H1. rewrite Hk in H1. by apply Z.ltb_lt in H1.
    - intros Hlt. destruct (decide (k < Search (length tables) f)%nat) as [Hl|]; [|lia]. specialize (Hlo k Hl). unfold f in Hlo.
      rewrite Hk in Hlo. apply Z.ltb_ge in Hlo. lia. }
  destruct (Search (length tables) f) as [|j] eqn:Ej.
  { intros t [k Hk]%list_elem_of_lookup. apply (Hf k t Hk). lia. }
  destruct (lookup_lt_is_Some_2 tables j ltac:(lia)) as [t Ht]. rewrite Ht.
  assert (tb_off t <= off) as Hle. { destruct (Z.le_gt_cases (tb_off t) off) as [|Hgt]; [done|]. apply Z.lt_gt, Z.gt_lt, (Hf j t Ht) in Hgt. lia. }
  split_and!; [by apply list_elem_of_lookup_2 in Ht | done |]. intros t' [k Hk]%list_elem_of_lookup Hoff.
  assert (k <= j)%nat as Hkj. { destruct (decide (k <= j)%nat); [done|]. assert (off < tb_off t') by (apply (Hf k t' Hk); lia). lia. }
  destruct (decide (k = j)) as [->|]; [rewrite Ht in Hk; by injection Hk as ->|].
  exact (StronglySorted_lookup base_le tables k j t' t Hs Hk Ht ltac:(lia)).
Qed.

(** ** One relocation *)

(** No function of the section is the thunk of a libcall that starts at [addr]. *)
Definition never_libcall (c : converter) (sec addr : Z) : Prop := forall l, no_libcall c l sec addr.

(** The symbols of [l] are in [l'], changed by [f] only. *)
Definition changes (f : sid -> Sym -> Sym) (l l' : Link) : Prop :=
  forall j s, l_syms l !! j = Some s -> l_syms l' !! j = Some (f j s).

Definition same : sid -> Sym -> Sym := fun _ s => s.

Lemma changes_refl l : changes same l l.
Proof. by intros j s. Qed.
#[export] Hint Resolve changes_refl : goc.

Lemma changes_trans f g l1 l2 l3 : changes f l1 l2 -> changes g l2 l3 -> changes (fun j s => g j (f j s)) l1 l3.
Proof. intros H1 H2 j s Hj. by apply H2, H1. Qed.

Lemma changes_modify i f l : changes (fun j s => if decide (i = j) then f s else s) l (modify i f l).
Proof. intros j s Hj. by apply modify_lookup. Qed.

Lemma changes_text c sec addr l : changes same l (snd (resolveText c sec addr l)).
Proof. intros j s. apply resolveText_keeps. Qed.

Lemma changes_target c r l : changes same l (snd (resolveTarget c r l)).
Proof. intros j s. apply resolveTarget_keeps. Qed.

Lemma entry_target_keeps c name tables r l t add l' : entry_target c name tables r l = Ok (t, add, l') -> changes same l l'.
Proof.
  unfold entry_target. destruct (table_at tables (re_Off r)) as [t0|]; [|done]. destruct (cv_syms c !! _) as [es|]; [|done].
  destruct (_ <? 0); [done|]. match goal with |- context [resolveText c ?a ?b l] => pose proof (changes_text c a b l) as H end.
  destruct (resolveText _ _ _ _) as [[target delta] l1]. case_bool_decide; [|done]. by intros [= <- <- <-].
Qed.

(** What the Go relocation of [r] says, when [host] holds its bytes at [off]. *)
Definition placed_rel (c : converter) (off : Z) (r : rela) (rel : LReloc) : Prop :=
  lr_Off rel = s32 off /\ exists t, data_type c (re_Type r) = Some t /\ lr_Siz rel = sz_Siz t /\ lr_Type rel = sz_Type t.

Definition add_rel (host : sid) (rel : LReloc) : sid -> Sym -> Sym := fun j s => if decide (host = j) then AddRel rel s else s.

Lemma data_reloc_ok c name ls ranges ats tables l r l' : data_reloc c name ls ranges ats tables l r = Ok l' ->
  exists rel, placed_rel c (snd (host_of ranges ls (re_Off r))) r rel /\
    changes (add_rel (fst (host_of ranges ls (re_Off r))) rel) l l' /\
    (re_Off r ∈ ats -> exists l1, entry_target c name tables r l = Ok (lr_Sym rel, lr_Add rel, l1)).
Proof.
  unfold data_reloc. intros E. ok_step E x. destruct x as [[target add] l1].
  destruct (host_of ranges ls (re_Off r)) as [host off]. destruct (data_type c (re_Type r)) as [t|] eqn:Et; [|done].
  injection E as <-. exists (mkLReloc (s32 off) (sz_Siz t) (sz_Type t) add target). split_and!.
  - split; [done|]. exists t. split_and!; done.
  - assert (changes same l l1) as H1; [|exact (changes_trans _ _ _ _ _ H1 (changes_modify _ _ _))].
    case_bool_decide; [by eapply entry_target_keeps|]. destruct (re_Sym r =? 0); [injection Ex as <- <- <-; auto with goc|].
    pose proof (changes_target c r l) as H1. destruct (resolveTarget c r l) as [[[[i|] a] n] l2]; [|done].
    by injection Ex as <- <- <-.
  - intros Hin. rewrite bool_decide_eq_true_2 in Ex by done. exists l1. by rewrite Ex.
Qed.

(** ** Jump tables *)

(** The offset in its section that a PC-relative code reference denotes. *)
Definition ref_target (es : esymbol) (r : rela) : Z := s64 (s64 (ey_value es) + re_Add r + 4).

(** [t] is the target of a code reference of the function that owns it. *)
Definition table_of (c : converter) (i : Z) (codeRels : list (Z * rela)) (t : tableBase) : Prop :=
  exists r es l1, (tb_sec t, r) ∈ codeRels /\ rela_sym c r = Some es /\ ey_section es = i /\
    tb_off t = ref_target es r /\ 0 <= tb_off t /\ fst (fst (resolveText c (tb_sec t) (re_Off r) l1)) = Some (tb_owner t).

Lemma add_table_ok c i name ats ts l x ts' l' codeRels : x ∈ codeRels -> add_table c i name ats (ts, l) x = Ok (ts', l') ->
  Forall (table_of c i codeRels) ts -> Forall (table_of c i codeRels) ts' /\ changes same l l'.
Proof.
  destruct x as [sec r]. intros Hin E Hts. unfold add_table in E.
  assert (Ok (ts, l) = Ok (E := string) (ts', l') -> Forall (table_of c i codeRels) ts' /\ changes same l l') as Hsame
    by (intros [= <- <-]; auto with goc).
  destruct (_ || _); [by apply Hsame|]. destruct (rela_sym c r) as [es|] eqn:Es; [|by apply Hsame].
  fold (ref_target es r) in E.
  destruct (negb (ey_section es =? i) || (ref_target es r <? 0) || _) eqn:Eb; [by apply Hsame|]. bool_simp.
  pose proof (changes_text c sec (re_Off r) l) as Hl. destruct (resolveText c sec (re_Off r) l) as [[[owner|] delta] l1] eqn:Er; [|done].
  injection E as <- <-. split; [|exact Hl]. apply Forall_app. split; [done|]. apply Forall_singleton.
  exists r, es, l. cbn. by rewrite Er.
Qed.

Lemma add_tables_ok c i name ats codeRels l ts l' : rfold (add_table c i name ats) ([], l) codeRels = Ok (ts, l') ->
  Forall (table_of c i codeRels) ts /\ changes same l l'.
Proof.
  intros E. apply (rfold_ind (fun '(ts, l1) => Forall (table_of c i codeRels) ts /\ changes same l l1)) in E; [done | |auto with goc].
  intros [ts1 l1] x [ts2 l2] Hx [H1 H2] Ea. destruct (add_table_ok _ _ _ _ _ _ _ _ _ _ Hx Ea H1) as [H3 H4].
  split; [done|]. exact (changes_trans _ _ _ _ _ H2 H4).
Qed.

(** Offsets, values and addends of an ELF object, which keep 64-bit sums exact. *)
Definition in_range (es : esymbol) (r : rela) : Prop :=
  0 <= re_Off r < 2 ^ 62 /\ 0 <= ey_value es < 2 ^ 61 /\ - 2 ^ 61 <= re_Add r < 2 ^ 61 /\ is_u32 (re_Sym r).

(** The text offset of the case that the entry [r] of the table at [base] leads to:
    the entry holds the case's address minus the table's. *)
Definition case_of (es : esymbol) (r : rela) (base : Z) : Z := ey_value es + re_Add r - (re_Off r - base).

(** The Go word of the entry [r], wherever the linker puts the symbols, is the
    address of the same case minus the address of the table. *)
Definition jump_word (c : converter) (i : Z) (ls : sid) (codeRels : list (Z * rela)) (host : sid * Z) (r : rela) (rel : LReloc) : Prop :=
  exists es t y, rela_sym c r = Some es /\ table_of c i codeRels t /\ tb_off t <= re_Off r /\
    y ∈ sec_fns c (ey_section es) /\ lr_Sym rel = cf_sym y /\ lr_Sym rel = tb_owner t /\
    forall place, place (fst host) + snd host = place ls + re_Off r ->
      go_pcrel place (fst host) (snd host) (lr_Sym rel) (lr_Add rel) =
      place (cf_sym y) + (case_of es r (tb_off t) - cf_off y) - (place ls + tb_off t).

Lemma rela_sym_index c r es : rela_sym c r = Some es -> is_u32 (re_Sym r) -> cv_syms c !! Z.to_nat (u32 (re_Sym r - 1)) = Some es.
Proof.
  unfold rela_sym. destruct (Z.eqb_spec (re_Sym r) 0); [done|]. intros H Hr. unfold is_u32 in Hr.
  rewrite u32_small by (unfold is_u32; lia). done.
Qed.

Lemma entry_target_word c name tables r l i add l' es sec ls codeRels host rel :
  Forall (table_of c sec codeRels) tables -> StronglySorted base_le tables ->
  entry_target c name tables r l = Ok (i, add, l') -> rela_sym c r = Some es -> in_range es r ->
  Forall fn_ok (sec_fns c (ey_section es)) ->
  (forall base, base <= re_Off r -> never_libcall c (ey_section es) (case_of es r base)) ->
  lr_Sym rel = i -> lr_Add rel = add -> jump_word c sec ls codeRels host r rel.
Proof.
  intros Hts Hs E Hes (Ho & Hv & Ha & Hu) Hfn Hnl <- <-. unfold entry_target in E. rewrite (rela_sym_index c r es Hes Hu) in E.
  pose proof (table_at_spec tables (re_Off r) Hs) as Hat. destruct (table_at tables (re_Off r)) as [t|]; [|done].
  destruct Hat as (Hin & Hle & _). rewrite Forall_forall in Hts. pose proof (Hts t Hin) as Ht.
  assert (0 <= tb_off t) as Ht0 by (destruct Ht as (? & ? & ? & _ & _ & _ & _ & ? & _); done).
  rewrite (s64_small (re_Off r - tb_off t)), (s64_small (ey_value es)) in E by (unfold is_s64; lia).
  rewrite s64_small in E by (unfold is_s64; lia). fold (case_of es r (tb_off t)) in E.
  destruct (Z.ltb_spec (case_of es r (tb_off t)) 0) as [|H0]; [done|].
  destruct (resolveText c (ey_section es) (case_of es r (tb_off t)) l) as [[target delta] l1] eqn:Er. case_bool_decide as Hown; [|done].
  subst target. injection E as Ei Eadd El. assert (0 <= case_of es r (tb_off t) < 2 ^ 63) as Hc by (unfold case_of in *; lia).
  destruct (resolveText_ok _ _ _ _ _ _ _ Hc Hfn (Hnl _ Hle l) Er) as (_ & y & Hy & Ey & Ed & _).
  exists es, t, y. split_and!; [done.. | congruence | done |]. intros place Hp. unfold go_pcrel. rewrite Hp, <-Eadd.
  rewrite Forall_forall in Hfn. destruct (Hfn y Hy) as (? & ? & ?).
  rewrite s64_small by (unfold is_s64, case_of in *; lia). rewrite <-Ei, Ey. lia.
Qed.

(** ** The relocations of a section *)

(** What the linker loads for a symbol: its bytes, then zeros up to its size. *)
Definition image (s : Sym) : list Z := grow (s_P s) (s_Size s).

(** Two symbols that differ at most in kind and in written zeros. *)
Definition same_data (s s' : Sym) : Prop :=
  image s' = image s /\ s_R s' = s_R s /\ s_Name s' = s_Name s /\ s_ABI s' = s_ABI s /\ s_onList s' = s_onList s /\
  s_Size s' = s_Size s /\ s_Func s' = s_Func s.

#[export] Instance same_data_refl : Reflexive same_data.
Proof. intros s. by split_and!. Qed.

#[export] Instance same_data_trans : Transitive same_data.
Proof. intros a b c (? & ? & ? & ? & ? & ? & ?) (? & ? & ? & ? & ? & ? & ?). split_and!; congruence. Qed.

Lemma write_zero s : zlen (s_P s) < s_Size s -> exists k, default s (WriteInt (zlen (s_P s)) 1 0 s) =
  set_data s k (s_P s ++ [0]) (s_Size s).
Proof.
  intros H. unfold WriteInt, prepwrite. cbn [Z.eqb Pos.eqb orb default from_option id set_data s_P s_Size s_Kind]. eexists. f_equal.
  - rewrite (proj2 (Z.ltb_lt _ _)) by lia. unfold grow. replace (Z.to_nat _) with 1%nat by lia. unfold put_at, zlen.
    rewrite Nat2Z.id. change (le_bytes (Z.to_nat 1) 0) with [0]. cbn [replicate length]. rewrite take_app_length.
    rewrite drop_ge by (rewrite length_app; cbn; lia). done.
  - by rewrite (proj2 (Z.ltb_ge _ _)) by lia.
Qed.

Lemma pad_go_same n : forall s, same_data s (pad_go n s).
Proof.
  induction n as [|n IH]; intros s; cbn [pad_go]; [done|]. destruct (Z.ltb_spec (zlen (s_P s)) (s_Size s)) as [H|]; [|done].
  destruct (write_zero s H) as [k ->]. etrans; [|apply IH]. split_and!; try done. unfold image, grow. cbn [set_data s_P s_Size].
  rewrite zlen_app, <-app_assoc. f_equal. change (zlen [0]) with 1. replace (Z.to_nat (s_Size s - zlen (s_P s))) with (S (Z.to_nat (s_Size s - (zlen (s_P s) + 1)))) by lia.
  done.
Qed.

Lemma pad_same s : same_data s (pad s).
Proof. apply pad_go_same. Qed.

(** Padding reaches the end. *)
Lemma pad_full s : 0 <= s_Size s -> zlen (s_P (pad s)) = Z.max (zlen (s_P s)) (s_Size s).
Proof.
  intros H0. unfold pad. remember (Z.to_nat (s_Size s - zlen (s_P s))) as n eqn:En. revert s H0 En.
  induction n as [|n IH]; intros s H0 En; cbn [pad_go]; [lia|].
  destruct (Z.ltb_spec (zlen (s_P s)) (s_Size s)) as [H|]; [|lia]. destruct (write_zero s H) as [k ->].
  rewrite IH; cbn [set_data s_P s_Size]; rewrite ?zlen_app; change (zlen [0]) with 1; lia.
Qed.

(** The relocations among [ps] that the symbol [j] holds. *)
Definition held (h : rela -> sid * Z) (j : sid) (ps : list (rela * LReloc)) : list LReloc :=
  snd <$> filter (fun p => fst (h (fst p)) = j) ps.

Definition add_rels (rs : sid -> list LReloc) : sid -> Sym -> Sym := fun j s => set_R s (s_R s ++ rs j).

Lemma data_relocs_ok c name ls ranges ats tables rs : forall l l',
  rfold (data_reloc c name ls ranges ats tables) l rs = Ok l' ->
  let h r := host_of ranges ls (re_Off r) in
  exists rels, Forall2 (fun r rel => placed_rel c (snd (h r)) r rel /\
      (re_Off r ∈ ats -> exists la lb, entry_target c name tables r la = Ok (lr_Sym rel, lr_Add rel, lb))) rs rels /\
    changes (add_rels (fun j => held h j (zip rs rels))) l l'.
Proof.
  induction rs as [|r rs IH]; intros l l' E h; cbn [rfold] in E.
  { injection E as <-. exists []. split; [constructor|]. intros j s Hj. unfold add_rels, held. cbn. rewrite app_nil_r. by destruct s. }
  ok_step E l1. apply data_reloc_ok in El1 as (rel & Hp & Hc & He). destruct (IH _ _ E) as (rels & Hf & Hl).
  exists (rel :: rels). split; [constructor; [split; [exact Hp|] | exact Hf]; intros Hin; exists l; by apply He|].
  intros j s Hj. apply Hc, Hl in Hj. rewrite Hj. f_equal. unfold add_rels, add_rel, held. cbn [zip zip_with fst snd].
  rewrite filter_cons. fold (h r). cbn [fst]. destruct (decide (fst (h r) = j)); [|done].
  cbn [fmap list_fmap snd]. unfold AddRel. cbn [set_R s_R]. by rewrite <-app_assoc.
Qed.

(** Symbols keep their data and get the relocations [rs]. *)
Definition relocated (rs : sid -> list LReloc) (l l' : Link) : Prop :=
  forall j s, l_syms l !! j = Some s -> exists s', l_syms l' !! j = Some s' /\ same_data (set_R s (s_R s ++ rs j)) s'.

Definition entry_word (c : converter) (i : Z) (ls : sid) (codeRels : list (Z * rela)) (h : rela -> sid * Z) (r : rela) (rel : LReloc) : Prop :=
  forall es, is_entry c r = true -> rela_sym c r = Some es -> in_range es r -> Forall fn_ok (sec_fns c (ey_section es)) ->
    (forall base, base <= re_Off r -> never_libcall c (ey_section es) (case_of es r base)) ->
    jump_word c i ls codeRels (h r) r rel.

Lemma section_relocs_ok c d codeRels l i l' rs : relas c i = Ok rs -> section_relocs c d codeRels l i = Ok l' ->
  let ls := default 0%nat (d_secSym d !! i) in
  let h r := host_of (default [] (d_ranges d !! i)) ls (re_Off r) in
  exists rels, Forall2 (fun r rel => placed_rel c (snd (h r)) r rel /\ entry_word c i ls codeRels h r rel) rs rels /\
    relocated (fun j => held h j (zip rs rels)) l l'.
Proof.
  intros Hrs E ls h. unfold section_relocs in E. fold ls in E.
  set (name := match elf_section_at (cv_ef c) i with Some sc => es_name sc | None => "" end) in E. clearbody name.
  rewrite Hrs in E. cbn [mbind res_bind] in E.
  assert (rs = [] -> Ok l = Ok (E := string) l' -> exists rels,
    Forall2 (fun r rel => placed_rel c (snd (h r)) r rel /\ entry_word c i ls codeRels h r rel) rs rels /\
    relocated (fun j => held h j (zip rs rels)) l l') as Hnil.
  { intros -> [= <-]. exists []. split; [constructor|]. intros j s Hj. exists s. split; [done|]. unfold held. cbn. rewrite app_nil_r. by destruct s. }
  destruct rs as [|r0 rs0] eqn:Ers; [by apply Hnil|]. rewrite <-Ers in *. clear Hnil.
  ok_step E x. destruct x as [ts l1]. apply add_tables_ok in Ex as [Hts Hl1].
  set (tables := merge_sort base_le ts) in E. assert (Forall (table_of c i codeRels) tables) as Hts'.
  { unfold tables. by rewrite merge_sort_Permutation. }
  assert (StronglySorted base_le tables) as Hs by (apply StronglySorted_merge_sort; apply _).
  destruct (two_owners tables); [done|]. apply data_relocs_ok in E as (rels & Hf & Hc). exists rels. split.
  - eapply Forall2_impl_in; [exact Hf|]. intros r rel Hr [Hp He]. split; [exact Hp|]. intros es Hen Hes Hra Hfn Hnl.
    assert (re_Off r ∈ pcTextAt c rs) as Hin.
    { unfold pcTextAt. apply elem_of_list_to_set, list_elem_of_fmap. exists r. split; [done|]. apply list_elem_of_filter. done. }
    destruct (He Hin) as (la & lb & Het). by eapply (entry_target_word _ _ _ _ _ _ _ _ _ _ _ _ _ _ Hts' Hs Het).
  - intros j s Hj. pose proof (changes_modify ls pad l j s Hj) as Hj1. apply Hl1, Hc in Hj1. eexists. split; [exact Hj1|].
    unfold same. destruct (decide (ls = j)); [|done]. destruct (pad_same s) as (H1 & H2 & H3 & H4 & H5 & H6 & H7).
    unfold add_rels. split_and!; cbn [set_R s_R s_Name s_ABI s_onList s_Size s_Func]; first [exact H1 | by rewrite H2 | done].
Qed.

(** ** The symbols *)

(** Symbols that are not declared yet have no contents: they were only looked up. *)
Definition clean (l : Link) : Prop :=
  forall i s, l_syms l !! i = Some s -> s_onList s = false -> s = new_sym (s_Name s) (s_ABI s).

(** Declared symbols stay as they are. *)
Definition keeps_declared (l l' : Link) : Prop :=
  forall i s, l_syms l !! i = Some s -> s_onList s = true -> l_syms l' !! i = Some s.

#[export] Instance keeps_declared_trans : Transitive keeps_declared.
Proof. intros a b c H1 H2 i s Hi Ho. by apply H2, Ho; apply H1. Qed.

Lemma lookup_fresh name l i l' : link_ok l -> clean l -> Lookup name l = (i, l') ->
  link_ok l' /\ clean l' /\ keeps_declared l l' /\ exists s, l_syms l' !! i = Some s /\ s_Name s = name /\ s_ABI s = ABI0.
Proof.
  intros Hok Hc E. pose proof (LookupABI_ok name ABI0 l ltac:(by left) Hok) as H. unfold Lookup in E. rewrite E in H.
  destruct H as (Hok' & Hs & _ & Hk & _). split_and!; [done | | intros j s Hj _; by apply Hk | done].
  unfold LookupABI in E. cbn in E. destruct (l_hash l !! name); injection E as <- <-; [done|]. intros j s Hj Ho. cbn in Hj.
  apply lookup_app_Some in Hj as [Hj|[_ Hj]]; [by eapply Hc|]. apply list_lookup_singleton_Some in Hj as [_ <-]. done.
Qed.

Lemma globl_fresh i size flag l l' : link_ok l -> Globl i size flag l = Ok l' ->
  exists s, l_syms l !! i = Some s /\ s_onList s = false /\ link_ok l' /\
    (forall j, l_syms l' !! j = if decide (i = j) then Some (declare flag size s) else l_syms l !! j).
Proof.
  intros Hok E. pose proof (ex_ok _ _ (extends_Globl _ _ _ _ _ E) Hok) as Hok'. unfold Globl in E.
  destruct (l_syms l !! i) as [s|] eqn:Ei; [|done]. destruct (s_onList s) eqn:Eo; [done|]. injection E as <-.
  exists s. split_and!; [done.. |]. intros j. cbn [l_syms modify]. destruct (decide (i = j)) as [<-|Hne].
  - by rewrite list_lookup_alter_eq, Ei.
  - by rewrite list_lookup_alter_ne.
Qed.

(** One declaration with the assignment of a kind before it and bytes after it. *)
Lemma emit_one (kind : option string) name size flag p l0 i l l1 :
  link_ok l0 -> clean l0 -> Lookup name l0 = (i, l) ->
  Globl i size flag (match kind with Some k => modify i (set_kind k) l | None => l end) = Ok l1 ->
  let l2 := modify i (WriteBytes 0 p) l1 in
  link_ok l2 /\ clean l2 /\ keeps_declared l0 l2 /\
  (forall s, l_syms l0 !! i = Some s -> s_onList s = false) /\
  l_syms l2 !! i = Some (WriteBytes 0 p (declare flag size (match kind with Some k => set_kind k | None => id end (new_sym name ABI0)))).
Proof.
  intros Hok0 Hc0 El Eg. destruct (lookup_fresh _ _ _ _ Hok0 Hc0 El) as (Hok & Hc & Hk & s0 & Hi & Hn & Ha).
  set (lk := match kind with Some k => modify i (set_kind k) l | None => l end) in *.
  assert (l_syms lk !! i = Some (match kind with Some k => set_kind k | None => id end s0) /\
    forall j, j <> i -> l_syms lk !! j = l_syms l !! j) as [Hi' Hne].
  { unfold lk. destruct kind; [|done]. split; [rewrite (modify_lookup _ _ _ _ _ Hi); by rewrite decide_True|].
    intros j Hj. cbn. by rewrite list_lookup_alter_ne. }
  assert (s_onList s0 = false) as Ho.
  { unfold Globl in Eg. rewrite Hi' in Eg. destruct kind; cbn in Eg; by destruct (s_onList s0). }
  assert (link_ok lk) as Hokk.
  { unfold lk. destruct kind as [k|]; [|done]. exact (ex_ok _ _ (extends_kind i k s0 l Hi Ho) Hok). }
  destruct (globl_fresh _ _ _ _ _ Hokk Eg) as (s & Hs & Hso & Hok1 & Hl1). rewrite Hi' in Hs. injection Hs as <-.
  assert (s0 = new_sym name ABI0) as -> by (rewrite (Hc i s0 Hi Ho), Hn, Ha; done).
  assert (forall j, l_syms (modify i (WriteBytes 0 p) l1) !! j = if decide (i = j) then
     Some (WriteBytes 0 p (declare flag size (match kind with Some k => set_kind k | None => id end (new_sym name ABI0)))) else l_syms l !! j) as Hl2.
  { intros j. cbn [l_syms modify]. destruct (decide (i = j)) as [<-|Hij].
    - rewrite list_lookup_alter_eq, Hl1, decide_True by done. done.
    - rewrite list_lookup_alter_ne, Hl1, decide_False by done. by apply Hne. }
  intros l2. split_and!.
  - exact (modify_ok i _ _ (keeps_WriteBytes 0 p) Hok1).
  - intros j s Hj Hjo. subst l2. rewrite Hl2 in Hj. destruct (decide (i = j)) as [<-|]; [|by eapply Hc].
    injection Hj as <-. exfalso. unfold WriteBytes in Hjo. by destruct p.
  - intros j s Hj Hjo. subst l2. rewrite Hl2. destruct (decide (i = j)) as [<-|]; [|by apply Hk].
    specialize (Hk i s Hj Hjo). rewrite Hi in Hk. injection Hk as <-. by rewrite Ho in Hjo.
  - intros s Hj. destruct (s_onList s) eqn:Hjo; [|done]. specialize (Hk i s Hj Hjo). rewrite Hi in Hk. injection Hk as <-. congruence.
  - subst l2. by rewrite Hl2, decide_True.
Qed.

Lemma WriteBytes_nil off s : WriteBytes off [] s = s.
Proof. done. Qed.

Lemma modify_id i l : modify i (WriteBytes 0 []) l = l.
Proof.
  destruct l as [ss h fh t d f fi b]. unfold modify. cbn. f_equal. apply list_eq. intros j. destruct (decide (i = j)) as [<-|].
  - rewrite list_lookup_alter_eq. by destruct (ss !! i).
  - by rewrite list_lookup_alter_ne.
Qed.

Lemma slice_len b lo hi p : slice_ b lo hi = Some p -> 0 <= lo <= hi /\ hi <= zlen b /\ zlen p = hi - lo.
Proof.
  unfold slice_. destruct (_ && _) eqn:E; [|done]. bool_simp. intros [= <-]. unfold zlen in *.
  rewrite length_take, length_drop. lia.
Qed.

(** A slice that was taken did not wrap around. *)
Lemma slice_exact b v n p : is_u64 v -> is_u64 n -> slice_ b v (u64 (v + n)) = Some p -> u64 (v + n) = v + n.
Proof.
  intros Hv Hn H%slice_len. unfold is_u64 in *. destruct (Z.lt_ge_cases (v + n) (2 ^ 64)); [by rewrite u64_small by (unfold is_u64; lia)|].
  exfalso. assert (u64 (v + n) = v + n - 2 ^ 64); [|lia]. unfold u64, wrap. symmetry. apply Z.mod_unique with (q := 1); lia.
Qed.

Lemma written_image flag size p s : s_P s = [] -> size <= zlen p -> (p = [] -> size = 0) ->
  let s' := WriteBytes 0 p (declare flag size s) in
  image s' = p /\ s_onList s' = true /\ s_Name s' = s_Name s /\ s_ABI s' = s_ABI s /\ s_R s' = s_R s.
Proof.
  intros Hp Hs H0. destruct p as [|x p]; cbn [WriteBytes].
  { unfold image, grow. cbn. rewrite Hp, (H0 eq_refl). done. }
  set (q := x :: p) in *. cbn. split_and!; try done. unfold image, grow, prepwrite, put_at. cbn [s_P s_Size set_data declare].
  rewrite Hp, !Z.add_0_l. change (zlen (@nil Z)) with 0. change (Z.to_nat 0) with 0%nat. rewrite take_0, Z.sub_0_r. cbn [app].
  assert (0 < zlen q) as Hq by (unfold q; rewrite zlen_cons; zpos; lia). rewrite (proj2 (Z.ltb_lt 0 (zlen q))) by lia.
  rewrite drop_ge by (rewrite length_replicate; unfold zlen; lia).
  rewrite app_nil_r. assert ((if size <? zlen q then zlen q else size) - zlen q = 0) as ->
    by (destruct (Z.ltb_spec size (zlen q)); lia). by rewrite app_nil_r.
Qed.

(** The Go symbol of a named global: its part of the section. *)
Definition global_sym (c : converter) (es : esymbol) (sc : esection) (s : Sym) : Prop :=
  s_onList s = true /\ s_Name s = cv_pkg c +:+ "." +:+ ey_name es /\ s_ABI s = ABI0 /\
  if es_type sc =? SHT_NOBITS then image s = replicate (Z.to_nat (s64 (ey_size es))) 0
  else is_u64 (ey_value es) -> is_u64 (ey_size es) ->
       exists b, es_data sc = Some b /\ slice_ b (ey_value es) (ey_value es + ey_size es) = Some (image s).

(** The copy of a data section. *)
Definition section_sym (c : converter) (sc : esection) (s : Sym) : Prop :=
  s_onList s = true /\ s_Name s = "goc.data." +:+ cv_tu c +:+ "." +:+ sanitize (es_name sc) /\ s_ABI s = ABI0 /\
  if es_type sc =? SHT_NOBITS then image s = replicate (Z.to_nat (s64 (es_size sc))) 0 else es_data sc = Some (image s).

Record symbols_ok (c : converter) (d : dstate) : Prop := {
  so_link : link_ok (d_link d);
  so_clean : clean (d_link d);
  so_data : forall k ls, d_dataSym d !! k = Some ls -> exists es sc s, 0 <= k /\ cv_syms c !! Z.to_nat k = Some es /\
    data_global c es = Some sc /\ l_syms (d_link d) !! ls = Some s /\ s_R s = [] /\ global_sym c es sc s;
  so_sec : forall i ls, d_secSym d !! i = Some ls -> exists sc s, elf_section_at (cv_ef c) i = Some sc /\ data_section c i sc = true /\
    l_syms (d_link d) !! ls = Some s /\ s_R s = [] /\ section_sym c sc s;
  so_sep : forall i ls, d_secSym d !! i = Some ls ->
    (forall k, d_dataSym d !! k <> Some ls) /\ forall i', d_secSym d !! i' = Some ls -> i' = i;
  so_range : forall sec nr, nr ∈ default [] (d_ranges d !! sec) -> exists es sc s, es ∈ cv_syms c /\ data_global c es = Some sc /\
    ey_section es = sec /\ nr_start nr = ey_value es /\ nr_end nr = u64 (ey_value es + ey_size es) /\
    l_syms (d_link d) !! nr_sym nr = Some s /\ global_sym c es sc s }.

(** Only declared symbols are recorded. *)
Lemma recorded_declared c d j : symbols_ok c d ->
  (exists k, d_dataSym d !! k = Some j) \/ (exists i, d_secSym d !! i = Some j) ->
  exists s, l_syms (d_link d) !! j = Some s /\ s_onList s = true.
Proof.
  intros H [[k Hk]|[i Hi]].
  - destruct (so_data _ _ H k j Hk) as (es & sc & s & _ & _ & _ & Hs & _ & Ho & _). by exists s.
  - destruct (so_sec _ _ H i j Hi) as (sc & s & _ & _ & Hs & _ & Ho & _). by exists s.
Qed.

Lemma symbols_keep c d l : symbols_ok c d -> link_ok l -> clean l -> keeps_declared (d_link d) l -> symbols_ok c (with_link d l).
Proof.
  intros [H1 H2 H3 H4 H5 H6] Hok Hc Hk. split; cbn; try done.
  - intros k ls (es & sc & s & Hk0 & Hes & Hg & Hs & Hr & Hgs)%H3. exists es, sc, s. split_and!; try done. apply Hk; [done | apply Hgs].
  - intros k ls (sc & s & Hsc & Hd & Hs & Hr & Hgs)%H4. exists sc, s. split_and!; try done. apply Hk; [done | apply Hgs].
  - intros sec nr (es & sc & s & ? & ? & ? & ? & ? & Hs & Hgs)%H6. exists es, sc, s. split_and!; try done. apply Hk; [done | apply Hgs].
Qed.

Lemma add_global_ok c d l k es sc ls s : symbols_ok c d -> link_ok l -> clean l -> keeps_declared (d_link d) l ->
  (forall s0, l_syms (d_link d) !! ls = Some s0 -> s_onList s0 = false) ->
  0 <= k -> cv_syms c !! Z.to_nat k = Some es -> data_global c es = Some sc -> l_syms l !! ls = Some s -> s_R s = [] ->
  global_sym c es sc s -> symbols_ok c (add_global k es ls l d).
Proof.
  intros Hd Hok Hc Hk Hnew Hk0 Hes Hg Hs Hr Hgs.
  assert (forall i, d_secSym d !! i <> Some ls) as Hnsec.
  { intros i Hi. destruct (recorded_declared c d ls Hd) as (s0 & Hs0 & Ho); [right; by exists i|]. by rewrite (Hnew s0 Hs0) in Ho. }
  destruct (symbols_keep c d l Hd Hok Hc Hk) as [H1 H2 H3 H4 H5 H6]. split; cbn in *; try done.
  - intros k' ls' [[<- <-]|[_ Hk']]%lookup_insert_Some; [by exists es, sc, s | by apply H3].
  - intros i ls' Hi. destruct (H5 i ls' Hi) as [Hn Hu]. split; [|done].
    intros k' [[_ <-]|[_ Hk']]%lookup_insert_Some; [by apply (Hnsec i) | by apply (Hn k')].
  - intros sec nr Hin. destruct (decide (ey_section es = sec)) as [<-|Hne]; [|rewrite lookup_insert_ne in Hin by done; by apply H6].
    rewrite lookup_insert_eq in Hin. cbn in Hin. apply elem_of_app in Hin as [Hin| ->%list_elem_of_singleton]; [by apply H6|].
    exists es, sc, s. split_and!; try done. by apply list_elem_of_lookup_2 in Hes.
Qed.

Lemma s64_le_u64 n : is_u64 n -> s64 n <= n.
Proof.
  intros H. unfold is_u64 in H. destruct (Z.lt_ge_cases n (2 ^ 63)); [rewrite s64_small; [lia | unfold is_s64; lia]|].
  pose proof (s64_range n). unfold is_s64 in *. lia.
Qed.

(** A zero-filled symbol. *)
Lemma bss_image flag size s : s_P s = [] -> let s' := declare flag size s in
  image s' = replicate (Z.to_nat size) 0 /\ s_onList s' = true /\ s_Name s' = s_Name s /\ s_ABI s' = s_ABI s /\ s_R s' = s_R s.
Proof. intros H. cbn. split_and!; try done. unfold image, grow. cbn. rewrite H. change (zlen (@nil Z)) with 0. by rewrite Z.sub_0_r. Qed.

(** The sizes of ELF symbols are 64-bit words. *)
Definition sized_ok (c : converter) : Prop := forall es, es ∈ cv_syms c -> is_u64 (ey_value es) /\ is_u64 (ey_size es).

Lemma emit_global_ok c d k es d' : sized_ok c -> symbols_ok c d -> 0 <= k -> cv_syms c !! Z.to_nat k = Some es ->
  emit_global c d (k, es) = Ok d' -> symbols_ok c d'.
Proof.
  intros Hsz Hd Hk Hes E. unfold emit_global in E. destruct (data_global c es) as [sc|] eqn:Eg; [|by injection E as <-].
  destruct (Hsz es ltac:(by apply list_elem_of_lookup_2 in Hes)) as [Hv Hn].
  destruct (Lookup (cv_pkg c +:+ "." +:+ ey_name es) (d_link d)) as [ls l] eqn:El.
  destruct (lookup_fresh _ _ _ _ (so_link _ _ Hd) (so_clean _ _ Hd) El) as (Hok & Hc & Hkp & _).
  destruct (es_type sc =? SHT_NOBITS) eqn:Et.
  - ok_step E l1. injection E as <-.
    destruct (emit_one None _ _ _ [] _ _ _ _ (so_link _ _ Hd) (so_clean _ _ Hd) El El1) as (Hok1 & Hc1 & Hk1 & Hnew & Hs).
    rewrite modify_id in *. rewrite WriteBytes_nil in Hs. eapply (add_global_ok _ _ _ _ _ sc); try done.
    unfold global_sym. rewrite Et. destruct (bss_image NOPTR (s64 (ey_size es)) (id (new_sym (cv_pkg c +:+ "." +:+ ey_name es) ABI0)) eq_refl)
      as (? & ? & ? & ? & ?). by split_and!.
  - destruct (es_data sc) as [b|] eqn:Eb; [|done]. destruct (zlen b <? u64 _) eqn:Elen.
    { injection E as <-. by apply symbols_keep. }
    ok_step E l1. destruct (slice_ b _ _) as [p|] eqn:Ep; [|done]. injection E as <-.
    destruct (emit_one (Some "SDATA") _ _ _ p _ _ _ _ (so_link _ _ Hd) (so_clean _ _ Hd) El El1) as (Hok1 & Hc1 & Hk1 & Hnew & Hs).
    pose proof (slice_exact _ _ _ _ Hv Hn Ep) as Hx. rewrite Hx in Ep.
    pose proof (slice_len _ _ _ _ Ep) as (_ & _ & Hlen). pose proof (s64_le_u64 _ Hn).
    destruct (written_image NOPTR (s64 (ey_size es)) p (set_kind "SDATA" (new_sym (cv_pkg c +:+ "." +:+ ey_name es) ABI0)) eq_refl)
      as (Hi & ? & ? & ? & ?); [lia | |].
    { intros ->. change (zlen (@nil Z)) with 0 in Hlen. replace (ey_size es) with 0 by lia. done. }
    eapply (add_global_ok _ _ _ _ _ sc); try done.
    unfold global_sym. rewrite Et. split_and!; try done. intros _ _. exists b. by rewrite Hi.
Qed.

Lemma emit_section_ok c d i sc d' : symbols_ok c d -> elf_section_at (cv_ef c) i = Some sc ->
  d_secSym d !! i = None -> emit_section c d (i, sc) = Ok d' ->
  symbols_ok c d' /\ forall k, k <> i -> d_secSym d' !! k = d_secSym d !! k.
Proof.
  intros Hd Hsc Hi E. unfold emit_section in E. destruct (data_section c i sc) eqn:Eds; cbn [negb] in E; [|by injection E as <-].
  destruct (Lookup _ (d_link d)) as [ls l] eqn:El. ok_step E l2. injection E as <-.
  assert (link_ok l2 /\ clean l2 /\ keeps_declared (d_link d) l2 /\ (forall s, l_syms (d_link d) !! ls = Some s -> s_onList s = false) /\
    exists s, l_syms l2 !! ls = Some s /\ s_R s = [] /\ section_sym c sc s) as (Hok & Hc & Hk & Hnew & s & Hs & Hr & Hss).
  { unfold section_sym. destruct (es_type sc =? SHT_NOBITS).
    - destruct (emit_one None _ _ _ [] _ _ _ _ (so_link _ _ Hd) (so_clean _ _ Hd) El El2) as (H1 & H2 & H3 & H4 & Hs).
      rewrite modify_id in *. rewrite WriteBytes_nil in Hs. split_and!; try done. eexists. split; [exact Hs|].
      by destruct (bss_image NOPTR (s64 (es_size sc)) (id (new_sym ("goc.data." +:+ cv_tu c +:+ "." +:+ sanitize (es_name sc)) ABI0)) eq_refl) as (? & ? & ? & ? & ?).
    - destruct (es_data sc) as [b|]; [|done]. ok_step El2 l1. injection El2 as <-.
      assert (exists kind fl, Globl ls (zlen b) fl (match kind with Some k => modify ls (set_kind k) l | None => l end) = Ok l1) as (kind & fl & Eg).
      { destruct (negb _); [by exists (Some "SDATA"), NOPTR | by exists None, (Z.lor RODATA DUPOK)]. }
      destruct (emit_one kind _ _ _ b _ _ _ _ (so_link _ _ Hd) (so_clean _ _ Hd) El Eg) as (H1 & H2 & H3 & H4 & Hs). split_and!; try done.
      eexists. split; [exact Hs|].
      set (s0 := match kind with Some k => set_kind k | None => id end _).
      destruct (written_image fl (zlen b) b s0) as (-> & ? & ? & ? & ?); [by destruct kind | lia | by intros -> |].
      split_and!; try done; destruct kind; done. }
  split; [|intros k Hne; cbn; by rewrite lookup_insert_ne].
  assert (forall x, ((exists k, d_dataSym d !! k = Some x) \/ (exists i, d_secSym d !! i = Some x)) -> x <> ls) as Hne.
  { intros x Hx ->. destruct (recorded_declared c d ls Hd Hx) as (s0 & Hs0 & Ho). by rewrite (Hnew s0 Hs0) in Ho. }
  destruct (symbols_keep c d l2 Hd Hok Hc Hk) as [H1 H2 H3 H4 H5 H6]. split; cbn in *; try done.
  - intros i' ls' [[<- <-]|[_ Hi']]%lookup_insert_Some; [by exists sc, s | by apply H4].
  - intros i' ls' [[<- <-]|[Hn Hi']]%lookup_insert_Some.
    + split; [intros k Hk'; by apply (Hne ls ltac:(left; by exists k))|]. intros i' [[<- _]|[Hn Hi']]%lookup_insert_Some; [done|].
      by destruct (Hne ls ltac:(right; by exists i')).
    + destruct (H5 i' ls' Hi') as [Ha Hb]. split; [done|]. intros i2 [[<- <-]|[_ Hi2]]%lookup_insert_Some; [|by apply Hb].
      by destruct (Hne ls ltac:(right; by exists i')).
Qed.

(** ** The whole operation *)

Lemma indexed_spec {A} (l : list A) x : x ∈ indexed l -> 0 <= fst x /\ l !! Z.to_nat (fst x) = Some (snd x).
Proof.
  unfold indexed. intros [k Hk]%list_elem_of_lookup. rewrite list_lookup_imap in Hk. destruct (l !! k) as [y|] eqn:E; [|done].
  injection Hk as <-. cbn. split; [lia|]. by rewrite Nat2Z.id.
Qed.

Lemma indexed_elem {A} (l : list A) k y : l !! k = Some y -> (Z.of_nat k, y) ∈ indexed l.
Proof. intros H. apply list_elem_of_lookup. exists k. unfold indexed. by rewrite list_lookup_imap, H. Qed.

Lemma indexed_nodup {A} (l : list A) : NoDup (fst <$> indexed l).
Proof.
  apply NoDup_alt. intros i j z. unfold indexed. rewrite !list_lookup_fmap, !list_lookup_imap.
  destruct (l !! i) as [a|]; [|done]. destruct (l !! j) as [b|]; [|done]. cbn. intros [= <-] [= H]. lia.
Qed.

(** The visit of one element, and what the others keep. *)
Lemma rfold_visit {E S A} (I Q : S -> Prop) (f : S -> A -> res E S) l x : x ∈ l ->
  (forall s y s', y ∈ l -> I s -> f s y = Ok s' -> I s' /\ (Q s -> Q s')) ->
  (forall s s', I s -> f s x = Ok s' -> Q s') -> forall s s', I s -> rfold f s l = Ok s' -> Q s'.
Proof.
  intros Hx Hi Hq s s' Hs E1. apply list_elem_of_split in Hx as (l1 & l2 & ->). rewrite rfold_app in E1. ok_step E1 s1.
  cbn [rfold] in E1. ok_step E1 s2.
  assert (I s1) as H1 by (eapply (rfold_ind I); [|exact Hs | exact Es1]; intros ? y ? Hy Hy1 Hy2; eapply Hi; [|exact Hy1 | exact Hy2]; set_solver).
  pose proof (Hi s1 x s2 ltac:(set_solver) H1 Es2) as [H2 _].
  eapply (rfold_ind (fun s => I s /\ Q s) f l2); [|split; [exact H2 | exact (Hq s1 s2 H1 Es2)] | exact E1].
  intros a y b Hy [Ha Hqa] Ey. destruct (Hi a y b ltac:(set_solver) Ha Ey) as [? Hb]. split; [done | by apply Hb].
Qed.

(** Where the conversion stands when [emitData] is called: nothing emitted yet, and
    the functions' symbols only looked up. *)
Definition start_ok (c : converter) (l : Link) : Prop :=
  cv_dataSym c = ∅ /\ cv_secSym c = ∅ /\ link_ok l /\ clean l /\ sized_ok c.

Lemma emit_sections_ok c xs : forall d d', symbols_ok c d -> NoDup (fst <$> xs) ->
  (forall x, x ∈ xs -> elf_section_at (cv_ef c) (fst x) = Some (snd x) /\ d_secSym d !! fst x = None) ->
  rfold (emit_section c) d xs = Ok d' -> symbols_ok c d'.
Proof.
  induction xs as [|[i sc] xs IH]; intros d d' Hd Hnd Hx E; cbn [rfold] in E; [by injection E as <-|]. ok_step E d1.
  apply NoDup_cons in Hnd as [Hni Hnd]. destruct (Hx (i, sc) ltac:(by left)) as [Hsc Hnone].
  destruct (emit_section_ok c d i sc d1 Hd Hsc Hnone Ed1) as [Hd1 Hk]. eapply IH; [exact Hd1 | exact Hnd | | exact E].
  intros x Hin. destruct (Hx x ltac:(by right)) as [? Hnx]. split; [done|]. rewrite Hk; [done|]. intros <-. apply Hni.
  apply list_elem_of_fmap. by exists x.
Qed.

Lemma emit_globals_ok c d xs d' : sized_ok c -> symbols_ok c d -> (forall x, x ∈ xs -> 0 <= fst x /\ cv_syms c !! Z.to_nat (fst x) = Some (snd x)) ->
  rfold (emit_global c) d xs = Ok d' -> symbols_ok c d'.
Proof.
  intros Hsz Hd Hx. apply (rfold_ind (symbols_ok c)); [|done]. intros d1 [k es] d2 [Hk Hes]%Hx Hd1 E. by eapply emit_global_ok.
Qed.

Lemma emit_global_secs c d x d' : emit_global c d x = Ok d' -> d_secSym d' = d_secSym d.
Proof.
  destruct x as [k es]. unfold emit_global. destruct (data_global c es) as [sc|]; [|by intros [= <-]]. destruct (Lookup _ _) as [ls l].
  destruct (_ =? _); [by intros E; ok_step E l1; injection E as <-|]. destruct (es_data sc); [|done].
  destruct (_ <? _); [by intros [= <-]|]. intros E. ok_step E l1. destruct (slice_ _ _ _); [|done]. by injection E as <-.
Qed.

Lemma emit_section_data c d x d' : emit_section c d x = Ok d' -> d_dataSym d' = d_dataSym d /\ d_ranges d' = d_ranges d.
Proof.
  destruct x as [i sc]. unfold emit_section. destruct (negb _); [by intros [= <-]|]. destruct (Lookup _ _) as [ls l].
  intros E. ok_step E l1. by injection E as <-.
Qed.

Lemma elf_at_index ef i sc : 0 <= i -> ef_sections ef !! Z.to_nat i = Some sc -> elf_section_at ef i = Some sc.
Proof. intros H0 H. unfold elf_section_at. by rewrite (proj2 (Z.leb_le _ _)). Qed.

Lemma emit_symbols_ok c l d : start_ok c l -> emit_symbols c l = Ok d -> symbols_ok c d.
Proof.
  intros (H1 & H2 & H3 & H4 & H5) E. unfold emit_symbols in E. ok_step E d1. rewrite H1, H2 in Ed1.
  assert (d_secSym d1 = ∅) as Hs1.
  { refine (rfold_ind (fun d => d_secSym d = ∅) _ _ _ _ _ eq_refl Ed1). intros a x b _ Ha Ex. by rewrite (emit_global_secs _ _ _ _ Ex). }
  assert (symbols_ok c d1) as Hd1.
  { refine (emit_globals_ok c _ _ _ H5 _ (indexed_spec _) Ed1). split; cbn; try done.
    intros sec nr. rewrite lookup_empty. cbn. by intros ?%not_elem_of_nil. }
  refine (emit_sections_ok c _ _ _ Hd1 (indexed_nodup _) _ E). intros x [Hx0 Hx]%indexed_spec.
  split; [by apply elf_at_index|]. by rewrite Hs1, lookup_empty.
Qed.

(** Whether a named global lies inside its section, as the code checks. *)
Definition inside (es : esymbol) (sc : esection) : Prop :=
  es_type sc = SHT_NOBITS \/ exists b, es_data sc = Some b /\ u64 (ey_value es + ey_size es) <= zlen b.

Lemma emit_symbols_all c l d : start_ok c l -> emit_symbols c l = Ok d ->
  (forall k es sc, cv_syms c !! k = Some es -> data_global c es = Some sc -> inside es sc -> is_Some (d_dataSym d !! Z.of_nat k)) /\
  (forall i sc, elf_section_at (cv_ef c) i = Some sc -> data_section c i sc = true -> is_Some (d_secSym d !! i)).
Proof.
  intros Hst E. unfold emit_symbols in E. ok_step E d1. split.
  - intros k es sc Hk Hg Hin. assert (is_Some (d_dataSym d1 !! Z.of_nat k)) as H1.
    { refine (rfold_visit (fun _ => True) (fun d => is_Some (d_dataSym d !! Z.of_nat k)) _ _ _ (indexed_elem _ _ _ Hk) _ _ _ _ I Ed1).
      - intros a [k' es'] b _ _ Ey. split; [done|]. intros Ha. unfold emit_global in Ey.
        assert (forall ls l, is_Some (d_dataSym (add_global k' es' ls l a) !! Z.of_nat k)) as Hadd
          by (intros ls l1; cbn; apply lookup_insert_is_Some'; by right).
        destruct (data_global c es') as [sc'|]; [|by injection Ey as <-]. destruct (Lookup _ _) as [ls l1].
        destruct (_ =? _); [ok_step Ey l2; by injection Ey as <-|]. destruct (es_data sc') as [b'|]; [|done].
        destruct (_ <? _); [by injection Ey as <-|]. ok_step Ey l2. destruct (slice_ _ _ _); [|done]. by injection Ey as <-.
      - intros a b _ Ey. unfold emit_global in Ey. rewrite Hg in Ey. destruct (Lookup _ _) as [ls l1].
        assert (forall ls l, is_Some (d_dataSym (add_global (Z.of_nat k) es ls l a) !! Z.of_nat k)) as Hadd
          by (intros ls' l2; cbn; by rewrite lookup_insert_eq).
        destruct (Z.eqb_spec (es_type sc) SHT_NOBITS) as [|Hne]; [ok_step Ey l2; by injection Ey as <-|].
        destruct Hin as [|(b' & Hb & Hlen)]; [done|]. rewrite Hb in Ey. rewrite (proj2 (Z.ltb_ge _ _) Hlen) in Ey. ok_step Ey l2.
        destruct (slice_ _ _ _); [|done]. by injection Ey as <-. }
    refine (rfold_ind (fun d => is_Some (d_dataSym d !! Z.of_nat k)) _ _ _ _ _ H1 E). intros a x b _ Ha Ex.
    by destruct (emit_section_data _ _ _ _ Ex) as [-> _].
  - intros i sc Hsc Hds. unfold elf_section_at in Hsc. destruct (Z.leb_spec 0 i) as [H0|]; [|done].
    pose proof (indexed_elem _ _ _ Hsc) as Hin. rewrite Z2Nat.id in Hin by done.
    refine (rfold_visit (fun _ => True) (fun d => is_Some (d_secSym d !! i)) _ _ _ Hin _ _ _ _ I E).
    + intros a [i' sc'] b _ _ Ey. split; [done|]. intros Ha. unfold emit_section in Ey. destruct (negb _); [by injection Ey as <-|].
      destruct (Lookup _ _) as [ls l1]. ok_step Ey l2. injection Ey as <-. cbn. apply lookup_insert_is_Some'. by right.
    + intros a b _ Ey. unfold emit_section in Ey. rewrite Hds in Ey. cbn [negb] in Ey. destruct (Lookup _ _) as [ls l1]. ok_step Ey l2.
      injection Ey as <-. cbn. by rewrite lookup_insert_eq.
Qed.

(** The symbol and offset that hold the word of a relocation of section [i]. *)
Definition hosts (d : dstate) (i : Z) (r : rela) : sid * Z :=
  host_of (default [] (d_ranges d !! i)) (default 0%nat (d_secSym d !! i)) (re_Off r).

(** The relocations of section [i], each with the Go relocation it became. *)
Definition converted (c : converter) (d : dstate) (codeRels : list (Z * rela)) (i : Z) (ps : list (rela * LReloc)) : Prop :=
  relas c i = Ok (fst <$> ps) /\
  Forall (fun p => placed_rel c (snd (hosts d i (fst p))) (fst p) (snd p) /\
    entry_word c i (default 0%nat (d_secSym d !! i)) codeRels (hosts d i) (fst p) (snd p)) ps.

Definition all_held (d : dstate) (keys : list Z) (per : list (list (rela * LReloc))) (j : sid) : list LReloc :=
  concat (zip_with (fun i ps => held (hosts d i) j ps) keys per).

Lemma all_relocs_ok c d codeRels keys : forall l l', rfold (section_relocs c d codeRels) l keys = Ok l' ->
  exists per, Forall2 (converted c d codeRels) keys per /\ relocated (all_held d keys per) l l'.
Proof.
  induction keys as [|i keys IH]; intros l l' E; cbn [rfold] in E.
  { injection E as <-. exists []. split; [constructor|]. intros j s Hj. exists s. split; [done|]. cbn. rewrite app_nil_r. by destruct s. }
  ok_step E l1. assert (exists rs, relas c i = Ok rs) as [rs Hrs].
  { unfold section_relocs in El1. destruct (relas c i) as [rs|]; [by exists rs | done]. }
  destruct (section_relocs_ok _ _ _ _ _ _ _ Hrs El1) as (rels & Hf & Hl). destruct (IH _ _ E) as (per & Hper & Hrest).
  fold (hosts d i) in Hf, Hl. exists (zip rs rels :: per). split.
  - constructor; [|done]. split.
    + rewrite fst_zip; [done|]. by rewrite (Forall2_length _ _ _ Hf).
    + exact (Forall2_zip _ _ _ Hf).
  - intros j s Hj. destruct (Hl j s Hj) as (s1 & Hs1 & Hd1). destruct (Hrest j s1 Hs1) as (s2 & Hs2 & Hd2). exists s2. split; [done|].
    destruct Hd1 as (A1 & A2 & A3 & A4 & A5 & A6 & A7), Hd2 as (B1 & B2 & B3 & B4 & B5 & B6 & B7).
    cbn [set_R s_R s_Name s_ABI s_onList s_Size s_Func] in *. split_and!; cbn [set_R s_R s_Name s_ABI s_onList s_Size s_Func]; try congruence.
    + rewrite B1. exact A1.
    + rewrite B2, A2, <-app_assoc. done.
Qed.

(** The pieces of a successful run. *)
Lemma emitData_inv c l c' l' : emitData c l = Ok (c', l') -> exists d codeRels,
  emit_symbols c l = Ok d /\ c' = with_data c d /\ code_rels c' = Ok codeRels /\
  rfold (section_relocs c' d codeRels) (d_link d) (sortedKeys (d_secSym d)) = Ok l'.
Proof.
  unfold emitData. intros E. ok_step E d. ok_step E codeRels. ok_step E l1. injection E as <- <-. by exists d, codeRels.
Qed.

Lemma global_kept c es sc s s' rs : global_sym c es sc s -> same_data (set_R s rs) s' -> global_sym c es sc s'.
Proof. intros (? & ? & ? & H) (Hi & ? & ? & ? & ? & ? & ?). unfold global_sym. rewrite Hi. cbn in *. split_and!; try congruence. exact H. Qed.

Lemma section_kept c sc s s' rs : section_sym c sc s -> same_data (set_R s rs) s' -> section_sym c sc s'.
Proof. intros (? & ? & ? & H) (Hi & ? & ? & ? & ? & ? & ?). unfold section_sym. rewrite Hi. cbn in *. split_and!; try congruence. exact H. Qed.

(** C11. Program data is copied exactly: after [emitData] every named global that lies
    inside its section has a Go symbol of the package whose image is its bytes of the
    section (zeros for a NOBITS section), every data section has a copy whose image
    is the section, and nothing else was recorded. *)
Theorem emitData_contents c l c' l' : start_ok c l -> emitData c l = Ok (c', l') ->
  (forall k ls, cv_dataSym c' !! k = Some ls -> exists es sc s, cv_syms c !! Z.to_nat k = Some es /\ data_global c es = Some sc /\
     l_syms l' !! ls = Some s /\ global_sym c es sc s) /\
  (forall k es sc, cv_syms c !! k = Some es -> data_global c es = Some sc -> inside es sc -> is_Some (cv_dataSym c' !! Z.of_nat k)) /\
  (forall i ls, cv_secSym c' !! i = Some ls -> exists sc s, elf_section_at (cv_ef c) i = Some sc /\ data_section c i sc = true /\
     l_syms l' !! ls = Some s /\ section_sym c sc s) /\
  (forall i sc, elf_section_at (cv_ef c) i = Some sc -> data_section c i sc = true -> is_Some (cv_secSym c' !! i)).
Proof.
  intros Hst (d & codeRels & Ed & -> & Ec & Er)%emitData_inv. pose proof (emit_symbols_ok _ _ _ Hst Ed) as Hd.
  destruct (emit_symbols_all _ _ _ Hst Ed) as [Hall1 Hall2]. destruct (all_relocs_ok _ _ _ _ _ _ Er) as (per & _ & Hrel).
  split_and!; [| exact Hall1 | | exact Hall2]; cbn [cv_dataSym cv_secSym with_data].
  - intros k ls (es & sc & s & _ & Hes & Hg & Hs & _ & Hgs)%(so_data _ _ Hd). destruct (Hrel ls s Hs) as (s' & Hs' & Hsame).
    exists es, sc, s'. split_and!; try done. by eapply global_kept.
  - intros i ls (sc & s & Hsc & Hds & Hs & _ & Hss)%(so_sec _ _ Hd). destruct (Hrel ls s Hs) as (s' & Hs' & Hsame).
    exists sc, s'. split_and!; try done. by eapply section_kept.
Qed.


(** ** A small object

    The function [f] reads a table of two cases in [.rodata]; the global [v] holds the
    address of [g]. *)
Definition demo_rela (off type sym add : Z) : list Z :=
  le_bytes 8 off ++ le_bytes 8 (Z.lor type (Z.shiftl sym 32)) ++ le_bytes 8 add.

Definition demo_elf : efile :=
  let rel name d := mkSec name 4 0 (zlen d) (Some d) in
  mkElf EM_X86_64
    [mkSec "" 0 0 0 None; mkSec ".text" 1 6 40 (Some (replicate 40 144));
     mkSec ".data" 1 3 16 (Some (Z.of_nat <$> seq 0 16)); mkSec ".rodata" 1 2 8 (Some (replicate 8 0));
     rel ".rela.text" (demo_rela 3 R_X86_64_PC32 3 (-4));
     rel ".rela.data" (demo_rela 8 R_X86_64_64 1 0);
     rel ".rela.rodata" (demo_rela 0 R_X86_64_PC32 4 4 ++ demo_rela 4 R_X86_64_PC32 4 12)] (SymOk []).

Definition demo_data : converter :=
  mkConv "main" "x_c" false ∅ demo_elf
    [Elf.mkSym "g" 18 1 32 8; Elf.mkSym "v" 17 2 8 8; Elf.mkSym "" 3 3 0 0; Elf.mkSym "" 3 1 0 0]
    demo_fns {[ 1 := demo_fns ]} {[ "main.f" := 1; "main.g" := 1 ]} {[ "f" := "main.f"; "g" := "main.g" ]} ∅ ∅.

Definition demo_dl : Link := Eval vm_compute in snd (LookupABI "main.g" 1 (snd (LookupABI "main.f" 1 demo_link0))).
Definition demo_emitted : converter * Link := Eval vm_compute in
  match emitData demo_data demo_dl with Ok x => x | Fail _ => (demo_data, demo_dl) end.

Lemma demo_emits : emitData demo_data demo_dl = Ok (fst demo_emitted, snd demo_emitted).
Proof. vm_compute. reflexivity. Qed.

Lemma demo_start : start_ok demo_data demo_dl.
Proof.
  split_and!; [done | done | | |].
  - assert (reachable demo_conf demo_dl) as H; [|exact (reachable_ok _ _ H)].
    exists "go1.24", "amd64", demo_link0. split; [vm_compute; reflexivity|].
    eapply rtc_l; [exact (step_lookup demo_conf "main.f" 1 _ (or_intror eq_refl))|].
    apply rtc_once. exact (step_lookup demo_conf "main.g" 1 _ (or_intror eq_refl)).
  - intros i s Hi _. apply list_elem_of_lookup_2 in Hi. cbn in Hi.
    repeat (apply elem_of_cons in Hi as [->|Hi]; [done|]). by apply not_elem_of_nil in Hi.
  - intros es Hes. cbn in Hes. repeat (apply elem_of_cons in Hes as [->|Hes]; [split; vm_compute; split; congruence|]).
    by apply not_elem_of_nil in Hes.
Qed.

Lemma emitData_contents_witness : exists ls s, cv_dataSym (fst demo_emitted) !! 1 = Some ls /\
  l_syms (snd demo_emitted) !! ls = Some s /\ s_Name s = "main.v" /\ image s = [8; 9; 10; 11; 12; 13; 14; 15].
Proof.
  destruct (emitData_contents demo_data demo_dl _ _ demo_start demo_emits) as (H1 & H2 & _).
  destruct (H2 1%nat (Elf.mkSym "v" 17 2 8 8) (mkSec ".data" 1 3 16 (Some (Z.of_nat <$> seq 0 16)))) as [ls Hls].
  - reflexivity.
  - vm_compute. reflexivity.
  - right. eexists. split; [reflexivity|]. vm_compute. discriminate.
  - destruct (H1 1 ls Hls) as (es & sc & s & Hes & Hg & Hs & _ & Hn & _ & Hi). exists ls, s. split; [exact Hls|].
    injection Hes as <-. vm_compute in Hg. injection Hg as <-. split; [exact Hs|]. split; [exact Hn|].
    destruct Hi as (b & [= <-] & Hb); [vm_compute; split; congruence..|].
    assert (Some (image s) = Some [8; 9; 10; 11; 12; 13; 14; 15]) as [= Him] by (rewrite <-Hb; vm_compute; reflexivity).
    exact Him.
Defined.

