(* ===== verification/Assemble.v ===== *)
(** * Assembling the Go object

    Models [converter.write] of src/internal/convert/write.go with
    [headerExperiments], and [inlSym] and [pctab] of pctab.go: the whole conversion
    of a [.gocobj] into the bytes of a Go object file, from the converter to
    [Link.Write].  The file is returned instead of being stored on disk.  The facts
    of the Go release are the record [release]; a panic ends the conversion and is
    an error here. *)

From Stdlib Require Import ZArith Lia Ascii.
From stdpp Require Import base list strings gmap.
From S2P Require Import Prelude Text Codec Format Elf Layout PcTab Link ObjWrite Convert Data.

(** What [write] reads of a release: [NewLink] needs to know the architecture; the
    package path, the experiments and the function count, which are fields of the
    [Link], are set below. *)
Record release := mkRelease {
  rl_Go : string; rl_known : bool; rl_MinLC : Z; rl_Pcdata : gmap string Z; rl_conf : lconf; rl_meta : objMeta }.

Definition headerExperiments (h : string) : gset string :=
  foldl (fun out f =>
    match f with
    | String a (String b (String _ _ as rest)) =>
        if Ascii.eqb a "X"%char && Ascii.eqb b ":"%char then list_to_set (regs rest) ∪ out else out
    | _ => out
    end) ∅ (Fields h).

Definition set_conf (cf : lconf) (pkg : string) (count : Z) (dwarf5 : bool) : lconf :=
  mkConf pkg count dwarf5 (lc_PtrSize cf) (lc_FuncIDs cf) (lc_RuntimeFuncIDs cf) (lc_FuncFlags cf)
    (lc_Funcdata cf) (lc_AsmArgsStackmap cf) (lc_TrimInlineHash cf) (lc_AbbrevFunction cf) (lc_FuncDIE cf) (lc_TextAddrx cf).

Definition set_wrappers (m : objMeta) (pkg : string) (b : bool) : objMeta :=
  mkMeta (om_Go m) (om_Magic m) (om_Blocks m) (om_ObjFlags m) (om_SymFlags m) (om_SymFlags2 m) (om_AuxTypes m) (om_PkgIdx m)
    (om_SymABIStatic m) (om_HashSize m) (om_Hash64Size m) (om_Builtins m) (om_ContentHash m) (om_AsmNamedSymsLinkname m)
    (om_Align m) (om_TrimInlineHash m) (om_TypePrefix m) (om_ItabPrefix m) (om_SortRelocs m) (om_FuncInfoStartLine m)
    (om_InlFileSymRefs m) (om_Kinds m) (om_Relocs m) (om_PtrSize m) pkg b.

(** ** Files and functions *)

(** [fileIdx] *)
Definition add_files (f : File) (l : Link) : list Z * Link :=
  let file := match f_Files f with s :: _ => if String.eqb s "" then "goc" else s | [] => "goc" end in
  let '(i, l) := AddFile file l in
  foldl (fun '(idx, l) s => let '(i, l) := AddFile s l in (idx ++ [Z.of_nat i], l)) ([Z.of_nat i], l) (drop 1 (f_Files f)).

Definition goFile (fileIdx : list Z) (i : Z) : Z :=
  if (i <? 0) || (zlen fileIdx <=? i) then 0 else default 0 (fileIdx !! Z.to_nat i).

Definition fn_symbol (c : converter) (x : fn) : st Link sid := LookupABI (default "" (cv_goName c !! cf_name x)) (cf_abi x).

Definition set_sym (x : fn) (i : sid) : fn := mkFn (cf_tab x) (cf_sec x) (cf_off x) (cf_name x) i (cf_abi x).

(** [x.sym] of every function.  The functions of [bySec] are those of [fns], so they
    get the symbol that the same lookup returns. *)
Definition bind_fns (c : converter) (l : Link) : converter * Link :=
  let l := foldl (fun l x => snd (fn_symbol c x l)) l (cv_fns c) in
  let bind x := set_sym x (fst (fn_symbol c x l)) in
  (mkConv (cv_pkg c) (cv_tu c) (cv_arm64 c) (cv_libcallImpl c) (cv_ef c) (cv_syms c) (bind <$> cv_fns c)
     ((fun xs : list fn => bind <$> xs) <$> cv_bySec c) (cv_abiByGoSym c) (cv_goName c) (cv_dataSym c) (cv_secSym c), l).

Definition inlSym (c : converter) (name : string) : st Link sid :=
  match cv_goName c !! name with
  | Some gn => LookupABI gn (default 0 (cv_abiByGoSym c !! gn))
  | None => Lookup (cv_pkg c +:+ "." +:+ cv_tu c +:+ "." +:+ name)
  end.

(** Entries of a table that is not nil: the reader appends to a nil slice. *)
Definition table_of_kind (t : Func) (k : Z) : option (list PCEntry) :=
  match pcTable t k with Some (e :: es) => Some (e :: es) | _ => None end.

Section Release.
Variable rl : release.
Variable cf : lconf.

Definition pctab (size : Z) (ents : list PCEntry) : st Link sid := pcsym (pcbytes (rl_MinLC rl) size ents).

Definition pcUnsafe : Z := at_ (rl_Pcdata rl) "UnsafePoint".
Definition pcStackMap : Z := at_ (rl_Pcdata rl) "StackMapIndex".

(** ** TEXT symbols *)

(** One stack map blob and its FUNCDATA. *)
Definition add_blob (i : sid) (kind : Z) (name : string) (b : list Z) (l : Link) : res string Link :=
  let '(ms, l) := Lookup name l in
  l ← Globl ms (zlen b) (Z.lor RODATA DUPOK) l;
  Ok (Funcdata i kind ms (modify ms (WriteBytes 0 b) l)).

Definition init_fn (l : Link) (x : fn) : res string Link :=
  let t := cf_tab x in
  let i := cf_sym x in
  let flags := if negb (Z.land (fn_Flags t) FuncNosplit =? 0) then TextNoSplit else 0 in
  l ← InitText cf i flags l;
  l ← (match fn_GC t with
       | None => Ok l
       | Some g =>
           let '(args, locals, _) := stackmaps g in
           let name := sym_name l i in
           l ← add_blob i (at_ (lc_Funcdata cf) "ArgsPointerMaps") ("gclocals.goc." +:+ name +:+ ".args") args l;
           add_blob i (at_ (lc_Funcdata cf) "LocalsPointerMaps") ("gclocals.goc." +:+ name +:+ ".locals") locals l
       end);
  Ok (PCDATA i l).

(** [stackIdx[x]] *)
Definition stack_index (t : Func) : list PCEntry := match fn_GC t with Some g => snd (stackmaps g) | None => [] end.

(** A stub for an inlined function without a body. *)
Definition add_stub (c : converter) (st : list (sid * Z) * Link) (n : InlNode) : res string (list (sid * Z) * Link) :=
  let '(stubs, l) := st in
  match cv_goName c !! in_Func n with
  | Some _ => Ok st
  | None =>
      let '(ls, l) := inlSym c (in_Func n) l in
      match l_syms l !! ls with
      | None => Fail "nil"
      | Some s =>
          if s_Func s then Ok (stubs, l)
          else l ← InitText cf ls (Z.lor TextNoSplit TextDupok) l; Ok (stubs ++ [(ls, in_StartLine n)], l)
      end
  end.

Definition add_stubs (c : converter) (l : Link) : res string (list (sid * Z) * Link) :=
  rfold (add_stub c) ([], l) (concat ((fun x => slice (fn_Inl (cf_tab x))) <$> cv_fns c)).

(** ** Function information *)

(** Assignments to a function's record. *)
Definition set_tables (fi : FuncInfo) (startLine : Z) (sp file line pi : option sid) (pcdata : list (option sid))
    (used : gset Z) (tree : list LInlNode) : FuncInfo :=
  mkFI (fi_Args fi) (fi_Locals fi) (fi_FuncID fi) (fi_FuncFlag fi) startLine sp file line pi pcdata (fi_Funcdata fi) used tree
    (fi_funcdata fi) (fi_pcdataProg fi) (fi_dwarfInfo fi) (fi_dwarfLines fi) (fi_dwarfRanges fi).

Definition set_sizes (args locals : Z) (fi : FuncInfo) : FuncInfo :=
  mkFI args locals (fi_FuncID fi) (fi_FuncFlag fi) (fi_StartLine fi) (fi_Pcsp fi) (fi_Pcfile fi) (fi_Pcline fi) (fi_Pcinline fi)
    (fi_Pcdata fi) (fi_Funcdata fi) (fi_UsedFiles fi) (fi_InlTree fi) (fi_funcdata fi) (fi_pcdataProg fi)
    (fi_dwarfInfo fi) (fi_dwarfLines fi) (fi_dwarfRanges fi).

Definition set_NoSplit (b : bool) (s : Sym) : Sym :=
  mkSym (s_Name s) (s_ABI s) (s_Kind s) (s_P s) (s_Size s) (s_R s) (s_Dupok s) b (s_Local s) (s_Static s)
    (s_ContentAddressable s) (s_Pcdata s) (s_Align s) (s_Func s) (s_onList s).

(** Empty tables for the entries that are nil. *)
Fixpoint fill_nils (ds : list (option sid)) : st Link (list (option sid)) := fun l =>
  match ds with
  | [] => ([], l)
  | d :: ds =>
      let '(d, l) := match d with Some i => (Some i, l) | None => let '(i, l) := pctab 0 [] l in (Some i, l) end in
      let '(ds, l) := fill_nils ds l in (d :: ds, l)
  end.

(** [xs[i] = v], which panics out of range. *)
Definition set_at {A} (xs : list A) (i : Z) (v : A) : res string (list A) :=
  if (i <? 0) || (zlen xs <=? i) then Fail "index out of range" else Ok (<[Z.to_nat i := v]> xs).

Definition stub_code (arm64 : bool) : list Z := if arm64 then [0; 0; 32; 212] else [204].

Definition fill_stub (arm64 : bool) (l : Link) (x : sid * Z) : res string Link :=
  let '(i, line) := x in
  let code := stub_code arm64 in
  let l := modify i (fun s => set_data s (s_Kind s) code (zlen code)) l in
  let '(pcd, l) := fill_nils (replicate (Z.to_nat (pcStackMap + 1)) None) l in
  let '(sp, l) := pctab (zlen code) [mkPC 0 0] l in
  let '(file, l) := pctab (zlen code) [mkPC 0 0] l in
  let '(ln, l) := pctab (zlen code) [mkPC 0 (s64 line)] l in
  Ok (modify i (with_func (fun fi =>
        set_tables fi (s32 line) (Some sp) (Some file) (Some ln) (fi_Pcinline fi) pcd {[ 0 ]} (fi_InlTree fi))) l).

(** The inline tree. *)
Definition inl_node (c : converter) (fileIdx : list Z) (st : list LInlNode * Link) (n : InlNode) : res string (list LInlNode * Link) :=
  let '(tree, l) := st in
  match fileIdx !! Z.to_nat (Z.min (s64 (in_File n)) (zlen fileIdx - 1)) with
  | Some file =>
      if s64 (in_File n) <? 0 then Fail "index out of range"
      else
        let '(i, l) := inlSym c (in_Func n) l in
        Ok (tree ++ [mkLInl (s32 (in_Parent n)) (u32 file) (s32 (in_Line n)) i (s32 (in_ParentPC n))], l)
  | None => Fail "index out of range"
  end.

(** What the source positions set: used files, file and line tables, tree, inline
    table. *)
Record positions := mkPos {
  po_used : gset Z; po_file : sid; po_line : sid; po_tree : list LInlNode; po_inl : option sid }.

Definition line_tables (c : converter) (fileIdx : list Z) (t : Func) (size : Z) (fi : FuncInfo) (file line : sid) (l : Link) :
    res string (positions * Link) :=
  match table_of_kind t PCFile, table_of_kind t PCLine with
  | Some ft, Some lt =>
      let gf := (fun e => mkPC (pc_PC e) (goFile fileIdx (pc_Value e))) <$> ft in
      let '(file, l) := pctab size gf l in
      let '(line, l) := pctab size lt l in
      '(tree, l) ← rfold (inl_node c fileIdx) ([], l) (slice (fn_Inl t));
      let '(pi, l) := match table_of_kind t PCInlIndex, slice (fn_Inl t) with
                       | Some it, _ :: _ => let '(i, l) := pctab size it l in (Some i, l)
                       | _, _ => (fi_Pcinline fi, l)
                       end in
      Ok (mkPos (list_to_set ((fun e => u32 (pc_Value e)) <$> gf)) file line tree pi, l)
  | _, _ => Ok (mkPos (fi_UsedFiles fi) file line (fi_InlTree fi) (fi_Pcinline fi), l)
  end.

(** Everything the loop sets in [s.Func] and [s.NoSplit] of the function [x]. *)
Definition fill_info (c : converter) (fileIdx : list Z) (x : fn) (l : Link) : res string Link :=
  let t := cf_tab x in
  let i := cf_sym x in
  match l_syms l !! i with
  | None => Fail "nil"
  | Some s =>
      match s_Func s with
      | None => Fail "nil"
      | Some fi =>
          let size := s_Size s in
          let '(pcd, l) := fill_nils (fi_Pcdata fi ++ replicate (Z.to_nat (pcStackMap + 1 - zlen (fi_Pcdata fi))) None) l in
          let '(sp, l) := pctab size (default [mkPC 0 (s64 (fn_FrameSize t))] (table_of_kind t PCSPDelta)) l in
          '(pcd, l) ← (match table_of_kind t PCUnsafePoint with
                       | Some up => let '(u, l) := pctab size up l in pcd ← set_at pcd pcUnsafe (Some u); Ok (pcd, l)
                       | None => Ok (pcd, l)
                       end);
          let '(sm, l) := pctab size (stack_index t) l in
          pcd ← set_at pcd pcStackMap (Some sm);
          let '(file, l) := pctab size [mkPC 0 1] l in
          let '(line, l) := pctab size [mkPC 0 1] l in
          '(po, l) ← line_tables c fileIdx t size fi file line l;
          let start := if fn_StartLine t =? 0 then fi_StartLine fi else s32 (fn_StartLine t) in
          Ok (modify i (fun s => set_NoSplit (negb (Z.land (fn_Flags t) FuncNosplit =? 0))
                (with_func (fun fi => set_tables (set_sizes (s32 (fn_ArgSize t)) (s32 (fn_FrameSize t)) fi) start (Some sp)
                   (Some (po_file po)) (Some (po_line po)) (po_inl po) pcd (po_used po) (po_tree po)) s)) l)
      end
  end.

(** Code and relocations of the function [x]. *)
Definition fill_code (c : converter) (calls : gset (string * Z)) (d : list Z) (rs : list rela) (x : fn) (s : cstate) : res string cstate :=
  match slice_ d (cf_off x) (u64 (cf_off x + fn_TextSize (cf_tab x))) with
  | None => Fail "slice bounds out of range"
  | Some p =>
      let l := modify (cf_sym x) (fun y => set_R (set_data y (s_Kind y) p (zlen p)) []) (cs_link s) in
      if cv_arm64 c then l ← arm64TextRelocs c x rs l; Ok (mkCst (cs_got s) l)
      else x86_relocs c calls x (mkCst (cs_got s) l) rs
  end.

Definition fill_fn (c : converter) (calls : gset (string * Z)) (fileIdx d : list Z) (rs : list rela) (s : cstate) (x : fn) : res string cstate :=
  s ← fill_code c calls d rs x s;
  l ← fill_info c fileIdx x (cs_link s);
  Ok (mkCst (cs_got s) l).

Definition fill_section (c : converter) (calls : gset (string * Z)) (fileIdx : list Z) (s : cstate) (sec : Z) : res string cstate :=
  rs ← relas c sec;
  match elf_section_at (cv_ef c) sec with
  | None => Fail "index out of range"
  | Some sc =>
      match es_data sc with
      | None => Fail "section data"
      | Some d => rfold (fill_fn c calls fileIdx d rs) s (default [] (cv_bySec c !! sec))
      end
  end.

(** ** The object before it is written *)

Definition assemble (c : converter) (f : File) : res string Link :=
  l ← NewLink (rl_Go rl) (if cv_arm64 c then "arm64" else "amd64") (cv_pkg c) (rl_known rl);
  let '(fileIdx, l) := add_files f l in
  let '(c, l) := bind_fns c l in
  '(c, l) ← emitData c l;
  l ← rfold init_fn l (cv_fns c);
  '(stubs, l) ← add_stubs c l;
  o ← Flush cf l;
  match o with
  | None => Fail "nil"
  | Some l =>
      l ← rfold (fill_stub (cv_arm64 c)) l stubs;
      s ← rfold (fill_section c (callAt f) fileIdx) (mkCst ∅ l) (textSecs c);
      Ok (cs_link s)
  end.
End Release.

(** The settings of the object: an experiment is on when the header names it. *)
Definition conf_for (rl : release) (c : converter) (header : string) : lconf :=
  set_conf (rl_conf rl) (cv_pkg c) (zlen (cv_fns c) + Z.of_nat (size (cv_goName c))) (bool_decide ("dwarf5" ∈ headerExperiments header)).

Definition meta_for (rl : release) (c : converter) (header : string) : objMeta :=
  set_wrappers (rl_meta rl) (cv_pkg c) (bool_decide ("regabiwrappers" ∈ headerExperiments header)).

(** [converter.write]: the bytes of the object file. *)
Definition write_object (rl : release) (sha256 sha1 : list Z -> list Z) (c : converter) (f : File) (header : string) : res string (list Z) :=
  l ← assemble rl (conf_for rl c header) c f;
  match Write (meta_for rl c header) sha256 sha1 l header with
  | Ok b => Ok b
  | Fail (WErr msg) => Fail msg
  | Fail WPanic => Fail "panic"
  end.
