(* ===== verification/Meta.v ===== *)
(** * The facts of a Go release

    Models src/internal/gometa/meta.go: the record of a release's facts, which release a
    Go version belongs to, and the check that a record holds everything the converter
    uses.  Decoding JSON (encoding/json) and the embedded files are parameters.  The
    parts of the record that the converter reads are projected to the arguments of the
    other files ([archFacts], [lconf], [objMeta], [release]). *)

From Stdlib Require Import ZArith Lia Ascii.
From stdpp Require Import base list strings gmap sorting.
From S2P Require Import Prelude Text World Regex Format Elf Link ObjWrite Convert Assemble.

Definition Schema : Z := 1.

Record Object := mkObject {
  ob_Magic : string; ob_HeaderFormat : string; ob_Blocks : list string;
  ob_ObjFlags : gmap string Z; ob_SymFlags : gmap string Z; ob_SymFlags2 : gmap string Z;
  ob_AuxTypes : gmap string Z; ob_PkgIdx : gmap string Z; ob_SymABIStatic : Z;
  ob_HashSize : Z; ob_Hash64Size : Z; ob_Builtins : list (string * Z) }.

Record Writer := mkWriterFacts {
  wf_ContentHash : string; wf_AsmNamedSymsLinkname : bool; wf_Align : string; wf_TrimInlineHash : bool;
  wf_AsmArgsStackmap : bool; wf_TypePrefix : string; wf_ItabPrefix : string; wf_SortRelocs : bool;
  wf_FuncInfoStartLine : bool; wf_InlFileSymRefs : bool;
  wf_FuncFlags : gmap string Z; wf_FuncIDs : gmap string Z; wf_RuntimeFuncIDs : gmap string Z }.

Record ABI := mkABI {
  ab_Funcdata : gmap string Z; ab_Pcdata : gmap string Z; ab_StackSmall : Z; ab_StackBig : Z;
  ab_StackNosplitBase : Z; ab_GOffsets : gmap string Z }.

Record Arch := mkArch {
  ar_PtrSize : Z; ar_MinLC : Z; ar_GReg : string; ar_IntArgs : list string; ar_FloatArgs : list string;
  ar_Morestack : string; ar_StackCopyAdjustsFP : bool }.

(** [dw_TextAddrx]: the function count, the relocation and its size. *)
Record DWARF := mkDWARF {
  dw_AbbrevFunction : Z; dw_FuncDIE : string; dw_Lines : string; dw_TextAddrx : list (Z * string * Z) }.

Record Meta := mkMetaFacts {
  m_Schema : Z; m_Go : string; m_SourceVersion : string; m_Resolver : string;
  m_Object : Object; m_Writer : Writer; m_Kinds : gmap string Z; m_Relocs : gmap string Z;
  m_ABI : ABI; m_Arch : gmap string Arch; m_DWARF : DWARF; m_PackPrebuilt : bool; m_Sources : gmap string string }.

(** ** The check *)

(** [need]: the names that a group lacks. *)
Definition need (group : string) (have : gmap string Z) (names : list string) : list string :=
  (fun n => group +:+ "." +:+ n) <$> filter (fun n => have !! n = None) names.

Definition required (m : Meta) : list (string * gmap string Z * list string) :=
  [("relocs", m_Relocs m, ["R_ADDR"; "R_CALL"; "R_PCREL"; "R_CALLARM64"; "R_ADDRARM64"; "R_ARM64_GOTPCREL"; "R_ARM64_PCREL";
      "R_ARM64_LDST8"; "R_ARM64_LDST16"; "R_ARM64_LDST32"; "R_ARM64_LDST64"; "R_ARM64_LDST128"]);
   ("sym_kinds", m_Kinds m, ["Sxxx"; "STEXT"; "SRODATA"; "SDATA"; "SBSS"; "SNOPTRDATA"; "SNOPTRBSS"; "SDWARFFCN"; "SDWARFLINES"]);
   ("object.obj_flags", ob_ObjFlags (m_Object m), ["FromAssembly"]);
   ("object.sym_flags", ob_SymFlags (m_Object m), ["Dupok"; "Local"; "Typelink"; "Leaf"; "NoSplit"; "ReflectMethod"; "GoType"]);
   ("object.sym_flags2", ob_SymFlags2 (m_Object m), ["UsedInIface"; "Itab"]);
   ("object.aux_types", ob_AuxTypes (m_Object m), ["Gotype"; "FuncInfo"; "Funcdata"; "DwarfInfo"; "DwarfLoc"; "DwarfRanges"; "DwarfLines";
      "Pcsp"; "Pcfile"; "Pcline"; "Pcinline"; "Pcdata"]);
   ("object.pkg_idx", ob_PkgIdx (m_Object m), ["None"; "Hashed64"; "Hashed"; "Builtin"; "Self"]);
   ("abi.funcdata", ab_Funcdata (m_ABI m), ["ArgsPointerMaps"; "LocalsPointerMaps"; "ArgInfo"]);
   ("abi.pcdata", ab_Pcdata (m_ABI m), ["UnsafePoint"; "StackMapIndex"]);
   ("writer.func_flags", wf_FuncFlags (m_Writer m), ["Asm"])].

Definition missing (m : Meta) : list string := concat ((fun '(g, have, names) => need g have names) <$> required m).

Definition is_one_of (s : string) (l : list string) : bool := existsb (String.eqb s) l.

(** A GOARCH whose facts are there and not zero. *)
Definition has_arch (m : Meta) (a : string) : bool :=
  match m_Arch m !! a with Some ar => negb ((ar_MinLC ar =? 0) || (ar_PtrSize ar =? 0)) | None => false end.

Definition check (m : Meta) : res string () :=
  let for_ := "metadata for " +:+ m_Go m in
  if negb (bool_decide (missing m = [])) then Fail (for_ +:+ " lacks " +:+ join ", " (missing m))
  else if String.eqb (ob_Magic (m_Object m)) "" || (ob_HashSize (m_Object m) =? 0) then Fail (for_ +:+ " lacks the object magic or hash size")
  else if negb (is_one_of (wf_ContentHash (m_Writer m)) ["notsha256"; "sha256-prefix01"; "sha1"])
  then Fail (for_ +:+ ": unknown content hash " +:+ quote (wf_ContentHash (m_Writer m)))
  else if negb (is_one_of (wf_Align (m_Writer m)) ["heuristic"; "explicit"])
  then Fail (for_ +:+ ": unknown align model " +:+ quote (wf_Align (m_Writer m)))
  else if negb (is_one_of (dw_FuncDIE (m_DWARF m)) ["v0"; "v1"; "v2"])
  then Fail (for_ +:+ ": unknown DWARF function DIE layout " +:+ quote (dw_FuncDIE (m_DWARF m)))
  else if String.eqb (wf_TypePrefix (m_Writer m)) "" || String.eqb (wf_ItabPrefix (m_Writer m)) ""
  then Fail (for_ +:+ " lacks the type/itab symbol prefixes")
  else if negb (String.eqb (dw_Lines (m_DWARF m)) "v1") then Fail (for_ +:+ ": unknown DWARF lines layout " +:+ quote (dw_Lines (m_DWARF m)))
  else match list_find (fun a => has_arch m a = false) ["amd64"; "arm64"] with
       | Some (_, a) => Fail (for_ +:+ " lacks GOARCH " +:+ a)
       | None => Ok ()
       end.

(** ** Versions *)

Definition minorRE : regex := cats [TextStart; lit "go"; Group 1 (many1 re_digit); lit "."; Group 2 (many1 re_digit)].

Definition Minor (version : string) : option string :=
  m ← find minorRE version; Some ("go" +:+ group_text version m 1 +:+ "." +:+ group_text version m 2).

Fixpoint take_digits (s : string) : string * string :=
  match s with
  | String c s' => if re_digit c then let '(d, r) := take_digits s' in (String c d, r) else ("", s)
  | EmptyString => ("", "")
  end.

(** [fmt.Sscanf(v, "go%d.%d", &maj, &min)] on the names of embedded files, go<maj>.<min>;
    what does not scan leaves zero. *)
Definition minorNum (v : string) : Z :=
  match after_prefix "go" v with
  | None => 0
  | Some s =>
      let '(maj, s) := take_digits s in
      let '(min, _) := match after_prefix "." s with Some s => take_digits s | None => ("", "") end in
      digits_value 0 maj * 1000 + digits_value 0 min
  end.

Definition minor_le (a b : string) : Prop := minorNum a <= minorNum b.
#[export] Instance minor_le_dec a b : Decision (minor_le a b) := decide (minorNum a <= minorNum b).

Section Files.
(** [encoding/json] on the bytes of a file, and the embedded files data/<name>.json. *)
Variable unmarshal : list Z -> res string Meta.
Variable embedded : gmap string (list Z).

Definition Releases : list string := merge_sort minor_le (merge_sort str_le ((map_to_list embedded).*1)).

Definition Parse (b : list Z) : res string Meta :=
  m ← unmarshal b;
  if negb (m_Schema m =? Schema) then Fail ("metadata schema " +:+ dec (m_Schema m) +:+ ", this build reads " +:+ dec Schema)
  else _ ← check m; Ok m.

(** The message for a release without facts is shortened. *)
Definition ForVersion (version : string) : res string Meta :=
  match Minor version with
  | None => Fail ("cannot parse Go version " +:+ quote version)
  | Some minor =>
      match embedded !! minor with
      | None => Fail ("no Go object metadata for " +:+ version +:+ " (embedded: " +:+ join " " Releases +:+ "); run goc-gometa")
      | Some b => Parse b
      end
  end.

Definition Load (h : host) (path : string) : io Meta :=
  b ← ReadFile h path; wrap_err (fun e => path +:+ ": " +:+ e) (lift (Parse b)).
End Files.

(** ** What the converter reads *)

Definition facts_of (m : Meta) (goarch : string) : option archFacts :=
  (fun a => mkFacts (ar_PtrSize a) (ar_GReg a) (ar_Morestack a) (ar_IntArgs a) (ar_FloatArgs a) (ar_StackCopyAdjustsFP a)
     (at_ (ab_GOffsets (m_ABI m)) "stackguard0") (ab_StackSmall (m_ABI m)) (ab_StackBig (m_ABI m))) <$> m_Arch m !! goarch.

Definition ptr_size (m : Meta) (goarch : string) : Z := from_option ar_PtrSize 0 (m_Arch m !! goarch).

Definition conf_of (m : Meta) (goarch : string) : lconf :=
  mkConf "" 0 false (ptr_size m goarch) (wf_FuncIDs (m_Writer m)) (wf_RuntimeFuncIDs (m_Writer m)) (wf_FuncFlags (m_Writer m))
    (ab_Funcdata (m_ABI m)) (wf_AsmArgsStackmap (m_Writer m)) (wf_TrimInlineHash (m_Writer m)) (dw_AbbrevFunction (m_DWARF m))
    (dw_FuncDIE (m_DWARF m)) (dw_TextAddrx (m_DWARF m)).

Definition objMeta_of (m : Meta) (goarch : string) : objMeta :=
  let o := m_Object m in let w := m_Writer m in
  mkMeta (m_Go m) (bytes_of_string (ob_Magic o)) (ob_Blocks o) (ob_ObjFlags o) (ob_SymFlags o) (ob_SymFlags2 o) (ob_AuxTypes o) (ob_PkgIdx o)
    (ob_SymABIStatic o) (ob_HashSize o) (ob_Hash64Size o) (ob_Builtins o) (wf_ContentHash w) (wf_AsmNamedSymsLinkname w) (wf_Align w)
    (wf_TrimInlineHash w) (wf_TypePrefix w) (wf_ItabPrefix w) (wf_SortRelocs w) (wf_FuncInfoStartLine w) (wf_InlFileSymRefs w)
    (m_Kinds m) (m_Relocs m) (ptr_size m goarch) "" false.

Definition release_of (m : Meta) (goarch : string) : release :=
  mkRelease (m_Go m) (bool_decide (is_Some (m_Arch m !! goarch))) (from_option ar_MinLC 0 (m_Arch m !! goarch)) (ab_Pcdata (m_ABI m))
    (conf_of m goarch) (objMeta_of m goarch).

(** ** A checked release *)

(** What [check] asks for, stated on the record. *)
Record complete (m : Meta) : Prop := {
  co_groups : forall group have names n, (group, have, names) ∈ required m -> n ∈ names -> is_Some (have !! n);
  co_magic : ob_Magic (m_Object m) <> "" /\ ob_HashSize (m_Object m) <> 0;
  co_hash : wf_ContentHash (m_Writer m) ∈ ["notsha256"; "sha256-prefix01"; "sha1"];
  co_align : wf_Align (m_Writer m) ∈ ["heuristic"; "explicit"];
  co_die : dw_FuncDIE (m_DWARF m) ∈ ["v0"; "v1"; "v2"];
  co_prefixes : wf_TypePrefix (m_Writer m) <> "" /\ wf_ItabPrefix (m_Writer m) <> "";
  co_lines : dw_Lines (m_DWARF m) = "v1";
  co_arch : forall a, a ∈ ["amd64"; "arm64"] -> exists ar, m_Arch m !! a = Some ar /\ ar_MinLC ar <> 0 /\ ar_PtrSize ar <> 0 }.

Lemma is_one_of_iff s l : is_one_of s l = true <-> s ∈ l.
Proof.
  unfold is_one_of. rewrite existsb_exists. split; [intros (x & Hx & ->%String.eqb_eq) | intros H]; [by apply list_elem_of_In|].
  exists s. by rewrite String.eqb_refl, <-list_elem_of_In.
Qed.

Lemma has_arch_iff m a : has_arch m a = true <-> exists ar, m_Arch m !! a = Some ar /\ ar_MinLC ar <> 0 /\ ar_PtrSize ar <> 0.
Proof.
  unfold has_arch. destruct (m_Arch m !! a) as [ar|]; [|by split; [|intros (? & ? & _)]].
  rewrite negb_true_iff, orb_false_iff, !Z.eqb_neq. split; [intros H; by exists ar | by intros (? & [= <-] & H)].
Qed.

Lemma need_nil g have names : need g have names = [] <-> forall n, n ∈ names -> is_Some (have !! n).
Proof.
  unfold need. induction names as [|n names IH]; [split; [intros _ n Hn; by apply not_elem_of_nil in Hn | done]|].
  rewrite filter_cons. case_decide as D.
  - split; [done|]. intros H. destruct (H n) as [x Hx]; [by left | congruence].
  - rewrite IH. split; intros H k; [|by intros Hk; apply H; right]. intros [->|Hk]%elem_of_cons; [|by apply H].
    by destruct (have !! n); [eexists|].
Qed.

Lemma missing_nil m : missing m = [] <-> forall g have names n, (g, have, names) ∈ required m -> n ∈ names -> is_Some (have !! n).
Proof.
  unfold missing. induction (required m) as [|[[g have] names] l IH]; [split; [|done]; intros _ g have names n Hn; by apply not_elem_of_nil in Hn|].
  rewrite fmap_cons. cbn [concat]. rewrite app_nil, need_nil, IH. split.
  - intros [Hg Hl] g' have' names' n [[= -> -> ->]|H]%elem_of_cons Hn; [by apply Hg | by eapply Hl].
  - intros H. split; [intros n; apply (H g); by left|]. intros g' have' names' n Hg. apply (H g'). by right.
Qed.

(** One guard of a check. *)
Lemma guard_iff {E} (b : bool) (e : E) r P : (r = Ok () <-> P) -> ((if b then Fail e else r) = Ok () <-> b = false /\ P).
Proof. intros H. destruct b; [by split; [|intros [? _]] | rewrite H; tauto]. Qed.

Lemma find_arch_iff m : (match list_find (fun a => has_arch m a = false) ["amd64"; "arm64"] with Some (_, a) => Fail ("metadata for " +:+ m_Go m +:+ " lacks GOARCH " +:+ a) | None => Ok () end) = Ok () <->
  forall a, a ∈ ["amd64"; "arm64"] -> has_arch m a = true.
Proof.
  destruct (list_find _ _) as [[i a]|] eqn:E.
  - apply list_find_Some in E as (Hl & Ha & _). split; [done|]. intros H. rewrite H in Ha; [done|]. by eapply list_elem_of_lookup_2.
  - apply list_find_None in E. rewrite Forall_forall in E. split; [|done]. intros _ a Ha. apply not_false_is_true. by apply E.
Qed.

Lemma check_iff m : check m = Ok () <-> complete m.
Proof.
  unfold check. repeat (rewrite guard_iff; [|reflexivity]). rewrite find_arch_iff, !negb_false_iff, !orb_false_iff, bool_decide_eq_true, missing_nil.
  rewrite !is_one_of_iff, !String.eqb_neq, Z.eqb_neq, String.eqb_eq. setoid_rewrite has_arch_iff.
  split; [intros (? & ? & ? & ? & ? & ? & ? & ?); by constructor | by intros []].
Qed.

(** ** Versions *)

Definition digits (s : string) : Prop := all_in re_digit s = true /\ s <> "".

(** A match of two groups. *)
Lemma two_groups text s e p1 p2 : group_text text (mkMatch s e [(2%nat, p2); (1%nat, p1)]) 1 = span_text text p1.1 p1.2 /\
  group_text text (mkMatch s e [(2%nat, p2); (1%nat, p1)]) 2 = span_text text p2.1 p2.2.
Proof. by destruct p1, p2. Qed.

Lemma Minor_of a b rest : digits a -> digits b -> stops re_digit rest -> Minor ("go" +:+ a +:+ "." +:+ b +:+ rest) = Some ("go" +:+ a +:+ "." +:+ b).
Proof.
  intros [Ha Ha'] [Hb Hb'] Hr. set (v := "go" +:+ a +:+ "." +:+ b +:+ rest). set (c0 := start_of v).
  assert (between "go" c0 (after "go" c0)) as B1 by by eexists.
  pose proof (after_rest "go" c0 (a +:+ "." +:+ b +:+ rest) eq_refl) as [R1 _].
  assert (between a (after "go" c0) (after a (after "go" c0))) as B2 by by eexists.
  pose proof (after_rest a _ _ R1) as [R2 _]. set (c2 := after a (after "go" c0)) in *.
  assert (between "." c2 (after "." c2)) as B3 by by eexists. pose proof (after_rest "." _ _ R2) as [R3 _]. set (c3 := after "." c2) in *.
  assert (between b c3 (after b c3)) as B4 by by eexists.
  assert (find minorRE v = Some (mkMatch 0 (cu_off (after b c3)) [(2%nat, (cu_off c3, cu_off (after b c3))); (1%nat, (cu_off (after "go" c0), cu_off c2))])) as E.
  { apply find_here. unfold match_at, minorRE, cats. cbn [run]. change (text_start (start_of v)) with true. cbn match.
    erewrite run_lit by reflexivity. fold c0. eapply run_many1; [exact Ha | exact Ha' | exact R1 | reflexivity |]. fold c2.
    rewrite (run_lit "." _ _ _ _ R2). fold c3. by eapply run_many1. }
  unfold Minor. rewrite E. cbn [mbind option_bind]. destruct (two_groups v 0 (cu_off (after b c3)) (cu_off (after "go" c0), cu_off c2) (cu_off c3, cu_off (after b c3))) as [-> ->].
  cbn [fst snd]. pose proof (between_app _ _ _ _ _ B1 B2) as B12. rewrite (span_between v "go" a _ _ B1 B2).
  by rewrite (span_between v _ b _ _ (between_app _ _ _ _ _ B12 B3) B4).
Qed.

(** The release of a Go version: [Minor] finds it exactly in the versions that start
    with [go], a number, a dot and a number, whatever follows ([go1.24.4], [go1.25rc1]),
    and it is that text up to the end of the second number. *)
Theorem Minor_spec v m : Minor v = Some m <->
  exists a b rest, v = "go" +:+ a +:+ "." +:+ b +:+ rest /\ digits a /\ digits b /\ stops re_digit rest /\ m = "go" +:+ a +:+ "." +:+ b.
Proof.
  split; [|intros (a & b & rest & -> & Ha & Hb & Hr & ->); by apply Minor_of]. intros E. pose proof E as E'.
  unfold Minor in E. destruct (find minorRE v) as [x|] eqn:Ef; [|done]. clear E.
  apply find_from_Some in Ef as (w & c & c' & Hw & H & _ & _ & _). unfold minorRE, cats in H.
  set (gs := rm_groups x) in H. clearbody gs. next_piece H c1 g1. inversion Hm as [| | | | | | | | | |? ? Ht| |]; subst. apply (start_begins w v) in Ht as ->; [|exact Hw].
  next_piece H c2 g2. apply inv_lit in Hm0 as [-> B1]. next_piece H c3 g3. apply inv_group in Hm0 as (g & (-> & a & Ha & Ha' & B2)%many1_inv & ->).
  next_piece H c4 g4. apply inv_lit in Hm0 as [-> B3]. apply inv_group in H as (g & (-> & b & Hb & Hb' & B4)%many1_inv & ->).
  destruct (between_app _ _ _ _ _ (between_app _ _ _ _ _ (between_app _ _ _ _ _ B1 B2) B3) B4) as (s & Es & _).
  destruct Hw as (s0 & _ & ->). cbn [after cu_rest] in Es. destruct (split_class re_digit s) as (d & rest & -> & Hd & Hrest).
  assert (v = "go" +:+ a +:+ "." +:+ (b +:+ d) +:+ rest) as -> by by rewrite Es, !string_app_assoc.
  assert (digits (b +:+ d)) as Hbd by (split; [by rewrite all_in_app, Hb, Hd | by destruct b]).
  exists a, (b +:+ d), rest. split_and!; [done..|]. rewrite Minor_of in E' by done. by injection E' as <-.
Qed.
