(* ===== verification/ConvertMain.v ===== *)
(** * The converter's command line

    Models src/internal/convert/main_cli.go and header.go: the flags, the release and
    the object header, and the order of the checks that come before an object is
    written.  debug/elf, encoding/json and the hash functions are parameters.  A run
    that panics ends with an error like the others. *)

From Stdlib Require Import ZArith Lia Ascii.
From stdpp Require Import base list strings gmap.
From S2P Require Import Prelude Text Regex Codec Format Elf GocobjWrite GocobjRead Verify World Layout Link ObjWrite Convert Data Assemble Meta.

(** ** Flags (package flag) *)

Inductive flag_kind := FString | FBool.

Inductive flags := FlagsOk (vals : gmap string string) (rest : list string) | FlagsExit (status : Z).

(** [strconv.ParseBool] *)
Definition parse_bool (s : string) : option bool :=
  if is_one_of s ["1"; "t"; "T"; "TRUE"; "true"; "True"] then Some true
  else if is_one_of s ["0"; "f"; "F"; "FALSE"; "false"; "False"] then Some false else None.

(** The name and the value of [name=value]; the name is not empty. *)
Definition cut_value (name : string) : string * option string :=
  match split_on "=" name with
  | n :: ((_ :: _) as vs) => (n, Some (join "=" vs))
  | _ => (name, None)
  end.

(** The text after the minus signs of an argument: [None] is not a flag, [Some ""] is
    the argument [--]. *)
Definition flag_name (s : string) : option string :=
  match s with
  | String "-" (String "-" n) => Some n
  | String "-" (String c n) => Some (String c n)
  | _ => None
  end.

Section Flags.
Variable kinds : gmap string flag_kind.

(** [FlagSet.Parse]: [Fail 0] and [Fail 2] end the process. *)
Fixpoint parse_flags (args : list string) (vals : gmap string string) : flags :=
  match args with
  | [] => FlagsOk vals []
  | s :: args' =>
      match flag_name s with
      | None => FlagsOk vals args
      | Some "" => FlagsOk vals args'
      | Some (String c _ as name) =>
          if Ascii.eqb c "-" || Ascii.eqb c "=" then FlagsExit 2
          else
            let '(n, v) := cut_value name in
            match kinds !! n with
            | None => FlagsExit (if is_one_of n ["help"; "h"] then 0 else 2)
            | Some FBool =>
                match parse_bool (default "true" v) with
                | Some b => parse_flags args' (<[n := if b then "true" else "false"]> vals)
                | None => FlagsExit 2
                end
            | Some FString =>
                match v, args' with
                | Some v, _ => parse_flags args' (<[n := v]> vals)
                | None, v :: args'' => parse_flags args'' (<[n := v]> vals)
                | None, [] => FlagsExit 2
                end
            end
      end
  end.
End Flags.

(** ** The release and the header *)

(** What is printed: a text, a gocobj that does not parse, a broken invariant. *)
Inductive msg := MText (s : string) | MParse (e : err) | MVerify (p : string) (e : verr).

Definition getenv (env : list string) (k : string) : string := default "" (head (omap (after_prefix (k +:+ "=")) env)).

(** [strings.Cut(s, "\n")]: the text before the first newline, if there is one. *)
Definition first_line (s : string) : option string := match split_on newline s with l :: _ :: _ => Some l | _ => None end.

Section Convert.
Variable h : host.
Variable elf_read : list Z -> res string efile.
Variable unmarshal : list Z -> res string Meta.
Variable embedded : gmap string (list Z).
Variable decode_env : list Z -> res string (gmap string string).
Variables sha256 sha1 : list Z -> list Z.

Definition go_call (args env : list string) : io string := run_call h (mkCall "go" args (h_environ h ++ "GOTOOLCHAIN=local" :: env)).

Definition goEnv (name : string) : io string :=
  b ← wrap_err (fun e => "go env " +:+ name +:+ ": " +:+ e +:+ " (is go in PATH?)") (go_call ["env"; name] []);
  mret (TrimSpace b).

(** The name of the cached header for an environment. *)
Definition header_key (b goarch : string) : string := hex_bytes (take 12 (sha256 (bytes_of_string (b +:+ goarch)))).

Definition header_cache (key : string) : string := match h_cacheDir h with Some d => path_join [d; "goc"; "objheader"; key] | None => "" end.

(** The cached header, when it is one. *)
Definition cached (cache : string) : io (option string) := fun w =>
  (Ok (if nonempty cache then
         b ← wo_fs w !! cache; let s := string_of_bytes b in if HasPrefix s "go object " then Some s else None
       else None), w).

(** The first line of the object that [go tool asm] writes for an empty file. *)
Definition asm_header (goarch tmp : string) : io string :=
  let src := path_join [tmp; "x.s"] in
  let obj := path_join [tmp; "x.o"] in
  _ ← WriteFile h src [];
  _ ← wrap_err (fun e => "go tool asm: " +:+ e) (go_call ["tool"; "asm"; "-p"; "main"; "-o"; obj; src] ["GOARCH=" +:+ goarch]);
  o ← ReadFile h obj;
  match first_line (string_of_bytes o) with
  | Some line => if HasPrefix line "go object " then mret (line +:+ String newline "") else fail "go tool asm wrote no object header"
  | None => fail "go tool asm wrote no object header"
  end.

(** Keeps the header, as far as that works. *)
Definition keep_header (cache hd : string) : io () :=
  if negb (nonempty cache) || negb (h_mkdir h (Dir cache)) then mret ()
  else
    let t := cache +:+ "." +:+ dec (h_pid h) in
    ok ← succeeds (WriteFile h t (bytes_of_string hd));
    if ok : bool then _ ← succeeds (Rename h t cache); mret () else mret ().

Definition objectHeader (goarch ver : string) : io string :=
  b ← wrap_err (fun e => "go env: " +:+ e +:+ " (is go in PATH?)")
        (go_call ["env"; "-json"; "GOROOT"; "GOVERSION"; "GOOS"; "GOEXPERIMENT"; "GOAMD64"; "GOARM64"] ["GOARCH=" +:+ goarch]);
  env ← lift (decode_env (bytes_of_string b));
  let v := default "" (env !! "GOVERSION") in
  if negb (String.eqb v ver) then fail ("go in PATH is " +:+ v +:+ ", objects are being written for " +:+ ver +:+ ": pass -header")
  else
    let cache := header_cache (header_key b goarch) in
    c ← cached cache;
    match c with
    | Some s => mret s
    | None =>
        tmp ← lift (h_tmp h "goc-hdr");
        cleanup tmp (hd ← asm_header goarch tmp; _ ← keep_header cache hd; mret hd)
    end.

Definition sameMinor (v minor : string) : bool := match Minor v with Some m => String.eqb m minor | None => false end.

(** The version an object is written for, when the facts come from a file. *)
Definition file_version (m : Meta) : io string := fun w =>
  match goEnv "GOVERSION" w with
  | (Ok v, w) => (Ok (if sameMinor v (m_Go m) then v else m_SourceVersion m), w)
  | (Fail _, w) => (Ok (m_SourceVersion m), w)
  end.

Definition resolve (metaFile ver : string) : io (Meta * string) :=
  if nonempty metaFile then
    m ← Load unmarshal h metaFile;
    v ← (if nonempty ver then mret ver else file_version m);
    mret (m, v)
  else
    v ← (if nonempty ver then mret ver else goEnv "GOVERSION");
    m ← lift (ForVersion unmarshal embedded v);
    mret (m, v).

Definition profile_of (m : Meta) (goarch : string) : res string Profile := profileFor (m_Go m) (facts_of m goarch) goarch.

Definition ConvertProfile (goarch : string) : io string :=
  '(m, _) ← resolve "" "";
  p ← lift (profile_of m goarch);
  mret (p_Name p).

(** ** Conversion *)

(** [elf.Open] *)
Definition elf_open (p : string) : io efile := b ← ReadFile h p; lift (elf_read b).

Definition Open (p : string) : io (res err File) := ef ← elf_open p; mret (GocobjRead.Parse ef).

(** [newConverter]: the architecture is known before the file is opened. *)
Definition open_converter (p : string) (f : File) (pkg goarch libcalls : string) : io converter :=
  if negb (is_one_of goarch ["amd64"; "arm64"]) then fail ("GOARCH=" +:+ goarch +:+ ": only amd64 and arm64 objects are converted")
  else ef ← elf_open p; lift (newConverter p f pkg goarch libcalls ef).

Definition conv_arch (c : converter) : string := if cv_arm64 c then "arm64" else "amd64".

(** [converter.write]: the file is created when the object is complete, and filled
    when it has been encoded. *)
Definition write (out : string) (m : Meta) (c : converter) (f : File) (header : string) : io () :=
  let rl := release_of m (conv_arch c) in
  l ← lift (assemble rl (conf_for rl c header) c f);
  _ ← WriteFile h out [];
  match Write (meta_for rl c header) sha256 sha1 l header with
  | Ok b => WriteFile h out b
  | Fail (WErr e) => fail e
  | Fail WPanic => fail "panic"
  end.

(** The header with its newline. *)
Definition end_line (hd : string) : string := if HasSuffix hd (String newline "") then hd else hd +:+ String newline "".

Definition header_for (fl : gmap string string) (goarch ver : string) : io string :=
  let hd := default "" (fl !! "header") in
  if nonempty hd then mret (end_line hd) else objectHeader goarch ver.

(** From the parsed file on. *)
Definition convert_file (fl : gmap string string) (goarch ver : string) (m : Meta) (want : Profile) (f : File) : io Z :=
  let opt k := default "" (fl !! k) in
  if negb (match LookupProfile (h_Profile (f_Header f)) with Some have => SameFacts have want | None => false end) then
    fail (opt "in" +:+ " has ABI profile " +:+ quote (h_Profile (f_Header f)) +:+ "; " +:+ ver +:+ " on GOARCH=" +:+ goarch +:+ " needs " +:+
          quote (p_Name want) +:+ " (or one with the same facts)")
  else if Z.land (h_Flags (f_Header f)) HeaderStackChecksInCode =? 0 then
    fail (opt "in" +:+ ": the backend did not emit the stack checks (header flag stack_checks_in_code is 0)")
  else
    hdr ← header_for fl goarch ver;
    c ← open_converter (opt "in") f (default "main" (fl !! "p")) goarch (opt "libcall-impl");
    _ ← write (opt "o") m c f hdr;
    _ ← (if nonempty (opt "symabis") then WriteFile h (opt "symabis") (bytes_of_string (symabis c)) else mret ());
    mret 0.

Definition flag_kinds : gmap string flag_kind := list_to_map
  [("in", FString); ("o", FString); ("p", FString); ("print-profile", FBool); ("version", FBool); ("goarch", FString); ("goversion", FString);
   ("go-meta", FString); ("header", FString); ("symabis", FString); ("libcall-impl", FString)].

Definition is_set (fl : gmap string string) (k : string) : bool := match fl !! k with Some "true" => true | _ => false end.

Definition goarch_of (fl : gmap string string) : string :=
  let a := default "" (fl !! "goarch") in
  if nonempty a then a else let e := getenv (h_environ h) "GOARCH" in if nonempty e then e else "amd64".

(** The status and what is printed; [Fail] is [fatalf]. *)
Definition convert_main (fl : gmap string string) : io (Z * list msg) :=
  let opt k := default "" (fl !! k) in
  let goarch := goarch_of fl in
  '(m, ver) ← resolve (opt "go-meta") (opt "goversion");
  if is_set fl "version" then mret (0, [MText ver])
  else
    want ← lift (profile_of m goarch);
    if is_set fl "print-profile" then mret (0, [MText (p_Name want)])
    else if negb (nonempty (opt "in")) || negb (nonempty (opt "o"))
    then mret (2, [MText "usage: goc tool convert -in foo.gocobj -o foo.goobj [-p pkg] [-symabis file]"])
    else
      r ← Open (opt "in");
      match r with
      | Fail e => mret (1, [MParse e])
      | Ok f =>
          match Verify f with
          | (_ :: _) as errs => mret (1, MVerify (opt "in") <$> errs)
          | [] => rc ← convert_file fl goarch ver m want f; mret (rc, [])
          end
      end.

(** [Main]: the exit status, what is printed, the world after. *)
Definition Main (args : list string) (w : world) : Z * list msg * world :=
  match parse_flags flag_kinds args ∅ with
  | FlagsExit s => (s, [], w)
  | FlagsOk fl _ =>
      match convert_main fl w with
      | (Ok (rc, ms), w) => (rc, ms, w)
      | (Fail e, w) => (1, [MText ("goc tool convert: " +:+ e)], w)
      end
  end.
End Convert.

(** ** What a conversion that ends with status 0 has established *)

Record object_from (h : host) (elf_read : list Z -> res string efile) (sha256 sha1 : list Z -> list Z) (fl : gmap string string)
    (input : list Z) (ef : efile) (m : Meta) (f : File) (c : converter) (hdr : string) (b : list Z) : Prop := {
  of_read : elf_read input = Ok ef /\ GocobjRead.Parse ef = Ok f;
  of_valid : Verify f = [];
  of_profile : exists have want, LookupProfile (h_Profile (f_Header f)) = Some have /\ profile_of m (goarch_of h fl) = Ok want /\ SameFacts have want = true;
  of_checks : Z.land (h_Flags (f_Header f)) HeaderStackChecksInCode <> 0;
  of_conv : newConverter (default "" (fl !! "in")) f (default "main" (fl !! "p")) (goarch_of h fl) (default "" (fl !! "libcall-impl")) ef = Ok c;
  of_object : write_object (release_of m (conv_arch c)) sha256 sha1 c f hdr = Ok b }.

Lemma write_writes h sha256 sha1 out m c f hdr w w' : write h sha256 sha1 out m c f hdr w = (Ok (), w') ->
  exists b, write_object (release_of m (conv_arch c)) sha256 sha1 c f hdr = Ok b /\ wo_fs w' !! out = Some b.
Proof.
  unfold write, write_object. intros E. io_step E l w1. apply lift_ok in E0 as [-> ->]. io_step E u w2. cbn [mbind res_bind].
  destruct (Write _ sha256 sha1 l hdr) as [b|[e|]]; [|done..]. apply write_ok in E as ->. exists b. split; [done|]. cbn. apply lookup_insert_eq.
Qed.

(** ** Files that the converter's helpers leave alone

    The go command does not touch the path, and it is not a temporary or a cached file. *)
Record apart (h : host) (sha256 : list Z -> list Z) (p : string) : Prop := {
  ap_go : forall c f, cl_bin c = "go" -> snd (h_exec h c f) !! p = f !! p;
  ap_tmp : forall t, h_tmp h "goc-hdr" = Ok t -> under t p = false /\ p <> path_join [t; "x.s"];
  ap_cache : forall b goarch, let c := header_cache h (header_key sha256 b goarch) in p <> c /\ p <> c +:+ "." +:+ dec (h_pid h) }.

Section Apart.
Variables (h : host) (sha256 : list Z -> list Z) (p : string) (v : option (list Z)).
Variables (unmarshal : list Z -> res string Meta) (embedded : gmap string (list Z)) (decode_env : list Z -> res string (gmap string string)).
Hypothesis Hp : apart h sha256 p.

Lemma keeps_go_call args env : keeps (file_is p v) (go_call h args env).
Proof using Hp. apply keeps_call. intros f. by apply (ap_go _ _ _ Hp). Qed.

Lemma keeps_goEnv name : keeps (file_is p v) (goEnv h name).
Proof using Hp. apply keeps_bind; [apply keeps_wrap, keeps_go_call | auto with io]. Qed.

Lemma keeps_resolve metaFile ver : keeps (file_is p v) (resolve h unmarshal embedded metaFile ver).
Proof using Hp.
  unfold resolve. apply keeps_if.
  - apply keeps_bind; [unfold Load; auto with io|]. intros m. apply keeps_bind; [|auto with io]. apply keeps_if; [auto with io|].
    intros w Hw. pose proof (keeps_goEnv "GOVERSION" w Hw) as H. unfold file_version. destruct (goEnv h "GOVERSION" w) as [[?|?] ?]; exact H.
  - apply keeps_bind; [apply keeps_if; [auto with io | apply keeps_goEnv]|]. intros x. apply keeps_bind; auto with io.
Qed.

Lemma keeps_header goarch ver : keeps (file_is p v) (objectHeader h decode_env sha256 goarch ver).
Proof using Hp.
  unfold objectHeader. apply keeps_bind; [apply keeps_wrap, keeps_go_call|]. intros b. apply keeps_bind; [auto with io|]. intros env.
  apply keeps_if; [auto with io|]. destruct (ap_cache _ _ _ Hp b goarch) as [H1 H2]. apply keeps_bind; [by intros w Hw|].
  intros [s|]; [auto with io|]. destruct (h_tmp h "goc-hdr") as [t|e] eqn:Et; [|intros w Hw; exact Hw].
  change (keeps (file_is p v) (cleanup t (hd ← asm_header h goarch t; _ ← keep_header h (header_cache h (header_key sha256 b goarch)) hd; mret hd))).
  destruct (ap_tmp _ _ _ Hp t Et) as [Ht Hx]. apply keeps_cleanup; [done|]. apply keeps_bind.
  - unfold asm_header. apply keeps_bind; [by apply keeps_write|]. intros _. apply keeps_bind; [apply keeps_wrap, keeps_go_call|]. intros _.
    apply keeps_bind; [auto with io|]. intros o. destruct (first_line _); [apply keeps_if|]; auto with io.
  - intros hd. apply keeps_bind; [|auto with io]. unfold keep_header. apply keeps_if; [auto with io|].
    apply keeps_bind; [apply keeps_succeeds; by apply keeps_write|]. intros ok. apply keeps_if; [|auto with io].
    apply keeps_bind; [apply keeps_succeeds; by apply keeps_rename | auto with io].
Qed.

Lemma keeps_header_for fl goarch ver : keeps (file_is p v) (header_for h decode_env sha256 fl goarch ver).
Proof using Hp. unfold header_for. apply keeps_if; [auto with io | apply keeps_header]. Qed.

Lemma keeps_open elf_read q : keeps (file_is p v) (Open h elf_read q).
Proof using. unfold Open, elf_open. apply keeps_bind; [apply keeps_bind|]; auto with io. Qed.

Lemma keeps_open_converter elf_read q f pkg goarch libcalls : keeps (file_is p v) (open_converter h elf_read q f pkg goarch libcalls).
Proof using. unfold open_converter, elf_open. apply keeps_if; [auto with io|]. apply keeps_bind; [apply keeps_bind|]; auto with io. Qed.
End Apart.

(** A run that keeps a path, at one world. *)
Lemma keeps_run {A} p v (m : io A) w r w1 : keeps (file_is p v) m -> m w = (r, w1) -> file_is p v w -> file_is p v w1.
Proof. intros H E Hw. specialize (H w Hw). by rewrite E in H. Qed.

Section Runs.
Variable h : host.
Variable elf_read : list Z -> res string efile.
Variable unmarshal : list Z -> res string Meta.
Variable embedded : gmap string (list Z).
Variable decode_env : list Z -> res string (gmap string string).
Variables sha256 sha1 : list Z -> list Z.

Lemma open_ok p w r w1 : Open h elf_read p w = (Ok r, w1) -> exists b ef, wo_fs w !! p = Some b /\ elf_read b = Ok ef /\ r = GocobjRead.Parse ef /\ w1 = w.
Proof using.
  unfold Open, elf_open. intros E. io_step E ef w2. io_step E0 b w3. apply read_ok in E1 as [Hb ->]. apply lift_ok in E0 as [He ->].
  injection E as <- <-. by exists b, ef.
Qed.

Lemma open_converter_ok p f pkg goarch libcalls w c w1 : open_converter h elf_read p f pkg goarch libcalls w = (Ok c, w1) ->
  exists b ef, wo_fs w !! p = Some b /\ elf_read b = Ok ef /\ newConverter p f pkg goarch libcalls ef = Ok c /\ w1 = w.
Proof using.
  unfold open_converter, elf_open. destruct (negb _); [done|]. intros E. io_step E ef w2. io_step E0 b w3. apply read_ok in E1 as [Hb ->].
  apply lift_ok in E0 as [He ->]. apply lift_ok in E as [Hc ->]. by exists b, ef.
Qed.

(** *** The last part of a conversion *)

Section Last.
Variables (fl : gmap string string) (goarch ver : string) (m : Meta) (want : Profile) (f : File) (input : list Z) (ef : efile).
Local Notation opt k := (default "" (fl !! k)).
Hypothesis Hin : apart h sha256 (opt "in").
Hypothesis Hef : elf_read input = Ok ef.

(** The checks on the file, the header and the converter come before anything is
    written: [w1] is the world then. *)
Lemma convert_file_checked w r w2 : file_is (opt "in") (Some input) w -> convert_file h elf_read decode_env sha256 sha1 fl goarch ver m want f w = (r, w2) ->
  (exists e, r = Fail e /\ forall p v, apart h sha256 p -> file_is p v w -> file_is p v w2) \/
  exists hdr c w1, (exists have, LookupProfile (h_Profile (f_Header f)) = Some have /\ SameFacts have want = true) /\
    Z.land (h_Flags (f_Header f)) HeaderStackChecksInCode <> 0 /\
    newConverter (opt "in") f (default "main" (fl !! "p")) goarch (opt "libcall-impl") ef = Ok c /\
    (forall p v, apart h sha256 p -> file_is p v w -> file_is p v w1) /\
    (_ ← write h sha256 sha1 (opt "o") m c f hdr;
     _ ← (if nonempty (opt "symabis") then WriteFile h (opt "symabis") (bytes_of_string (symabis c)) else mret ()); mret 0) w1 = (r, w2).
Proof using Hin Hef.
  intros Hi E. unfold convert_file in E. destruct (LookupProfile _) as [have|]; [|injection E as <- <-; left; by eexists].
  destruct (SameFacts have want) eqn:Es; cbn [negb] in E; [|injection E as <- <-; left; by eexists].
  destruct (Z.eqb_spec (Z.land (h_Flags (f_Header f)) HeaderStackChecksInCode) 0) as [|Hn]; [injection E as <- <-; left; by eexists|].
  assert (forall p v r w1, apart h sha256 p -> header_for h decode_env sha256 fl goarch ver w = (r, w1) -> file_is p v w -> file_is p v w1) as Hk.
  { intros p v r' w1 Hp E' Hv. exact (keeps_run _ _ _ _ _ _ (keeps_header_for _ _ _ v _ Hp fl goarch ver) E' Hv). }
  apply io_bind_case in E as [(e & E & ->)|(hdr & w1 & E0 & E)]; [left; exists e; split; [done|]; intros p v Hp; by apply (Hk _ _ _ _ Hp E)|].
  pose proof (Hk _ _ _ _ Hin E0 Hi) as Hi1. apply io_bind_case in E as [(e & E & ->)|(c & w3 & E1 & E)].
  - left. exists e. split; [done|]. intros p v Hp Hv. apply (Hk _ _ _ _ Hp E0) in Hv. exact (keeps_run _ _ _ _ _ _ (keeps_open_converter _ _ _ _ _ _ _ _ _) E Hv).
  - apply open_converter_ok in E1 as (b & ef' & Hb & He & Hc & ->). unfold file_is in Hi1. rewrite Hi1 in Hb. injection Hb as <-. rewrite Hef in He. injection He as <-.
    right. exists hdr, c, w1. split; [by exists have|]. split_and!; [done..| |exact E]. intros p v Hp. by apply (Hk _ _ _ _ Hp E0).
Qed.

(** What the two writes leave. *)
Lemma write_left c hdr v w r w1 : file_is (opt "o") v w -> write h sha256 sha1 (opt "o") m c f hdr w = (r, w1) ->
  match r with
  | Ok _ => exists b, write_object (release_of m (conv_arch c)) sha256 sha1 c f hdr = Ok b /\ file_is (opt "o") (Some b) w1
  | Fail _ => file_is (opt "o") v w1 \/ file_is (opt "o") (Some []) w1
  end.
Proof using.
  intros Hv E. destruct r as [u|e]; [destruct u; by apply write_writes in E|]. unfold write in E.
  apply io_bind_case in E as [(e' & E & _)|(l & w2 & [_ ->]%lift_ok & E)]; [injection E as _ <-; by left|].
  apply io_bind_case in E as [(e' & E & _)|(u & w2 & E1 & E)].
  - left. unfold WriteFile in E. destruct (h_writable h _); [done|]. by injection E as _ <-.
  - destruct u. pose proof E1 as E2. apply write_ok in E1 as ->. right. unfold WriteFile in E2, E. destruct (h_writable h _); [|done].
    destruct (Write _ sha256 sha1 l hdr) as [b|[?|]]; [done|..]; injection E as _ <-; unfold file_is; cbn; apply lookup_insert_eq.
Qed.
End Last.

Definition made_of (fl : gmap string string) (b : list Z) : Prop := exists input ef m f c hdr, object_from h elf_read sha256 sha1 fl input ef m f c hdr b.

(** What an unsuccessful run leaves at the output path: what was there, an empty file
    when the object could not be encoded, or the object when only the symabis file could
    not be written. *)
Definition left_behind (fl : gmap string string) (v : option (list Z)) (w : world) : Prop :=
  let out := default "" (fl !! "o") in
  file_is out v w \/ file_is out (Some []) w \/ (h_writable h (default "" (fl !! "symabis")) = false /\ exists b, made_of fl b /\ file_is out (Some b) w).

(** The run up to the parsed file. *)
Lemma main_checked fl w r w2 : is_set fl "version" = false -> is_set fl "print-profile" = false -> apart h sha256 (default "" (fl !! "in")) ->
  convert_main h elf_read unmarshal embedded decode_env sha256 sha1 fl w = (r, w2) ->
  ((forall ms, r <> Ok (0, ms)) /\ forall p v, apart h sha256 p -> file_is p v w -> file_is p v w2) \/
  exists input ef m ver want f w1 rc, wo_fs w !! default "" (fl !! "in") = Some input /\ file_is (default "" (fl !! "in")) (Some input) w1 /\
    elf_read input = Ok ef /\ GocobjRead.Parse ef = Ok f /\ Verify f = [] /\
    profile_of m (goarch_of h fl) = Ok want /\ (forall p v, apart h sha256 p -> file_is p v w -> file_is p v w1) /\
    convert_file h elf_read decode_env sha256 sha1 fl (goarch_of h fl) ver m want f w1 = (rc, w2) /\
    r = match rc with Ok rc => Ok (rc, []) | Fail e => Fail e end.
Proof using.
  intros Hv Hpr Hp E. unfold convert_main in E. rewrite Hv, Hpr in E.
  assert (forall p v r w1, apart h sha256 p -> resolve h unmarshal embedded (default "" (fl !! "go-meta")) (default "" (fl !! "goversion")) w = (r, w1) ->
    file_is p v w -> file_is p v w1) as Hk.
  { intros p v r' w1 Hp' E' Hv'. exact (keeps_run _ _ _ _ _ _ (keeps_resolve h sha256 _ v unmarshal embedded Hp' _ _) E' Hv'). }
  apply io_bind_case in E as [(e & E & ->)|([m ver] & w1 & E0 & E)]; [left; split; [done|]; intros p v Hp'; by apply (Hk _ _ _ _ Hp' E)|].
  assert (forall p v, apart h sha256 p -> file_is p v w -> file_is p v w1) as Hk1 by (intros p v Hp'; by apply (Hk _ _ _ _ Hp' E0)).
  apply io_bind_case in E as [(e & E & ->)|(want & w3 & [Hw ->]%lift_ok & E)]; [left; injection E as _ <-; by split|].
  destruct (_ || _); [left; injection E as <- <-; by split|].
  apply io_bind_case in E as [(e & E & ->)|(rf & w3 & E1 & E)].
  { left. split; [done|]. intros p v Hp' Hv'. exact (keeps_run _ _ _ _ _ _ (keeps_open _ _ _ _ _) E (Hk1 _ _ Hp' Hv')). }
  apply open_ok in E1 as (input & ef & Hb & He & -> & ->). destruct (GocobjRead.Parse ef) as [f|] eqn:Ef; [|left; injection E as <- <-; by split].
  destruct (Verify f) eqn:Evf; [|left; injection E as <- <-; by split].
  assert (wo_fs w !! default "" (fl !! "in") = Some input) as Hin by (by rewrite <-Hb; symmetry; apply (Hk1 _ _ Hp)).
  right. apply io_bind_case in E as [(e & E & ->)|(rc & w4 & E2 & E)].
  - by exists input, ef, m, ver, want, f, w1, (Fail e).
  - injection E as <- <-. by exists input, ef, m, ver, want, f, w1, (Ok rc).
Qed.

(** When the converter's command ends with status 0 and was not asked for the version or
    the profile, it printed nothing; the input parsed and [Verify] found nothing in it; its
    ABI profile states the facts of the release for the architecture; the backend emitted
    the stack checks; and the output file holds the object that [write_object] made of
    that input (the symabis file, when asked for, its def lines). *)
Lemma Main_converts args fl rest w w' ms : parse_flags flag_kinds args ∅ = FlagsOk fl rest ->
  is_set fl "version" = false -> is_set fl "print-profile" = false -> apart h sha256 (default "" (fl !! "in")) ->
  Main h elf_read unmarshal embedded decode_env sha256 sha1 args w = (0, ms, w') ->
  ms = [] /\ exists input ef m f c hdr b, wo_fs w !! default "" (fl !! "in") = Some input /\ object_from h elf_read sha256 sha1 fl input ef m f c hdr b /\
    (default "" (fl !! "symabis") <> default "" (fl !! "o") -> wo_fs w' !! default "" (fl !! "o") = Some b) /\
    (default "" (fl !! "symabis") <> "" -> wo_fs w' !! default "" (fl !! "symabis") = Some (bytes_of_string (symabis c))).
Proof using.
  intros Hf Hv Hpr Hp E. unfold Main in E. rewrite Hf in E. destruct (convert_main _ _ _ _ _ _ _ fl w) as [r w1] eqn:Ec.
  assert (r = Ok (0, ms) /\ w1 = w') as [-> ->] by (destruct r as [[? ?]|?]; [injection E as -> -> ->; by split | discriminate E]).
  destruct (main_checked _ _ _ _ Hv Hpr Hp Ec) as [[Hn _]|(input & ef & m & ver & want & f & w1 & rc & Hin & Hi1 & He & Ef & Evf & Hw & _ & Ecf & Er)]; [by destruct (Hn ms)|].
  destruct rc as [rc|]; [|done]. injection Er as <- ->. split; [done|].
  destruct (convert_file_checked _ _ _ _ _ _ _ _ Hp He _ _ _ Hi1 Ecf) as [(e & ? & _)|(hdr & c & w2 & (have & Hl & Hs) & Hchk & Hc & _ & E2)]; [done|].
  io_step E2 u w3. destruct u. apply write_writes in E0 as (b & Hb & Ho). exists input, ef, m, f, c, hdr, b. split; [done|].
  split; [constructor; try done; by exists have, want|]. io_step E2 u w4. injection E2 as <-. unfold nonempty in E0.
  destruct (String.eqb_spec (default "" (fl !! "symabis")) "") as [->|Hs']; [assert (w4 = w3) as -> by (by injection E0); by split; [|intros []]|]. cbn [negb] in E0. destruct u. apply write_ok in E0 as ->.
  split; intros Hne; cbn; [by rewrite lookup_insert_ne | by rewrite lookup_insert_eq].
Qed.

(** When the converter's command ends with another status, the output path holds what it
    held before, or an empty file (the object was complete but could not be encoded: the
    file is created first), or the object (then the symabis file could not be written):
    never part of an object. *)
Lemma Main_failed args fl rest w rc ms w' : parse_flags flag_kinds args ∅ = FlagsOk fl rest ->
  is_set fl "version" = false -> is_set fl "print-profile" = false ->
  apart h sha256 (default "" (fl !! "in")) -> apart h sha256 (default "" (fl !! "o")) ->
  Main h elf_read unmarshal embedded decode_env sha256 sha1 args w = (rc, ms, w') -> rc <> 0 ->
  left_behind fl (wo_fs w !! default "" (fl !! "o")) w'.
Proof using.
  intros Hf Hv Hpr Hp Ho E Hrc. unfold Main in E. rewrite Hf in E. set (v := wo_fs w !! default "" (fl !! "o")).
  destruct (convert_main _ _ _ _ _ _ _ fl w) as [r w1] eqn:Ec.
  assert (w1 = w' /\ forall ms, r <> Ok (0, ms)) as [-> Hr] by (destruct r as [[? ?]|?]; injection E as <- <- ->; split; [done | by intros ? [= ->] | done | done]).
  clear E Hrc. destruct (main_checked _ _ _ _ Hv Hpr Hp Ec) as [[_ Hk]|(input & ef & m & ver & want & f & w1 & rc' & Hin & Hi1 & He & Ef & Evf & Hw & Hk & Ecf & Er)];
    [left; by apply Hk|].
  destruct (convert_file_checked _ _ _ _ _ _ _ _ Hp He _ _ _ Hi1 Ecf) as [(e & _ & Hk')|(hdr & c & w2 & (have & Hl & Hs) & Hchk & Hc & Hk' & E2)];
    pose proof (Hk' _ v Ho (Hk _ v Ho eq_refl)) as Hv2; [by left|].
  apply io_bind_case in E2 as [(e & E2 & _)|(u & w4 & E2 & E)]; [destruct (write_left _ _ _ _ _ _ _ _ _ Hv2 E2) as [H|H]; [by left | by right; left]|].
  destruct (write_left _ _ _ _ _ _ _ _ _ Hv2 E2) as (b & Hb & Hout). apply io_bind_case in E as [(e & E & _)|(u' & w5 & _ & E)].
  - right. right. unfold nonempty in E. destruct (String.eqb _ ""); [done|]. cbn [negb] in E. unfold WriteFile in E. destruct (h_writable h _) eqn:Eh; [done|].
    injection E as _ <-. split; [done|]. exists b. split; [|done]. exists input, ef, m, f, c, hdr. constructor; try done. by exists have, want.
  - injection E as <- _. by destruct (Hr []).
Qed.
End Runs.

(** ** A small run *)

Definition names (l : list string) : gmap string Z := list_to_map (imap (fun i n => (n, Z.of_nat i)) l).

Definition demo_facts : Meta :=
  mkMetaFacts 1 "go1.24" "go1.24.4" "goc-gometa"
    (mkObject (String "000" "go120ld") "" ["Autolib"; "PkgIdx"; "File"; "Symdef"; "Hashed64def"; "Hasheddef"; "Nonpkgdef"; "Nonpkgref"; "RefFlags";
        "Hash64"; "Hash"; "RelocIdx"; "AuxIdx"; "DataIdx"; "Reloc"; "Aux"; "Data"; "RefName"; "End"]
      (names ["Shared"; "NeedNameExpansion"; "FromAssembly"]) (names ["Dupok"; "Local"; "Typelink"; "Leaf"; "NoSplit"; "ReflectMethod"; "GoType"])
      (names ["UsedInIface"; "Itab"; "Linkname"])
      (names ["Gotype"; "FuncInfo"; "Funcdata"; "DwarfInfo"; "DwarfLoc"; "DwarfRanges"; "DwarfLines"; "Pcsp"; "Pcfile"; "Pcline"; "Pcinline"; "Pcdata"])
      (list_to_map [("None", 2147483647); ("Hashed64", 2147483646); ("Hashed", 2147483645); ("Builtin", 2147483644); ("Self", 2147483643)])
      (-1) 20 8 [("runtime.newobject", 1)])
    (mkWriterFacts "notsha256" true "heuristic" true true "type:" "go:itab." true true false (names ["TopFrame"; "SPWrite"; "Asm"]) ∅ ∅)
    (names ["Sxxx"; "STEXT"; "STEXTFIPS"; "SRODATA"; "SNOPTRDATA"; "SDATA"; "SBSS"; "SNOPTRBSS"; "SDWARFFCN"; "SDWARFRANGE"; "SDWARFLINES"])
    (names ["R_NONE"; "R_ADDR"; "R_CALL"; "R_PCREL"; "R_CALLARM64"; "R_ADDRARM64"; "R_ARM64_GOTPCREL"; "R_ARM64_PCREL"; "R_ARM64_LDST8"; "R_ARM64_LDST16";
        "R_ARM64_LDST32"; "R_ARM64_LDST64"; "R_ARM64_LDST128"])
    (mkABI (names ["ArgsPointerMaps"; "LocalsPointerMaps"; "StackObjects"; "InlTree"; "OpenCodedDeferInfo"; "ArgInfo"]) (names ["UnsafePoint"; "StackMapIndex"])
      128 4096 800 {["stackguard0" := 16]})
    (list_to_map
       [("amd64", mkArch 8 1 "R14" (regs "AX,BX,CX,DI,SI,R8,R9,R10,R11") (regs "X0,X1,X2,X3,X4,X5,X6,X7,X8,X9,X10,X11,X12,X13,X14") "runtime.morestack_noctxt" true);
        ("arm64", mkArch 8 4 "R28" (regs "R0,R1,R2,R3,R4,R5,R6,R7,R8,R9,R10,R11,R12,R13,R14,R15")
           (regs "F0,F1,F2,F3,F4,F5,F6,F7,F8,F9,F10,F11,F12,F13,F14,F15") "runtime.morestack_noctxt" true)])
    (mkDWARF 3 "v1" "v1" []) true ∅.

Definition demo_tables : Builder :=
  mkBuilder (mkHeader Major Format.Minor ArchAMD64 HeaderStackChecksInCode "goabi1-amd64" "goc") ["a.c"]
    [mkFunc "f" 16 16 0 0 0 FuncNosplit 0 0 7 0 [] (Some [mkPCT PCSPDelta [mkPC 0 0; mkPC 4 16]]) None None 0 0 0] [] [] [].

Definition demo_input : efile :=
  mkElf EM_X86_64
    ([mkSec "" 0 0 0 None; mkSec ".text" 1 6 16 (Some (Z.of_nat <$> seq 0 16))] ++
     ((fun '(n, b) => mkSec n SHT_PROGBITS 0 (zlen b) (Some b)) <$> map_to_list (Sections demo_tables)))
    (SymOk [Elf.mkSym "f" 18 1 0 16]).
(** The go command answers [go1.24.4]; [wr] are the paths that can be written. *)
Definition demo_host (wr : string -> bool) : host :=
  mkHost (fun _ f => (Ok ("go1.24.4" +:+ String newline ""), f)) wr (fun _ => true) (fun _ => true) (fun _ => true) Some []
    (fun p => "open " +:+ p) (fun _ => true) (fun p => Ok ("/tmp/" +:+ p)) None 1.

Definition demo_args : list string :=
  ["-in"; "f.gocobj"; "-o=f.goobj"; "-goarch"; "amd64"; "-header"; "go object linux amd64 go1.24.4"; "-symabis"; "f.symabis"].

Definition demo_flags : gmap string string :=
  match parse_flags flag_kinds demo_args ∅ with FlagsOk fl _ => fl | FlagsExit _ => ∅ end.

Definition demo_main (wr : string -> bool) (w : world) : Z * list msg * world :=
  Main (demo_host wr) (fun _ => Ok demo_input) (fun _ => Ok demo_facts) {[ "go1.24" := [] ]} (fun _ => Ok ∅) (fun _ => replicate 32 7) (fun _ => replicate 20 7)
    demo_args w.

Definition demo_world : world := mkWorld {[ "f.gocobj" := [127] ]} [].

Lemma demo_apart wr p p' : p = String "f" p' -> apart (demo_host wr) (fun _ => replicate 32 7) p.
Proof. intros ->. split; [done | by intros t [= <-] | by intros b goarch]. Qed.

