(* ===== verification/Consts.v ===== *)
(** * Constants of Go source files

    Models src/cmd/goc-gometa/consts.go: the values of the constant declarations of a Go
    file.  go/parser gives the syntax tree, of which [expr] and [decl] have the nodes the
    code looks at; a literal is a text that Go's scanner accepts.  Package go/constant
    computes with integers of any size; where it panics (a division by zero, an operator
    that integers do not have) the run ends. *)

From Stdlib Require Import ZArith Lia Ascii.
From stdpp Require Import base list strings gmap.
From S2P Require Import Prelude Text.

(** ** Syntax (package go/ast) *)

(** Operators and kinds of literals are spelled as package go/token prints them. *)
Inductive expr :=
| BasicLit (kind value : string)
| Ident (name : string)
| SelectorExpr (x : expr) (sel : string)
| ParenExpr (x : expr)
| StarExpr (x : expr)
| CallExpr (fn : expr) (args : list expr)
| UnaryExpr (op : string) (x : expr)
| BinaryExpr (op : string) (x y : expr)
| CompositeLit (elts : list expr)
| KeyValueExpr (key value : expr)
| OtherExpr.

Record ValueSpec := mkSpec { vs_Names : list string; vs_Type : option expr; vs_Values : list expr }.

(** A declaration of constants or variables, or of a function: its name, the types of its
    receivers and where its text starts and ends. *)
Inductive decl :=
| GenDecl (tok : string) (specs : list ValueSpec)
| FuncDecl (name : string) (recv : list expr) (pos end_ : nat)
| OtherDecl.

Record srcFile := mkSrc { sf_rel : string; sf_decls : list decl; sf_text : string }.

(** ** Literals *)

Definition code (c : ascii) : Z := byte_of_ascii c.

(** The value of a digit in bases up to 16. *)
Definition digit_of (c : ascii) : Z :=
  if re_digit c then code c - 48
  else if code_in 97 102 c then code c - 87 else if code_in 65 70 c then code c - 55 else 16.

(** Digits of a base, with underscores between them. *)
Fixpoint digits_of (base acc : Z) (s : string) : option Z :=
  match s with
  | EmptyString => Some acc
  | String c s =>
      if Ascii.eqb c "_" then digits_of base acc s
      else if digit_of c <? base then digits_of base (acc * base + digit_of c) s else None
  end.

(** An integer literal, as [strconv.ParseInt(s, 0, 64)] and [big.Int.SetString(s, 0)] read it. *)
Definition int_literal (s : string) : option Z :=
  match s with
  | EmptyString => None
  | String z (String b r) =>
      if Ascii.eqb z "0" then
        if Ascii.eqb b "x" || Ascii.eqb b "X" then digits_of 16 0 r
        else if Ascii.eqb b "b" || Ascii.eqb b "B" then digits_of 2 0 r
        else if Ascii.eqb b "o" || Ascii.eqb b "O" then digits_of 8 0 r
        else digits_of 8 0 (String b r)
      else digits_of 10 0 s
  | _ => digits_of 10 0 s
  end.

(** [n] digits of a base. *)
Fixpoint fixed_digits (base : Z) (n : nat) (acc : Z) (s : string) : option (Z * string) :=
  match n, s with
  | O, _ => Some (acc, s)
  | S n, String c s => if digit_of c <? base then fixed_digits base n (acc * base + digit_of c) s else None
  | S _, EmptyString => None
  end.

Definition valid_rune (v : Z) : bool := ((0 <=? v) && (v <? 0xD800)) || ((0xDFFF <? v) && (v <=? 0x10FFFF)).

(** The character at the start of a text in UTF-8, whose first byte is [c]. *)
Definition decode_rune (c : Z) (s : string) : option (Z * string) :=
  let more n lead := match n, s with
    | 1%nat, String a s => Some (Z.lor (Z.shiftl lead 6) (Z.land (code a) 63), s)
    | 2%nat, String a (String b s) => Some (Z.lor (Z.shiftl (Z.lor (Z.shiftl lead 6) (Z.land (code a) 63)) 6) (Z.land (code b) 63), s)
    | 3%nat, String a (String b (String d s)) =>
        Some (Z.lor (Z.shiftl (Z.lor (Z.shiftl (Z.lor (Z.shiftl lead 6) (Z.land (code a) 63)) 6) (Z.land (code b) 63)) 6) (Z.land (code d) 63), s)
    | _, _ => None
    end in
  if c <? 0xE0 then more 1%nat (Z.land c 31) else if c <? 0xF0 then more 2%nat (Z.land c 15) else more 3%nat (Z.land c 7).

(** [utf8.AppendRune] *)
Definition encode_rune (v : Z) : list Z :=
  let cont k := Z.lor 128 (Z.land (Z.shiftr v k) 63) in
  if v <? 0x80 then [v]
  else if v <? 0x800 then [Z.lor 0xC0 (Z.shiftr v 6); cont 0]
  else if v <? 0x10000 then [Z.lor 0xE0 (Z.shiftr v 12); cont 6; cont 0]
  else [Z.lor 0xF0 (Z.shiftr v 18); cont 12; cont 6; cont 0].

(** The escapes of one letter. *)
Definition simple_escape (c : ascii) : option Z :=
  if Ascii.eqb c "a" then Some 7 else if Ascii.eqb c "b" then Some 8 else if Ascii.eqb c "f" then Some 12
  else if Ascii.eqb c "n" then Some 10 else if Ascii.eqb c "r" then Some 13 else if Ascii.eqb c "t" then Some 9
  else if Ascii.eqb c "v" then Some 11 else if Ascii.eqb c "\" then Some 92 else None.

(** What follows a backslash: the value, whether it is a character and not a byte. *)
Definition unquote_escape (quote : ascii) (s : string) : option (Z * bool * string) :=
  let rune n s := match fixed_digits 16 n 0 s with Some (v, s) => if valid_rune v then Some (v, true, s) else None | None => None end in
  match s with
  | EmptyString => None
  | String c s' =>
      match simple_escape c with
      | Some v => Some (v, false, s')
      | None =>
          if Ascii.eqb c "x" then match fixed_digits 16 2 0 s' with Some (v, s') => Some (v, false, s') | None => None end
          else if Ascii.eqb c "u" then rune 4%nat s'
          else if Ascii.eqb c "U" then rune 8%nat s'
          else if code_in 48 55 c then match fixed_digits 8 3 0 s with Some (v, s') => if v <=? 255 then Some (v, false, s') else None | None => None end
          else if Ascii.eqb c quote then Some (code c, false, s') else None
      end
  end.

(** [strconv.UnquoteChar] *)
Definition unquote_char (quote : ascii) (s : string) : option (Z * bool * string) :=
  match s with
  | EmptyString => None
  | String c s =>
      if Ascii.eqb c quote then None
      else if 128 <=? code c then match decode_rune (code c) s with Some (v, s) => Some (v, true, s) | None => None end
      else if Ascii.eqb c "\" then unquote_escape quote s
      else Some (code c, false, s)
  end.

Fixpoint unquote_go (fuel : nat) (s : string) : option (list Z) :=
  match fuel, s with
  | _, EmptyString => Some []
  | O, _ => None
  | S fuel, _ =>
      match unquote_char (ascii_of_nat 34) s with
      | Some (v, multi, s') =>
          match unquote_go fuel s' with Some l => Some ((if multi then encode_rune v else [v]) ++ l) | None => None end
      | None => None
      end
  end.

(** A literal without its quotes. *)
Definition unquoted (s : string) : string := String.substring 1 (String.length s - 2) s.

(** [strconv.Unquote] of a string literal; the scanner has found both quotes. *)
Definition Unquote (s : string) : option string :=
  match s with
  | String c _ =>
      if Ascii.eqb c (ascii_of_nat 34) then option_map string_of_bytes (unquote_go (String.length s) (unquoted s))
      else if Ascii.eqb c (ascii_of_nat 96)
      then Some (string_of_bytes (filter (fun b => b <> 13) (bytes_of_string (unquoted s))))
      else None
  | EmptyString => None
  end.

(** [constant.MakeFromLiteral] *)
Definition literal (kind value : string) : option Z :=
  if String.eqb kind "INT" then int_literal value else option_map (fun x => x.1.1) (unquote_char "'" (unquoted value)).

(** ** Expressions *)

(** An error, or a panic of package go/constant. *)
Inductive everr := EvErr (msg : string) | EvPanic.

Definition typeBits (t : option expr) : Z :=
  match t with
  | Some (Ident n) =>
      if existsb (String.eqb n) ["uint8"; "int8"] then 8
      else if existsb (String.eqb n) ["uint16"; "int16"] then 16
      else if existsb (String.eqb n) ["uint32"; "int32"] then 32
      else if existsb (String.eqb n) ["uint64"; "int64"] then 64 else 0
  | _ => 0
  end.

Definition fits64 (z : Z) : bool := (- 2 ^ 63 <=? z) && (z <? 2 ^ 63).

(** [constant.UnaryOp(op, v, 0)] *)
Definition UnaryOp (op : string) (v : Z) : res everr Z :=
  if String.eqb op "+" then Ok v else if String.eqb op "-" then Ok (- v)
  else if String.eqb op "^" then Ok (Z.lnot v) else Fail EvPanic.

(** [constant.BinaryOp] of two integers; the division is that of [QUO_ASSIGN], which
    computes two words of 64 bits as an [int64]. *)
Definition BinaryOp (op : string) (a b : Z) : res everr Z :=
  if String.eqb op "+" then Ok (a + b) else if String.eqb op "-" then Ok (a - b)
  else if String.eqb op "*" then Ok (a * b)
  else if String.eqb op "/" then
    if b =? 0 then Fail EvPanic else Ok (if fits64 a && fits64 b then s64 (Z.quot a b) else Z.quot a b)
  else if String.eqb op "%" then if b =? 0 then Fail EvPanic else Ok (Z.rem a b)
  else if String.eqb op "&" then Ok (Z.land a b) else if String.eqb op "|" then Ok (Z.lor a b)
  else if String.eqb op "^" then Ok (Z.lxor a b) else if String.eqb op "&^" then Ok (Z.ldiff a b)
  else Fail EvPanic.

(** [constant.Uint64Val] *)
Definition Uint64Val (v : Z) : Z := if fits64 v then u64 v else u64 (Z.abs v).

(** [constant.Shift]; the memory for a left shift of up to [2^63] bits is there. *)
Definition Shift (op : string) (a s : Z) : res everr Z :=
  if String.eqb op "<<" then if (a =? 0) || (s <? 2 ^ 63) then Ok (Z.shiftl a s) else Fail EvPanic
  else Ok (Z.shiftr a s).

Fixpoint eval (known : gmap string Z) (iota : Z) (e : expr) (bits : Z) : res everr Z :=
  match e with
  | BasicLit kind value =>
      if negb (String.eqb kind "INT" || String.eqb kind "CHAR") then Fail (EvErr ("literal " +:+ value))
      else match literal kind value with Some v => Ok v | None => Fail (EvErr "not an integer") end
  | Ident n =>
      if String.eqb n "iota" then Ok iota
      else match known !! n with Some v => Ok v | None => Fail (EvErr ("unknown name " +:+ n)) end
  | SelectorExpr x sel =>
      match x with
      | Ident p => match known !! (p +:+ "." +:+ sel) with Some v => Ok v | None => Fail (EvErr "unknown selector") end
      | _ => Fail (EvErr "unknown selector")
      end
  | ParenExpr x => eval known iota x bits
  | CallExpr f args =>
      match args with
      | [a] => eval known iota a (if typeBits (Some f) =? 0 then bits else typeBits (Some f))
      | _ => Fail (EvErr "call")
      end
  | UnaryExpr op x =>
      v ← eval known iota x bits;
      if String.eqb op "^" && (0 <? bits) then Ok (Z.lxor v (2 ^ bits - 1)) else UnaryOp op v
  | BinaryExpr op x y =>
      a ← eval known iota x bits;
      b ← eval known iota y bits;
      if String.eqb op "<<" || String.eqb op ">>" then Shift op a (Uint64Val b) else BinaryOp op a b
  | _ => Fail (EvErr "unsupported expression")
  end.

Definition evalConst (known : gmap string Z) (iota : Z) (e : expr) (bits : Z) : res everr Z :=
  v ← eval known iota e bits;
  if fits64 v then Ok v else if (0 <=? v) && (v <? 2 ^ 64) then Ok (s64 v) else Fail (EvErr "overflow").

(** ** Declarations *)

Record constBlock := mkBlock { cb_names : list string; cb_values : gmap string Z; cb_strs : gmap string string }.

Definition new_block : constBlock := mkBlock [] ∅ ∅.

(** One name and its expression; [None]: a panic. *)
Definition const_one (iota bits : Z) (st : gmap string Z * constBlock) (x : string * expr) : option (gmap string Z * constBlock) :=
  let '(known, b) := st in
  let '(n, e) := x in
  match evalConst known iota e bits with
  | Fail EvPanic => None
  | Fail (EvErr _) =>
      match e with
      | BasicLit kind value =>
          if String.eqb kind "STRING"
          then Some (known, mkBlock (cb_names b ++ [n]) (cb_values b) (<[n := default "" (Unquote value)]> (cb_strs b)))
          else Some st
      | _ => Some st
      end
  | Ok v =>
      if String.eqb n "_" then Some st
      else Some (<[n := v]> known, mkBlock (cb_names b ++ [n]) (<[n := v]> (cb_values b)) (cb_strs b))
  end.

(** A loop that a panic ends. *)
Fixpoint ofold {S A} (f : S -> A -> option S) (s : S) (l : list A) : option S :=
  match l with [] => Some s | x :: l => s ← f s x; ofold f s l end.

(** The names of a specification that have an expression. *)
Fixpoint const_specs (iota : Z) (last : list expr) (lastBits : Z) (specs : list ValueSpec) (st : gmap string Z * constBlock) :
    option (gmap string Z * constBlock) :=
  match specs with
  | [] => Some st
  | vs :: specs =>
      let '(exprs, bits) := match vs_Values vs with [] => (last, lastBits) | es => (es, typeBits (vs_Type vs)) end in
      st ← ofold (const_one iota bits) st (zip (vs_Names vs) exprs);
      const_specs (iota + 1) exprs bits specs st
  end.

Fixpoint const_decls (known : gmap string Z) (ds : list decl) : option (list constBlock) :=
  match ds with
  | [] => Some []
  | GenDecl tok specs :: ds =>
      if String.eqb tok "const" then
        '(known, b) ← const_specs 0 [] 0 specs (known, new_block);
        bs ← const_decls known ds;
        Some (b :: bs)
      else const_decls known ds
  | _ :: ds => const_decls known ds
  end.

Definition consts (sf : srcFile) (env : gmap string Z) : option (list constBlock) := const_decls env (sf_decls sf).

(** ** Selections *)

Definition pick_name (prefix : string) (b : constBlock) (out : gmap string Z) (n : string) : gmap string Z :=
  match cb_values b !! n with Some v => if String.prefix prefix n then <[n := v]> out else out | None => out end.

Definition pick (bs : list constBlock) (prefix : string) : gmap string Z :=
  foldl (fun out b => foldl (pick_name prefix b) out (cb_names b)) ∅ bs.

(** [strings.TrimPrefix] *)
Definition trim_prefix (s p : string) : string := default s (after_prefix p s).

(** The names that [pick] returns all start with the prefix, so no two of them become one. *)
Definition pickTrim (bs : list constBlock) (prefix : string) : gmap string Z :=
  list_to_map ((fun x => (trim_prefix x.1 prefix, x.2)) <$> map_to_list (pick bs prefix)).

Definition blockWith (bs : list constBlock) (name : string) : option constBlock :=
  snd <$> list_find (fun b => is_Some (cb_values b !! name)) bs.

(** ** Tables *)

(** The composite literal of one name of a specification. *)
Definition literal_of (v : expr) : option (list expr) :=
  match (match v with UnaryExpr op x => if String.eqb op "&" then x else v | _ => v end) with
  | CompositeLit elts => Some elts
  | _ => None
  end.

Definition spec_literal (name : string) (vs : ValueSpec) : option (list expr) :=
  head (omap (fun x => if String.eqb x.1 name then literal_of x.2 else None) (zip (vs_Names vs) (vs_Values vs))).

Definition compositeVar (sf : srcFile) (name : string) : option (list expr) :=
  head (concat ((fun d => match d with
    | GenDecl tok specs => if String.eqb tok "var" then omap (spec_literal name) specs else []
    | _ => []
    end) <$> sf_decls sf)).

Definition litString (e : expr) : option string :=
  match e with BasicLit kind value => if String.eqb kind "STRING" then Unquote value else None | _ => None end.

(** The value and whether it is one; a number that is too large is the largest [int64]. *)
Definition litInt (e : expr) : Z * bool :=
  match e with
  | BasicLit kind value =>
      if String.eqb kind "INT" then
        match int_literal value with
        | Some n => if n <? 2 ^ 63 then (n, true) else (2 ^ 63 - 1, false)
        | None => (0, false)
        end
      else (0, false)
  | _ => (0, false)
  end.

(** ** The constants of a file by Go's rules

    [block_entries] writes out a block: a specification without expressions repeats those
    of the nearest one before it that has some, with its own position as [iota]. *)

Definition const_entry : Type := string * expr * Z * Z.
Definition en_name (x : const_entry) : string := x.1.1.1.

Definition last_exprs (specs : list ValueSpec) : list expr * Z :=
  match last (filter (fun vs => vs_Values vs <> []) specs) with
  | Some vs => (vs_Values vs, typeBits (vs_Type vs))
  | None => ([], 0)
  end.

Definition effective_exprs (specs : list ValueSpec) (j : nat) : list expr * Z := last_exprs (take (S j) specs).

Definition spec_entries (specs : list ValueSpec) (j : nat) (vs : ValueSpec) : list const_entry :=
  let '(es, bits) := effective_exprs specs j in (fun x => (x.1, x.2, Z.of_nat j, bits)) <$> zip (vs_Names vs) es.

Definition block_entries (specs : list ValueSpec) : list const_entry := concat (imap (spec_entries specs) specs).

Definition const_blocks (ds : list decl) : list (list ValueSpec) :=
  omap (fun d => match d with GenDecl tok specs => if String.eqb tok "const" then Some specs else None | _ => None end) ds.

Definition entries_of (blocks : list (list ValueSpec)) : list const_entry := concat (block_entries <$> blocks).

(** The function of a call names a type: not one of the functions whose calls are
    constants. *)
Definition conversion (f : expr) : bool :=
  match f with
  | Ident n => negb (existsb (String.eqb n) ["len"; "cap"; "imag"; "real"; "complex"; "min"; "max"])
  | SelectorExpr (Ident p) _ => negb (String.eqb p "unsafe")
  | _ => false
  end.

Section Values.
Variable env : gmap string Z.
Variable es : list const_entry.

(** No constant before the [k]-th has the name. *)
Definition undeclared (k : nat) (m : string) : Prop := forall k' x, (k' < k)%nat -> es !! k' = Some x -> en_name x <> m.

(** The value of the [k]-th constant, and of an expression in it.  Arithmetic is exact; a
    name is that of an earlier constant or of [env]; a conversion keeps the value.  There is no rule for complements,
    whose value depends on the type, nor for a division by -1. *)
Inductive go_value : nat -> Z -> Prop :=
| go_const k n e iota bits v : es !! k = Some (n, e, iota, bits) -> go_expr k iota e v -> - 2 ^ 63 <= v < 2 ^ 63 -> go_value k v
with go_expr : nat -> Z -> expr -> Z -> Prop :=
| go_lit k iota kind value v : kind = "INT" \/ kind = "CHAR" -> literal kind value = Some v -> go_expr k iota (BasicLit kind value) v
| go_iota k iota : go_expr k iota (Ident "iota") iota
| go_name k iota k' x v : (k' < k)%nat -> es !! k' = Some x -> en_name x <> "iota" -> en_name x <> "_" -> go_value k' v ->
    go_expr k iota (Ident (en_name x)) v
| go_env_name k iota m v : m <> "iota" -> undeclared k m -> env !! m = Some v -> go_expr k iota (Ident m) v
| go_selector k iota p sel v : undeclared k (p +:+ "." +:+ sel) -> env !! (p +:+ "." +:+ sel) = Some v -> go_expr k iota (SelectorExpr (Ident p) sel) v
| go_paren k iota e v : go_expr k iota e v -> go_expr k iota (ParenExpr e) v
| go_convert k iota f e v : conversion f = true -> go_expr k iota e v -> go_expr k iota (CallExpr f [e]) v
| go_plus k iota e v : go_expr k iota e v -> go_expr k iota (UnaryExpr "+" e) v
| go_minus k iota e v : go_expr k iota e v -> go_expr k iota (UnaryExpr "-" e) (- v)
| go_add k iota e f a b : go_expr k iota e a -> go_expr k iota f b -> go_expr k iota (BinaryExpr "+" e f) (a + b)
| go_sub k iota e f a b : go_expr k iota e a -> go_expr k iota f b -> go_expr k iota (BinaryExpr "-" e f) (a - b)
| go_mul k iota e f a b : go_expr k iota e a -> go_expr k iota f b -> go_expr k iota (BinaryExpr "*" e f) (a * b)
| go_quo k iota e f a b : go_expr k iota e a -> go_expr k iota f b -> b <> 0 -> b <> -1 -> go_expr k iota (BinaryExpr "/" e f) (Z.quot a b)
| go_rem k iota e f a b : go_expr k iota e a -> go_expr k iota f b -> b <> 0 -> go_expr k iota (BinaryExpr "%" e f) (Z.rem a b)
| go_and k iota e f a b : go_expr k iota e a -> go_expr k iota f b -> go_expr k iota (BinaryExpr "&" e f) (Z.land a b)
| go_or k iota e f a b : go_expr k iota e a -> go_expr k iota f b -> go_expr k iota (BinaryExpr "|" e f) (Z.lor a b)
| go_xor k iota e f a b : go_expr k iota e a -> go_expr k iota f b -> go_expr k iota (BinaryExpr "^" e f) (Z.lxor a b)
| go_clear k iota e f a b : go_expr k iota e a -> go_expr k iota f b -> go_expr k iota (BinaryExpr "&^" e f) (Z.ldiff a b)
| go_shl k iota e f a b : go_expr k iota e a -> go_expr k iota f b -> 0 <= b < 2 ^ 63 -> go_expr k iota (BinaryExpr "<<" e f) (a * 2 ^ b)
| go_shr k iota e f a b : go_expr k iota e a -> go_expr k iota f b -> 0 <= b < 2 ^ 63 -> go_expr k iota (BinaryExpr ">>" e f) (a / 2 ^ b).

(** The constants known before the [k]-th. *)
Record known_ok (k : nat) (known : gmap string Z) : Prop := {
  kn_const : forall k' x v, (k' < k)%nat -> es !! k' = Some x -> en_name x <> "_" -> go_value k' v -> known !! en_name x = Some v;
  kn_env : forall m v, undeclared k m -> env !! m = Some v -> known !! m = Some v }.

Lemma fits64_iff z : fits64 z = true <-> - 2 ^ 63 <= z < 2 ^ 63.
Proof. unfold fits64. rewrite andb_true_iff, Z.leb_le, Z.ltb_lt. done. Qed.

Lemma quot_fits a b : - 2 ^ 63 <= a < 2 ^ 63 -> b <> 0 -> b <> -1 -> - 2 ^ 63 <= Z.quot a b < 2 ^ 63.
Proof.
  intros Ha H0 H1. assert (Z.abs (Z.quot a b) <= Z.abs a) as Hle.
  { rewrite <-Z.quot_abs by done. apply Z.quot_le_upper_bound; nia. }
  destruct (Z.eq_dec a (- 2 ^ 63)) as [->|]; [|lia]. split; [lia|]. destruct (Z.eq_dec b 1) as [->|]; [rewrite Z.quot_1_r; lia|].
  assert (Z.abs (Z.quot (- 2 ^ 63) b) < Z.abs (- 2 ^ 63)); [|lia]. rewrite <-Z.quot_abs by done. apply Z.quot_lt; lia.
Qed.

Lemma shift_count b : 0 <= b < 2 ^ 63 -> Uint64Val b = b.
Proof. intros H. unfold Uint64Val. rewrite (proj2 (fits64_iff b)) by lia. apply u64_small. unfold is_u64. lia. Qed.

Lemma op_quo a b : b <> 0 -> b <> -1 -> BinaryOp "/" a b = Ok (Z.quot a b).
Proof.
  intros H0 H1. change (BinaryOp "/" a b) with (if b =? 0 then Fail EvPanic else Ok (if fits64 a && fits64 b then s64 (Z.quot a b) else Z.quot a b) : res everr Z).
  rewrite (proj2 (Z.eqb_neq b 0)) by done. destruct (fits64 a && fits64 b) eqn:F; [|done]. apply andb_true_iff in F as [F%fits64_iff _].
  rewrite s64_small; [done|]. by apply quot_fits.
Qed.

Lemma op_rem a b : b <> 0 -> BinaryOp "%" a b = Ok (Z.rem a b).
Proof.
  intros H. change (BinaryOp "%" a b) with (if b =? 0 then Fail EvPanic else Ok (Z.rem a b) : res everr Z). by rewrite (proj2 (Z.eqb_neq b 0)).
Qed.

Lemma op_shl a b : 0 <= b < 2 ^ 63 -> Shift "<<" a (Uint64Val b) = Ok (a * 2 ^ b).
Proof.
  intros H. rewrite shift_count by done. change (Shift "<<" a b) with (if (a =? 0) || (b <? 2 ^ 63) then Ok (Z.shiftl a b) else Fail EvPanic : res everr Z).
  rewrite (proj2 (Z.ltb_lt _ _)), orb_true_r by lia. by rewrite Z.shiftl_mul_pow2 by lia.
Qed.

Lemma op_shr a b : 0 <= b < 2 ^ 63 -> Shift ">>" a (Uint64Val b) = Ok (a / 2 ^ b).
Proof. intros H. rewrite shift_count by done. change (Shift ">>" a b) with (Ok (Z.shiftr a b) : res everr Z). by rewrite Z.shiftr_div_pow2 by lia. Qed.

Lemma eval_go k iota e v known : known_ok k known -> go_expr k iota e v -> forall bits, eval known iota e bits = Ok v.
Proof.
  intros HK H bits. revert HK bits. induction H; intros HK bits'; cbn [eval];
    repeat match goal with IH : known_ok _ known -> _ |- _ => specialize (IH HK); rewrite IH; clear IH end; try reflexivity; destruct HK as [Hk He].
  - rewrite H0. by destruct H as [-> | ->].
  - rewrite (proj2 (String.eqb_neq _ _)) by done. by erewrite Hk.
  - rewrite (proj2 (String.eqb_neq _ _)) by done. by erewrite He.
  - by erewrite He.
  - by apply op_quo.
  - by apply op_rem.
  - by apply op_shl.
  - by apply op_shr.
Qed.

(** ** The loops write out the blocks *)

Lemma ofold_app {S A} (f : S -> A -> option S) l : forall s k, ofold f s (l ++ k) = s ← ofold f s l; ofold f s k.
Proof. induction l as [|x l IH]; intros s k; [done|]. cbn. destruct (f s x); [apply IH | done]. Qed.

Lemma ofold_fmap {S A B} (f : S -> B -> option S) (g : A -> B) l : forall s, ofold f s (g <$> l) = ofold (fun s x => f s (g x)) s l.
Proof. induction l as [|x l IH]; intros s; [done|]. cbn. destruct (f s (g x)); [apply IH | done]. Qed.

Definition const_step (st : gmap string Z * constBlock) (x : const_entry) : option (gmap string Z * constBlock) :=
  let '(n, e, iota, bits) := x in const_one iota bits st (n, e).

Lemma last_exprs_snoc pre vs : last_exprs (pre ++ [vs]) = match vs_Values vs with [] => last_exprs pre | es => (es, typeBits (vs_Type vs)) end.
Proof.
  unfold last_exprs. rewrite filter_app. cbn. destruct (vs_Values vs) as [|e l] eqn:E; [by rewrite app_nil_r|].
  rewrite decide_True by done. by rewrite last_snoc, E.
Qed.

Lemma specs_entries specs : forall pre st, const_specs (Z.of_nat (length pre)) (last_exprs pre).1 (last_exprs pre).2 specs st =
  ofold const_step st (concat (imap (fun j => spec_entries (pre ++ specs) (length pre + j)) specs)).
Proof.
  induction specs as [|vs specs IH]; intros pre st; [done|]. rewrite imap_cons. cbn [concat const_specs]. rewrite ofold_app, Nat.add_0_r.
  assert (match vs_Values vs with [] => ((last_exprs pre).1, (last_exprs pre).2) | es => (es, typeBits (vs_Type vs)) end = last_exprs (pre ++ [vs])) as ->.
  { rewrite last_exprs_snoc. destruct (vs_Values vs); [by destruct (last_exprs pre) | done]. }
  assert (take (S (length pre)) (pre ++ vs :: specs) = pre ++ [vs]) as Ht.
  { change (vs :: specs) with ([vs] ++ specs). rewrite (assoc_L app), take_app_length'; [done|]. rewrite length_app. cbn. lia. }
  assert (spec_entries (pre ++ vs :: specs) (length pre) vs =
    (fun x => (x.1, x.2, Z.of_nat (length pre), (last_exprs (pre ++ [vs])).2)) <$> zip (vs_Names vs) (last_exprs (pre ++ [vs])).1) as ->.
  { unfold spec_entries, effective_exprs. rewrite Ht. by destruct (last_exprs (pre ++ [vs])). }
  destruct (last_exprs (pre ++ [vs])) as [exprs bits] eqn:El. cbn [fst snd]. rewrite ofold_fmap.
  assert (forall l st, ofold (fun st x => const_step st (x.1, x.2, Z.of_nat (length pre), bits)) st l = ofold (const_one (Z.of_nat (length pre)) bits) st l) as ->.
  { induction l as [|[n e] l IHl]; intros s; [done|]. cbn [ofold const_step fst snd]. destruct (const_one _ _ _ _); [apply IHl | done]. }
  destruct (ofold _ st _) as [st1|]; [|done]. cbn [mbind option_bind].
  specialize (IH (pre ++ [vs]) st1). rewrite El, length_app, Nat2Z.inj_add, <-(assoc_L app) in IH. cbn [fst snd app length] in IH.
  change (Z.of_nat 1) with 1 in IH. rewrite IH.
  f_equal. f_equal. apply imap_ext. intros j x _. cbn. f_equal. lia.
Qed.

Lemma block_run specs st : const_specs 0 [] 0 specs st = ofold const_step st (block_entries specs).
Proof. exact (specs_entries specs [] st). Qed.

(** A name other than the blank one is declared once. *)
Definition distinct_names : Prop := forall i j x y, es !! i = Some x -> es !! j = Some y -> en_name x = en_name y -> en_name x <> "_" -> i = j.

Hypothesis distinct : distinct_names.

Lemma const_one_frame iota bits known b n e known1 b1 : const_one iota bits (known, b) (n, e) = Some (known1, b1) ->
  (forall m, m <> n -> known1 !! m = known !! m /\ cb_values b1 !! m = cb_values b !! m) /\ (forall m, m ∈ cb_names b -> m ∈ cb_names b1).
Proof.
  unfold const_one. destruct (evalConst _ _ _ _) as [v|[msg|]]; [| |done].
  - destruct (String.eqb n "_"); intros [= <- <-]; [done|]. split; [|intros m; cbn; rewrite elem_of_app; auto].
    intros m Hm. cbn. by rewrite !lookup_insert_ne.
  - destruct e; try (by intros [= <- <-]). destruct (String.eqb _ _); intros [= <- <-]; [|done]. split; [done|]. intros m. cbn. rewrite elem_of_app. auto.
Qed.

Lemma const_one_value iota bits known b n e v : eval known iota e bits = Ok v -> - 2 ^ 63 <= v < 2 ^ 63 -> n <> "_" ->
  const_one iota bits (known, b) (n, e) = Some (<[n := v]> known, mkBlock (cb_names b ++ [n]) (<[n := v]> (cb_values b)) (cb_strs b)).
Proof.
  intros He Hv Hn. unfold const_one, evalConst. rewrite He. cbn [mbind res_bind]. rewrite (proj2 (fits64_iff v)) by done.
  by rewrite (proj2 (String.eqb_neq n "_")).
Qed.

(** What a run leaves of the constants before it, and what it makes of its own. *)
Record run_ok (k : nat) (xs : list const_entry) (b : constBlock) (known1 : gmap string Z) (b1 : constBlock) : Prop := {
  ru_known : known_ok (k + length xs) known1;
  ru_keep : forall n, n ∉ en_name <$> xs -> cb_values b1 !! n = cb_values b !! n;
  ru_names : forall n, n ∈ cb_names b -> n ∈ cb_names b1;
  ru_new : forall i x v, xs !! i = Some x -> en_name x <> "_" -> go_value (k + i) v -> cb_values b1 !! en_name x = Some v /\ en_name x ∈ cb_names b1 }.

Lemma step_ok k x known b known1 b1 : es !! k = Some x -> known_ok k known -> const_step (known, b) x = Some (known1, b1) -> run_ok k [x] b known1 b1.
Proof using distinct.
  destruct x as [[[n e] iota] bits]. intros Hx Hk E. cbn [const_step] in E. pose proof (const_one_frame _ _ _ _ _ _ _ _ E) as [Hf Hn].
  assert (forall v, go_value k v -> n <> "_" -> known1 !! n = Some v /\ cb_values b1 !! n = Some v /\ n ∈ cb_names b1) as Hv.
  { intros v Hg Hb. inversion Hg as [? ? ? ? ? ? Hx' He Hr]; subst. pose proof (eq_trans (eq_sym Hx) Hx') as Hx2. injection Hx2 as <- <- <- <-.
    rewrite (const_one_value iota bits known b n e v) in E by (try done; by eapply eval_go). injection E as <- <-. cbn.
    rewrite !lookup_insert_eq, elem_of_app. split_and!; [done..|]. right. by left. }
  split; cbn [length fmap list_fmap].
  - replace (k + 1)%nat with (S k) by lia. split.
    + intros k' y v Hlt Hy Hb Hg. destruct (decide (k' = k)) as [->|Hne].
      * pose proof (eq_trans (eq_sym Hx) Hy) as Hx2. injection Hx2 as <-. by apply Hv.
      * rewrite (proj1 (Hf _ (fun E => Hne (distinct k' k y _ Hy Hx E Hb)))). apply (kn_const _ _ Hk k' y v); [lia | done..].
    + intros m v Hu He. rewrite (proj1 (Hf m ltac:(intros ->; exact (Hu k _ ltac:(lia) Hx eq_refl)))). apply (kn_env _ _ Hk m v); [|done].
      intros k' y Hlt. apply Hu. lia.
  - intros m Hm. apply Hf. intros ->. apply Hm. left.
  - done.
  - intros i y v [-> <-]%list_lookup_singleton_Some Hb Hg. rewrite Nat.add_0_r in Hg. by apply Hv.
Qed.

Lemma entries_ok xs : forall k known b known1 b1, (forall i x, xs !! i = Some x -> es !! (k + i)%nat = Some x) -> known_ok k known ->
  ofold const_step (known, b) xs = Some (known1, b1) -> run_ok k xs b known1 b1.
Proof using distinct.
  induction xs as [|x xs IH]; intros k known b known1 b1 Hx Hk E; cbn [ofold] in E.
  - injection E as <- <-. split; [by rewrite Nat.add_0_r | done | done | intros i y v Hy; by rewrite lookup_nil in Hy].
  - destruct (const_step (known, b) x) as [[known2 b2]|] eqn:Es; [|done]. pose proof (Hx 0%nat x eq_refl) as H0. rewrite Nat.add_0_r in H0.
    destruct (step_ok k x known b known2 b2 H0 Hk Es) as [A1 A2 A3 A4]. cbn [length] in A1. replace (k + 1)%nat with (S k) in A1 by lia.
    destruct (IH (S k) known2 b2 known1 b1) as [B1 B2 B3 B4]; [|done|done|].
    { intros i y Hy. replace (S k + i)%nat with (k + S i)%nat by lia. by apply Hx. }
    split.
    + cbn [length]. by replace (k + S (length xs))%nat with (S k + length xs)%nat by lia.
    + intros n. rewrite fmap_cons, not_elem_of_cons. intros [Hn Hns]. rewrite B2 by done. apply A2. intros Hin. apply Hn. by apply list_elem_of_singleton in Hin.
    + auto.
    + intros [|i] y v Hy Hb Hg; cbn in Hy.
      * injection Hy as ->. rewrite Nat.add_0_r in Hg. destruct (A4 0%nat y v eq_refl Hb) as [V N]; [by rewrite Nat.add_0_r|].
        split; [|auto]. rewrite B2; [done|]. intros (z & Hz & (j & Hj)%list_elem_of_lookup)%list_elem_of_fmap.
        assert (k = (k + S j)%nat); [|lia]. by apply (distinct k (k + S j)%nat y z H0 (Hx (S j) z Hj)).
      * apply (B4 i y v); [done..|]. by replace (S k + i)%nat with (k + S i)%nat by lia.
Qed.

(** The block of each declaration. *)
Lemma decls_ok ds : forall k known bs, (forall i x, entries_of (const_blocks ds) !! i = Some x -> es !! (k + i)%nat = Some x) -> known_ok k known ->
  const_decls known ds = Some bs -> length bs = length (const_blocks ds) /\
  forall j specs i x v, const_blocks ds !! j = Some specs -> block_entries specs !! i = Some x -> en_name x <> "_" ->
    go_value (k + length (entries_of (take j (const_blocks ds))) + i) v ->
    exists b, bs !! j = Some b /\ cb_values b !! en_name x = Some v /\ en_name x ∈ cb_names b.
Proof using distinct.
  induction ds as [|d ds IH]; intros k known bs Hx Hk E; [by injection E as <-; split; [|intros j specs i x v Hj; discriminate Hj]|].
  destruct d as [tok specs| |]; [|by apply (IH k known)..]. cbn [const_decls] in E. unfold const_blocks in *. cbn [omap list_omap] in *. fold (const_blocks ds) in *.
  destruct (String.eqb tok "const"); [|by apply (IH k known)]. rewrite block_run in E.
  destruct (ofold const_step (known, new_block) (block_entries specs)) as [[known1 b1]|] eqn:Er; [|done]. cbn [mbind option_bind] in E.
  destruct (const_decls known1 ds) as [bs'|] eqn:Ed; [|done]. injection E as <-.
  change (entries_of (specs :: const_blocks ds)) with (block_entries specs ++ entries_of (const_blocks ds)) in Hx.
  destruct (entries_ok (block_entries specs) k known new_block known1 b1) as [A1 _ _ A4]; [|done|done|].
  { intros i x Hi. apply Hx. by apply lookup_app_l_Some. }
  destruct (IH (k + length (block_entries specs))%nat known1 bs') as [B1 B2]; [|done|done|].
  { intros i x Hi. rewrite <-Nat.add_assoc. apply Hx. rewrite lookup_app_r by lia. by replace (_ + i - _)%nat with i by lia. }
  split; [cbn; by rewrite B1|]. intros [|j] sp i x v Hj Hi Hb Hg; cbn in Hj.
  - injection Hj as ->. exists b1. split; [done|]. apply (A4 i x v Hi Hb). cbn in Hg. by rewrite Nat.add_0_r in Hg.
  - apply (B2 j sp i x v Hj Hi Hb). change (take (S j) (specs :: const_blocks ds)) with (specs :: take j (const_blocks ds)) in Hg.
    change (entries_of (specs :: ?l)) with (block_entries specs ++ entries_of l) in Hg.
    rewrite length_app in Hg. by rewrite <-(Nat.add_assoc k).
Qed.
End Values.

Lemma nodup_distinct es : NoDup (en_name <$> es) -> distinct_names es.
Proof. intros H i j x y Hx Hy E _. eapply (proj1 (NoDup_alt _) H i j); rewrite list_lookup_fmap; [by rewrite Hx | rewrite Hy; cbn; by rewrite E]. Qed.

(** A block only has values for the names it declares. *)
Lemma steps_named n xs : forall st st1, ofold const_step st xs = Some st1 -> is_Some (cb_values st1.2 !! n) ->
  is_Some (cb_values st.2 !! n) \/ n <> "_" /\ n ∈ en_name <$> xs.
Proof.
  induction xs as [|[[[m e] iota] bits] xs IH]; intros [known b] st1 E Hn; cbn [ofold] in E; [injection E as <-; by left|].
  destruct (const_step _ _) as [[known2 b2]|] eqn:Es; [|done]. cbn [const_step] in Es.
  destruct (IH (known2, b2) st1 E Hn) as [H|[Hb H]]; [|right; split; [done | by right]].
  destruct (decide (n = m)) as [->|Hne].
  - destruct (decide (m = "_")) as [->|Hb]; [|right; split; [done | by left]]. left. revert H. unfold const_one in Es.
    destruct (evalConst _ _ _ _) as [v|[msg|]]; [by injection Es as <- <-| |done].
    destruct e; try (by injection Es as <- <-). destruct (String.eqb _ _); by injection Es as <- <-.
  - left. cbn [snd] in *. by rewrite <-(proj2 (proj1 (const_one_frame _ _ _ _ _ _ _ _ Es) n Hne)).
Qed.

Lemma values_named ds n : forall known bs j b, const_decls known ds = Some bs -> bs !! j = Some b -> is_Some (cb_values b !! n) ->
  n <> "_" /\ exists specs, const_blocks ds !! j = Some specs /\ n ∈ en_name <$> block_entries specs.
Proof.
  induction ds as [|d ds IH]; intros known bs j b E Hj Hn; [by injection E as <-|].
  destruct d as [tok specs| |]; [|by eapply IH..]. cbn [const_decls] in E. unfold const_blocks in *. cbn [omap list_omap] in *. fold (const_blocks ds) in *.
  destruct (String.eqb tok "const"); [|by eapply IH]. rewrite block_run in E.
  destruct (ofold const_step (known, new_block) (block_entries specs)) as [[known1 b1]|] eqn:Er; [|done]. cbn [mbind option_bind] in E.
  destruct (const_decls known1 ds) as [bs'|] eqn:Ed; [|done]. injection E as <-. destruct j as [|j]; cbn in Hj.
  - injection Hj as ->. destruct (steps_named n _ _ _ Er Hn) as [[v Hv]|[Hb H]]; [done | split; [done | by exists specs]].
  - by apply (IH known1 bs' j b).
Qed.

(** [consts] computes Go's constants.  Take the constants of a file in order, with an
    expression list repeated where a specification has none; if the language gives one of
    them the value [v] — arithmetic is exact, [iota] is the position in the block, a name
    stands for an earlier constant or one of [env] — then the block that declares it lists
    the name with the value [v]. *)
Theorem consts_values sf env bs (blocks := const_blocks (sf_decls sf)) (es := entries_of blocks) :
  distinct_names es -> consts sf env = Some bs ->
  length bs = length blocks /\
  forall j specs i x v, blocks !! j = Some specs -> block_entries specs !! i = Some x -> en_name x <> "_" ->
    go_value env es (length (entries_of (take j blocks)) + i) v ->
    exists b, bs !! j = Some b /\ cb_values b !! en_name x = Some v /\ en_name x ∈ cb_names b.
Proof.
  intros Hd E. apply (decls_ok env es Hd (sf_decls sf) 0 env bs); [done | | exact E]. split; [lia | done].
Qed.

(** *** A small file *)

Definition demo_file : srcFile :=
  mkSrc "cmd/internal/objabi/reloctype.go"
    [GenDecl "const"
       [mkSpec ["R_ADDR"] (Some (Ident "RelocType")) [BinaryExpr "+" (BasicLit "INT" "1") (Ident "iota")];
        mkSpec ["R_CALL"] None []; mkSpec ["_"] None []; mkSpec ["R_PCREL"] None []];
     FuncDecl "String" [Ident "RelocType"] 90 120;
     GenDecl "const" [mkSpec ["Magic"; "Mask"] None [BasicLit "STRING" (String "034" ("\x00go" +:+ String "034" "")); BinaryExpr "<<" (Ident "R_PCREL") (BasicLit "INT" "0x2")]]]
    "".

Example demo_consts : option_map (fun bs => ((map_to_list ∘ cb_values <$> bs), (cb_names <$> bs), map_to_list ∘ cb_strs <$> bs)) (consts demo_file ∅) =
  Some ([[("R_CALL", 2); ("R_ADDR", 1); ("R_PCREL", 4)]; [("Mask", 16)]], [["R_ADDR"; "R_CALL"; "R_PCREL"]; ["Magic"; "Mask"]],
        [[]; [("Magic", String "000" "go")]]).
Proof. vm_compute. reflexivity. Qed.

Lemma demo_distinct : distinct_names (entries_of (const_blocks (sf_decls demo_file))).
Proof. apply nodup_distinct. apply (bool_decide_unpack _). vm_compute. exact I. Qed.

Lemma consts_values_witness : exists bs b, consts demo_file ∅ = Some bs /\ bs !! 1%nat = Some b /\ cb_values b !! "Mask" = Some 16 /\ "Mask" ∈ cb_names b.
Proof.
  destruct (consts demo_file ∅) as [bs|] eqn:E; [|vm_compute in E; discriminate]. exists bs.
  destruct (consts_values demo_file ∅ bs demo_distinct E) as [_ H].
  destruct (H 1%nat _ 1%nat _ 16 eq_refl eq_refl) as (b & Hb & Hv); [discriminate | | by exists b].
  eapply go_const; [reflexivity | | lia]. apply (go_shl _ _ 5 _ _ _ 4 2); [|apply go_lit; [by left | reflexivity] | lia].
  apply (go_name _ _ 5 _ 3 ("R_PCREL", BinaryExpr "+" (BasicLit "INT" "1") (Ident "iota"), 3, 0) 4); [lia | reflexivity | discriminate | discriminate |]. eapply go_const; [reflexivity | | lia].
  apply (go_add _ _ 3 _ _ _ 1 3); [apply go_lit; [by left | reflexivity] | apply go_iota].
Defined.

(** The complement of a typed constant is taken without its type: Go's value of
    [^uint8(1)] is 254. *)
Example complement_of_conversion : eval ∅ 0 (UnaryExpr "^" (CallExpr (Ident "uint8") [BasicLit "INT" "1"])) 0 = Ok (-2).
Proof. reflexivity. Qed.

(** The upper half of [uint64] is kept as negative numbers: with [const A uint64 = 1 << 63],
    Go's value of [A >> 1] is 2^62. *)
Example high_half_shifts :
  let a := BinaryExpr "<<" (BasicLit "INT" "1") (BasicLit "INT" "63") in
  option_map (fun bs => cb_values <$> bs)
    (consts (mkSrc "" [GenDecl "const" [mkSpec ["A"] (Some (Ident "uint64")) [a]; mkSpec ["B"] None [BinaryExpr ">>" (Ident "A") (BasicLit "INT" "1")]]] "") ∅) =
  Some [{["A" := - 2 ^ 63; "B" := - 2 ^ 62]}].
Proof. vm_compute. reflexivity. Qed.

(** [pick] looks at each name: a block with other names in it is not passed over. *)
Example pick_mixed_block :
  option_map (fun bs => pick bs "R_") (consts (mkSrc "" [GenDecl "const" [mkSpec ["R_ADDR"] None [Ident "iota"]; mkSpec ["Other"] None []]] "") ∅) = Some {["R_ADDR" := 0]}.
Proof. vm_compute. reflexivity. Qed.
