(* ===== verification/Resolve.v ===== *)
(** * Facts from the source of a Go release

    Models src/cmd/goc-gometa/main.go and reviewed.go: the command reads the files of a Go
    source tree and writes the record of Meta.v for that release.  go/parser is a
    parameter (its tree is that of Consts.v), and so is the printer that gives the text of
    a function for its fingerprint.  A computation collects error messages; it may also
    end the process with a status, 1 for [fatalf] and 2 for a panic; what it prints then
    is left out. *)

From Stdlib Require Import ZArith Lia Ascii.
From stdpp Require Import base list strings gmap sorting.
From S2P Require Import Prelude Text World Regex Layout Rewrite Meta ConvertMain Consts.

(** ** Errors and exits *)

Definition rs (A : Type) : Type := list string -> res Z (A * list string).

#[export] Instance rs_ret : MRet rs := fun A x es => Ok (x, es).
#[export] Instance rs_bind : MBind rs := fun A B k m es =>
  match m es with Ok (x, es) => k x es | Fail n => Fail n end.

Definition errorf (e : string) : rs () := fun es => Ok ((), es ++ [e]).
Definition exit {A} (n : Z) : rs A := fun _ => Fail n.
Definition of_option {A} (n : Z) (o : option A) : rs A := match o with Some x => mret x | None => exit n end.

(** A loop over a list that gives a value for each element. *)
Fixpoint rs_map {A B} (f : A -> rs B) (l : list A) : rs (list B) :=
  match l with [] => mret [] | x :: l => y ← f x; ys ← rs_map f l; mret (y :: ys) end.

(** ** The reviewed functions *)

(** Function and fingerprints: the packages dwarf and goobj, then obj and objabi. *)
Definition reviewed_goobj : list (string * list string) :=
  [("cmd/internal/dwarf/dwarf.go:PutDefaultFunc", ["9ff25b2a3745c4aa"; "8357a4dfd11ce537"; "e92c18299980ba8a"; "8f2538a74f69b790"]);
   ("cmd/internal/dwarf/dwarf.go:emitHiLoPc", ["absent"; "2b8707a04c7ad463"]);
   ("cmd/internal/dwarf/dwarf.go:putattr", ["7aebd17dac6af6f1"; "8b3b103fcbc2f44f"; "fd85ba53eedd6c48"]);
   ("cmd/internal/goobj/builtin.go:BuiltinIdx", ["58d4b0a2f56e0cc0"]);
   ("cmd/internal/goobj/funcinfo.go:(*FuncInfo).Write", ["6f4cc98e3b8db160"; "b440762e7e205eb6"]);
   ("cmd/internal/goobj/funcinfo.go:(*InlTreeNode).Write", ["68cac23fa1213a9c"]);
   ("cmd/internal/goobj/objfile.go:(*Header).Write", ["d1fd9249b3ca8436"])].

Definition reviewed_obj : list (string * list string) :=
  [("cmd/internal/obj/data.go:(*LSym).WriteInt", ["a166d4a526b8722d"]);
   ("cmd/internal/obj/data.go:(*LSym).prepwrite", ["f069367d9dd8cee5"; "cbab201976abe907"; "01b851182c5f422d"]);
   ("cmd/internal/obj/dwarf.go:(*Link).dwarfSym", ["ae6078385ae76e81"; "cc2d59bd03e46801"]);
   ("cmd/internal/obj/dwarf.go:(*Link).generateDebugLinesSymbol", ["89f75e125125132d"; "0140a9a79782b3d4"; "1027815d7e4a5156"]);
   ("cmd/internal/obj/dwarf.go:(*Link).populateDWARF", ["50b9f94701be28e1"; "00ffceb183ee3ebd"; "dd38fdc0e130b727"; "1655a9b69213177f"; "522c2231d62f52a6"; "0c426da117d63b05"]);
   ("cmd/internal/obj/dwarf.go:putpclcdelta", ["bc9134d68c1e9734"]);
   ("cmd/internal/obj/inl.go:(*InlTree).Add", ["584d3bc4994eddf1"; "596caed14cadf743"]);
   ("cmd/internal/obj/objfile.go:(*writer).Aux", ["8bf1f3b15259d6e2"; "b63079e50c40225c"; "c9fb792ceda90c6b"]);
   ("cmd/internal/obj/objfile.go:(*writer).Reloc", ["9a1e15c25b8d1a62"; "c53d94bfc6e01f53"]);
   ("cmd/internal/obj/objfile.go:(*writer).StringTable", ["38e0544ac0fcf86b"; "51b1020068324e75"; "94b544d6a7fac60e"; "d2697b267a4df73f"]);
   ("cmd/internal/obj/objfile.go:(*writer).Sym", ["9ab6c4a1abf002bb"; "44a0227202718bde"; "296233e3acb87fa8"; "49065a0b45e90bb5"; "3c0496b34d236787"; "db5015071822e2e7"]);
   ("cmd/internal/obj/objfile.go:(*writer).contentHash", ["e26ccf381e5cd8a2"; "fd81c0f514e31682"; "99419aed470e0e1b"; "24f78a60fc734388"; "98e74650b3e78700"]);
   ("cmd/internal/obj/objfile.go:(*writer).refFlags", ["2c0cae2640bbd14f"; "f8e03e99b7f0ba01"]);
   ("cmd/internal/obj/objfile.go:(*writer).refNames", ["d73101f217b9f104"; "09dd48bb1938962e"; "c767b9c8d3bde09b"]);
   ("cmd/internal/obj/objfile.go:WriteObjFile", ["54c7395c51128105"; "684754b65b90f7c5"; "13bc9a607624f819"; "bbc2da1e4e7e749a"; "5a4ce6cd8f80b7e1"]);
   ("cmd/internal/obj/objfile.go:contentHashSection", ["4413bab01de94781"; "50db27a180361e96"; "c36f4d8611fe056e"]);
   ("cmd/internal/obj/objfile.go:genFuncInfoSyms", ["52723b682a80df7c"; "64f10ee2e809781a"; "7dba2023ef14811b"; "cc603850991efefa"; "2089b8013f303044"; "f1f5e061fa264035"]);
   ("cmd/internal/obj/objfile.go:nAuxSym", ["790ca377e0438e09"; "fd8ff5ceb1f0b9eb"; "5a09acca9e99c240"]);
   ("cmd/internal/obj/pcln.go:funcpctab", ["2cb19a654344fdf3"; "44eaacb7b2ec28c0"; "7b33fb063eb374ed"]);
   ("cmd/internal/obj/pcln.go:linkpcln", ["01edf60bf2167b03"; "1af38de964ab37d8"; "26089e13706b4c61"; "83c1745f5482f3b2"]);
   ("cmd/internal/obj/pcln.go:pctofileline", ["42afe61e68f53892"; "0ad132823dc7171e"; "ce872ea72d8d2ce9"]);
   ("cmd/internal/obj/plist.go:(*Link).GloblPos", ["absent"; "dcbeba8e74523901"; "8a92eb12c3c49dca"]);
   ("cmd/internal/obj/plist.go:(*Link).InitTextSym", ["6c9fb7c952c170f8"; "d813c642bc45272c"; "e8309c6b15432a29"; "d70d2ef62454026c"; "e42f950bf3c51bb5"; "a10f18d36bf78c24"]);
   ("cmd/internal/obj/plist.go:(*Link).toFuncFlag", ["9ea901a7b070464c"; "95e8b9f874894a04"]);
   ("cmd/internal/obj/plist.go:Flushplist", ["6f701be2eb042886"; "69933b6a38c2ac3e"; "11c86e3fd347a15e"; "fdbebcba861c04c3"; "0afd37d1ca83d6ce"]);
   ("cmd/internal/obj/sym.go:(*Link).NumberSyms", ["6ef2596a0d149354"; "9b1a997dead5a8b8"; "cc6a01f648213526"; "ce7f68bf48070eb3"; "510be6cae9bbe2af"]);
   ("cmd/internal/obj/sym.go:(*Link).traverseFuncAux", ["1eebfe3b41d09318"; "fd91a8fdafdf60a7"; "9a01f82f4120ff6e"; "4da0c381e7aaf833"; "4268ea82be0908fb"]);
   ("cmd/internal/obj/sym.go:(*Link).traverseSyms", ["0c4a225e7568eb81"; "e52b30a5a844fb31"; "24d7f3a7217299cc"; "2908242a0b2a107c"]);
   ("cmd/internal/obj/sym.go:isNonPkgSym", ["74ac0062a51f02b1"]);
   ("cmd/internal/obj/x86/obj6.go:preprocess", ["dfc57152b2dd8bf2"; "0ddbd315961cda4a"; "65dadba8e6fc31f7"; "724edc73a89883c6"]);
   ("cmd/internal/objabi/funcid.go:GetFuncID", ["839d36747662ae89"; "9fbcdbc347379cdf"]);
   ("cmd/internal/objabi/path.go:PathToPrefix", ["6e878e8cfc9fa518"])].

Definition reviewed : list (string * list string) := reviewed_goobj ++ reviewed_obj.

Definition reviewedKeys : list string := merge_sort str_le (reviewed.*1).

Definition wanted (k : string) : list string := default [] (snd <$> head (filter (fun x => x.1 = k) reviewed)).

(** ** The source tree *)

(** [strings.ToUpper] of a GOARCH. *)
Definition upper (s : string) : string := Convert.map_string (fun c => if code_in 97 122 c then ascii_of_byte (byte_of_ascii c - 32) else c) s.

Definition middot : string := string_of_bytes [194; 183].

Section Tree.
Variable h : host.
Variable f : fs.
Variable goroot : string.

(** go/parser on a file's text; the gofmt-printed function that starts at an offset of a
    file, without its comments; sha256. *)
Variable go_parse : string -> option (list decl).
Variable printer : srcFile -> nat -> string.
Variable sha256 : list Z -> list Z.

Definition src_path (rel : string) : string := path_join [goroot; "src"; rel].

(** The text of a file that is there. *)
Definition file_text (p : string) : option string := string_of_bytes <$> f !! p.

(** The files parsed so far are remembered; a file is the same when it is read again. *)
Definition parse (rel : string) : rs srcFile :=
  text ← of_option 1 (file_text (src_path rel));
  ds ← of_option 1 (go_parse text);
  mret (mkSrc rel ds text).

Definition exists_ (rel : string) : bool := h_exists h (src_path rel).

Definition file_consts (rel : string) : rs (list constBlock) := sf ← parse rel; of_option 2 (consts sf ∅).

(** ** Functions *)

Definition funcName (name : string) (recv : list expr) : string :=
  match recv with
  | [] => name
  | t :: _ =>
      (match t with
       | StarExpr (Ident id) => "(*" +:+ id +:+ ")"
       | Ident id => "(" +:+ id +:+ ")"
       | _ => ""
       end) +:+ "." +:+ name
  end.

(** Where the text of the function starts and ends. *)
Definition findFunc (sf : srcFile) (name : string) : option (nat * nat) :=
  head (omap (fun d => match d with
    | FuncDecl n recv pos end_ => if String.eqb (funcName n recv) name then Some (pos, end_) else None
    | _ => None
    end) (sf_decls sf)).

Definition funcSourceOpt (sf : srcFile) (name : string) : string :=
  match findFunc sf name with Some (pos, end_) => String.substring pos (end_ - pos) (sf_text sf) | None => "" end.

Definition funcSource (file name : string) : rs string :=
  sf ← parse file;
  let s := funcSourceOpt sf name in
  _ ← (if String.eqb s "" then errorf (file +:+ ": no function " +:+ name) else mret ());
  mret s.

(** [strings.Cut(key, ":")]; every key has a colon. *)
Definition cut_key (key : string) : string * string := default (key, "") (cut_colon key).

Definition normalized (key : string) : rs string :=
  let '(file, fn) := cut_key key in
  sf ← parse file;
  mret (match findFunc sf fn with Some (pos, _) => printer sf pos | None => "absent" end).

Definition fingerprint (key : string) : rs string :=
  n ← normalized key;
  mret (if String.eqb n "absent" then n else String.substring 0 16 (hex_bytes (sha256 (bytes_of_string n)))).

Definition check_key (k : string) : rs () :=
  fp ← fingerprint k;
  if existsb (String.prefix fp) (wanted k) then mret ()
  else errorf (k +:+ " changed (fingerprint " +:+ fp +:+ "): review it against internal/goobj and add the fingerprint to cmd/goc-gometa/reviewed.go").

Definition checkReviewed : rs () := _ ← rs_map check_key reviewedKeys; mret ().

(** ** The object format *)

Definition trimmed (b : constBlock) (prefix : string) : gmap string Z :=
  foldl (fun out n => <[trim_prefix n prefix := default 0 (cb_values b !! n)]> out) ∅ (cb_names b).

(** The constants of the block with a name, without a prefix. *)
Definition group (bs : list constBlock) (name prefix : string) : gmap string Z :=
  match blockWith bs name with Some b => trimmed b prefix | None => ∅ end.

Definition headerFormat : rs string :=
  body ← funcSource "cmd/internal/objabi/util.go" "HeaderString";
  if contains (quoted_text "go object %s %s %s X:%s\n") body then mret "go object {GOOS} {GOARCH} {GOVERSION} X:{experiments}\n"
  else
    _ ← (if contains (quoted_text "go object %s %s %s%s X:%s\n") body then mret ()
         else errorf "cmd/internal/objabi/util.go: HeaderString has an unknown layout");
    mret "go object {GOOS} {GOARCH} {GOVERSION}[ {GOARCHVAR}={value}] X:{experiments}\n".

Definition hash_sizeRE : regex := Cat (lit "const HashSize = sha1.Size") WordB.

Definition builtin_entry (e : expr) : rs (list (string * Z)) :=
  match e with
  | CompositeLit [n; a] =>
      match litString n, litInt a with
      | Some name, (abi, true) => mret [(name, abi)]
      | _, _ => _ ← errorf "goobj builtins: unexpected entry"; mret []
      end
  | _ => _ ← errorf "goobj builtins: unexpected entry"; mret []
  end.

Definition builtins : rs (list (string * Z)) :=
  sf ← parse "cmd/internal/goobj/builtinlist.go";
  match compositeVar sf "builtins" with
  | Some elts => bs ← rs_map builtin_entry elts; mret (concat bs)
  | None => _ ← errorf "cmd/internal/goobj/builtinlist.go: no builtins table"; mret []
  end.

Definition object_facts : rs Object :=
  gf ← parse "cmd/internal/goobj/objfile.go";
  gb ← of_option 2 (consts gf ∅);
  let magic := foldl (fun m b => default m (cb_strs b !! "Magic")) "" gb in
  header ← headerFormat;
  let blocks := match blockWith gb "BlkAutolib" with
                | Some b => (fun n => trim_prefix n "Blk") <$> filter (fun n => n <> "NBlk") (cb_names b)
                | None => []
                end in
  let all := pick gb "" in
  let size := Link.at_ all "HashSize" in
  let size := if (size =? 0) && is_match hash_sizeRE (sf_text gf) then 20 else size in
  bs ← builtins;
  mret (mkObject magic header blocks (pickTrim gb "ObjFlag") (group gb "SymFlagDupok" "SymFlag") (group gb "SymFlagUsedInIface" "SymFlag")
          (pickTrim gb "Aux") (delete "Invalid" (delete "Special" (pickTrim gb "PkgIdx"))) (Link.at_ all "SymABIstatic") size
          (Link.at_ all "Hash64Size") bs).

(** ** internal/abi, or objabi before go1.21 *)

(** The keys of a map renamed, in the order of an iteration; the order matters only where
    two names become one. *)
Definition rename (g : string -> string) (m : gmap string Z) : gmap string Z :=
  foldl (fun out x => <[g x.1 := x.2]> out) ∅ (map_to_list m).

Definition stack_names (m : gmap string Z) (base : Z) (fd pd : gmap string Z) (offsets : gmap string Z) : ABI :=
  mkABI fd pd (Link.at_ m "StackSmall") (Link.at_ m "StackBig") base offsets.

Definition spaces1 : regex := many1 re_space.
Definition spaces : regex := many re_space.

Definition stack_limitRE : regex :=
  cats [lit "stackGuard := "; Group 1 (many1 re_digit); lit "*stackGuardMultiplier(race) + StackSystem"; spaces1;
        lit "stackLimit := stackGuard - StackSystem - StackSmall"].
Definition old_limitRE : regex :=
  cats [lit "var StackGuard = "; Group 1 (many1 re_digit); lit "*stackGuardMultiplier() + StackSystem"; spaces1;
        lit "var StackLimit = StackGuard - StackSystem - StackSmall"].

(** The first group of the first pattern that matches. *)
Definition first_group (res : list regex) (text : string) : option string :=
  head (omap (fun r => (fun m => group_text text m 1) <$> find r text) res).

Definition flag_name_of (x : string * Z) : rs (list (string * Z)) :=
  match list_find (fun y : string * string => y.1 = x.1) [("TOPFRAME", "TopFrame"); ("SPWRITE", "SPWrite"); ("ASM", "Asm")] with
  | Some (_, (_, n)) => mret [(n, x.2)]
  | None => _ ← errorf ("cmd/internal/objabi/funcid.go: unknown FuncFlag_" +:+ x.1); mret []
  end.

Definition old_id (n : string) : string := if String.eqb n "normal" then "Normal" else if String.eqb n "wrapper" then "Wrapper" else n.

(** What the two layouts give: the function ids as declared, flags and ids by their new
    names, FUNCDATA, PCDATA, the stack constants and the nosplit limit. *)
Record abi_found := mkFound {
  af_sym : list constBlock; af_flags : gmap string Z; af_ids : gmap string Z; af_funcdata : gmap string Z; af_pcdata : gmap string Z;
  af_stack : gmap string Z; af_limit : Z; af_sources : list string }.

Definition new_abi : rs abi_found :=
  sym ← file_consts "internal/abi/symtab.go";
  stack ← file_consts "internal/abi/stack.go";
  let stack := pick stack "Stack" in
  mret (mkFound sym (pickTrim sym "FuncFlag") (rename (fun n => trim_prefix (trim_prefix n "FuncID") "_") (pick sym "FuncID"))
          (pickTrim sym "FUNCDATA_") (pickTrim sym "PCDATA_") stack (Link.at_ stack "StackNosplitBase")
          ["internal/abi/symtab.go"; "internal/abi/stack.go"]).

Definition old_abi : rs abi_found :=
  fd ← file_consts "cmd/internal/objabi/funcdata.go";
  sym ← file_consts "cmd/internal/objabi/funcid.go";
  flags ← rs_map flag_name_of (map_to_list (pickTrim sym "FuncFlag_"));
  st ← parse "cmd/internal/objabi/stack.go";
  stack ← of_option 2 (consts st ∅);
  let stack := pick stack "Stack" in
  limit ← (match first_group [stack_limitRE; old_limitRE] (sf_text st) with
           | Some g => mret (s64 (Atoi g - Link.at_ stack "StackSmall"))
           | None => _ ← errorf "cmd/internal/objabi/stack.go: StackLimit has an unknown layout"; mret 0
           end);
  mret (mkFound sym (list_to_map (concat flags)) (rename old_id (pickTrim sym "FuncID_")) (pickTrim fd "FUNCDATA_") (pickTrim fd "PCDATA_") stack limit
          ["cmd/internal/objabi/funcdata.go"; "cmd/internal/objabi/funcid.go"; "cmd/internal/objabi/stack.go"]).

Definition stackRE : regex :=
  cats [lit "type stack struct {"; spaces; lit "lo"; spaces1; lit "uintptr"; spaces; lit "hi"; spaces1; lit "uintptr"; spaces; lit "}"].
Definition to_eol : regex := many re_dot.
Definition gRE : regex :=
  cats [lit "type g struct {"; Star true (cats [spaces; lit "//"; to_eol]); spaces; lit "stack"; spaces1; lit "stack"; to_eol;
        Class (char_is newline); spaces; lit "stackguard0"; spaces1; lit "uintptr"].

Definition gOffsets : rs (gmap string Z) :=
  sf ← parse "runtime/runtime2.go";
  if is_match stackRE (sf_text sf) && is_match gRE (sf_text sf)
  then mret (list_to_map [("stack_lo", 0); ("stack_hi", 8); ("stackguard0", 16)])
  else _ ← errorf "runtime/runtime2.go: g does not start with stack{lo,hi} and stackguard0"; mret ∅.

(** [objabi.funcIDs] *)
Definition func_id (known : gmap string Z) (e : expr) : rs (list (string * Z)) :=
  match e with
  | KeyValueExpr k v =>
      match litString k with
      | None => mret []
      | Some name =>
          match evalConst known 0 v 0 with
          | Ok n => mret [(name, n)]
          | Fail EvPanic => exit 2
          | Fail (EvErr e) => _ ← errorf ("cmd/internal/objabi/funcid.go: funcIDs[" +:+ quoted_text name +:+ "]: " +:+ e); mret []
          end
      end
  | _ => mret []
  end.

(** A map filled in the order of a list. *)
Definition fill (l : list (string * Z)) : gmap string Z := foldl (fun out x => <[x.1 := x.2]> out) ∅ l.

Definition runtime_ids (sym : list constBlock) : rs (gmap string Z) :=
  let ids := pick sym "FuncID" in
  let known := foldl (fun out x => <[x.1 := x.2]> (<["abi." +:+ x.1 := x.2]> out)) ∅ (map_to_list ids) in
  sf ← parse "cmd/internal/objabi/funcid.go";
  match compositeVar sf "funcIDs" with
  | Some elts => l ← rs_map (func_id known) elts; mret (fill (concat l))
  | None => _ ← errorf "cmd/internal/objabi/funcid.go: no funcIDs table"; mret ∅
  end.

(** ** The architectures *)

(** [ssa/_gen] from go1.20, [ssa/gen] before. *)
Definition ssaGen : string :=
  if exists_ "cmd/compile/internal/ssa/_gen" then "cmd/compile/internal/ssa/_gen" else "cmd/compile/internal/ssa/gen".

Definition dquote : string := String "034" "".
Definition not_quote (c : ascii) : bool := negb (Ascii.eqb c "034").

Definition g_regRE : regex :=
  cats [lit (dquote +:+ "g" +:+ dquote +:+ ","); spaces; lit "//"; spaces; lit "a"; opt (lit "."); lit "k"; opt (lit "."); lit "a"; opt (lit "."); spaces;
        Group 1 (Cat (lit "R") (many1 re_digit))].
Definition names_RE (field : string) : regex := cats [lit (field +:+ ":"); spaces; lit dquote; Group 1 (many not_quote); lit dquote].

(** [find] in [regs] *)
Definition find_reg (arch ops : string) (re : regex) (what : string) : rs string :=
  match first_group [re] ops with
  | Some g => mret g
  | None => _ ← errorf (upper arch +:+ "Ops.go: " +:+ what +:+ " not found"); mret ""
  end.

(** The register of g, the argument registers and the function that grows the stack. *)
Definition regs (arch : string) : rs (string * list string * list string * string) :=
  sf ← parse (ssaGen +:+ "/" +:+ upper arch +:+ "Ops.go");
  let ops := sf_text sf in
  g ← find_reg arch ops g_regRE "g register";
  ints ← find_reg arch ops (names_RE "ParamIntRegNames") "ParamIntRegNames";
  floats ← find_reg arch ops (names_RE "ParamFloatRegNames") "ParamFloatRegNames";
  let p := src_path ("runtime/asm_" +:+ arch +:+ ".s") in
  morestack ← (match file_text p with
    | None => _ ← errorf (h_noent h p); mret ""
    | Some asm =>
        if contains ("TEXT runtime" +:+ middot +:+ "morestack_noctxt(") asm then mret "runtime.morestack_noctxt"
        else _ ← errorf ("runtime/asm_" +:+ arch +:+ ".s: no runtime" +:+ middot +:+ "morestack_noctxt"); mret ""
    end);
  mret (g, Fields ints, Fields floats, morestack).

Definition is_family : regex := Cat (lit "goarch.ArchFamily == goarch.") (many1 re_word).
Definition adjustRE : regex :=
  cats [lit "if "; Group 1 (cats [opt (lit "("); is_family; Star true (Cat (lit " || ") is_family); opt (lit ")")]);
        lit " && frame.argp-frame.varp == 2*goarch.PtrSize {"].

Definition stackCopyAdjustsFP (goarch : string) : rs bool :=
  af ← funcSource "runtime/stack.go" "adjustframe";
  match first_group [adjustRE] af with
  | Some g => mret (contains ("goarch." +:+ upper goarch) g)
  | None => _ ← errorf "runtime/stack.go: adjustframe adjusts frame pointers in an unknown way"; mret false
  end.

(** A field of the architecture's table: the last entry with the name. *)
Definition arch_field (name : string) (v : Z) (e : expr) : Z :=
  match e with KeyValueExpr (Ident k) x => if String.eqb k name then (litInt x).1 else v | _ => v end.

Definition arch_entry (archf : srcFile) (a : string) : rs (list (string * Arch)) :=
  match compositeVar archf ("Arch" +:+ upper a) with
  | None => _ ← errorf ("cmd/internal/sys/arch.go: no Arch" +:+ upper a); mret []
  | Some elts =>
      '(g, ints, floats, morestack) ← regs a;
      fp ← stackCopyAdjustsFP a;
      mret [(a, mkArch (foldl (arch_field "PtrSize") 0 elts) (foldl (arch_field "MinLC") 0 elts) g ints floats morestack fp)]
  end.

Definition arch_facts : rs (gmap string Arch) :=
  archf ← parse "cmd/internal/sys/arch.go";
  l ← rs_map (arch_entry archf) ["amd64"; "arm64"];
  mret (list_to_map (concat l)).

(** ** The object writer *)

Definition unless (b : bool) (e : string) : rs () := if b then mret () else errorf e.

(** The content hash, and the file it comes from. *)
Definition content_hash (hash_size : Z) : rs (string * string) :=
  ch ← funcSource "cmd/internal/obj/objfile.go" "(*writer).contentHash";
  if contains "notsha256.New()" ch then
    ns ← funcSource "cmd/internal/notsha256/sha256.go" "(*digest).checkSum";
    _ ← unless (contains "d.h[0]^0xFFFFFFFF" ns) "cmd/internal/notsha256: checkSum no longer complements the sha256 words";
    mret ("notsha256", "cmd/internal/notsha256/sha256.go")
  else if contains "hash.New20()" ch || contains "hash.New32()" ch then
    n32 ← funcSource "cmd/internal/hash/hash.go" "New32";
    _ ← unless (contains "sha256.New()" n32 && contains "h.Write([]byte{1})" n32) "cmd/internal/hash: New32 is no longer sha256 over 0x01 || data";
    _ ← unless (hash_size <=? 20) ("goobj.HashSize " +:+ dec hash_size +:+ " exceeds the 20 bytes hash.New20 yields");
    mret ("sha256-prefix01", "cmd/internal/hash/hash.go")
  else if contains "sha1.New()" ch then
    _ ← unless (hash_size =? 20) ("goobj.HashSize " +:+ dec hash_size +:+ " is not sha1's 20 bytes");
    mret ("sha1", "crypto/sha1")
  else
    _ ← errorf "cmd/internal/obj/objfile.go: contentHash uses an unknown hash"; mret ("", "").

Definition has_prefix_call (subject prefix : string) : string := "strings.HasPrefix(" +:+ subject +:+ ", " +:+ dquote +:+ prefix +:+ dquote +:+ ")".

Definition align_model (sym : string) : rs string :=
  if contains "align := uint32(s.Align)" sym then mret "explicit"
  else if contains (has_prefix_call "name" ("gclocals" +:+ middot)) sym && contains "align = uint32(fn.Align)" sym then mret "heuristic"
  else _ ← errorf "cmd/internal/obj/objfile.go: (*writer).Sym aligns symbols in an unknown way"; mret "".

Definition type_prefixes (sym : string) : rs (string * string) :=
  if contains (has_prefix_call "s.Name" "type:") sym && contains (has_prefix_call "s.Name" "go:itab.") sym then mret ("type:", "go:itab.")
  else if contains (has_prefix_call "s.Name" "type.") sym && contains (has_prefix_call "s.Name" "go.itab.") sym then mret ("type.", "go.itab.")
  else _ ← errorf "cmd/internal/obj/objfile.go: (*writer).Sym marks type and itab symbols in an unknown way"; mret ("", "").

Definition inl_fileRE : regex :=
  cats [lit "f, _ := "; Group 1 (Alt (lit "ctxt.getFileSymbolAndLine(") (lit "linkgetlineFromPos(ctxt, ")); lit "call.Pos)"; spaces1;
        lit "if filesym := ctxt.Lookup(f); filesym != nil {"; spaces1; lit "fn(fsym, filesym)"].

(** Only functions written package-relative get a stack map: before go1.22. *)
Definition relative_only : string := "if !strings.HasPrefix(s.Name, " +:+ dquote +:+ "\" +:+ dquote +:+ "\" +:+ dquote +:+ "." +:+ dquote +:+ ") {".

Definition writerFacts (hash_size : Z) (flags ids runtime : gmap string Z) : rs (Writer * string) :=
  '(hash, hashSrc) ← content_hash hash_size;
  sym ← funcSource "cmd/internal/obj/objfile.go" "(*writer).Sym";
  align ← align_model sym;
  '(type_, itab) ← type_prefixes sym;
  wof ← funcSource "cmd/internal/obj/objfile.go" "WriteObjFile";
  tfa ← funcSource "cmd/internal/obj/sym.go" "(*Link).traverseFuncAux";
  fiw ← funcSource "cmd/internal/goobj/funcinfo.go" "(*FuncInfo).Write";
  fp ← funcSource "cmd/internal/obj/plist.go" "Flushplist";
  mret (mkWriterFacts hash (contains ("w.ctxt.IsAsm && name != " +:+ dquote +:+ dquote) sym) align (contains "TrimInlineHash(" sym)
          (contains (dquote +:+ ".args_stackmap" +:+ dquote) fp && contains (dquote +:+ "%s.arginfo%d" +:+ dquote) fp && negb (contains relative_only fp))
          type_ itab (contains "sort.Sort(relocByOff(s.R))" wof || contains "slices.SortFunc(s.R, relocByOffCmp)" wof)
          (contains "writeUint32(uint32(a.StartLine))" fiw) (is_match inl_fileRE tfa) flags ids runtime, hashSrc).

(** ** DWARF *)

Definition addrxRE : regex :=
  cats [lit "fncount <= "; Group 1 (many1 re_digit); lit ":"; spaces; lit "return "; Group 2 (Cat (lit "R_DWTXTADDR_U") (Class re_digit)); lit ", ";
        Group 3 (many1 re_digit)].

Definition addrx_flavor (body : string) (m : rmatch) : Z * string * Z :=
  (Atoi (group_text body m 1), group_text body m 2, Atoi (group_text body m 3)).

Definition fewer_funcs (a b : Z * string * Z) : Prop := a.1.1 <= b.1.1.
#[local] Instance fewer_funcs_dec a b : Decision (fewer_funcs a b) := decide (a.1.1 <= b.1.1).

Definition func_die : rs string :=
  pdf ← funcSource "cmd/internal/dwarf/dwarf.go" "PutDefaultFunc";
  if contains "emitHiLoPc(" pdf then
    eh ← funcSource "cmd/internal/dwarf/dwarf.go" "emitHiLoPc";
    _ ← unless (contains "buildcfg.Experiment.Dwarf5" eh && contains "DW_FORM_addrx" eh) "cmd/internal/dwarf/dwarf.go: emitHiLoPc has an unknown layout";
    mret "v2"
  else mret (if contains "int64(s.StartLine)" pdf || contains "int64(s.StartPos.RelLine())" pdf then "v1" else "v0").

(** The flavours by function count; the source has four, so sorting keeps equal counts in
    their order. *)
Definition text_addrx (die : string) : rs (list (Z * string * Z)) :=
  rt ← parse "cmd/internal/objabi/reloctype.go";
  let body := funcSourceOpt rt "FuncCountToDwTxtAddrFlavor" in
  if String.eqb body "" then
    _ ← unless (negb (String.eqb die "v2")) "emitHiLoPc without FuncCountToDwTxtAddrFlavor"; mret []
  else
    let l := addrx_flavor body <$> find_all addrxRE body in
    _ ← unless (negb (bool_decide (l = []))) "cmd/internal/objabi/reloctype.go: FuncCountToDwTxtAddrFlavor has an unknown layout";
    mret (merge_sort fewer_funcs l).

Definition dwarfFacts : rs DWARF :=
  blocks ← file_consts "cmd/internal/dwarf/dwarf.go";
  abbrev ← (match blockWith blocks "DW_ABRV_FUNCTION" with
            | Some b => mret (default 0 (cb_values b !! "DW_ABRV_FUNCTION"))
            | None => _ ← errorf "cmd/internal/dwarf/dwarf.go: no DW_ABRV_FUNCTION"; mret 0
            end);
  die ← func_die;
  addrx ← text_addrx die;
  mret (mkDWARF abbrev die "v1" addrx).

(** ** All the facts *)

Definition version : rs string :=
  text ← of_option 1 (file_text (path_join [goroot; "VERSION"]));
  mret (TrimSpace (default "" (head (split_on newline text)))).

Definition block_values (bs : list constBlock) (name : string) : gmap string Z :=
  match blockWith bs name with
  | Some b => foldl (fun out n => <[n := default 0 (cb_values b !! n)]> out) ∅ (cb_names b)
  | None => ∅
  end.

Definition resolve : rs Meta :=
  ver ← version;
  minor ← of_option 1 (Minor ver);
  _ ← checkReviewed;
  o ← object_facts;
  relocs ← file_consts "cmd/internal/objabi/reloctype.go";
  kinds ← file_consts "cmd/internal/objabi/symkind.go";
  a ← (if exists_ "internal/abi/symtab.go" then new_abi else old_abi);
  g ← gOffsets;
  runtime ← runtime_ids (af_sym a);
  arch ← arch_facts;
  '(w, hashSrc) ← writerFacts (ob_HashSize o) (af_flags a) (af_ids a) runtime;
  d ← dwarfFacts;
  mret (mkMetaFacts Schema minor ver "cmd/goc-gometa" o w (block_values kinds "Sxxx") (pick relocs "R_")
    (stack_names (af_stack a) (af_limit a) (af_funcdata a) (af_pcdata a) g) arch d
    (h_exists h (path_join [goroot; "pkg"; "tool"; "linux_amd64"; "pack"]))
    (list_to_map
       [("object", join " " ["cmd/internal/goobj/objfile.go"; "cmd/internal/goobj/builtinlist.go"; "cmd/internal/objabi/util.go"]);
        ("relocs", "cmd/internal/objabi/reloctype.go"); ("sym_kinds", "cmd/internal/objabi/symkind.go");
        ("abi", join " " (af_sources a ++ ["runtime/runtime2.go"]));
        ("arch", join " " ["cmd/internal/sys/arch.go"; ssaGen +:+ "/AMD64Ops.go"; ssaGen +:+ "/ARM64Ops.go"; "runtime/asm_amd64.s"; "runtime/asm_arm64.s"; "runtime/stack.go"]);
        ("writer", join " " ["cmd/internal/obj/objfile.go"; "cmd/internal/obj/plist.go"; hashSrc]);
        ("dwarf", join " " ["cmd/internal/dwarf/dwarf.go"; "cmd/internal/obj/dwarf.go"; "cmd/internal/objabi/reloctype.go"]);
        ("toolexec", "pkg/tool/linux_amd64 (directory listing)")])).
End Tree.

(** ** The command *)

Section Command.
Variable h : host.
Variable go_parse : string -> option (list decl).
Variable printer : srcFile -> nat -> string.
Variable sha256 : list Z -> list Z.

(** [encoding/json], with two spaces of indentation. *)
Variable marshal : Meta -> res string (list Z).
Variable unmarshal : list Z -> res string Meta.

Definition Encode (m : Meta) : res string (list Z) := b ← marshal m; Ok (b ++ [10]).

Definition gometa_flags : gmap string flag_kind :=
  list_to_map [("goroot", FString); ("o", FString); ("fingerprints", FBool); ("print", FString); ("keep-going", FBool)].

(** The exit status, standard output, the messages, the world after. *)
Record outcome := mkOutcome { oc_status : Z; oc_stdout : string; oc_stderr : list string; oc_world : world }.

(** One line per reviewed function; a file that cannot be read ends the process. *)
Fixpoint print_fingerprints (f : fs) (goroot : string) (keys : list string) (out : string) : Z * string :=
  match keys with
  | [] => (0, out)
  | k :: keys =>
      match fingerprint f goroot go_parse printer sha256 k [] with
      | Ok (fp, _) => print_fingerprints f goroot keys (out +:+ k +:+ String "009" "" +:+ fp +:+ String newline "")
      | Fail n => (n, out)
      end
  end.

(** What is written: the record, which the converter has to accept unless the errors were
    to be passed over. *)
Definition encoded (keep_going : bool) (m : Meta) : res string (list Z) :=
  b ← Encode m;
  _ ← (if keep_going then Ok () else _ ← Parse unmarshal b; Ok ());
  Ok b.

Definition generate (fl : gmap string string) (goroot : string) (w : world) : outcome :=
  let keep := is_set fl "keep-going" in
  let out := default "" (fl !! "o") in
  match resolve h (wo_fs w) goroot go_parse printer sha256 [] with
  | Fail n => mkOutcome n "" [] w
  | Ok (m, errs) =>
      if negb (bool_decide (errs = [])) && negb keep then mkOutcome 1 "" errs w
      else match encoded keep m with
           | Fail e => mkOutcome 1 "" (errs ++ [e]) w
           | Ok b =>
               if String.eqb out "" then mkOutcome 0 (string_of_bytes b) errs w
               else match WriteFile h out b w with
                    | (Ok _, w) => mkOutcome 0 "" errs w
                    | (Fail e, w) => mkOutcome 1 "" (errs ++ [e]) w
                    end
           end
  end.

(** Prints a function, the fingerprints or the facts. *)
Definition with_goroot (fl : gmap string string) (goroot : string) (w : world) : outcome :=
  let print := default "" (fl !! "print") in
  if negb (String.eqb print "") then
    match normalized (wo_fs w) goroot go_parse printer print [] with
    | Ok (s, _) => mkOutcome 0 (s +:+ String newline "") [] w
    | Fail n => mkOutcome n "" [] w
    end
  else if is_set fl "fingerprints" then
    let '(n, s) := print_fingerprints (wo_fs w) goroot reviewedKeys "" in mkOutcome n s [] w
  else generate fl goroot w.

(** [main] *)
Definition main (args : list string) (w : world) : outcome :=
  match parse_flags gometa_flags args ∅ with
  | FlagsExit s => mkOutcome s "" [] w
  | FlagsOk fl _ =>
      let goroot := default "" (fl !! "goroot") in
      if negb (String.eqb goroot "") then with_goroot fl goroot w
      else match run_call h (mkCall "go" ["env"; "GOROOT"] (h_environ h)) w with
           | (Ok s, w) => with_goroot fl (TrimSpace s) w
           | (Fail e, w) => mkOutcome 1 "" ["go env GOROOT: " +:+ e] w
           end
  end.
End Command.
