(* ===== verification/ResolveProofs.v ===== *)
(** * What the generated facts hold

    About Resolve.v.  A run that records no error has seen every reviewed function in a
    version that was reviewed; the record that is written passes the converter's check,
    and its tables of relocation types, symbol kinds, FUNCDATA and so on hold the values
    that Go gives to the constants of the source tree. *)

From Stdlib Require Import ZArith Lia Ascii.
From stdpp Require Import base list strings gmap sorting.
From S2P Require Import Prelude Text World Regex Layout Rewrite Meta ConvertMain Consts Resolve.

(** ** Runs *)

Lemma rs_bind_ok {A B} (m : rs A) (k : A -> rs B) es y es2 : (m ≫= k) es = Ok (y, es2) ->
  exists x es1, m es = Ok (x, es1) /\ k x es1 = Ok (y, es2).
Proof. unfold mbind, rs_bind. destruct (m es) as [[x es1]|n]; [|done]. intros E. by exists x, es1. Qed.

Ltac rs_step E x es := apply rs_bind_ok in E as (x & es & ?E & E).

(** Messages are only added, and the process ends with status 1 or 2. *)
Definition grows {A} (m : rs A) : Prop := forall es,
  match m es with Ok (_, es') => exists l, es' = es ++ l | Fail n => n = 1 \/ n = 2 end.

Lemma grows_ok {A} (m : rs A) es x es' : grows m -> m es = Ok (x, es') -> exists l, es' = es ++ l.
Proof. intros H E. specialize (H es). by rewrite E in H. Qed.

Lemma grows_ret {A} (x : A) : grows (mret x).
Proof. intros es. exists []. by rewrite app_nil_r. Qed.

Lemma grows_errorf e : grows (errorf e).
Proof. intros es. by exists [e]. Qed.

Lemma grows_fatal {A} : grows (@exit A 1).
Proof. intros es. by left. Qed.

Lemma grows_panic {A} : grows (@exit A 2).
Proof. intros es. by right. Qed.

Lemma grows_option {A} n (o : option A) : grows (@exit A n) -> grows (of_option n o).
Proof. destruct o; [intros _; apply grows_ret | done]. Qed.

Lemma grows_bind {A B} (m : rs A) (k : A -> rs B) : grows m -> (forall x, grows (k x)) -> grows (m ≫= k).
Proof.
  intros Hm Hk es. specialize (Hm es). unfold mbind, rs_bind. destruct (m es) as [[x es1]|n]; [|done]. destruct Hm as [l1 ->]. specialize (Hk x (es ++ l1)).
  destruct (k x _) as [[y es2]|n]; [|done]. destruct Hk as [l2 ->]. exists (l1 ++ l2). by rewrite (assoc_L app).
Qed.

Lemma grows_map {A B} (g : A -> rs B) l : (forall x, grows (g x)) -> grows (rs_map g l).
Proof. intros Hg. induction l as [|x l IH]; cbn [rs_map]; [apply grows_ret|]. apply grows_bind; [done|]. intros y. apply grows_bind; [done | intros ys; apply grows_ret]. Qed.

Create HintDb grows.
#[export] Hint Resolve grows_ret grows_errorf grows_fatal grows_panic grows_option : grows.

(** A computation made of reads and messages. *)
Ltac grow :=
  repeat (auto with grows; first
    [ apply grows_bind; [|intros ?] | apply grows_map; intros ? | case_match ]).

Lemma grows_nil {A} (m : rs A) es x : grows m -> m es = Ok (x, []) -> es = [].
Proof. intros H E. destruct (grows_ok _ _ _ _ H E) as [l Hl]. by destruct es. Qed.

(** A loop that records no message. *)
Lemma rs_map_clean {A B} (g : A -> rs B) l : (forall x, grows (g x)) -> forall ys, rs_map g l [] = Ok (ys, []) -> forall x, x ∈ l -> exists y, g x [] = Ok (y, []).
Proof.
  intros Hg. induction l as [|a l IH]; intros ys E x Hx; [by apply not_elem_of_nil in Hx|]. cbn [rs_map] in E. rs_step E y es1. rs_step E ys' es2.
  injection E as <- ->. pose proof (grows_nil _ _ _ (grows_map g l Hg) E1) as ->. apply elem_of_cons in Hx as [->|Hx]; [by exists y|]. by eapply IH.
Qed.

(** ** Selections *)

Lemma pick_inner prefix b n names : forall out, foldl (pick_name prefix b) out names !! n =
  if bool_decide (n ∈ names) && String.prefix prefix n then match cb_values b !! n with Some v => Some v | None => out !! n end else out !! n.
Proof.
  induction names as [|m names IH]; intros out; cbn [foldl]; [done|]. rewrite IH. unfold pick_name at 1 2.
  destruct (decide (n = m)) as [->|Hne].
  - rewrite (bool_decide_eq_true_2 (m ∈ m :: names)) by left. cbn [andb]. destruct (String.prefix prefix m) eqn:P.
    + destruct (cb_values b !! m) eqn:V; [rewrite lookup_insert_eq|]; by destruct (bool_decide _).
    + rewrite andb_false_r. by destruct (cb_values b !! m).
  - rewrite (bool_decide_ext (n ∈ m :: names) (n ∈ names)) by (rewrite elem_of_cons; tauto).
    assert ((match cb_values b !! m with Some v => if String.prefix prefix m then <[m:=v]> out else out | None => out end) !! n = out !! n) as ->; [|done].
    destruct (cb_values b !! m); [|done]. destruct (String.prefix prefix m); [|done]. by rewrite lookup_insert_ne.
Qed.

(** Only one block has a value for the name. *)
Lemma pick_value bs prefix n v b : b ∈ bs -> n ∈ cb_names b -> cb_values b !! n = Some v -> String.prefix prefix n = true ->
  (forall b', b' ∈ bs -> is_Some (cb_values b' !! n) -> b' = b) -> pick bs prefix !! n = Some v.
Proof.
  intros Hb Hn Hv Hp. unfold pick. generalize (∅ : gmap string Z) as out.
  assert (forall bs out, (forall b', b' ∈ bs -> is_Some (cb_values b' !! n) -> b' = b) -> out !! n = Some v ->
    foldl (fun out b => foldl (pick_name prefix b) out (cb_names b)) out bs !! n = Some v) as Hkeep.
  { induction bs0 as [|a l IH]; intros out H Ho; cbn [foldl]; [done|]. apply IH; [intros b' Hb'; apply H; by right|]. rewrite pick_inner.
    destruct (bool_decide _ && _); [|done]. destruct (cb_values a !! n) eqn:E; [|done]. pose proof (H a ltac:(left) ltac:(by rewrite E)) as ->. congruence. }
  induction bs as [|a l IH]; intros out H; [by apply not_elem_of_nil in Hb|]. cbn [foldl]. apply elem_of_cons in Hb as [<-|Hb].
  - apply Hkeep; [intros b' Hb'; apply H; by right|]. rewrite pick_inner, Hp, bool_decide_eq_true_2, Hv by done. done.
  - apply IH; [done|]. intros b' Hb'. apply H. by right.
Qed.

Lemma pick_from bs prefix n v : pick bs prefix !! n = Some v -> exists b, b ∈ bs /\ cb_values b !! n = Some v /\ String.prefix prefix n = true.
Proof.
  unfold pick. assert (forall out, foldl (fun out b => foldl (pick_name prefix b) out (cb_names b)) out bs !! n = Some v ->
    out !! n = Some v \/ exists b, b ∈ bs /\ cb_values b !! n = Some v /\ String.prefix prefix n = true) as H.
  { induction bs as [|a l IH]; intros out E; cbn [foldl] in E; [by left|]. destruct (IH _ E) as [Ho|(b & Hb & Hv)]; [|right; exists b; split; [by right | done]].
    rewrite pick_inner in Ho. destruct (bool_decide _ && _) eqn:P; [|by left]. apply andb_true_iff in P as [_ P].
    destruct (cb_values a !! n) eqn:V; [|by left]. right. exists a. split; [left | by rewrite V]. }
  intros E. by destruct (H _ E) as [?|?].
Qed.

(** The names without the prefix. *)
Lemma pickTrim_lookup bs prefix s : pickTrim bs prefix !! s = pick bs prefix !! (prefix +:+ s).
Proof.
  unfold pickTrim. set (l := (fun x : string * Z => (trim_prefix x.1 prefix, x.2)) <$> map_to_list (pick bs prefix)).
  assert (forall n v, (n, v) ∈ map_to_list (pick bs prefix) -> exists t, n = prefix +:+ t /\ trim_prefix n prefix = t) as Hl.
  { intros n v [b (_ & _ & [t ->]%prefix_split)]%elem_of_map_to_list%pick_from. exists t. split; [done|]. unfold trim_prefix. by rewrite after_prefix_app. }
  assert (NoDup l.*1) as Hnd.
  { unfold l. rewrite <-list_fmap_compose. cbn. pose proof (NoDup_fst_map_to_list (pick bs prefix)) as Hn. revert Hl Hn.
    induction (map_to_list (pick bs prefix)) as [|[n v] k IH]; intros Hl Hn; cbn; [constructor|]. apply NoDup_cons in Hn as [Hn Hk]. constructor.
    - intros ([m u] & Hm & Hin)%list_elem_of_fmap. cbn in Hm. destruct (Hl n v ltac:(left)) as (t & -> & Ht), (Hl m u ltac:(by right)) as (t' & -> & Ht').
      rewrite Ht, Ht' in Hm. subst t'. apply Hn. apply list_elem_of_fmap. by exists (prefix +:+ t, u).
    - apply IH; [|done]. intros m u Hm. apply (Hl m u). by right. }
  apply option_eq. intros v. rewrite <-elem_of_list_to_map by done. unfold l. rewrite list_elem_of_fmap. split.
  - intros ([n u] & [= -> ->] & Hin). destruct (Hl n u Hin) as (t & -> & ->). by apply elem_of_map_to_list.
  - intros Hv. exists (prefix +:+ s, v). cbn. split; [unfold trim_prefix; by rewrite after_prefix_app | by apply elem_of_map_to_list].
Qed.

(** The values of a block under other names. *)
Lemma block_values_lookup bs name b n : blockWith bs name = Some b -> n ∈ cb_names b -> block_values bs name !! n = Some (default 0 (cb_values b !! n)).
Proof.
  unfold block_values. intros ->. generalize (∅ : gmap string Z).
  assert (forall l (out : gmap string Z), out !! n = Some (default 0 (cb_values b !! n)) ->
    foldl (fun out n => <[n := default 0 (cb_values b !! n)]> out) out l !! n = Some (default 0 (cb_values b !! n))) as Hk.
  { induction l as [|a l IH]; intros out H; cbn [foldl]; [done|]. apply IH. destruct (decide (a = n)) as [->|]; [by rewrite lookup_insert_eq | by rewrite lookup_insert_ne]. }
  induction (cb_names b) as [|a l IH]; intros out Hn; [by apply not_elem_of_nil in Hn|]. cbn [foldl].
  apply elem_of_cons in Hn as [->|Hn]; [apply Hk; by rewrite lookup_insert_eq | by apply IH].
Qed.

(** ** Declared constants *)

Lemma entries_app a b : entries_of (a ++ b) = entries_of a ++ entries_of b.
Proof. unfold entries_of. by rewrite fmap_app, concat_app. Qed.

(** The block of the [k]-th constant, and its place there. *)
Lemma entry_block blocks : forall k x, entries_of blocks !! k = Some x ->
  exists j specs i, blocks !! j = Some specs /\ block_entries specs !! i = Some x /\ k = (length (entries_of (take j blocks)) + i)%nat.
Proof.
  induction blocks as [|specs blocks IH]; intros k x Hk; [done|]. change (entries_of (specs :: blocks)) with (block_entries specs ++ entries_of blocks) in Hk.
  apply lookup_app_Some in Hk as [Hk|[Hlen Hk]]; [by exists 0%nat, specs, k|]. destruct (IH _ _ Hk) as (j & sp & i & Hj & Hi & E).
  exists (S j), sp, i. split_and!; [done..|]. change (take (S j) (specs :: blocks)) with (specs :: take j blocks).
  change (entries_of (specs :: ?l)) with (block_entries specs ++ entries_of l). rewrite length_app. lia.
Qed.

Lemma block_entry blocks : forall j specs i x, blocks !! j = Some specs -> block_entries specs !! i = Some x ->
  entries_of blocks !! (length (entries_of (take j blocks)) + i)%nat = Some x.
Proof.
  intros j specs i x Hj Hi.
  assert (entries_of blocks = entries_of (take j blocks) ++ block_entries specs ++ entries_of (drop (S j) blocks)) as E
    by (rewrite <-(take_drop_middle blocks j specs Hj) at 1; apply entries_app).
  rewrite E, lookup_app_r by lia. replace (_ + i - _)%nat with i by lia. by apply lookup_app_l_Some.
Qed.

(** Two places in different blocks are different. *)
Lemma block_before blocks j j' specs i i' : blocks !! j = Some specs -> (i < length (block_entries specs))%nat -> (j < j')%nat ->
  (length (entries_of (take j blocks)) + i < length (entries_of (take j' blocks)) + i')%nat.
Proof.
  intros Hj Hi Hlt. assert (take (S j) blocks = take j blocks ++ [specs]) as E by by apply take_S_r.
  replace (take j' blocks) with (take (S j) blocks ++ take (j' - S j) (drop (S j) blocks)) by (rewrite take_take_drop; f_equal; lia).
  rewrite E, !entries_app, !length_app. change (entries_of [specs]) with (block_entries specs ++ []). rewrite app_nil_r. lia.
Qed.

Section Declared.
Variable ds : list decl.
Variable bs : list constBlock.

Abbreviation es := (entries_of (const_blocks ds)).

Hypothesis distinct : distinct_names es.
Hypothesis run : const_decls ∅ ds = Some bs.

(** A name that two blocks have a value for is declared in both. *)
Lemma one_block j j' b b' n : bs !! j = Some b -> bs !! j' = Some b' -> is_Some (cb_values b !! n) -> is_Some (cb_values b' !! n) -> j = j'.
Proof using distinct run.
  intros Hj Hj' Hv Hv'. destruct (values_named ds n _ _ _ _ run Hj Hv) as (Hb & specs & Hs & (x & -> & [i Hi]%list_elem_of_lookup)%list_elem_of_fmap).
  destruct (values_named ds _ _ _ _ _ run Hj' Hv') as (_ & specs' & Hs' & (x' & Hx & [i' Hi']%list_elem_of_lookup)%list_elem_of_fmap).
  pose proof (distinct _ _ _ _ (block_entry _ _ _ _ _ Hs Hi) (block_entry _ _ _ _ _ Hs' Hi') Hx Hb) as E.
  apply lookup_lt_Some in Hi, Hi'. destruct (Nat.lt_trichotomy j j') as [Hlt|[Heq|Hlt]]; [|done|].
  - pose proof (block_before _ _ _ _ _ i' Hs Hi Hlt). lia.
  - pose proof (block_before _ _ _ _ _ i Hs' Hi' Hlt). lia.
Qed.

(** The block that declares a constant lists it with its value, and no other block does. *)
Lemma declared_value j specs i x v : const_blocks ds !! j = Some specs -> block_entries specs !! i = Some x -> en_name x <> "_" ->
  go_value ∅ es (length (entries_of (take j (const_blocks ds))) + i) v ->
  exists b, bs !! j = Some b /\ en_name x ∈ cb_names b /\ cb_values b !! en_name x = Some v /\
    forall b', b' ∈ bs -> is_Some (cb_values b' !! en_name x) -> b' = b.
Proof using distinct run.
  intros Hj Hi Hb Hv.
  assert (known_ok ∅ es 0 ∅) as Hk by (split; [lia | done]).
  destruct (decls_ok ∅ es distinct ds 0 ∅ bs ltac:(done) Hk run) as [_ H]. destruct (H j specs i x v Hj Hi Hb Hv) as (b & Hbj & Hbv & Hbn).
  exists b. split_and!; [done..|]. intros b' [j' Hj']%list_elem_of_lookup Hv'. assert (j' = j) as -> by (eapply one_block; [done..|by eexists]). congruence.
Qed.
End Declared.

(** The table [out] has, under [s], Go's value of the constant with the full name of [s],
    for those that start with a prefix, and it has no other names. *)
Definition holds (ds : list decl) (prefix : string) (full : string -> string) (out : gmap string Z) : Prop :=
  let es := entries_of (const_blocks ds) in
  distinct_names es ->
  (forall k x s v, es !! k = Some x -> en_name x = full s -> String.prefix prefix (full s) = true -> full s <> "_" -> go_value ∅ es k v -> out !! s = Some v) /\
  (forall s v, out !! s = Some v -> exists x, x ∈ es /\ en_name x = full s /\ String.prefix prefix (full s) = true).

Lemma pick_holds sf bs prefix : consts sf ∅ = Some bs -> holds (sf_decls sf) prefix (fun s => s) (pick bs prefix).
Proof.
  intros E Hd. split.
  - intros k x s v Hk <- Hp Hb Hv. destruct (entry_block _ _ _ Hk) as (j & specs & i & Hj & Hi & ->).
    destruct (declared_value _ _ Hd E j specs i x v Hj Hi Hb Hv) as (b & Hbj & Hn & Hbv & Hone). eapply pick_value; [|done..]. by eapply list_elem_of_lookup_2.
  - intros s v (b & [j Hj]%list_elem_of_lookup & Hv & Hp)%pick_from. destruct (values_named (sf_decls sf) s _ _ _ _ E Hj) as (_ & specs & Hs & (x & -> & [i Hi]%list_elem_of_lookup)%list_elem_of_fmap); [by eexists|].
    exists x. split; [|done]. eapply list_elem_of_lookup_2, block_entry; done.
Qed.

Lemma pickTrim_holds sf bs prefix : consts sf ∅ = Some bs -> holds (sf_decls sf) prefix (fun s => prefix +:+ s) (pickTrim bs prefix).
Proof.
  intros E Hd. destruct (pick_holds sf bs prefix E Hd) as [H1 H2]. split.
  - intros k x s v Hk Hx Hp Hb Hv. rewrite pickTrim_lookup. by apply (H1 k x).
  - intros s v. rewrite pickTrim_lookup. apply H2.
Qed.

(** The table has the constants of the block that declares [name]. *)
Definition holds_block (ds : list decl) (name : string) (out : gmap string Z) : Prop :=
  let blocks := const_blocks ds in
  let es := entries_of blocks in
  distinct_names es -> forall j specs,
  let value i x v := block_entries specs !! i = Some x /\ en_name x <> "_" /\ go_value ∅ es (length (entries_of (take j blocks)) + i) v in
  blocks !! j = Some specs -> (exists i x v, value i x v /\ en_name x = name) -> forall i x v, value i x v -> out !! en_name x = Some v.

Lemma block_holds sf bs name : consts sf ∅ = Some bs -> holds_block (sf_decls sf) name (block_values bs name).
Proof.
  intros E Hd j specs value Hj (i0 & x0 & v0 & (Hi0 & Hb0 & Hv0) & <-) i x v (Hi & Hb & Hv).
  destruct (declared_value _ _ Hd E j specs i0 x0 v0 Hj Hi0 Hb0 Hv0) as (b & Hbj & Hn0 & Hbv0 & Hone0).
  destruct (declared_value _ _ Hd E j specs i x v Hj Hi Hb Hv) as (b' & Hbj' & Hn & Hbv & _). assert (b' = b) as -> by congruence.
  assert (blockWith bs (en_name x0) = Some b) as Hw.
  { unfold blockWith. destruct (list_find _ bs) as [[p a]|] eqn:F.
    - apply list_find_Some in F as (Hp & Ha & _). cbn. f_equal. apply Hone0; [by eapply list_elem_of_lookup_2 | done].
    - apply list_find_None in F. rewrite Forall_forall in F. destruct (F b); [by eapply list_elem_of_lookup_2 | by eexists]. }
  rewrite (block_values_lookup _ _ _ _ Hw Hn). by rewrite Hbv.
Qed.

(** ** A run that resolves a release *)

Section Resolved.
Variable h : host.
Variable f : fs.
Variable goroot : string.
Variable go_parse : string -> option (list decl).
Variable printer : srcFile -> nat -> string.
Variable sha256 : list Z -> list Z.

(** The declarations of a file of the tree. *)
Definition in_source (rel : string) (ds : list decl) : Prop :=
  exists text, f !! src_path goroot rel = Some text /\ go_parse (string_of_bytes text) = Some ds.

Lemma of_option_ok {A} n (o : option A) es x es' : of_option n o es = Ok (x, es') -> o = Some x /\ es' = es.
Proof. by destruct o; [intros [= -> ->]|]. Qed.

Lemma parse_ok rel es sf es' : parse f goroot go_parse rel es = Ok (sf, es') -> in_source rel (sf_decls sf) /\ es' = es.
Proof.
  intros E. unfold parse in E. rs_step E text es1. apply of_option_ok in E0 as [Ht ->]. rs_step E ds es2. apply of_option_ok in E0 as [Hd ->].
  injection E as <- <-. split; [|done]. unfold file_text in Ht. destruct (f !! src_path goroot rel) as [b|] eqn:Ef; [|done]. injection Ht as <-. by exists b.
Qed.

Lemma file_consts_ok rel es bs es' : file_consts f goroot go_parse rel es = Ok (bs, es') ->
  exists sf, in_source rel (sf_decls sf) /\ consts sf ∅ = Some bs /\ es' = es.
Proof. intros E. unfold file_consts in E. rs_step E sf es1. apply parse_ok in E0 as [Hs ->]. apply of_option_ok in E as [Hc ->]. by exists sf. Qed.

Lemma grows_parse rel : grows (parse f goroot go_parse rel).
Proof. unfold parse. grow. Qed.
Hint Resolve grows_parse : grows.

Lemma grows_file_consts rel : grows (file_consts f goroot go_parse rel).
Proof. unfold file_consts. grow. Qed.
Hint Resolve grows_file_consts : grows.

Lemma grows_funcSource file name : grows (funcSource f goroot go_parse file name).
Proof. unfold funcSource. grow. Qed.
Hint Resolve grows_funcSource : grows.

Lemma grows_unless b e : grows (unless b e).
Proof. unfold unless. grow. Qed.
Hint Resolve grows_unless : grows.

Lemma grows_check k : grows (check_key f goroot go_parse printer sha256 k).
Proof. unfold check_key, fingerprint, normalized. grow. Qed.
Hint Resolve grows_check : grows.

Lemma grows_checkReviewed : grows (checkReviewed f goroot go_parse printer sha256).
Proof. apply grows_bind; [apply grows_map; apply grows_check | intros ?; apply grows_ret]. Qed.

Lemma grows_object : grows (object_facts f goroot go_parse).
Proof. unfold object_facts, headerFormat, builtins, builtin_entry. grow. Qed.

Lemma grows_abi : grows (if exists_ h goroot "internal/abi/symtab.go" then new_abi f goroot go_parse else old_abi f goroot go_parse).
Proof. unfold new_abi, old_abi, flag_name_of. grow. Qed.

Lemma grows_arch : grows (arch_facts h f goroot go_parse).
Proof. unfold arch_facts, arch_entry, regs, find_reg, stackCopyAdjustsFP. grow. Qed.

Lemma grows_writer size a b c : grows (writerFacts f goroot go_parse size a b c).
Proof. unfold writerFacts, content_hash, align_model, type_prefixes. grow. Qed.

Lemma grows_dwarf : grows (dwarfFacts f goroot go_parse).
Proof. unfold dwarfFacts, func_die, text_addrx. grow. Qed.

Lemma grows_runtime sym : grows (runtime_ids f goroot go_parse sym).
Proof. unfold runtime_ids, func_id. grow. Qed.

Lemma grows_offsets : grows (gOffsets f goroot go_parse).
Proof. unfold gOffsets. grow. Qed.

Lemma grows_version : grows (version f goroot).
Proof. unfold version. grow. Qed.
Hint Resolve grows_checkReviewed grows_object grows_abi grows_arch grows_writer grows_dwarf grows_runtime grows_offsets grows_version : grows.

(** *** Tables *)

Lemma object_holds es o es' : object_facts f goroot go_parse es = Ok (o, es') ->
  exists ds, in_source "cmd/internal/goobj/objfile.go" ds /\ holds ds "ObjFlag" (fun s => "ObjFlag" +:+ s) (ob_ObjFlags o) /\
    holds ds "Aux" (fun s => "Aux" +:+ s) (ob_AuxTypes o).
Proof.
  intros E. unfold object_facts in E. rs_step E gf es1. apply parse_ok in E0 as [Hs ->]. rs_step E gb es2. apply of_option_ok in E0 as [Hc ->].
  rs_step E header es3. rs_step E bl es4. injection E as <- _. exists (sf_decls gf). split_and!; [done | by apply pickTrim_holds..].
Qed.

(** Where FUNCDATA and PCDATA numbers are declared. *)
Definition funcdata_file : string := if exists_ h goroot "internal/abi/symtab.go" then "internal/abi/symtab.go" else "cmd/internal/objabi/funcdata.go".

Lemma abi_holds es a es' : (if exists_ h goroot "internal/abi/symtab.go" then new_abi f goroot go_parse else old_abi f goroot go_parse) es = Ok (a, es') ->
  exists ds, in_source funcdata_file ds /\ holds ds "FUNCDATA_" (fun s => "FUNCDATA_" +:+ s) (af_funcdata a) /\
    holds ds "PCDATA_" (fun s => "PCDATA_" +:+ s) (af_pcdata a).
Proof.
  unfold funcdata_file. intros E. destruct (exists_ h goroot _).
  - unfold new_abi in E. rs_step E syms es1. apply file_consts_ok in E0 as (sf & Hs & Hc & ->). rs_step E stk es2. injection E as <- _.
    exists (sf_decls sf). split_and!; [done | by apply pickTrim_holds..].
  - unfold old_abi in E. rs_step E fd es1. apply file_consts_ok in E0 as (sf & Hs & Hc & ->). rs_step E syms es2. rs_step E fgs es3. rs_step E stk es4.
    rs_step E stc es5. rs_step E limit es6. injection E as <- _. exists (sf_decls sf). split_and!; [done | by apply pickTrim_holds..].
Qed.

Lemma grows_resolve : grows (resolve h f goroot go_parse printer sha256).
Proof.
  unfold resolve. do 11 (apply grows_bind; [solve [auto with grows] | intros ?]). case_match. apply grows_bind; auto with grows.
Qed.

(** What [resolve] is put together from. *)
Lemma resolve_parts es m es' : resolve h f goroot go_parse printer sha256 es = Ok (m, es') ->
  exists es1 es2 es3 o relocs kinds a, checkReviewed f goroot go_parse printer sha256 es = Ok ((), es1) /\
    object_facts f goroot go_parse es1 = Ok (o, es2) /\
    file_consts f goroot go_parse "cmd/internal/objabi/reloctype.go" es2 = Ok (relocs, es2) /\
    file_consts f goroot go_parse "cmd/internal/objabi/symkind.go" es2 = Ok (kinds, es2) /\
    (if exists_ h goroot "internal/abi/symtab.go" then new_abi f goroot go_parse else old_abi f goroot go_parse) es2 = Ok (a, es3) /\
    (exists l1 l2 l3, es2 = es1 ++ l1 /\ es3 = es2 ++ l2 /\ es' = es3 ++ l3) /\
    m_Object m = o /\ m_Relocs m = pick relocs "R_" /\ m_Kinds m = block_values kinds "Sxxx" /\
    ab_Funcdata (m_ABI m) = af_funcdata a /\ ab_Pcdata (m_ABI m) = af_pcdata a.
Proof.
  intros E. unfold resolve in E. rs_step E ver e1. unfold version in E0. rs_step E0 text e0. apply of_option_ok in E1 as [_ ->]. injection E0 as _ <-.
  rs_step E minor e1. apply of_option_ok in E0 as [_ ->]. rs_step E u e1. destruct u. rs_step E o e2. destruct (grows_ok _ _ _ _ grows_object E1) as [l1 ->].
  rs_step E relocs e3. destruct (file_consts_ok _ _ _ _ E2) as (_ & _ & _ & ->). rs_step E kinds e4. destruct (file_consts_ok _ _ _ _ E3) as (_ & _ & _ & ->).
  rs_step E a e5. destruct (grows_ok _ _ _ _ grows_abi E4) as [l2 ->]. match type of E with ?k _ = _ => assert (grows k) as G by grow end.
  destruct (grows_ok _ _ _ _ G E) as [l3 ->]. rs_step E g e6. rs_step E runtime e7. rs_step E arch e8. rs_step E wh e9. destruct wh as [w hashSrc]. rs_step E d e10. injection E as <- _.
  eexists e1, _, _, o, relocs, kinds, a. split_and!; try done. by exists l1, l2, l3.
Qed.


(** *** Reviewed functions *)

(** The function of a key is as it was when it was reviewed: the first 16 hexadecimal
    digits of the hash of its printed form are listed, or it is listed as absent. *)
Definition unchanged (key : string) : Prop :=
  exists file fn sf, cut_key key = (file, fn) /\ in_source file (sf_decls sf) /\
  match findFunc sf fn with
  | Some (pos, _) => String.substring 0 16 (hex_bytes (sha256 (bytes_of_string (printer sf pos)))) ∈ wanted key
  | None => "absent" ∈ wanted key
  end.

(** A hash has 32 bytes, and printed functions start with [func]. *)
Hypothesis sha256_size : forall b, length (sha256 b) = 32%nat.
Hypothesis printed_func : forall sf pos, String.prefix "func " (printer sf pos) = true.

Lemma hex_bytes_length b : String.length (hex_bytes b) = (2 * length b)%nat.
Proof using. induction b as [|x b IH]; [done|]. cbn [hex_bytes String.length length]. rewrite IH. lia. Qed.

Lemma substring_length n : forall s, (n <= String.length s)%nat -> String.length (String.substring 0 n s) = n.
Proof using. induction n as [|n IH]; intros [|c s] H; cbn in *; [done..|lia|]. rewrite IH by lia. done. Qed.

(** Every entry of the table is [absent] or 16 characters. *)
Definition entry_ok (w : string) : bool :=
  String.eqb w "absent" || ((String.length w =? 16)%nat && negb (String.prefix "absent" w)).

Lemma wanted_ok k w : w ∈ wanted k -> entry_ok w = true.
Proof using.
  assert (forallb (fun x => forallb entry_ok x.2) reviewed = true) as H by (vm_compute; reflexivity).
  unfold wanted. destruct (head _) as [[k' ws]|] eqn:E; cbn; [|by intros Hw%not_elem_of_nil]. intros Hw. rewrite forallb_forall in H.
  assert ((k', ws) ∈ reviewed) as Hin by (apply head_Some_elem_of, list_elem_of_filter in E as [_ E]; done).
  specialize (H _ (proj1 (list_elem_of_In _ _) Hin)). rewrite forallb_forall in H. apply H. by apply list_elem_of_In.
Qed.

(** A listed fingerprint that starts with the one computed is that one. *)
Lemma wanted_prefix k fp : fp = "absent" \/ String.length fp = 16%nat -> existsb (String.prefix fp) (wanted k) = true -> fp ∈ wanted k.
Proof using.
  intros Hfp (w & Hw%list_elem_of_In & [t ->]%prefix_split)%existsb_exists. pose proof (wanted_ok _ _ Hw) as Ho. unfold entry_ok in Ho.
  apply orb_true_iff in Ho as [E%String.eqb_eq|[Hl%Nat.eqb_eq Hn]%andb_true_iff].
  - destruct Hfp as [->|Hl]; [by rewrite <-E|]. apply (f_equal String.length) in E. rewrite string_length_app in E. cbn in E. lia.
  - destruct Hfp as [->|Hf]; [by rewrite prefix_app in Hn|]. rewrite string_length_app in Hl. destruct t; [|cbn in Hl; lia].
    by rewrite string_app_nil in Hw.
Qed.

Lemma check_unchanged k es' : check_key f goroot go_parse printer sha256 k [] = Ok ((), es') -> es' = [] -> unchanged k.
Proof using sha256_size printed_func.
  intros E ->. unfold check_key in E. rs_step E fp es1. assert (existsb (String.prefix fp) (wanted k) = true /\ es1 = []) as [Hx ->].
  { destruct (existsb _ _); injection E as E; [done|]. by destruct es1. }
  unfold fingerprint in E0. rs_step E0 n es1. injection E0 as <- ->. unfold normalized in E1. destruct (cut_key k) as [file fn] eqn:Ek.
  rs_step E1 sf es1. apply parse_ok in E0 as [Hs ->]. injection E1 as <-. exists file, fn, sf. split_and!; [done..|].
  destruct (findFunc sf fn) as [[pos end_]|]; [|by apply wanted_prefix; [left|]].
  assert (String.eqb (printer sf pos) "absent" = false) as En.
  { apply String.eqb_neq. intros Ep. pose proof (printed_func sf pos) as Hp. by rewrite Ep in Hp. }
  rewrite En in Hx. apply wanted_prefix; [|done]. right. apply substring_length. rewrite hex_bytes_length, sha256_size. lia.
Qed.

Lemma reviewed_unchanged m : resolve h f goroot go_parse printer sha256 [] = Ok (m, []) -> forall k, k ∈ reviewed.*1 -> unchanged k.
Proof using sha256_size printed_func.
  intros E k Hk. apply resolve_parts in E as (es1 & es2 & es3 & o & relocs & kinds & a & Ec & _ & _ & _ & _ & (l1 & l2 & l3 & -> & -> & Hl) & _).
  assert (es1 = []) as -> by (by destruct es1). unfold checkReviewed in Ec. rs_step Ec us e1. injection Ec as ->.
  assert (k ∈ reviewedKeys) as Hin by (unfold reviewedKeys; by rewrite merge_sort_Permutation).
  destruct (rs_map_clean _ _ grows_check _ Ec0 k Hin) as [[] Eu]. by eapply check_unchanged.
Qed.
End Resolved.

(** ** The command *)

Section Command.
Variable h : host.
Variable go_parse : string -> option (list decl).
Variable printer : srcFile -> nat -> string.
Variable sha256 : list Z -> list Z.
Variable marshal : Meta -> res string (list Z).
Variable unmarshal : list Z -> res string Meta.

Abbreviation main := (main h go_parse printer sha256 marshal unmarshal).
Abbreviation gen := (generate h go_parse printer sha256 marshal unmarshal).

Hypothesis sha256_size : forall b, length (sha256 b) = 32%nat.
Hypothesis printed_func : forall sf pos, String.prefix "func " (printer sf pos) = true.

(** The tree that is read and the world then: the flag, or what the go command says. *)
Definition tree_of (fl : gmap string string) (w : world) (goroot : string) (w1 : world) : Prop :=
  let d := default "" (fl !! "goroot") in
  (d <> "" /\ goroot = d /\ w1 = w) \/
  (d = "" /\ exists s, run_call h (mkCall "go" ["env"; "GOROOT"] (h_environ h)) w = (Ok s, w1) /\ goroot = TrimSpace s).

(** What stands in the file that a run with status 0 has written. *)
Record generated (fl : gmap string string) (goroot : string) (w1 w' : world) : Prop := {
  gn_meta : exists m b m', resolve h (wo_fs w1) goroot go_parse printer sha256 [] = Ok (m, []) /\ Encode marshal m = Ok b /\
    w' = mkWorld (<[default "" (fl !! "o") := b]> (wo_fs w1)) (wo_calls w1) /\
    unmarshal b = Ok m' /\ m_Schema m' = Schema /\ complete m';
  gn_unchanged : forall k, k ∈ reviewed.*1 -> unchanged (wo_fs w1) goroot go_parse printer sha256 k }.

Lemma Parse_complete b m : Parse unmarshal b = Ok m -> unmarshal b = Ok m /\ m_Schema m = Schema /\ complete m.
Proof.
  unfold Parse. destruct (unmarshal b) as [m'|e]; [|done]. cbn [mbind res_bind]. destruct (m_Schema m' =? Schema) eqn:S; [|done]. cbn [negb].
  destruct (check m') as [[]|e] eqn:C; [|done]. intros [= <-]. apply Z.eqb_eq in S. apply check_iff in C. done.
Qed.

(** A run of the part that resolves and writes. *)
Lemma generate_cases fl goroot w1 : is_set fl "keep-going" = false -> default "" (fl !! "o") <> "" ->
  (oc_status (gen fl goroot w1) = 0 /\ oc_stderr (gen fl goroot w1) = [] /\ generated fl goroot w1 (oc_world (gen fl goroot w1))) \/
  oc_status (gen fl goroot w1) <> 0 /\ oc_world (gen fl goroot w1) = w1.
Proof using sha256_size printed_func.
  intros Hk Ho. unfold generate. rewrite Hk. destruct (resolve _ _ _ _ _ _ _) as [[m errs]|n] eqn:Er; cbn.
  - rewrite andb_true_r. destruct (bool_decide (errs = [])) eqn:B; cbn [negb]; [|by right]. apply bool_decide_eq_true in B as ->.
    unfold encoded. destruct (Encode marshal m) as [b|e] eqn:Eb; cbn; [|by right].
    destruct (Parse unmarshal b) as [m'|e] eqn:Ep; cbn; [|by right]. rewrite (proj2 (String.eqb_neq _ _) Ho).
    destruct (WriteFile h _ b w1) as [[[]|e] w2] eqn:Ew; cbn.
    + left. split_and!; [done..|]. apply write_ok in Ew as ->. apply Parse_complete in Ep as (Hu & Hs & Hc). split; [by exists m, b, m'|].
      by apply reviewed_unchanged with (h := h) (m := m).
    + right. split; [done|]. revert Ew. unfold WriteFile. destruct (h_writable h _); [done | by intros [= _ <-]].
  - right. split; [|done]. pose proof (grows_resolve h (wo_fs w1) goroot go_parse printer sha256 []) as G. rewrite Er in G. lia.
Qed.

End Command.

(** ** A small release *)

(** The texts the generator looks for, at the end of every file of the tree. *)
Definition demo_body : string :=
  "fmt.Sprintf(" +:+ quoted_text "go object %s %s %s%s X:%s\n" +:+ ") notsha256.New() d.h[0]^0xFFFFFFFF " +:+
  has_prefix_call "name" ("gclocals" +:+ middot) +:+ " align = uint32(fn.Align) TrimInlineHash( " +:+
  has_prefix_call "s.Name" "type:" +:+ " " +:+ has_prefix_call "s.Name" "go:itab." +:+ " slices.SortFunc(s.R, relocByOffCmp) " +:+
  "writeUint32(uint32(a.StartLine)) int64(s.StartLine) type stack struct { lo uintptr hi uintptr } type g struct { // goroutine" +:+
  String newline "" +:+ " stack stack" +:+ String newline "" +:+ " stackguard0 uintptr " +:+ quoted_text "g" +:+ ", // a.k.a. R14 ParamIntRegNames: " +:+
  quoted_text "AX BX" +:+ " ParamFloatRegNames: " +:+ quoted_text "X0 X1" +:+ " TEXT runtime" +:+ middot +:+ "morestack_noctxt(SB) " +:+
  "if (goarch.ArchFamily == goarch.AMD64 || goarch.ArchFamily == goarch.ARM64) && frame.argp-frame.varp == 2*goarch.PtrSize {".

Definition padding : string := Nat.iter 60 (String " ") "".

Definition demo_text (rel : string) : string := rel +:+ String newline "" +:+ padding +:+ demo_body.

(** A function as its key names it, the [pos]-th of the reviewed ones. *)
Definition demo_func (pos : nat) (fn : string) : decl :=
  match after_prefix "(*" fn with
  | Some r =>
      match split_on ")" r with
      | [t; m] => FuncDecl (String.substring 1 100 m) [StarExpr (Ident t)] pos 5000
      | _ => FuncDecl fn [] pos 5000
      end
  | None => FuncDecl fn [] pos 5000
  end.

(** Constants numbered in a block. *)
Definition demo_block (names : list string) : decl :=
  GenDecl "const" (imap (fun i n => mkSpec [n] None (if (i =? 0)%nat then [Ident "iota"] else [])) names).

Definition demo_const (n : string) (e : expr) : decl := GenDecl "const" [mkSpec [n] None [e]].
Definition int_lit (s : string) : expr := BasicLit "INT" s.
Definition string_lit (s : string) : expr := BasicLit "STRING" (quoted_text s).

Definition demo_arch (name minlc : string) : decl :=
  GenDecl "var" [mkSpec [name] None
    [UnaryExpr "&" (CompositeLit [KeyValueExpr (Ident "PtrSize") (int_lit "8"); KeyValueExpr (Ident "MinLC") (int_lit minlc)])]].

Definition prefixed (p : string) (l : list string) : list string := (fun n => p +:+ n) <$> l.

Definition demo_tree : list (string * list decl) :=
  [("cmd/internal/goobj/objfile.go",
     [demo_const "Magic" (string_lit "\x00go120ld"); demo_block (prefixed "Blk" ["Autolib"; "PkgIdx"; "File"]);
      demo_block (prefixed "ObjFlag" ["Shared"; "NeedNameExpansion"; "FromAssembly"]);
      demo_block (prefixed "SymFlag" ["Dupok"; "Local"; "Typelink"; "Leaf"; "NoSplit"; "ReflectMethod"; "GoType"]);
      demo_block (prefixed "SymFlag" ["UsedInIface"; "Itab"; "Dict"]);
      demo_block (prefixed "Aux" ["Gotype"; "FuncInfo"; "Funcdata"; "DwarfInfo"; "DwarfLoc"; "DwarfRanges"; "DwarfLines"; "Pcsp"; "Pcfile"; "Pcline"; "Pcinline"; "Pcdata"]);
      demo_const "SymABIstatic" (UnaryExpr "-" (int_lit "1")); demo_const "HashSize" (int_lit "20"); demo_const "Hash64Size" (int_lit "8");
      GenDecl "const"
        [mkSpec ["PkgIdxNone"] None [BinaryExpr "-" (BinaryExpr "<<" (int_lit "1") (int_lit "31")) (BinaryExpr "+" (Ident "iota") (int_lit "1"))];
         mkSpec ["PkgIdxHashed64"] None []; mkSpec ["PkgIdxHashed"] None []; mkSpec ["PkgIdxBuiltin"] None []; mkSpec ["PkgIdxSelf"] None [];
         mkSpec ["PkgIdxSpecial"] None [Ident "PkgIdxSelf"]; mkSpec ["PkgIdxInvalid"] None [int_lit "0"]]]);
   ("cmd/internal/goobj/builtinlist.go",
     [GenDecl "var" [mkSpec ["builtins"] None [CompositeLit [CompositeLit [string_lit "runtime.newobject"; int_lit "1"]]]]]);
   ("cmd/internal/objabi/util.go", [demo_func 0 "HeaderString"]);
   ("cmd/internal/objabi/reloctype.go",
     [GenDecl "const"
       (mkSpec ["R_ADDR"] (Some (Ident "RelocType")) [BinaryExpr "+" (int_lit "1") (Ident "iota")] ::
        ((fun n => mkSpec [n] None []) <$> ["R_CALL"; "R_PCREL"; "R_CALLARM64"; "R_ADDRARM64"; "R_ARM64_GOTPCREL"; "R_ARM64_PCREL"; "R_ARM64_LDST8";
          "R_ARM64_LDST16"; "R_ARM64_LDST32"; "R_ARM64_LDST64"; "R_ARM64_LDST128"]))]);
   ("cmd/internal/objabi/symkind.go",
     [demo_block ["Sxxx"; "STEXT"; "SRODATA"; "SNOPTRDATA"; "SDATA"; "SBSS"; "SNOPTRBSS"; "SDWARFFCN"; "SDWARFLINES"]]);
   ("internal/abi/symtab.go",
     [demo_block (prefixed "FUNCDATA_" ["ArgsPointerMaps"; "LocalsPointerMaps"; "ArgInfo"]); demo_block (prefixed "PCDATA_" ["UnsafePoint"; "StackMapIndex"]);
      GenDecl "const" [mkSpec ["FuncFlagTopFrame"] None [BinaryExpr "<<" (int_lit "1") (Ident "iota")]; mkSpec ["FuncFlagSPWrite"] None []; mkSpec ["FuncFlagAsm"] None []];
      demo_block (prefixed "FuncID" ["Normal"; "_goexit"; "Wrapper"])]);
   ("internal/abi/stack.go", [demo_const "StackNosplitBase" (int_lit "800"); demo_const "StackSmall" (int_lit "128"); demo_const "StackBig" (int_lit "4096")]);
   ("cmd/internal/objabi/funcid.go",
     [GenDecl "var" [mkSpec ["funcIDs"] None [CompositeLit [KeyValueExpr (string_lit "goexit") (SelectorExpr (Ident "abi") "FuncID_goexit")]]]]);
   ("cmd/internal/sys/arch.go", [demo_arch "ArchAMD64" "1"; demo_arch "ArchARM64" "4"]);
   ("cmd/internal/notsha256/sha256.go", [demo_func 0 "(*digest).checkSum"]);
   ("runtime/stack.go", [demo_func 0 "adjustframe"]);
   ("cmd/internal/dwarf/dwarf.go", [demo_block (prefixed "DW_ABRV_" ["NULL"; "COMPUNIT"; "FUNCTION"])])].

(** The reviewed functions of a file, but those that may be absent. *)
Definition demo_reviewed (rel : string) : list decl :=
  omap (fun x : nat * (string * list string) =>
    let '(file, fn) := cut_key x.2.1 in
    if String.eqb file rel && negb (existsb (String.eqb "absent") x.2.2) then Some (demo_func x.1 fn) else None) (imap pair reviewed).

Definition demo_decls (rel : string) : list decl :=
  default [] (snd <$> head (filter (fun x => x.1 = rel) demo_tree)) ++ demo_reviewed rel.

(** Printed functions are their fingerprints, which the hash takes back. *)
Definition demo_printer (sf : srcFile) (pos : nat) : string := "func " +:+ default "" ((reviewed !! pos) ≫= (fun x => head x.2)).

Definition hex_value (c : ascii) : Z := let n := byte_of_ascii c in if n <? 58 then n - 48 else n - 87.
Fixpoint unhex (s : string) : list Z :=
  match s with String a (String b s) => 16 * hex_value a + hex_value b :: unhex s | _ => [] end.

Definition demo_sha256 (b : list Z) : list Z := take 32 (unhex (string_of_bytes (drop 5 b)) ++ replicate 32 0).

Definition demo_files : list string :=
  remove_dups ((fst <$> demo_tree) ++ ((fun k => (cut_key k).1) <$> reviewed.*1) ++
    ["runtime/runtime2.go"; "cmd/compile/internal/ssa/_gen/AMD64Ops.go"; "cmd/compile/internal/ssa/_gen/ARM64Ops.go"; "runtime/asm_amd64.s"; "runtime/asm_arm64.s"]).

Definition demo_fs : fs :=
  list_to_map (("/go/VERSION", bytes_of_string ("go1.24.4" +:+ String newline "time 2025-05-29")) ::
    ((fun rel => (src_path "/go" rel, bytes_of_string (demo_text rel))) <$> demo_files)).

Definition demo_go_parse (text : string) : option (list decl) := demo_decls <$> head (split_on newline text).

Definition demo_gohost : host := demo_host (fun _ => true).

Definition demo_resolve : res Z (Meta * list string) := resolve demo_gohost demo_fs "/go" demo_go_parse demo_printer demo_sha256 [].
Definition demo_meta : Meta := match demo_resolve with Ok (m, _) => m | Fail _ => demo_facts end.

Lemma demo_resolved : demo_resolve = Ok (demo_meta, []).
Proof.
  assert (option_map snd (match demo_resolve with Ok x => Some x | Fail _ => None end) = Some []) as H by (vm_compute; reflexivity).
  unfold demo_meta. destruct demo_resolve as [[m es]|n]; [|done]. injection H as ->. done.
Qed.

Definition demo_relocs : list decl := demo_decls "cmd/internal/objabi/reloctype.go".

Lemma demo_relocs_distinct : distinct_names (entries_of (const_blocks demo_relocs)).
Proof. apply nodup_distinct. apply (bool_decide_unpack _). vm_compute. exact I. Qed.


Lemma ok_inj {E A} (x y : A) : (Ok x : res E A) = Ok y -> x = y.
Proof. by intros [= ->]. Qed.

Definition demo_run (args : list string) : outcome :=
  main demo_gohost demo_go_parse demo_printer demo_sha256 (fun _ => Ok [123; 125]) (fun _ => Ok demo_meta) args (mkWorld demo_fs []).

