(* ===== verification/Pipeline.v ===== *)
(** * The compile pipeline

    Models src/internal/pipeline/pipeline.go: one C file through clang, the IR passes, the
    lowering, goc-llc, llvm-mc and the converter.  The tools are processes of the host;
    the lowering and the converter are the definitions of the other files, applied to
    the files of the work directory.  What is printed is left out. *)

From Stdlib Require Import ZArith Lia Ascii.
From stdpp Require Import base list strings gmap.
From S2P Require Import Prelude Text Regex RegexLines Codec Format Elf World Layout Toolchain GoExtern GoAbi Rewrite Convert ObjWrite Assemble Meta ConvertMain.

Record Options := mkOptions {
  o_Src : string; o_Out : string; o_OptLevel : Z; o_DefaultPtrColor : string; o_FastStackAlloca : bool; o_ColorReport : bool;
  o_Arch : string; o_KeepTmp : string; o_OptExtra : list string; o_LLCExtra : list string; o_Pkg : string; o_IRRenames : string;
  o_LibcallImpl : string; o_ABI0 : bool; o_ClangArgs : list string }.

(** The stem of an object path. *)
Definition Side (out : string) : string :=
  if HasSuffix out ".goobj" then TrimSuffix out ".goobj" else if HasSuffix out ".o" then TrimSuffix out ".o" else out.

(** [b.o] of [Build], and the output path of [run]. *)
Definition defaults (o : Options) : Options :=
  mkOptions (o_Src o) (o_Out o) (o_OptLevel o) (o_DefaultPtrColor o) (o_FastStackAlloca o) (o_ColorReport o)
    (if nonempty (o_Arch o) then o_Arch o else "amd64") (o_KeepTmp o) (o_OptExtra o) (o_LLCExtra o)
    (if nonempty (o_Pkg o) then o_Pkg o else "main") (o_IRRenames o) (o_LibcallImpl o) (o_ABI0 o) (o_ClangArgs o).

Definition out_of (o : Options) : string :=
  if nonempty (o_Out o) then o_Out o
  else if HasSuffix (o_Src o) ".c" then TrimSuffix (o_Src o) ".c" +:+ ".goobj"
  else if HasSuffix (o_Src o) ".goc" then TrimSuffix (o_Src o) ".goc" +:+ ".goobj"
  else o_Src o +:+ ".goobj".

Definition with_out (o : Options) : Options :=
  mkOptions (o_Src o) (out_of o) (o_OptLevel o) (o_DefaultPtrColor o) (o_FastStackAlloca o) (o_ColorReport o) (o_Arch o) (o_KeepTmp o)
    (o_OptExtra o) (o_LLCExtra o) (o_Pkg o) (o_IRRenames o) (o_LibcallImpl o) (o_ABI0 o) (o_ClangArgs o).

(** The options that a build works with. *)
Definition effective (o : Options) : Options := with_out (defaults o).

Definition posix_space (c : ascii) : bool := code_in 9 13 c || code_in 32 32 c.
Definition amd64Host : regex := Alt (cats [lit "movq"; many1 posix_space; lit "%%fs:-8"]) (lit (quoted_text "syscall")).
Definition magicRE : regex := words ["28C0DE42"; "0x28c0de42"; "683728450"].

Definition olevel (o : Options) : string := dec (o_OptLevel o).

(** ** Command lines *)

Definition clang_args (h : host) (t : Tools) (o : Options) (out : string) : list string :=
  ["-mno-red-zone"; "-fno-stack-protector"; "-fno-asynchronous-unwind-tables"; "-I"; t_Include t; "-emit-llvm"; "-S"; "-O" +:+ olevel o] ++
  [if o_ColorReport o then "-g" else "-gline-tables-only"] ++
  (if o_OptLevel o =? 0 then ["-Xclang"; "-disable-O0-optnone"]
   else ["-fwrapv"; "-fno-strict-aliasing"; "-fno-omit-frame-pointer"; "-mno-omit-leaf-frame-pointer"; "-fno-optimize-sibling-calls";
         "-Xclang"; "-disable-llvm-passes"]) ++
  (if String.eqb (o_Arch o) "arm64" then
     ["-target"; "aarch64-unknown-linux-gnu"; "-ffixed-x28"; "-fno-pic"] ++
     (if h_isDir h "/usr/aarch64-linux-gnu/include" then ["-isystem"; "/usr/aarch64-linux-gnu/include"] else [])
   else []) ++
  o_ClangArgs o ++ ["-o"; out; o_Src o].

Definition llcArgs (optLevel arch : string) : list string :=
  if String.eqb arch "arm64" then
    ["-O" +:+ optLevel; "-relocation-model=static"; "-mtriple=aarch64-unknown-linux-gnu"; "-mattr=+reserve-x28";
     "-aarch64-enable-compress-jump-tables=false"; "-frame-pointer=all"; "-enable-shrink-wrap=false"; "-disable-tail-calls";
     "-enable-tail-merge=false"; "-tail-dup-pred-size=1000"; "-tail-dup-succ-size=1000"]
  else
    ["-O" +:+ optLevel; "-relocation-model=pic"; "-march=x86-64"; "-frame-pointer=all"; "-enable-shrink-wrap=false"; "-disable-tail-calls";
     "-no-x86-call-frame-opt"; "-enable-tail-merge=false"; "-tail-dup-pred-size=1000"; "-tail-dup-succ-size=1000"].

Definition opt_args (t : Tools) (passes : string) (extra : list string) (inp out : string) : list string :=
  ["-load-pass-plugin=" +:+ t_Passes t; "-passes=" +:+ passes] ++ extra ++ ["-S"; inp; "-o"; out].

(** [strings.ReplaceAll(s, sub, "")]; [skip] characters are still to be dropped. *)
Fixpoint remove_go (sub : string) (skip : nat) (s : string) : string :=
  match s with
  | EmptyString => ""
  | String c s' =>
      match skip with
      | S skip => remove_go sub skip s'
      | O => if String.prefix sub s then remove_go sub (String.length sub - 1) s' else String c (remove_go sub 0 s')
      end
  end.
Definition remove_all (sub s : string) : string := remove_go sub 0 s.

(** [strings.TrimRight(s, "\n")] *)
Fixpoint trim_newlines (s : string) : string :=
  match s with
  | EmptyString => ""
  | String c s => match trim_newlines s with "" => if Ascii.eqb c newline then "" else String c "" | t => String c t end
  end.

(** The textual pipeline of [default<On>], without the passes that would change the
    signatures of internal functions. *)
Definition inline_pipeline (out : string) : string :=
  remove_all ",globalopt" (remove_all ",argpromotion" (trim_newlines out)) +:+ ",function(goc-name-blocks)".

Section Build.
Variable h : host.
Variable t : Tools.

(** The converter and encoding/json: a command line to a status and a world; the name of
    the ABI profile; the side car of the lowering. *)
Variable conv_main : list string -> world -> Z * list msg * world.
Variable conv_profile : string -> io string.
Variable goabi_json : goABIResult -> list Z.

Definition env : list string := Env h t (h_environ h).

Definition tool (bin : string) (args : list string) : io () :=
  _ ← wrap_err (fun e => Base bin +:+ ": " +:+ e) (run_call h (mkCall bin args env)); mret ().

Definition opt_pass (passes : string) (extra : list string) (inp out : string) : io () := tool (t_Opt t) (opt_args t passes extra inp out).

Definition read_text (p : string) : io string := b ← ReadFile h p; mret (string_of_bytes b).
Definition write_text (p s : string) : io () := WriteFile h p (bytes_of_string s).

(** A file rewritten in place by a function on its text. *)
Definition rewrite_file (p : string) (f : string -> res string string) : io () := s ← read_text p; s ← lift (f s); write_text p s.

(** ** The front end *)

Section Work.
Variable o : Options.
Variable tmp : string.

Definition path (name : string) : string := path_join [tmp; name].

(** Clang, the color analysis and the inline bodies: the text of [a.gate.ll]. *)
Definition front_gate : io string :=
  _ ← wrap_err (fun _ => "Clang Sema/frontend failed for " +:+ o_Src o) (tool (t_Clang t) (clang_args h t o (path "a.ll")));
  _ ← wrap_err (fun _ => "pointer-color/escape analysis failed for " +:+ o_Src o)
        (opt_pass (if o_ColorReport o then "print<goc-color>,goc-color-escape" else "goc-color-escape")
           (if nonempty (o_DefaultPtrColor o) then ["-default-ptr-color=" +:+ o_DefaultPtrColor o] else []) (path "a.ll") (path "a.color.ll"));
  body ← (if o_ColorReport o then
            _ ← wrap_err (fun _ => "failed to strip debug info after color report for " +:+ o_Src o)
                  (tool (t_Opt t) ["--strip-debug"; "-S"; path "a.color.ll"; "-o"; path "a.color.nodbg.ll"]);
            mret (path "a.color.nodbg.ll")
          else mret (path "a.color.ll"));
  _ ← opt_pass "goc-uptr-inline" (if o_FastStackAlloca o then ["-goc-fast-stack-alloca"] else []) body (path "a.gate.ll");
  mret (path "a.gate.ll").

(** [-O1] and above: inlining, then the stack maps. *)
Definition front_optimize (body : string) : io string :=
  out ← wrap_err (fun e => "opt -print-pipeline-passes: " +:+ e)
          (run_call h (mkCall (t_Opt t) ["-passes=default<O" +:+ olevel o +:+ ">"; "-print-pipeline-passes"; "-disable-output"; "/dev/null"] env));
  _ ← opt_pass (inline_pipeline out) (o_OptExtra o) body (path "a.opt.ll");
  _ ← opt_pass "goc-stackmap" [] (path "a.opt.ll") (path "a.sm.ll");
  _ ← opt_pass "goc-reanchor" [] (path "a.sm.ll") (path "a.reanchor.ll");
  mret (path "a.reanchor.ll").

(** The IR to lower, and whether its stack maps are there. *)
Definition frontend : io (string * bool) :=
  body ← front_gate;
  if o_OptLevel o =? 0 then mret (body, false) else body ← front_optimize body; mret (body, true).

(** ** The back end *)

Definition WriteGoABI (inLL outLL outS outJSON outTables arch : string) : io () :=
  text ← read_text inLL;
  r ← lift (match runGoABI text arch true with Ok r => Ok r | Fail e => Fail (reason_text e) end);
  _ ← write_text outTables (gr_wrappers r);
  _ ← write_text outLL (gr_outLL r);
  _ ← write_text outS (gr_asm r);
  WriteFile h outJSON (goabi_json r).

(** [js, _ := os.ReadFile(p)] *)
Definition contents (p : string) : io (list Z) := fun w => (Ok (default [] (wo_fs w !! p)), w).

(** The lowered IR: its path, and the ABI of the C functions' symbols. *)
Definition lower_ir (inp : string) (prepared : bool) : io (string * Z * bool) :=
  let ll := path "body.ll" in
  _ ← copyFile h inp ll;
  _ ← rewrite_file ll (fun s => Ok (FixIR s (o_Arch o)));
  src ← read_text ll;
  let magic := is_match magicRE src in
  _ ← (if nonempty (o_IRRenames o) then rewrite_file ll (fun s => RenameIR s (o_IRRenames o)) else mret ());
  _ ← WriteGoABI ll (path "body.impl.ll") (path "thunks.s") (path "goabi.json") (path "thunks.goc.s") (o_Arch o);
  _ ← copyFile h (path "body.impl.ll") ll;
  js ← contents (path "goabi.json");
  let symABI := if o_ABI0 o || has_bytes (bytes_of_string (quoted_text "name")) js then 0 else 1 in
  if prepared then mret (ll, symABI, magic)
  else
    _ ← opt_pass "goc-stackmap" [] ll (path "body.sm.ll");
    sm ← contents (path "body.sm.ll");
    match sm with
    | [] => fail "empty stackmap IR"
    | _ => mret (path "body.sm.ll", symABI, magic)
    end.

Definition triple : string := if String.eqb (o_Arch o) "arm64" then "aarch64-unknown-linux-gnu" else "x86_64-unknown-linux-gnu".

(** goc-llc and llvm-mc: the assembly of the code, the thunks and the tables of both in
    one file; the path of the object. *)
Definition gen_object (ll : string) (symABI : Z) : io string :=
  profile ← conv_profile (o_Arch o);
  _ ← tool (t_LLC t) (llcArgs (olevel o) (o_Arch o) ++ o_LLCExtra o ++
        ["-function-sections"; "-goc-sym-abi=" +:+ dec symABI; "-goc-profile=" +:+ profile] ++
        ["-goc-tables"; path "body.goc.s"; "-filetype=asm"; "-o"; path "body.s"; ll]);
  _ ← (if String.eqb (o_Arch o) "arm64" then mret () else rewrite_file (path "body.s") AlignASM);
  a ← ReadFile h (path "body.s");
  b ← ReadFile h (path "thunks.s");
  c ← ReadFile h (path "body.goc.s");
  d ← ReadFile h (path "thunks.goc.s");
  _ ← WriteFile h (path "body.thunks.s") (a ++ b ++ c ++ d);
  _ ← tool (t_MC t) ["-filetype=obj"; "-triple=" +:+ triple; "-o"; path "body.llc.o"; path "body.thunks.s"];
  mret (path "body.llc.o").

(** The arguments of the converter. *)
Definition conv_args (elf : string) : list string :=
  ["-in"; elf; "-o"; o_Out o; "-p"; o_Pkg o; "-symabis"; Side (o_Out o) +:+ ".symabis"; "-goarch"; o_Arch o] ++
  (if nonempty (o_LibcallImpl o) then ["-libcall-impl"; o_LibcallImpl o] else []).

Definition run_convert (elf : string) : io () := fun w =>
  let '(rc, _, w) := conv_main (conv_args elf) w in if rc =? 0 then (Ok (), w) else (Fail ("convert " +:+ elf +:+ " failed"), w).

(** The converter, the check for the sentinel, and the copies beside the object. *)
Definition finish (elf ll : string) (magic : bool) : io () :=
  _ ← run_convert elf;
  _ ← (if magic then b ← ReadFile h (o_Out o); lift (ObjectHasMagic b) else mret ());
  _ ← copyFile h elf (Side (o_Out o) +:+ ".gocobj");
  copyFile h ll (Side (o_Out o) +:+ ".ll").

Definition backend (inp : string) (prepared : bool) : io () :=
  '(ll, symABI, magic) ← lower_ir inp prepared;
  elf ← gen_object ll symABI;
  finish elf ll magic.

(** ** One compile in a work directory *)

(** The name found in a file; a file that cannot be read has none. *)
Definition first_name (p : string) : io string := fun w => (Ok (from_option (fun b => FirstFnName (string_of_bytes b)) "" (wo_fs w !! p)), w).

Definition compile : io () :=
  '(body, prepared) ← frontend;
  name ← first_name body;
  name ← (if nonempty name then mret name else first_name (path "a.ll"));
  if negb (nonempty name) then fail ("no defined function in " +:+ o_Src o +:+ "; refusing a non-goobj LLVM object")
  else wrap_err (fun e => e +:+ String newline "goc build: real-body lower failed; no object emitted") (backend body prepared).
End Work.

(** A work directory: the one that is kept, or a temporary one that is removed. *)
Definition in_work_dir (o : Options) : io () :=
  if nonempty (o_KeepTmp o) then
    if h_mkdir h (o_KeepTmp o) then compile o (o_KeepTmp o) else fail (h_noent h (o_KeepTmp o))
  else d ← lift (h_tmp h "goc-build"); cleanup d (compile o d).

(** An amd64 host is refused on arm64. *)
Definition check_source (o : Options) : io () :=
  if String.eqb (o_Arch o) "arm64" then
    src ← read_text (o_Src o);
    if is_match amd64Host src then fail (o_Src o +:+ " is a linux/amd64 host (movq %%fs:-8 or syscall) and is not ported to arm64") else mret ()
  else mret ().

(** [run] *)
Definition run_build (o : Options) : io () :=
  if negb (is_one_of (o_Arch o) ["amd64"; "arm64"]) then fail ("arch " +:+ o_Arch o +:+ " (want amd64 or arm64)")
  else if (o_OptLevel o <? 0) || (3 <? o_OptLevel o) then fail ("-O" +:+ olevel o +:+ ": want 0, 1, 2 or 3")
  else _ ← check_source o; in_work_dir (with_out o).

Definition Build (o : Options) : io () := run_build (defaults o).
End Build.

(** ** What the pipeline asks of the converter

    [mine p]: the go command does not touch the path, and it is no temporary or cached
    file.
    [made o input obj]: the object is what a conversion makes of the input. *)
Class Converter (mine : string -> Prop) (conv_main : list string -> world -> Z * list msg * world) (conv_profile : string -> io string)
    (made : Options -> list Z -> list Z -> Prop) : Prop := {
  conv_calls : forall args w, exists cs, wo_calls (snd (conv_main args w)) = wo_calls w ++ cs /\ Forall (fun c => cl_bin c = "go") cs;
  conv_profile_calls : forall arch w, exists cs, wo_calls (snd (conv_profile arch w)) = wo_calls w ++ cs /\ Forall (fun c => cl_bin c = "go") cs;
  conv_profile_keeps : forall arch p v, mine p -> keeps (file_is p v) (conv_profile arch);
  conv_keeps : forall o elf p w, mine p -> p <> o_Out o -> p <> Side (o_Out o) +:+ ".symabis" ->
    wo_fs (snd (conv_main (conv_args o elf) w)) !! p = wo_fs w !! p;
  conv_makes : forall o elf w ms w', mine elf -> conv_main (conv_args o elf) w = (0, ms, w') ->
    exists input obj, wo_fs w !! elf = Some input /\ made o input obj /\ wo_fs w' !! o_Out o = Some obj;
  conv_fails : forall o elf w rc ms w', mine elf -> mine (o_Out o) -> conv_main (conv_args o elf) w = (rc, ms, w') -> rc <> 0 ->
    wo_fs w' !! o_Out o = wo_fs w !! o_Out o \/ wo_fs w' !! o_Out o = Some [] \/ exists input obj, made o input obj /\ wo_fs w' !! o_Out o = Some obj }.

(** No process touches the path. *)
Definition untouched (h : host) (p : string) : Prop := forall c f, snd (h_exec h c f) !! p = f !! p.

Section Proofs.
Variable h : host.
Variable t : Tools.
Variable mine : string -> Prop.
Variable conv_main : list string -> world -> Z * list msg * world.
Variable conv_profile : string -> io string.
Variable goabi_json : goABIResult -> list Z.
Variable made : Options -> list Z -> list Z -> Prop.
Context {CV : Converter mine conv_main conv_profile made}.

(** *** What the steps before the converter leave alone *)

Section Outside.
Variables (o : Options) (d p : string) (v : option (list Z)).
Hypothesis Hm : mine p.
Hypothesis Hu : untouched h p.
Hypothesis Hd : forall name, plain_name name = true -> p <> path_join [d; name].

Lemma keeps_tool bin args : keeps (file_is p v) (tool h t bin args).
Proof using Hu. apply keeps_bind; [apply keeps_wrap, keeps_call; intros f; apply Hu | auto with io]. Qed.

Lemma keeps_rewrite name f : plain_name name = true -> keeps (file_is p v) (rewrite_file h (path d name) f).
Proof using Hd. intros Hn. apply keeps_bind; [apply keeps_bind; auto with io|]. intros s. apply keeps_bind; [auto with io|]. intros s'. by apply keeps_write, Hd. Qed.

Lemma keeps_copy src name : plain_name name = true -> keeps (file_is p v) (copyFile h src (path d name)).
Proof using Hd. intros Hn. apply keeps_bind; [auto with io|]. intros b. by apply keeps_write, Hd. Qed.

Lemma keeps_frontend : keeps (file_is p v) (frontend h t o d).
Proof using Hu.
  pose proof keeps_tool as Ht. unfold frontend. apply keeps_bind.
  - unfold front_gate. apply keeps_bind; [by apply keeps_wrap|]. intros _. apply keeps_bind; [apply keeps_wrap, Ht|]. intros _.
    apply keeps_bind; [|intros b; apply keeps_bind; [apply Ht | auto with io]].
    apply keeps_if; [apply keeps_bind; [by apply keeps_wrap|]|]; auto with io.
  - intros b. apply keeps_if; [auto with io|]. apply keeps_bind; [|auto with io]. unfold front_optimize.
    apply keeps_bind; [apply keeps_wrap, keeps_call; intros f; apply Hu|]. intros out.
    apply keeps_bind; [apply Ht|]. intros _. apply keeps_bind; [apply Ht|]. intros _. apply keeps_bind; [apply Ht | auto with io].
Qed.

Lemma keeps_lower inp prepared : keeps (file_is p v) (lower_ir h t goabi_json o d inp prepared).
Proof using Hd Hu.
  unfold lower_ir. apply keeps_bind; [by apply keeps_copy|]. intros _. apply keeps_bind; [by apply keeps_rewrite|]. intros _.
  apply keeps_bind; [apply keeps_bind; auto with io|]. intros src. apply keeps_bind; [apply keeps_if; [by apply keeps_rewrite | auto with io]|]. intros _.
  apply keeps_bind.
  { unfold WriteGoABI, write_text. apply keeps_bind; [apply keeps_bind; auto with io|]. intros text. apply keeps_bind; [auto with io|]. intros r.
    repeat (apply keeps_bind; [by apply keeps_write, Hd | intros _]). by apply keeps_write, Hd. }
  intros _. apply keeps_bind; [by apply keeps_copy|]. intros _. apply keeps_bind; [by intros w Hw|]. intros js. apply keeps_if; [auto with io|].
  apply keeps_bind; [apply keeps_tool|]. intros _. apply keeps_bind; [by intros w Hw|]. intros [|b sm]; auto with io.
Qed.

Lemma keeps_gen ll symABI : keeps (file_is p v) (gen_object h t conv_profile o d ll symABI).
Proof using Hm Hd Hu CV.
  unfold gen_object. apply keeps_bind; [by apply conv_profile_keeps|]. intros profile. apply keeps_bind; [apply keeps_tool|]. intros _.
  apply keeps_bind; [apply keeps_if; [auto with io | by apply keeps_rewrite]|]. intros _.
  do 4 (apply keeps_bind; [auto with io | intros ?]). apply keeps_bind; [by apply keeps_write, Hd|]. intros _. apply keeps_bind; [apply keeps_tool | auto with io].
Qed.
End Outside.

(** *** The last steps *)

(** What a failed build leaves at the object's path. *)
Definition no_part (o : Options) (v : option (list Z)) (w : world) : Prop :=
  file_is (o_Out o) v w \/ file_is (o_Out o) (Some []) w \/ exists input obj, made o input obj /\ file_is (o_Out o) (Some obj) w.

Lemma run_convert_case o elf w r w1 : run_convert conv_main o elf w = (r, w1) ->
  exists rc ms, conv_main (conv_args o elf) w = (rc, ms, w1) /\ ((rc = 0 /\ r = Ok ()) \/ (rc <> 0 /\ exists e, r = Fail e)).
Proof using.
  unfold run_convert. destruct (conv_main (conv_args o elf) w) as [[rc ms] w2]. destruct (Z.eqb_spec rc 0) as [->|Hn]; intros [= <- <-].
  - exists 0, ms. split; [done|]. by left.
  - exists rc, ms. split; [done|]. right. split; [done|]. by eexists.
Qed.

Definition side_files (o : Options) : list string := [Side (o_Out o) +:+ ".symabis"; Side (o_Out o) +:+ ".gocobj"; Side (o_Out o) +:+ ".ll"].

Lemma Side_prefix out : exists s, out = Side out +:+ s /\ s ∈ [".goobj"; ".o"; ""].
Proof using.
  unfold Side. destruct (HasSuffix out ".goobj") eqn:E1; [exists ".goobj"; split; [by apply TrimSuffix_app | by left]|].
  destruct (HasSuffix out ".o") eqn:E2; [exists ".o"; split; [by apply TrimSuffix_app | by right; left]|].
  exists "". split; [by rewrite string_app_nil | by right; right; left].
Qed.

Lemma side_distinct o : o_Out o ∉ side_files o /\ NoDup (side_files o).
Proof using.
  unfold side_files. destruct (Side_prefix (o_Out o)) as (s & E & Hs). split.
  - intros H. rewrite E in H at 1. set (stem := Side (o_Out o)) in *. clearbody stem.
    repeat (apply elem_of_cons in Hs as [->|Hs]; [repeat (apply elem_of_cons in H as [H%string_app_inj|H]; [done|]); by apply not_elem_of_nil in H|]).
    by apply not_elem_of_nil in Hs.
  - set (stem := Side (o_Out o)). clearbody stem.
    repeat (apply NoDup_cons; split; [intros H; repeat (apply elem_of_cons in H as [H%string_app_inj|H]; [done|]); by apply not_elem_of_nil in H|]).
    apply NoDup_nil_2.
Qed.

Lemma write_is p b w w1 : WriteFile h p b w = (Ok (), w1) -> file_is p (Some b) w1 /\ forall q v, q <> p -> file_is q v w -> file_is q v w1.
Proof using.
  intros ->%write_ok. unfold file_is. cbn. split; [apply lookup_insert_eq|]. intros q v Hq Hw. by rewrite lookup_insert_ne.
Qed.

Lemma copy_is src dst w w1 : copyFile h src dst w = (Ok (), w1) -> exists b, file_is src (Some b) w /\ file_is dst (Some b) w1 /\
  forall q v, q <> dst -> file_is q v w -> file_is q v w1.
Proof using. unfold copyFile. intros E. io_step E b w2. apply read_ok in E0 as [Hb ->]. exists b. split; [done|]. by apply write_is in E. Qed.

(** The files that a build leaves: the object, which is made of the side [.gocobj], and
    the IR that goc-llc compiled. *)
Definition built (o : Options) (w : world) : Prop := exists input obj ir,
  file_is (o_Out o) (Some obj) w /\ file_is (Side (o_Out o) +:+ ".gocobj") (Some input) w /\ file_is (Side (o_Out o) +:+ ".ll") (Some ir) w /\ made o input obj.

Lemma finish_ok o elf ll magic w w1 : mine elf -> elf ∉ o_Out o :: side_files o -> finish h conv_main o elf ll magic w = (Ok (), w1) -> built o w1.
Proof using CV.
  intros Hm Hn E. unfold finish in E. io_step E u w2. destruct u. apply run_convert_case in E0 as (rc & ms & Ec & [[-> _]|[_ [e ?]]]); [|done].
  destruct (conv_makes o elf w ms w2 Hm Ec) as (input & obj & Hin & Hmade & Hout).
  assert (file_is elf (Some input) w2) as Hin2.
  { unfold file_is. rewrite <-Hin. replace w2 with (snd (conv_main (conv_args o elf) w)) by (by rewrite Ec). apply conv_keeps; [done|..]; intros ->; apply Hn; [by left | by right; left]. }
  io_step E u w3. assert (w3 = w2) as ->.
  { destruct magic; [|by injection E0]. apply io_bind_ok in E0 as (b & w4 & [_ ->]%read_ok & [_ ->]%lift_ok). done. }
  clear E0 u. io_step E u w3. destruct u. apply copy_is in E0 as (b & Hb & Hg & Hk). unfold file_is in Hb, Hin2. rewrite Hin2 in Hb. injection Hb as <-.
  apply copy_is in E as (ir & _ & Hl & Hk'). destruct (side_distinct o) as [HO Hd]. apply NoDup_cons in Hd as [_ [Hgl _]%NoDup_cons].
  exists input, obj, ir. split_and!; [|apply Hk'; [|done]|done|done].
  - apply Hk'; [intros E1; apply HO; rewrite E1; by right; right; left|]. apply Hk; [intros E1; apply HO; rewrite E1; by right; left | exact Hout].
  - intros E1. apply Hgl. rewrite E1. by left.
Qed.

Lemma finish_left o elf ll magic v w r w1 : mine (o_Out o) -> mine elf -> file_is (o_Out o) v w -> finish h conv_main o elf ll magic w = (r, w1) ->
  r = Ok () \/ no_part o v w1.
Proof using CV.
  intros Ho Hm Hv E. destruct r as [[]|e]; [by left|]. right. unfold finish in E. destruct (side_distinct o) as [HO _].
  apply io_bind_case in E as [(e' & E & _)|(u & w2 & E0 & E)].
  - apply run_convert_case in E as (rc & ms & Ec & [[_ ?]|[Hrc _]]); [done|].
    destruct (conv_fails o elf w rc ms w1 Hm Ho Ec Hrc) as [H|[H|(input & obj & H1 & H2)]]; [left | right; left | right; right]; unfold file_is in *; [by rewrite H, Hv | done | by exists input, obj].
  - apply run_convert_case in E0 as (rc & ms & Ec & [[-> _]|[_ [e' ?]]]); [|subst; done].
    destruct (conv_makes o elf w ms w2 Hm Ec) as (input & obj & _ & Hmade & Hout). right. right. exists input, obj. split; [done|].
    change (file_is (o_Out o) (Some obj) w2) in Hout. revert E Hout. enough (keeps (file_is (o_Out o) (Some obj))
      (_ ← (if magic then b ← ReadFile h (o_Out o); lift (ObjectHasMagic b) else mret ()); _ ← copyFile h elf (Side (o_Out o) +:+ ".gocobj"); copyFile h ll (Side (o_Out o) +:+ ".ll"))) as K.
    { intros E Hout. by apply (keeps_run _ _ _ _ _ _ K E). }
    assert (forall src ext, ext ∈ side_files o -> keeps (file_is (o_Out o) (Some obj)) (copyFile h src ext)) as Kc.
    { intros src ext He. apply keeps_bind; [auto with io|]. intros b. apply keeps_write. intros E1. apply HO. by rewrite E1. }
    apply keeps_bind; [apply keeps_if; [apply keeps_bind|]; auto with io|]. intros _. apply keeps_bind; [apply Kc; by right; left|]. intros _. apply Kc. by right; right; left.
Qed.

(** *** The processes of a build *)

(** One process: its program, the IR pass it runs, the file it reads, the file it writes. *)
Inductive stage :=
| Clang (out : string)
| Pass (passes inp out : string)
| Strip (inp out : string)
| PrintPipeline
| Inline (inp out : string)
| LLC (ll out : string)
| MC (asm out : string).

Section Stages.
Variables (o : Options) (d : string).
Local Notation file := (path d).

Definition is_stage (s : stage) (c : call) : Prop :=
  cl_env c = env h t /\
  match s with
  | Clang out => cl_bin c = t_Clang t /\ cl_args c = clang_args h t o out
  | Pass p inp out => cl_bin c = t_Opt t /\ exists extra, cl_args c = opt_args t p extra inp out
  | Strip inp out => cl_bin c = t_Opt t /\ cl_args c = ["--strip-debug"; "-S"; inp; "-o"; out]
  | PrintPipeline => cl_bin c = t_Opt t /\ "-print-pipeline-passes" ∈ cl_args c
  | Inline inp out => cl_bin c = t_Opt t /\ exists text, cl_args c = opt_args t (inline_pipeline text) (o_OptExtra o) inp out
  | LLC ll out => cl_bin c = t_LLC t /\ exists l, cl_args c = llcArgs (olevel o) (o_Arch o) ++ o_LLCExtra o ++ l ++ ["-o"; out; ll]
  | MC asm out => cl_bin c = t_MC t /\ exists l, cl_args c = l ++ ["-o"; out; asm]
  end.

(** The body that [goc-uptr-inline] reads, and the IR that goc-llc compiles. *)
Definition colored : string := file (if o_ColorReport o then "a.color.nodbg.ll" else "a.color.ll").
Definition compiled : string := file (if o_OptLevel o =? 0 then "body.sm.ll" else "body.ll").

Definition gate_stages : list stage :=
  [Clang (file "a.ll");
   Pass (if o_ColorReport o then "print<goc-color>,goc-color-escape" else "goc-color-escape") (file "a.ll") (file "a.color.ll")] ++
  (if o_ColorReport o then [Strip (file "a.color.ll") (file "a.color.nodbg.ll")] else []) ++
  [Pass "goc-uptr-inline" colored (file "a.gate.ll")].

Definition front_stages : list stage :=
  gate_stages ++
  (if o_OptLevel o =? 0 then []
   else [PrintPipeline; Inline (file "a.gate.ll") (file "a.opt.ll"); Pass "goc-stackmap" (file "a.opt.ll") (file "a.sm.ll");
         Pass "goc-reanchor" (file "a.sm.ll") (file "a.reanchor.ll")]).

Definition lower_stages : list stage := if o_OptLevel o =? 0 then [Pass "goc-stackmap" (file "body.ll") (file "body.sm.ll")] else [].
Definition gen_stages : list stage := [LLC compiled (file "body.s"); MC (file "body.thunks.s") (file "body.llc.o")].

Lemma tool_calls bin args : calls_as (tool h t bin args) (fun _ cs => cs = [mkCall bin args (env h t)]).
Proof using. eapply calls_bind; [apply calls_wrap, calls_run|]. intros x c1 ->. by apply calls_done. Qed.

(** A stage before the rest. *)
Lemma stage_step {A B} (m : io A) (k : A -> io B) s ss (P : B -> Prop) : calls_as m (fun _ cs => exists c, cs = [c] /\ is_stage s c) ->
  (forall x, calls_as (k x) (fun y cs => Forall2 is_stage ss cs /\ P y)) -> calls_as (m ≫= k) (fun y cs => Forall2 is_stage (s :: ss) cs /\ P y).
Proof using.
  intros Hm Hk. eapply calls_bind; [exact Hm|]. intros x c1 (c & -> & Hc). eapply calls_weaken; [apply Hk|]. intros y cs [Hs Hy]. split; [by constructor | done].
Qed.

Lemma stages_end {B} (y : B) (P : B -> Prop) : P y -> calls_as (mret y) (fun y cs => Forall2 is_stage [] cs /\ P y).
Proof using. intros H. by apply calls_done. Qed.

(** Two parts of a run. *)
Lemma stages_app {A B} (m : io A) (k : A -> io B) s1 s2 (P : A -> Prop) (Q : B -> Prop) : calls_as m (fun x cs => Forall2 is_stage s1 cs /\ P x) ->
  (forall x, P x -> calls_as (k x) (fun y cs => Forall2 is_stage s2 cs /\ Q y)) -> calls_as (m ≫= k) (fun y cs => Forall2 is_stage (s1 ++ s2) cs /\ Q y).
Proof using.
  intros Hm Hk. eapply calls_bind; [exact Hm|]. intros x c1 [H1 HP]. eapply calls_weaken; [by apply Hk|]. intros y cs [H2 HQ]. split; [by apply Forall2_app | done].
Qed.

Lemma one_stage s bin args : is_stage s (mkCall bin args (env h t)) -> calls_as (tool h t bin args) (fun _ cs => exists c, cs = [c] /\ is_stage s c).
Proof using. intros H. eapply calls_weaken; [apply tool_calls|]. intros x cs ->. by eexists. Qed.

Lemma pass_stage p extra inp out : calls_as (opt_pass h t p extra inp out) (fun _ cs => exists c, cs = [c] /\ is_stage (Pass p inp out) c).
Proof using. apply one_stage. split; [done|]. split; [done|]. by exists extra. Qed.

Lemma front_gate_stages : calls_as (front_gate h t o d) (fun body cs => Forall2 is_stage gate_stages cs /\ body = file "a.gate.ll").
Proof using.
  unfold front_gate, gate_stages. apply stage_step; [by apply calls_wrap, one_stage|]. intros _.
  apply stage_step; [apply calls_wrap, pass_stage|]. intros _. apply (stages_app _ _ _ _ (fun body => body = colored)).
  - unfold colored. destruct (o_ColorReport o); [|by apply stages_end].
    apply stage_step; [by apply calls_wrap, one_stage | intros _; by apply stages_end].
  - intros body ->. apply stage_step; [apply pass_stage | intros _; by apply stages_end].
Qed.

Lemma frontend_stages : calls_as (frontend h t o d) (fun r cs => Forall2 is_stage front_stages cs /\ snd r = negb (o_OptLevel o =? 0)).
Proof using.
  unfold frontend, front_stages. apply (stages_app _ _ _ _ _ _ front_gate_stages). intros b ->. destruct (o_OptLevel o =? 0); [by apply stages_end|].
  rewrite <-(app_nil_r [PrintPipeline; _; _; _]). apply (stages_app _ _ _ _ (fun _ => True)); [|intros b _; by apply stages_end].
  unfold front_optimize. apply stage_step.
  { apply calls_wrap. eapply calls_weaken; [apply calls_run|]. intros x cs ->. eexists. split; [done|]. split; [done|]. split; [done|]. by right; left. }
  intros text. apply stage_step; [apply one_stage; split; [done|]; split; [done|]; by exists text|]. intros _.
  apply stage_step; [apply pass_stage|]. intros _. apply stage_step; [apply pass_stage|]. intros _. by apply stages_end.
Qed.

Lemma quiet_rewrite p f : quiet (rewrite_file h p f).
Proof using. unfold rewrite_file, read_text, write_text. solve_quiet. Qed.

Lemma quiet_copy p q : quiet (copyFile h p q).
Proof using. unfold copyFile. solve_quiet. Qed.

Lemma lower_stages_run inp prepared : prepared = negb (o_OptLevel o =? 0) ->
  calls_as (lower_ir h t goabi_json o d inp prepared) (fun r cs => Forall2 is_stage lower_stages cs /\ fst (fst r) = compiled).
Proof using.
  intros ->. unfold lower_ir, lower_stages, compiled. apply calls_skip; [apply quiet_copy|]. intros _. apply calls_skip; [apply quiet_rewrite|]. intros _.
  apply calls_skip; [unfold read_text; solve_quiet|]. intros src. apply calls_skip; [apply quiet_if; [apply quiet_rewrite | solve_quiet]|]. intros _.
  apply calls_skip; [unfold WriteGoABI, read_text, write_text; solve_quiet|]. intros _. apply calls_skip; [apply quiet_copy|]. intros _.
  apply calls_skip; [by intros w|]. intros js. destruct (o_OptLevel o =? 0); cbn [negb]; [|by apply stages_end].
  apply stage_step; [apply pass_stage|]. intros _. apply calls_skip; [by intros w|]. intros [|b sm]; [by intros w x w1|]. by apply stages_end.
Qed.

Lemma gen_stages_run symABI : calls_as (gen_object h t conv_profile o d compiled symABI)
  (fun _ cs => exists g c2, cs = g ++ c2 /\ Forall (fun c => cl_bin c = "go") g /\ Forall2 is_stage gen_stages c2).
Proof using CV.
  unfold gen_object. eapply calls_bind with (P := fun _ g => Forall (fun c => cl_bin c = "go") g).
  { intros w x w1 E. destruct (conv_profile_calls (o_Arch o) w) as (cs & Hc & Hg). rewrite E in Hc. by exists cs. }
  intros profile g Hg. eapply calls_weaken with (P := fun _ c2 => Forall2 is_stage gen_stages c2 /\ True); [|intros x cs [H _]; by exists g, cs].
  unfold gen_stages. apply stage_step.
  { apply one_stage. split; [done|]. split; [done|].
    by exists ["-function-sections"; "-goc-sym-abi=" +:+ dec symABI; "-goc-profile=" +:+ profile; "-goc-tables"; file "body.goc.s"; "-filetype=asm"]. }
  intros _. apply calls_skip; [apply quiet_if; [solve_quiet | apply quiet_rewrite]|]. intros _. do 5 (apply calls_skip; [solve_quiet | intros ?]).
  apply stage_step; [apply one_stage; split; [done|]; split; [done|]; by eexists [_; _] | intros _; by apply stages_end].
Qed.

Lemma finish_calls elf ll magic : calls_as (finish h conv_main o elf ll magic) (fun _ cs => Forall (fun c => cl_bin c = "go") cs).
Proof using CV.
  unfold finish. eapply calls_bind with (P := fun _ cs => Forall (fun c => cl_bin c = "go") cs).
  - intros w x w1 E. apply run_convert_case in E as (rc & ms & E & _). destruct (conv_calls (conv_args o elf) w) as (cs & Hc & Hg). rewrite E in Hc. by exists cs.
  - intros _ c1 H1. eapply calls_weaken with (P := fun _ cs => cs = []); [|by intros x cs ->; rewrite app_nil_r].
    apply calls_quiet. apply quiet_bind; [destruct magic; solve_quiet|]. intros _. apply quiet_bind; [apply quiet_copy|]. intros _. apply quiet_copy.
Qed.

(** The processes of a compile: the front end and the stack maps, a query of the go
    command, code generation, and what the converter asks the go command. *)
Definition build_calls (cs : list call) : Prop := exists a g b g', cs = a ++ g ++ b ++ g' /\ Forall2 is_stage (front_stages ++ lower_stages) a /\
  Forall (fun c => cl_bin c = "go") g /\ Forall2 is_stage gen_stages b /\ Forall (fun c => cl_bin c = "go") g'.

Lemma compile_calls : calls_as (compile h t conv_main conv_profile goabi_json o d) (fun _ cs => build_calls cs).
Proof using CV.
  unfold compile. eapply calls_bind; [apply frontend_stages|]. intros [body prepared] a1 [H1 Hp]. cbn [snd] in Hp.
  apply calls_skip; [by intros w|]. intros name. apply calls_skip; [by destruct (nonempty name); intros w|]. intros name'.
  destruct (negb (nonempty name')); [by intros w x w1|]. apply calls_wrap. unfold backend.
  eapply calls_bind; [by apply lower_stages_run|]. intros [[ll symABI] magic] a2 [H2 Hll]. cbn [fst] in Hll. subst ll.
  eapply calls_bind; [apply gen_stages_run|]. intros elf c2 (g & b & -> & Hg & Hb). eapply calls_weaken; [apply finish_calls|]. intros x g' Hg'.
  exists (a1 ++ a2), g, b, g'. rewrite <-!app_assoc. split_and!; [done | by apply Forall2_app | done..].
Qed.

Definition is_stackmap (s : stage) : bool := match s with Pass p _ _ => String.eqb p "goc-stackmap" | _ => false end.
Definition is_inline (s : stage) : bool := match s with Inline _ _ => true | _ => false end.

(** The stack maps are recorded by one pass; nothing is inlined after it. *)
Lemma stackmap_once : exists pre inp out post, front_stages ++ lower_stages = pre ++ Pass "goc-stackmap" inp out :: post /\
  Forall (fun s => is_stackmap s = false) (pre ++ post) /\ Forall (fun s => is_inline s = false) post.
Proof using.
  unfold front_stages, lower_stages, gate_stages. destruct (o_OptLevel o =? 0), (o_ColorReport o); cbn [app].
  - eexists [_; _; _; _], _, _, []. split; [reflexivity|]. split; repeat constructor.
  - eexists [_; _; _], _, _, []. split; [reflexivity|]. split; repeat constructor.
  - eexists [_; _; _; _; _; _], _, _, [_]. split; [reflexivity|]. split; repeat constructor.
  - eexists [_; _; _; _; _], _, _, [_]. split; [reflexivity|]. split; repeat constructor.
Qed.
End Stages.

(** *** Whole builds *)

Definition work_dir (o : Options) (d : string) : Prop :=
  if nonempty (o_KeepTmp o) then d = o_KeepTmp o else h_tmp h "goc-build" = Ok d.

(** A build is refused, or it compiles in a work directory. *)
Lemma build_case o w r w1 : Build h t conv_main conv_profile goabi_json o w = (r, w1) -> (exists e, r = Fail e /\ w1 = w) \/
  exists d w2, work_dir o d /\ compile h t conv_main conv_profile goabi_json (effective o) d w = (r, w2) /\ (w1 = w2 \/ w1 = snd (RemoveAll d w2)).
Proof using.
  unfold Build, run_build. destruct (negb _); [intros [= <- <-]; left; by eexists|]. destruct (_ || _); [intros [= <- <-]; left; by eexists|].
  intros E. assert (forall r w2, check_source h (defaults o) w = (r, w2) -> w2 = w) as Hq.
  { unfold check_source, read_text. intros r' w2. case_match; [|by intros [= _ <-]].
    unfold mbind, io_bind, ReadFile. destruct (wo_fs w !! _); [|by intros [= _ <-]]. cbn. case_match; by intros [= _ <-]. }
  apply io_bind_case in E as [(e & E & ->)|(u & w2 & E0 & E)]; [left; exists e; by rewrite (Hq _ _ E)|]. rewrite (Hq _ _ E0) in E. clear E0 Hq.
  unfold in_work_dir in E. fold (effective o) in E. unfold work_dir. change (o_KeepTmp (effective o)) with (o_KeepTmp o) in E.
  destruct (nonempty (o_KeepTmp o)); [destruct (h_mkdir h _); [|left; injection E as <- <-; by eexists]|].
  - right. exists (o_KeepTmp o), w1. split; [done|]. split; [done | by left].
  - destruct (h_tmp h "goc-build") as [d|e]; [|left; injection E as <- <-; by eexists]. right. exists d.
    change (cleanup d (compile h t conv_main conv_profile goabi_json (effective o) d) w = (r, w1)) in E. unfold cleanup in E.
    destruct (compile _ _ _ _ _ _ _ w) as [r2 w3]. injection E as <- <-. exists w3. split; [done|]. split; [done | by right].
Qed.
Lemma removed_is d p v w : under d p = false -> file_is p v w -> file_is p v (snd (RemoveAll d w)).
Proof using. intros Hd Hw. apply (keeps_cleanup d p v (mret ()) Hd) in Hw; [exact Hw|]. auto with io. Qed.

Lemma compile_ok o d w w1 : mine (path d "body.llc.o") -> (forall p, p ∈ o_Out o :: side_files o -> outside d p) ->
  compile h t conv_main conv_profile goabi_json o d w = (Ok (), w1) -> built o w1.
Proof using CV.
  intros Hm Hd E. unfold compile in E. io_step E bp w2. destruct bp as [body prepared]. io_step E n1 w3. io_step E n2 w4.
  destruct (negb _); [done|]. apply wrap_ok in E. unfold backend in E. io_step E r w5. destruct r as [[ll symABI] magic]. io_step E elf w6.
  assert (elf = path d "body.llc.o") as ->. { unfold gen_object in E4. do 9 (apply io_bind_ok in E4 as (? & ? & _ & E4)). by injection E4. }
  eapply finish_ok; [exact Hm | | exact E]. intros Hin. destruct (Hd _ Hin) as [_ H]. by apply (H "body.llc.o" eq_refl).
Qed.

Lemma compile_left o d v w r w1 : mine (path d "body.llc.o") -> mine (o_Out o) -> untouched h (o_Out o) -> outside d (o_Out o) -> file_is (o_Out o) v w ->
  compile h t conv_main conv_profile goabi_json o d w = (r, w1) -> r = Ok () \/ no_part o v w1.
Proof using CV.
  intros Hm Ho Hu [_ Hd] Hv E. unfold compile in E.
  apply io_bind_case in E as [(e & E & _)|([body prepared] & w2 & E1 & E)]; [right; left; by apply (keeps_run _ _ _ _ _ _ (keeps_frontend _ _ _ _ Hu) E)|].
  apply (keeps_run _ _ _ _ _ _ (keeps_frontend _ _ _ _ Hu) E1) in Hv.
  apply io_bind_case in E as [(e & E & _)|(n1 & w3 & E2 & E)]; [done|]. injection E2 as _ <-.
  apply io_bind_case in E as [(e & E & _)|(n2 & w4 & E2 & E)]; [by destruct (nonempty n1)|].
  assert (w4 = w2) as ->. { destruct (nonempty n1); by injection E2. }
  destruct (negb _); [injection E as _ <-; right; by left|]. unfold wrap_err in E. destruct (backend _ _ _ _ _ _ _ _ _ w2) as [rb wb] eqn:Eb.
  enough (rb = Ok () \/ no_part o v wb) as [-> |H]; [left; by injection E | right; destruct rb; injection E as _ <-; exact H |]. clear E.
  unfold backend in Eb. apply io_bind_case in Eb as [(e & E & _)|([[ll symABI] magic] & w5 & E & Eb)];
    apply (keeps_run _ _ _ _ _ _ (keeps_lower _ _ _ _ Hu Hd _ _) E) in Hv; [right; by left|].
  apply io_bind_case in Eb as [(e & E' & _)|(elf & w6 & E' & Eb)]; apply (keeps_run _ _ _ _ _ _ (keeps_gen _ _ _ _ Ho Hu Hd _ _) E') in Hv; [right; by left|].
  assert (elf = path d "body.llc.o") as ->. { unfold gen_object in E'. do 9 (apply io_bind_ok in E' as (? & ? & _ & E')). by injection E'. }
  exact (finish_left _ _ _ _ _ _ _ _ Ho Hm Hv Eb).
Qed.

(** C18. The processes of a successful build: clang, the passes of the color analysis and
    of the inline bodies, above -O0 the inlining pipeline of [default<On>] and the passes
    after it, then goc-llc and llvm-mc, each on the file the one before it wrote and
    with the tools' environment; besides these only the go command runs.  One pass
    records the stack maps, and nothing inlines after it. *)
Theorem Build_stages o w w' : Build h t conv_main conv_profile goabi_json o w = (Ok (), w') -> exists d cs, work_dir o d /\
  wo_calls w' = wo_calls w ++ cs /\ build_calls (effective o) d cs /\
  exists pre inp out post, front_stages (effective o) d ++ lower_stages (effective o) d = pre ++ Pass "goc-stackmap" inp out :: post /\
    Forall (fun s => is_stackmap s = false) (pre ++ post) /\ Forall (fun s => is_inline s = false) post.
Proof using CV.
  intros E. destruct (build_case _ _ _ _ E) as [(e & ? & _)|(d & w2 & Hd & Ec & Hw)]; [done|].
  destruct (compile_calls _ _ _ _ _ Ec) as (cs & Hc & Hb). exists d, cs. split; [done|]. split; [by destruct Hw as [->| ->]|]. split; [done|].
  apply stackmap_once.
Qed.

(** A successful build leaves the object, a side [.gocobj] from which the converter
    made it, and the IR that goc-llc compiled, when those paths are not in the work
    directory. *)
Lemma Build_ok o w w' : (forall d, work_dir o d -> mine (path d "body.llc.o") /\ forall p, p ∈ o_Out (effective o) :: side_files (effective o) -> outside d p) ->
  Build h t conv_main conv_profile goabi_json o w = (Ok (), w') -> built (effective o) w'.
Proof using CV.
  intros Hd E. destruct (build_case _ _ _ _ E) as [(e & ? & _)|(d & w2 & Hw & Ec & Hr)]; [done|]. destruct (Hd d Hw) as [Hm Ho].
  destruct (compile_ok _ _ _ _ Hm Ho Ec) as (input & obj & ir & H1 & H2 & H3 & H4).
  assert (forall p v, p ∈ o_Out (effective o) :: side_files (effective o) -> file_is p v w2 -> file_is p v w') as K.
  { intros p v Hp Hv. destruct Hr as [->| ->]; [done|]. apply removed_is; [by apply Ho | done]. }
  exists input, obj, ir. split_and!; [apply K; [by left | done] | apply K; [by right; right; left | done] | apply K; [by right; right; right; left | done] | done].
Qed.

(** A build that fails leaves no part of an object: at the object's path is what was
    there before, an empty file, or an object that the converter had completed. *)
Lemma Build_failed o w e w' : mine (o_Out (effective o)) -> untouched h (o_Out (effective o)) ->
  (forall d, work_dir o d -> mine (path d "body.llc.o") /\ outside d (o_Out (effective o))) ->
  Build h t conv_main conv_profile goabi_json o w = (Fail e, w') -> no_part (effective o) (wo_fs w !! o_Out (effective o)) w'.
Proof using CV.
  intros Hm Hu Hd E. destruct (build_case _ _ _ _ E) as [(e' & _ & ->)|(d & w2 & Hw & Ec & Hr)]; [by left|]. destruct (Hd d Hw) as [He Ho].
  destruct (compile_left _ _ _ _ _ _ He Hm Hu Ho eq_refl Ec) as [?|H]; [done|].
  assert (forall v, file_is (o_Out (effective o)) v w2 -> file_is (o_Out (effective o)) v w') as K.
  { intros v Hv. destruct Hr as [->| ->]; [done|]. apply removed_is; [apply Ho | done]. }
  destruct H as [H|[H|(input & obj & H1 & H2)]]; [left; by apply K | right; left; by apply K | right; right; exists input, obj; split; [done | by apply K]].
Qed.
(** A build leaves every other file as it was: one that is neither in the work directory
    nor an output, and that no process touches. *)
Lemma Build_keeps o p v : mine p -> untouched h p -> (forall d, work_dir o d -> outside d p) -> p ∉ o_Out (effective o) :: side_files (effective o) ->
  keeps (file_is p v) (Build h t conv_main conv_profile goabi_json o).
Proof using CV.
  intros Hm Hu Hd Hout. set (e := effective o) in *.
  assert (p <> o_Out e /\ p <> Side (o_Out e) +:+ ".symabis" /\ p <> Side (o_Out e) +:+ ".gocobj" /\ p <> Side (o_Out e) +:+ ".ll") as (H1 & H2 & H3 & H4).
  { split_and!; intros Hx; apply Hout; rewrite Hx; [left | right; left | right; right; left | right; right; right; left]. }
  assert (forall d, work_dir o d -> keeps (file_is p v) (compile h t conv_main conv_profile goabi_json e d)) as Hc.
  { intros d Hw. destruct (Hd d Hw) as [_ Ho]. unfold compile. apply keeps_bind; [by apply keeps_frontend|]. intros [body prepared].
    apply keeps_bind; [by intros w Hv|]. intros n1. apply keeps_bind; [apply keeps_if; [auto with io | by intros w Hv]|]. intros n2.
    apply keeps_if; [auto with io|]. apply keeps_wrap. unfold backend. apply keeps_bind; [by apply keeps_lower|]. intros [[ll symABI] magic].
    apply keeps_bind; [by apply keeps_gen|]. intros elf. unfold finish. apply keeps_bind.
    - intros w Hv. destruct (run_convert conv_main e elf w) as [r w1] eqn:Er. apply run_convert_case in Er as (rc & ms & Ec & _). unfold file_is in *. cbn.
      replace w1 with (snd (conv_main (conv_args e elf) w)) by (by rewrite Ec). by rewrite conv_keeps.
    - intros _. apply keeps_bind; [apply keeps_if; [apply keeps_bind|]; auto with io|]. intros _. unfold copyFile.
      apply keeps_bind; [apply keeps_bind; [auto with io|]; intros b; by apply keeps_write|]. intros _.
      apply keeps_bind; [auto with io|]. intros b. by apply keeps_write. }
  intros w Hv. destruct (Build h t conv_main conv_profile goabi_json o w) as [r w1] eqn:E. cbn [fst snd].
  destruct (build_case _ _ _ _ E) as [(e' & _ & ->)|(d & w2 & Hw & Ec & Hr)]; [done|]. apply (keeps_run _ _ _ _ _ _ (Hc d Hw) Ec) in Hv.
  destruct Hr as [->| ->]; [done|]. apply removed_is; [by apply (Hd d Hw) | done].
Qed.
End Proofs.
