(* ===== verification/Compile.v ===== *)
(** * A compile, down to the object

    The converter's command line (ConvertMain) is what the pipeline (Pipeline) asks for:
    the instance of [Converter].  With it, a build that succeeds leaves the object that
    the converter makes of the side [.gocobj], and a run of it on a small host. *)

From Stdlib Require Import ZArith Lia Ascii.
From stdpp Require Import base list strings gmap.
From S2P Require Import Prelude Text Regex Codec Format Elf GocobjWrite GocobjRead Verify World Layout Toolchain Link ObjWrite Convert Data Assemble GoAbi.
From S2P Require Import Meta ConvertMain Pipeline.

(** The flags of the pipeline's call. *)
Definition conv_flags (o : Options) (elf : string) : gmap string string :=
  let fl := <["goarch" := o_Arch o]> (<["symabis" := Side (o_Out o) +:+ ".symabis"]> (<["p" := o_Pkg o]> (<["o" := o_Out o]> {["in" := elf]}))) in
  if nonempty (o_LibcallImpl o) then <["libcall-impl" := o_LibcallImpl o]> fl else fl.

Lemma parse_conv_args o elf : parse_flags flag_kinds (conv_args o elf) ∅ = FlagsOk (conv_flags o elf) [].
Proof. unfold conv_args, conv_flags. by destruct (nonempty (o_LibcallImpl o)). Qed.

Lemma conv_flags_at o elf : let fl := conv_flags o elf in
  (fl !! "in" = Some elf /\ fl !! "o" = Some (o_Out o) /\ fl !! "p" = Some (o_Pkg o)) /\
  (fl !! "symabis" = Some (Side (o_Out o) +:+ ".symabis") /\ fl !! "goarch" = Some (o_Arch o) /\ default "" (fl !! "libcall-impl") = o_LibcallImpl o) /\
  is_set fl "version" = false /\ is_set fl "print-profile" = false.
Proof.
  cbv zeta. unfold conv_flags, is_set, nonempty. destruct (String.eqb_spec (o_LibcallImpl o) "") as [->|Hn]; cbn [negb]; split_and!; reflexivity.
Qed.

Section Instance.
Variable h : host.
Variable elf_read : list Z -> res string efile.
Variable unmarshal : list Z -> res string Meta.
Variable embedded : gmap string (list Z).
Variable decode_env : list Z -> res string (gmap string string).
Variables sha256 sha1 : list Z -> list Z.

Local Abbreviation conv := (Main h elf_read unmarshal embedded decode_env sha256 sha1).
Local Abbreviation profile := (ConvertProfile h unmarshal embedded).

(** ** The converter starts the go command only *)

Definition only_go {A} (m : io A) : Prop := forall w, exists cs, wo_calls (snd (m w)) = wo_calls w ++ cs /\ Forall (fun c => cl_bin c = "go") cs.

Lemma only_quiet {A} (m : io A) : quiet m -> only_go m.
Proof using. intros H w. exists []. by rewrite H, app_nil_r. Qed.

Lemma only_bind {A B} (m : io A) (k : A -> io B) : only_go m -> (forall x, only_go (k x)) -> only_go (m ≫= k).
Proof using.
  intros Hm Hk w. destruct (Hm w) as (c1 & H1 & G1). unfold mbind, io_bind. destruct (m w) as [[x|e] w1]; [|by exists c1].
  destruct (Hk x w1) as (c2 & H2 & G2). exists (c1 ++ c2). cbn [snd] in H1. rewrite H2, H1, app_assoc. split; [done | by apply Forall_app].
Qed.

Lemma only_wrap {A} g (m : io A) : only_go m -> only_go (wrap_err g m).
Proof using. intros H w. destruct (H w) as (cs & Hc & G). exists cs. unfold wrap_err. by destruct (m w) as [[?|?] ?]. Qed.

Lemma only_if {A} (b : bool) (m n : io A) : only_go m -> only_go n -> only_go (if b then m else n).
Proof using. by destruct b. Qed.

Lemma only_call args e : only_go (go_call h args e).
Proof using. intros w. eexists [_]. unfold go_call, run_call. destruct (h_exec h _ _) as [r f]. split; [done | by repeat constructor]. Qed.

Lemma only_cleanup {A} d (m : io A) : only_go m -> only_go (cleanup d m).
Proof using. intros H w. destruct (H w) as (cs & Hc & G). exists cs. unfold cleanup. destruct (m w) as [r w1]. by cbn in *. Qed.

Lemma only_succeeds {A} (m : io A) : only_go m -> only_go (succeeds m).
Proof using. intros H w. destruct (H w) as (cs & Hc & G). exists cs. unfold succeeds. by destruct (m w) as [[?|?] ?]. Qed.

Lemma only_write p b : only_go (WriteFile h p b).
Proof using. apply only_quiet, quiet_write. Qed.

Lemma only_read p : only_go (ReadFile h p).
Proof using. apply only_quiet, quiet_read. Qed.

Lemma only_rename p q : only_go (Rename h p q).
Proof using. apply only_quiet. intros w. unfold Rename. destruct (wo_fs w !! p); [by destruct (h_writable h q) | done]. Qed.

Lemma only_ret {A} (x : A) : only_go (mret x : io A).
Proof using. apply only_quiet, quiet_ret. Qed.

Lemma only_fail {A} e : only_go (@fail A e).
Proof using. apply only_quiet, quiet_fail. Qed.

Lemma only_lift {A} (r : res string A) : only_go (lift r).
Proof using. apply only_quiet, quiet_lift. Qed.

Ltac solve_only :=
  repeat match goal with
  | |- only_go (lift _) => apply only_lift
  | |- only_go (mret _) => apply only_ret
  | |- only_go (fail _) => apply only_fail
  | |- only_go (ReadFile _ _) => apply only_read
  | |- only_go (WriteFile _ _ _) => apply only_write
  | |- only_go (Rename _ _ _) => apply only_rename
  | |- only_go (wrap_err _ _) => apply only_wrap
  | |- only_go (succeeds _) => apply only_succeeds
  | |- only_go (cleanup _ _) => apply only_cleanup
  | |- only_go (go_call _ _ _) => apply only_call
  | |- only_go (if _ then _ else _) => apply only_if
  | |- only_go (match ?x with _ => _ end) => destruct x
  | |- only_go (_ ≫= _) => apply only_bind; [|intros ?]
  end.

Lemma only_goEnv name : only_go (goEnv h name).
Proof using. unfold goEnv. solve_only. Qed.

Lemma only_resolve a b : only_go (resolve h unmarshal embedded a b).
Proof using.
  unfold resolve, Load. solve_only; try apply only_goEnv. intros w. destruct (only_goEnv "GOVERSION" w) as (cs & Hc & G). exists cs.
  unfold file_version. by destruct (goEnv h "GOVERSION" w) as [[?|?] ?].
Qed.

Lemma only_profile arch : only_go (profile arch).
Proof using. unfold ConvertProfile. apply only_bind; [apply only_resolve|]. intros [m v]. solve_only. Qed.

Lemma only_header goarch ver : only_go (objectHeader h decode_env sha256 goarch ver).
Proof using.
  unfold objectHeader. apply only_bind; [solve_only|]. intros b. apply only_bind; [solve_only|]. intros env. apply only_if; [solve_only|].
  apply only_bind; [by apply only_quiet; intros w|]. intros [s|]; [solve_only|]. apply only_bind; [solve_only|]. intros tmp. apply only_cleanup.
  unfold asm_header, keep_header. apply only_bind; [solve_only|]. intros hd. apply only_bind; [|intros u; solve_only].
  apply only_if; [solve_only|]. apply only_bind; [solve_only|]. intros [|]; solve_only.
Qed.

Lemma only_main fl : only_go (convert_main h elf_read unmarshal embedded decode_env sha256 sha1 fl).
Proof using.
  unfold convert_main. apply only_bind; [apply only_resolve|]. intros [m ver]. apply only_if; [solve_only|].
  apply only_bind; [solve_only|]. intros want. apply only_if; [solve_only|]. apply only_if; [solve_only|].
  apply only_bind; [unfold Open, elf_open; solve_only|]. intros [f|e]; [|solve_only]. destruct (Verify f); [|solve_only].
  apply only_bind; [|intros rc; solve_only]. unfold convert_file. apply only_if; [solve_only|]. apply only_if; [solve_only|].
  apply only_bind; [unfold header_for; apply only_if; [solve_only | apply only_header]|]. intros hdr.
  apply only_bind; [unfold open_converter, elf_open; solve_only|]. intros c. apply only_bind; [|intros u; solve_only].
  unfold write. apply only_bind; [solve_only|]. intros l. apply only_bind; [solve_only|]. intros u. destruct (Write _ _ _ _ _) as [b|[?|]]; solve_only.
Qed.

(** ** The converter writes its two files only *)

Lemma write_keeps p v out m c f hdr : p <> out -> keeps (file_is p v) (write h sha256 sha1 out m c f hdr).
Proof using.
  intros Hp. unfold write. apply keeps_bind; [auto with io|]. intros l. apply keeps_bind; [by apply keeps_write|]. intros _.
  destruct (Write _ _ _ _ _) as [b|[?|]]; [by apply keeps_write | auto with io..].
Qed.

Lemma main_keeps fl p v : apart h sha256 p -> p <> default "" (fl !! "o") -> p <> default "" (fl !! "symabis") ->
  keeps (file_is p v) (convert_main h elf_read unmarshal embedded decode_env sha256 sha1 fl).
Proof using.
  intros Hp Ho Hs. unfold convert_main. apply keeps_bind; [by eapply keeps_resolve|]. intros [m ver]. apply keeps_if; [auto with io|].
  apply keeps_bind; [auto with io|]. intros want. apply keeps_if; [auto with io|]. apply keeps_if; [auto with io|].
  apply keeps_bind; [apply keeps_open|]. intros [f|e]; [|auto with io]. destruct (Verify f); [|auto with io].
  apply keeps_bind; [|auto with io]. unfold convert_file. apply keeps_if; [auto with io|]. apply keeps_if; [auto with io|].
  apply keeps_bind; [by apply keeps_header_for|]. intros hdr. apply keeps_bind; [apply keeps_open_converter|]. intros c.
  apply keeps_bind; [by apply write_keeps|]. intros _. apply keeps_bind; [|auto with io]. apply keeps_if; [by apply keeps_write | auto with io].
Qed.

(** ** The instance *)

(** The object is what [write_object] makes of the parsed and verified input, for a
    release whose ABI facts are those of the input's profile. *)
Definition object_of (o : Options) (input obj : list Z) : Prop := exists elf ef m f c hdr,
  let fl := conv_flags o elf in
  elf_read input = Ok ef /\ GocobjRead.Parse ef = Ok f /\ Verify f = [] /\
  (exists have want, LookupProfile (h_Profile (f_Header f)) = Some have /\ profile_of m (goarch_of h fl) = Ok want /\ SameFacts have want = true) /\
  Z.land (h_Flags (f_Header f)) HeaderStackChecksInCode <> 0 /\
  newConverter elf f (o_Pkg o) (goarch_of h fl) (o_LibcallImpl o) ef = Ok c /\
  write_object (release_of m (conv_arch c)) sha256 sha1 c f hdr = Ok obj.

Lemma made_object o elf input ef m f c hdr b : object_from h elf_read sha256 sha1 (conv_flags o elf) input ef m f c hdr b -> object_of o input b.
Proof using.
  intros [[He Hf] Hv Hpro Hc Hconv Hobj]. destruct (conv_flags_at o elf) as ((Ei & Eo & Ep) & (Es & Ea & El) & _). rewrite Ei, Ep, El in Hconv.
  by exists elf, ef, m, f, c, hdr.
Qed.

(** A failed run of [Main] ends with a message. *)
Lemma main_world args fl rest w : parse_flags flag_kinds args ∅ = FlagsOk fl rest ->
  snd (conv args w) = snd (convert_main h elf_read unmarshal embedded decode_env sha256 sha1 fl w).
Proof using. intros Hf. unfold Main. rewrite Hf. by destruct (convert_main _ _ _ _ _ _ _ fl w) as [[[rc ms]|e] w1]. Qed.

#[export] Instance converter_main : Converter (apart h sha256) conv profile object_of.
Proof using.
  split.
  - intros args w. unfold Main. destruct (parse_flags _ args ∅) as [fl rest|s]; [|exists []; by rewrite app_nil_r].
    destruct (only_main fl w) as (cs & Hc & G). exists cs. by destruct (convert_main _ _ _ _ _ _ _ fl w) as [[[rc ms]|e] w1].
  - intros arch w. apply only_profile.
  - intros arch p v Hp. unfold ConvertProfile. apply keeps_bind; [by eapply keeps_resolve|]. intros [m ver]. apply keeps_bind; auto with io.
  - intros o elf p w Hp Ho Hs. rewrite (main_world _ _ _ w (parse_conv_args o elf)). destruct (conv_flags_at o elf) as ((_ & Eo & _) & (Es & _) & _).
    apply (main_keeps (conv_flags o elf) p (wo_fs w !! p) Hp); [by rewrite Eo | by rewrite Es | done].
  - intros o elf w ms w' Hp E. destruct (conv_flags_at o elf) as ((Ei & Eo & Ep) & (Es & Ea & El) & Ev & Epr).
    assert (apart h sha256 (default "" (conv_flags o elf !! "in"))) as Hi by by rewrite Ei.
    destruct (Main_converts _ _ _ _ _ _ _ _ _ _ _ _ _ (parse_conv_args o elf) Ev Epr Hi E) as (_ & input & ef & m & f & c & hdr & b & Hin & H & Hout & _).
    rewrite Ei in Hin. rewrite Eo, Es in Hout. change (Side (o_Out o) +:+ ".symabis" <> o_Out o -> wo_fs w' !! o_Out o = Some b) in Hout. exists input, b. split; [done|]. split; [by eapply made_object|].
    apply Hout. destruct (side_distinct o) as [Hn _]. intros Hx. apply Hn. rewrite <-Hx. by left.
  - intros o elf w rc ms w' Hp Ho E Hrc. destruct (conv_flags_at o elf) as ((Ei & Eo & Ep) & (Es & Ea & El) & Ev & Epr).
    assert (apart h sha256 (default "" (conv_flags o elf !! "in"))) as Hi by by rewrite Ei.
    assert (apart h sha256 (default "" (conv_flags o elf !! "o"))) as Ho' by by rewrite Eo.
    destruct (Main_failed _ _ _ _ _ _ _ _ _ _ _ _ _ _ (parse_conv_args o elf) Ev Epr Hi Ho' E Hrc) as [H|[H|(_ & b & Hm & H)]]; rewrite Eo in H;
      [by left | by right; left|]. right. right.
    destruct Hm as (input & ef & m & f & c & hdr & H'). exists input, b. split; [by eapply made_object | exact H].
Qed.

(** ** Builds with this converter *)

Section Builds.
Variable t : Tools.
Variable goabi_json : goABIResult -> list Z.
Local Abbreviation build := (Build h t conv profile goabi_json).

(** C17. A build that succeeds, end to end: the object file is the one that the converter
    makes of the side [.gocobj] beside it; that file parses, breaks no invariant of
    [Verify], was compiled for the ABI of the Go release and checks the stack itself;
    and the side [.ll] is there.  The tools may do anything in the work directory; the
    go command leaves the ELF file alone and the outputs are not in the work directory. *)
Theorem build_object o w w' (E := effective o) :
  (forall d, work_dir h o d -> apart h sha256 (path d "body.llc.o") /\ forall p, p ∈ o_Out E :: side_files E -> outside d p) ->
  build o w = (Ok (), w') -> exists input obj ir, object_of E input obj /\
    wo_fs w' !! o_Out E = Some obj /\ wo_fs w' !! (Side (o_Out E) +:+ ".gocobj") = Some input /\ wo_fs w' !! (Side (o_Out E) +:+ ".ll") = Some ir.
Proof using.
  intros Hd Hb. destruct (Build_ok h t (apart h sha256) conv profile goabi_json object_of o w w' Hd Hb) as (input & obj & ir & H1 & H2 & H3 & H4).
  by exists input, obj, ir.
Qed.

End Builds.
End Instance.

(** ** A small build *)

Definition demo_ir (body : string) : string :=
  "define i32 @f(i32 %a) {" +:+ String newline ("  " +:+ body +:+ String newline ("  ret i32 %a" +:+ String newline ("}" +:+ String newline ""))).

(** The argument after [-o] and the like. *)
Fixpoint arg_after (k : string) (l : list string) : string :=
  match l with a :: ((b :: _) as l) => if String.eqb a k then b else arg_after k l | _ => "" end.

(** Tools that write what the next one needs, in the work directory: the IR, assembly, an
    ELF file; a go command of release 1.24.4. *)
Definition demo_put (c : call) (k : string) (b : list Z) (f : gmap string (list Z)) : gmap string (list Z) :=
  let p := arg_after k (cl_args c) in if under "/tmp/goc-build" p then <[p := b]> f else f.

Definition demo_exec (ir : string) (c : call) (f : gmap string (list Z)) : res string string * gmap string (list Z) :=
  if String.eqb (cl_bin c) "go" then
    if bool_decide (head (cl_args c) = Some "tool") then (Ok "", <["/tmp/goc-hdr/x.o" := bytes_of_string ("go object linux amd64 go1.24.4" +:+ String newline "!")]> f)
    else (Ok ("go1.24.4" +:+ String newline ""), f)
  else if String.eqb (cl_bin c) "ldd" then (Ok "", f)
  else if String.eqb (Base (cl_bin c)) "goc-llc" then (Ok "", demo_put c "-goc-tables" [] (demo_put c "-o" [] f))
  else if String.eqb (Base (cl_bin c)) "llvm-mc" then (Ok "", demo_put c "-o" [127] f)
  else (Ok "default<O2>", demo_put c "-o" (bytes_of_string ir) f).

Definition build_host (ir : string) : host :=
  mkHost (demo_exec ir) (fun _ => true) (fun _ => true) (fun _ => true) (fun _ => true) Some [] (fun p => "open " +:+ p) (fun _ => true)
    (fun p => Ok ("/tmp/" +:+ p)) None 1.

Definition demo_options (level : Z) : Options := mkOptions "f.c" "" level "" false false "" "" [] [] "" "" "" false [].

Definition demo_sha (n : nat) (_ : list Z) : list Z := replicate n 7.

Definition demo_conv (ir : string) : list string -> world -> Z * list msg * world :=
  Main (build_host ir) (fun _ => Ok demo_input) (fun _ => Ok demo_facts) {[ "go1.24" := [] ]} (fun _ => Ok {[ "GOVERSION" := "go1.24.4" ]}) (demo_sha 32) (demo_sha 20).

Definition demo_profile (ir : string) : string -> io string := ConvertProfile (build_host ir) (fun _ => Ok demo_facts) {[ "go1.24" := [] ]}.

Definition demo_build (ir : string) (level : Z) : res string () * world :=
  Build (build_host ir) demo_tools (demo_conv ir) (demo_profile ir) (fun _ => []) (demo_options level) (mkWorld ∅ []).

Lemma demo_put_ne c k b f p : under "/tmp/goc-build" p = false -> demo_put c k b f !! p = f !! p.
Proof. intros Hp. unfold demo_put. cbv zeta. set (q := arg_after k (cl_args c)). destruct (under "/tmp/goc-build" q) eqn:E; [|reflexivity]. apply lookup_insert_ne. congruence. Qed.

Lemma demo_untouched ir p : under "/tmp/goc-build" p = false -> p <> "/tmp/goc-hdr/x.o" -> untouched (build_host ir) p.
Proof.
  intros Hp Hx c f. cbn [build_host h_exec]. unfold demo_exec. repeat case_match; cbn [snd]; rewrite ?demo_put_ne by done; try done. by apply lookup_insert_ne.
Qed.

Lemma demo_apart_build ir p : p <> "/tmp/goc-hdr/x.o" -> p <> "/tmp/goc-hdr/x.s" -> under "/tmp/goc-hdr" p = false -> p <> "" -> p <> ".1" ->
  apart (build_host ir) (demo_sha 32) p.
Proof.
  intros Ho Hs Hu Hn Ht. split; [|intros t [= <-]; exact (conj Hu Hs) | intros b goarch; exact (conj Hn Ht)]. intros c f Hc. cbn [build_host h_exec]. unfold demo_exec. rewrite Hc, String.eqb_refl.
  destruct (bool_decide _); [|done]. cbn [snd]. by apply lookup_insert_ne.
Qed.

Lemma demo_work level d : work_dir (build_host "") (demo_options level) d -> d = "/tmp/goc-build".
Proof. by intros [= <-]. Qed.

Lemma demo_outside p : under "/tmp/goc-build" p = false -> outside "/tmp/goc-build" p.
Proof. by apply outside_clean. Qed.

Definition demo_outputs : list string := ["f.goobj"; "f.symabis"; "f.gocobj"; "f.ll"].

Lemma demo_elf ir : apart (build_host ir) (demo_sha 32) (path "/tmp/goc-build" "body.llc.o").
Proof. apply demo_apart_build; vm_compute; congruence. Qed.

Lemma build_object_witness : exists w', demo_build (demo_ir "") 2 = (Ok (), w') /\ exists input obj,
  object_of (build_host (demo_ir "")) (fun _ => Ok demo_input) (demo_sha 32) (demo_sha 20) (effective (demo_options 2)) input obj /\ wo_fs w' !! "f.goobj" = Some obj.
Proof.
  destruct (demo_build (demo_ir "") 2) as [r w'] eqn:E. assert (r = Ok ()) as -> by (assert (r = (demo_build (demo_ir "") 2).1) as -> by (by rewrite E); vm_compute; reflexivity).
  exists w'. split; [reflexivity|].
  destruct (build_object (build_host (demo_ir "")) (fun _ => Ok demo_input) (fun _ => Ok demo_facts) {[ "go1.24" := [] ]} (fun _ => Ok {[ "GOVERSION" := "go1.24.4" ]})
    (demo_sha 32) (demo_sha 20) demo_tools (fun _ => []) (demo_options 2) (mkWorld ∅ []) w') as (input & obj & ir & Ho & H1 & _); [|exact E|].
  - intros d [= <-]. split; [apply demo_elf|]. change (forall p, p ∈ demo_outputs -> outside "/tmp/goc-build" p). apply Forall_forall.
    repeat (constructor; [apply demo_outside; reflexivity|]). constructor.
  - exists input, obj. split; [exact Ho | exact H1].
Defined.

Lemma Build_stages_witness : exists w' d cs, demo_build (demo_ir "") 0 = (Ok (), w') /\ wo_calls w' = cs /\ build_calls (build_host (demo_ir "")) demo_tools (effective (demo_options 0)) d cs.
Proof.
  destruct (demo_build (demo_ir "") 0) as [r w'] eqn:E. assert (r = Ok ()) as -> by (assert (r = (demo_build (demo_ir "") 0).1) as -> by (by rewrite E); vm_compute; reflexivity).
  destruct (Build_stages (build_host (demo_ir "")) demo_tools (apart (build_host (demo_ir "")) (demo_sha 32)) (demo_conv (demo_ir "")) (demo_profile (demo_ir "")) (fun _ => [])
    (object_of (build_host (demo_ir "")) (fun _ => Ok demo_input) (demo_sha 32) (demo_sha 20)) (demo_options 0) (mkWorld ∅ []) w' E) as (d & cs & _ & Hc & Hb & _).
  exists w', d, cs. split; [reflexivity|]. split; [exact Hc | exact Hb].
Defined.


Example object_stays : let r := demo_build (demo_ir "; 28C0DE42") 2 in
  fst r = Fail ("FAIL: magic 0x28C0DE42 not in goobj TEXT — body not from source" +:+ String newline "goc build: real-body lower failed; no object emitted") /\
  (length <$> (wo_fs (snd r) !! "f.goobj")) = Some 1070%nat.
Proof. split; vm_compute; reflexivity. Qed.
