(* ===== verification/Cmd.v ===== *)
(** * The goc command: switches

    Models src/cmd/goc/flags.go and the argument loops of main.go ([goc build]) and
    gocmd.go ([goc go], [goc check]).  An argument loop works on the arguments that are
    left, [args[i:]]. *)

From Stdlib Require Import ZArith Lia Ascii.
From stdpp Require Import base list strings gmap sorting.
From S2P Require Import Prelude Text World Layout Toolchain Pipeline.

(** ** Settings *)

Record settings := mkSettings { s_o : Options; s_seen : gset string }.

Definition no_options : Options := mkOptions "" "" 0 "" false false "" "" [] [] "" "" "" false [].
Definition newSettings : settings := mkSettings no_options ∅.

(** Assignments to one field. *)
Definition set_Src v (o : Options) := mkOptions v (o_Out o) (o_OptLevel o) (o_DefaultPtrColor o) (o_FastStackAlloca o) (o_ColorReport o) (o_Arch o)
  (o_KeepTmp o) (o_OptExtra o) (o_LLCExtra o) (o_Pkg o) (o_IRRenames o) (o_LibcallImpl o) (o_ABI0 o) (o_ClangArgs o).
Definition set_Out v (o : Options) := mkOptions (o_Src o) v (o_OptLevel o) (o_DefaultPtrColor o) (o_FastStackAlloca o) (o_ColorReport o) (o_Arch o)
  (o_KeepTmp o) (o_OptExtra o) (o_LLCExtra o) (o_Pkg o) (o_IRRenames o) (o_LibcallImpl o) (o_ABI0 o) (o_ClangArgs o).
Definition set_OptLevel v (o : Options) := mkOptions (o_Src o) (o_Out o) v (o_DefaultPtrColor o) (o_FastStackAlloca o) (o_ColorReport o) (o_Arch o)
  (o_KeepTmp o) (o_OptExtra o) (o_LLCExtra o) (o_Pkg o) (o_IRRenames o) (o_LibcallImpl o) (o_ABI0 o) (o_ClangArgs o).
Definition set_DefaultPtrColor v (o : Options) := mkOptions (o_Src o) (o_Out o) (o_OptLevel o) v (o_FastStackAlloca o) (o_ColorReport o) (o_Arch o)
  (o_KeepTmp o) (o_OptExtra o) (o_LLCExtra o) (o_Pkg o) (o_IRRenames o) (o_LibcallImpl o) (o_ABI0 o) (o_ClangArgs o).
Definition set_FastStackAlloca v (o : Options) := mkOptions (o_Src o) (o_Out o) (o_OptLevel o) (o_DefaultPtrColor o) v (o_ColorReport o) (o_Arch o)
  (o_KeepTmp o) (o_OptExtra o) (o_LLCExtra o) (o_Pkg o) (o_IRRenames o) (o_LibcallImpl o) (o_ABI0 o) (o_ClangArgs o).
Definition set_ColorReport v (o : Options) := mkOptions (o_Src o) (o_Out o) (o_OptLevel o) (o_DefaultPtrColor o) (o_FastStackAlloca o) v (o_Arch o)
  (o_KeepTmp o) (o_OptExtra o) (o_LLCExtra o) (o_Pkg o) (o_IRRenames o) (o_LibcallImpl o) (o_ABI0 o) (o_ClangArgs o).
Definition set_Arch v (o : Options) := mkOptions (o_Src o) (o_Out o) (o_OptLevel o) (o_DefaultPtrColor o) (o_FastStackAlloca o) (o_ColorReport o) v
  (o_KeepTmp o) (o_OptExtra o) (o_LLCExtra o) (o_Pkg o) (o_IRRenames o) (o_LibcallImpl o) (o_ABI0 o) (o_ClangArgs o).
Definition set_KeepTmp v (o : Options) := mkOptions (o_Src o) (o_Out o) (o_OptLevel o) (o_DefaultPtrColor o) (o_FastStackAlloca o) (o_ColorReport o) (o_Arch o)
  v (o_OptExtra o) (o_LLCExtra o) (o_Pkg o) (o_IRRenames o) (o_LibcallImpl o) (o_ABI0 o) (o_ClangArgs o).
Definition set_OptExtra v (o : Options) := mkOptions (o_Src o) (o_Out o) (o_OptLevel o) (o_DefaultPtrColor o) (o_FastStackAlloca o) (o_ColorReport o) (o_Arch o)
  (o_KeepTmp o) v (o_LLCExtra o) (o_Pkg o) (o_IRRenames o) (o_LibcallImpl o) (o_ABI0 o) (o_ClangArgs o).
Definition set_LLCExtra v (o : Options) := mkOptions (o_Src o) (o_Out o) (o_OptLevel o) (o_DefaultPtrColor o) (o_FastStackAlloca o) (o_ColorReport o) (o_Arch o)
  (o_KeepTmp o) (o_OptExtra o) v (o_Pkg o) (o_IRRenames o) (o_LibcallImpl o) (o_ABI0 o) (o_ClangArgs o).
Definition set_Pkg v (o : Options) := mkOptions (o_Src o) (o_Out o) (o_OptLevel o) (o_DefaultPtrColor o) (o_FastStackAlloca o) (o_ColorReport o) (o_Arch o)
  (o_KeepTmp o) (o_OptExtra o) (o_LLCExtra o) v (o_IRRenames o) (o_LibcallImpl o) (o_ABI0 o) (o_ClangArgs o).
Definition set_IRRenames v (o : Options) := mkOptions (o_Src o) (o_Out o) (o_OptLevel o) (o_DefaultPtrColor o) (o_FastStackAlloca o) (o_ColorReport o) (o_Arch o)
  (o_KeepTmp o) (o_OptExtra o) (o_LLCExtra o) (o_Pkg o) v (o_LibcallImpl o) (o_ABI0 o) (o_ClangArgs o).
Definition set_LibcallImpl v (o : Options) := mkOptions (o_Src o) (o_Out o) (o_OptLevel o) (o_DefaultPtrColor o) (o_FastStackAlloca o) (o_ColorReport o) (o_Arch o)
  (o_KeepTmp o) (o_OptExtra o) (o_LLCExtra o) (o_Pkg o) (o_IRRenames o) v (o_ABI0 o) (o_ClangArgs o).
Definition set_ABI0 v (o : Options) := mkOptions (o_Src o) (o_Out o) (o_OptLevel o) (o_DefaultPtrColor o) (o_FastStackAlloca o) (o_ColorReport o) (o_Arch o)
  (o_KeepTmp o) (o_OptExtra o) (o_LLCExtra o) (o_Pkg o) (o_IRRenames o) (o_LibcallImpl o) v (o_ClangArgs o).
Definition set_ClangArgs v (o : Options) := mkOptions (o_Src o) (o_Out o) (o_OptLevel o) (o_DefaultPtrColor o) (o_FastStackAlloca o) (o_ColorReport o) (o_Arch o)
  (o_KeepTmp o) (o_OptExtra o) (o_LLCExtra o) (o_Pkg o) (o_IRRenames o) (o_LibcallImpl o) (o_ABI0 o) v.

Definition upd (f : Options -> Options) (s : settings) : settings := mkSettings (f (s_o s)) (s_seen s).
Definition see (k : string) (s : settings) : settings := mkSettings (s_o s) ({[ k ]} ∪ s_seen s).

(** ** One switch *)

(** The value of the switch [name], and how many arguments it takes; [None] when the
    argument is another one. *)
Definition switch_value (name a : string) (rest : list string) : option (res string (string * nat)) :=
  if String.eqb a name then
    match rest with
    | v :: _ => if String.eqb v "" then Some (Fail (a +:+ " needs a value")) else Some (Ok (v, 2%nat))
    | [] => Some (Fail (a +:+ " needs a value"))
    end
  else match after_prefix (name +:+ "=") a with Some v => Some (Ok (v, 1%nat)) | None => None end.

Definition value_switches : list string :=
  ["--default-ptr-color"; "--arch"; "--keep-tmp"; "--opt-extra"; "--llc-extra"; "--pkg"; "--ir-renames"; "--libcall-impl"].

(** What the value does to the settings. *)
Definition apply_value (name v : string) (s : settings) : res string settings :=
  if String.eqb name "--default-ptr-color" then
    if String.eqb v "" then Fail "--default-ptr-color needs a value" else Ok (see "default-ptr-color" (upd (set_DefaultPtrColor v) s))
  else if String.eqb name "--arch" then
    if negb (String.eqb v "amd64") && negb (String.eqb v "arm64") then Fail "--arch wants amd64 or arm64" else Ok (upd (set_Arch v) s)
  else if String.eqb name "--keep-tmp" then if String.eqb v "" then Fail "--keep-tmp needs a directory" else Ok (upd (set_KeepTmp v) s)
  else if String.eqb name "--opt-extra" then Ok (upd (set_OptExtra (Fields v)) s)
  else if String.eqb name "--llc-extra" then Ok (upd (set_LLCExtra (Fields v)) s)
  else if String.eqb name "--pkg" then if String.eqb v "" then Fail "--pkg needs a package path" else Ok (see "pkg" (upd (set_Pkg v) s))
  else if String.eqb name "--ir-renames" then Ok (upd (set_IRRenames v) s)
  else Ok (upd (set_LibcallImpl v) s).

Fixpoint consume_value (names : list string) (s : settings) (a : string) (rest : list string) : res string (nat * settings) :=
  match names with
  | [] => Ok (0%nat, s)
  | name :: names =>
      match switch_value name a rest with
      | None => consume_value names s a rest
      | Some (Fail e) => Fail e
      | Some (Ok (v, n)) => s ← apply_value name v s; Ok (n, s)
      end
  end.

Definition opt_switches : list (string * Z) := [("-O0", 0); ("-O1", 1); ("-O2", 2); ("-O3", 3)].

Section Host.
Variable h : host.

(** [consume]: how many of the arguments [a :: rest] are a compile switch. *)
Definition consume (s : settings) (a : string) (rest : list string) : io (nat * settings) :=
  match list_find (fun p => fst p = a) opt_switches with
  | Some (_, (_, n)) => mret (1%nat, see "opt" (upd (set_OptLevel n) s))
  | None =>
      if String.eqb a "--no-default-ptr-color" then mret (1%nat, see "default-ptr-color" (upd (set_DefaultPtrColor "") s))
      else if String.eqb a "--fast-stack-alloca" || String.eqb a "--no-fast-stack-alloca"
      then mret (1%nat, see "fast-stack-alloca" (upd (set_FastStackAlloca (String.eqb a "--fast-stack-alloca")) s))
      else if String.eqb a "--color-report" || String.eqb a "--no-color-report"
      then mret (1%nat, upd (set_ColorReport (String.eqb a "--color-report")) s)
      else if String.eqb a "--abi0" then mret (1%nat, upd (set_ABI0 true) s)
      else if String.eqb a "--keep-tmp" then d ← lift (h_tmp h "goc-keep"); mret (1%nat, upd (set_KeepTmp d) s)
      else lift (consume_value value_switches s a rest)
  end.

Definition seen (s : settings) (k : string) : bool := bool_decide (k ∈ s_seen s).

Definition productDefaults (s : settings) : settings :=
  let s := if seen s "opt" then s else upd (set_OptLevel 3) s in
  let s := if seen s "default-ptr-color" then s else upd (set_DefaultPtrColor "cptr") s in
  if seen s "fast-stack-alloca" then s else upd (set_FastStackAlloca true) s.

(** The words of [String]. *)
Definition switch_words (s : settings) : list string :=
  let o := s_o s in
  ["-O" +:+ dec (o_OptLevel o)] ++
  (if nonempty (o_DefaultPtrColor o) then ["--default-ptr-color"; o_DefaultPtrColor o]
   else if seen s "default-ptr-color" then ["--no-default-ptr-color"] else []) ++
  [if o_FastStackAlloca o then "--fast-stack-alloca" else "--no-fast-stack-alloca"] ++
  (if o_ColorReport o then ["--color-report"] else []) ++
  (if nonempty (o_Arch o) then ["--arch"; o_Arch o] else []) ++
  (match o_OptExtra o with [] => [] | l => ["--opt-extra"; join " " l] end) ++
  (match o_LLCExtra o with [] => [] | l => ["--llc-extra"; join " " l] end) ++
  (if nonempty (o_IRRenames o) then ["--ir-renames"; o_IRRenames o] else []) ++
  (if nonempty (o_LibcallImpl o) then ["--libcall-impl"; o_LibcallImpl o] else []) ++
  (if nonempty (o_KeepTmp o) then ["--keep-tmp=" +:+ o_KeepTmp o] else []) ++
  (if nonempty (o_Pkg o) then ["--pkg"; o_Pkg o] else []).

Definition settings_String (s : settings) : string := join " " (switch_words s).

(** ** Argument loops

    [None]: the loop is done; [Some n]: the process exits with status [n].  A switch takes
    one argument or two, which are there ([consume_len]). *)

(** [goc build]. *)
Fixpoint build_loop (s : settings) (args : list string) : io (settings * option Z) :=
  match args with
  | [] => mret (s, None)
  | a :: rest =>
      '(n, s) ← consume s a rest;
      match n with
      | S O => build_loop s rest
      | S (S _) => match rest with _ :: rest => build_loop s rest | [] => mret (s, None) end
      | O =>
          if String.eqb a "-o" then
            match rest with [] => fail "-o needs a path" | p :: rest => build_loop (upd (set_Out p) s) rest end
          else if String.eqb a "--" then mret (upd (fun o => set_ClangArgs (o_ClangArgs o ++ rest) o) s, None)
          else if String.eqb a "-h" || String.eqb a "--help" then mret (s, Some 0)
          else if HasPrefix a "-" then build_loop (upd (fun o => set_ClangArgs (o_ClangArgs o ++ [a]) o) s) rest
          else if String.eqb (o_Src (s_o s)) "" then build_loop (upd (set_Src a) s) rest
          else build_loop (upd (fun o => set_ClangArgs (o_ClangArgs o ++ [a]) o) s) rest
      end
  end.

(** [goc go]: the settings, the directory, the output, the object directory, the clang
    arguments. *)
Record go_args := mkGoArgs { ga_s : settings; ga_dir : string; ga_out : string; ga_objdir : string; ga_extra : list string }.

Fixpoint go_loop (g : go_args) (args : list string) : io (go_args * option Z) :=
  let '(mkGoArgs s dir out objdir extra) := g in
  match args with
  | [] => mret (g, None)
  | a :: rest =>
      '(n, s) ← consume s a rest;
      match n with
      | S O => go_loop (mkGoArgs s dir out objdir extra) rest
      | S (S _) => match rest with _ :: rest => go_loop (mkGoArgs s dir out objdir extra) rest | [] => mret (mkGoArgs s dir out objdir extra, None) end
      | O =>
          if String.eqb a "-h" || String.eqb a "--help" then mret (mkGoArgs s dir out objdir extra, Some 0)
          else if String.eqb a "-o" then
            match rest with [] => fail "-o needs a path" | p :: rest => go_loop (mkGoArgs s dir p objdir extra) rest end
          else if String.eqb a "--objdir" || HasPrefix a "--objdir=" then
            match after_prefix "--objdir=" a, rest with
            | Some v, _ => go_loop (mkGoArgs s dir out v extra) rest
            | None, d :: rest => go_loop (mkGoArgs s dir out d extra) rest
            | None, [] => fail "--objdir needs a directory"
            end
          else if String.eqb a "--" then mret (mkGoArgs s dir out objdir rest, None)
          else if HasPrefix a "-" then fail ("unknown flag: " +:+ a +:+ " (clang arguments go after --)")
          else go_loop (mkGoArgs s a out objdir extra) rest
      end
  end.

(** [goc check]. *)
Fixpoint check_loop (s : settings) (args : list string) : io (settings * option Z) :=
  match args with
  | [] => mret (s, None)
  | a :: rest =>
      '(n, s) ← consume s a rest;
      match n with
      | S O => check_loop s rest
      | S (S _) => match rest with _ :: rest => check_loop s rest | [] => mret (s, None) end
      | O => if String.eqb a "-h" || String.eqb a "--help" then mret (s, Some 0) else fail ("takes switches only (got " +:+ a +:+ ")")
      end
  end.
End Host.

(** ** The loops end *)

Section Loops.
Variable h : host.

Lemma switch_value_len name a rest v n : switch_value name a rest = Some (Ok (v, n)) -> (0 < n <= S (length rest))%nat.
Proof using.
  unfold switch_value. destruct (String.eqb a name).
  - destruct rest as [|x rest]; [done|]. destruct (String.eqb x ""); [done|]. intros [= _ <-]. cbn. lia.
  - destruct (after_prefix _ a); [|done]. intros [= _ <-]. lia.
Qed.

Lemma consume_value_len names s a rest n s' : consume_value names s a rest = Ok (n, s') -> (n <= S (length rest))%nat.
Proof using.
  induction names as [|name names IH]; cbn [consume_value]; [intros [= <- _]; lia|].
  destruct (switch_value name a rest) as [[[v k]|e]|] eqn:E; [|done | apply IH]. intros H. ok_step H s2. injection H as <- _. by apply switch_value_len in E as [_ E].
Qed.

(** A switch is not longer than the arguments that are left. *)
Lemma consume_len s a rest w n s' w' : consume h s a rest w = (Ok (n, s'), w') -> (n <= S (length rest))%nat.
Proof using.
  unfold consume. destruct (list_find _ _) as [[? [? ?]]|]; [intros [= <- _ _]; lia|]. repeat case_match; try (intros [= <- _ _]; lia).
  - intros E. io_step E d w1. injection E as <- _ _. lia.
  - intros E. apply lift_ok in E as [E _]. by apply consume_value_len in E.
Qed.

(** ** Switches that are read back *)

(** Reading [words] takes the settings from [s] to [s'], whatever follows. *)
Definition reads (words : list string) (s s' : settings) : Prop := forall g rest w, ga_s g = s ->
  go_loop h g (words ++ rest) w = go_loop h (mkGoArgs s' (ga_dir g) (ga_out g) (ga_objdir g) (ga_extra g)) rest w.

Lemma reads_nil s : reads [] s s.
Proof using. by intros [] rest w <-. Qed.

Lemma reads_app a b s s1 s2 : reads a s s1 -> reads b s1 s2 -> reads (a ++ b) s s2.
Proof using. intros Ha Hb g rest w Hg. rewrite <-app_assoc, (Ha g _ w Hg). by rewrite Hb. Qed.

Lemma reads_one a s s' : (forall rest w, consume h s a rest w = (Ok (1%nat, s'), w)) -> reads [a] s s'.
Proof using. intros H [s0 dir out objdir extra] rest w [= ->]. cbn [app go_loop]. unfold mbind, io_bind. by rewrite H. Qed.

Lemma reads_two a v s s' : (forall rest w, consume h s a (v :: rest) w = (Ok (2%nat, s'), w)) -> reads [a; v] s s'.
Proof using. intros H [s0 dir out objdir extra] rest w [= ->]. cbn [app go_loop]. unfold mbind, io_bind. by rewrite H. Qed.

Lemma reads_if (b : bool) words s s' : (b = true -> reads words s s') -> (b = false -> s = s') -> reads (if b then words else []) s s'.
Proof using. intros H1 H2. destruct b; [by apply H1 | rewrite H2 by done; apply reads_nil]. Qed.

(** Switches that are not the one that is given. *)
Ltac skip_switches :=
  repeat match goal with |- context [switch_value ?n ?a ?r] => change (switch_value n a r) with (@None (res string (string * nat))) end.

Lemma consume_keep s d rest w : nonempty d = true -> consume h s ("--keep-tmp=" +:+ d) rest w = (Ok (1%nat, upd (set_KeepTmp d) s), w).
Proof using.
  intros Hd. unfold nonempty in Hd. apply negb_true_iff in Hd.
  assert (consume h s ("--keep-tmp=" +:+ d) rest w = lift (consume_value value_switches s ("--keep-tmp=" +:+ d) rest) w) as -> by reflexivity.
  assert (switch_value "--keep-tmp" ("--keep-tmp=" +:+ d) rest = Some (Ok (d, 1%nat))) as E by reflexivity.
  unfold value_switches. cbn [consume_value]. rewrite E. skip_switches. cbv iota. unfold apply_value.
  change (String.eqb "--keep-tmp" "--default-ptr-color") with false. change (String.eqb "--keep-tmp" "--arch") with false. rewrite String.eqb_refl, Hd. reflexivity.
Qed.

Lemma consume_opt s n rest w : 0 <= n <= 3 -> consume h s ("-O" +:+ dec n) rest w = (Ok (1%nat, see "opt" (upd (set_OptLevel n) s)), w).
Proof using. intros Hn. assert (n = 0 \/ n = 1 \/ n = 2 \/ n = 3) as [->|[->|[->| ->]]] by lia; reflexivity. Qed.

Definition plain_switches : list string := ["--default-ptr-color"; "--arch"; "--opt-extra"; "--llc-extra"; "--pkg"; "--ir-renames"; "--libcall-impl"].

Lemma value_given s name v rest : nonempty v = true -> name ∈ plain_switches ->
  consume_value value_switches s name (v :: rest) = (s ← apply_value name v s; Ok (2%nat, s)).
Proof using.
  intros Hv Hn. assert (switch_value name name (v :: rest) = Some (Ok (v, 2%nat))) as E.
  { unfold switch_value, nonempty in *. apply negb_true_iff in Hv. by rewrite String.eqb_refl, Hv. }
  unfold value_switches. cbn [consume_value]. repeat (apply elem_of_cons in Hn as [->|Hn]; [rewrite E; by skip_switches|]). by apply not_elem_of_nil in Hn.
Qed.

Lemma consume_two s name v rest w s' : nonempty v = true -> name ∈ plain_switches ->
  apply_value name v s = Ok s' -> consume h s name (v :: rest) w = (Ok (2%nat, s'), w).
Proof using.
  intros Hv Hn E. assert (consume h s name (v :: rest) w = lift (consume_value value_switches s name (v :: rest)) w) as ->.
  { repeat (apply elem_of_cons in Hn as [->|Hn]; [reflexivity|]). by apply not_elem_of_nil in Hn. }
  rewrite value_given by done. by rewrite E.
Qed.

Lemma reads_value name v s s' : nonempty v = true -> name ∈ plain_switches -> apply_value name v s = Ok s' -> reads [name; v] s s'.
Proof using. intros Hv Hn E. apply reads_two. intros rest w. by apply consume_two. Qed.

(** *** The switches of a settings value *)

Definition word (w : string) : Prop := all_in (fun c => negb (is_space c)) w = true /\ w <> "".

Lemma fields_word w : forall cur s, all_in (fun c => negb (is_space c)) w = true -> cur +:+ w <> "" ->
  fields_go cur (w +:+ String " " s) = (cur +:+ w) :: fields_go "" s /\ fields_go cur w = [cur +:+ w].
Proof using.
  induction w as [|c w IH]; intros cur s Hw Hne.
  - rewrite string_app_nil in *. change ("" +:+ String " " s) with (String " " s). cbn [fields_go]. change (is_space " ") with true. cbn iota.
    rewrite (proj2 (String.eqb_neq cur "")) by done. done.
  - cbn [all_in] in Hw. apply andb_true_iff in Hw as [Hc%negb_true_iff Hw]. change (String c w +:+ String " " s) with (String c (w +:+ String " " s)).
    cbn [fields_go]. rewrite Hc. assert ((cur +:+ String c "") +:+ w = cur +:+ String c w) as E by by rewrite string_app_assoc.
    destruct (IH (cur +:+ String c "") s Hw) as [-> ->]; [by rewrite E|]. by rewrite E.
Qed.

Lemma Fields_join l : Forall word l -> Fields (join " " l) = l.
Proof using.
  unfold Fields. induction l as [|w l IH]; intros H; [done|]. inversion H as [|?? [Hw Hne] Hl]; subst. destruct l as [|w2 l].
  - exact (proj2 (fields_word w "" "" Hw Hne)).
  - change (join " " (w :: w2 :: l)) with (w +:+ String " " (join " " (w2 :: l))). rewrite (proj1 (fields_word w "" _ Hw Hne)). f_equal. by apply IH.
Qed.

Lemma join_nonempty l : Forall word l -> l <> [] -> nonempty (join " " l) = true.
Proof using. destruct l as [|w l]; [done|]. intros [[_ Hw] _]%Forall_cons _. unfold nonempty. apply negb_true_iff, String.eqb_neq. destruct w; [done|]. by destruct l. Qed.

(** Options whose switches can be printed: [--abi0] has no place in [String], and the
    extra arguments are split at spaces. *)
Record printable (o : Options) : Prop := {
  pr_level : 0 <= o_OptLevel o <= 3;
  pr_arch : o_Arch o ∈ [""; "amd64"; "arm64"];
  pr_opt : Forall word (o_OptExtra o);
  pr_llc : Forall word (o_LLCExtra o);
  pr_abi0 : o_ABI0 o = false;
  pr_rest : o_Src o = "" /\ o_Out o = "" /\ o_ClangArgs o = [] }.

(** An option that is set when it is not empty. *)
Lemma reads_nonempty name v f s : name ∈ plain_switches -> (nonempty v = true -> apply_value name v s = Ok (f s)) ->
  reads (if nonempty v then [name; v] else []) s (if nonempty v then f s else s).
Proof using. intros Hn Ha. destruct (nonempty v) eqn:E; [by apply reads_value; auto | apply reads_nil]. Qed.

Lemma reads_extra name l f s : name ∈ plain_switches -> Forall word l -> (forall v, apply_value name v s = Ok (f (Fields v) s)) ->
  reads (match l with [] => [] | x :: l => [name; join " " (x :: l)] end) s (match l with [] => s | x :: l => f (x :: l) s end).
Proof using.
  intros Hn Hl Ha. destruct l as [|w l]; [apply reads_nil|]. apply reads_value; [by apply join_nonempty | done |]. by rewrite Ha, Fields_join.
Qed.

(** The settings that the printed switches give. *)
Definition reread (s : settings) : settings :=
  let o := s_o s in
  let s1 := see "opt" (upd (set_OptLevel (o_OptLevel o)) newSettings) in
  let s2 := if nonempty (o_DefaultPtrColor o) then see "default-ptr-color" (upd (set_DefaultPtrColor (o_DefaultPtrColor o)) s1)
            else if seen s "default-ptr-color" then see "default-ptr-color" (upd (set_DefaultPtrColor "") s1) else s1 in
  let s3 := see "fast-stack-alloca" (upd (set_FastStackAlloca (o_FastStackAlloca o)) s2) in
  let s4 := if o_ColorReport o then upd (set_ColorReport true) s3 else s3 in
  let s5 := if nonempty (o_Arch o) then upd (set_Arch (o_Arch o)) s4 else s4 in
  let s6 := match o_OptExtra o with [] => s5 | l => upd (set_OptExtra l) s5 end in
  let s7 := match o_LLCExtra o with [] => s6 | l => upd (set_LLCExtra l) s6 end in
  let s8 := if nonempty (o_IRRenames o) then upd (set_IRRenames (o_IRRenames o)) s7 else s7 in
  let s9 := if nonempty (o_LibcallImpl o) then upd (set_LibcallImpl (o_LibcallImpl o)) s8 else s8 in
  let s10 := if nonempty (o_KeepTmp o) then upd (set_KeepTmp (o_KeepTmp o)) s9 else s9 in
  if nonempty (o_Pkg o) then see "pkg" (upd (set_Pkg (o_Pkg o)) s10) else s10.

Ltac plain := apply list_elem_of_In; cbn; tauto.

Lemma reads_flag (b : bool) a f s : (b = true -> forall rest w, consume h s a rest w = (Ok (1%nat, f s), w)) ->
  reads (if b then [a] else []) s (if b then f s else s).
Proof using. intros H. destruct b; [by apply reads_one, H | apply reads_nil]. Qed.

Lemma reads_color v (b : bool) s :
  reads (if nonempty v then ["--default-ptr-color"; v] else if b then ["--no-default-ptr-color"] else []) s
    (if nonempty v then see "default-ptr-color" (upd (set_DefaultPtrColor v) s)
     else if b then see "default-ptr-color" (upd (set_DefaultPtrColor "") s) else s).
Proof using.
  destruct (nonempty v) eqn:E.
  - apply reads_value; [done | plain |]. unfold apply_value, nonempty in *. apply negb_true_iff in E. by rewrite String.eqb_refl, E.
  - destruct b; [apply reads_one; intros rest w; reflexivity | apply reads_nil].
Qed.

Lemma reads_fast (b : bool) s : reads [if b then "--fast-stack-alloca" else "--no-fast-stack-alloca"] s (see "fast-stack-alloca" (upd (set_FastStackAlloca b) s)).
Proof using. apply reads_one. intros rest w. by destruct b. Qed.

Lemma words_read s : printable (s_o s) -> reads (switch_words s) newSettings (reread s).
Proof using.
  intros [Hl Ha Ho Hc _ _]. unfold switch_words, reread. cbv zeta.
  eapply reads_app; [apply reads_one; intros rest w; by apply consume_opt|]. eapply reads_app; [apply reads_color|].
  eapply reads_app; [apply reads_fast|].
  eapply reads_app; [apply (reads_flag _ "--color-report" (upd (set_ColorReport true))); intros _ rest w; reflexivity|].
  eapply reads_app.
  { apply (reads_nonempty "--arch" _ (upd (set_Arch (o_Arch (s_o s))))); [plain|]. intros E. apply list_elem_of_In in Ha. destruct Ha as [Ha|[Ha|[Ha|[]]]]; rewrite <-Ha in *; done. }
  eapply reads_app; [apply (reads_extra "--opt-extra" _ (fun l => upd (set_OptExtra l))); [plain | done | done]|].
  eapply reads_app; [apply (reads_extra "--llc-extra" _ (fun l => upd (set_LLCExtra l))); [plain | done | done]|].
  eapply reads_app; [apply (reads_nonempty "--ir-renames" _ (upd (set_IRRenames (o_IRRenames (s_o s))))); [plain | done]|].
  eapply reads_app; [apply (reads_nonempty "--libcall-impl" _ (upd (set_LibcallImpl (o_LibcallImpl (s_o s))))); [plain | done]|].
  eapply reads_app; [apply (reads_flag _ ("--keep-tmp=" +:+ o_KeepTmp (s_o s)) (upd (set_KeepTmp (o_KeepTmp (s_o s))))); intros E rest w; by apply consume_keep|].
  apply (reads_nonempty "--pkg" _ (fun s0 => see "pkg" (upd (set_Pkg (o_Pkg (s_o s))) s0))); [plain|]. intros E. unfold apply_value, nonempty in *. apply negb_true_iff in E. by rewrite E.
Qed.

Lemma nonempty_false s : nonempty s = false -> s = "".
Proof using. unfold nonempty. intros H%negb_false_iff%String.eqb_eq. done. Qed.

(** A conditional assignment to an option that has its zero value before: the condition
    is that the new value is another one. *)
Lemma s_o_if (b : bool) f g (s : settings) o : (b = true -> forall s, s_o (f s) = g (s_o s)) -> s_o s = o -> (b = false -> g o = o) ->
  s_o (if b then f s else s) = g o.
Proof using. intros Hf <- H. destruct b; [by apply Hf | symmetry; auto]. Qed.

Lemma s_o_list (l : list string) (f : list string -> settings -> settings) g (s : settings) o : (forall l s, s_o (f l s) = g l (s_o s)) -> s_o s = o -> g [] o = o ->
  s_o (match l with [] => s | x :: l => f (x :: l) s end) = g l o.
Proof using. intros Hf <- H. destruct l; [by symmetry | apply Hf]. Qed.

Lemma s_o_color v (b : bool) (s : settings) o : s_o s = o -> set_DefaultPtrColor "" o = o ->
  s_o (if nonempty v then see "default-ptr-color" (upd (set_DefaultPtrColor v) s)
       else if b then see "default-ptr-color" (upd (set_DefaultPtrColor "") s) else s) = set_DefaultPtrColor v o.
Proof using. intros <- H. destruct (nonempty v) eqn:E; [done|]. apply nonempty_false in E as ->. by destruct b. Qed.

(** The options that switches give. *)
Definition opts (l : Z) (c : string) (f r : bool) (a k : string) (oe le : list string) (p i lc : string) : Options :=
  mkOptions "" "" l c f r a k oe le p i lc false [].

Lemma opts_of o : printable o -> o = opts (o_OptLevel o) (o_DefaultPtrColor o) (o_FastStackAlloca o) (o_ColorReport o) (o_Arch o) (o_KeepTmp o)
  (o_OptExtra o) (o_LLCExtra o) (o_Pkg o) (o_IRRenames o) (o_LibcallImpl o).
Proof using. intros [_ _ _ _ Hab (Hs & Ho & Hc)]. unfold opts. destruct o. cbn in *. by subst. Qed.

Lemma reread_options s : printable (s_o s) -> s_o (reread s) = s_o s.
Proof using.
  intros Hp. etrans; [|symmetry; exact (opts_of _ Hp)]. clear Hp. unfold reread. cbv zeta. generalize (seen s "default-ptr-color"). intros b. generalize (s_o s). intros o. destruct o as [? ? l c f r a k oe le p i lc ? ?].
  cbn [o_OptLevel o_DefaultPtrColor o_FastStackAlloca o_ColorReport o_Arch o_KeepTmp o_OptExtra o_LLCExtra o_Pkg o_IRRenames o_LibcallImpl].
  apply (s_o_if _ (fun s => see "pkg" (upd (set_Pkg p) s)) (set_Pkg p) _ (opts l c f r a k oe le "" i lc)); [reflexivity | | by intros ->%nonempty_false].
  apply (s_o_if _ (upd (set_KeepTmp k)) (set_KeepTmp k) _ (opts l c f r a "" oe le "" i lc)); [reflexivity | | by intros ->%nonempty_false].
  apply (s_o_if _ (upd (set_LibcallImpl lc)) (set_LibcallImpl lc) _ (opts l c f r a "" oe le "" i "")); [reflexivity | | by intros ->%nonempty_false].
  apply (s_o_if _ (upd (set_IRRenames i)) (set_IRRenames i) _ (opts l c f r a "" oe le "" "" "")); [reflexivity | | by intros ->%nonempty_false].
  apply (s_o_list _ (fun l => upd (set_LLCExtra l)) set_LLCExtra _ (opts l c f r a "" oe [] "" "" "")); [reflexivity | | reflexivity].
  apply (s_o_list _ (fun l => upd (set_OptExtra l)) set_OptExtra _ (opts l c f r a "" [] [] "" "" "")); [reflexivity | | reflexivity].
  apply (s_o_if _ (upd (set_Arch a)) (set_Arch a) _ (opts l c f r "" "" [] [] "" "" "")); [reflexivity | | by intros ->%nonempty_false].
  apply (s_o_if _ (upd (set_ColorReport true)) (set_ColorReport r) _ (opts l c f false "" "" [] [] "" "" "")); [by intros -> | | by intros ->].
  change (opts l c f false "" "" [] [] "" "" "") with (set_FastStackAlloca f (opts l c false false "" "" [] [] "" "" "")).
  match goal with |- s_o (see _ (upd _ ?x)) = _ => change (set_FastStackAlloca f (s_o x) = set_FastStackAlloca f (opts l c false false "" "" [] [] "" "" "")) end.
  f_equal. by apply (s_o_color c b _ (opts l "" false false "" "" [] [] "" "" "")).
Qed.

Lemma seen_see k s : seen (see k s) k = true.
Proof using. apply bool_decide_eq_true_2. cbn. set_solver. Qed.

Lemma seen_kept k k' s : seen s k' = true -> seen (see k s) k' = true.
Proof using. intros H%bool_decide_eq_true_1. apply bool_decide_eq_true_2. cbn. set_solver. Qed.

(** The settings have what [productDefaults] looks for. *)
Definition resolved (s : settings) : Prop := o_DefaultPtrColor (s_o s) = "" -> seen s "default-ptr-color" = true.

Lemma productDefaults_resolved s : resolved (productDefaults s).
Proof using.
  unfold productDefaults, resolved. set (s1 := if seen s "opt" then s else _).
  set (s2 := if seen s1 "default-ptr-color" then s1 else _).
  assert (resolved s2) as H by (unfold s2, resolved; by destruct (seen s1 "default-ptr-color") eqn:E).
  by destruct (seen s2 "fast-stack-alloca").
Qed.

Lemma seen_if (b : bool) (f : settings -> settings) s k : (seen s k = true -> seen (f s) k = true) -> seen s k = true -> seen (if b then f s else s) k = true.
Proof using. destruct b; auto. Qed.

Lemma seen_list (l : list string) (f : list string -> settings -> settings) s k : (forall l, seen s k = true -> seen (f l s) k = true) -> seen s k = true ->
  seen (match l with [] => s | x :: l => f (x :: l) s end) k = true.
Proof using. destruct l; auto. Qed.

(** The settings that are read have what the printed ones have. *)
Lemma reread_seen s k : k = "opt" \/ k = "fast-stack-alloca" \/ k = "default-ptr-color" /\ resolved s -> seen (reread s) k = true.
Proof using.
  intros Hk. unfold reread. set (o := s_o s). cbv zeta. apply (seen_if (nonempty (o_Pkg o)) (fun s0 => see "pkg" (upd (set_Pkg (o_Pkg o)) s0))); [by intros H; apply seen_kept|].
  apply (seen_if (nonempty (o_KeepTmp o)) (upd (set_KeepTmp (o_KeepTmp o)))); [done|].
  apply (seen_if (nonempty (o_LibcallImpl o)) (upd (set_LibcallImpl (o_LibcallImpl o)))); [done|].
  apply (seen_if (nonempty (o_IRRenames o)) (upd (set_IRRenames (o_IRRenames o)))); [done|].
  apply (seen_list (o_LLCExtra o) (fun l => upd (set_LLCExtra l))); [done|]. apply (seen_list (o_OptExtra o) (fun l => upd (set_OptExtra l))); [done|].
  apply (seen_if (nonempty (o_Arch o)) (upd (set_Arch (o_Arch o)))); [done|]. apply (seen_if (o_ColorReport o) (upd (set_ColorReport true))); [done|].
  destruct Hk as [->|[->|[-> Hr]]].
  - apply seen_kept. destruct (nonempty _); [by apply seen_kept, seen_see|]. destruct (seen s _); [apply seen_kept|]; apply seen_see.
  - apply seen_see.
  - apply seen_kept. unfold resolved in Hr. destruct (nonempty _) eqn:E; [apply seen_see|]. rewrite Hr by by apply nonempty_false. apply seen_see.
Qed.

Lemma reread_resolved s : resolved s -> productDefaults (reread s) = reread s.
Proof using. intros Hr. unfold productDefaults. rewrite (reread_seen s "opt"), (reread_seen s "default-ptr-color"), (reread_seen s "fast-stack-alloca"); tauto. Qed.


End Loops.

(** ** Concrete command lines *)

Definition demo_words : list string := ["--arch=arm64"; "-O2"; "--opt-extra"; " -x  -y=1"; "--keep-tmp=/t"; "--color-report"].
Definition demo_settings : settings :=
  mkSettings (opts 2 "cptr" true true "arm64" "/t" ["-x"; "-y=1"] [] "" "" "") {[ "opt" ]}.


(** The settings of [demo_words]: what [consume] makes of both forms of a value. *)
Example demo_words_read : forall w, match go_loop demo_host (mkGoArgs newSettings "." "" "" []) demo_words w with
  | (Ok (g, None), _) => s_o (productDefaults (ga_s g)) = s_o (productDefaults demo_settings)
  | _ => False
  end.
Proof. reflexivity. Qed.

(** [--abi0] is a switch of [goc go], and is missing in the line that [goc go] prints of
    its switches. *)
Example String_omits_abi0 : forall w, match go_loop demo_host (mkGoArgs newSettings "." "" "" []) ["--abi0"] w with
  | (Ok (g, _), _) => o_ABI0 (s_o (ga_s g)) = true /\ settings_String (productDefaults (ga_s g)) = "-O3 --default-ptr-color cptr --fast-stack-alloca"
  | _ => False
  end.
Proof. intros w. split; reflexivity. Qed.
