(* ===== verification/Toolexec.v ===== *)
(** * The go build hook

    Models src/cmd/goc/toolexec.go and [ToolexecFlag] of gocmd.go: [goc go] gives go build
    a -toolexec value; go build then runs every tool through [cmdToolexec], which adds the
    goc objects to one package.  What the hook prints is left out. *)

From Stdlib Require Import ZArith Lia Ascii.
From stdpp Require Import base list strings gmap.
From S2P Require Import Prelude Text World Layout Convert Pipeline.

(** ** The flag *)

(** A space, a tab, a newline or a quote. *)
Definition needs_quotes (c : ascii) : bool := code_in 9 10 c || code_in 32 32 c || code_in 34 34 c || code_in 39 39 c.

Definition flag_words (exe pkg : string) (objs : list string) : list string := [exe; "toolexec"; "-pkg"; pkg] ++ objs.

(** [exe]: the result of [os.Executable]. *)
Definition ToolexecFlag (exe : res string string) (pkg : string) (objs : list string) : res string string :=
  exe ← exe;
  match list_find (fun w => all_in (fun c => negb (needs_quotes c)) w = false) (flag_words exe pkg objs) with
  | Some (_, w) => Fail ("path " +:+ quote w +:+ " has a space or quote; go build -toolexec cannot pass it")
  | None => Ok (join " " (flag_words exe pkg objs ++ ["--"]))
  end.

(** ** The hook *)

(** The package, the objects, and the arguments from [--] on. *)
Fixpoint toolexec_args (pkg : string) (objs args : list string) : string * list string * list string :=
  match args with
  | [] => (pkg, objs, [])
  | a :: rest =>
      if String.eqb a "--" then (pkg, objs, args)
      else match String.eqb a "-pkg", rest with
           | true, p :: rest => toolexec_args p objs rest
           | _, _ => toolexec_args pkg (objs ++ [a]) rest
           end
  end.

Fixpoint argAfter (args : list string) (flag : string) : string :=
  match args with
  | a :: ((b :: _) as rest) => if String.eqb a flag then b else argAfter rest flag
  | _ => ""
  end.

Definition hasArg (args : list string) (a : string) : bool := existsb (String.eqb a) args.

(** [b, err := os.ReadFile(p)] where an error only skips the file. *)
Definition try_read (p : string) : io (option (list Z)) := fun w => (Ok (wo_fs w !! p), w).

(** A write to a file that is open for appending. *)
Definition append_to (p : string) (b : list Z) : io () := fun w =>
  (Ok (), mkWorld (<[p := default [] (wo_fs w !! p) ++ b]> (wo_fs w)) (wo_calls w)).

Fixpoint append_each (out : string) (objs : list string) : io () :=
  match objs with
  | [] => mret ()
  | obj :: objs =>
      b ← try_read (Side obj +:+ ".symabis");
      match b with
      | None => append_each out objs
      | Some b => _ ← append_to out b; append_each out objs
      end
  end.

Section Host.
Variable h : host.

(** The exit status of a process that ended with one. *)
Variable exit_code : string -> option Z.

Definition appendSymabis (out : string) (objs : list string) : io () :=
  if String.eqb out "" then mret ()
  else
    there ← try_read out;
    match there with
    | None => mret ()
    | Some _ => if h_writable h out then append_each out objs else fail (h_noent h out)
    end.

(** The member's name: the Go linker loads members that end in .o. *)
Definition member_name (obj : string) : string :=
  let name := Base obj in if HasSuffix name ".goobj" then TrimSuffix name ".goobj" +:+ ".o" else name.

Definition pack_call (pack env : list string) (archive member : string) : call :=
  mkCall (default "" (head pack)) (tail pack ++ ["r"; archive; member]) env.

Fixpoint pack_each (pack env : list string) (stage archive : string) (objs : list string) : io () :=
  match objs with
  | [] => mret ()
  | obj :: objs =>
      b ← try_read obj;
      match b with
      | None => pack_each pack env stage archive objs
      | Some b =>
          let member := path_join [stage; member_name obj] in
          _ ← WriteFile h member b;
          _ ← wrap_err (fun e => "pack " +:+ archive +:+ ": " +:+ e) (run_call h (pack_call pack env archive member));
          pack_each pack env stage archive objs
      end
  end.

(** The pack tool beside the compiler, or the one that the go command builds; a directory
    has execute bits too. *)
Definition pack_tool (tool : string) : list string * list string :=
  let p := path_join [Dir tool; "pack"] in
  if h_isExec h p || h_isDir h p then ([p], h_environ h)
  else (["go"; "tool"; "pack"], h_environ h ++ ["GOFLAGS="; "GOTOOLCHAIN=local"]).

Definition packObjects (tool archive : string) (objs : list string) : io () :=
  if bool_decide (objs = []) || negb (HasSuffix archive ".a") then mret ()
  else
    there ← try_read archive;
    match there with
    | None => mret ()
    | Some _ =>
        let '(pack, env) := pack_tool tool in
        stage ← lift (h_tmp h "goc-pack");
        cleanup stage (pack_each pack env stage archive objs)
    end.

(** A process in place of this one, or one that is waited for. *)
Definition status_of {A} (r : res string A) : Z := match r with Ok _ => 0 | Fail e => default 1 (exit_code e) end.

Definition run_tool (tool : string) (targs : list string) : world -> Z * world := fun w =>
  let '(r, w) := run_call h (mkCall tool targs (h_environ h)) w in (status_of r, w).

Definition tool_name (tool : string) : string := TrimSuffix (Base tool) ".exe".

(** The hook is for the asm and compile steps of one package. *)
Definition hooked (pkg tool : string) (targs : list string) : bool :=
  (String.eqb (tool_name tool) "asm" || String.eqb (tool_name tool) "compile") && String.eqb (argAfter targs "-p") pkg.

(** What follows a step that succeeded. *)
Definition after_step (tool : string) (targs objs : list string) : io () :=
  if String.eqb (tool_name tool) "asm" && hasArg targs "-gensymabis" then appendSymabis (argAfter targs "-o") objs
  else if String.eqb (tool_name tool) "compile" then packObjects tool (argAfter targs "-o") objs
  else mret ().

Definition cmdToolexec (args : list string) (w : world) : Z * world :=
  match toolexec_args "main" [] args with
  | (pkg, objs, _ :: tool :: targs) =>
      if negb (hooked pkg tool targs) then run_tool tool targs w
      else
        let '(rc, w) := run_tool tool targs w in
        if negb (rc =? 0) then (rc, w)
        else match after_step tool targs objs w with (Ok _, w) => (0, w) | (Fail _, w) => (1, w) end
  | _ => (2, w)
  end.
End Host.

(** ** The flag is read back *)

(** A word that [go build] takes as it is: it splits at spaces, tabs, newlines and returns,
    and knows quotes. *)
Definition bare (w : string) : Prop := w <> "" /\ all_in (fun c => negb (needs_quotes c || code_in 13 13 c)) w = true.

Lemma flag_args pkg0 objs0 pkg objs rest : Forall (fun o => o <> "--" /\ o <> "-pkg") objs ->
  toolexec_args pkg0 objs0 ("-pkg" :: pkg :: objs ++ "--" :: rest) = (pkg, objs0 ++ objs, "--" :: rest).
Proof.
  intros H. cbn [toolexec_args]. change (String.eqb "-pkg" "--") with false. change (String.eqb "-pkg" "-pkg") with true. cbn iota.
  revert objs0. induction H as [|o objs [H1 H2] _ IH]; intros objs0; cbn [app toolexec_args].
  - rewrite String.eqb_refl. by rewrite app_nil_r.
  - rewrite (proj2 (String.eqb_neq o "--") H1), (proj2 (String.eqb_neq o "-pkg") H2), IH. by rewrite <-app_assoc.
Qed.

Section Flag.
(** How the go command splits the value of -toolexec: bare words joined with spaces are
    the words. *)
Variable split : string -> option (list string).
Hypothesis split_bare : forall ws, Forall bare ws -> ws <> [] -> split (join " " ws) = Some ws.

(** The -toolexec value that [goc go] builds means what it says: the go command splits
    it into this program, the command [toolexec] and arguments, and for whatever tool the
    go command adds, the hook reads back the package and the objects, in order.  Paths
    with a carriage return are not covered (the check does not look for one). *)
Theorem ToolexecFlag_roundtrip exe pkg objs s :
  ToolexecFlag (Ok exe) pkg objs = Ok s ->
  Forall (fun w => w <> "" /\ all_in (fun c => negb (code_in 13 13 c)) w = true) (flag_words exe pkg objs) ->
  Forall (fun o => o <> "--" /\ o <> "-pkg") objs ->
  exists args, split s = Some (exe :: "toolexec" :: args) /\
    forall tool targs, toolexec_args "main" [] (args ++ tool :: targs) = (pkg, objs, "--" :: tool :: targs).
Proof.
  intros E Hw Ho. unfold ToolexecFlag in E. cbn [mbind res_bind] in E.
  destruct (list_find _ _) as [[i w]|] eqn:Ef; [done|]. assert (s = join " " (flag_words exe pkg objs ++ ["--"])) as -> by congruence. clear E. apply list_find_None in Ef.
  exists ("-pkg" :: pkg :: objs ++ ["--"]). split.
  - change (exe :: "toolexec" :: "-pkg" :: pkg :: objs ++ ["--"]) with (flag_words exe pkg objs ++ ["--"]). apply split_bare; [|by destruct objs].
    apply Forall_app. split; [|repeat constructor; done]. rewrite Forall_forall in Hw, Ef |- *. intros w Hin.
    destruct (Hw w Hin) as [Hne Hr]. specialize (Ef w Hin). apply not_false_iff_true in Ef. split; [done|].
    apply (all_in_impl (fun c => negb (needs_quotes c) && negb (code_in 13 13 c))); [intros c; by rewrite negb_orb|]. by rewrite all_in_and, Ef, Hr.
  - intros tool targs. cbn [app]. rewrite <-app_assoc. cbn [app]. by rewrite flag_args.
Qed.
End Flag.

(** A splitter at spaces is one. *)
Lemma split_spaces ws : Forall bare ws -> ws <> [] -> Some (split_on " " (join " " ws)) = Some ws.
Proof.
  intros H Hne. f_equal. apply split_on_join; [done|]. eapply Forall_impl; [exact H|]. intros w [_ Hw]. eapply all_in_impl; [|exact Hw].
  intros c. cbn beta. destruct (Ascii.eqb_spec " " c) as [<-|_]; [done | by destruct (negb _)].
Qed.

Lemma ToolexecFlag_roundtrip_witness : exists args, Some (split_on " " "/g/bin/goc toolexec -pkg ex.com/p /b/a.goobj /b/c.goobj --") = Some ("/g/bin/goc" :: "toolexec" :: args) /\
  forall tool targs, toolexec_args "main" [] (args ++ tool :: targs) = ("ex.com/p", ["/b/a.goobj"; "/b/c.goobj"], "--" :: tool :: targs).
Proof.
  apply (ToolexecFlag_roundtrip (fun s => Some (split_on " " s)) split_spaces); [reflexivity | | ]; repeat constructor; discriminate.
Defined.

(** ** What the hook does to the symabis and to the archive *)

Definition symabis_of (f : fs) (objs : list string) : list Z := concat (omap (fun o => f !! (Side o +:+ ".symabis")) objs).

Lemma append_each_spec out objs w old : wo_fs w !! out = Some old -> Forall (fun o => Side o +:+ ".symabis" <> out) objs ->
  append_each out objs w = (Ok (), mkWorld (<[out := old ++ symabis_of (wo_fs w) objs]> (wo_fs w)) (wo_calls w)).
Proof.
  unfold symabis_of. intros Ho H. revert w old Ho. induction H as [|o objs Hne H IH]; intros w old Ho; cbn [append_each omap list_omap].
  - rewrite app_nil_r, insert_id by done. by destruct w.
  - unfold mbind at 1, io_bind at 1, try_read. destruct (wo_fs w !! (Side o +:+ ".symabis")) as [b|] eqn:E; [|by apply IH].
    unfold mbind, io_bind, append_to. rewrite Ho. cbn [default id]. erewrite IH; cbn [wo_fs wo_calls]; [|by rewrite lookup_insert_eq].
    rewrite insert_insert_eq. cbn [concat]. rewrite <-app_assoc. do 6 f_equal.
    clear - Hne H. induction H as [|o' objs Hne' _ IH]; [done|]. cbn. rewrite lookup_insert_ne by done. destruct (wo_fs w !! _); cbn; by rewrite IH.
Qed.

(** *** Packing *)

Section Pack.
Variable h : host.
Variable exit_code : string -> option Z.

(** What [pack r] does to an archive: it adds a member with a name and contents. *)
Variable add : list Z -> string -> list Z -> list Z.

Definition pack_adds (pack env : list string) : Prop := forall archive member f a b, f !! archive = Some a -> f !! member = Some b -> archive <> member ->
  exists out, h_exec h (pack_call pack env archive member) f = (Ok out, <[archive := add a (Base member) b]> f).

(** The objects that are there, under their member names. *)
Definition members (f : fs) (objs : list string) : list (string * list Z) := omap (fun o => (fun b => (member_name o, b)) <$> f !! o) objs.

Definition add_all (a : list Z) (l : list (string * list Z)) : list Z := foldl (fun a '(n, b) => add a n b) a l.

(** Files that only the packing changes: the archive and the stage. *)
Definition apart_from (stage archive p : string) : Prop := outside stage p /\ p <> archive.

Definition same_files (stage archive : string) (f g : fs) : Prop := forall p, apart_from stage archive p -> f !! p = g !! p.

Lemma members_same stage archive f g objs : same_files stage archive f g -> Forall (apart_from stage archive) objs -> members f objs = members g objs.
Proof using. intros Hs H. unfold members. induction H as [|o objs Ho _ IH]; [done|]. cbn. rewrite (Hs o Ho). destruct (g !! o); cbn; by rewrite IH. Qed.

Lemma pack_each_spec pack env stage archive objs w a : pack_adds pack env ->
  stage <> "" -> outside stage archive -> (forall n, h_writable h (path_join [stage; n]) = true) ->
  Forall (fun o => apart_from stage archive o /\ plain_name (member_name o) = true) objs -> wo_fs w !! archive = Some a ->
  exists w', pack_each h pack env stage archive objs w = (Ok (), w') /\ wo_fs w' !! archive = Some (add_all a (members (wo_fs w) objs)) /\
    same_files stage archive (wo_fs w') (wo_fs w).
Proof using.
  intros Hp Hst Ha Hw Ho. revert w a. induction Ho as [|o objs [Hap Hn] Ho IH]; intros w a Harch; cbn [pack_each].
  - exists w. by repeat split.
  - unfold mbind at 1, io_bind at 1, try_read. destruct (wo_fs w !! o) as [b|] eqn:E.
    2: { destruct (IH w a Harch) as (w' & E' & H'). exists w'. split; [done|]. unfold members. cbn. by rewrite E. }
    set (m := path_join [stage; member_name o]). assert (archive <> m) as Hne by by apply Ha.
    set (f1 := <[m := b]> (wo_fs w)).
    destruct (Hp archive m f1 a b) as (out & Ex); [unfold f1; by rewrite lookup_insert_ne | by apply lookup_insert_eq | done |].
    unfold m in Ex at 2. rewrite Base_in in Ex by done. set (f2 := <[archive := add a (member_name o) b]> f1) in Ex.
    assert (same_files stage archive f2 (wo_fs w)) as Hs.
    { intros p [[_ Hout] Hpa]. unfold f2, f1. rewrite lookup_insert_ne by done. by rewrite lookup_insert_ne by (intros Hx; by apply (Hout (member_name o) Hn)). }
    destruct (IH (mkWorld f2 (wo_calls w ++ [pack_call pack env archive m])) (add a (member_name o) b)) as (w' & E' & Ha' & Hs'); [by apply lookup_insert_eq|].
    exists w'. split.
    + unfold mbind at 1, io_bind at 1, WriteFile. fold m. unfold m at 1. rewrite Hw. fold m. fold f1. unfold mbind, io_bind, wrap_err, run_call. cbn [wo_fs wo_calls]. rewrite Ex. exact E'.
    + split.
      * rewrite Ha'. unfold members at 2. cbn [omap list_omap]. rewrite E. cbn. do 2 f_equal. apply (members_same stage archive); [done|].
        eapply Forall_impl; [exact Ho|]. by intros x [Hx _].
      * intros p Hpp. rewrite (Hs' p Hpp). by apply Hs.
Qed.

Section Hook.
Variables (args : list string) (pkg : string) (objs : list string) (tool : string) (targs : list string) (w : world).
Hypothesis Hargs : toolexec_args "main" [] args = (pkg, objs, "--" :: tool :: targs).

(** A tool that is not hooked runs as it is, in the same environment, and gives its status. *)
Lemma toolexec_other : hooked pkg tool targs = false ->
  cmdToolexec h exit_code args w = run_tool h exit_code tool targs w.
Proof using Hargs. intros H. unfold cmdToolexec. by rewrite Hargs, H. Qed.

(** The tool's own run, when it succeeds, and the step after it. *)
Lemma toolexec_after out f1 : hooked pkg tool targs = true ->
  h_exec h (mkCall tool targs (h_environ h)) (wo_fs w) = (Ok out, f1) ->
  cmdToolexec h exit_code args w = match after_step h tool targs objs (mkWorld f1 (wo_calls w ++ [mkCall tool targs (h_environ h)])) with
    (Ok _, w') => (0, w') | (Fail _, w') => (1, w') end.
Proof using Hargs. intros H Ex. unfold cmdToolexec, run_tool, run_call. by rewrite Hargs, H, Ex. Qed.

(** After the scan of the assembly files the definitions of the objects follow the ones
    that the assembler found. *)
Lemma toolexec_symabis out f1 sa old (asm := argAfter targs "-o") : tool_name tool = "asm" -> argAfter targs "-p" = pkg -> hasArg targs "-gensymabis" = true ->
  h_exec h (mkCall tool targs (h_environ h)) (wo_fs w) = (Ok out, f1) -> asm = sa -> sa <> "" -> f1 !! sa = Some old -> h_writable h sa = true ->
  Forall (fun o => Side o +:+ ".symabis" <> sa) objs ->
  exists w', cmdToolexec h exit_code args w = (0, w') /\ wo_fs w' = <[sa := old ++ symabis_of f1 objs]> f1.
Proof using Hargs.
  intros Ht Hp Hg Ex Hsa Hne Ho Hw Hf. assert (hooked pkg tool targs = true) as Hh by (unfold hooked; by rewrite Ht, Hp, !String.eqb_refl).
  rewrite (toolexec_after out f1 Hh Ex). unfold after_step. rewrite Ht, Hg. change (String.eqb "asm" "asm" && true) with true. cbv iota. unfold appendSymabis. fold asm. rewrite Hsa.
  rewrite (proj2 (String.eqb_neq sa "")) by done. unfold mbind, io_bind, try_read. cbn [wo_fs]. rewrite Ho, Hw.
  erewrite append_each_spec by done. by eexists.
Qed.

(** C21. The compile step of the package: when the compiler succeeds, the hook succeeds, the
    archive that the compiler wrote gets every object that is there, in order, each
    under its member name, and no file but the archive changes (the stage is temporary).
    [add] is what the pack tool does with a member. *)
Theorem toolexec_packs out f1 a stage (archive := argAfter targs "-o") :
  tool_name tool = "compile" -> argAfter targs "-p" = pkg -> HasSuffix archive ".a" = true ->
  h_exec h (mkCall tool targs (h_environ h)) (wo_fs w) = (Ok out, f1) -> f1 !! archive = Some a ->
  h_tmp h "goc-pack" = Ok stage -> stage <> "" -> outside stage archive -> (forall n, h_writable h (path_join [stage; n]) = true) ->
  Forall (fun o => apart_from stage archive o /\ plain_name (member_name o) = true) objs ->
  pack_adds (fst (pack_tool h tool)) (snd (pack_tool h tool)) ->
  exists w', cmdToolexec h exit_code args w = (0, w') /\ wo_fs w' !! archive = Some (add_all a (members f1 objs)) /\
    same_files stage archive (wo_fs w') f1.
Proof using Hargs.
  intros Ht Hp Hsuf Ex Ha Htmp Hne Hout Hw Ho Hadd. assert (hooked pkg tool targs = true) as Hh by (unfold hooked; by rewrite Ht, Hp, !String.eqb_refl).
  rewrite (toolexec_after out f1 Hh Ex). unfold after_step. rewrite Ht. change (String.eqb "compile" "asm") with false. change (String.eqb "compile" "compile") with true. cbn [andb].
  unfold packObjects. fold archive. rewrite Hsuf. destruct (bool_decide (objs = [])) eqn:E0.
  { apply bool_decide_eq_true in E0. rewrite E0. eexists. split; [reflexivity|]. by repeat split. }
  cbn [orb negb]. unfold mbind, io_bind, try_read. cbn [wo_fs]. rewrite Ha. destruct (pack_tool h tool) as [pack env]. cbn [fst snd] in Hadd.
  unfold lift. rewrite Htmp. set (w1 := mkWorld _ _).
  destruct (pack_each_spec pack env stage archive objs w1 a Hadd Hne Hout Hw Ho Ha) as (w' & E & Ha' & Hs).
  unfold cleanup. rewrite E. eexists. split; [reflexivity|].
  assert (forall p, under stage p = false -> wo_fs (snd (RemoveAll stage w')) !! p = wo_fs w' !! p) as Hr.
  { intros p Hp0. cbn. apply option_eq. intros b. rewrite map_lookup_filter_Some. naive_solver. }
  split; [rewrite Hr by apply Hout; exact Ha' | intros p Hp0; rewrite Hr by apply Hp0; by apply Hs].
Qed.
End Hook.
End Pack.

(** ** A small package *)

(** A pack tool that writes the name and the contents of the member after the archive, and
    a compiler that writes an archive. *)
Definition demo_pack (a : list Z) (n : string) (b : list Z) : list Z := a ++ bytes_of_string n ++ b.

Definition hook_exec (c : call) (f : fs) : res string string * fs :=
  match cl_args c with
  | [_; archive; member] => match f !! archive, f !! member with
      | Some a, Some b => (Ok "", <[archive := demo_pack a (Base member) b]> f) | _, _ => (Fail "pack", f) end
  | _ => (Ok "", <["/w/pkg.a" := [1]]> f)
  end.

Definition hook_host : host :=
  mkHost hook_exec (fun _ => true) (fun _ => true) (fun _ => true) (fun _ => false) Some ["A=1"] (fun p => "no file " +:+ p) (fun _ => true)
    (fun p => Ok ("/tmp/" +:+ p)) None 1.

Lemma hook_pack env : pack_adds hook_host demo_pack ["/go/pack"] env.
Proof. intros archive member f a b Ha Hb _. exists "". cbn. unfold hook_exec. cbn [cl_args pack_call tail app]. by rewrite Ha, Hb. Qed.

Definition hook_files : fs := {["/o/a.goobj" := [7; 8]; "/o/b.goobj" := [9]]}.
Definition hook_targs : list string := ["-o"; "/w/pkg.a"; "-p"; "ex.com/p"; "x.go"].

Lemma toolexec_packs_witness : exists w',
  cmdToolexec hook_host (fun _ => None) (["-pkg"; "ex.com/p"; "/o/b.goobj"; "/o/gone.goobj"; "/o/a.goobj"; "--"; "/go/compile"] ++ hook_targs) (mkWorld hook_files []) = (0, w') /\
  wo_fs w' !! "/w/pkg.a" = Some ([1] ++ bytes_of_string "b.o" ++ [9] ++ bytes_of_string "a.o" ++ [7; 8]).
Proof.
  assert (forall p, under "/tmp/goc-pack" p = false -> outside "/tmp/goc-pack" p) as Ho by (intros p; by apply outside_clean).
  destruct (toolexec_packs hook_host (fun _ => None) demo_pack
    (["-pkg"; "ex.com/p"; "/o/b.goobj"; "/o/gone.goobj"; "/o/a.goobj"; "--"; "/go/compile"] ++ hook_targs) "ex.com/p" ["/o/b.goobj"; "/o/gone.goobj"; "/o/a.goobj"] "/go/compile" hook_targs
    (mkWorld hook_files []) eq_refl "" (<["/w/pkg.a" := [1]]> hook_files) [1] "/tmp/goc-pack") as (w' & E & Ha & _);
    [reflexivity..| discriminate | by apply Ho | reflexivity | | apply hook_pack |].
  - repeat constructor; try (by apply Ho); discriminate.
  - exists w'. split; [exact E | exact Ha].
Defined.
