(* ===== verification/AssembleProofs.v ===== *)
(** * What the converter writes

    Properties of Assemble.v: the object under construction stays well formed, each
    function's symbol gets the function's code, relocations and tables and keeps
    them, and the object file that is written holds them. *)

From Stdlib Require Import ZArith Lia Ascii.
From stdpp Require Import base list strings gmap sorting.
From S2P Require Import Prelude Text Codec Format Elf Layout PcTab Link ObjWrite Convert Arm64Proofs Data DataProofs Assemble.

(** ** Every operation extends the object *)

Lemma extends_rfold {E A} (f : Link -> A -> res E Link) xs l l' :
  (forall l x l', f l x = Ok l' -> extends l l') -> rfold f l xs = Ok l' -> extends l l'.
Proof. intros Hf. apply (rfold_ind (extends l)); [|done]. intros a x b _ Ha Hb. by rewrite Ha, (Hf _ _ _ Hb). Qed.

(** A loop over a state that holds the object. *)
Lemma extends_rfold_of {E S A} (link : S -> Link) (f : S -> A -> res E S) xs s s' :
  (forall s x s', f s x = Ok s' -> extends (link s) (link s')) -> rfold f s xs = Ok s' -> extends (link s) (link s').
Proof. intros Hf. apply (rfold_ind (fun t => extends (link s) (link t))); [|done]. intros a x b _ Ha Hb. by rewrite Ha, (Hf _ _ _ Hb). Qed.

Lemma extends_Lookup name l i l' : Lookup name l = (i, l') -> extends l l'.
Proof. apply extends_lookup. by left. Qed.

Definition abi_known (abi : Z) : Prop := abi = ABI0 \/ abi = ABIInternal.

(** The calling conventions a converter holds are Go's. *)
Definition abis_ok (c : converter) : Prop :=
  Forall (fun x => abi_known (cf_abi x)) (cv_fns c) /\ forall n a, cv_abiByGoSym c !! n = Some a -> abi_known a.

Lemma extends_resolveText c sec addr l : extends l (snd (resolveText c sec addr l)).
Proof.
  unfold resolveText. destruct (snd <$> list_find (fun x => covers addr x = true) _) as [x|].
  - destruct (libcall_body c l x addr) as [impl|]; [|done]. destruct (LookupABI impl ABI0 l) as [i l'] eqn:E.
    eapply extends_lookup; [by left | exact E].
  - by destruct (snd <$> list_find _ _).
Qed.

Lemma extends_resolveCName c name l : abis_ok c -> extends l (snd (resolveCName c name l)).
Proof.
  intros [_ Ha]. assert (forall n a, abi_known a -> extends l (snd (LookupABI n a l))) as HL.
  { intros n a Hn. destruct (LookupABI n a l) as [i l'] eqn:E. by eapply extends_lookup. }
  assert (forall n, extends l (snd (Lookup n l))) as HL0 by (intros n; apply HL; by left).
  unfold resolveCName. set (n := TrimSuffix name "@plt"). clearbody n.
  destruct (HasSuffix n ".goabi"); [apply HL; by right|]. destruct (bool_decide _); [apply HL; by left|].
  set (m := default n (cv_goName c !! n)). clearbody m. destruct (cv_abiByGoSym c !! m) as [a|] eqn:E; [by eapply HL, Ha|].
  destruct (_ || _); [apply HL0|]. destruct (_ || _); [apply HL0|]. destruct (if HasSuffix m ".impl" then _ else _) as [b suffix].
  destruct (has_dot b); [apply HL0|]. destruct (_ || _); [apply HL; by left | apply HL0].
Qed.

Lemma extends_resolveTarget c r l : abis_ok c -> extends l (snd (resolveTarget c r l)).
Proof.
  intros Ha. unfold resolveTarget. destruct (if re_Sym r =? 0 then None else _) as [es|]; [|done].
  destruct (_ =? SHN_UNDEF).
  { pose proof (extends_resolveCName c (ey_name es) l Ha) as H. by destruct (resolveCName c (ey_name es) l). }
  destruct (isText c (ey_section es)).
  - match goal with |- context [resolveText c _ ?a l] => set (addr := a) end. destruct (addr <? 0); [done|].
    pose proof (extends_resolveText c (ey_section es) addr l) as H. by destruct (resolveText _ _ _ _) as [[? ?] ?].
  - destruct (cv_dataSym c !! _); [done|]. by destruct (cv_secSym c !! _).
Qed.

(** Declaring a symbol whose kind was assigned first. *)
Lemma extends_kind_globl i k size flag l l' : Globl i size flag (modify i (set_kind k) l) = Ok l' -> extends l l'.
Proof.
  intros E. assert (exists s, l_syms l !! i = Some s /\ s_onList s = false) as (s & Hs & Ho).
  { unfold Globl in E. destruct (l_syms (modify i (set_kind k) l) !! i) as [s|] eqn:Es; [|done]. destruct (s_onList s) eqn:Eo; [done|].
    cbn in Es. destruct (l_syms l !! i) as [s0|] eqn:E0; [|by rewrite list_lookup_alter_eq, E0 in Es].
    rewrite list_lookup_alter_eq, E0 in Es. injection Es as <-. by exists s0. }
  rewrite (extends_kind i k s l Hs Ho). by eapply extends_Globl.
Qed.

Lemma extends_gotSlot c t add s i s' : gotSlot c t add s = Ok (i, s') -> extends (cs_link s) (cs_link s').
Proof.
  unfold gotSlot. destruct (cs_got s !! _); [by intros [= <- <-]|]. destruct (Lookup _ (cs_link s)) as [j l] eqn:El.
  intros E. ok_step E l1. pose proof (keeps_WriteInt 0 8 0) as Hw. set (W := fun y => default y (WriteInt 0 8 0 y)) in E, Hw. clearbody W.
  injection E as <- <-. cbn [cs_link]. rewrite (extends_Lookup _ _ _ _ El), (extends_kind_globl _ _ _ _ _ _ El1).
  etrans; apply extends_modify; [exact Hw | apply keeps_AddRel].
Qed.

(** *** Data *)

Lemma keeps_pad : keeps_identity pad.
Proof.
  intros s. unfold pad. generalize (Z.to_nat (s_Size s - zlen (s_P s))). intros n. revert s.
  induction n as [|n IH]; intros s; cbn [pad_go]; [by split_and!|]. destruct (_ <? _); [|by split_and!].
  destruct (keeps_WriteInt (zlen (s_P s)) 1 0 s) as (A1 & A2 & A3 & A4 & A5 & A6).
  destruct (IH (default s (WriteInt (zlen (s_P s)) 1 0 s))) as (B1 & B2 & B3 & B4 & B5 & B6).
  split_and!; [congruence | congruence | auto.. | congruence].
Qed.

Lemma extends_emit_global c d x d' : emit_global c d x = Ok d' -> extends (d_link d) (d_link d').
Proof.
  destruct x as [k es]. unfold emit_global. destruct (data_global c es) as [sc|]; [|by intros [= <-]].
  destruct (Lookup _ (d_link d)) as [ls l] eqn:El. pose proof (extends_Lookup _ _ _ _ El) as HL.
  destruct (_ =? _).
  { intros E. ok_step E l1. injection E as <-. rewrite HL. by eapply extends_Globl. }
  destruct (es_data sc) as [b|]; [|done]. destruct (_ <? _); [by intros [= <-]|]. intros E. ok_step E l1.
  destruct (slice_ _ _ _) as [p|]; [|done]. injection E as <-. cbn [add_global d_link]. rewrite HL, (extends_kind_globl _ _ _ _ _ _ El1).
  apply extends_modify, keeps_WriteBytes.
Qed.

Lemma extends_emit_section c d x d' : emit_section c d x = Ok d' -> extends (d_link d) (d_link d').
Proof.
  destruct x as [i sc]. unfold emit_section. destruct (negb _); [by intros [= <-]|].
  destruct (Lookup _ (d_link d)) as [ls l] eqn:El. intros E. ok_step E l2. injection E as <-. cbn [d_link].
  rewrite (extends_Lookup _ _ _ _ El). destruct (_ =? _); [by eapply extends_Globl|]. destruct (es_data sc) as [b|]; [|done].
  ok_step El2 l1. injection El2 as <-. assert (extends l l1) as H.
  { destruct (negb _); [by eapply extends_kind_globl | by eapply extends_Globl]. }
  rewrite H. apply extends_modify, keeps_WriteBytes.
Qed.

Lemma extends_add_table c i name ats s x s' : add_table c i name ats s x = Ok s' -> extends (snd s) (snd s').
Proof.
  destruct s as [ts l], x as [sec r]. unfold add_table. destruct (_ || _); [by intros [= <-]|].
  destruct (rela_sym c r) as [es|]; [|by intros [= <-]]. destruct (_ || _ || _); [by intros [= <-]|].
  pose proof (extends_resolveText c sec (re_Off r) l) as H. destruct (resolveText _ _ _ _) as [[[o|] dl] l1]; [|done].
  by intros [= <-].
Qed.

Lemma extends_entry c name tables r l i a l' : entry_target c name tables r l = Ok (i, a, l') -> extends l l'.
Proof.
  unfold entry_target. destruct (table_at _ _); [|done]. destruct (cv_syms c !! _) as [es|]; [|done]. destruct (_ <? _); [done|].
  match goal with |- context [resolveText c ?a ?b l] => pose proof (extends_resolveText c a b l) as H end.
  destruct (resolveText _ _ _ _) as [[tg delta] l1]. case_bool_decide; [|done]. by intros [= <- <- <-].
Qed.

Lemma extends_data_reloc c name ls ranges ats tables l r l' : abis_ok c -> data_reloc c name ls ranges ats tables l r = Ok l' -> extends l l'.
Proof.
  intros Ha E. unfold data_reloc in E. ok_step E x. destruct x as [[t a] l1]. destruct (host_of _ _ _) as [host off].
  destruct (data_type _ _); [|done]. injection E as <-. assert (extends l l1) as H; [|rewrite H; apply extends_modify, keeps_AddRel].
  case_bool_decide; [by eapply extends_entry|]. destruct (_ =? 0); [by injection Ex as <- <- <-|].
  pose proof (extends_resolveTarget c r l Ha) as H1. destruct (resolveTarget c r l) as [[[[i|] b] n] l2]; [|done]. by injection Ex as <- <- <-.
Qed.

Lemma extends_section_relocs c d cr l i l' : abis_ok c -> section_relocs c d cr l i = Ok l' -> extends l l'.
Proof.
  intros Ha E. unfold section_relocs in E. ok_step E rs. destruct rs as [|r rs]; [by injection E as <-|]. ok_step E x. destruct x as [ts l1].
  apply (extends_rfold_of snd) in Ex; [|by intros ? ? ? ?%extends_add_table]. cbn [snd] in Ex.
  destruct (two_owners _); [done|]. apply extends_rfold in E; [|by intros ? ? ? ?%extends_data_reloc].
  etrans; [apply (extends_modify (default 0%nat (d_secSym d !! i)) pad l keeps_pad)|]. by rewrite Ex.
Qed.

Lemma extends_emitData c l c' l' : abis_ok c -> emitData c l = Ok (c', l') -> extends l l'.
Proof.
  intros Ha (d & cr & Ed & -> & _ & Er)%emitData_inv. unfold emit_symbols in Ed. ok_step Ed d1.
  apply (extends_rfold_of d_link) in Ed1; [|by intros ? ? ? ?%extends_emit_global].
  apply (extends_rfold_of d_link) in Ed; [|by intros ? ? ? ?%extends_emit_section].
  apply extends_rfold in Er; [|by intros ? ? ? ?%extends_section_relocs]. cbn [d_link] in Ed1. by rewrite Ed1, Ed.
Qed.

(** *** Functions *)

Lemma extends_add_files f l : extends l (snd (add_files f l)).
Proof.
  unfold add_files. destruct (AddFile _ l) as [i l1] eqn:E. pose proof (extends_file (match f_Files f with s :: _ => if String.eqb s "" then "goc" else s | [] => "goc" end) l) as H.
  rewrite E in H. cbn [snd] in H. rewrite H. clear H E. generalize [Z.of_nat i]. revert l1.
  induction (drop 1 (f_Files f)) as [|s ss IH]; intros l1 idx; [done|]. cbn [foldl]. pose proof (extends_file s l1) as H.
  destruct (AddFile s l1) as [k l2]. cbn [snd] in H. rewrite H. apply IH.
Qed.

Lemma extends_symbols c xs l : Forall (fun x => abi_known (cf_abi x)) xs -> extends l (foldl (fun l x => snd (fn_symbol c x l)) l xs).
Proof.
  intros H. revert l. induction H as [|x xs Hx _ IH]; intros l; [done|]. cbn [foldl]. rewrite <-IH.
  destruct (fn_symbol c x l) as [i l1] eqn:E. by eapply extends_lookup.
Qed.

Lemma extends_add_blob i kind name b l l' : add_blob i kind name b l = Ok l' -> extends l l'.
Proof.
  unfold add_blob. destruct (Lookup name l) as [ms l1] eqn:El. intros E. ok_step E l2. injection E as <-.
  rewrite (extends_Lookup _ _ _ _ El), (extends_Globl _ _ _ _ _ El2). etrans; apply extends_modify; [apply keeps_WriteBytes | apply keeps_func].
Qed.

Lemma extends_init_fn cf l x l' : init_fn cf l x = Ok l' -> extends l l'.
Proof.
  unfold init_fn. intros E. ok_step E l1. ok_step E l2. injection E as <-. rewrite (extends_InitText _ _ _ _ _ El1).
  assert (extends l1 l2) as H; [|rewrite H; apply extends_modify, keeps_func].
  destruct (fn_GC _) as [g|]; [|by injection El2 as <-]. destruct (stackmaps g) as [[args locals] idx]. ok_step El2 l3.
  rewrite (extends_add_blob _ _ _ _ _ _ El3). by eapply extends_add_blob.
Qed.

(** Operations that only add symbols. *)
Definition adds (l l' : Link) : Prop := extends l l' /\ changes same l l'.

#[export] Instance adds_refl : Reflexive adds.
Proof. intros l. split; [done | apply changes_refl]. Qed.

#[export] Instance adds_trans : Transitive adds.
Proof. intros a b c [H1 H2] [H3 H4]. split; [by rewrite H1 | exact (changes_trans _ _ _ _ _ H2 H4)]. Qed.

Lemma adds_lookup name abi l i l' : abi_known abi -> LookupABI name abi l = (i, l') -> adds l l'.
Proof.
  intros Ha E. split; [by eapply extends_lookup|]. intros j s Hj. pose proof (lookup_keeps name abi l j s Hj) as H. by rewrite E in H.
Qed.

Lemma adds_alloc s l i l' : alloc s l = (i, l') -> s_Static s = false -> adds l l' /\ l_syms l' !! i = Some s.
Proof.
  intros E Hst. split.
  - split; [by eapply extends_alloc|]. intros j y Hj. by apply (alloc_lookup _ _ _ _ y E).
  - unfold alloc in E. injection E as <- <-. cbn. by rewrite lookup_app_r, Nat.sub_diag.
Qed.

(** A pc-value table. *)
Definition pc_sym (p : list Z) : Sym := mkSym "" 0 "SRODATA" p (zlen p) [] false false false false true true 1 None false.

Lemma adds_pctab rl size ents l i l' : pctab rl size ents l = (i, l') ->
  adds l l' /\ l_syms l' !! i = Some (pc_sym (pcbytes (rl_MinLC rl) size ents)).
Proof. intros E. by apply adds_alloc. Qed.

Lemma adds_fill_nils rl ds : forall l ds' l', fill_nils rl ds l = (ds', l') -> adds l l' /\ length ds' = length ds.
Proof.
  induction ds as [|d ds IH]; intros l ds' l' E; cbn [fill_nils] in E; [by injection E as <- <-|].
  destruct (match d with Some i => _ | None => _ end) as [d1 l1] eqn:E1. destruct (fill_nils rl ds l1) as [ds1 l2] eqn:E2.
  injection E as <- <-. destruct (IH _ _ _ E2) as [H1 H2]. split; [|cbn; lia]. rewrite <-H1. destruct d; [by injection E1 as <- <-|].
  destruct (pctab rl 0 [] l) as [i l3] eqn:E3. injection E1 as <- <-. by apply adds_pctab in E3 as [? _].
Qed.

Lemma adds_inlSym c name l i l' : abis_ok c -> inlSym c name l = (i, l') -> adds l l'.
Proof.
  intros [_ Ha]. unfold inlSym. destruct (cv_goName c !! name) as [gn|]; [|apply adds_lookup; by left]. apply adds_lookup.
  destruct (cv_abiByGoSym c !! gn) as [a|] eqn:E; [by eapply Ha | by left].
Qed.

Lemma adds_inl_node c fileIdx s n s' : abis_ok c -> inl_node c fileIdx s n = Ok s' -> adds (snd s) (snd s').
Proof.
  intros Ha. destruct s as [tree l]. unfold inl_node. destruct (fileIdx !! _); [|done]. destruct (_ <? 0); [done|].
  destruct (inlSym c (in_Func n) l) as [i l1] eqn:E. intros [= <-]. by eapply adds_inlSym.
Qed.

Lemma extends_add_stub cf c s n s' : abis_ok c -> add_stub cf c s n = Ok s' -> extends (snd s) (snd s').
Proof.
  intros Ha. destruct s as [stubs l]. unfold add_stub. destruct (cv_goName c !! _); [by intros [= <-]|].
  destruct (inlSym c (in_Func n) l) as [ls l1] eqn:El. destruct (l_syms l1 !! ls) as [y|]; [|done].
  pose proof (adds_inlSym _ _ _ _ _ Ha El) as [H _]. destruct (s_Func y); [by intros [= <-]|]. intros E. ok_step E l2. injection E as <-.
  cbn [snd]. rewrite H. by eapply extends_InitText.
Qed.

(** A write of contents and of the function's record. *)
Lemma keeps_fill (p : list Z) f : keeps_identity (fun s => set_R (set_data s (s_Kind s) p (zlen p)) f).
Proof. intros s. by split_and!. Qed.

Lemma keeps_code p n : keeps_identity (fun s => set_data s (s_Kind s) p n).
Proof. intros s. by split_and!. Qed.

Lemma keeps_info b f : keeps_identity (fun s => set_NoSplit b (with_func f s)).
Proof. intros s. exact (keeps_func f s). Qed.

(** Steps through allocations of tables. *)
Ltac pc_step E :=
  match type of E with
  | context [pctab ?rl ?size ?ents ?l] =>
      let i := fresh "i" in let l1 := fresh "l" in let H := fresh "Hp" in
      destruct (pctab rl size ents l) as [i l1] eqn:H
  end.

Lemma extends_fill_stub rl b l x l' : fill_stub rl b l x = Ok l' -> extends l l'.
Proof.
  destruct x as [i line]. unfold fill_stub. intros E. destruct (fill_nils rl _ _) as [pcd l1] eqn:E1.
  pc_step E. pc_step E. pc_step E. injection E as <-. etrans; [apply (extends_modify i), keeps_code|].
  apply adds_fill_nils in E1 as [[X1 _] _]. apply adds_pctab in Hp as [[X2 _] _], Hp0 as [[X3 _] _], Hp1 as [[X4 _] _].
  rewrite X1, X2, X3, X4. apply extends_modify, keeps_func.
Qed.

(** ** The information of one function *)

Definition file_entries (fileIdx : list Z) (t : Func) : list PCEntry :=
  match table_of_kind t PCFile, table_of_kind t PCLine with
  | Some ft, Some _ => (fun e => mkPC (pc_PC e) (goFile fileIdx (pc_Value e))) <$> ft
  | _, _ => [mkPC 0 1]
  end.

Definition line_entries (t : Func) : list PCEntry :=
  match table_of_kind t PCFile, table_of_kind t PCLine with Some _, Some lt => lt | _, _ => [mkPC 0 1] end.

Definition sp_entries (t : Func) : list PCEntry := default [mkPC 0 (s64 (fn_FrameSize t))] (table_of_kind t PCSPDelta).

(** The symbol [o] is the table of the entries [ents]. *)
Definition is_table (rl : release) (l : Link) (size : Z) (o : option sid) (ents : list PCEntry) : Prop :=
  exists i, o = Some i /\ l_syms l !! i = Some (pc_sym (pcbytes (rl_MinLC rl) size ents)).

Lemma is_table_adds rl l l' size o ents : adds l l' -> is_table rl l size o ents -> is_table rl l' size o ents.
Proof. intros [_ H] (i & -> & Hi). exists i. split; [done|]. exact (H i _ Hi). Qed.

Lemma line_tables_ok rl c fileIdx t size fi file line l po l' : abis_ok c ->
  line_tables rl c fileIdx t size fi file line l = Ok (po, l') ->
  is_table rl l size (Some file) [mkPC 0 1] -> is_table rl l size (Some line) [mkPC 0 1] ->
  adds l l' /\ is_table rl l' size (Some (po_file po)) (file_entries fileIdx t) /\ is_table rl l' size (Some (po_line po)) (line_entries t).
Proof.
  intros Ha E Hf Hl. unfold line_tables in E. unfold file_entries, line_entries.
  destruct (table_of_kind t PCFile) as [ft|]; [|injection E as <- <-; split_and!; done].
  destruct (table_of_kind t PCLine) as [lt|]; [|injection E as <- <-; split_and!; done].
  pc_step E. pc_step E. ok_step E x. destruct x as [tree l4]. apply adds_pctab in Hp as [A1 B1], Hp0 as [A2 B2].
  assert (adds l1 l4) as A3.
  { change l1 with (snd ([] : list LInlNode, l1)). change l4 with (snd (tree, l4)). revert Ex. generalize ([] : list LInlNode, l1), (tree, l4). intros s s'.
    apply (rfold_ind (fun t => adds (snd s) (snd t))); [|done]. intros a n b _ Hab En. etrans; [exact Hab | by eapply adds_inl_node]. }
  destruct (match table_of_kind t PCInlIndex with Some _ => _ | None => _ end) as [pi l5] eqn:E5. injection E as <- <-.
  assert (adds l4 l5) as A4.
  { destruct (table_of_kind t PCInlIndex) as [it|]; [|by injection E5 as <- <-]. destruct (Format.slice (fn_Inl t)); [by injection E5 as <- <-|].
    destruct (pctab rl size it l4) as [j6 l6] eqn:E6. injection E5 as <- <-. by apply adds_pctab in E6 as [? _]. }
  cbn [po_file po_line]. split_and!.
  - by do 3 (etrans; [eassumption|]).
  - eapply is_table_adds; [exact A4|]. eapply is_table_adds; [exact A3|]. eapply is_table_adds; [exact A2|]. by exists i.
  - eapply is_table_adds; [exact A4|]. eapply is_table_adds; [exact A3|]. by exists i0.
Qed.

(** What the object holds for a function whose information is filled in. *)
Record info_ok (rl : release) (fileIdx : list Z) (t : Func) (s : Sym) (l : Link) : Prop := {
  in_func : exists fi, s_Func s = Some fi /\ fi_Args fi = s32 (fn_ArgSize t) /\ fi_Locals fi = s32 (fn_FrameSize t) /\
    is_table rl l (s_Size s) (fi_Pcsp fi) (sp_entries t) /\
    is_table rl l (s_Size s) (fi_Pcfile fi) (file_entries fileIdx t) /\
    is_table rl l (s_Size s) (fi_Pcline fi) (line_entries t) /\
    exists o, fi_Pcdata fi !! Z.to_nat (pcStackMap rl) = Some o /\ is_table rl l (s_Size s) o (stack_index t);
  in_nosplit : s_NoSplit s = negb (Z.land (fn_Flags t) FuncNosplit =? 0) }.

Lemma is_table_modify rl l k f size o y fi ents : l_syms l !! k = Some y -> s_Func y = Some fi ->
  is_table rl l size o ents -> is_table rl (modify k f l) size o ents.
Proof.
  intros Hk Hf (i & -> & Hi). exists i. split; [done|]. rewrite (modify_lookup _ _ _ _ _ Hi). destruct (decide (k = i)) as [->|]; [|done].
  rewrite Hi in Hk. by injection Hk as <-.
Qed.

Lemma set_at_lookup {A} (xs ys : list A) i v : set_at xs i v = Ok ys -> ys !! Z.to_nat i = Some v.
Proof.
  unfold set_at. destruct (_ || _) eqn:E; [done|]. bool_simp. intros [= <-]. apply list_lookup_insert_eq. unfold zlen in *. lia.
Qed.

Lemma fill_info_ok rl c fileIdx x l l' y : abis_ok c -> fill_info rl c fileIdx x l = Ok l' -> l_syms l !! cf_sym x = Some y ->
  extends l l' /\ changes (fun j s => if decide (cf_sym x = j) then default s (l_syms l' !! j) else s) l l' /\
  exists s, l_syms l' !! cf_sym x = Some s /\ s_P s = s_P y /\ s_R s = s_R y /\ s_Size s = s_Size y /\ info_ok rl fileIdx (cf_tab x) s l'.
Proof.
  intros Ha E Hy. unfold fill_info in E. rewrite Hy in E. destruct (s_Func y) as [fi|] eqn:Ef; [|done].
  destruct (fill_nils rl _ l) as [pcd l1] eqn:E1. apply adds_fill_nils in E1 as [A1 _].
  pc_step E. apply adds_pctab in Hp as [A2 B2]. ok_step E x1. destruct x1 as [pcd1 l2].
  assert (adds l0 l2) as A3.
  { destruct (table_of_kind _ PCUnsafePoint) as [up|]; [|by injection Ex1 as <- <-]. pc_step Ex1. apply adds_pctab in Hp as [A3 _].
    ok_step Ex1 pcd2. by injection Ex1 as <- <-. }
  pc_step E. apply adds_pctab in Hp as [A4 B4]. ok_step E pcd2. pc_step E. apply adds_pctab in Hp as [A5 B5]. pc_step E. apply adds_pctab in Hp as [A6 B6].
  ok_step E x2. destruct x2 as [po l6]. apply line_tables_ok in Ex2 as (A7 & B7 & B8); [|done | |].
  2: { eapply is_table_adds; [exact A6|]. by exists i1. }
  2: { by exists i2. }
  set (f := fun s => set_NoSplit _ _) in E. injection E as <-.
  assert (adds l l6) as A by (by do 6 (etrans; [eassumption|])). pose proof (proj2 A _ _ Hy) as Hy6. unfold same in Hy6.
  pose proof (modify_lookup (cf_sym x) f l6 _ _ Hy6) as Hs. rewrite decide_True in Hs by done. split_and!.
  - etrans; [exact (proj1 A)|]. apply extends_modify, keeps_info.
  - intros j s Hj. pose proof (proj2 A _ _ Hj) as Hj6. pose proof (modify_lookup (cf_sym x) f l6 _ _ Hj6) as Hjs.
    destruct (decide (cf_sym x = j)) as [<-|]; [|done]. by rewrite Hs.
  - exists (f y). split; [exact Hs|]. assert (f y = set_NoSplit (negb (Z.land (fn_Flags (cf_tab x)) FuncNosplit =? 0)) (set_Func y
      (set_tables (set_sizes (s32 (fn_ArgSize (cf_tab x))) (s32 (fn_FrameSize (cf_tab x))) fi)
        (if fn_StartLine (cf_tab x) =? 0 then fi_StartLine fi else s32 (fn_StartLine (cf_tab x))) (Some i)
        (Some (po_file po)) (Some (po_line po)) (po_inl po) pcd2 (po_used po) (po_tree po)))) as -> by (unfold f, with_func; by rewrite Ef).
    assert (forall o ents, is_table rl l6 (s_Size y) o ents -> is_table rl (modify (cf_sym x) f l6) (s_Size y) o ents) as HT
      by (intros o ents; by apply (is_table_modify _ _ _ _ _ _ y fi)).
    split_and!; [done.. |]. split; [|done]. eexists. split; [reflexivity|]. split_and!; try done.
    + apply HT. refine (is_table_adds _ _ _ _ _ _ _ (ex_intro _ i (conj eq_refl B2))).
      etrans; [exact A3|]. etrans; [exact A4|]. etrans; [exact A5|]. etrans; [exact A6 | exact A7].
    + by apply HT.
    + by apply HT.
    + exists (Some i0). split; [exact (set_at_lookup _ _ _ _ Epcd2)|]. apply HT.
      refine (is_table_adds _ _ _ _ _ _ _ (ex_intro _ i0 (conj eq_refl B4))). etrans; [exact A5|]. etrans; [exact A6 | exact A7].
Qed.

(** ** The code of one function *)

(** Symbols that no lookup by name writes to: declared ones and those without name. *)
Definition frozen (s : Sym) : Prop := s_onList s = true \/ s_Name s = "".

(** The object keeps the frozen symbols other than [i]. *)
Definition frame (i : sid) (l l' : Link) : Prop :=
  forall j y, j <> i -> frozen y -> l_syms l !! j = Some y -> l_syms l' !! j = Some y.

#[export] Instance frame_refl i : Reflexive (frame i).
Proof. by intros l j y. Qed.

Lemma frame_trans i a b c : frame i a b -> frame i b c -> frame i a c.
Proof. intros H1 H2 j y Hj Hf Hy. by apply H2, H1. Qed.

Lemma frame_modify i f l : frame i l (modify i f l).
Proof. intros j y Hj _ Hy. rewrite (modify_lookup _ _ _ _ _ Hy). by rewrite decide_False. Qed.

Lemma frame_changes i l l' : changes same l l' -> frame i l l'.
Proof. intros H j y _ _ Hy. exact (H j y Hy). Qed.

Lemma gotSlot_frame c t add s k s' i : link_ok (cs_link s) -> gotSlot c t add s = Ok (k, s') -> frame i (cs_link s) (cs_link s').
Proof.
  intros Hok E j y _ [Ho|Hn] Hy; [by eapply gotSlot_keeps|]. unfold gotSlot in E. destruct (cs_got s !! _); [by injection E as <- <-|].
  set (name := "goc.got." +:+ _) in E. pose proof (lookup_keeps name ABI0 (cs_link s) j y Hy) as Hl.
  pose proof (LookupABI_ok name ABI0 (cs_link s) ltac:(by left) Hok) as HL. fold (Lookup name (cs_link s)) in Hl, HL.
  destruct (Lookup name (cs_link s)) as [k1 l1]. cbn [snd] in Hl. destruct HL as (_ & (s1 & Hs1 & Hn1 & _) & _).
  assert (k1 <> j) as Hne by (intros ->; rewrite Hl in Hs1; injection Hs1 as <-; rewrite Hn in Hn1; by unfold name in Hn1).
  unfold Globl in E. destruct (l_syms (modify k1 _ l1) !! k1) as [z|]; [|done]. destruct (s_onList z); [done|]. cbn [mbind res_bind] in E.
  injection E as <- <-. cbn. by rewrite !list_lookup_alter_ne by done.
Qed.

Lemma x86_reloc_frame c calls x s r s' : abis_ok c -> link_ok (cs_link s) -> x86_reloc c calls x s r = Ok s' ->
  extends (cs_link s) (cs_link s') /\ frame (cf_sym x) (cs_link s) (cs_link s').
Proof.
  intros Ha Hok E. unfold x86_reloc in E. destruct (_ || _); [by injection E as <-|].
  pose proof (extends_resolveTarget c r (cs_link s) Ha) as X1. pose proof (changes_target c r (cs_link s)) as C1.
  destruct (resolveTarget c r (cs_link s)) as [[[[target|] goAdd] ename] l]; [|done]. cbn [snd] in X1, C1.
  match type of E with (mbind _ ?m) = _ => destruct m as [[[[tgt add] ty] s1]|] eqn:Es; [|done] end. cbn [mbind res_bind] in E.
  assert (extends l (cs_link s1) /\ frame (cf_sym x) l (cs_link s1)) as [X2 F2].
  { destruct (isGOT (re_Type r)); [|injection Es as _ _ _ <-; by split].
    destruct (gotSlot c target goAdd (mkCst (cs_got s) l)) as [[i s2]|] eqn:Eg; [|done]. injection Es as _ _ _ <-.
    split; [exact (extends_gotSlot _ _ _ _ _ _ Eg)|]. exact (gotSlot_frame c target goAdd (mkCst (cs_got s) l) i s2 _ (ex_ok _ _ X1 Hok) Eg). }
  destruct (alookup ty X86Text) as [typ|]; [|done]. destruct (_ && negb _); [done|]. destruct ((re_Add r <? _) || _); [done|].
  injection E as <-. cbn [cs_link]. split.
  - rewrite X1, X2. apply extends_modify, keeps_AddRel.
  - eapply frame_trans; [exact (frame_changes _ _ _ C1)|]. eapply frame_trans; [exact F2 | apply frame_modify].
Qed.

Lemma x86_relocs_frame c calls x rs : forall s s', abis_ok c -> link_ok (cs_link s) -> x86_relocs c calls x s rs = Ok s' ->
  extends (cs_link s) (cs_link s') /\ frame (cf_sym x) (cs_link s) (cs_link s').
Proof.
  induction rs as [|r rs IH]; intros s s' Ha Hok E; cbn [x86_relocs] in E; [by injection E as <-|]. ok_step E s1.
  destruct (x86_reloc_frame _ _ _ _ _ _ Ha Hok Es1) as [X1 F1]. destruct (IH _ _ Ha (ex_ok _ _ X1 Hok) E) as [X2 F2].
  split; [by rewrite X1 | by eapply frame_trans].
Qed.

(** Changes of the symbol [i] alone. *)
Lemma modify_frame i f l : keeps_identity f -> extends l (modify i f l) /\ frame i l (modify i f l).
Proof. intros H. split; [by apply extends_modify | apply frame_modify]. Qed.

Definition same_but (i : sid) (l l' : Link) : Prop := extends l l' /\ frame i l l'.

Lemma same_but_trans i a b c : same_but i a b -> same_but i b c -> same_but i a c.
Proof. intros [X1 F1] [X2 F2]. split; [by rewrite X1 | by eapply frame_trans]. Qed.

Lemma a64_reloc_frame c x r next l u l' : abis_ok c -> a64_reloc c x r next l = Ok (u, l') -> same_but (cf_sym x) l l'.
Proof.
  intros Ha E. unfold a64_reloc in E. destruct (_ || _); [done|].
  pose proof (extends_resolveTarget c r l Ha) as X1. pose proof (changes_target c r l) as C1.
  destruct (resolveTarget c r l) as [[[[target|] add] ename] l1]; [|done]. cbn [snd] in X1, C1. cbv zeta in E.
  assert (same_but (cf_sym x) l1 l') as H; [|exact (same_but_trans _ _ _ _ (conj X1 (frame_changes _ _ _ C1)) H)].
  assert (forall rel l2, same_but (cf_sym x) l1 l2 -> same_but (cf_sym x) l1 (modify (cf_sym x) (AddRel rel) l2)) as Hadd
    by (intros rel l2 H; eapply same_but_trans; [exact H | apply modify_frame, keeps_AddRel]).
  assert (forall f, same_but (cf_sym x) l1 (set_code (cf_sym x) f l1)) as Hset by (intros f; apply modify_frame; by intros s).
  assert (forall off l2, clear_pair (cf_sym x) off l1 = Ok l2 -> same_but (cf_sym x) l1 l2) as Hclr
    by (intros off l2; unfold clear_pair; destruct (_ <? _); [done|]; intros [= <-]; apply Hset).
  repeat match type of E with
  | (if ?b then _ else _) = _ => destruct b
  | (_ ≫= _) = Ok _ => let z := fresh "z" in ok_step E z
  | match alookup ?t ?m with _ => _ end = _ => destruct (alookup t m)
  | Fail _ = _ => discriminate E
  | Ok _ = _ => injection E as <- <-
  end; apply Hadd; eauto. by split.
Qed.

Lemma a64_loop_frame c x mine : forall used l l', abis_ok c -> a64_loop c x used mine l = Ok l' -> same_but (cf_sym x) l l'.
Proof.
  induction mine as [|r mine IH]; intros used l l' Ha E; cbn [a64_loop] in E; [injection E as <-; by split|].
  destruct used; [by eapply IH|]. ok_step E ul. destruct ul as [u l1]. eapply same_but_trans; [by eapply a64_reloc_frame | by eapply IH].
Qed.

(** What the object holds for a function once its loop turn is over: on amd64 its
    bytes and one relocation per ELF relocation, on arm64 its bytes with the relocated
    immediates cleared and the relocations that account for those of ELF. *)
Definition arm64_code (x : fn) (rs : list rela) (p : list Z) (s : Sym) : Prop :=
  exists mine, mine ≡ₚ filter (fun r => covers (re_Off r) x = true) rs /\ Sorted rela_le mine /\
    accounts (stands_for x) (stands_for_two x) mine (s_R s) /\
    clears (on_words a64_field x mine) (on_words a64_imm x mine) p (s_P s).

Definition code_ok (c : converter) (calls : gset (string * Z)) (x : fn) (s : Sym) : Prop :=
  exists sc d rs p, elf_section_at (cv_ef c) (cf_sec x) = Some sc /\ es_data sc = Some d /\ relas c (cf_sec x) = Ok rs /\
    slice_ d (cf_off x) (u64 (cf_off x + fn_TextSize (cf_tab x))) = Some p /\
    if cv_arm64 c then is_u64 (cf_off x) -> Forall is_u8 p -> zlen p < 2 ^ 63 -> s_Size s = zlen p /\ arm64_code x rs p s
    else s_Size s = zlen p /\ s_P s = p /\ Forall2 (reloc_of calls x) (filter (fun r => covers (re_Off r) x = true) rs) (s_R s).

Lemma arm64_code_ok c x rs p y l l' : cv_arm64 c = true -> is_u64 (cf_off x) -> Forall is_u8 p -> zlen p < 2 ^ 63 ->
  l_syms l !! cf_sym x = Some y -> s_P y = p -> s_R y = [] -> arm64TextRelocs c x rs l = Ok l' ->
  exists y', l_syms l' !! cf_sym x = Some y' /\ s_Size y' = s_Size y /\ arm64_code x rs p y'.
Proof.
  intros Harm Ho Hp Hz Hy <- HR E. destruct (arm64_kept c x rs l l' y Harm Ho Hy Hp Hz E) as (mine & y' & rels & p' & Hperm & Hs & Hy' & -> & Hm & Hcl).
  eexists. split; [exact Hy'|]. split; [done|]. exists mine. cbn [set_R set_data s_R s_P]. rewrite HR. split_and!; try done.
  eapply (accounts_map _ _ _ _ eq); [| | exact Hm |].
  - by intros r q ? [? _] <-.
  - by intros r n q ? [? _] <-.
  - done.
Qed.

Definition fn_done (rl : release) (c : converter) (calls : gset (string * Z)) (fileIdx : list Z) (l : Link) (x : fn) : Prop :=
  exists s, l_syms l !! cf_sym x = Some s /\ code_ok c calls x s /\ info_ok rl fileIdx (cf_tab x) s l.

Lemma listed_text l i : link_ok l -> i ∈ l_Text l -> exists s, l_syms l !! i = Some s /\ s_onList s = true.
Proof. intros Hok Hi. apply (ok_listed _ Hok). set_solver. Qed.

Lemma fill_code_ok c calls d rs x s s' sc : abis_ok c -> link_ok (cs_link s) ->
  cf_sym x ∈ l_Text (cs_link s) -> elf_section_at (cv_ef c) (cf_sec x) = Some sc -> es_data sc = Some d -> relas c (cf_sec x) = Ok rs ->
  fill_code c calls d rs x s = Ok s' ->
  extends (cs_link s) (cs_link s') /\ frame (cf_sym x) (cs_link s) (cs_link s') /\
  exists y, l_syms (cs_link s') !! cf_sym x = Some y /\ code_ok c calls x y.
Proof.
  intros Ha Hok Hi Hsc Hd Hrs E. unfold fill_code in E. destruct (slice_ d _ _) as [p|] eqn:Ep; [|done].
  set (w := fun y => set_R _ []) in E. destruct (listed_text _ _ Hok Hi) as (y & Hy & Ho).
  destruct (modify_frame (cf_sym x) w (cs_link s) (keeps_fill p [])) as [X0 F0].
  pose proof (modify_lookup (cf_sym x) w (cs_link s) _ _ Hy) as Hy0. rewrite decide_True in Hy0 by done. unfold code_ok. destruct (cv_arm64 c) eqn:Harm.
  - ok_step E l1. injection E as <-. cbn [cs_link]. destruct (a64_loop_frame _ _ _ _ _ _ Ha El1) as [X1 F1].
    assert (extends (cs_link s) l1) as X by (by rewrite X0). destruct (listed_text _ _ (ex_ok _ _ X Hok) (ex_text _ _ X _ Hi)) as (y1 & Hy1 & _).
    split_and!; [done | exact (frame_trans _ _ _ _ F0 F1)|]. exists y1. split; [done|]. exists sc, d, rs, p. split_and!; try done.
    intros Hoff Hp Hz. destruct (arm64_code_ok c x rs p (w y) _ _ Harm Hoff Hp Hz Hy0 eq_refl eq_refl El1) as (y2 & Hy2 & HS & Hcode).
    rewrite Hy1 in Hy2. injection Hy2 as <-. split; [by rewrite HS | done].
  - destruct (x86_relocs_frame _ _ _ _ (mkCst (cs_got s) (modify (cf_sym x) w (cs_link s))) _ Ha (ex_ok _ _ X0 Hok) E) as [X1 F1].
    destruct (x86_relocs_kept _ _ _ _ _ _ _ E Hy0 Ho) as (y1 & rels & Hy1 & HP & HR & HF & HS). cbn [cs_link] in X1, F1.
    split_and!; [by rewrite X0 | exact (frame_trans _ _ _ _ F0 F1)|]. exists y1. split; [done|]. exists sc, d, rs, p. rewrite HP, HR, HS. by split_and!.
Qed.

Lemma fill_fn_ok rl c calls fileIdx d rs s x s' sc : abis_ok c -> link_ok (cs_link s) ->
  cf_sym x ∈ l_Text (cs_link s) -> elf_section_at (cv_ef c) (cf_sec x) = Some sc -> es_data sc = Some d -> relas c (cf_sec x) = Ok rs ->
  fill_fn rl c calls fileIdx d rs s x = Ok s' ->
  extends (cs_link s) (cs_link s') /\ frame (cf_sym x) (cs_link s) (cs_link s') /\ fn_done rl c calls fileIdx (cs_link s') x.
Proof.
  intros Ha Hok Hi Hsc Hd Hrs E. unfold fill_fn in E. ok_step E s1. ok_step E l2. injection E as <-. cbn [cs_link].
  destruct (fill_code_ok c calls d rs x s s1 sc Ha Hok Hi Hsc Hd Hrs Es1) as (X1 & F1 & y1 & Hy1 & Hcode).
  destruct (fill_info_ok _ _ _ _ _ _ _ Ha El2 Hy1) as (X2 & C2 & s2 & Hs2 & HP2 & HR2 & HS2 & Hinfo). split_and!.
  - by rewrite X1.
  - eapply frame_trans; [exact F1|]. intros j z Hj _ Hz. rewrite (C2 j z Hz). by rewrite decide_False.
  - exists s2. split_and!; [done | | done]. destruct Hcode as (sc' & d' & rs' & p & H). exists sc', d', rs', p. unfold arm64_code in *.
    by rewrite HP2, HR2, HS2.
Qed.

(** ** All functions *)

Section Fill.
Context (rl : release) (c : converter) (calls : gset (string * Z)) (fileIdx : list Z).
Hypothesis Ha : abis_ok c.

Lemma fn_done_frame l l' x x' : link_ok l -> cf_sym x ∈ l_Text l -> cf_sym x' ∈ l_Text l -> cf_sym x <> cf_sym x' ->
  frame (cf_sym x') l l' -> fn_done rl c calls fileIdx l x -> fn_done rl c calls fileIdx l' x.
Proof.
  intros Hok Hx Hx' Hne Hf (s & Hs & Hc & [(fi & Hfi & H1 & H2 & H3 & H4 & H5 & o & Ho & H6) Hns]).
  destruct (listed_text _ _ Hok Hx) as (s0 & Hs0 & Hon). rewrite Hs in Hs0. injection Hs0 as <-.
  destruct (listed_text _ _ Hok Hx') as (s' & Hs' & Hon').
  assert (forall o ents, is_table rl l (s_Size s) o ents -> is_table rl l' (s_Size s) o ents) as HT.
  { intros o' ents (i & -> & Hi). exists i. split; [done|]. apply Hf; [|by right | done]. intros ->. rewrite Hs' in Hi. injection Hi as ->. done. }
  exists s. split_and!; [apply Hf; [done | by left | done] | done |]. split; [|done]. exists fi. split_and!; auto. exists o. split; [done | auto].
Qed.

Lemma fill_fns_ok sec sc d rs : elf_section_at (cv_ef c) sec = Some sc -> es_data sc = Some d -> relas c sec = Ok rs ->
  forall xs done s s', NoDup (cf_sym <$> done ++ xs) -> (forall x, x ∈ done ++ xs -> cf_sym x ∈ l_Text (cs_link s)) ->
    (forall x, x ∈ xs -> cf_sec x = sec) -> link_ok (cs_link s) -> (forall x, x ∈ done -> fn_done rl c calls fileIdx (cs_link s) x) ->
    rfold (fill_fn rl c calls fileIdx d rs) s xs = Ok s' ->
    extends (cs_link s) (cs_link s') /\ forall x, x ∈ done ++ xs -> fn_done rl c calls fileIdx (cs_link s') x.
Proof using Ha.
  intros Hsc Hd Hrs. induction xs as [|x xs IH]; intros done s s' Hnd Ht Hsec Hok Hdone E; cbn [rfold] in E.
  { injection E as <-. rewrite app_nil_r. done. }
  ok_step E s1. assert (cf_sym x ∈ l_Text (cs_link s)) as Hx by (apply Ht; set_solver).
  assert (cf_sec x = sec) as Ex by (apply Hsec; by left). rewrite <-Ex in Hsc, Hrs.
  destruct (fill_fn_ok _ _ _ _ _ _ _ _ _ _ Ha Hok Hx Hsc Hd Hrs Es1) as (X1 & F1 & D1).
  assert (forall y, y ∈ done -> cf_sym y <> cf_sym x) as Hne.
  { intros y Hy Heq. rewrite fmap_app in Hnd. apply NoDup_app in Hnd as (_ & Hnd & _). apply (Hnd (cf_sym y)); [by apply list_elem_of_fmap_2|].
    rewrite Heq. cbn. by left. }
  replace (done ++ x :: xs) with ((done ++ [x]) ++ xs) in * by (by rewrite <-app_assoc).
  destruct (IH (done ++ [x]) s1 s') as [X2 H2]; try done.
  - intros y Hy. by apply (ex_text _ _ X1), Ht.
  - intros y Hy. apply Hsec. by right.
  - by apply (ex_ok _ _ X1).
  - intros y [Hy| ->%list_elem_of_singleton]%elem_of_app; [|done].
    apply (fn_done_frame (cs_link s) (cs_link s1) y x); [done | apply Ht; set_solver | done | by apply Hne | done | by apply Hdone].
  - split; [by rewrite X1 | done].
Qed.

Lemma fill_sections_ok secs : forall done s s', NoDup (cf_sym <$> done ++ concat (sec_fns c <$> secs)) ->
  (forall x, x ∈ done ++ concat (sec_fns c <$> secs) -> cf_sym x ∈ l_Text (cs_link s)) ->
  (forall sec x, x ∈ sec_fns c sec -> cf_sec x = sec) -> link_ok (cs_link s) ->
  (forall x, x ∈ done -> fn_done rl c calls fileIdx (cs_link s) x) ->
  rfold (fill_section rl c calls fileIdx) s secs = Ok s' ->
  extends (cs_link s) (cs_link s') /\ forall x, x ∈ done ++ concat (sec_fns c <$> secs) -> fn_done rl c calls fileIdx (cs_link s') x.
Proof using Ha.
  induction secs as [|sec secs IH]; intros done s s' Hnd Ht Hsec Hok Hdone E; cbn [rfold] in E.
  { injection E as <-. cbn. rewrite app_nil_r. done. }
  ok_step E s1. cbn [fmap list_fmap concat] in *. unfold fill_section in Es1. ok_step Es1 rs.
  destruct (elf_section_at (cv_ef c) sec) as [sc|] eqn:Esc; [|done]. destruct (es_data sc) as [d|] eqn:Ed; [|done].
  fold (sec_fns c sec) in Es1. rewrite app_assoc in Hnd |- *.
  destruct (fill_fns_ok sec sc d rs Esc Ed Ers (sec_fns c sec) done s s1) as [X1 H1]; try done.
  - rewrite fmap_app in Hnd. by apply NoDup_app in Hnd as (? & _ & _).
  - intros x Hx. apply Ht. rewrite app_assoc. set_solver.
  - intros x. apply Hsec.
  - destruct (IH (done ++ sec_fns c sec) s1 s') as [X2 H2]; try done.
    + intros x Hx. apply (ex_text _ _ X1), Ht. by rewrite app_assoc.
    + by apply (ex_ok _ _ X1).
    + split; [by rewrite X1 | done].
Qed.
End Fill.

Lemma init_fns_ok cf xs : forall l l', link_ok l -> rfold (init_fn cf) l xs = Ok l' ->
  NoDup (cf_sym <$> xs) /\ (forall x, x ∈ xs -> cf_sym x ∉ l_Text l) /\ (forall x, x ∈ xs -> cf_sym x ∈ l_Text l').
Proof.
  induction xs as [|x xs IH]; intros l l' Hok E; cbn [rfold] in E.
  { injection E as <-. split_and!; [constructor | intros ? []%not_elem_of_nil..]. }
  ok_step E l1. pose proof (extends_init_fn _ _ _ _ El1) as X1. destruct (IH l1 l' (ex_ok _ _ X1 Hok) E) as (N & F & T).
  assert (cf_sym x ∈ l_Text l1 /\ cf_sym x ∉ l_Text l) as [Hin Hnot].
  { unfold init_fn in El1. ok_step El1 l2. ok_step El1 l3. injection El1 as <-. split.
    - assert (extends l2 l3) as H.
      { destruct (fn_GC _) as [g|]; [|by injection El3 as <-]. destruct (stackmaps g) as [[args locals] idx]. ok_step El3 l4.
        rewrite (extends_add_blob _ _ _ _ _ _ El4). by eapply extends_add_blob. }
      apply (ex_text _ _ H). unfold InitText in El2. destruct (l_syms l !! cf_sym x); [|done]. destruct (_ || _); [done|]. injection El2 as <-. cbn. set_solver.
    - intros Ht. destruct (listed_text _ _ Hok Ht) as (s & Hs & Ho). unfold InitText in El2. rewrite Hs, Ho in El2. by rewrite orb_true_r in El2. }
  apply extends_rfold in E; [|by intros ? ? ? ?%extends_init_fn]. split_and!.
  - cbn. apply NoDup_cons. split; [|done]. intros (y & Hy & Hin')%list_elem_of_fmap. apply (F y Hin'). by rewrite <-Hy.
  - intros y [->|Hy]%elem_of_cons; [done|]. intros Ht. by apply (F y Hy), (ex_text _ _ X1).
  - intros y [->|Hy]%elem_of_cons; [by apply (ex_text _ _ E) | by apply T].
Qed.

(** The table of names that holds a function's symbol. *)
Definition named (l : Link) (name : string) (abi : Z) : option sid := (if abi =? ABIInternal then l_funchash l else l_hash l) !! name.

Definition fn_name (c : converter) (x : fn) : string := default "" (cv_goName c !! cf_name x).

Lemma named_extends l l' name abi i : extends l l' -> named l name abi = Some i -> named l' name abi = Some i.
Proof. intros X. unfold named. destruct (_ =? _); [apply (ex_funchash _ _ X) | apply (ex_hash _ _ X)]. Qed.

Lemma named_lookup l name abi i : named l name abi = Some i -> LookupABI name abi l = (i, l).
Proof. unfold named, LookupABI. by intros ->. Qed.

Lemma named_sym l name abi i : abi_known abi -> link_ok l -> named l name abi = Some i ->
  exists s, l_syms l !! i = Some s /\ s_Name s = name /\ s_ABI s = abi.
Proof. intros [->| ->] Hok H; [by apply (ok_hash _ Hok) | by apply (ok_funchash _ Hok)]. Qed.

Lemma symbols_named c xs : Forall (fun x => abi_known (cf_abi x)) xs -> forall l, link_ok l ->
  forall x, x ∈ xs -> is_Some (named (foldl (fun l x => snd (fn_symbol c x l)) l xs) (fn_name c x) (cf_abi x)).
Proof.
  induction 1 as [|y xs Hy Hxs IH]; intros l Hok x Hx; [by apply not_elem_of_nil in Hx|]. cbn [foldl].
  pose proof (LookupABI_ok (fn_name c y) (cf_abi y) l Hy Hok) as HL. change (LookupABI (fn_name c y) (cf_abi y) l) with (fn_symbol c y l) in HL.
  destruct (fn_symbol c y l) as [i l1] eqn:E. cbn [snd]. destruct HL as (Hok1 & _ & Hn & _).
  apply elem_of_cons in Hx as [->|Hx]; [|by apply IH]. exists i. eapply named_extends; [by apply extends_symbols|]. exact Hn.
Qed.

(** The functions of a converter, by section: what [newConverter] makes. *)
Definition conv_ok (c : converter) : Prop :=
  abis_ok c /\ concat (sec_fns c <$> textSecs c) ≡ₚ cv_fns c /\ forall sec x, x ∈ sec_fns c sec -> cf_sec x = sec.

(** *** The converter's functions *)

Lemma concat_cons {A B} (g h : B -> list A) ks : concat ((fun k => g k ++ h k) <$> ks) ≡ₚ concat (g <$> ks) ++ concat (h <$> ks).
Proof.
  induction ks as [|k ks IH]; [done|]. cbn. rewrite IH. rewrite <-!app_assoc. apply Permutation_app_head.
  rewrite !app_assoc. apply Permutation_app_tail, Permutation_app_comm.
Qed.

Lemma concat_single {A} (x : A) (k0 : Z) ks : NoDup ks -> k0 ∈ ks -> concat ((fun k => if decide (k0 = k) then [x] else []) <$> ks) = [x].
Proof.
  assert (forall ks, k0 ∉ ks -> concat ((fun k => if decide (k0 = k) then [x] else []) <$> ks) = []) as Hnone.
  { intros l Hn. induction l as [|k l IH]; [done|]. cbn. apply not_elem_of_cons in Hn as [Hk Hl]. rewrite decide_False by done. by apply IH. }
  intros Hnd Hin. induction Hnd as [|k ks Hk Hnd IH]; [by apply not_elem_of_nil in Hin|]. cbn. destruct (decide (k0 = k)) as [->|Hne].
  - by rewrite Hnone.
  - apply IH. apply elem_of_cons in Hin as [->|]; done.
Qed.

(** Splitting by a key and joining again. *)
Lemma split_by_key {A} (f : A -> Z) xs ks : NoDup ks -> (forall x, x ∈ xs -> f x ∈ ks) ->
  concat ((fun k => filter (fun x => f x = k) xs) <$> ks) ≡ₚ xs.
Proof.
  intros Hnd Hin. induction xs as [|x xs IH].
  { assert (concat ((fun k => filter (fun x => f x = k) []) <$> ks) = ([] : list A)) as ->; [|done]. clear. induction ks; [done|]. done. }
  assert (concat ((fun k => filter (fun x => f x = k) (x :: xs)) <$> ks) =
    concat ((fun k => (if decide (f x = k) then [x] else []) ++ filter (fun x => f x = k) xs) <$> ks)) as ->.
  { f_equal. apply list_fmap_ext. intros _ k _. rewrite filter_cons. by destruct (decide (f x = k)). }
  rewrite concat_cons, (concat_single x (f x)) by (done || (apply Hin; by left)). cbn. rewrite IH; [done|]. intros y Hy. apply Hin. by right.
Qed.

Definition tables_ok (s : tables) : Prop :=
  (forall sec, default [] (ct_bySec s !! sec) = filter (fun x => cf_sec x = sec) (ct_fns s)) /\
  (forall x, x ∈ ct_fns s -> is_Some (ct_bySec s !! cf_sec x)) /\ (forall sec xs, ct_bySec s !! sec = Some xs -> xs <> []) /\
  Forall (fun x => abi_known (cf_abi x)) (ct_fns s) /\ forall n a, ct_abi s !! n = Some a -> abi_known a.

Lemma go_abi_known t : abi_known (go_abi t).
Proof. unfold go_abi. destruct (_ && _); [by left | by right]. Qed.

Lemma add_fn_ok pkg tu m s t s' : add_fn pkg tu m s t = Ok s' -> tables_ok s -> tables_ok s'.
Proof.
  unfold add_fn. destruct (m !! fn_Name t) as [y|]; [|done]. destruct (_ <? _); [done|]. set (x := mkFn _ _ _ _ _ _). intros [= <-] (H1 & H2 & H3 & H4 & H5).
  split_and!; cbn [ct_fns ct_bySec ct_abi].
  - intros sec. rewrite filter_app, filter_cons, filter_nil. destruct (decide (cf_sec x = sec)) as [<-|Hne].
    + rewrite lookup_insert_eq. cbn. by rewrite H1.
    + rewrite lookup_insert_ne by done. by rewrite H1, app_nil_r.
  - intros z [Hz| ->%list_elem_of_singleton]%elem_of_app; apply lookup_insert_is_Some'; [right; by apply H2 | by left].
  - intros sec xs [[<- <-]|[_ Hxs]]%lookup_insert_Some; [by destruct (default [] _) | by eapply H3].
  - apply Forall_app. split; [done|]. apply Forall_singleton. apply go_abi_known.
  - intros n a [[_ <-]|[_ Hn]]%lookup_insert_Some; [apply go_abi_known | by eapply H5].
Qed.

Lemma add_fns_ok pkg tu m ts : forall s s', add_fns pkg tu m s ts = Ok s' -> tables_ok s -> tables_ok s'.
Proof.
  induction ts as [|t ts IH]; intros s s' E Hs; cbn [add_fns] in E; [by injection E as <-|]. ok_step E s1. eapply IH; [exact E|]. by eapply add_fn_ok.
Qed.

Lemma elem_sortedKeys {V} (m : gmap Z V) k : k ∈ sortedKeys m <-> is_Some (m !! k).
Proof. unfold sortedKeys. rewrite merge_sort_Permutation, elem_of_elements. apply elem_of_dom. Qed.

Lemma nodup_sortedKeys {V} (m : gmap Z V) : NoDup (sortedKeys m).
Proof. unfold sortedKeys. rewrite merge_sort_Permutation. apply NoDup_elements. Qed.

Lemma newConverter_ok p f pkg goarch libcalls ef c : newConverter p f pkg goarch libcalls ef = Ok c -> conv_ok c.
Proof.
  unfold newConverter. destruct (_ =? 0); [done|]. destruct (negb _); [done|]. destruct (ef_symbols ef) as [syms| |]; [|done..].
  intros E. ok_step E s. injection E as <-. assert (tables_ok s) as (H1 & H2 & H3 & H4 & H5).
  { eapply add_fns_ok; [exact Es|]. split_and!; cbn; try done; intros; rewrite ?lookup_empty in *; try done. by apply not_elem_of_nil in H. }
  assert (forall sec, default [] ((merge_sort fn_le <$> ct_bySec s) !! sec) ≡ₚ filter (fun x => cf_sec x = sec) (ct_fns s)) as Hp.
  { intros sec. rewrite lookup_fmap, <-H1. destruct (ct_bySec s !! sec); [|done]. cbn. apply merge_sort_Permutation. }
  split_and!; [done | |]; unfold sec_fns, textSecs; cbn [cv_bySec cv_fns].
  - etrans; [|apply (split_by_key cf_sec (ct_fns s) (sortedKeys (merge_sort fn_le <$> ct_bySec s))); [apply nodup_sortedKeys|]].
    + set (ks := sortedKeys _). clearbody ks. induction ks as [|k ks IH]; [done|]. cbn. by rewrite IH, Hp.
    + intros x Hx. apply elem_sortedKeys. rewrite lookup_fmap. destruct (H2 x Hx) as [xs ->]. by eexists.
  - intros sec x. rewrite Hp, list_elem_of_filter. by intros [? _].
Qed.

(** ** The assembled object *)

Definition empty_link : Link := mkLink [] ∅ ∅ [] [] [] ∅ false.

Lemma empty_ok : link_ok empty_link.
Proof.
  split; cbn; [intros ? ?; by rewrite lookup_empty.. | constructor | intros i []%not_elem_of_nil | intros i []%not_elem_of_nil | |].
  - intros name i. by rewrite lookup_empty, lookup_nil.
  - done.
Qed.

Lemma NewLink_empty go arch pkg known l : NewLink go arch pkg known = Ok l -> l = empty_link.
Proof. unfold NewLink. destruct (negb known); [done|]. destruct (String.eqb _ _); [done|]. by intros [= <-]. Qed.

(** The file table of the object. *)
Definition file_index (f : File) : list Z := fst (add_files f empty_link).

Lemma bind_conv c l : conv_ok c -> conv_ok (fst (bind_fns c l)).
Proof.
  intros ([Ha1 Ha2] & Hp & Hs). unfold bind_fns. set (l1 := foldl _ l _). set (bind := fun x => set_sym x _). cbn [fst].
  assert (forall sec, sec_fns (mkConv (cv_pkg c) (cv_tu c) (cv_arm64 c) (cv_libcallImpl c) (cv_ef c) (cv_syms c) (bind <$> cv_fns c)
     ((fun xs : list fn => bind <$> xs) <$> cv_bySec c) (cv_abiByGoSym c) (cv_goName c) (cv_dataSym c) (cv_secSym c)) sec = bind <$> sec_fns c sec) as Hsec.
  { intros sec. unfold sec_fns. cbn [cv_bySec]. rewrite lookup_fmap. by destruct (cv_bySec c !! sec). }
  split_and!; cbn [cv_fns cv_abiByGoSym].
  - split; [|done]. apply Forall_fmap. eapply Forall_impl; [exact Ha1|]. done.
  - etrans; [|exact (fmap_Permutation bind _ _ Hp)]. unfold textSecs at 1. cbn [cv_bySec]. unfold sortedKeys. rewrite dom_fmap_L.
    fold (sortedKeys (cv_bySec c)). fold (textSecs c).
    generalize (textSecs c). intros ks. induction ks as [|k ks IH]; [done|]. cbn [fmap list_fmap concat]. by rewrite Hsec, IH, fmap_app.
  - intros sec x. rewrite Hsec. intros (y & -> & Hy)%list_elem_of_fmap. cbn. by apply Hs.
Qed.

Lemma extends_Flush cf l l' : Flush cf l = Ok (Some l') -> extends l l' /\ l_flushed l' = true.
Proof.
  unfold Flush. destruct (l_flushed l); [done|]. intros [= E]. apply extends_flush_all in E as X. set (l1 := mkLink _ _ _ _ _ _ _ true) in X.
  split; [|by apply (ex_flushed _ _ X)]. etrans; [|exact X]. split; [|done..]. intros [H1 H2 H3 H4 H5 H6 H7]. by split.
Qed.

(** For every function: its symbol, found by name and calling convention, is a TEXT
    symbol that holds its code, relocations and tables. *)
Definition assembled (rl : release) (c : converter) (f : File) (l : Link) (x : fn) : Prop :=
  exists i s, named l (fn_name c x) (cf_abi x) = Some i /\ i ∈ l_Text l /\ l_syms l !! i = Some s /\
    s_Name s = fn_name c x /\ s_ABI s = cf_abi x /\ s_Kind s = "STEXT" /\ s_Static s = false /\
    code_ok c (callAt f) x s /\ info_ok rl (file_index f) (cf_tab x) s l.

Lemma assemble_ok rl cf c f l : conv_ok c -> assemble rl cf c f = Ok l ->
  link_ok l /\ l_flushed l = true /\ forall x, x ∈ cv_fns c -> assembled rl c f l x.
Proof.
  intros Hc E. unfold assemble in E. ok_step E l0. apply NewLink_empty in El0 as ->.
  unfold file_index. pose proof (extends_add_files f empty_link) as X1. unfold assembled, file_index. destruct (add_files f empty_link) as [idx l1]. cbn [fst snd] in *.
  pose proof (bind_conv c l1 Hc) as Hc1. destruct (bind_fns c l1) as [c1 l2] eqn:Eb. cbn [fst] in Hc1.
  assert (l2 = foldl (fun l x => snd (fn_symbol c x l)) l1 (cv_fns c) /\ cv_fns c1 = (fun x => set_sym x (fst (fn_symbol c x l2))) <$> cv_fns c /\
    cv_ef c1 = cv_ef c /\ cv_arm64 c1 = cv_arm64 c) as (El2 & Hf1 & Hef1 & Harm1) by (unfold bind_fns in Eb; injection Eb as <- <-; by split_and!).
  assert (extends l1 l2) as X2 by (rewrite El2; apply extends_symbols, Hc).
  pose proof (ex_ok _ _ X1 empty_ok) as Hok1. pose proof (ex_ok _ _ X2 Hok1) as Hok2.
  ok_step E x0. destruct x0 as [c2 l3]. pose proof (extends_emitData _ _ _ _ (proj1 Hc1) Ex0) as X3.
  destruct (emitData_inv _ _ _ _ Ex0) as (d & _ & _ & -> & _ & _).
  ok_step E l4. pose proof (extends_rfold _ _ _ _ (fun l x l' => extends_init_fn cf l x l') El4) as X4.
  destruct (init_fns_ok _ _ _ _ (ex_ok _ _ X3 Hok2) El4) as (Hnd & _ & Htext). cbn [cv_fns with_data] in Hnd, Htext, E.
  ok_step E x0. destruct x0 as [stubs l5]. unfold add_stubs in Ex1. apply (extends_rfold_of snd) in Ex1 as X5;
    [|intros a n b Hn; exact (extends_add_stub cf (with_data c1 d) a n b (proj1 Hc1) Hn)].
  cbn [snd] in X5. ok_step E o. destruct o as [l6|]; [|done]. apply extends_Flush in Eo as [X6 Hfl]. ok_step E l7.
  apply extends_rfold in El7 as X7; [|by intros ? ? ? ?%extends_fill_stub]. ok_step E s. injection E as <-.
  assert (extends l4 l7) as X47 by (by rewrite X5, X6).
  destruct Hc1 as (Ha1 & Hp1 & Hs1).
  assert (forall x, x ∈ concat (sec_fns c1 <$> textSecs c1) -> cf_sym x ∈ l_Text l7) as Ht.
  { intros x. rewrite Hp1. intros Hx. by apply (ex_text _ _ X47), Htext. }
  assert (link_ok l7) as Hok7 by (apply (ex_ok _ _ X47), (ex_ok _ _ X4), (ex_ok _ _ X3), Hok2).
  change (textSecs (with_data c1 d)) with (textSecs c1) in Es.
  destruct (fill_sections_ok rl (with_data c1 d) (callAt f) idx Ha1 (textSecs c1) [] (mkCst ∅ l7) s) as [X8 Hdone]; try done.
  { cbn [app]. change (sec_fns (with_data c1 d)) with (sec_fns c1). by rewrite Hp1. }
  { intros x []%not_elem_of_nil. }
  cbn [cs_link] in X8. pose proof (ex_ok _ _ X8 Hok7) as Hok8. split_and!; [done | by apply (ex_flushed _ _ X8), (ex_flushed _ _ X7) |].
  intros x Hx. assert (abi_known (cf_abi x)) as Hab by (destruct Hc as [[Ha _] _]; rewrite Forall_forall in Ha; by apply Ha).
  destruct (symbols_named c (cv_fns c) (proj1 (proj1 Hc)) l1 Hok1 x Hx) as [i Hi]. rewrite <-El2 in Hi.
  assert (set_sym x i ∈ cv_fns c1) as Hx1.
  { rewrite Hf1. apply list_elem_of_fmap. exists x. split; [|done]. by rewrite (named_lookup _ _ _ _ Hi : fn_symbol c x l2 = _). }
  assert (named (cs_link s) (fn_name c x) (cf_abi x) = Some i) as Hi8 by (eapply named_extends; [|exact Hi]; by rewrite X3, X4, X47).
  destruct (named_sym _ _ _ _ Hab Hok8 Hi8) as (y & Hy & Hn & Hab').
  assert (i ∈ l_Text (cs_link s)) as Hit by (apply (ex_text _ _ X8), (ex_text _ _ X47), (Htext _ Hx1)).
  destruct (ok_text _ Hok8 i Hit) as (y' & Hy' & _ & Hk). rewrite Hy in Hy'. injection Hy' as <-.
  destruct (Hdone (set_sym x i)) as (y' & Hy' & Hcode & Hinfo); [cbn [app]; change (sec_fns (with_data c1 d)) with (sec_fns c1); by rewrite Hp1|].
  cbn [set_sym cf_sym] in Hy'. rewrite Hy in Hy'. injection Hy' as <-. exists i, y. split_and!; try done; [exact (ok_static _ Hok8 i y Hy)|].
  destruct Hcode as (sc & dd & rs & p & C1 & C2 & C3 & C4 & C5). exists sc, dd, rs, p. unfold relas in *.
  cbn [with_data cv_ef cv_arm64 set_sym cf_sec cf_off cf_tab] in *. rewrite Hef1, Harm1 in *. by split_and!.
Qed.
