(* ===== verification/Names.v ===== *)
(** * The names a release must number

    The writer looks up the number of every symbol kind and relocation type by name and
    fails without one.  [check] of Meta.v is what says that a release has them: every
    name that the converter can put into an object is one that the check asks for, but
    for those listed in [pcrel_ldst] and [flavor_types] and the kind of the empty range
    symbols. *)

From Stdlib Require Import ZArith Lia Ascii.
From stdpp Require Import base list strings gmap sorting.
From S2P Require Import Prelude Text Codec Format Elf Layout PcTab Link ObjWrite Convert Arm64Proofs Data DataProofs Assemble Meta ConvertMain AssembleProofs.

(** The kinds and relocation types that [required] lists. *)
Definition sym_kinds : list string :=
  ["Sxxx"; "STEXT"; "SRODATA"; "SDATA"; "SBSS"; "SNOPTRDATA"; "SNOPTRBSS"; "SDWARFFCN"; "SDWARFLINES"].

Definition reloc_types : list string :=
  ["R_ADDR"; "R_CALL"; "R_PCREL"; "R_CALLARM64"; "R_ADDRARM64"; "R_ARM64_GOTPCREL"; "R_ARM64_PCREL";
   "R_ARM64_LDST8"; "R_ARM64_LDST16"; "R_ARM64_LDST32"; "R_ARM64_LDST64"; "R_ARM64_LDST128"].

(** The types of arm64 pairs that the check leaves out. *)
Definition pcrel_ldst : list string :=
  ["R_ARM64_PCREL_LDST8"; "R_ARM64_PCREL_LDST16"; "R_ARM64_PCREL_LDST32"; "R_ARM64_PCREL_LDST64"].

Lemma elem_true (x : string) (l : list string) : bool_decide (x ∈ l) = true -> x ∈ l.
Proof. apply bool_decide_eq_true_1. Qed.

Ltac listed := first [reflexivity | apply elem_true; reflexivity].

Section Names.
Variable arm : bool.
Variable cf : lconf.

(** The address types of DWARF 5, used when the release and the object header ask for
    them. *)
Definition flavor_types : list string :=
  if String.eqb (lc_FuncDIE cf) "v2" && lc_Dwarf5 cf then (fun x => x.1.2) <$> lc_TextAddrx cf else [].

Definition rel_known (r : LReloc) : Prop :=
  lr_Type r ∈ reloc_types \/ (arm = true /\ lr_Type r ∈ pcrel_ldst) \/ lr_Type r ∈ flavor_types.

Definition kind_known (s : Sym) : Prop := kindName (s_Kind s) ∈ sym_kinds.

(** The kinds are among [K]; those of declared data are always among [sym_kinds]. *)
Record names_ok (K : list string) (l : Link) : Prop := {
  na_syms : forall i s, l_syms l !! i = Some s -> kindName (s_Kind s) ∈ K /\ Forall rel_known (s_R s);
  na_data : forall i, i ∈ l_Data l -> exists s, l_syms l !! i = Some s /\ kind_known s }.

Variable K : list string.
Hypothesis K_kinds : forall k, k ∈ sym_kinds -> k ∈ K.

(** A write that leaves the kind or sets a known one, and adds known relocations. *)
Definition names_kept (f : Sym -> Sym) : Prop := forall s,
  (s_Kind (f s) = s_Kind s \/ kind_known (f s)) /\ (Forall rel_known (s_R s) -> Forall rel_known (s_R (f s))).

Lemma kept_comp f g : names_kept f -> names_kept g -> names_kept (fun s => g (f s)).
Proof.
  intros Hf Hg s. destruct (Hf s) as [F1 F2], (Hg (f s)) as [G1 G2]. split; [|auto]. unfold kind_known in *.
  destruct G1 as [->|?]; [exact F1 | by right].
Qed.

Lemma kept_same f : (forall s, s_Kind (f s) = s_Kind s /\ s_R (f s) = s_R s) -> names_kept f.
Proof. intros H s. destruct (H s) as [-> ->]. by split; [left|]. Qed.

Lemma kept_func f : names_kept (with_func f).
Proof. apply kept_same. intros s. unfold with_func. by destruct (s_Func s). Qed.

Lemma kept_kind k : kindName k ∈ sym_kinds -> names_kept (set_kind k).
Proof. intros H s. split; [by right | done]. Qed.

Lemma kept_rel r : rel_known r -> names_kept (AddRel r).
Proof. intros Hr s. split; [by left|]. intros H. apply Forall_app. split; [exact H | by constructor]. Qed.

Lemma kept_prep off siz : names_kept (prepwrite off siz).
Proof.
  intros s. unfold prepwrite. cbn [set_data s_Kind s_R]. split; [|done]. unfold kind_known. cbn [set_data s_Kind].
  destruct (_ || _); [right; listed|]. destruct (String.eqb _ _); [right; listed | by left].
Qed.

Lemma kept_bytes off b : names_kept (WriteBytes off b).
Proof. unfold WriteBytes. destruct b as [|z b]; [by apply kept_same|]. intros s. exact (kept_prep off (zlen (z :: b)) s). Qed.

Lemma kept_int off siz v : names_kept (fun s => default s (WriteInt off siz v s)).
Proof. intros s. unfold WriteInt. destruct (_ || _); [exact (kept_prep off siz s) | split; [by left | done]]. Qed.

Lemma kept_pad : names_kept pad.
Proof.
  intros s. unfold pad. generalize (Z.to_nat (s_Size s - zlen (s_P s))). intros n. revert s.
  induction n as [|n IH]; intros s; cbn [pad_go]; [split; [by left | done]|]. destruct (_ <? _); [|split; [by left | done]].
  destruct (kept_int (zlen (s_P s)) 1 0 s) as [A1 A2]. set (s1 := default s _) in *. destruct (IH s1) as [B1 B2]. split; [|auto].
  unfold kind_known in *. destruct B1 as [->|?]; [exact A1 | by right].
Qed.

(** ** The operations of a [Link] *)

Lemma names_modify i f l : names_kept f -> names_ok K l -> names_ok K (modify i f l).
Proof using K_kinds.
  intros Hf [H1 H2]. split; cbn [modify l_syms l_Data].
  - intros j s. destruct (decide (i = j)) as [->|]; [|rewrite list_lookup_alter_ne by done; apply H1]. rewrite list_lookup_alter_eq.
    destruct (l_syms l !! j) as [y|] eqn:E; [|done]. intros [= <-]. destruct (H1 _ _ E) as [A B], (Hf y) as [C D]. split; [|auto].
    destruct C as [->|C]; [exact A | by apply K_kinds].
  - intros j (s & Hs & Hk)%H2. eexists. split; [by apply modify_lookup|]. destruct (decide (i = j)); [|done].
    unfold kind_known in *. destruct (Hf s) as [[->|C] _]; [exact Hk | exact C].
Qed.

(** The same symbols and data, in other tables. *)
Lemma names_same l l' : l_syms l' = l_syms l -> l_Data l' = l_Data l -> names_ok K l -> names_ok K l'.
Proof. intros E1 E2 [H1 H2]. split; rewrite E1, ?E2; assumption. Qed.

Lemma names_alloc s l i l' : alloc s l = (i, l') -> kindName (s_Kind s) ∈ K -> Forall rel_known (s_R s) -> names_ok K l -> names_ok K l'.
Proof.
  intros [= <- <-] Hk Hr [H1 H2]. split; cbn [l_syms l_Data].
  - intros j y Hj. apply lookup_app_Some in Hj as [Hj|[_ Hj]]; [by eapply H1|]. apply list_lookup_singleton_Some in Hj as [_ <-]. by split.
  - intros j (y & Hy & Hn)%H2. exists y. split; [by apply lookup_app_l_Some | exact Hn].
Qed.

Lemma names_lookup name abi l i l' : LookupABI name abi l = (i, l') -> names_ok K l -> names_ok K l'.
Proof using K_kinds.
  unfold LookupABI. destruct (_ !! name); [by intros [= <- <-]|]. destruct (alloc _ l) as [j l1] eqn:E. intros [= <- <-] H.
  assert (names_ok K l1) as H1 by (apply (names_alloc _ _ _ _ E); [apply K_kinds; listed | constructor | exact H]).
  destruct (abi =? ABIInternal); by apply (names_same l1).
Qed.

Lemma globl_kind_known k flag : kindName k ∈ sym_kinds -> kindName (globl_kind k flag) ∈ sym_kinds.
Proof.
  intros H. unfold globl_kind. destruct (negb _); [listed|]. destruct (String.eqb k "") eqn:E.
  - destruct (negb _); listed.
  - destruct (negb _); [|exact H]. destruct (String.eqb k "SDATA"); listed.
Qed.

Lemma names_Globl i size flag l l' : (forall s, l_syms l !! i = Some s -> kind_known s) -> Globl i size flag l = Ok l' -> names_ok K l -> names_ok K l'.
Proof using K_kinds.
  intros Hk. unfold Globl. destruct (l_syms l !! i) as [s|] eqn:Ei; [|done]. destruct (s_onList s); [done|]. intros [= <-] [H1 H2].
  specialize (Hk s eq_refl). pose proof (globl_kind_known _ flag Hk) as Hd. split; cbn [l_syms l_Data modify].
  - intros j y. destruct (decide (i = j)) as [->|]; [|rewrite list_lookup_alter_ne by done; apply H1]. rewrite list_lookup_alter_eq, Ei.
    intros [= <-]. split; [by apply K_kinds | by apply (H1 _ _ Ei)].
  - assert (forall j y, l_syms l !! j = Some y -> kind_known y ->
      exists z, alter (declare flag size) i (l_syms l) !! j = Some z /\ kind_known z) as H.
    { intros j y Hy Hn. destruct (decide (i = j)) as [->|]; [|exists y; by rewrite list_lookup_alter_ne]. rewrite list_lookup_alter_eq, Hy.
      exists (declare flag size y). split; [done|]. by apply globl_kind_known. }
    intros j [Hj| ->%list_elem_of_singleton]%elem_of_app; [|by eapply H]. destruct (H2 j Hj) as (y & Hy & Hn). by eapply H.
Qed.

(** Declaring after the kind was assigned. *)
Lemma names_kind_globl i k size flag l l' : kindName k ∈ sym_kinds -> Globl i size flag (modify i (set_kind k) l) = Ok l' -> names_ok K l -> names_ok K l'.
Proof using K_kinds.
  intros Hk E H. eapply names_Globl; [|exact E | by apply names_modify; [apply kept_kind|]]. intros s. cbn [modify l_syms].
  rewrite list_lookup_alter_eq. destruct (l_syms l !! i); [|done]. by intros [= <-].
Qed.

Lemma names_InitText i flag l l' : InitText cf i flag l = Ok l' -> names_ok K l -> names_ok K l'.
Proof using K_kinds.
  unfold InitText. destruct (l_syms l !! i) as [s|] eqn:Ei; [|done]. destruct (_ || _); [done|]. intros [= <-] H.
  apply (names_same (modify i (text_sym cf flag) l)); [done..|]. apply names_modify; [|exact H]. intros y. split; [right; listed | done].
Qed.

Lemma names_AddFile name l : names_ok K l -> names_ok K (snd (AddFile name l)).
Proof. unfold AddFile. destruct (_ !! name); [done|]. by apply names_same. Qed.

(** ** Names and addresses *)

Lemma names_resolveText c sec addr l : names_ok K l -> names_ok K (snd (resolveText c sec addr l)).
Proof using K_kinds.
  intros H. unfold resolveText. destruct (snd <$> list_find (fun x => covers addr x = true) _) as [x|].
  - destruct (libcall_body c l x addr) as [impl|]; [|done]. destruct (LookupABI impl ABI0 l) as [i l'] eqn:E. by eapply names_lookup.
  - by destruct (snd <$> list_find _ _).
Qed.

Lemma names_resolveCName c name l : names_ok K l -> names_ok K (snd (resolveCName c name l)).
Proof using K_kinds.
  intros H. assert (forall n a, names_ok K (snd (LookupABI n a l))) as HL.
  { intros n a. destruct (LookupABI n a l) as [i l'] eqn:E. by eapply names_lookup. }
  assert (forall n, names_ok K (snd (Lookup n l))) as HL0 by (intros n; apply HL). unfold resolveCName.
  repeat match goal with |- context [let '(_, _) := ?x in _] => destruct x | |- context [match ?x with _ => _ end] => destruct x end; auto.
Qed.

Lemma names_resolveTarget c r l : names_ok K l -> names_ok K (snd (resolveTarget c r l)).
Proof using K_kinds.
  intros H. unfold resolveTarget. destruct (if re_Sym r =? 0 then None else _) as [es|]; [|done].
  destruct (_ =? SHN_UNDEF).
  { pose proof (names_resolveCName c (ey_name es) l H) as H1. by destruct (resolveCName c (ey_name es) l). }
  destruct (isText c (ey_section es)).
  - match goal with |- context [resolveText c _ ?a l] => set (addr := a) end. destruct (addr <? 0); [done|].
    pose proof (names_resolveText c (ey_section es) addr l H) as H1. by destruct (resolveText _ _ _ _) as [[? ?] ?].
  - destruct (cv_dataSym c !! _); [done|]. by destruct (cv_secSym c !! _).
Qed.

Lemma names_gotSlot c t add s i s' : gotSlot c t add s = Ok (i, s') -> names_ok K (cs_link s) -> names_ok K (cs_link s').
Proof using K_kinds.
  unfold gotSlot. destruct (cs_got s !! _); [by intros [= <- <-]|]. destruct (Lookup _ (cs_link s)) as [j l] eqn:El.
  intros E H. ok_step E l1. pose proof (kept_int 0 8 0) as Hw. set (W := fun y => default y (WriteInt 0 8 0 y)) in E, Hw. clearbody W.
  injection E as <- <-. cbn [cs_link]. apply names_modify; [apply kept_rel; left; listed|]. apply names_modify; [exact Hw|].
  eapply names_kind_globl; [|exact El1 | by eapply names_lookup]. listed.
Qed.

(** ** Relocations of text *)

Lemma names_x86 c calls x rs : forall s s', x86_relocs c calls x s rs = Ok s' -> names_ok K (cs_link s) -> names_ok K (cs_link s').
Proof using K_kinds.
  induction rs as [|r rs IH]; intros s s' E H; cbn [x86_relocs] in E; [by injection E as <-|]. ok_step E s1. eapply IH; [exact E|]. clear E IH.
  unfold x86_reloc in Es1. destruct (_ || _); [by injection Es1 as <-|]. pose proof (names_resolveTarget c r _ H) as H1.
  destruct (resolveTarget c r (cs_link s)) as [[[[target|] goAdd] ename] l]; [|done]. cbn [snd] in H1. ok_step Es1 z. destruct z as [[[tgt add] ty] s2].
  assert (names_ok K (cs_link s2)) as H2.
  { destruct (isGOT _); [|by injection Ez as _ _ _ <-]. ok_step Ez z. destruct z as [i s3]. injection Ez as _ _ _ <-. by apply (names_gotSlot _ _ _ _ _ _ Ez0). }
  destruct (alookup ty X86Text) as [typ|] eqn:Et; [|done]. destruct (_ && negb _); [done|]. destruct ((re_Add r <? _) || _); [done|].
  injection Es1 as <-. apply names_modify; [|exact H2]. apply kept_rel. left. cbn [lr_Type]. destruct (_ && _); [listed|].
  by destruct (X86Text_types _ _ Et) as [-> | ->]; listed.
Qed.

(** The value of a lookup in a literal map. *)
Lemma alookup_in {A} k (m : list (Z * A)) x : alookup k m = Some x -> x ∈ m.*2.
Proof.
  unfold alookup. destruct (list_find _ m) as [[i [k' y]]|] eqn:E; [|done]. intros [= ->]. apply list_find_Some in E as (E & _).
  apply list_elem_of_fmap. exists (k', x). split; [done | by eapply list_elem_of_lookup_2].
Qed.

(** A property of the values of a literal map, by evaluation. *)
Lemma all_of {A} (P : A -> Prop) `{forall x, Decision (P x)} l x : x ∈ l -> bool_decide (Forall P l) = true -> P x.
Proof. intros Hx Hl%bool_decide_eq_true_1. rewrite Forall_forall in Hl. by apply Hl. Qed.

Lemma names_code i f l : names_ok K l -> names_ok K (set_code i f l).
Proof using K_kinds. apply names_modify. by apply kept_same. Qed.

Lemma pair_known t typ : arm = true -> arm64PagePair t = Some typ -> typ ∈ reloc_types \/ (arm = true /\ typ ∈ pcrel_ldst).
Proof.
  intros Ha E%alookup_in. apply (all_of (fun y => y ∈ reloc_types \/ y ∈ pcrel_ldst)) in E as [H|H]; [by left | by right | reflexivity].
Qed.

Lemma lo12_known t : is_lo12 t = true -> default "" (alookup t A64Lo12) ∈ reloc_types.
Proof. intros H%is_lo12_cases. by apply (all_of (fun t => default "" (alookup t A64Lo12) ∈ reloc_types)) in H. Qed.

Lemma names_a64_reloc c x r next l u l' : arm = true -> a64_reloc c x r next l = Ok (u, l') -> names_ok K l -> names_ok K l'.
Proof using K_kinds.
  intros Harm E H. unfold a64_reloc in E. destruct (_ || _); [done|]. pose proof (names_resolveTarget c r l H) as H1.
  destruct (resolveTarget c r l) as [[[[target|] add] ename] l1]; [|done]. cbn [snd] in H1.
  assert (forall off b, clear_pair (cf_sym x) off l1 = Ok b -> names_ok K b) as Hclear.
  { intros off b. unfold clear_pair. destruct (_ <? _); [done|]. intros [= <-]. by apply names_code. }
  assert (forall off siz typ a b, typ ∈ reloc_types \/ (arm = true /\ typ ∈ pcrel_ldst) -> names_ok K b ->
    names_ok K (modify (cf_sym x) (AddRel (mkLReloc off siz typ a target)) b)) as Hrel.
  { intros off siz typ a b Ht Hb. apply names_modify; [apply kept_rel | exact Hb]. destruct Ht; [by left | by right; left]. }
  destruct ((re_Type r =? _) || _).
  { destruct (negb (add =? 0)); [done|]. injection E as <- <-. apply Hrel; [left; listed | by apply names_code]. }
  destruct (re_Type r =? R_AARCH64_ADR_PREL_PG_HI21).
  { destruct (match (match next with Some n => _ | None => None end) with None => true | Some n => _ end).
    - injection E as <- <-. apply Hrel; [left; listed | by apply names_code].
    - ok_step E typ. ok_step E l2. injection E as <- <-. apply a64_pair_inv in Etyp as (n & _ & Ht & _). apply Hrel; [|by eapply Hclear].
      by eapply pair_known. }
  destruct (re_Type r =? R_AARCH64_ADR_GOT_PAGE).
  { ok_step E typ. ok_step E l2. injection E as <- <-. apply Hrel; [left; listed | by eapply Hclear]. }
  destruct (is_lo12 (re_Type r)) eqn:El. { injection E as <- <-. apply Hrel; [left; by apply lo12_known | by apply names_code]. }
  destruct (_ || _); [|done]. destruct (alookup _ A64Data) as [d|] eqn:Ed; [|done]. injection E as <- <-. apply Hrel; [|exact H1].
  apply alookup_in in Ed. left. by apply (all_of (fun y => sz_Type y ∈ reloc_types)) in Ed.
Qed.

Lemma names_a64 c x rs l l' : arm = true -> arm64TextRelocs c x rs l = Ok l' -> names_ok K l -> names_ok K l'.
Proof using K_kinds.
  intros Harm. unfold arm64TextRelocs. generalize (merge_sort rela_le (filter (fun r => covers (re_Off r) x = true) rs)), false. intros mine.
  revert l. induction mine as [|r mine IH]; intros l used E H; cbn [a64_loop] in E; [by injection E as <-|].
  destruct used; [by eapply IH|]. ok_step E z. destruct z as [u l1]. eapply IH; [exact E|]. by eapply names_a64_reloc.
Qed.
(** ** Tables and functions *)

Lemma names_rfold {E S A} (link : S -> Link) (f : S -> A -> res E S) xs s s' :
  (forall s x s', f s x = Ok s' -> names_ok K (link s) -> names_ok K (link s')) -> rfold f s xs = Ok s' -> names_ok K (link s) -> names_ok K (link s').
Proof. intros Hf E0 H. revert E0. by apply (rfold_ind (fun t => names_ok K (link t))); [intros ? ? ? _ Hs Et; by eapply Hf|]. Qed.

Lemma names_pctab rl size ents l i l' : pctab rl size ents l = (i, l') -> names_ok K l -> names_ok K l'.
Proof using K_kinds. intros E. apply (names_alloc _ _ _ _ E); [apply K_kinds; listed | constructor]. Qed.

Lemma names_fill_nils rl ds : forall l ds' l', fill_nils rl ds l = (ds', l') -> names_ok K l -> names_ok K l'.
Proof using K_kinds.
  induction ds as [|d ds IH]; intros l ds' l' E H; cbn [fill_nils] in E; [by injection E as <- <-|].
  destruct (match d with Some i => _ | None => _ end) as [d1 l1] eqn:E1. destruct (fill_nils rl ds l1) as [ds1 l2] eqn:E2.
  injection E as <- <-. eapply IH; [exact E2|]. destruct d; [by injection E1 as <- <-|].
  destruct (pctab rl 0 [] l) as [i l3] eqn:E3. injection E1 as <- <-. by eapply names_pctab.
Qed.

Lemma names_inlSym c name l i l' : inlSym c name l = (i, l') -> names_ok K l -> names_ok K l'.
Proof using K_kinds. unfold inlSym. destruct (_ !! name); apply names_lookup. Qed.

Lemma names_inl_node c fileIdx s n s' : inl_node c fileIdx s n = Ok s' -> names_ok K (snd s) -> names_ok K (snd s').
Proof using K_kinds.
  destruct s as [tree l]. unfold inl_node. destruct (fileIdx !! _); [|done]. destruct (_ <? 0); [done|].
  destruct (inlSym c (in_Func n) l) as [i l1] eqn:E. intros [= <-]. by eapply names_inlSym.
Qed.

Lemma names_add_stub c s n s' : add_stub cf c s n = Ok s' -> names_ok K (snd s) -> names_ok K (snd s').
Proof using K_kinds.
  destruct s as [stubs l]. unfold add_stub. destruct (cv_goName c !! _); [by intros [= <-]|].
  destruct (inlSym c (in_Func n) l) as [ls l1] eqn:El. destruct (l_syms l1 !! ls) as [y|]; [|done].
  destruct (s_Func y); [intros [= <-]; by eapply names_inlSym|]. intros E H. ok_step E l2. injection E as <-. cbn [snd].
  eapply names_InitText; [exact El2|]. by eapply names_inlSym.
Qed.

Lemma names_fill_stub rl b l x l' : fill_stub rl b l x = Ok l' -> names_ok K l -> names_ok K l'.
Proof using K_kinds.
  destruct x as [i line]. unfold fill_stub. intros E H. destruct (fill_nils rl _ _) as [pcd l1] eqn:E1.
  pc_step E. pc_step E. pc_step E. injection E as <-. apply names_modify; [apply kept_func|].
  do 3 (eapply names_pctab; [eassumption|]). eapply names_fill_nils; [exact E1|]. apply names_modify; [by apply kept_same | exact H].
Qed.

Lemma names_line_tables rl c fileIdx t size fi file line l po l' : line_tables rl c fileIdx t size fi file line l = Ok (po, l') ->
  names_ok K l -> names_ok K l'.
Proof using K_kinds.
  intros E H. unfold line_tables in E. destruct (table_of_kind t PCFile) as [ft|]; [|by injection E as <- <-].
  destruct (table_of_kind t PCLine) as [lt|]; [|by injection E as <- <-]. pc_step E. pc_step E. ok_step E x. destruct x as [tree l4].
  assert (names_ok K l4) as H4.
  { apply (names_rfold snd _ _ _ _ (names_inl_node c fileIdx) Ex). cbn [snd]. by do 2 (eapply names_pctab; [eassumption|]). }
  destruct (match table_of_kind t PCInlIndex with Some _ => _ | None => _ end) as [pi l5] eqn:E5. injection E as <- <-.
  destruct (table_of_kind t PCInlIndex) as [it|]; [|by injection E5 as <- <-]. destruct (Format.slice (fn_Inl t)); [by injection E5 as <- <-|].
  destruct (pctab rl size it l4) as [j l6] eqn:E6. injection E5 as <- <-. by eapply names_pctab.
Qed.

Lemma names_fill_info rl c fileIdx x l l' : fill_info rl c fileIdx x l = Ok l' -> names_ok K l -> names_ok K l'.
Proof using K_kinds.
  intros E H. unfold fill_info in E. destruct (l_syms l !! _) as [y|]; [|done]. destruct (s_Func y) as [fi|]; [|done].
  destruct (fill_nils rl _ l) as [pcd l1] eqn:E1. apply names_fill_nils in E1 as H1; [|exact H].
  pc_step E. apply names_pctab in Hp as H2; [|exact H1]. ok_step E x1. destruct x1 as [pcd1 l2].
  assert (names_ok K l2) as H3.
  { destruct (table_of_kind _ PCUnsafePoint) as [up|]; [|by injection Ex1 as <- <-]. pc_step Ex1. ok_step Ex1 pcd2. injection Ex1 as <- <-.
    by eapply names_pctab. }
  pc_step E. ok_step E pcd2. pc_step E. pc_step E. ok_step E x2. destruct x2 as [po l6].
  apply names_line_tables in Ex2 as H4; [|by do 3 (eapply names_pctab; [eassumption|])].
  injection E as <-. apply names_modify; [|exact H4]. apply (kept_comp (with_func _)); [apply kept_func | by apply kept_same].
Qed.

Lemma names_fill_fn rl c calls fileIdx d rs s x s' : cv_arm64 c = arm -> fill_fn rl c calls fileIdx d rs s x = Ok s' ->
  names_ok K (cs_link s) -> names_ok K (cs_link s').
Proof using K_kinds.
  intros Ha E H. unfold fill_fn in E. ok_step E s1. ok_step E l. injection E as <-. cbn [cs_link]. eapply names_fill_info; [exact El|].
  unfold fill_code in Es1. destruct (slice_ _ _ _) as [p|]; [|done]. set (l0 := modify _ _ (cs_link s)) in Es1.
  assert (names_ok K l0) as H0 by (apply names_modify; [intros y; split; [by left | constructor] | exact H]).
  rewrite Ha in Es1. destruct arm eqn:Earm.
  - ok_step Es1 l1. injection Es1 as <-. rewrite <-Earm in *. by eapply names_a64.
  - rewrite <-Earm in *. by apply (names_x86 _ _ _ _ _ _ Es1).
Qed.

Lemma names_fill_section rl c calls fileIdx s sec s' : cv_arm64 c = arm -> fill_section rl c calls fileIdx s sec = Ok s' ->
  names_ok K (cs_link s) -> names_ok K (cs_link s').
Proof using K_kinds.
  intros Ha E. unfold fill_section in E. ok_step E rs. destruct (elf_section_at _ _) as [sc|]; [|done]. destruct (es_data sc) as [d|]; [|done].
  apply (names_rfold cs_link _ _ _ _ (fun s x s' => names_fill_fn rl c calls fileIdx d rs s x s' Ha) E).
Qed.

(** ** Flush *)

Hypothesis K_range : "SDWARFRANGE" ∈ K.

Lemma flavor_known fs n typ size : addrxFlavor fs n = Some (typ, size) -> typ ∈ (fun x : Z * string * Z => x.1.2) <$> fs.
Proof.
  induction fs as [|[[mx reloc] sz] fs IH]; cbn [addrxFlavor]; [done|]. rewrite fmap_cons. destruct (n <=? mx); [intros [= -> ->]; by left|].
  intros E. right. by apply IH.
Qed.

Lemma names_dwarf i l l' : dwarf cf i l = Some l' -> names_ok K l -> names_ok K l'.
Proof using K_kinds K_range.
  unfold dwarf. destruct (l_syms l !! i) as [s|]; [|done]. destruct (s_Func s) as [fi|]; [|done].
  destruct (dwarf_info cf i s fi) as [info|] eqn:Ei; [|done].
  destruct (alloc info l) as [a l1] eqn:E1. destruct (alloc (dwarf_lines cf i s) l1) as [b l2] eqn:E2.
  destruct (alloc (anon_sym "SDWARFRANGE" [] []) l2) as [c l3] eqn:E3. intros [= <-] H. apply names_modify; [apply kept_func|].
  apply (names_alloc _ _ _ _ E3); [exact K_range | constructor |]. assert (forall r, lr_Type r = "R_ADDR" -> rel_known r) as Haddr by (intros r Hr; left; rewrite Hr; listed).
  apply (names_alloc _ _ _ _ E2); [apply K_kinds; listed | constructor; [by apply Haddr | constructor] |].
  unfold dwarf_info in Ei. destruct (die_addrs cf i _ _) as [[p rs]|] eqn:Ed; [|done]. injection Ei as <-.
  apply (names_alloc _ _ _ _ E1); [apply K_kinds; listed | | exact H]. cbn [anon_sym s_R]. unfold die_addrs in Ed.
  destruct (String.eqb (lc_FuncDIE cf) "v2" && lc_Dwarf5 cf) eqn:Ev; [|injection Ed as _ <-; repeat constructor; by apply Haddr].
  destruct (addrxFlavor _ _) as [[typ sz]|] eqn:Ef; [|done]. injection Ed as _ <-. constructor; [|constructor]. right; right. cbn [lr_Type].
  unfold flavor_types. rewrite Ev. by eapply flavor_known.
Qed.

Lemma names_derived i s idx name l : names_ok K l -> names_ok K (add_derived i s idx name l).
Proof using K_kinds.
  intros H. unfold add_derived. destruct (l_syms l !! i) as [s'|]; [|done]. destruct (s_Func s') as [fi|]; [|done].
  destruct (fi_funcdata fi !! idx); [done|]. unfold derived. destruct (s_Static s); [by apply names_modify; [apply kept_func|]|].
  destruct (Lookup name l) as [j l1] eqn:E. apply names_modify; [apply kept_func | by eapply names_lookup].
Qed.

Lemma names_flush_all ts : forall l l', flush_all cf l ts = Some l' -> names_ok K l -> names_ok K l'.
Proof using K_kinds K_range.
  induction ts as [|i ts IH]; intros l l'; cbn [flush_all]; [by intros [= <-]|].
  destruct (flush_text cf l i) as [l1|] eqn:E; [|done]. intros E1 H. eapply IH; [exact E1|]. clear IH E1.
  unfold flush_text in E. destruct (l_syms l !! i) as [s|]; [|done]. destruct (s_Func s) as [fn|]; [|done].
  match type of E with context [pcsym _ ?e] => set (l2 := e) in E end.
  assert (names_ok K l2) as H2 by (unfold l2; destruct (_ && _); [by do 2 apply names_derived | exact H]). clearbody l2.
  destruct (pcsym [0; 0; 0] l2) as [pci l3] eqn:Ep. eapply names_dwarf; [exact E|]. apply names_modify; [apply kept_func|].
  apply (names_alloc _ _ _ _ Ep); [apply K_kinds; listed | constructor | exact H2].
Qed.
End Names.

(** ** Before Flush *)

Section Data.
Variable arm : bool.
Variable cf : lconf.
Abbreviation fresh := (names_ok arm cf sym_kinds).

Lemma kinds_all k : k ∈ sym_kinds -> k ∈ sym_kinds.
Proof. done. Qed.

Lemma fresh_Globl i size flag l l' : Globl i size flag l = Ok l' -> fresh l -> fresh l'.
Proof. intros E H. eapply names_Globl; [exact kinds_all | | exact E | exact H]. intros s Hs. by apply (na_syms _ _ _ _ H i s). Qed.

Lemma fresh_add_blob i kind name b l l' : add_blob i kind name b l = Ok l' -> fresh l -> fresh l'.
Proof.
  unfold add_blob. destruct (Lookup name l) as [ms l1] eqn:El. intros E H. ok_step E l2. injection E as <-.
  apply names_modify; [exact kinds_all | apply kept_func|]. apply names_modify; [exact kinds_all | apply kept_bytes|].
  eapply fresh_Globl; [exact El2|]. by eapply names_lookup.
Qed.

Lemma fresh_init_fn l x l' : init_fn cf l x = Ok l' -> fresh l -> fresh l'.
Proof.
  unfold init_fn. intros E H. ok_step E l1. ok_step E l2. injection E as <-. apply names_modify; [exact kinds_all | apply kept_func|].
  eapply names_InitText in H; [|exact kinds_all | exact El1]. destruct (fn_GC _) as [g|]; [|by injection El2 as <-].
  destruct (stackmaps g) as [[args locals] idx]. ok_step El2 l3. eapply fresh_add_blob; [exact El2|]. by eapply fresh_add_blob.
Qed.

Lemma fresh_emit_global c d x d' : emit_global c d x = Ok d' -> fresh (d_link d) -> fresh (d_link d').
Proof.
  destruct x as [k es]. unfold emit_global. destruct (data_global c es) as [sc|]; [|by intros [= <-]].
  destruct (Lookup _ (d_link d)) as [ls l] eqn:El. intros E H. assert (fresh l) as Hl by (by eapply names_lookup). destruct (_ =? _).
  { ok_step E l1. injection E as <-. by eapply fresh_Globl. }
  destruct (es_data sc) as [b|]; [|done]. destruct (_ <? _); [by injection E as <-|]. ok_step E l1.
  destruct (slice_ _ _ _) as [p|]; [|done]. injection E as <-. cbn [add_global d_link]. apply names_modify; [exact kinds_all | apply kept_bytes|].
  eapply names_kind_globl; [exact kinds_all | | exact El1 | exact Hl]. listed.
Qed.

Lemma fresh_emit_section c d x d' : emit_section c d x = Ok d' -> fresh (d_link d) -> fresh (d_link d').
Proof.
  destruct x as [i sc]. unfold emit_section. destruct (negb _); [by intros [= <-]|].
  destruct (Lookup _ (d_link d)) as [ls l] eqn:El. intros E H. assert (fresh l) as Hl by (by eapply names_lookup). ok_step E l2.
  injection E as <-. cbn [d_link]. destruct (_ =? _); [by eapply fresh_Globl|]. destruct (es_data sc) as [b|]; [|done].
  ok_step El2 l1. injection El2 as <-. apply names_modify; [exact kinds_all | apply kept_bytes|].
  destruct (negb _); [|by eapply fresh_Globl]. eapply names_kind_globl; [exact kinds_all | | exact El1 | exact Hl]. listed.
Qed.

Lemma fresh_add_table c i name ats s x s' : add_table c i name ats s x = Ok s' -> fresh (snd s) -> fresh (snd s').
Proof.
  destruct s as [ts l], x as [sec r]. unfold add_table. destruct (_ || _); [by intros [= <-]|].
  destruct (rela_sym c r) as [es|]; [|by intros [= <-]]. destruct (_ || _ || _); [by intros [= <-]|]. intros E H.
  pose proof (names_resolveText arm cf sym_kinds kinds_all c sec (re_Off r) l H) as H1. destruct (resolveText _ _ _ _) as [[[o|] dl] l1]; [|done].
  by injection E as <-.
Qed.

Lemma data_type_known c t s : data_type c t = Some s -> sz_Type s ∈ reloc_types.
Proof.
  unfold data_type. destruct (cv_arm64 c); intros E%alookup_in; by apply (all_of (fun y => sz_Type y ∈ reloc_types)) in E.
Qed.

Lemma fresh_entry c name tables r l t a l' : entry_target c name tables r l = Ok (t, a, l') -> fresh l -> fresh l'.
Proof.
  intros E H. unfold entry_target in E. destruct (table_at _ _); [|done]. destruct (cv_syms c !! _) as [es|]; [|done]. destruct (_ <? _); [done|].
  match type of E with context [resolveText c ?a ?b l] => pose proof (names_resolveText arm cf sym_kinds kinds_all c a b l H) as H1 end.
  destruct (resolveText _ _ _ _) as [[tg delta] l1]. case_bool_decide; [|done]. by injection E as <- <- <-.
Qed.

Lemma fresh_data_reloc c name ls ranges ats tables l r l' : data_reloc c name ls ranges ats tables l r = Ok l' -> fresh l -> fresh l'.
Proof.
  intros E H. unfold data_reloc in E. ok_step E x. destruct x as [[t a] l1]. destruct (host_of _ _ _) as [host off].
  destruct (data_type _ _) as [sz|] eqn:Et; [|done]. injection E as <-.
  apply names_modify; [exact kinds_all | apply kept_rel; left; by eapply data_type_known|].
  case_bool_decide; [by eapply fresh_entry|]. destruct (_ =? 0); [by injection Ex as <- <- <-|].
  pose proof (names_resolveTarget arm cf sym_kinds kinds_all c r l H) as H1. destruct (resolveTarget c r l) as [[[[i|] b] n] l2]; [|done].
  by injection Ex as <- <- <-.
Qed.

Lemma fresh_section_relocs c d cr l i l' : section_relocs c d cr l i = Ok l' -> fresh l -> fresh l'.
Proof.
  intros E H. unfold section_relocs in E. ok_step E rs. destruct rs as [|r rs]; [by injection E as <-|]. ok_step E x. destruct x as [ts l1].
  destruct (two_owners _); [done|]. apply (names_rfold arm cf sym_kinds (fun l => l) _ _ _ _ (fresh_data_reloc _ _ _ _ _ _) E).
  apply (names_rfold arm cf sym_kinds snd _ _ _ _ (fresh_add_table _ _ _ _) Ex). cbn [snd]. apply names_modify; [exact kinds_all | apply kept_pad | exact H].
Qed.

Lemma fresh_emitData c l c' l' : emitData c l = Ok (c', l') -> fresh l -> fresh l'.
Proof.
  intros (d & cr & Ed & -> & _ & Er)%emitData_inv H. unfold emit_symbols in Ed. ok_step Ed d1.
  apply (names_rfold arm cf sym_kinds (fun l => l) _ _ _ _ (fresh_section_relocs _ _ _) Er).
  apply (names_rfold arm cf sym_kinds d_link _ _ _ _ (fresh_emit_section c) Ed).
  exact (names_rfold arm cf sym_kinds d_link _ _ _ _ (fresh_emit_global c) Ed1 H).
Qed.

Lemma fresh_add_files f l : fresh l -> fresh (snd (add_files f l)).
Proof.
  intros H. unfold add_files. set (file := match f_Files f with s :: _ => _ | [] => _ end). pose proof (names_AddFile arm cf sym_kinds file l H) as H1.
  destruct (AddFile file l) as [i l1]. cbn [snd] in H1. clear H. generalize [Z.of_nat i]. revert l1 H1.
  induction (drop 1 (f_Files f)) as [|s ss IH]; intros l1 H1 idx; [done|]. cbn [foldl]. pose proof (names_AddFile arm cf sym_kinds s l1 H1) as H2.
  destruct (AddFile s l1) as [k l2]. by apply IH.
Qed.

Lemma fresh_symbols c xs l : fresh l -> fresh (foldl (fun l x => snd (fn_symbol c x l)) l xs).
Proof.
  revert l. induction xs as [|x xs IH]; intros l H; [done|]. cbn [foldl]. apply IH. destruct (fn_symbol c x l) as [i l1] eqn:E.
  eapply names_lookup; [exact kinds_all | exact E | exact H].
Qed.
End Data.

(** ** The whole object *)

Definition all_kinds : list string := sym_kinds ++ ["SDWARFRANGE"].

Lemma names_more arm cf K K' l : (forall k, k ∈ K -> k ∈ K') -> names_ok arm cf K l -> names_ok arm cf K' l.
Proof. intros H [H1 H2]. split; [|exact H2]. intros i s Hs. destruct (H1 i s Hs) as [A B]. split; [by apply H | exact B]. Qed.

Lemma assemble_names rl cf c f l : assemble rl cf c f = Ok l -> names_ok (cv_arm64 c) cf all_kinds l.
Proof.
  intros E. assert (forall k, k ∈ sym_kinds -> k ∈ all_kinds) as HK by (intros k Hk; apply elem_of_app; by left).
  unfold assemble in E. ok_step E l0. apply NewLink_empty in El0 as ->.
  assert (names_ok (cv_arm64 c) cf sym_kinds empty_link) as H0 by (split; cbn; [done | by intros i ?%not_elem_of_nil]).
  pose proof (fresh_add_files _ _ f _ H0) as H1. destruct (add_files f empty_link) as [idx l1]. cbn [snd] in H1.
  destruct (bind_fns c l1) as [c1 l2] eqn:Eb. assert (cv_arm64 c1 = cv_arm64 c /\ names_ok (cv_arm64 c) cf sym_kinds l2) as [Harm H2].
  { unfold bind_fns in Eb. injection Eb as <- <-. split; [done | by apply fresh_symbols]. }
  ok_step E x0. destruct x0 as [c2 l3]. apply (fresh_emitData (cv_arm64 c) cf) in Ex0 as H3; [|exact H2].
  destruct (emitData_inv _ _ _ _ Ex0) as (d & _ & _ & -> & _ & _).
  ok_step E l4. pose proof (names_rfold (cv_arm64 c) cf sym_kinds (fun l => l) _ _ _ _ (fresh_init_fn (cv_arm64 c) cf) El4 H3) as H4.
  ok_step E x0. destruct x0 as [stubs l5]. unfold add_stubs in Ex1.
  pose proof (names_rfold (cv_arm64 c) cf sym_kinds snd _ _ _ _ (names_add_stub (cv_arm64 c) cf sym_kinds kinds_all (with_data c1 d)) Ex1 H4) as H5. cbn [snd] in H5.
  ok_step E o. destruct o as [l6|]; [|done]. unfold Flush in Eo. destruct (l_flushed l5); [done|]. injection Eo as Eo.
  eapply (names_flush_all (cv_arm64 c) cf all_kinds HK) in Eo as H6; [|listed|].
  2: { apply (names_same _ _ _ l5); [done..|]. by apply (names_more _ _ sym_kinds). }
  ok_step E l7. pose proof (names_rfold _ _ _ (fun l => l) _ _ _ _ (names_fill_stub (cv_arm64 c) cf all_kinds HK rl _) El7 H6) as H7.
  ok_step E s. injection E as <-.
  exact (names_rfold _ _ _ cs_link _ _ (mkCst ∅ l7) s (fun a b t Hf => names_fill_section (cv_arm64 c) cf all_kinds HK rl (with_data c1 d) _ _ a b t Harm Hf) Es H7).
Qed.


(** *** A load from another object, on arm64 *)

Definition load_gocobj : File :=
  mkFile (mkHeader 1 4 2 0 "" "") ["a.c"] [mkFunc "f" 8 16 0 1 0 0 0 0 3 0 [] None None None 0 0 0] [] [] [] [] ∅ ∅ ∅ ∅ ∅.

Definition load_elf : efile :=
  mkElf EM_AARCH64
    [mkSec "" 0 0 0 None; mkSec ".text" 1 6 8 (Some [0; 0; 0; 144; 0; 0; 64; 249]);
     mkSec ".rela.text" 4 0 48 (Some (demo_rela 0 R_AARCH64_ADR_PREL_PG_HI21 2 0 ++ demo_rela 4 R_AARCH64_LDST64_ABS_LO12_NC 2 0))]
    (SymOk [Elf.mkSym "f" 18 1 0 8; Elf.mkSym "v" 16 0 0 0]).

Definition load_header : string := "go object linux arm64 go1.24.4 X:dwarf5".

Definition load_conv : res string converter := newConverter "a.o" load_gocobj "main" "arm64" "" load_elf.

Definition load_run {A} (k : converter -> res string A) : res string A := c ← load_conv; k c.

Definition load_link (c : converter) : res string Link :=
  assemble (release_of demo_facts "arm64") (conf_for (release_of demo_facts "arm64") c load_header) c load_gocobj.

Definition load_write (c : converter) : res string (list Z) :=
  write_object (release_of demo_facts "arm64") (fun _ => replicate 32 7) (fun _ => replicate 20 7) c load_gocobj load_header.

(** The comment above the check of the relocation types says that the converter uses the
    types of load pairs when the release has them; it uses them in any case, and the object
    is not written. *)
Example pairs_unchecked : check demo_facts = Ok () /\ load_run load_write = Fail "go1.24 has no relocation type R_ARM64_PCREL_LDST64".
Proof. split; vm_compute; reflexivity. Qed.

