(* ===== verification/ObjRead.v ===== *)
(** * Reading a Go object file

    Models src/internal/goobj/read.go: [NewReader], the accessors of [Reader] and
    the FuncInfo decoder, and the way src/internal/goobj/diff.go turns a symbol
    reference into an index.  An index or slice out of range panics in the source
    and is [None] here; the file's slice has no spare capacity.  Offsets are
    [uint32] and wrap.  [gometa.ForVersion] is an argument. *)

From Stdlib Require Import ZArith Lia Ascii.
From stdpp Require Import base list strings gmap.
From S2P Require Import Prelude Text Layout Link ObjWrite Convert.

Record Reader := mkReader { rd_Meta : objMeta; rd_Header : string; rd_b : list Z; rd_off : gmap string Z; rd_nsym : list Z }.

Record RSym := mkRSym { rs_Name : list Z; rs_ABI : Z; rs_Type : Z; rs_Flag : Z; rs_Flag2 : Z; rs_Siz : Z; rs_Align : Z }.
Record SymRef := mkRef { sr_PkgIdx : Z; sr_SymIdx : Z }.
Record RReloc := mkRReloc { rr_Off : Z; rr_Siz : Z; rr_Type : Z; rr_Add : Z; rr_Sym : SymRef }.
Record RAux := mkRAux { ra_Type : Z; ra_Sym : SymRef }.

Definition symSize : Z := 21.
Definition relocSize : Z := 23.
Definition auxSize : Z := 9.

(** [binary.LittleEndian.Uint...(b[off:])] of [n] bytes *)
Definition le_at (n : nat) (b : list Z) (off : Z) : option Z := le_value <$> slice_ b off (off + Z.of_nat n).

Fixpoint is_prefix (p s : list Z) : bool :=
  match p, s with
  | [], _ => true
  | a :: p, b :: s => (a =? b) && is_prefix p s
  | _ :: _, [] => false
  end.

(** [bytes.Index] *)
Fixpoint index_of (p s : list Z) : option nat :=
  if is_prefix p s then Some O else match s with [] => None | _ :: s => S <$> index_of p s end.

(** The block offsets, in the order the header lists them. *)
Fixpoint read_offs (b : list Z) (at_ : Z) (blocks : list string) (m : gmap string Z) : option (gmap string Z) :=
  match blocks with
  | [] => Some m
  | name :: blocks => v ← le_at 4 b at_; read_offs b (at_ + 4) blocks (<[name := v]> m)
  end.

Definition sym_blocks : list (string * string) :=
  [("Symdef", "Hashed64def"); ("Hashed64def", "Hasheddef"); ("Hasheddef", "Nonpkgdef"); ("Nonpkgdef", "Nonpkgref");
   ("Nonpkgref", "RefFlags")].

(** The number of symbols of a block. *)
Definition nsym_of (offs : gmap string Z) (x : string * string) : Z :=
  Z.quot (u32 (at_ offs (snd x) - at_ offs (fst x))) symSize.

Section NewReader.
Variable ForVersion : string -> res string objMeta.

Definition reader_meta (m : option objMeta) (hdr : string) : res string objMeta :=
  match m with
  | Some m => Ok m
  | None => match Fields hdr !! 4%nat with
            | Some v => ForVersion v
            | None => Fail ("bad object header " +:+ quote hdr)
            end
  end.

(** The offsets are read after the length check, which makes every read succeed. *)
Definition NewReader (file : list Z) (m : option objMeta) : res string Reader :=
  match index_of [10] file with
  | Some nl =>
      if negb (is_prefix (bytes_of_string "go object ") file) then Fail "not a Go object file"
      else
        let hdr := string_of_bytes (take nl file) in
        m ← reader_meta m hdr;
        match index_of (om_Magic m) file with
        | None => Fail ("no " +:+ quote (string_of_bytes (om_Magic m)) +:+ " magic")
        | Some i =>
            let b := drop i file in
            if zlen b <? headerSize m + 4 * zlen (om_Blocks m) then Fail "truncated object header"
            else match read_offs b (headerSize m) (om_Blocks m) ∅ with
                 | Some offs => Ok (mkReader m hdr b offs (nsym_of offs <$> sym_blocks))
                 | None => Fail "truncated object header"
                 end
        end
  | None => Fail "not a Go object file"
  end.
End NewReader.

Section Accessors.
Variable r : Reader.

Definition u32_at (off : Z) : option Z := le_at 4 (rd_b r) off.
Definition boff (name : string) : Z := at_ (rd_off r) name.

Definition rstr (off : Z) : option (list Z) :=
  n ← u32_at off; o ← u32_at (u32 (off + 4)); slice_ (rd_b r) o (u32 (o + n)).

Definition nsym (k : nat) : Z := default 0 (rd_nsym r !! k).
Definition NDef : Z := nsym 0 + nsym 1 + nsym 2 + nsym 3.

(** Symbol [i], counting through all the symbol blocks in order. *)
Definition RSym_at (i : Z) : option RSym :=
  let o := u32 (boff "Symdef" + u32 (i * symSize)) in
  name ← rstr o;
  abi ← le_at 2 (rd_b r) (u32 (o + 8));
  ty ← rd_b r !! Z.to_nat (u32 (o + 10));
  flag ← rd_b r !! Z.to_nat (u32 (o + 11));
  flag2 ← rd_b r !! Z.to_nat (u32 (o + 12));
  siz ← u32_at (u32 (o + 13));
  align ← u32_at (u32 (o + 17));
  Some (mkRSym name abi ty flag flag2 siz align).

(** [for k := a; k < b; k++] *)
Definition for_range {A} (f : Z -> option A) (a b : Z) : option (list A) :=
  mapM (fun k => f (a + Z.of_nat k)) (seq 0 (Z.to_nat (b - a))).

(** The loop over the file block: one entry each 8 bytes below the next block. *)
Definition Files : option (list (list Z)) :=
  for_range (fun k => rstr (boff "File" + 8 * k)) 0 ((boff "Symdef" - boff "File" + 7) / 8).

Definition span_at (blk : string) (i : Z) : option (Z * Z) :=
  let o := u32 (boff blk + u32 (4 * i)) in
  a ← u32_at o; b ← u32_at (u32 (o + 4)); Some (a, b).

Definition reloc_at (k : Z) : option RReloc :=
  let o := u32 (boff "Reloc" + u32 (k * relocSize)) in
  off ← u32_at o;
  siz ← rd_b r !! Z.to_nat (u32 (o + 4));
  ty ← le_at 2 (rd_b r) (u32 (o + 5));
  add ← le_at 8 (rd_b r) (u32 (o + 7));
  p ← u32_at (u32 (o + 15));
  x ← u32_at (u32 (o + 19));
  Some (mkRReloc (s32 off) siz ty (s64 add) (mkRef p x)).

Definition aux_at (k : Z) : option RAux :=
  let o := u32 (boff "Aux" + u32 (k * auxSize)) in
  ty ← rd_b r !! Z.to_nat o;
  p ← u32_at (u32 (o + 1));
  x ← u32_at (u32 (o + 5));
  Some (mkRAux ty (mkRef p x)).

Definition Relocs (i : Z) : option (list RReloc) := '(a, b) ← span_at "RelocIdx" i; for_range reloc_at a b.
Definition Auxs (i : Z) : option (list RAux) := '(a, b) ← span_at "AuxIdx" i; for_range aux_at a b.
Definition RData (i : Z) : option (list Z) :=
  '(a, b) ← span_at "DataIdx" i; slice_ (rd_b r) (u32 (boff "Data" + a)) (u32 (boff "Data" + b)).

(** *** References *)

(** The number of referenced packages, package [i], and the name and ABI of
    builtin [i]. *)
Definition NPkg : Z := Z.quot (u32 (boff "File" - boff "PkgIdx")) 8.
Definition Pkg (i : Z) : option (list Z) := rstr (u32 (boff "PkgIdx" + u32 (u32 i * 8))).

Definition BuiltinName (i : Z) : option (string * Z) :=
  if (i <? 0) || (zlen (om_Builtins (rd_Meta r)) <=? i) then None else om_Builtins (rd_Meta r) !! Z.to_nat i.

(** What [resolve] of diff.go looks a reference up as, before it is printed: the
    symbol of an index that counts through all blocks, a builtin, a symbol of
    another package, or the bare reference. *)
Inductive denoted := DSym (i : Z) | DBuiltin (i : Z) | DPkg (p i : Z) | DRef (p i : Z).

Definition resolve (ref : SymRef) : denoted :=
  let pk name := u32 (at_ (om_PkgIdx (rd_Meta r)) name) in
  let nonpkg := u32 (nsym 0 + nsym 1 + nsym 2) in
  let nall := u32 (u32 NDef + u32 (nsym 4)) in
  let p := sr_PkgIdx ref in
  let x := sr_SymIdx ref in
  let other := if (0 <? p) && (p <? NPkg) then DPkg p x else DRef p x in
  if p =? pk "None" then if u32 (nonpkg + x) <? nall then DSym (u32 (nonpkg + x)) else other
  else if p =? pk "Self" then if x <? u32 NDef then DSym x else other
  else if p =? pk "Hashed64" then DSym (u32 (u32 (nsym 0) + x))
  else if p =? pk "Hashed" then DSym (u32 (u32 (nsym 0 + nsym 1) + x))
  else if p =? pk "Builtin" then DBuiltin x
  else other.
End Accessors.

(** ** FuncInfo *)

Record RInlNode := mkRInl { ri_Parent : Z; ri_File : Z; ri_Line : Z; ri_Func : SymRef; ri_ParentPC : Z }.
Record DecodedFuncInfo := mkDFI {
  df_Args : Z; df_Locals : Z; df_FuncID : Z; df_FuncFlag : Z; df_StartLine : Z; df_File : list Z; df_InlTree : list RInlNode }.

(** The closure [u]; the length checks make every read succeed. *)
Definition fu (b : list Z) (o : Z) : Z := default 0 (le_at 4 b o).

Definition decode_inl (b : list Z) (o : Z) : RInlNode :=
  mkRInl (s32 (fu b o)) (s32 (fu b (o + 4))) (s32 (fu b (o + 8))) (mkRef (fu b (o + 12)) (fu b (o + 16))) (s32 (fu b (o + 20))).

Definition decodeFuncInfo (b : list Z) (startLine : bool) : res string DecodedFuncInfo :=
  let o := if startLine then 16 else 12 in
  if zlen b <? o + 4 then Fail "short FuncInfo"
  else
    let n := fu b o in
    let o1 := o + 4 in
    if zlen b <? o1 + 4 * n + 4 then Fail "short FuncInfo"
    else
      let files := (fun k => fu b (o1 + 4 * Z.of_nat k)) <$> seq 0 (Z.to_nat n) in
      let o2 := o1 + 4 * n in
      let ni := fu b o2 in
      let o3 := o2 + 4 in
      if zlen b <? o3 + 24 * ni then Fail "short FuncInfo"
      else Ok (mkDFI (fu b 0) (fu b 4) (default 0 (b !! 8%nat)) (default 0 (b !! 9%nat))
                 (if startLine then s32 (fu b 12) else 0) files
                 ((fun k => decode_inl b (o3 + 24 * Z.of_nat k)) <$> seq 0 (Z.to_nat ni))).
