(* ===== verification/Diff.v ===== *)
(** * Comparing two Go object files

    Models src/internal/goobj/diff.go: [diffLoad] renders every defined symbol of a
    file, [diffCompare] lists the differences of two renderings.  A read out of range
    panics in the source and is [DPanic] here.  SHA-256 is an argument, and so is the
    order [sort.Slice] gives relocations at one offset.  The pc-value decoder is in
    PcTab.v, the rule that resolves a reference in ObjRead.v.

    The main result: no difference is reported exactly when the two objects agree on
    the header, the names and everything that is rendered of each symbol. *)

From Stdlib Require Import ZArith Lia Ascii.
From stdpp Require Import base list strings gmap sorting.
From S2P Require Import Prelude Text PcTab Link ObjWrite Convert ObjRead.

Inductive derr := DErr (s : string) | DPanic.

Record diffReloc := mkDReloc { dr_Off : Z; dr_Siz : Z; dr_Type : string; dr_Target : string; dr_Add : Z }.
Record diffSym := mkDSym {
  ds_Name : string; ds_ABI : Z; ds_Type : string; ds_Flag : string; ds_Flag2 : string; ds_Siz : Z; ds_Align : Z;
  ds_Data : list Z; ds_Relocs : list diffReloc; ds_Aux : gmap string string }.
Record diffObject := mkDObj { do_Header : string; do_Syms : gmap string diffSym }.

(** ** Rendering *)

Definition sorted_strings (l : list string) : list string := merge_sort str_le l.

Definition diffNameFor (m : gmap string Z) (v : Z) : string :=
  match sorted_strings (omap (fun p => if snd p =? v then Some (fst p) else None) (map_to_list m)) with
  | [] => "#" +:+ dec v
  | n :: _ => n
  end.

(** One turn of the loop of [diffFlagNames]. *)
Definition flag_step (v : Z) (s : list string * Z) (p : string * Z) : list string * Z :=
  let '(names, rest) := s in
  let '(n, bit) := p in
  if negb (bit =? 0) && (Z.land v bit =? bit) then (names ++ [n], Z.land rest (Z.lnot bit)) else s.

Definition diffFlagNames (m : gmap string Z) (v : Z) : string :=
  let '(names, rest) := foldl (flag_step v) ([], v) (map_to_list m) in
  join "," (sorted_strings names ++ (if rest =? 0 then [] else [hex rest])).

Definition inl_text (n : RInlNode) : string :=
  braces [dec (ri_Parent n); dec (ri_File n); dec (ri_Line n); braces [dec (sr_PkgIdx (ri_Func n)); dec (sr_SymIdx (ri_Func n))]; dec (ri_ParentPC n)].

Definition funcinfo_text (fi : DecodedFuncInfo) : string :=
  "args=" +:+ dec (df_Args fi) +:+ " locals=" +:+ dec (df_Locals fi) +:+ " funcid=" +:+ dec (df_FuncID fi) +:+ " flag=" +:+ dec (df_FuncFlag fi) +:+
  " startline=" +:+ dec (df_StartLine fi) +:+ " files=" +:+ brackets (dec <$> df_File fi) +:+ " inl=" +:+ brackets (inl_text <$> df_InlTree fi).

Definition reloc_text (r : diffReloc) : string := braces [dec (dr_Off r); dec (dr_Siz r); dr_Type r; dr_Target r; dec (dr_Add r)].
Definition relocs_text (l : list diffReloc) : string := brackets (reloc_text <$> l).

(** ** [diffLoad] *)

Section Load.
Variable ForVersion : string -> res string objMeta.
Variable Sum256 : list Z -> list Z.
Variable sort_by_Off : list diffReloc -> list diffReloc.

Definition got {A} (o : option A) : res derr A := match o with Some x => Ok x | None => Fail DPanic end.

Section Reader.
Variable r : Reader.
Let m := rd_Meta r.
Definition ndef : Z := u32 (NDef r).
Definition nonpkg : Z := u32 (nsym r 0 + nsym r 1 + nsym r 2).
Definition pkg_idx (name : string) : Z := u32 (at_ (om_PkgIdx m) name).

Definition nameOf (i : Z) : res derr string :=
  s ← got (RSym_at r i);
  let n := string_of_bytes (rs_Name s) in
  if String.eqb n "" && (i <? ndef) then
    b ← got (RData r i);
    Ok ("<hashed type=" +:+ dec (rs_Type s) +:+ " " +:+ hex_bytes (take 6 (Sum256 b)) +:+ ">")
  else Ok n.

Definition denoted_text (d : denoted) : res derr string :=
  match d with
  | DSym i => nameOf i
  | DBuiltin i =>
      let '(n, abi) := default ("<builtin " +:+ dec i +:+ ">", -1) (BuiltinName r i) in Ok (n +:+ "<" +:+ dec abi +:+ ">")
  | DPkg p i => b ← got (Pkg r p); Ok (string_of_bytes b +:+ "#" +:+ dec i)
  | DRef p i => Ok ("<ref " +:+ dec p +:+ ":" +:+ dec i +:+ ">")
  end.

Definition diffFuncInfo (b : list Z) : string :=
  match decodeFuncInfo b (om_FuncInfoStartLine m) with Ok fi => funcinfo_text fi | Fail _ => hex_bytes b end.

Definition data_of (i : Z) : res derr (option (list Z)) := b ← got (RData r i); Ok (Some b).

(** The contents an aux reference denotes; nil for any other. *)
Definition aux_data (ref : SymRef) : res derr (option (list Z)) :=
  let p := sr_PkgIdx ref in
  let x := sr_SymIdx ref in
  if (p =? pkg_idx "Self") && (x <? ndef) then data_of x
  else if (p =? pkg_idx "None") && (u32 (nonpkg + x) <? ndef) then data_of (u32 (nonpkg + x))
  else if p =? pkg_idx "Hashed64" then data_of (u32 (u32 (nsym r 0) + x))
  else if p =? pkg_idx "Hashed" then data_of (u32 (u32 (nsym r 0 + nsym r 1) + x))
  else Ok None.

Definition aux_cases : list string :=
  ["Pcsp"; "Pcfile"; "Pcline"; "Pcinline"; "Pcdata"; "Funcdata"; "FuncInfo"; "DwarfInfo"; "DwarfLines"; "Gotype"].

(** The switch over the aux type: the first case with its number. *)
Definition aux_kind (ty : Z) : string :=
  match list_find (fun n => at_ (om_AuxTypes m) n = ty) aux_cases with Some (_, n) => n | None => "" end.

Record auxState := mkAux { xs_Aux : gmap string string; xs_nfd : Z; xs_npd : Z }.

Definition put_aux (k v : string) (s : auxState) : auxState := mkAux (<[k := v]> (xs_Aux s)) (xs_nfd s) (xs_npd s).

Definition load_aux (quantum : Z) (s : auxState) (a : RAux) : res derr auxState :=
  data ← aux_data (ra_Sym a);
  let bytes := default [] data in
  let k := aux_kind (ra_Type a) in
  if String.eqb k "Pcsp" then Ok (put_aux "pcsp" (diffPCValue data quantum) s)
  else if String.eqb k "Pcfile" then Ok (put_aux "pcfile" (diffPCValue data quantum) s)
  else if String.eqb k "Pcline" then Ok (put_aux "pcline" (diffPCValue data quantum) s)
  else if String.eqb k "Pcinline" then Ok (put_aux "pcinline" (diffPCValue data quantum) s)
  else if String.eqb k "Pcdata" then
    Ok (mkAux (<["pcdata" +:+ dec (xs_npd s) := diffPCValue data quantum]> (xs_Aux s)) (xs_nfd s) (xs_npd s + 1))
  else if String.eqb k "Funcdata" then
    Ok (mkAux (<["funcdata" +:+ dec (xs_nfd s) := hex_bytes bytes]> (xs_Aux s)) (xs_nfd s + 1) (xs_npd s))
  else if String.eqb k "FuncInfo" then Ok (put_aux "funcinfo" (diffFuncInfo bytes) s)
  else if String.eqb k "DwarfInfo" then Ok (put_aux "dwarfinfo" (hex_bytes bytes) s)
  else if String.eqb k "DwarfLines" then Ok (put_aux "dwarflines" (hex_bytes bytes) s)
  else if String.eqb k "Gotype" then t ← denoted_text (resolve r (ra_Sym a)); Ok (put_aux "gotype" t s)
  else Ok s.

Definition load_reloc (acc : list diffReloc) (rl : RReloc) : res derr (list diffReloc) :=
  t ← denoted_text (resolve r (rr_Sym rl));
  Ok (acc ++ [mkDReloc (rr_Off rl) (rr_Siz rl) (diffNameFor (om_Relocs m) (rr_Type rl)) t (rr_Add rl)]).

Definition load_sym (quantum : Z) (syms : gmap string diffSym) (i : Z) : res derr (gmap string diffSym) :=
  s ← got (RSym_at r i);
  name ← nameOf i;
  data ← got (RData r i);
  rs ← got (Relocs r i);
  relocs ← rfold load_reloc [] rs;
  axs ← got (Auxs r i);
  x ← rfold (load_aux quantum) (mkAux ∅ 0 0) axs;
  let y := mkDSym name (rs_ABI s) (diffNameFor (om_Kinds m) (rs_Type s)) (diffFlagNames (om_SymFlags m) (rs_Flag s))
             (diffFlagNames (om_SymFlags2 m) (rs_Flag2 s)) (rs_Siz s) (rs_Align s) data (sort_by_Off relocs) (xs_Aux x) in
  Ok (<[name +:+ "<" +:+ dec (rs_ABI s) +:+ ">" := y]> syms).
End Reader.

(** [diffLoad] of the bytes of a file. *)
Definition diffLoad (path : string) (file : list Z) : res derr diffObject :=
  match NewReader ForVersion file None with
  | Fail e => Fail (DErr (path +:+ ": " +:+ e))
  | Ok r =>
      let quantum := if contains "arm64" (rd_Header r) then 4 else 1 in
      syms ← rfold (load_sym r quantum) ∅ (Z.of_nat <$> seq 0 (Z.to_nat (ndef r)));
      Ok (mkDObj (rd_Header r) syms)
  end.
End Load.

(** ** [diffCompare] *)

Fixpoint differing (a b : list Z) : Z :=
  match a, b with x :: a, y :: b => (if x =? y then 0 else 1) + differing a b | _, _ => 0 end.

(** The loop of [diffFirstReloc] from index [i]; [la], [lb] are the lengths. *)
Fixpoint first_reloc (fuel : nat) (i la lb : Z) (a b : list diffReloc) : string :=
  match fuel with
  | O => ""
  | S fuel =>
      match a, b with
      | [], [] => ""
      | _, _ =>
          let x := match a with r :: _ => reloc_text r | [] => "-" end in
          let y := match b with r :: _ => reloc_text r | [] => "-" end in
          if String.eqb x y then first_reloc fuel (i + 1) la lb (tail a) (tail b)
          else "#" +:+ dec i +:+ " " +:+ x +:+ " vs " +:+ y +:+ " (counts " +:+ dec la +:+ "/" +:+ dec lb +:+ ")"
      end
  end.
Definition diffFirstReloc (a b : list diffReloc) : string := first_reloc (length a + length b) 0 (zlen a) (zlen b) a b.

Definition union_keys {A B} (a : gmap string A) (b : gmap string B) : list string := sorted_strings (elements (dom a ∪ dom b)).
Definition diffUnionKeys (a b : gmap string string) : list string := union_keys a b.

Definition diffClip (s : string) : string :=
  if (200 <? Z.of_nat (String.length s)) then String.substring 0 200 s +:+ "..." else s.

Definition attrs_differ (x y : diffSym) : bool :=
  negb (String.eqb (ds_Type x) (ds_Type y) && String.eqb (ds_Flag x) (ds_Flag y) && String.eqb (ds_Flag2 x) (ds_Flag2 y) &&
        (ds_Siz x =? ds_Siz y) && (ds_Align x =? ds_Align y)).

Definition at_text (m : gmap string string) (k : string) : string := default "" (m !! k).

Definition aux_diff (k : string) (x y : gmap string string) (ak : string) : list string :=
  if String.eqb (at_text x ak) (at_text y ak) then []
  else [k +:+ ": " +:+ ak +:+ " differs:" +:+ String "010"%char ("  A " +:+ diffClip (at_text x ak) +:+ String "010"%char ("  B " +:+ diffClip (at_text y ak)))].

Definition sym_diff (k : string) (x y : diffSym) : list string :=
  (if attrs_differ x y then
     [k +:+ ": attrs type=" +:+ ds_Type x +:+ "/" +:+ ds_Type y +:+ " flag=[" +:+ ds_Flag x +:+ "]/[" +:+ ds_Flag y +:+ "] flag2=[" +:+
      ds_Flag2 x +:+ "]/[" +:+ ds_Flag2 y +:+ "] size=" +:+ dec (ds_Siz x) +:+ "/" +:+ dec (ds_Siz y) +:+
      " align=" +:+ dec (ds_Align x) +:+ "/" +:+ dec (ds_Align y)] else []) ++
  (if bool_decide (ds_Data x = ds_Data y) then []
   else [k +:+ ": data differs (" +:+ dec (differing (ds_Data x) (ds_Data y)) +:+ " bytes, len " +:+ dec (zlen (ds_Data x)) +:+ "/" +:+
         dec (zlen (ds_Data y)) +:+ ")"]) ++
  (if String.eqb (relocs_text (ds_Relocs x)) (relocs_text (ds_Relocs y)) then []
   else [k +:+ ": relocs differ: " +:+ diffFirstReloc (ds_Relocs x) (ds_Relocs y)]) ++
  concat (aux_diff k (ds_Aux x) (ds_Aux y) <$> diffUnionKeys (ds_Aux x) (ds_Aux y)).

Definition key_diff (a b : diffObject) (k : string) : list string :=
  match do_Syms a !! k, do_Syms b !! k with
  | None, _ => ["only in B: " +:+ k]
  | _, None => ["only in A: " +:+ k]
  | Some x, Some y => sym_diff k x y
  end.

Definition diffCompare (a b : diffObject) : list string :=
  (if String.eqb (do_Header a) (do_Header b) then [] else ["header: " +:+ quote (do_Header a) +:+ " vs " +:+ quote (do_Header b)]) ++
  concat (key_diff a b <$> union_keys (do_Syms a) (do_Syms b)).

(** [Diff] of the bytes of two files. *)
Definition Diff (load : string -> list Z -> res derr diffObject) (pathA pathB : string) (fa fb : list Z) : res derr (Z * list string) :=
  a ← load pathA fa; b ← load pathB fb; Ok (Z.of_nat (size (do_Syms a)), diffCompare a b).

(** ** What no difference means *)

(** What [diffCompare] compares of two symbols of one name. *)
Record alike_syms (x y : diffSym) : Prop := {
  al_type : ds_Type x = ds_Type y; al_flag : ds_Flag x = ds_Flag y; al_flag2 : ds_Flag2 x = ds_Flag2 y;
  al_siz : ds_Siz x = ds_Siz y; al_align : ds_Align x = ds_Align y; al_data : ds_Data x = ds_Data y;
  al_relocs : relocs_text (ds_Relocs x) = relocs_text (ds_Relocs y);
  al_aux : forall k, at_text (ds_Aux x) k = at_text (ds_Aux y) k }.

Definition same_objects (a b : diffObject) : Prop :=
  do_Header a = do_Header b /\ forall k, option_Forall2 alike_syms (do_Syms a !! k) (do_Syms b !! k).

Lemma concat_nil {A B} (f : A -> list B) l : concat (f <$> l) = [] <-> forall x, x ∈ l -> f x = [].
Proof.
  induction l as [|a l IH]; [split; [intros _ x H; by apply not_elem_of_nil in H | done]|].
  change (concat (f <$> a :: l)) with (f a ++ concat (f <$> l)). rewrite app_nil_iff, IH. split.
  - intros [Ha Hl] x [->|Hx]%elem_of_cons; auto.
  - intros H. split; [apply H; left | intros x Hx; apply H; by right].
Qed.

Lemma union_keys_elem {A B} (a : gmap string A) (b : gmap string B) k : k ∈ union_keys a b <-> is_Some (a !! k) \/ is_Some (b !! k).
Proof.
  unfold union_keys, sorted_strings. rewrite merge_sort_Permutation, elem_of_elements, elem_of_union, !elem_of_dom. done.
Qed.

Lemma if_nil {A} (c : bool) (l : list A) : l <> [] -> (if c then [] else l) = [] <-> c = true.
Proof. by destruct c. Qed.

Lemma aux_diff_nil k x y ak : aux_diff k x y ak = [] <-> at_text x ak = at_text y ak.
Proof. unfold aux_diff. by rewrite if_nil, String.eqb_eq. Qed.

Lemma sym_diff_nil k x y : sym_diff k x y = [] <-> alike_syms x y.
Proof.
  unfold sym_diff. rewrite !app_nil_iff, concat_nil, !if_nil by done. rewrite bool_decide_eq_true, String.eqb_eq.
  assert ((if attrs_differ x y then [k] else []) = [] <-> attrs_differ x y = false) as Ha by (by destruct (attrs_differ x y)).
  split.
  - intros (H1 & H2 & H3 & H4). destruct (attrs_differ x y) eqn:E; [done|]. unfold attrs_differ in E. apply negb_false_iff in E.
    rewrite !andb_true_iff, !String.eqb_eq, !Z.eqb_eq in E. destruct E as ((((? & ?) & ?) & ?) & ?). constructor; try done.
    intros ak. destruct (decide (ak ∈ diffUnionKeys (ds_Aux x) (ds_Aux y))) as [Hin|Hout]; [by eapply aux_diff_nil, H4|].
    unfold diffUnionKeys in Hout. rewrite union_keys_elem in Hout. unfold at_text.
    destruct (ds_Aux x !! ak), (ds_Aux y !! ak); try done; exfalso; apply Hout; eauto.
  - intros [? ? ? ? ? ? ? ?]. split_and!; [|done..| by intros; apply aux_diff_nil].
    assert (attrs_differ x y = false) as ->; [|done]. unfold attrs_differ. apply negb_false_iff.
    rewrite !andb_true_iff, !String.eqb_eq, !Z.eqb_eq. done.
Qed.

Lemma diffCompare_nil a b : diffCompare a b = [] <-> same_objects a b.
Proof.
  unfold diffCompare, same_objects. rewrite app_nil_iff, if_nil, String.eqb_eq, concat_nil by done. apply and_iff_compat_l. split.
  - intros H k. specialize (H k). rewrite union_keys_elem in H. unfold key_diff in H.
    destruct (do_Syms a !! k) as [x|], (do_Syms b !! k) as [y|]; [|by exfalso; discriminate H; eauto..|constructor].
    constructor. apply (sym_diff_nil k). apply H. eauto.
  - intros H k Hk. rewrite union_keys_elem in Hk. unfold key_diff. destruct (H k) as [x y Hxy|]; [by apply sym_diff_nil|].
    by destruct Hk as [[? ?]|[? ?]].
Qed.

(** *** Rendered relocations

    A relocation type has no space in its name and a target no closing brace; then the
    text of the relocations determines them. *)
Definition plain_reloc (r : diffReloc) : Prop := lacks " "%char (dr_Type r) = true /\ lacks "}"%char (dr_Type r) = true /\ lacks "}"%char (dr_Target r) = true.

Lemma join_cons sep x l : l <> [] -> join sep (x :: l) = x +:+ sep +:+ join sep l.
Proof. by destruct l. Qed.

Definition reloc_body (r : diffReloc) : string :=
  dec (dr_Off r) +:+ " " +:+ dec (dr_Siz r) +:+ " " +:+ dr_Type r +:+ " " +:+ dr_Target r +:+ " " +:+ dec (dr_Add r).

Lemma reloc_fields r : reloc_text r = "{" +:+ reloc_body r +:+ "}".
Proof. unfold reloc_text, braces, reloc_body. cbn [join]. rewrite !string_app_assoc. done. Qed.

Lemma lacks_app d a b : lacks d (a +:+ b) = lacks d a && lacks d b.
Proof. apply all_in_app. Qed.

Lemma lacks_cons d c s : lacks d (String c s) = negb (Ascii.eqb d c) && lacks d s.
Proof. done. Qed.

Lemma reloc_body_closed r : plain_reloc r -> lacks "}"%char (reloc_body r) = true.
Proof.
  intros (_ & Ht & Hg). unfold reloc_body. rewrite !lacks_app. rewrite Ht, Hg. repeat rewrite dec_lacks by done. done.
Qed.

Lemma reloc_body_inj r s : plain_reloc r -> plain_reloc s -> reloc_body r = reloc_body s -> r = s.
Proof.
  intros (Hr & _ & _) (Hs & _ & _) E. unfold reloc_body in E.
  apply lacks_first in E as [E1%dec_inj E]; [|by apply dec_lacks..]. apply lacks_first in E as [E2%dec_inj E]; [|by apply dec_lacks..].
  apply lacks_first in E as [E3 E]; [|done..]. apply lacks_last in E as [E4 E5%dec_inj]; [|by apply dec_lacks..].
  destruct r, s; cbn in *. congruence.
Qed.

(** The rest of a list of relocations after the first: a space and the others, or nothing. *)
Definition relocs_rest (l : list diffReloc) : string := match l with [] => "]" | _ => " " +:+ join " " (reloc_text <$> l) +:+ "]" end.

Lemma relocs_cons r l : relocs_text (r :: l) = "[{" +:+ (reloc_body r +:+ String "}"%char (relocs_rest l)).
Proof.
  unfold relocs_text, brackets. destruct l as [|s l].
  - cbn [fmap list_fmap join relocs_rest]. rewrite reloc_fields. generalize (reloc_body r). intros t. rewrite !string_app_assoc. done.
  - rewrite fmap_cons, join_cons by done. unfold relocs_rest. rewrite reloc_fields. generalize (reloc_body r). intros t. rewrite !string_app_assoc. done.
Qed.

Lemma relocs_rest_text l : l <> [] -> relocs_rest l = String " "%char (match relocs_text l with String _ s => s | _ => "" end).
Proof. destruct l; [done|]. intros _. done. Qed.

Lemma relocs_text_inj l1 : forall l2, Forall plain_reloc l1 -> Forall plain_reloc l2 -> relocs_text l1 = relocs_text l2 -> l1 = l2.
Proof.
  induction l1 as [|r l1 IH]; intros [|s l2] H1 H2 E; [done | by rewrite relocs_cons in E | by rewrite relocs_cons in E|].
  rewrite !relocs_cons in E. apply string_app_inj in E. apply Forall_cons in H1 as [Hr H1], H2 as [Hs H2].
  apply lacks_first in E as [E1 E]; [|by apply reloc_body_closed..]. rewrite (reloc_body_inj r s Hr Hs E1). f_equal. apply IH; [done..|].
  destruct l1 as [|r' l1], l2 as [|s' l2]; [done | by injection E | by injection E|].
  rewrite !relocs_rest_text in E by done. injection E as E. unfold relocs_text, brackets in *. cbn in E. cbn. f_equal. exact E.
Qed.

(** What a reader of the two objects would call the same, symbol by symbol. *)
Record same_syms (x y : diffSym) : Prop := {
  ss_attrs : (ds_Type x, ds_Flag x, ds_Flag2 x, ds_Siz x, ds_Align x) = (ds_Type y, ds_Flag y, ds_Flag2 y, ds_Siz y, ds_Align y);
  ss_data : ds_Data x = ds_Data y; ss_relocs : ds_Relocs x = ds_Relocs y;
  ss_aux : forall k, at_text (ds_Aux x) k = at_text (ds_Aux y) k }.

Definition plain_object (a : diffObject) : Prop := forall k x, do_Syms a !! k = Some x -> Forall plain_reloc (ds_Relocs x).

(** C23. No difference is reported exactly when the two objects have the same header and
    the same symbols, and each symbol has the same kind, flags, size, alignment, bytes,
    relocations (as a list, for targets without braces) and rendered tables in both. *)
Theorem diffCompare_exact a b : plain_object a -> plain_object b ->
  diffCompare a b = [] <-> do_Header a = do_Header b /\ forall k, option_Forall2 same_syms (do_Syms a !! k) (do_Syms b !! k).
Proof.
  intros Ha Hb. rewrite diffCompare_nil. apply and_iff_compat_l. split; intros H k; specialize (H k); specialize (Ha k); specialize (Hb k).
  - destruct H as [x y [? ? ? ? ? ? ? ?]|]; constructor. constructor; [congruence | done | | done].
    apply relocs_text_inj; [by apply Ha | by apply Hb | done].
  - destruct H as [x y [Hat ? ? ?]|]; constructor. injection Hat as ? ? ? ? ?. constructor; congruence.
Qed.

Definition demo_sym (add : Z) : diffSym := mkDSym "main.f" 0 "STEXT" "" "" 4 0 [1; 2; 3; 4] [mkDReloc 0 4 "R_CALL" "main.g" add] ∅.
Definition demo_obj (add : Z) : diffObject := mkDObj "go object linux amd64 go1.24" {["main.f<0>" := demo_sym add]}.

Lemma demo_plain add : plain_object (demo_obj add).
Proof. intros k x H. cbn in H. apply lookup_singleton_Some in H as [<- <-]. repeat constructor. Qed.

Example diffCompare_exact_witness : diffCompare (demo_obj 0) (demo_obj 0) = [] /\ diffCompare (demo_obj 0) (demo_obj 8) <> [].
Proof.
  split.
  - apply (proj2 (diffCompare_exact _ _ (demo_plain 0) (demo_plain 0))). split; [done|]. intros k. destruct (do_Syms (demo_obj 0) !! k); by repeat constructor.
  - intros H. apply (proj1 (diffCompare_exact _ _ (demo_plain 0) (demo_plain 8))) in H as [_ H]. specialize (H "main.f<0>").
    change (do_Syms (demo_obj 0) !! "main.f<0>") with (Some (demo_sym 0)) in H. change (do_Syms (demo_obj 8) !! "main.f<0>") with (Some (demo_sym 8)) in H.
    inversion H as [? ? Hs|]; subst. destruct Hs as [_ _ Hr _]. discriminate.
Defined.
