(* ===== verification/ObjRoundtrip.v ===== *)
(** * Reading back the Go object file

    Relates [Write] (ObjWrite) and the reader (ObjRead).  The writer appends the
    blocks one after another and marks the start of each; [emits] describes a run of
    the writer as the list of named blocks it appended, and [placed] says that a
    reader sees the same blocks at the offsets of its header. *)

From Stdlib Require Import ZArith Lia Ascii.
From stdpp Require Import base list strings gmap sorting.
From S2P Require Import Prelude Text Link ObjWrite ObjNumber Convert ObjRead.

(** ** Blocks *)

Definition seg : Type := string * list Z.
Definition seg_bytes (segs : list seg) : list Z := concat (snd <$> segs).

Section Emit.
Variable m : objMeta.

(** The offsets after marking [segs], the first of which starts at [p]. *)
Fixpoint mark_all (p : Z) (segs : list seg) (offs : list Z) : list Z :=
  match segs with [] => offs | (b, x) :: segs => mark_all (p + zlen x) segs (<[blk m b := u32 p]> offs) end.

Record emits (o : writer) (segs : list seg) (o' : writer) : Prop := {
  em_b : wr_b o' = wr_b o ++ seg_bytes segs;
  em_strs : wr_strs o' = wr_strs o;
  em_off : wr_off o' = mark_all (zlen (wr_b o)) segs (wr_off o) }.

Lemma seg_bytes_app s1 s2 : seg_bytes (s1 ++ s2) = seg_bytes s1 ++ seg_bytes s2.
Proof. unfold seg_bytes. by rewrite fmap_app, concat_app. Qed.

Lemma mark_all_app p s1 s2 offs :
  mark_all p (s1 ++ s2) offs = mark_all (p + zlen (seg_bytes s1)) s2 (mark_all p s1 offs).
Proof.
  revert p offs. induction s1 as [|[b x] s1 IH]; intros p offs; [by rewrite Z.add_0_r|].
  cbn [app mark_all]. rewrite IH. change (seg_bytes ((b, x) :: s1)) with (x ++ seg_bytes s1). by rewrite zlen_app, Z.add_assoc.
Qed.

Lemma emits_app o s1 o1 s2 o2 : emits o s1 o1 -> emits o1 s2 o2 -> emits o (s1 ++ s2) o2.
Proof.
  intros [Hb1 Hs1 Ho1] [Hb2 Hs2 Ho2]. split.
  - by rewrite Hb2, Hb1, seg_bytes_app, app_assoc.
  - by rewrite Hs2.
  - by rewrite Ho2, Ho1, Hb1, mark_all_app, zlen_app.
Qed.

(** One block: its mark, then its bytes. *)
Lemma emits_block b o x o' :
  wr_b o' = wr_b o ++ x -> wr_strs o' = wr_strs o -> wr_off o' = wr_off (mark m b o) -> emits o [(b, x)] o'.
Proof. intros Hb Hs Ho. split; [by rewrite Hb; unfold seg_bytes; cbn; rewrite app_nil_r | done | done]. Qed.

(** The bytes an appending step adds. *)
Record adds (o : writer) (x : list Z) (o' : writer) : Prop := {
  ad_b : wr_b o' = wr_b o ++ x; ad_strs : wr_strs o' = wr_strs o; ad_off : wr_off o' = wr_off o }.

Lemma adds_nil o : adds o [] o.
Proof. split; [by rewrite app_nil_r | done..]. Qed.

Lemma adds_app o x o1 y o2 : adds o x o1 -> adds o1 y o2 -> adds o (x ++ y) o2.
Proof. intros [H1 H2 H3] [K1 K2 K3]. split; [by rewrite K1, H1, app_assoc | congruence..]. Qed.

Lemma adds_put x o : adds o x (put x o).
Proof. by split. Qed.

Lemma emits_adds b o x o' : adds (mark m b o) x o' -> emits o [(b, x)] o'.
Proof. intros [H1 H2 H3]. by apply emits_block. Qed.

Lemma rfold_adds {A} T (f : writer -> A -> res werr writer) (R : A -> list Z -> Prop) l :
  (forall o x o', wr_strs o = T -> f o x = Ok o' -> exists b, R x b /\ adds o b o') ->
  forall o o', wr_strs o = T -> rfold f o l = Ok o' -> exists bs, Forall2 R l bs /\ adds o (concat bs) o'.
Proof.
  intros Hf. induction l as [|x l IH]; intros o o' HT E.
  - injection E as <-. exists []. split; [constructor | apply adds_nil].
  - cbn [rfold] in E. destruct (f o x) as [o1|] eqn:E1; [|done]. cbn [mbind res_bind] in E.
    destruct (Hf o x o1 HT E1) as (b & Hb & Ha).
    destruct (IH o1 o') as (bs & Hbs & Has); [by rewrite (ad_strs _ _ _ Ha) | exact E |].
    exists (b :: bs). split; [by constructor | cbn; by eapply adds_app].
Qed.

Lemma put_each_adds {A} (f : A -> res werr (list Z)) o l o' : put_each f o l = Ok o' ->
  exists bs, Forall2 (fun x b => f x = Ok b) l bs /\ adds o (concat bs) o'.
Proof.
  apply (rfold_adds (wr_strs o)); [|done]. intros o1 x o2 _ E. destruct (f x) as [b|]; [|done]. injection E as <-.
  exists b. split; [done | apply adds_put].
Qed.

(** ** What each block holds *)

Definition str_entry (T : gmap string Z) (s : string) (b : list Z) : Prop :=
  exists x, T !! s = Some x /\ b = le32 (Z.of_nat (String.length s)) ++ le32 x.

Definition sym_entry (T : gmap string Z) (l : Link) (i : sid) (b : list Z) : Prop :=
  exists s kind align n, l_syms l !! i = Some s /\ om_Kinds m !! kindName (s_Kind s) = Some kind /\
    sym_align m s (sym_name_ m s) = Ok align /\ str_entry T (sym_name_ m s) n /\ b = n ++ sym_rest m s kind align.

Lemma stringRef_adds s o o' : stringRef s o = Ok o' -> exists b, str_entry (wr_strs o) s b /\ adds o b o'.
Proof.
  unfold stringRef. destruct (wr_strs o !! s) as [x|] eqn:E; [|done]. intros [= <-].
  eexists. split; [by exists x | apply adds_put].
Qed.

Lemma writeSym_adds T l o i o' : wr_strs o = T -> writeSym m l o i = Ok o' -> exists b, sym_entry T l i b /\ adds o b o'.
Proof.
  intros <- E. unfold writeSym, sym_at in E. destruct (l_syms l !! i) as [s|] eqn:Ei; [|done]. cbn [mbind res_bind] in E.
  destruct (sym_align m s (sym_name_ m s)) as [al|] eqn:Ea; [|done]. cbn [mbind res_bind] in E.
  destruct (om_Kinds m !! _) as [k|] eqn:Ek; [|done].
  destruct (stringRef (sym_name_ m s) o) as [o1|] eqn:Es; [|done]. injection E as <-.
  destruct (stringRef_adds _ _ _ Es) as (n & Hn & Ha). exists (n ++ sym_rest m s k al). split.
  - by exists s, k, al, n.
  - eapply adds_app; [exact Ha | apply adds_put].
Qed.

Definition at_sym (w : wstate) (i : sid) (x : sid * Sym) : Prop := fst x = i /\ l_syms (w_link w) !! i = Some (snd x).

Lemma syms_of_ok w is_ : forall acc xs, rfold (fun acc i => s ← sym_at (w_link w) i; Ok (acc ++ [(i, s)])) acc is_ = Ok xs ->
  exists ys, xs = acc ++ ys /\ Forall2 (at_sym w) is_ ys.
Proof.
  induction is_ as [|i is_ IH]; intros acc xs E; cbn [rfold] in E.
  - injection E as <-. exists []. by rewrite app_nil_r.
  - unfold sym_at in E. destruct (l_syms (w_link w) !! i) as [s|] eqn:Ei; [|done]. cbn [mbind res_bind] in E.
    destruct (IH _ _ E) as (ys & -> & H). exists ((i, s) :: ys). split; [by rewrite <-app_assoc | by constructor].
Qed.

Variables sha256 sha1 : list Z -> list Z.

(** The blocks of the object of [w]: entries of the tables, symbols of the others. *)
Record parts := mkParts {
  pt_ds : list (sid * Sym); pt_pkg : list Z; pt_files : list (list Z); pt_defs : list (list Z);
  pt_h64defs : list (list Z); pt_hdefs : list (list Z); pt_npdefs : list (list Z); pt_nprefs : list (list Z);
  pt_h64 : list (list Z); pt_h : list (list Z); pt_rel : list (list Z); pt_aux : list (list Z) }.

Definition index_bytes (l : list Z) : list Z := concat (le32 <$> totals 0 l).

Definition segs_of (w : wstate) (p : parts) : list seg :=
  [("Autolib", []); ("PkgIdx", pt_pkg p); ("File", concat (pt_files p)); ("Symdef", concat (pt_defs p));
   ("Hashed64def", concat (pt_h64defs p)); ("Hasheddef", concat (pt_hdefs p)); ("Nonpkgdef", concat (pt_npdefs p));
   ("Nonpkgref", concat (pt_nprefs p)); ("RefFlags", []); ("Hash64", concat (pt_h64 p)); ("Hash", concat (pt_h p));
   ("RelocIdx", index_bytes ((fun x => zlen (s_R (snd x))) <$> pt_ds p));
   ("AuxIdx", index_bytes ((fun x => zlen (aux m w (fst x) (snd x))) <$> pt_ds p));
   ("DataIdx", index_bytes ((fun x => zlen (s_P (snd x))) <$> pt_ds p));
   ("Reloc", concat (pt_rel p)); ("Aux", concat (pt_aux p));
   ("Data", concat ((fun x => s_P (snd x)) <$> pt_ds p)); ("RefName", []); ("End", [])].

Record parts_ok (w : wstate) (T : gmap string Z) (p : parts) : Prop := {
  po_ds : Forall2 (at_sym w) (defined w) (pt_ds p);
  po_files : Forall2 (str_entry T) (l_files (w_link w)) (pt_files p);
  po_defs : Forall2 (sym_entry T (w_link w)) (w_defs w) (pt_defs p);
  po_h64defs : Forall2 (sym_entry T (w_link w)) (w_hashed64 w) (pt_h64defs p);
  po_hdefs : Forall2 (sym_entry T (w_link w)) (w_hashed w) (pt_hdefs p);
  po_npdefs : Forall2 (sym_entry T (w_link w)) (w_nonpkgdefs w) (pt_npdefs p);
  po_nprefs : Forall2 (sym_entry T (w_link w)) (w_nonpkgrefs w) (pt_nprefs p);
  po_rel : Forall2 (fun r b => reloc_bytes m w r = Ok b) (concat ((fun x => relocs_of m (snd x)) <$> pt_ds p)) (pt_rel p);
  po_aux : Forall2 (fun a b => aux_bytes w a = Ok b) (concat ((fun x => aux m w (fst x) (snd x)) <$> pt_ds p)) (pt_aux p) }.

Lemma put_syms_emits w b is_ o o' : put_syms m w b is_ o = Ok o' ->
  exists es, Forall2 (sym_entry (wr_strs o) (w_link w)) is_ es /\ emits o [(b, concat es)] o'.
Proof.
  unfold put_syms. intros E. destruct (rfold_adds (wr_strs o) _ (sym_entry (wr_strs o) (w_link w)) is_
    ltac:(intros; by eapply writeSym_adds) (mark m b o) _ eq_refl E) as (es & He & Ha).
  exists es. split; [done | by apply emits_adds].
Qed.

Lemma put_each_emits {A} b (f : A -> res werr (list Z)) o l o' : put_each f (mark m b o) l = Ok o' ->
  exists bs, Forall2 (fun x c => f x = Ok c) l bs /\ emits o [(b, concat bs)] o'.
Proof. intros (bs & H & Ha)%put_each_adds. exists bs. split; [done | by apply emits_adds]. Qed.

Lemma emits_empty b o : emits o [(b, [])] (mark m b o).
Proof. apply emits_adds, adds_nil. Qed.

Lemma emits_put b x o : emits o [(b, x)] (put x (mark m b o)).
Proof. apply emits_adds, adds_put. Qed.

Ltac next E o :=
  match type of E with (?f ≫= _) = _ => let H := fresh "E" o in destruct f as [o|] eqn:H; [|done]; cbn [mbind res_bind] in E end.

Lemma blocks_emits w o o' : blocks m sha256 sha1 w o = Ok o' ->
  exists p, parts_ok w (wr_strs o) p /\ emits o (segs_of w p) o'.
Proof.
  unfold blocks. intros E.
  next E o1. next E o2. next E o3. next E o4. next E o5. next E o6. next E o7. next E xs64. next E o8. next E xsh.
  next E o9. next E ds. next E o10. next E o11. injection E as <-.
  apply stringRef_adds in Eo1 as (pkg & Hpkg & A1). apply (emits_adds "PkgIdx") in A1.
  assert (S1 : wr_strs o1 = wr_strs o) by apply (em_strs _ _ _ A1).
  destruct (rfold_adds (wr_strs o) _ (str_entry (wr_strs o)) _
    ltac:(intros ? ? ? <-; apply stringRef_adds) (mark m "File" o1) _ S1 Eo2) as (fb & Hfb & A2%emits_adds).
  apply put_syms_emits in Eo3 as (e1 & H1 & A3). apply put_syms_emits in Eo4 as (e2 & H2 & A4).
  apply put_syms_emits in Eo5 as (e3 & H3 & A5). apply put_syms_emits in Eo6 as (e4 & H4 & A6).
  apply put_syms_emits in Eo7 as (e5 & H5 & A7).
  apply put_each_emits in Eo8 as (b64 & _ & A8). apply put_each_emits in Eo9 as (bh & _ & A9).
  apply put_each_emits in Eo10 as (br & Hr & A10). apply put_each_emits in Eo11 as (ba & Ha & A11).
  destruct (syms_of_ok _ _ _ _ Eds) as (ys & -> & Hds). cbn [app] in *.
  exists (mkParts ys pkg fb e1 e2 e3 e4 e5 b64 bh br ba). split.
  - repeat match goal with H : emits _ _ ?x |- _ => apply em_strs in H end. split; cbn; congruence.
  - unfold segs_of. cbn [pt_ds pt_pkg pt_files pt_defs pt_h64defs pt_hdefs pt_npdefs pt_nprefs pt_h64 pt_h pt_rel pt_aux].
    repeat (eapply (emits_app _ [_] _ (_ :: _)); [first [eassumption | apply emits_empty | apply emits_put]|]).
    apply emits_empty.
Qed.
End Emit.

(** ** Offsets *)

Lemma block_index_notin bs b i idx : b ∉ bs -> block_index i idx bs b = idx.
Proof.
  revert i idx. induction bs as [|x bs IH]; intros i idx Hn; cbn [block_index]; [done|].
  apply not_elem_of_cons in Hn as [Hx Hn]. rewrite IH by done. by destruct (String.eqb_spec x b) as [->|].
Qed.

Lemma block_index_lookup bs b k i idx : NoDup bs -> bs !! k = Some b -> block_index i idx bs b = (i + k)%nat.
Proof.
  intros Hnd. revert k i idx. induction Hnd as [|x bs Hx Hnd IH]; intros k i idx Hk; [done|].
  cbn [block_index]. destruct k as [|k]; cbn in Hk.
  - injection Hk as ->. rewrite String.eqb_refl, block_index_notin by done. lia.
  - rewrite (IH k) by done. lia.
Qed.

Lemma blk_lookup m b : NoDup (om_Blocks m) -> b ∈ om_Blocks m -> om_Blocks m !! blk m b = Some b.
Proof.
  intros Hnd [k Hk]%list_elem_of_lookup. unfold blk. by rewrite (block_index_lookup _ b k) by done.
Qed.

Lemma length_mark_all m p segs offs : length (mark_all m p segs offs) = length offs.
Proof.
  revert p offs. induction segs as [|[b x] segs IH]; intros p offs; [done|]. cbn [mark_all]. by rewrite IH, length_insert.
Qed.

Lemma mark_all_other m p segs offs b : NoDup (om_Blocks m) -> b ∈ om_Blocks m -> Forall (fun s => fst s ∈ om_Blocks m) segs ->
  b ∉ fst <$> segs -> mark_all m p segs offs !! blk m b = offs !! blk m b.
Proof.
  intros Hnd Hb. revert p offs. induction segs as [|[c x] segs IH]; intros p offs Hin Hn; [done|].
  cbn [mark_all]. rewrite fmap_cons, not_elem_of_cons in Hn. destruct Hn as [Hc Hn]. inversion Hin as [|? ? Hcin Hin']; subst.
  rewrite IH by done. apply list_lookup_insert_ne. intros E. apply Hc. cbn.
  pose proof (blk_lookup m b Hnd Hb) as H1. pose proof (blk_lookup m c Hnd Hcin) as H2. congruence.
Qed.

Lemma mark_all_lookup m p s1 b x s2 offs : NoDup (om_Blocks m) -> length offs = length (om_Blocks m) ->
  Forall (fun s => fst s ∈ om_Blocks m) (s1 ++ (b, x) :: s2) -> NoDup (fst <$> s1 ++ (b, x) :: s2) ->
  mark_all m p (s1 ++ (b, x) :: s2) offs !! blk m b = Some (u32 (p + zlen (seg_bytes s1))).
Proof.
  intros Hnd Hlen [_ [Hb Hin2]%Forall_cons]%Forall_app. rewrite fmap_app, NoDup_app. intros (_ & _ & Hnd2).
  rewrite mark_all_app. cbn [mark_all]. rewrite mark_all_other; [| done.. |].
  - apply list_lookup_insert_eq. rewrite length_mark_all, Hlen. apply lookup_lt_is_Some. eexists. by apply blk_lookup.
  - by apply NoDup_cons in Hnd2 as [? _].
Qed.

(** ** Reading at a known place *)

Lemma slice_at pre x suf o n : o = zlen pre -> n = zlen x -> slice_ (pre ++ x ++ suf) o (o + n) = Some x.
Proof.
  intros -> ->. unfold slice_. rewrite !zlen_app. zpos.
  replace (_ && _) with true by (symmetry; rewrite !andb_true_iff, !Z.leb_le; lia).
  replace (zlen pre + zlen x - zlen pre) with (zlen x) by lia. by rewrite drop_zlen_app, take_zlen_app.
Qed.

Lemma le_at_place n pre z suf o : o = zlen pre ->
  le_at n (pre ++ le_bytes n z ++ suf) o = Some (z mod 2 ^ (8 * Z.of_nat n)).
Proof.
  intros ->. unfold le_at. rewrite slice_at; [| done | by unfold zlen; rewrite length_le_bytes].
  cbn. by rewrite le_value_le_bytes.
Qed.

Lemma byte_at_place (pre : list Z) z suf o : o = zlen pre -> (pre ++ z :: suf) !! Z.to_nat o = Some z.
Proof. intros ->. unfold zlen. rewrite Nat2Z.id, lookup_app_r, Nat.sub_diag; done. Qed.

Lemma zlen_le_bytes n z : zlen (le_bytes n z) = Z.of_nat n.
Proof. unfold zlen. by rewrite length_le_bytes. Qed.

Lemma zlen_le32 z : zlen (le32 z) = 4.
Proof. apply zlen_le_bytes. Qed.

Lemma zlen_bytes s : zlen (bytes_of_string s) = Z.of_nat (String.length s).
Proof. unfold zlen. f_equal. induction s; cbn; congruence. Qed.
#[export] Hint Rewrite zlen_le_bytes zlen_le32 zlen_bytes : goc.

(** Entry [k] of a table of entries of [c] bytes. *)
Lemma zlen_concat {A} c (bs : list (list A)) : Forall (fun b => zlen b = c) bs -> zlen (concat bs) = c * zlen bs.
Proof.
  induction 1 as [|b bs Hb _ IH]; [by rewrite Z.mul_0_r|]. cbn [concat]. rewrite zlen_app, zlen_cons, Hb, IH. lia.
Qed.

Lemma concat_entry {A} c (bs : list (list A)) k b : Forall (fun b => zlen b = c) bs -> bs !! k = Some b ->
  exists pre suf, concat bs = pre ++ b ++ suf /\ zlen pre = c * Z.of_nat k.
Proof.
  intros Hc Hk. exists (concat (take k bs)), (concat (drop (S k) bs)). split.
  - rewrite <-(take_drop_middle bs k b Hk) at 1. by rewrite concat_app.
  - rewrite (zlen_concat c) by (by apply Forall_take). unfold zlen. rewrite length_take_le; [done|].
    apply lookup_lt_Some in Hk. lia.
Qed.

(** A table inside a larger buffer. *)
Lemma entry_at c pre bs suf k b : Forall (fun b => zlen b = c) bs -> bs !! k = Some b ->
  exists pre' suf' : list Z, pre ++ concat bs ++ suf = pre' ++ b ++ suf' /\ zlen pre' = zlen pre + c * Z.of_nat k.
Proof.
  intros Hc Hk. destruct (concat_entry c bs k b Hc Hk) as (p & q & -> & Hp).
  exists (pre ++ p), (q ++ suf). split; [by rewrite <-!app_assoc | by rewrite zlen_app, Hp].
Qed.

(** ** The header *)

Lemma read_offs_ok b blocks : NoDup blocks -> forall p M, 0 <= p -> p + 4 * zlen blocks <= zlen b ->
  exists M', read_offs b p blocks M = Some M' /\ (forall name, name ∉ blocks -> M' !! name = M !! name) /\
    forall k name, blocks !! k = Some name -> M' !! name = le_at 4 b (p + 4 * Z.of_nat k).
Proof.
  induction 1 as [|x blocks Hx Hnd IH]; intros p M Hp Hlen; [by exists M|]. rewrite zlen_cons in Hlen. zpos.
  cbn [read_offs]. assert (exists v, le_at 4 b p = Some v) as [v Ev].
  { unfold le_at, slice_. replace (_ && _) with true; [by eexists|]. symmetry. rewrite !andb_true_iff, !Z.leb_le. lia. }
  rewrite Ev. cbn. destruct (IH (p + 4) (<[x := v]> M)) as (M' & -> & Hother & Hk); [lia.. |].
  exists M'. split; [done|]. split.
  - intros name [Hne Hn]%not_elem_of_cons. rewrite Hother by done. by apply lookup_insert_ne.
  - intros [|k] name Hkn; cbn in Hkn.
    + injection Hkn as ->. rewrite Hother, lookup_insert_eq by done. rewrite <-Ev. f_equal. lia.
    + rewrite (Hk k) by done. f_equal. lia.
Qed.

Lemma put_at_mid pre x y suf : length x = length y -> put_at (pre ++ x ++ suf) (zlen pre) y = pre ++ y ++ suf.
Proof.
  intros Hl. unfold put_at. rewrite take_zlen_app. do 2 f_equal. unfold zlen. rewrite Nat2Z.id, <-Hl.
  by rewrite drop_app_add', drop_app_length by lia.
Qed.

(** ** The string table *)

(** Every listed string lies in the buffer, past the header of [h] bytes. *)
Definition strs_ok (h : Z) (T : gmap string Z) (b : list Z) : Prop :=
  forall s x, T !! s = Some x -> exists pre suf, b = pre ++ bytes_of_string s ++ suf /\ x = u32 (zlen pre) /\ h <= zlen pre.

Lemma strs_ok_app h T b c : strs_ok h T b -> strs_ok h T (b ++ c).
Proof.
  intros H s x (pre & suf & -> & -> & Hp)%H. exists pre, (suf ++ c). by rewrite <-!app_assoc.
Qed.

(** A step that only adds strings. *)
Record strs_step (h : Z) (o o' : writer) : Prop := {
  ss_b : exists x, wr_b o' = wr_b o ++ x;
  ss_off : wr_off o' = wr_off o;
  ss_ok : h <= zlen (wr_b o) -> strs_ok h (wr_strs o) (wr_b o) -> strs_ok h (wr_strs o') (wr_b o') }.

#[export] Instance strs_step_refl h : Reflexive (strs_step h).
Proof. intros o. split; [exists []; by rewrite app_nil_r | done..]. Qed.

#[export] Instance strs_step_trans h : Transitive (strs_step h).
Proof.
  intros a b c [[x Hx] Ha Hoa] [[y Hy] Hb Hob]. split; [| congruence | ].
  - exists (x ++ y). by rewrite Hy, Hx, app_assoc.
  - intros Hh Hok. apply Hob; [rewrite Hx, zlen_app; zpos; lia | by apply Hoa].
Qed.

Lemma addString_step h o s : strs_step h o (addString o s).
Proof.
  unfold addString. destruct (wr_strs o !! s) as [x|] eqn:E; [done|]. split; cbn [wr_b wr_strs wr_off]; [by eexists | done |].
  intros Hh Hok t x [[<- <-]|[Hne Hx]]%lookup_insert_Some.
  - exists (wr_b o), []. by rewrite app_nil_r.
  - by apply (strs_ok_app h (wr_strs o)).
Qed.

Lemma strings_step h m w vs o o' : strings m w vs o = Ok o' -> strs_step h o o'.
Proof.
  unfold strings. intros E. destruct (rfold (add_name m w) (addString o "") vs) as [o1|] eqn:E1; [|done].
  injection E as <-. etrans; [apply (addString_step h o "")|]. revert E1. generalize (addString o ""). clear o.
  assert (forall fs o, strs_step h o (foldl addString o fs)) as Hf.
  { induction fs as [|f fs IH]; intros o; [done|]. cbn [foldl]. etrans; [apply (addString_step h o f) | apply IH]. }
  induction vs as [|i vs IH]; intros o E.
  - injection E as <-. apply Hf.
  - cbn [rfold] in E. destruct (add_name m w o i) as [o2|] eqn:Ea; [|done]. cbn [mbind res_bind] in E. unfold add_name in Ea.
    destruct (sym_at (w_link w) i) as [s|]; [|done]. injection Ea as <-. apply IH in E. etrans; [|exact E]. by destruct (_ =? _); [|apply addString_step].
Qed.

(** ** The file *)

Lemma index_of_first c p a s : c ∉ a -> index_of (c :: p) (a ++ (c :: p) ++ s) = Some (length a).
Proof.
  induction a as [|x a IH]; intros Hn.
  - cbn. rewrite Z.eqb_refl. replace (is_prefix p (p ++ s)) with true; [done|].
    symmetry. induction p as [|y p IH]; [done|]. cbn. by rewrite Z.eqb_refl.
  - apply not_elem_of_cons in Hn as [Hx Hn]. cbn. destruct (Z.eqb_spec c x) as [->|]; [done|]. cbn in IH. by rewrite IH.
Qed.

Lemma index_of_elem c a s : c ∈ a -> exists k, index_of [c] (a ++ s) = Some k.
Proof.
  induction 1 as [x a|x y a _ [k IH]].
  - exists 0%nat. cbn. by rewrite Z.eqb_refl.
  - cbn [app index_of]. destruct (is_prefix _ _); [by eexists | rewrite IH; by eexists].
Qed.

Lemma is_prefix_app p a s : is_prefix p a = true -> is_prefix p (a ++ s) = true.
Proof.
  revert a. induction p as [|x p IH]; intros [|y a]; cbn; try done. intros [-> H]%andb_prop. by rewrite IH.
Qed.

(** The blocks a reader sees. *)
Record placed (r : Reader) (base : list Z) (segs : list seg) : Prop := {
  pl_b : rd_b r = base ++ seg_bytes segs;
  pl_size : zlen (rd_b r) < 2 ^ 32;
  pl_off : forall s1 b x s2, segs = s1 ++ (b, x) :: s2 -> boff r b = zlen base + zlen (seg_bytes s1) }.

(** The blocks every release has. *)
Definition block_names : list string :=
  ["Autolib"; "PkgIdx"; "File"; "Symdef"; "Hashed64def"; "Hasheddef"; "Nonpkgdef"; "Nonpkgref"; "RefFlags"; "Hash64"; "Hash";
   "RelocIdx"; "AuxIdx"; "DataIdx"; "Reloc"; "Aux"; "Data"; "RefName"; "End"].

Definition blocks_listed (m : objMeta) : Prop :=
  NoDup (om_Blocks m) /\ Forall (fun b => b ∈ om_Blocks m) block_names /\ head (om_Magic m) = Some 0.

(** The text before the object: a line that starts like a Go object's, no NUL byte. *)
Definition header_ok (header : string) : Prop :=
  is_prefix (bytes_of_string "go object ") (bytes_of_string header) = true /\
  10 ∈ bytes_of_string header /\ 0 ∉ bytes_of_string header.

Lemma patched_bytes m o x : wr_b o = wr_b (init_writer m) ++ x -> length (wr_off o) = length (om_Blocks m) ->
  exists h, zlen h = headerSize m /\ patched m o = h ++ concat (le32 <$> wr_off o) ++ x /\ (exists h', h = om_Magic m ++ h') /\
    zlen (wr_b (init_writer m)) = headerSize m + 4 * zlen (om_Blocks m).
Proof.
  intros Hb Hl. set (h := om_Magic m ++ replicate 8 0 ++ le32 (at_ (om_ObjFlags m) "FromAssembly")).
  assert (zlen h = headerSize m) as Hh by (unfold h, headerSize; autorewrite with goc; unfold zlen at 2; cbn; lia).
  assert (wr_b (init_writer m) = h ++ concat (replicate (length (om_Blocks m)) (le32 0))) as Hi
    by (unfold h, init_writer; cbn [wr_b]; by rewrite <-!app_assoc).
  assert (forall n, length (concat (replicate n (le32 0))) = (4 * n)%nat) as Hz.
  { induction n as [|n IH]; [done|]. cbn [replicate concat]. rewrite length_app, IH. unfold le32. rewrite length_le_bytes. lia. }
  assert (forall l, length (concat (le32 <$> l)) = (4 * length l)%nat) as Hc.
  { induction l as [|a l IH]; [done|]. rewrite fmap_cons. cbn [concat length]. rewrite length_app, IH.
    unfold le32. rewrite length_le_bytes. lia. }
  exists h. split_and!; [done | | |].
  - unfold patched. rewrite Hb, Hi, <-app_assoc, <-Hh. apply put_at_mid.
    by rewrite Hz, Hc, Hl.
  - by eexists.
  - rewrite Hi, zlen_app, Hh. unfold zlen. rewrite Hz. lia.
Qed.

Lemma offs_at h offs x k v : offs !! k = Some v -> le_at 4 (h ++ concat (le32 <$> offs) ++ x) (zlen h + 4 * Z.of_nat k) = Some (u32 v).
Proof.
  intros Hk. destruct (entry_at 4 h (le32 <$> offs) x k (le32 v)) as (pre & suf & -> & Hp).
  - apply Forall_fmap, Forall_true. intros z. apply zlen_le32.
  - by rewrite list_lookup_fmap, Hk.
  - by apply le_at_place.
Qed.

Lemma u32_u32 z : u32 (u32 z) = u32 z.
Proof. unfold u32, wrap. by rewrite Z.mod_mod. Qed.

(** The reader finds in its header the offset of every block of the writer. *)
Lemma reader_placed fv m header segs o base0 file :
  blocks_listed m -> header_ok header -> fst <$> segs = block_names ->
  wr_b o = wr_b (init_writer m) ++ base0 ++ seg_bytes segs ->
  wr_off o = mark_all m (zlen (wr_b (init_writer m)) + zlen base0) segs (replicate (length (om_Blocks m)) 0) ->
  file = bytes_of_string header ++ [33; 10] ++ patched m o -> zlen file < 2 ^ 32 ->
  exists r base, NewReader fv file (Some m) = Ok r /\ rd_Meta r = m /\ rd_nsym r = nsym_of (rd_off r) <$> sym_blocks /\
    placed r base segs /\ rd_b r = patched m o.
Proof.
  intros (Hnd & Hin & Hm) (Hp & Hnl & Hnul) Hnames Hb Ho -> Hsize.
  assert (length (wr_off o) = length (om_Blocks m)) as Hlo by (by rewrite Ho, length_mark_all, length_replicate).
  destruct (patched_bytes m o (base0 ++ seg_bytes segs) Hb Hlo) as (h & Hh & HP & [h' Eh] & Hi).
  destruct (om_Magic m) as [|c magic] eqn:Em; [done|]. injection Hm as ->.
  unfold NewReader. destruct (index_of_elem 10 _ ([33; 10] ++ patched m o) Hnl) as [k ->].
  rewrite (is_prefix_app _ _ _ Hp). cbn [negb reader_meta mbind res_bind]. rewrite Em.
  assert (bytes_of_string header ++ [33; 10] ++ patched m o = (bytes_of_string header ++ [33; 10]) ++ patched m o) as Ef
    by (by rewrite <-app_assoc).
  assert (index_of (0 :: magic) (bytes_of_string header ++ [33; 10] ++ patched m o) = Some (length (bytes_of_string header ++ [33; 10]))) as ->.
  { rewrite Ef, HP, Eh, <-!app_assoc. rewrite app_assoc. apply index_of_first. rewrite elem_of_app. intros [?|Hc]; [done|].
    repeat (apply elem_of_cons in Hc as [Hc|Hc]; [done|]). by apply not_elem_of_nil in Hc. }
  rewrite Ef, drop_app_length. rewrite !zlen_app in Hsize. zpos.
  assert (zlen (concat (le32 <$> wr_off o)) = 4 * zlen (om_Blocks m)) as Hlen.
  { rewrite (zlen_concat 4) by (apply Forall_fmap, Forall_true; intros; apply zlen_le32). unfold zlen.
    by rewrite length_fmap, Hlo. }
  destruct (read_offs_ok (patched m o) (om_Blocks m) Hnd (headerSize m) ∅) as (M & -> & _ & HM).
  { rewrite <-Hh. lia. } { rewrite HP, !zlen_app, Hlen. zpos. lia. }
  rewrite (proj2 (Z.ltb_ge _ _)) by (rewrite HP, !zlen_app, Hlen; zpos; lia).
  eexists _, (h ++ concat (le32 <$> wr_off o) ++ base0). split; [done|]. cbn [rd_Meta rd_nsym rd_off rd_b].
  split_and!; try done. split; cbn [rd_b]; [by rewrite HP, <-!app_assoc | lia |].
  intros s1 b x s2 Es. unfold boff, at_. cbn [rd_off].
  assert (b ∈ om_Blocks m) as Hb'. { rewrite Forall_forall in Hin. apply Hin. rewrite <-Hnames, Es, fmap_app. set_solver. }
  rewrite (HM (blk m b)) by (by apply blk_lookup). rewrite HP, <-Hh.
  rewrite (offs_at h (wr_off o) _ (blk m b) (u32 (zlen (wr_b (init_writer m)) + zlen base0 + zlen (seg_bytes s1)))).
  - cbn [default from_option id]. rewrite Hi, u32_u32, u32_small; [rewrite !zlen_app, Hlen; lia|].
    rewrite HP, Es, seg_bytes_app, !zlen_app, Hlen in Hsize. rewrite <-Hh in *. zpos. unfold is_u32. lia.
  - rewrite Ho, Es. apply mark_all_lookup; [done | by rewrite length_replicate | |].
    + rewrite <-Es. rewrite <-Hnames, Forall_fmap in Hin. exact Hin.
    + rewrite <-Es, Hnames. by apply (bool_decide_unpack _).
Qed.

Definition str_in (r : Reader) (T : gmap string Z) : Prop :=
  forall s x, T !! s = Some x -> exists pre suf : list Z, rd_b r = pre ++ bytes_of_string s ++ suf /\ x = zlen pre.

(** A string past a prefix stays where it is when the prefix is rewritten. *)
Lemma string_kept (a b c s suf pre : list Z) : zlen a = zlen b -> zlen a <= zlen pre -> a ++ c = pre ++ s ++ suf ->
  exists pre', b ++ c = pre' ++ s ++ suf /\ zlen pre' = zlen pre.
Proof.
  unfold zlen. intros Hab Hle E. exists (b ++ drop (length a) pre). split.
  - rewrite <-app_assoc. f_equal. apply (f_equal (drop (length a))) in E. rewrite drop_app_length in E. rewrite E.
    apply drop_app_le. lia.
  - rewrite length_app, length_drop. lia.
Qed.

Section WriteRead.
Variable fv : string -> res string objMeta.
Variables sha256 sha1 : list Z -> list Z.
Variable m : objMeta.

Lemma Write_inv l header file : Write m sha256 sha1 l header = Ok file ->
  exists w vs o0 o, numbered m l = Ok (w, vs) /\ strings m w vs (init_writer m) = Ok o0 /\
    blocks m sha256 sha1 w o0 = Ok o /\ file = bytes_of_string header ++ [33; 10] ++ patched m o.
Proof.
  unfold Write, numbered. destruct (l_flushed l); [|done]. cbn [negb].
  destruct (number m l) as [w|]; [|done]. cbn [mbind res_bind]. destruct (funcInfoSyms m w) as [w1|]; [|done].
  cbn [mbind res_bind]. destruct (blocks_ok m); [|done]. cbn [negb].
  destruct (traverse m travAll (w_link w1)) as [[vs l1]|]; [|done]. cbn [mbind res_bind].
  set (w2 := mkW _ _ _ _ _ _ _ _). destruct (strings m w2 vs (init_writer m)) as [o0|] eqn:E0; [|done]. cbn [mbind res_bind].
  destruct (blocks m sha256 sha1 w2 o0) as [o|] eqn:E1; [|done]. intros [= <-]. by exists w2, vs, o0, o.
Qed.

Lemma Write_placed l header file : blocks_listed m -> header_ok header -> zlen file < 2 ^ 32 ->
  Write m sha256 sha1 l header = Ok file ->
  exists w vs p r base T, numbered m l = Ok (w, vs) /\ NewReader fv file (Some m) = Ok r /\ rd_Meta r = m /\
    rd_nsym r = nsym_of (rd_off r) <$> sym_blocks /\ placed r base (segs_of m w p) /\ parts_ok m w T p /\ str_in r T.
Proof.
  intros Hm Hh Hsize (w & vs & o0 & o & Hn & Hs & Hb & Ef)%Write_inv.
  destruct (strings_step (zlen (wr_b (init_writer m))) _ _ _ _ _ Hs) as [[base0 Hb0] Hoff Hok].
  destruct (blocks_emits m sha256 sha1 w o0 o Hb) as (p & Hp & [Eb Es Eo]).
  rewrite Hb0, <-app_assoc in Eb. rewrite Hb0, zlen_app, Hoff in Eo.
  change (wr_off (init_writer m)) with (replicate (length (om_Blocks m)) 0) in Eo.
  destruct (reader_placed fv m header (segs_of m w p) o base0 file Hm Hh eq_refl Eb Eo Ef Hsize)
    as (r & base & Hr & Hmeta & Hns & Hpl & Hrb).
  exists w, vs, p, r, base, (wr_strs o0). split_and!; try done. intros s x Hx.
  destruct (Hok ltac:(done) ltac:(done) s x Hx) as (pre & suf & E & -> & Hle).
  destruct (patched_bytes m o (base0 ++ seg_bytes (segs_of m w p)) Eb) as (h & Ehz & HP & _ & Hi).
  { by rewrite Eo, length_mark_all, length_replicate. }
  destruct (string_kept (wr_b (init_writer m)) (h ++ concat (le32 <$> wr_off o)) (base0 ++ seg_bytes (segs_of m w p))
    (bytes_of_string s) (suf ++ seg_bytes (segs_of m w p)) pre) as (pre' & E' & Hpre').
  - rewrite Hi, zlen_app, Ehz, (zlen_concat 4) by (apply Forall_fmap, Forall_true; intros; apply zlen_le32).
    unfold zlen. by rewrite length_fmap, Eo, length_mark_all, length_replicate.
  - done.
  - rewrite Hb0 in E. by rewrite app_assoc, E, <-!app_assoc.
  - exists pre', (suf ++ seg_bytes (segs_of m w p)). rewrite Hrb, HP, <-E', <-app_assoc. split; [done|].
    rewrite Hpre'. apply u32_small. unfold is_u32. zpos. rewrite <-Hpre'.
    pose proof (pl_size _ _ _ Hpl) as Hz. rewrite Hrb, HP, app_assoc, E', !zlen_app in Hz. zpos. lia.
Qed.
End WriteRead.

(** ** Accessors *)

(** An entry as its little-endian fields: sizes and values. *)
Definition fields_bytes (fs : list (nat * Z)) : list Z := concat ((fun f => le_bytes (fst f) (snd f)) <$> fs).
Definition fields_off (j : nat) (fs : list (nat * Z)) : Z := foldr (fun f n => Z.of_nat (fst f) + n) 0 (take j fs).

Lemma fields_split j fs n z : fs !! j = Some (n, z) ->
  exists x y, fields_bytes fs = x ++ le_bytes n z ++ y /\ zlen x = fields_off j fs.
Proof.
  revert j. induction fs as [|f fs IH]; intros j Hj; [done|]. destruct j as [|j]; cbn in Hj.
  - injection Hj as ->. exists [], (fields_bytes fs). done.
  - destruct (IH j Hj) as (x & y & E & Hx). exists (le_bytes (fst f) (snd f) ++ x), y. split.
    + change (fields_bytes (f :: fs)) with (le_bytes (fst f) (snd f) ++ fields_bytes fs). by rewrite E, <-app_assoc.
    + rewrite zlen_app, zlen_le_bytes, Hx. done.
Qed.

Lemma field_read n b pre fs suf j z o : b = pre ++ fields_bytes fs ++ suf -> fs !! j = Some (n, z) ->
  o = zlen pre + fields_off j fs -> le_at n b o = Some (wrap (8 * Z.of_nat n) z).
Proof.
  intros -> (x & y & -> & <-)%fields_split ->. rewrite <-app_assoc, <-app_assoc, app_assoc. apply le_at_place. by rewrite zlen_app.
Qed.

Lemma byte_read (b pre : list Z) fs suf j z o : b = pre ++ fields_bytes fs ++ suf -> fs !! j = Some (1%nat, z) ->
  o = zlen pre + fields_off j fs -> b !! Z.to_nat o = Some (u8 z).
Proof.
  intros -> (x & y & -> & <-)%fields_split ->. rewrite <-app_assoc, <-app_assoc, app_assoc. apply byte_at_place. by rewrite zlen_app.
Qed.

Lemma zlen_fields fs : zlen (fields_bytes fs) = fields_off (length fs) fs.
Proof.
  unfold fields_off. rewrite firstn_all. induction fs as [|f fs IH]; [done|].
  change (fields_bytes (f :: fs)) with (le_bytes (fst f) (snd f) ++ fields_bytes fs). rewrite zlen_app, zlen_le_bytes, IH. done.
Qed.

(** Reads field [j] of the entry that [H] locates. *)
Ltac read_field H j :=
  lazymatch goal with
  | |- (le_at ?n ?b ?o ≫= _) = _ => rewrite (field_read n b _ _ _ j _ o H eq_refl) by (cbn; lia)
  | |- (?b !! Z.to_nat ?o ≫= _) = _ => rewrite (byte_read b _ _ _ j _ o H eq_refl) by (cbn; lia)
  end; cbn [mbind option_bind].

Lemma rstr_read r T n pre suf s o : str_in r T -> zlen (rd_b r) < 2 ^ 32 -> str_entry T s n ->
  rd_b r = pre ++ n ++ suf -> o = zlen pre -> rstr r o = Some (bytes_of_string s).
Proof.
  intros HT Hsz (x & Hx & ->) Hb ->. destruct (HT s x Hx) as (p & q & Hs & ->).
  assert (rd_b r = pre ++ fields_bytes [(4%nat, Z.of_nat (String.length s)); (4%nat, zlen p)] ++ suf) as Hf by exact Hb.
  pose proof Hsz as Hsz1. rewrite Hb in Hsz1. pose proof Hsz as Hsz2. rewrite Hs in Hsz2. autorewrite with goc in Hsz1, Hsz2. zpos.
  unfold rstr, u32_at. rewrite u32_small by (unfold is_u32; lia). read_field Hf 0%nat. read_field Hf 1%nat.
  change (wrap (8 * Z.of_nat 4)) with u32. rewrite !u32_small by (unfold is_u32; rewrite ?u32_small by (unfold is_u32; lia); lia).
  rewrite Hs. apply slice_at; [done | by rewrite zlen_bytes].
Qed.

(** What the reader must see of a symbol. *)
Definition seen_sym (m : objMeta) (s : Sym) (y : RSym) : Prop :=
  exists kind align, om_Kinds m !! kindName (s_Kind s) = Some kind /\ sym_align m s (sym_name_ m s) = Ok align /\
    y = mkRSym (bytes_of_string (sym_name_ m s)) (u16 (sym_abi m s)) (u8 kind) (u8 (sym_flag m s)) (u8 (sym_flag2 m s))
          (u32 (s_Size s)) (u32 align).

Lemma str_entry_len T s n : str_entry T s n -> zlen n = 8.
Proof. intros (x & _ & ->). by autorewrite with goc. Qed.

Lemma sym_entry_len m T l i b : sym_entry m T l i b -> zlen b = 21.
Proof.
  intros (s & k & al & n & _ & _ & _ & Hn & ->). rewrite zlen_app, (str_entry_len _ _ _ Hn). unfold sym_rest.
  by autorewrite with goc.
Qed.

Lemma sym_read m r T l i s b pre suf k : str_in r T -> zlen (rd_b r) < 2 ^ 32 -> sym_entry m T l i b ->
  l_syms l !! i = Some s -> rd_b r = pre ++ b ++ suf -> u32 (boff r "Symdef" + u32 (k * symSize)) = zlen pre ->
  exists y, RSym_at r k = Some y /\ seen_sym m s y.
Proof.
  intros HT Hsz (s' & kd & al & n & Hi & Hkd & Hal & Hn & ->) Hi' Hb Ho. rewrite Hi in Hi'. injection Hi' as ->.
  rewrite <-app_assoc in Hb. pose proof Hn as (x & _ & En).
  assert (rd_b r = pre ++ fields_bytes [(4%nat, Z.of_nat (String.length (sym_name_ m s))); (4%nat, x); (2%nat, sym_abi m s); (1%nat, kd);
    (1%nat, sym_flag m s); (1%nat, sym_flag2 m s); (4%nat, s_Size s); (4%nat, al)] ++ suf) as Hf by (by rewrite Hb, En).
  pose proof Hsz as Hsz1. rewrite Hf, !zlen_app, zlen_fields in Hsz1. cbn in Hsz1. zpos.
  unfold RSym_at, u32_at. rewrite Ho, (rstr_read r T n pre _ (sym_name_ m s) _ HT Hsz Hn Hb eq_refl).
  rewrite !u32_small by (unfold is_u32; lia). cbn [mbind option_bind].
  eexists. split; [|by exists kd, al].
  read_field Hf 2%nat. read_field Hf 3%nat. read_field Hf 4%nat. read_field Hf 5%nat. read_field Hf 6%nat. by read_field Hf 7%nat.
Qed.

Lemma swrap_wrap w z : 0 < w -> swrap w (wrap w z) = swrap w z.
Proof. intros Hw. unfold swrap, wrap. by rewrite Z.add_mod_idemp_l by (apply Z.pow_nonzero; lia). Qed.

(** What the reader must see of a relocation and of an aux entry: the reference the
    numbering gives its symbol. *)
Definition seen_reloc (m : objMeta) (w : wstate) (x : LReloc) (y : RReloc) : Prop :=
  exists t p i, om_Relocs m !! lr_Type x = Some t /\ symRef w (Some (lr_Sym x)) = Ok (p, i) /\
    y = mkRReloc (s32 (lr_Off x)) (u8 (lr_Siz x)) (u16 t) (s64 (lr_Add x)) (mkRef p i).

Definition seen_aux (w : wstate) (x : Z * option sid) (y : RAux) : Prop :=
  exists p i, symRef w (snd x) = Ok (p, i) /\ y = mkRAux (u8 (fst x)) (mkRef p i).

Lemma symRef_u32 w o p i : symRef w o = Ok (p, i) -> u32 p = p /\ u32 i = i.
Proof.
  unfold symRef. destruct o as [j|]; [|by intros [= <- <-]]. destruct (w_num w !! j) as [[a b]|]; [|done].
  intros [= <- <-]. by rewrite !u32_u32.
Qed.

Lemma reloc_entry m w x b : reloc_bytes m w x = Ok b -> exists t p i, om_Relocs m !! lr_Type x = Some t /\
  symRef w (Some (lr_Sym x)) = Ok (p, i) /\
  b = fields_bytes [(4%nat, lr_Off x); (1%nat, lr_Siz x); (2%nat, t); (8%nat, lr_Add x); (4%nat, p); (4%nat, i)].
Proof.
  unfold reloc_bytes. destruct (om_Relocs m !! lr_Type x) as [t|] eqn:Et; [|done].
  destruct (symRef w (Some (lr_Sym x))) as [[p i]|] eqn:Es; [|done]. intros [= <-]. by exists t, p, i.
Qed.

Lemma aux_entry w x b : aux_bytes w x = Ok b ->
  exists p i, symRef w (snd x) = Ok (p, i) /\ b = fields_bytes [(1%nat, fst x); (4%nat, p); (4%nat, i)].
Proof.
  unfold aux_bytes. destruct (symRef w (snd x)) as [[p i]|] eqn:Es; [|done]. intros [= <-]. by exists p, i.
Qed.

Lemma reloc_read m w r x b pre suf k : zlen (rd_b r) < 2 ^ 32 -> reloc_bytes m w x = Ok b -> rd_b r = pre ++ b ++ suf ->
  u32 (boff r "Reloc" + u32 (k * relocSize)) = zlen pre -> exists y, reloc_at r k = Some y /\ seen_reloc m w x y.
Proof.
  intros Hsz (t & p & i & Ht & Hs & ->)%reloc_entry Hf Ho.
  pose proof Hsz as Hsz1. rewrite Hf, !zlen_app, zlen_fields in Hsz1. cbn in Hsz1. zpos.
  unfold reloc_at, u32_at. rewrite Ho, !u32_small by (unfold is_u32; lia).
  destruct (symRef_u32 _ _ _ _ Hs) as [Hp Hi]. eexists. split; [|by exists t, p, i].
  read_field Hf 0%nat. read_field Hf 1%nat. read_field Hf 2%nat. read_field Hf 3%nat. read_field Hf 4%nat. read_field Hf 5%nat.
  change (wrap (8 * Z.of_nat 4)) with u32. rewrite Hp, Hi. unfold s32, s64, u32. by rewrite !swrap_wrap by lia.
Qed.

Lemma aux_read w r x b pre suf k : zlen (rd_b r) < 2 ^ 32 -> aux_bytes w x = Ok b -> rd_b r = pre ++ b ++ suf ->
  u32 (boff r "Aux" + u32 (k * auxSize)) = zlen pre -> exists y, aux_at r k = Some y /\ seen_aux w x y.
Proof.
  intros Hsz (p & i & Hs & ->)%aux_entry Hf Ho.
  pose proof Hsz as Hsz1. rewrite Hf, !zlen_app, zlen_fields in Hsz1. cbn in Hsz1. zpos.
  unfold aux_at, u32_at. rewrite Ho, !u32_small by (unfold is_u32; lia).
  destruct (symRef_u32 _ _ _ _ Hs) as [Hp Hi]. eexists. split; [|by exists p, i].
  read_field Hf 0%nat. read_field Hf 1%nat. read_field Hf 2%nat.
  change (wrap (8 * Z.of_nat 4)) with u32. by rewrite Hp, Hi.
Qed.

(** *** Index blocks *)

Definition total (l : list Z) : Z := foldr Z.add 0 l.

Lemma length_totals n l : length (totals n l) = S (length l).
Proof. revert n. induction l as [|x l IH]; intros n; [done|]. cbn [totals length]. by rewrite IH. Qed.

Lemma totals_lookup n l k : (k <= length l)%nat -> totals n l !! k = Some (u32 (n + total (take k l))).
Proof.
  revert n k. induction l as [|x l IH]; intros n [|k] Hk; cbn [length] in *; try lia.
  - cbn. by rewrite Z.add_0_r.
  - cbn. by rewrite Z.add_0_r.
  - change (totals (n + x) l !! k = Some (u32 (n + total (x :: take k l)))). rewrite IH by lia. cbn [total foldr]. by rewrite Z.add_assoc.
Qed.

Lemma total_zlen {A B} (g : A -> list B) l : total ((fun x => zlen (g x)) <$> l) = zlen (concat (g <$> l)).
Proof.
  induction l as [|x l IH]; [done|]. rewrite !fmap_cons. cbn [concat]. rewrite zlen_app, <-IH. done.
Qed.

Lemma span_read r b pre lens suf k : zlen (rd_b r) < 2 ^ 32 -> rd_b r = pre ++ index_bytes lens ++ suf -> boff r b = zlen pre ->
  (k < length lens)%nat -> span_at r b (Z.of_nat k) = Some (u32 (total (take k lens)), u32 (total (take (S k) lens))).
Proof.
  intros Hsz Hb Ho Hk. unfold index_bytes in Hb.
  assert (Forall (fun b => zlen b = 4) (le32 <$> totals 0 lens)) as H4 by (apply Forall_fmap, Forall_true; intros; apply zlen_le32).
  assert (forall j, (j <= length lens)%nat -> u32_at r (zlen pre + 4 * Z.of_nat j) = Some (u32 (total (take j lens)))) as Hj.
  { intros j Hj. destruct (entry_at 4 pre (le32 <$> totals 0 lens) suf j (le32 (u32 (total (take j lens)))) H4) as (p & q & E & Hp).
    - by rewrite list_lookup_fmap, totals_lookup.
    - unfold u32_at. rewrite Hb, E, (le_at_place 4 p _ q) by done. f_equal. apply u32_u32. }
  pose proof Hsz as Hsz1. rewrite Hb, !zlen_app, (zlen_concat 4) in Hsz1 by done. zpos.
  assert (zlen (le32 <$> totals 0 lens) = Z.of_nat (length lens) + 1) as Hl
    by (unfold zlen; rewrite length_fmap, length_totals; lia).
  unfold span_at. rewrite Ho, (u32_small (4 * Z.of_nat k)), !u32_small by (unfold is_u32; rewrite ?u32_small; unfold is_u32; lia).
  rewrite Hj by lia. cbn [mbind option_bind]. replace (zlen pre + 4 * Z.of_nat k + 4) with (zlen pre + 4 * Z.of_nat (S k)) by lia.
  by rewrite Hj by lia.
Qed.

(** *** Entries of a block *)

Lemma entry_place r b pre bs suf c k e : zlen (rd_b r) < 2 ^ 32 -> rd_b r = pre ++ concat bs ++ suf -> boff r b = zlen pre ->
  0 < c -> Forall (fun b => zlen b = c) bs -> bs !! k = Some e ->
  exists pre' suf', rd_b r = pre' ++ e ++ suf' /\ u32 (boff r b + u32 (Z.of_nat k * c)) = zlen pre'.
Proof.
  intros Hsz Hb Ho Hc Hbs Hk. destruct (entry_at c pre bs suf k e Hbs Hk) as (p & q & E & Hp).
  exists p, q. split; [congruence|]. rewrite Ho. rewrite Hb, E, !zlen_app in Hsz. zpos.
  assert (0 <= c * Z.of_nat k) by nia.
  rewrite (u32_small (Z.of_nat k * c)) by (unfold is_u32; lia). rewrite u32_small by (unfold is_u32; lia). lia.
Qed.

Lemma range_read {A B} (f : Z -> option B) (seen : A -> B -> Prop) a xs :
  (forall j x, xs !! j = Some x -> exists y, f (a + Z.of_nat j) = Some y /\ seen x y) ->
  exists ys, for_range f a (a + zlen xs) = Some ys /\ Forall2 seen xs ys.
Proof.
  unfold for_range. replace (Z.to_nat (a + zlen xs - a)) with (length xs) by (unfold zlen; lia).
  intros H. assert (forall n, (forall j x, xs !! j = Some x -> exists y, f (a + Z.of_nat (n + j)) = Some y /\ seen x y) ->
    exists ys, mapM (fun k => f (a + Z.of_nat k)) (seq n (length xs)) = Some ys /\ Forall2 seen xs ys) as Hn; [|by apply (Hn 0%nat)].
  clear H. induction xs as [|x xs IH]; intros n H; [by exists []|].
  destruct (H 0%nat x eq_refl) as (y & Hy & Hs). rewrite Nat.add_0_r in Hy.
  destruct (IH (S n)) as (ys & Hys & Hf).
  { intros j z Hz. destruct (H (S j) z Hz) as (v & Hv & Hsv). exists v. split; [|done]. rewrite <-Hv. do 2 f_equal. lia. }
  exists (y :: ys). split; [|by constructor]. cbn [length seq mapM]. rewrite Hy. cbn [mbind option_bind]. by rewrite Hys.
Qed.

(** The entries of one symbol in a table of the entries of all symbols. *)
Lemma concat_split {A B} (g : A -> list B) ds k d : ds !! k = Some d ->
  concat (g <$> ds) = concat (g <$> take k ds) ++ g d ++ concat (g <$> drop (S k) ds).
Proof. intros Hk. rewrite <-(take_drop_middle ds k d Hk) at 1. by rewrite fmap_app, concat_app. Qed.

Lemma concat_at {A B} (g : A -> list B) ds k d j x : ds !! k = Some d -> g d !! j = Some x ->
  concat (g <$> ds) !! (Z.to_nat (zlen (concat (g <$> take k ds))) + j)%nat = Some x.
Proof.
  intros Hk Hj. rewrite (concat_split g ds k d Hk). unfold zlen. rewrite Nat2Z.id, lookup_app_r, Nat.add_comm, Nat.add_sub by lia. by apply lookup_app_l_Some.
Qed.

Lemma total_take {A B} (g : A -> list B) ds k d : ds !! k = Some d ->
  total (take k ((fun x => zlen (g x)) <$> ds)) = zlen (concat (g <$> take k ds)) /\
  total (take (S k) ((fun x => zlen (g x)) <$> ds)) = zlen (concat (g <$> take k ds)) + zlen (g d).
Proof.
  intros Hk. rewrite <-!fmap_take, !total_zlen. split; [done|].
  rewrite (take_S_r _ _ _ Hk), fmap_app, concat_app, zlen_app. cbn. by rewrite app_nil_r.
Qed.

(** Positions in a table that fits the buffer. *)
Lemma total_small {A B} c (g : A -> list B) ds k d (bs : list (list Z)) size : ds !! k = Some d -> 0 < c ->
  length bs = length (concat (g <$> ds)) -> Forall (fun b => zlen b = c) bs -> zlen (concat bs) <= size -> size < 2 ^ 32 ->
  u32 (zlen (concat (g <$> take k ds))) = zlen (concat (g <$> take k ds)) /\
  u32 (zlen (concat (g <$> take k ds)) + zlen (g d)) = zlen (concat (g <$> take k ds)) + zlen (g d).
Proof.
  intros Hk Hc Hl Hbs Hle Hs. rewrite (zlen_concat c) in Hle by done.
  assert (zlen (concat (g <$> take k ds)) + zlen (g d) <= zlen bs) as H.
  { unfold zlen. rewrite Hl, (concat_split g ds k d Hk), !length_app. lia. }
  zpos. assert (zlen bs <= c * zlen bs) by nia. split; apply u32_small; unfold is_u32; lia.
Qed.

Lemma block_place r base segs s1 b x s2 : placed r base segs -> segs = s1 ++ (b, x) :: s2 ->
  exists pre suf, rd_b r = pre ++ x ++ suf /\ boff r b = zlen pre.
Proof.
  intros [Hb _ Ho] E. exists (base ++ seg_bytes s1), (seg_bytes s2). rewrite (Ho _ _ _ _ E), Hb, E, seg_bytes_app, zlen_app.
  split; [|done]. rewrite <-!app_assoc. done.
Qed.

(** ** The reader's view of the object of [w] *)

Section View.
Context (m : objMeta) (w : wstate) (p : parts) (r : Reader) (base : list Z) (T : gmap string Z).
Hypothesis Hpl : placed r base (segs_of m w p).
Hypothesis Hok : parts_ok m w T p.
Hypothesis HT : str_in r T.

Definition all_syms : list sid := defined w ++ w_nonpkgrefs w.

Let all_entries := pt_defs p ++ pt_h64defs p ++ pt_hdefs p ++ pt_npdefs p ++ pt_nprefs p.

Lemma all_entries_ok : Forall2 (sym_entry m T (w_link w)) all_syms all_entries.
Proof using Hok.
  destruct Hok. unfold all_syms, all_entries, defined. rewrite <-!app_assoc. repeat apply Forall2_app; done.
Qed.

Lemma syms_place : exists pre suf, rd_b r = pre ++ concat all_entries ++ suf /\ boff r "Symdef" = zlen pre.
Proof using Hpl.
  exists (base ++ seg_bytes (take 3 (segs_of m w p))), (seg_bytes (drop 8 (segs_of m w p))). split.
  - rewrite (pl_b _ _ _ Hpl), <-app_assoc. f_equal. unfold all_entries, segs_of, seg_bytes.
    cbn [take drop fmap list_fmap concat snd]. by rewrite !concat_app, <-!app_assoc.
  - rewrite zlen_app. by apply (pl_off _ _ _ Hpl _ _ (concat (pt_defs p)) (drop 4 (segs_of m w p))).
Qed.
Lemma size_small : zlen (rd_b r) < 2 ^ 32.
Proof using Hpl. exact (pl_size _ _ _ Hpl). Qed.

Lemma view_sym k i s : all_syms !! k = Some i -> l_syms (w_link w) !! i = Some s ->
  exists y, RSym_at r (Z.of_nat k) = Some y /\ seen_sym m s y.
Proof using Hpl Hok HT.
  intros Hk Hi. pose proof all_entries_ok as He. destruct (Forall2_lookup_l _ _ _ _ _ He Hk) as (b & Hb & Hsym).
  destruct syms_place as (pre & suf & E & Ho).
  destruct (entry_place r "Symdef" pre all_entries suf symSize k b size_small E Ho) as (pre' & suf' & E' & Ho'); [done | | done |].
  - eapply Forall2_Forall_r; [exact He|]. apply Forall_true. intros j c. apply sym_entry_len.
  - exact (sym_read m r T (w_link w) i s b pre' suf' _ HT size_small Hsym Hi E' Ho').
Qed.

Lemma block_of k b x : segs_of m w p !! k = Some (b, x) -> exists pre suf, rd_b r = pre ++ x ++ suf /\ boff r b = zlen pre.
Proof using Hpl.
  intros Hk. eapply (block_place r base _ (take k (segs_of m w p)) b x (drop (S k) (segs_of m w p))); [exact Hpl|].
  by rewrite take_drop_middle.
Qed.

(** One symbol's entries of a block with an index block. *)
Lemma view_list {A B} c ib tb (g : sid * Sym -> list A) (at_k : Z -> option B) (seen : A -> B -> Prop) (R : A -> list Z -> Prop)
    (bs : list (list Z)) ki kt k d :
  segs_of m w p !! ki = Some (ib, index_bytes ((fun x => zlen (g x)) <$> pt_ds p)) -> segs_of m w p !! kt = Some (tb, concat bs) ->
  Forall2 R (concat (g <$> pt_ds p)) bs -> (forall x b, R x b -> zlen b = c) -> 0 < c ->
  (forall x b pre suf j, R x b -> rd_b r = pre ++ b ++ suf -> u32 (boff r tb + u32 (j * c)) = zlen pre ->
     exists y, at_k j = Some y /\ seen x y) ->
  pt_ds p !! k = Some d ->
  exists ys, ('(a, b) ← span_at r ib (Z.of_nat k); for_range at_k a b) = Some ys /\ Forall2 seen (g d) ys.
Proof using Hpl.
  intros Hi Ht HR Hc Hpos Hread Hd.
  destruct (block_of _ _ _ Hi) as (pi & si & Ei & Oi). destruct (block_of _ _ _ Ht) as (pt & su & Et & Ot).
  assert (Forall (fun b => zlen b = c) bs) as Hbs by (eapply Forall2_Forall_r; [exact HR|]; apply Forall_true; eauto).
  rewrite (span_read r ib pi _ si k size_small Ei Oi) by (rewrite length_fmap; by eapply lookup_lt_Some).
  cbn [mbind option_bind]. destruct (total_take g _ _ _ Hd) as [-> ->].
  destruct (total_small c g (pt_ds p) k d bs (zlen (rd_b r))) as [-> ->]; try done.
  { symmetry. by eapply Forall2_length. } { rewrite Et, !zlen_app. zpos. lia. } { apply size_small. }
  apply range_read. intros j x Hj. pose proof (concat_at g (pt_ds p) k d j x Hd Hj) as Hx.
  destruct (Forall2_lookup_l _ _ _ _ _ HR Hx) as (b & Hb & HRb).
  destruct (entry_place r tb pt bs su c _ b size_small Et Ot Hpos Hbs Hb) as (pre' & suf' & E' & Ho').
  eapply Hread; [exact HRb | exact E' |]. rewrite <-Ho'. do 4 f_equal. zpos. lia.
Qed.

Lemma view_relocs k d : pt_ds p !! k = Some d ->
  exists ys, Relocs r (Z.of_nat k) = Some ys /\ Forall2 (seen_reloc m w) (relocs_of m (snd d)) ys.
Proof using Hpl Hok.
  intros Hd. unfold Relocs.
  eapply (view_list relocSize "RelocIdx" "Reloc" (fun x => relocs_of m (snd x)) (reloc_at r) (seen_reloc m w)
    (fun x b => reloc_bytes m w x = Ok b) (pt_rel p) 11 14); [| reflexivity | apply (po_rel _ _ _ _ Hok) | | done | | exact Hd].
  - cbn. do 3 f_equal. apply list_fmap_ext. intros j [i s] _. cbn. unfold zlen, relocs_of. f_equal.
    destruct (om_SortRelocs m); [|done]. by rewrite (merge_sort_Permutation rel_le).
  - intros x b (t & q & i & _ & _ & ->)%reloc_entry. done.
  - intros x b pre suf j HR Hb Ho. by eapply reloc_read; [apply size_small|..].
Qed.

Lemma view_auxs k d : pt_ds p !! k = Some d ->
  exists ys, Auxs r (Z.of_nat k) = Some ys /\ Forall2 (seen_aux w) (aux m w (fst d) (snd d)) ys.
Proof using Hpl Hok.
  intros Hd. unfold Auxs.
  eapply (view_list auxSize "AuxIdx" "Aux" (fun x => aux m w (fst x) (snd x)) (aux_at r) (seen_aux w)
    (fun x b => aux_bytes w x = Ok b) (pt_aux p) 12 15); [reflexivity | reflexivity | apply (po_aux _ _ _ _ Hok) | | done | | exact Hd].
  - intros x b (q & i & _ & ->)%aux_entry. done.
  - intros x b pre suf j HR Hb Ho. by eapply aux_read; [apply size_small|..].
Qed.

Lemma view_data k d : pt_ds p !! k = Some d -> RData r (Z.of_nat k) = Some (s_P (snd d)).
Proof using Hpl.
  intros Hd. unfold RData. destruct (block_of 13 _ _ eq_refl) as (pi & si & Ei & Oi). destruct (block_of 16 _ _ eq_refl) as (pt & su & Et & Ot).
  rewrite (span_read r "DataIdx" pi _ si k size_small Ei Oi) by (rewrite length_fmap; by eapply lookup_lt_Some).
  cbn [mbind option_bind]. destruct (total_take (fun x => s_P (snd x)) _ _ _ Hd) as [-> ->].
  pose proof size_small as Hsz. rewrite (concat_split (fun x => s_P (snd x)) _ _ _ Hd) in Et. rewrite Et, !zlen_app in Hsz. zpos.
  rewrite Ot, (u32_small (zlen (concat _))), (u32_small (zlen (concat _) + _)), !u32_small by (unfold is_u32; lia).
  rewrite Et, <-!app_assoc, app_assoc. replace (zlen pt + (zlen (concat ((fun x => s_P (snd x)) <$> take k (pt_ds p))) + zlen (s_P (snd d))))
    with (zlen pt + zlen (concat ((fun x => s_P (snd x)) <$> take k (pt_ds p))) + zlen (s_P (snd d))) by lia.
  apply slice_at; [by rewrite zlen_app | done].
Qed.

Lemma off_of k b x : segs_of m w p !! k = Some (b, x) -> boff r b = zlen base + zlen (seg_bytes (take k (segs_of m w p))).
Proof using Hpl.
  intros Hk. apply (pl_off _ _ _ Hpl _ _ x (drop (S k) (segs_of m w p))). by rewrite take_drop_middle.
Qed.

(** A block ends where the next one starts. *)
Lemma off_next k b x b' x' : segs_of m w p !! k = Some (b, x) -> segs_of m w p !! S k = Some (b', x') -> boff r b' = boff r b + zlen x.
Proof using Hpl.
  intros Hk Hk'. rewrite (off_of _ _ _ Hk), (off_of _ _ _ Hk').
  assert (take (S k) (segs_of m w p) = take k (segs_of m w p) ++ [(b, x)]) as -> by exact (take_S_r _ _ _ Hk).
  rewrite seg_bytes_app, zlen_app.
  unfold seg_bytes at 2. cbn. rewrite app_nil_r. lia.
Qed.

Lemma view_files : exists fs, Files r = Some fs /\ Forall2 (fun f b => b = bytes_of_string f) (l_files (w_link w)) fs.
Proof using Hpl Hok HT.
  pose proof (po_files _ _ _ _ Hok) as Hf. destruct (block_of 2 "File" (concat (pt_files p)) eq_refl) as (pre & suf & E & Ho).
  assert (Forall (fun b => zlen b = 8) (pt_files p)) as H8
    by (eapply Forall2_Forall_r; [exact Hf|]; apply Forall_true; intros; by eapply str_entry_len).
  assert (zlen (pt_files p) = zlen (l_files (w_link w))) as Hl by (unfold zlen; by rewrite (Forall2_length _ _ _ Hf)).
  unfold Files. rewrite (off_next 2 "File" (concat (pt_files p)) "Symdef" _ eq_refl eq_refl), (zlen_concat 8), Hl by done.
  replace ((boff r "File" + 8 * zlen (l_files (w_link w)) - boff r "File" + 7) / 8) with (0 + zlen (l_files (w_link w)))
    by (zpos; Z.to_euclidean_division_equations; lia).
  apply range_read. intros j f Hj. destruct (Forall2_lookup_l _ _ _ _ _ Hf Hj) as (n & Hn & Hfn).
  destruct (entry_at 8 pre (pt_files p) suf j n H8 Hn) as (pre' & suf' & E' & Hp).
  eexists. split; [|done]. eapply (rstr_read r T n pre' suf'); [done | apply size_small | done | congruence | lia].
Qed.

Lemma nsym_block k b x b' x' (is_ : list sid) es : segs_of m w p !! k = Some (b, x) -> segs_of m w p !! S k = Some (b', x') ->
  x = concat es -> Forall2 (sym_entry m T (w_link w)) is_ es -> nsym_of (rd_off r) (b, b') = zlen is_.
Proof using Hpl.
  intros Hk Hk' -> He. unfold nsym_of. cbn [fst snd]. change (at_ (rd_off r)) with (boff r). rewrite (off_next _ _ _ _ _ Hk Hk').
  destruct (block_of _ _ _ Hk) as (pre & suf & E & _). pose proof size_small as Hsz. rewrite E, !zlen_app in Hsz.
  rewrite (zlen_concat symSize) in * by (eapply Forall2_Forall_r; [exact He|]; apply Forall_true; intros; by eapply sym_entry_len).
  replace (boff r b + symSize * zlen es - boff r b) with (symSize * zlen es) by lia. zpos. unfold symSize in *.
  rewrite u32_small by (unfold is_u32; lia). rewrite Z.mul_comm, Z.quot_mul by done. unfold zlen. by rewrite (Forall2_length _ _ _ He).
Qed.

Lemma view_nsym : rd_nsym r = nsym_of (rd_off r) <$> sym_blocks ->
  rd_nsym r = [zlen (w_defs w); zlen (w_hashed64 w); zlen (w_hashed w); zlen (w_nonpkgdefs w); zlen (w_nonpkgrefs w)].
Proof using Hpl Hok.
  intros ->. destruct Hok as [_ _ H1 H2 H3 H4 H5 _ _]. cbn [sym_blocks fmap list_fmap].
  by rewrite (nsym_block 3 _ _ _ _ _ _ eq_refl eq_refl eq_refl H1), (nsym_block 4 _ _ _ _ _ _ eq_refl eq_refl eq_refl H2),
    (nsym_block 5 _ _ _ _ _ _ eq_refl eq_refl eq_refl H3), (nsym_block 6 _ _ _ _ _ _ eq_refl eq_refl eq_refl H4),
    (nsym_block 7 _ _ _ _ _ _ eq_refl eq_refl eq_refl H5).
Qed.
End View.

(** ** References *)

Definition pkg_names : list string := ["None"; "Self"; "Hashed64"; "Hashed"; "Builtin"].

(** The package indices of a release: distinct non-negative [int32]s. *)
Definition pkgs_ok (m : objMeta) : Prop :=
  NoDup (at_ (om_PkgIdx m) <$> pkg_names) /\ Forall (fun n => 0 <= at_ (om_PkgIdx m) n < 2 ^ 31) pkg_names /\
  zlen (om_Builtins m) < 2 ^ 31.

Lemma s32_small z : - 2 ^ 31 <= z < 2 ^ 31 -> s32 z = z.
Proof. intros H. apply swrap_small; [exact H | lia]. Qed.

(** What a reference resolves to is the symbol [i]. *)
Definition refers (m : objMeta) (w : wstate) (i : sid) (d : denoted) : Prop :=
  match d with
  | DSym k => 0 <= k /\ all_syms w !! Z.to_nat k = Some i
  | DBuiltin k => exists s abi, l_syms (w_link w) !! i = Some s /\ om_Builtins m !! Z.to_nat k = Some (s_Name s, abi) /\
      (om_RegabiWrappers m = true -> abi = s_ABI s)
  | DPkg _ _ | DRef _ _ => False
  end.

Section Resolve.
Context (m : objMeta) (w : wstate) (r : Reader).
Hypothesis Hm : rd_Meta r = m.
Hypothesis Hn : rd_nsym r = [zlen (w_defs w); zlen (w_hashed64 w); zlen (w_hashed w); zlen (w_nonpkgdefs w); zlen (w_nonpkgrefs w)].
Hypothesis Hsz : zlen (all_syms w) < 2 ^ 31.
Hypothesis Hpk : pkgs_ok m.

Lemma pk_small name : name ∈ pkg_names -> pk m name = at_ (om_PkgIdx m) name /\ u32 (at_ (om_PkgIdx m) name) = at_ (om_PkgIdx m) name /\
  u32 (pk m name) = at_ (om_PkgIdx m) name.
Proof using Hpk.
  destruct Hpk as (_ & H & _). rewrite Forall_forall in H. intros Hin%H. unfold pk. rewrite s32_small by lia.
  rewrite !u32_small by (unfold is_u32; lia). done.
Qed.

Lemma index_small k : Z.of_nat k < 2 ^ 31 -> u32 (s32 (Z.of_nat k)) = Z.of_nat k.
Proof. intros H. rewrite s32_small, u32_small by (unfold is_u32; lia). done. Qed.

Lemma u32_add a b : 0 <= a -> 0 <= b -> a + b < 2 ^ 32 -> u32 (u32 a + b) = a + b.
Proof. intros Ha Hb Hab. rewrite (u32_small a), u32_small by (unfold is_u32; lia). done. Qed.

(** Selects the branch of [resolve] of one package index. *)
Ltac pick_pkg Q :=
  rewrite Q; repeat first [rewrite Z.eqb_refl | rewrite (proj2 (Z.eqb_neq _ _)) by (first [assumption | apply not_eq_sym; assumption])].

(** The symbol an index of each package denotes. *)
Lemma resolve_pkgs k : Z.of_nat k < 2 ^ 31 ->
  let ref n := resolve r (mkRef (u32 (pk m n)) (u32 (s32 (Z.of_nat k)))) in
  ((k < length (w_defs w))%nat -> ref "Self" = DSym (Z.of_nat k)) /\
  ((k < length (w_hashed64 w))%nat -> ref "Hashed64" = DSym (Z.of_nat (length (w_defs w) + k))) /\
  ((k < length (w_hashed w))%nat -> ref "Hashed" = DSym (Z.of_nat (length (w_defs w) + length (w_hashed64 w) + k))) /\
  ((k < length (w_nonpkgdefs w) + length (w_nonpkgrefs w))%nat ->
     ref "None" = DSym (Z.of_nat (length (w_defs w) + length (w_hashed64 w) + length (w_hashed w) + k))) /\
  ref "Builtin" = DBuiltin (Z.of_nat k).
Proof using Hm Hn Hsz Hpk.
  intros Hk ref. subst ref. unfold resolve, NDef, nsym. rewrite Hm, Hn. cbn [sr_PkgIdx sr_SymIdx lookup list_lookup default from_option id].
  destruct (pk_small "None" ltac:(set_solver)) as (_ & -> & P1). destruct (pk_small "Self" ltac:(set_solver)) as (_ & -> & P2).
  destruct (pk_small "Hashed64" ltac:(set_solver)) as (_ & -> & P3). destruct (pk_small "Hashed" ltac:(set_solver)) as (_ & -> & P4).
  destruct (pk_small "Builtin" ltac:(set_solver)) as (_ & -> & P5).
  destruct Hpk as (Hnd & Hr & Hb). cbn [pkg_names fmap list_fmap] in Hnd. rewrite !NoDup_cons in Hnd.
  rewrite !not_elem_of_cons in Hnd. destruct Hnd as ((N1 & N2 & N3 & N4 & _) & (N5 & N6 & N7 & _) & (N8 & N9 & _) & (N10 & _) & _).
  unfold all_syms, defined in *. rewrite !zlen_app in Hsz. clear Hr. unfold zlen in *. rewrite !index_small by lia. split_and!.
  - intros Hlt. pick_pkg P2. rewrite u32_small by (unfold is_u32; lia). by rewrite (proj2 (Z.ltb_lt _ _)) by lia.
  - intros Hlt. pick_pkg P3. rewrite u32_add by lia. f_equal. lia.
  - intros Hlt. pick_pkg P4. rewrite u32_add by lia. f_equal. lia.
  - intros Hlt. pick_pkg P1. rewrite !u32_add by lia.
    rewrite (u32_small (Z.of_nat (length (w_nonpkgrefs w)))), u32_add by (unfold is_u32; lia).
    rewrite (proj2 (Z.ltb_lt _ _)) by lia. f_equal. lia.
  - by pick_pkg P5.
Qed.

(** An index past the first lists. *)
Lemma lookup_past {A} (a b : list A) j x : b !! j = Some x -> (a ++ b) !! (length a + j)%nat = Some x.
Proof. intros H. rewrite lookup_app_r by lia. by replace (length a + j - length a)%nat with j by lia. Qed.

Lemma resolve_points i p k : points m w [] i p k -> refers m w i (resolve r (mkRef (u32 p) (u32 (s32 (Z.of_nat k))))).
Proof using Hm Hn Hsz Hpk.
  intros Hp. assert (Z.of_nat k < 2 ^ 31) as Hk.
  { destruct Hpk as (_ & _ & Hb). unfold all_syms, defined, zlen in *. rewrite !length_app in Hsz.
    destruct Hp as [j Hj|j Hj|j Hj|j Hj|j s abi Hs Hj Hw]; apply lookup_lt_Some in Hj; rewrite ?length_app in Hj; cbn in Hj; lia. }
  destruct (resolve_pkgs k Hk) as (R1 & R2 & R3 & R4 & R5).
  destruct Hp as [j Hj|j Hj|j Hj|j Hj|j s abi Hs Hj Hw]; pose proof (lookup_lt_Some _ _ _ Hj) as Hlt.
  - rewrite app_nil_r in *. rewrite R1 by done. split; [lia|]. unfold all_syms, defined. rewrite Nat2Z.id, <-app_assoc. by apply lookup_app_l_Some.
  - rewrite R2 by done. split; [lia|]. unfold all_syms, defined. rewrite Nat2Z.id, <-!app_assoc. apply lookup_past. by apply lookup_app_l_Some.
  - rewrite R3 by done. split; [lia|]. unfold all_syms, defined. rewrite Nat2Z.id, <-!app_assoc, <-Nat.add_assoc.
    do 2 apply lookup_past. by apply lookup_app_l_Some.
  - rewrite length_app in Hlt. rewrite R4 by done. split; [lia|]. unfold all_syms, defined. rewrite Nat2Z.id, <-!app_assoc, <-!Nat.add_assoc.
    by do 3 apply lookup_past.
  - rewrite R5. exists s, abi. by rewrite Nat2Z.id.
Qed.

(** The index of a definition denotes a defined symbol. *)
Lemma resolve_dpoints i p k : dpoints m w [] i p k -> exists n,
  resolve r (mkRef (u32 p) (u32 (s32 (Z.of_nat k)))) = DSym (Z.of_nat n) /\ defined w !! n = Some i.
Proof using Hm Hn Hsz Hpk.
  intros Hp. assert (Z.of_nat k < 2 ^ 31) as Hk.
  { unfold all_syms, defined, zlen in Hsz. rewrite !length_app in Hsz.
    destruct Hp as [j Hj|j Hj|j Hj|j Hj]; apply lookup_lt_Some in Hj; rewrite ?length_app in Hj; cbn in Hj; lia. }
  destruct (resolve_pkgs k Hk) as (R1 & R2 & R3 & R4 & R5). unfold defined.
  destruct Hp as [j Hj|j Hj|j Hj|j Hj]; pose proof (lookup_lt_Some _ _ _ Hj) as Hlt.
  - rewrite app_nil_r in *. eexists. split; [by apply R1|]. by apply lookup_app_l_Some.
  - eexists. split; [by apply R2|]. apply lookup_past. by apply lookup_app_l_Some.
  - eexists. split; [by apply R3|]. rewrite <-Nat.add_assoc. do 2 apply lookup_past. by apply lookup_app_l_Some.
  - eexists. split; [apply R4; lia|]. rewrite <-!Nat.add_assoc. by do 3 apply lookup_past.
Qed.

Lemma resolve_ok i p x : numbers_ok m w [] -> symRef w (Some i) = Ok (p, x) -> refers m w i (resolve r (mkRef p x)).
Proof using Hm Hn Hsz Hpk.
  intros Hok. unfold symRef. destruct (w_num w !! i) as [[q y]|] eqn:E; [|done]. intros [= <- <-].
  destruct (Hok i q y E) as (k & -> & Hk). by apply resolve_points.
Qed.
End Resolve.

(** ** The object file *)

(** A symbol of the file: its record, and for a defined one its contents,
    relocations and aux symbols. *)
Definition seen (m : objMeta) (w : wstate) (r : Reader) (k : nat) (i : sid) (s : Sym) : Prop :=
  (exists y, RSym_at r (Z.of_nat k) = Some y /\ seen_sym m s y) /\
  ((k < length (defined w))%nat ->
    RData r (Z.of_nat k) = Some (s_P s) /\
    (exists ys, Relocs r (Z.of_nat k) = Some ys /\ Forall2 (seen_reloc m w) (relocs_of m s) ys) /\
    (exists ys, Auxs r (Z.of_nat k) = Some ys /\ Forall2 (seen_aux w) (aux m w i s) ys)).

(** All that a successful [Write] says about a reader of the file. *)
Lemma Write_view fv sha256 sha1 m l header file : blocks_listed m -> header_ok header -> zlen file < 2 ^ 32 ->
  Write m sha256 sha1 l header = Ok file ->
  exists w vs r, numbered m l = Ok (w, vs) /\ NewReader fv file (Some m) = Ok r /\ rd_Meta r = m /\
    rd_nsym r = [zlen (w_defs w); zlen (w_hashed64 w); zlen (w_hashed w); zlen (w_nonpkgdefs w); zlen (w_nonpkgrefs w)] /\
    zlen (all_syms w) < 2 ^ 31 /\
    (exists fs, Files r = Some fs /\ Forall2 (fun f b => b = bytes_of_string f) (l_files (w_link w)) fs) /\
    (forall k i, all_syms w !! k = Some i -> exists s, l_syms (w_link w) !! i = Some s /\ seen m w r k i s).
Proof.
  intros Hm Hh Hsize (w & vs & p & r & base & T & Hn & Hr & Hmeta & Hns & Hpl & Hok & HT)%(Write_placed fv); [|done..].
  pose proof (all_entries_ok m w p T Hok) as Hall. exists w, vs, r. split_and!; try done.
  - by apply (view_nsym m w p r base T).
  - destruct (syms_place m w p r base Hpl) as (pre & suf & E & _). pose proof (pl_size _ _ _ Hpl) as Hsz. rewrite E, !zlen_app in Hsz.
    rewrite (zlen_concat symSize) in Hsz by (eapply Forall2_Forall_r; [exact Hall|]; apply Forall_true; intros; by eapply sym_entry_len).
    assert (zlen (all_syms w) = zlen (pt_defs p ++ pt_h64defs p ++ pt_hdefs p ++ pt_npdefs p ++ pt_nprefs p)) as ->
      by (unfold zlen; by rewrite (Forall2_length _ _ _ Hall)).
    unfold symSize in Hsz. zpos. lia.
  - by apply (view_files m w p r base T).
  - intros k i Hk. destruct (Forall2_lookup_l _ _ _ _ _ Hall Hk) as (b & _ & (s & _ & _ & _ & Hs & _)).
    exists s. split; [done|]. split; [by apply (view_sym m w p r base T Hpl Hok HT k i s)|]. intros Hlt.
    assert (defined w !! k = Some i) as Hk' by (unfold all_syms in Hk; by rewrite lookup_app_l in Hk).
    destruct (Forall2_lookup_l _ _ _ _ _ (po_ds _ _ _ _ Hok) Hk') as ([i' s'] & Hd & Hi' & Hs'). cbn in Hi', Hs'. subst i'.
    rewrite Hs in Hs'. injection Hs' as <-. split_and!.
    + exact (view_data m w p r base Hpl k _ Hd).
    + exact (view_relocs m w p r base T Hpl Hok k _ Hd).
    + exact (view_auxs m w p r base T Hpl Hok k _ Hd).
Qed.

(** C4. Round trip of a Go object: when [Write] succeeds on a file below 4 GiB, the
    reader accepts the file and sees in it exactly the object: the file table, every
    numbered symbol with its name, ABI, kind, flags, size and alignment, and for
    every defined symbol its bytes, its relocations in the order written (with the
    reference the numbering gave each target) and its aux symbols.  Every TEXT and
    data symbol of the object is among the defined ones, unchanged. *)
Theorem Write_read_roundtrip fv sha256 sha1 m l header file :
  blocks_listed m -> header_ok header -> zlen file < 2 ^ 32 -> Write m sha256 sha1 l header = Ok file ->
  exists w vs r, numbered m l = Ok (w, vs) /\ NewReader fv file (Some m) = Ok r /\
    (exists fs, Files r = Some fs /\ Forall2 (fun f b => b = bytes_of_string f) (l_files l) fs) /\
    (forall i, i ∈ l_Text l ++ l_Data l -> exists k s, defined w !! k = Some i /\
       (forall s', l_syms l !! i = Some s' -> s' = s) /\ seen m w r k i s) /\
    (forall k i, all_syms w !! k = Some i -> exists s, l_syms (w_link w) !! i = Some s /\ seen m w r k i s).
Proof.
  intros Hm Hh Hsize E. destruct (Write_view fv _ _ _ _ _ _ Hm Hh Hsize E) as (w & vs & r & Hn & Hr & _ & _ & _ & Hf & Hs).
  destruct (numbered_ok m l w vs Hn) as (_ & Hg & Hd). exists w, vs, r. split_and!; try done.
  - by rewrite <-(gr_files _ _ Hg).
  - intros i [k Hk]%Hd%list_elem_of_lookup. destruct (Hs k i) as (s & Hi & Hseen); [by apply lookup_app_l_Some|].
    exists k, s. split_and!; [done | | done]. intros s' Hs'. apply (gr_syms _ _ Hg) in Hs'. congruence.
Qed.

(** C5. References mean what they were written for: in the file of a successful
    [Write], every reference that a relocation or an aux entry carries resolves, by
    the reader's rule, to the symbol it was written for: to that symbol's record, or
    to the builtin of its name (and ABI, when the release asks for it). *)
Theorem Write_refs_resolve fv sha256 sha1 m l header file :
  blocks_listed m -> pkgs_ok m -> header_ok header -> zlen file < 2 ^ 32 -> Write m sha256 sha1 l header = Ok file ->
  exists w vs r, numbered m l = Ok (w, vs) /\ NewReader fv file (Some m) = Ok r /\
    forall i p x, symRef w (Some i) = Ok (p, x) -> refers m w i (resolve r (mkRef p x)).
Proof.
  intros Hm Hpk Hh Hsize E. destruct (Write_view fv _ _ _ _ _ _ Hm Hh Hsize E) as (w & vs & r & Hn & Hr & Hmeta & Hns & Hcount & _).
  destruct (numbered_ok m l w vs Hn) as (Hok & _). exists w, vs, r. split_and!; try done. intros i p x. by apply resolve_ok.
Qed.

(** ** A small object

    One function with a call, a data symbol, a file and an inlined call, in the
    layout of go1.24; a constant stands for the hash. *)
Definition demo_meta : objMeta := mkMeta "go1.24" [0; 103; 111; 49; 50; 48; 108; 100] block_names
  {["FromAssembly" := 4]} (list_to_map [("Dupok", 1); ("Local", 2); ("NoSplit", 16); ("GoType", 64)]) (list_to_map [("Linkname", 4)])
  (list_to_map [("FuncInfo", 1); ("Funcdata", 2); ("DwarfInfo", 3); ("DwarfRanges", 5); ("DwarfLines", 6); ("Pcsp", 7);
     ("Pcfile", 8); ("Pcline", 9); ("Pcinline", 10); ("Pcdata", 11)])
  (list_to_map [("None", 2147483647); ("Hashed64", 2147483646); ("Hashed", 2147483645); ("Builtin", 2147483644); ("Self", 2147483643)]) (-1)
  16 8 [("runtime.newobject", 1)] "notsha256" true "heuristic" true "type:" "go:itab." true true false
  (list_to_map [("Sxxx", 0); ("STEXT", 1); ("SRODATA", 3); ("SNOPTRDATA", 5); ("SDATA", 7); ("SNOPTRBSS", 10); ("SDWARFFCN", 14);
     ("SDWARFRANGE", 18); ("SDWARFLINES", 20)])
  (list_to_map [("R_ADDR", 1); ("R_PCREL", 15); ("R_CALL", 7)]) 8 "main" true.

Definition demo_conf : lconf :=
  mkConf "main" 1 false 8 ∅ ∅ ∅ (list_to_map [("ArgsPointerMaps", 0); ("LocalsPointerMaps", 1)]) false true 3 "v1" [].

Definition demo_fill (h g : sid) (p : sid) (s : Sym) : Sym :=
  with_func (fun fi => mkFI 16 32 0 0 7 (Some p) (Some p) (Some p) (fi_Pcinline fi) [Some p] (fi_Funcdata fi) (fi_UsedFiles fi)
      [mkLInl (-1) 0 9 h 1] (fi_funcdata fi) true (fi_dwarfInfo fi) (fi_dwarfLines fi) (fi_dwarfRanges fi))
    (set_R (set_data s "STEXT" [144; 195] 2) [mkLReloc 1 4 "R_CALL" 5 h; mkLReloc 0 4 "R_PCREL" (-3) g]).

Definition demo_object : res string Link :=
  let '(_, l) := AddFile "a.c" (mkLink [] ∅ ∅ [] [] [] ∅ false) in
  let '(f, l) := LookupABI "main.f" ABIInternal l in
  let '(g, l) := Lookup "main.g" l in
  let '(h, l) := Lookup "main.ext" l in
  l ← Globl g 8 NOPTR l;
  l ← InitText demo_conf f 1 l;
  match Flush demo_conf (PCDATA f (modify g (WriteBytes 0 [1; 2; 3; 4; 5; 6; 7; 8]) l)) with
  | Ok (Some l) => let '(p, l) := pcsym [2; 2; 0] l in Ok (modify f (demo_fill h g p) l)
  | _ => Fail "flush"
  end.

Definition demo_link : Link := match demo_object with Ok l => l | Fail _ => mkLink [] ∅ ∅ [] [] [] ∅ false end.
Definition demo_header : string := "go object linux amd64 go1.24 X:none" +:+ String "010"%char "".
Definition demo_hash (n : nat) (_ : list Z) : list Z := replicate n 0.
Definition demo_file : list Z :=
  Eval vm_compute in match Write demo_meta (demo_hash 32) (demo_hash 20) demo_link demo_header with Ok b => b | Fail _ => [] end.

Lemma demo_written : Write demo_meta (demo_hash 32) (demo_hash 20) demo_link demo_header = Ok demo_file.
Proof. vm_compute. reflexivity. Qed.

Lemma demo_blocks : blocks_listed demo_meta.
Proof.
  split_and!; [by apply (bool_decide_unpack _) | | done]. apply Forall_forall. intros b Hb. exact Hb.
Qed.

Lemma demo_pkgs : pkgs_ok demo_meta.
Proof.
  split_and!; [by apply (bool_decide_unpack _) | | done]. by apply (bool_decide_unpack _).
Qed.

Lemma demo_header_ok : header_ok demo_header.
Proof. split_and!; [done | by apply (bool_decide_unpack _) | by apply (bool_decide_unpack _)]. Qed.

Lemma Write_read_roundtrip_witness : exists w vs r,
  numbered demo_meta demo_link = Ok (w, vs) /\ NewReader (fun _ => Fail "") demo_file (Some demo_meta) = Ok r /\
  (exists fs, Files r = Some fs /\ Forall2 (fun f b => b = bytes_of_string f) (l_files demo_link) fs) /\
  (forall i, i ∈ l_Text demo_link ++ l_Data demo_link -> exists k s, defined w !! k = Some i /\
     (forall s', l_syms demo_link !! i = Some s' -> s' = s) /\ seen demo_meta w r k i s) /\
  (forall k i, all_syms w !! k = Some i -> exists s, l_syms (w_link w) !! i = Some s /\ seen demo_meta w r k i s).
Proof.
  apply (Write_read_roundtrip (fun _ => Fail "") (demo_hash 32) (demo_hash 20) demo_meta demo_link demo_header demo_file);
    [exact demo_blocks | exact demo_header_ok | vm_compute; reflexivity | exact demo_written].
Defined.

Lemma Write_refs_resolve_witness : exists w vs r,
  numbered demo_meta demo_link = Ok (w, vs) /\ NewReader (fun _ => Fail "") demo_file (Some demo_meta) = Ok r /\
  forall i p x, symRef w (Some i) = Ok (p, x) -> refers demo_meta w i (resolve r (mkRef p x)).
Proof.
  apply (Write_refs_resolve (fun _ => Fail "") (demo_hash 32) (demo_hash 20) demo_meta demo_link demo_header demo_file);
    [exact demo_blocks | exact demo_pkgs | exact demo_header_ok | vm_compute; reflexivity | exact demo_written].
Defined.
