(* ===== verification/DiffProofs.v ===== *)
(** * The comparison tool reads what the writer wrote

    [diffLoad] of a file of [Write] succeeds: every symbol, relocation target and aux
    reference it looks up is there, so no read panics. *)

From Stdlib Require Import ZArith Lia Ascii.
From stdpp Require Import base list strings gmap.
From S2P Require Import Prelude Text Layout PcTab Link ObjWrite ObjNumber Convert ObjRead Diff ObjRoundtrip.

(** The package indices are not 0, which is what an aux entry without a symbol has. *)
Definition pkgs_used (m : objMeta) : Prop := Forall (fun n => at_ (om_PkgIdx m) n <> 0) pkg_names.

Ltac pkg_name := by apply (bool_decide_unpack _).

Section Written.
Context (Sum256 : list Z -> list Z) (sort_by_Off : list diffReloc -> list diffReloc).
Context (m : objMeta) (w : wstate) (r : Reader).
Hypothesis Hm : rd_Meta r = m.
Hypothesis Hn : rd_nsym r = [zlen (w_defs w); zlen (w_hashed64 w); zlen (w_hashed w); zlen (w_nonpkgdefs w); zlen (w_nonpkgrefs w)].
Hypothesis Hsz : zlen (all_syms w) < 2 ^ 31.
Hypothesis Hpk : pkgs_ok m.
Hypothesis Hused : pkgs_used m.
Hypothesis Hnum : numbers_ok m w [].
Hypothesis Hview : forall k i, all_syms w !! k = Some i -> exists s, l_syms (w_link w) !! i = Some s /\ seen m w r k i s.

Lemma NDef_len : NDef r = zlen (defined w) /\ ndef r = NDef r.
Proof using Hn Hsz.
  unfold ndef, NDef, nsym. rewrite Hn. cbn [lookup list_lookup default from_option id]. unfold all_syms, defined in *.
  rewrite !zlen_app in *. unfold zlen in *. rewrite u32_small by (unfold is_u32; lia). lia.
Qed.

Lemma ndef_len : ndef r = zlen (defined w).
Proof using Hn Hsz. destruct NDef_len. congruence. Qed.

Lemma all_sym k : 0 <= k < zlen (all_syms w) -> exists i, all_syms w !! Z.to_nat k = Some i.
Proof using. intros Hk. apply lookup_lt_is_Some. unfold zlen in Hk. lia. Qed.

Lemma got_sym k : 0 <= k < zlen (all_syms w) -> exists y, RSym_at r k = Some y.
Proof using Hview.
  intros Hk. destruct (all_sym k Hk) as [i Hi]. destruct (Hview _ _ Hi) as (s & _ & (y & Hy & _) & _). exists y. by rewrite Z2Nat.id in Hy by lia.
Qed.

Lemma got_def k : 0 <= k < ndef r -> exists i s, l_syms (w_link w) !! i = Some s /\ seen m w r (Z.to_nat k) i s /\
  RData r k = Some (s_P s) /\ (exists ys, Relocs r k = Some ys /\ Forall2 (seen_reloc m w) (relocs_of m s) ys) /\
  (exists ys, Auxs r k = Some ys /\ Forall2 (seen_aux w) (aux m w i s) ys).
Proof using Hn Hsz Hview.
  intros Hk. rewrite ndef_len in Hk. destruct (all_sym k) as [i Hi]; [unfold all_syms; rewrite zlen_app; unfold zlen in *; lia|].
  destruct (Hview _ _ Hi) as (s & Hs & Hseen). exists i, s. split; [done|]. split; [done|].
  destruct Hseen as (_ & H). rewrite Z2Nat.id in H by lia. apply H. unfold zlen in Hk. lia.
Qed.

Lemma got_data k : 0 <= k < ndef r -> exists b, RData r k = Some b.
Proof using Hn Hsz Hview. intros Hk. destruct (got_def k Hk) as (i & s & _ & _ & Hd & _). by exists (s_P s). Qed.

Lemma nameOf_ok k : 0 <= k < zlen (all_syms w) -> exists n, nameOf Sum256 r k = Ok n.
Proof using Hn Hsz Hview.
  intros Hk. unfold nameOf. destruct (got_sym k Hk) as [y ->]. cbn [got mbind res_bind]. destruct (_ && _) eqn:E; [|by eexists].
  apply andb_true_iff in E as [_ E%Z.ltb_lt]. destruct (got_data k) as [b ->]; [lia|]. by eexists.
Qed.

Lemma pkg_value n : n ∈ pkg_names -> u32 (pk m n) = at_ (om_PkgIdx m) n /\ pkg_idx r n = at_ (om_PkgIdx m) n /\ at_ (om_PkgIdx m) n <> 0.
Proof using Hm Hpk Hused.
  intros Hin. destruct (pk_small m Hpk n Hin) as (_ & Hu & Hp). unfold pkg_idx. rewrite Hm. split_and!; [done | done|].
  by apply (proj1 (Forall_forall _ _) Hused).
Qed.

Lemma denoted_none : resolve r (mkRef 0 0) = DRef 0 0.
Proof using All.
  unfold resolve. cbn [sr_PkgIdx sr_SymIdx]. assert (forall n, n ∈ pkg_names -> (0 =? u32 (at_ (om_PkgIdx (rd_Meta r)) n)) = false) as H.
  { intros n Hin. destruct (pkg_value n Hin) as (_ & Hp & Hne). apply Z.eqb_neq. unfold pkg_idx in Hp. congruence. }
  rewrite !H by pkg_name. done.
Qed.

Lemma denoted_ok o p x : symRef w o = Ok (p, x) -> exists t, denoted_text Sum256 r (resolve r (mkRef p x)) = Ok t.
Proof using All.
  destruct o as [i|]; [|intros [= <- <-]; rewrite denoted_none; by eexists]. intros E.
  pose proof (resolve_ok m w r Hm Hn Hsz Hpk i p x Hnum E) as Href. destruct (resolve r (mkRef p x)) as [k|k|q k|q k]; [| |done..].
  - destruct Href as [Hk Hl]. apply nameOf_ok. apply lookup_lt_Some in Hl. unfold zlen. lia.
  - cbn [denoted_text]. destruct (default _ _) as [n abi]. by eexists.
Qed.

Lemma data_of_ok k : 0 <= k < ndef r -> exists d, data_of r k = Ok d.
Proof using Hn Hsz Hview. intros Hk. unfold data_of. destruct (got_data k Hk) as [b ->]. by eexists. Qed.

(** What remains of [aux_data] when the reference is not one of a hashed symbol. *)
Lemma aux_data_guarded p x : 0 <= x -> (p = pkg_idx r "Hashed64" -> 0 <= u32 (u32 (nsym r 0) + x) < ndef r) ->
  (p = pkg_idx r "Hashed" -> 0 <= u32 (u32 (nsym r 0 + nsym r 1) + x) < ndef r) -> exists d, aux_data r (mkRef p x) = Ok d.
Proof using Hn Hsz Hview.
  intros Hx H64 Hh. unfold aux_data. cbn [sr_PkgIdx sr_SymIdx].
  destruct (_ && _) eqn:E1; [apply andb_true_iff in E1 as [_ E1%Z.ltb_lt]; by apply data_of_ok|].
  destruct (_ && _) eqn:E2 in |- *; [apply andb_true_iff in E2 as [_ E2%Z.ltb_lt]; apply data_of_ok; pose proof (Z.mod_pos_bound (nonpkg r + x) (2 ^ 32)); unfold u32, wrap in *; lia|].
  destruct (Z.eqb_spec p (pkg_idx r "Hashed64")); [apply data_of_ok; auto|].
  destruct (Z.eqb_spec p (pkg_idx r "Hashed")); [apply data_of_ok; auto|]. by eexists.
Qed.

Lemma small_index k : Z.of_nat k < zlen (all_syms w) -> u32 (s32 (Z.of_nat k)) = Z.of_nat k.
Proof using Hsz. intros H. apply index_small. lia. Qed.

Lemma aux_data_ok o p x : symRef w o = Ok (p, x) -> exists d, aux_data r (mkRef p x) = Ok d.
Proof using All.
  assert (forall n n', n ∈ pkg_names -> n' ∈ pkg_names -> u32 (pk m n) = pkg_idx r n' -> n = n') as Hinj.
  { intros n n' Hi Hi' E. destruct (pkg_value n Hi) as (E1 & _ & _), (pkg_value n' Hi') as (_ & E2 & _). rewrite E1, E2 in E.
    destruct Hpk as (Hnd & _). apply (inj (fun f => f)). destruct (proj1 (list_elem_of_lookup _ _) Hi) as [a Ha], (proj1 (list_elem_of_lookup _ _) Hi') as [b Hb].
    assert (a = b) as ->; [|congruence]. eapply NoDup_lookup; [exact Hnd | by rewrite list_lookup_fmap, Ha |]. rewrite list_lookup_fmap, Hb. cbn. by rewrite E. }
  destruct o as [i|].
  - unfold symRef. destruct (w_num w !! i) as [[q y]|] eqn:E; [|done]. intros [= <- <-]. destruct (Hnum i q y E) as (k & -> & Hp).
    assert (0 <= u32 (s32 (Z.of_nat k))) as H0 by (unfold u32, wrap; apply Z.mod_pos_bound; lia).
    pose proof ndef_len as Hlen. assert (nsym r 0 = zlen (w_defs w) /\ nsym r 1 = zlen (w_hashed64 w)) as [N0 N1] by (unfold nsym; by rewrite Hn).
    assert (zlen (all_syms w) = zlen (w_defs w) + zlen (w_hashed64 w) + zlen (w_hashed w) + zlen (w_nonpkgdefs w) + zlen (w_nonpkgrefs w) /\
      zlen (defined w) = zlen (w_defs w) + zlen (w_hashed64 w) + zlen (w_hashed w) + zlen (w_nonpkgdefs w)) as [Hall Hdef].
    { unfold all_syms, defined. rewrite !zlen_app. lia. }
    apply aux_data_guarded; [done | intros Hq; rewrite N0 | intros Hq; rewrite N0, N1].
    + destruct Hp as [j Hj|j Hj|j Hj|j Hj|j s abi Hs Hj Hw]; apply Hinj in Hq; try pkg_name; try discriminate.
      apply lookup_lt_Some in Hj. unfold zlen in *. rewrite small_index by (unfold zlen; lia). rewrite u32_add by lia. lia.
    + destruct Hp as [j Hj|j Hj|j Hj|j Hj|j s abi Hs Hj Hw]; apply Hinj in Hq; try pkg_name; try discriminate.
      apply lookup_lt_Some in Hj. unfold zlen in *. rewrite small_index by (unfold zlen; lia). rewrite u32_add by lia. lia.
  - intros [= <- <-]. apply aux_data_guarded; [done | intros Hq | intros Hq]; exfalso.
    + destruct (pkg_value "Hashed64") as (_ & E & Hne); [pkg_name | congruence].
    + destruct (pkg_value "Hashed") as (_ & E & Hne); [pkg_name | congruence].
Qed.

Lemma load_reloc_ok acc x y : seen_reloc m w x y -> exists l, load_reloc Sum256 r acc y = Ok l.
Proof using All.
  intros (t & p & i & _ & Hr & ->). unfold load_reloc. cbn [rr_Sym]. destruct (denoted_ok _ _ _ Hr) as [tx ->]. by eexists.
Qed.

Lemma load_relocs_ok xs ys : Forall2 (seen_reloc m w) xs ys -> forall acc, exists l, rfold (load_reloc Sum256 r) acc ys = Ok l.
Proof using All.
  induction 1 as [|x y xs ys H _ IH]; intros acc; [by eexists|]. cbn [rfold]. destruct (load_reloc_ok acc x y H) as [l ->].
  cbn [mbind res_bind]. apply IH.
Qed.

Lemma load_aux_ok q s x y : seen_aux w x y -> exists s', load_aux Sum256 r q s y = Ok s'.
Proof using All.
  intros (p & i & Hr & ->). unfold load_aux. cbn [ra_Sym ra_Type]. destruct (aux_data_ok _ _ _ Hr) as [d ->]. cbn [mbind res_bind].
  repeat (destruct (String.eqb _ _); [first [by eexists | destruct (denoted_ok _ _ _ Hr) as [t ->]; by eexists]|]). by eexists.
Qed.

Lemma load_auxs_ok q xs ys : Forall2 (seen_aux w) xs ys -> forall s, exists s', rfold (load_aux Sum256 r q) s ys = Ok s'.
Proof using All.
  induction 1 as [|x y xs ys H _ IH]; intros s; [by eexists|]. cbn [rfold]. destruct (load_aux_ok q s x y H) as [s' ->]. cbn [mbind res_bind]. apply IH.
Qed.

(** The key of defined symbol [k]. *)
Definition key_of (k : Z) (key : string) : Prop :=
  exists n y, nameOf Sum256 r k = Ok n /\ RSym_at r k = Some y /\ key = n +:+ "<" +:+ dec (rs_ABI y) +:+ ">".

Lemma load_sym_ok q k syms : 0 <= k < ndef r -> exists key v, load_sym Sum256 sort_by_Off r q syms k = Ok (<[key := v]> syms) /\
  key_of k key /\ RData r k = Some (ds_Data v).
Proof using All.
  intros Hk. pose proof ndef_len as Hlen. assert (0 <= k < zlen (all_syms w)) as Hk2.
  { rewrite Hlen in Hk. unfold all_syms. rewrite zlen_app. unfold zlen in *. lia. }
  destruct (got_sym k Hk2) as [y Hy], (nameOf_ok k Hk2) as [n Hnm]. destruct (got_def k Hk) as (i & s & _ & _ & Hd & (rs & Hr & Hrs) & (axs & Ha & Has)).
  unfold load_sym. rewrite Hy. cbn [got mbind res_bind]. rewrite Hnm. cbn [mbind res_bind]. rewrite Hd. cbn [got mbind res_bind].
  rewrite Hr. cbn [got mbind res_bind]. destruct (load_relocs_ok _ _ Hrs []) as [rl ->]. cbn [mbind res_bind]. rewrite Ha. cbn [got mbind res_bind].
  destruct (load_auxs_ok q _ _ Has (mkAux ∅ 0 0)) as [xs ->]. cbn [mbind res_bind]. do 2 eexists. split; [reflexivity|]. split; [by exists n, y | done].
Qed.

Lemma load_syms_ok q ks : Forall (fun k => 0 <= k < ndef r) ks -> forall syms, exists out, rfold (load_sym Sum256 sort_by_Off r q) syms ks = Ok out /\
  (forall key, is_Some (syms !! key) -> is_Some (out !! key)) /\ (forall k key, k ∈ ks -> key_of k key -> is_Some (out !! key)).
Proof using All.
  induction 1 as [|k ks Hk _ IH]; intros syms; [exists syms; split_and!; [done | done | intros k key H; by apply not_elem_of_nil in H]|].
  cbn [rfold]. destruct (load_sym_ok q k syms Hk) as (key & v & -> & Hkey & _). cbn [mbind res_bind].
  destruct (IH (<[key := v]> syms)) as (out & -> & Hold & Hnew). exists out. split; [done|]. split.
  - intros key' Hs. apply Hold. destruct (decide (key = key')) as [->|Hne]; [rewrite lookup_insert_eq; by eexists | by rewrite lookup_insert_ne].
  - intros k' key' [->|Hin]%elem_of_cons Hk'; [|by eapply Hnew]. apply Hold. destruct Hkey as (n & y & Hn1 & Hy1 & ->), Hk' as (n2 & y2 & Hn2 & Hy2 & ->).
    replace n2 with n by congruence. replace y2 with y by congruence. rewrite lookup_insert_eq. by eexists.
Qed.
End Written.

(** [ForVersion] answers the release [m] for the version that the header line names. *)
Definition header_of (fv : string -> res string objMeta) (m : objMeta) (file : list Z) : Prop :=
  forall nl, index_of [10] file = Some nl -> reader_meta fv None (string_of_bytes (take nl file)) = Ok m.

Lemma header_read fv m file r : header_of fv m file -> NewReader fv file (Some m) = Ok r -> NewReader fv file None = Ok r.
Proof.
  unfold header_of, NewReader. intros H. destruct (index_of [10] file) as [nl|]; [|done]. by rewrite (H nl eq_refl).
Qed.

(** C24. The comparison tool reads every object that the writer wrote: on the file of a
    successful [Write], [diffLoad] succeeds (no index is out of range, whatever the
    relocations and aux entries refer to), and every defined symbol is in the result
    under its name and ABI. *)
Theorem diffLoad_written fv Sum256 sort_by_Off sha256 sha1 m l header file path :
  blocks_listed m -> pkgs_ok m -> pkgs_used m -> header_ok header -> zlen file < 2 ^ 32 -> header_of fv m file ->
  Write m sha256 sha1 l header = Ok file ->
  exists r o, NewReader fv file (Some m) = Ok r /\ diffLoad fv Sum256 sort_by_Off path file = Ok o /\
    forall k key, 0 <= k < NDef r -> key_of Sum256 r k key -> is_Some (do_Syms o !! key).
Proof.
  intros Hm Hpk Hused Hh Hsize Hfv E. destruct (Write_view fv _ _ _ _ _ _ Hm Hh Hsize E) as (w & vs & r & Hnw & Hr & Hmeta & Hns & Hcount & _ & Hview).
  destruct (numbered_ok m l w vs Hnw) as (Hok & _).
  destruct (load_syms_ok Sum256 sort_by_Off m w r Hmeta Hns Hcount Hpk Hused Hok Hview (if contains "arm64" (rd_Header r) then 4 else 1)
    (Z.of_nat <$> seq 0 (Z.to_nat (ndef r)))) with (syms := ∅ : gmap string diffSym) as (out & Ho & _ & Hkeys).
  { apply Forall_fmap, Forall_seq. intros j Hj. cbn. lia. }
  exists r, (mkDObj (rd_Header r) out). split; [done|]. split; [unfold diffLoad; rewrite (header_read _ _ _ _ Hfv Hr); by rewrite Ho|].
  intros k key Hk Hkey. apply (Hkeys k key); [|done]. apply list_elem_of_fmap. exists (Z.to_nat k). split; [by rewrite Z2Nat.id by lia|].
  apply elem_of_seq. destruct (NDef_len w r Hns Hcount) as [_ ->]. lia.
Qed.

Lemma demo_used : pkgs_used demo_meta.
Proof. by apply (bool_decide_unpack _). Qed.

Lemma demo_header_of : header_of (fun _ => Ok demo_meta) demo_meta demo_file.
Proof. intros nl E. vm_compute in E. injection E as <-. vm_compute. reflexivity. Qed.

Example diffLoad_written_witness : exists r o, NewReader (fun _ => Ok demo_meta) demo_file (Some demo_meta) = Ok r /\
  diffLoad (fun _ => Ok demo_meta) (demo_hash 32) (fun l => l) "a.goobj" demo_file = Ok o /\
  forall k key, 0 <= k < NDef r -> key_of (demo_hash 32) r k key -> is_Some (do_Syms o !! key).
Proof.
  apply (diffLoad_written (fun _ => Ok demo_meta) (demo_hash 32) (fun l => l) (demo_hash 32) (demo_hash 20) demo_meta demo_link demo_header demo_file);
    [exact demo_blocks | exact demo_pkgs | exact demo_used | exact demo_header_ok | vm_compute; reflexivity | exact demo_header_of | exact demo_written].
Defined.
