(* ===== verification/Objdump.v ===== *)
(** * goc tool objdump

    Models src/cmd/goc/objdump.go: printing and checking .gocobj files, and comparing Go
    objects.  A run gives its exit status, what it says and the world after it (which it
    does not change). *)

From Stdlib Require Import ZArith Lia Ascii.
From stdpp Require Import base list strings gmap.
From S2P Require Import Prelude Text Codec Format Elf GocobjWrite GocobjRead Verify Dump World ObjWrite ObjRead Diff Meta ConvertMain.

(** What is printed: the usage, a text, a file that does not parse, a broken invariant. *)
Inductive said := SUsage | SText (s : string) | SParse (p : string) (e : err) | SBroken (p : string) (e : verr).

Section Host.
Variable h : host.
Variable elf_read : list Z -> res string efile.

(** [goobj.Diff]'s reading of one file: the path and the bytes. *)
Variable load : string -> list Z -> res derr diffObject.

(** One file of [dump] or [verify]: whether it counts as a failure, and what is said. *)
Definition show_one (verify : bool) (path : string) (w : world) : bool * list said :=
  match fst (Open h elf_read path w) with
  | Fail e => (true, [SText (path +:+ ": " +:+ e)])
  | Ok (Fail e) => (true, [SParse path e])
  | Ok (Ok f) =>
      if verify then match Verify f with [] => (false, [SText (path +:+ ": ok")]) | (_ :: _) as errs => (true, SBroken path <$> errs) end
      else (false, [SText (Dump f)])
  end.

Definition show_files (verify : bool) (files : list string) (w : world) : Z * list said :=
  let l := (fun p => show_one verify p w) <$> files in
  (if existsb fst l then 1 else 0, concat (snd <$> l)).

(** The differences that are printed: all of them, or the first twenty. *)
Definition shown (verbose : bool) (diffs : list string) : list string :=
  if verbose || (length diffs <=? 20)%nat then diffs else take 20 diffs ++ ["... " +:+ dec (zlen diffs - 20) +:+ " more"].

Definition derr_text (e : derr) : list said := match e with DErr s => [SText s] | DPanic => [SText "panic"] end.

(** [Diff]: the second file is read when the first one is loaded.  A panic ends the
    process with status 2 as well. *)
Definition diff_files (verbose : bool) (a b : string) (w : world) : Z * list said :=
  match fst (ReadFile h a w) with
  | Fail e => (2, [SText e])
  | Ok fa =>
      match load a fa with
      | Fail e => (2, derr_text e)
      | Ok _ =>
          match fst (ReadFile h b w) with
          | Fail e => (2, [SText e])
          | Ok fb =>
              match Diff load a b fa fb with
              | Fail e => (2, derr_text e)
              | Ok (n, []) => (0, [SText ("goc tool objdump diff: no semantic difference (" +:+ dec n +:+ " symbols)")])
              | Ok (_, diffs) => (1, (SText <$> shown verbose diffs) ++ [SText ("goc tool objdump diff: " +:+ dec (zlen diffs) +:+ " differences")])
              end
          end
      end
  end.

Definition objdiff (args : list string) (w : world) : Z * list said :=
  match parse_flags {["v" := FBool]} args ∅ with
  | FlagsExit s => (s, [])
  | FlagsOk fl [a; b] => diff_files (is_set fl "v") a b w
  | FlagsOk _ _ => (2, [SUsage])
  end.

Definition objdump (args : list string) (w : world) : Z * list said :=
  match args with
  | [] => (2, [SUsage])
  | cmd :: files =>
      if String.eqb cmd "diff" then objdiff files w
      else if String.eqb cmd "dump" || String.eqb cmd "verify" then
        match files with [] => (2, [SUsage]) | _ => show_files (String.eqb cmd "verify") files w end
      else (2, [SUsage])
  end.

(** ** What the exit status says *)

(** The file at a path, as [Open] reads it. *)
Definition reads_as (w : world) (p : string) (f : File) : Prop :=
  exists b ef, wo_fs w !! p = Some b /\ elf_read b = Ok ef /\ GocobjRead.Parse ef = Ok f.

Lemma Open_reads p w f : fst (Open h elf_read p w) = Ok (Ok f) <-> reads_as w p f.
Proof using.
  unfold Open, elf_open, reads_as, mbind, io_bind, ReadFile. destruct (wo_fs w !! p) as [b|]; [|by split; [|intros (? & ? & ? & _)]].
  cbn. destruct (elf_read b) as [ef|e] eqn:E; cbn.
  - split; [intros [= H]; by exists b, ef | intros (b' & ef' & [= <-] & E' & H)]. rewrite E in E'. injection E' as <-. by rewrite H.
  - split; [done | intros (b' & ef' & [= <-] & E' & _)]. congruence.
Qed.

Lemma show_verified p w : fst (show_one true p w) = false <-> exists f, reads_as w p f /\ Verify f = [].
Proof using.
  unfold show_one. split.
  - destruct (fst (Open h elf_read p w)) as [[f|e]|e] eqn:E; [|done..]. intros H. exists f. split; [by apply Open_reads|]. by destruct (Verify f).
  - intros (f & Hr & Hv). apply Open_reads in Hr. by rewrite Hr, Hv.
Qed.


End Host.

(** The comparison exits with 0 when both files load and are the same, with 1 when they
    load and differ, with 2 when one does not load. *)
Lemma diff_status h load verbose a b w (rc := fst (diff_files h load verbose a b w)) :
  (rc = 0 \/ rc = 1 \/ rc = 2) /\
  forall x y, (exists fa, wo_fs w !! a = Some fa /\ load a fa = Ok x) -> (exists fb, wo_fs w !! b = Some fb /\ load b fb = Ok y) ->
    rc = (if bool_decide (diffCompare x y = []) then 0 else 1).
Proof.
  unfold rc, diff_files, ReadFile. split.
  - destruct (wo_fs w !! a) as [fa|]; cbn; [|tauto]. destruct (load a fa); cbn; [|tauto]. destruct (wo_fs w !! b) as [fb|]; cbn; [|tauto].
    destruct (Diff load a b fa fb) as [[n [|]]|]; cbn; tauto.
  - intros x y (fa & Ha & Hx) (fb & Hb & Hy). rewrite Ha, Hb. cbn. rewrite Hx. unfold Diff. rewrite Hx. cbn. rewrite Hy. cbn. by destruct (diffCompare x y).
Qed.

(** ** A file that is accepted, and one that is not there *)

Definition dump_files : fs := {["f.gocobj" := [127]]}.
Definition dump_run (args : list string) : Z := fst (objdump (demo_host (fun _ => true)) (fun _ => Ok demo_input) (fun _ _ => Fail DPanic) args (mkWorld dump_files [])).

Lemma dump_input_no_wrap f : GocobjRead.Parse demo_input = Ok f -> no_wrap f.
Proof.
  intros H. vm_compute in H. injection H as <-.
  split; [apply Forall_nil_2 | | apply Forall_nil_2]. apply Forall_singleton. split; [done|]. by intros g [=].
Qed.

Lemma dump_reads p f : reads_as (fun _ => Ok demo_input) (mkWorld dump_files []) p f -> no_wrap f.
Proof. intros (b & ef & _ & [= <-] & H). by apply dump_input_no_wrap. Qed.

