(* ===== verification/Goc.v ===== *)
(** * The goc command

    Models src/cmd/goc/main.go and gocmd.go: the commands over the argument loops of
    Cmd.v, the pipeline and the go command.  A command ends with an exit status; what it
    prints is left out, but for the answer of [goc version] and [goc env]. *)

From Stdlib Require Import ZArith Lia Ascii.
From stdpp Require Import base list strings gmap sorting.
From S2P Require Import Prelude Text World Regex Layout Toolchain Convert Meta ConvertMain Pipeline Compile Cmd Toolexec Objdump.

(** ** Paths *)

(** A pattern for [filepath.Glob]. *)
Definition has_meta (p : string) : bool := negb (all_in (fun c => negb (code_in 42 42 c || code_in 63 63 c || code_in 91 92 c)) p).

(** The C files of a directory, in order. *)
Definition c_files (dir : string) (f : fs) : list string :=
  merge_sort str_le (filter (fun p => Dir p = dir /\ HasSuffix p ".c" = true) (elements (dom f))).

Definition markerAsm : string := join (String newline "")
  ["// Code generated by goc go. Do not edit."; "// Present so Go accepts bodyless declarations of the C functions.";
   "// The function bodies are the packed goc goobj, not this TEXT."; "#include " +:+ quote "textflag.h"; "";
   "TEXT " +:+ string_of_bytes [194; 183] +:+ "gocMarker(SB), NOSPLIT|NOFRAME, $0-0"; String "009" "RET"; ""].

Section Goc.
Variable h : host.

(** The converter, its profile and the side car of the lowering, as in Pipeline.v. *)
Variable conv_main : list string -> world -> Z * list msg * world.
Variable conv_profile : string -> io string.
Variable goabi_json : GoAbi.goABIResult -> list Z.

(** [os.Executable], [os.Getwd], sha256, and [filepath.Glob] for a directory whose own name
    is a pattern. *)
Variable exe : res string string.
Variable cwd : res string string.
Variable sha256 : list Z -> list Z.
Variable glob : string -> fs -> list string.

Definition Abs (p : string) : res string string := if rooted p then Ok (Clean p) else d ← cwd; Ok (path_join [d; p]).

(** [toolchain.Root] *)
Definition root : res string string :=
  e ← exe; match h_realpath h e with Some r => Ok (Root r) | None => Fail (h_noent h e) end.

Definition tools : io Tools := r ← lift root; Require h r.

Definition MkdirAll (p : string) : io () := if h_mkdir h p then mret () else fail (h_noent h p).

(** ** goc go *)

Definition go_env (arch : string) : list string :=
  h_environ h ++ ["CGO_ENABLED=0"; "GOFLAGS="; "GOTOOLCHAIN=local"; "GOPROXY=off"; "GOSUMDB=off"; "GOOS=linux"; "GOARCH=" +:+ arch].

Definition go_list (dir arch f : string) : io string :=
  out ← wrap_err (fun e => "go list: " +:+ e) (run_call h (mkCallIn dir "go" ["list"; "-f"; f; "."] (go_env arch))); mret (TrimSpace out).

Definition Glob (dir : string) : io (list string) := fun w => (Ok (if has_meta dir then glob dir (wo_fs w) else c_files dir (wo_fs w)), w).

(** The options for one source file. *)
Definition object_path (cache src : string) : string := path_join [cache; TrimSuffix (Base src) ".c" +:+ ".goobj"].
Definition file_options (o : Options) (cache src : string) : Options := set_Out (object_path cache src) (set_Src src o).

Fixpoint build_each (t : Tools) (o : Options) (cache : string) (srcs : list string) : io (list string) :=
  match srcs with
  | [] => mret []
  | src :: srcs =>
      _ ← Build h t conv_main conv_profile goabi_json (file_options o cache src);
      objs ← build_each t o cache srcs;
      mret (object_path cache src :: objs)
  end.

Definition cache_dir (t : Tools) (dir objdir : string) : string :=
  if String.eqb objdir "" then path_join [t_Root t; "build"; "goc-go"; String.substring 0 16 (hex_bytes (sha256 (bytes_of_string dir)))] else objdir.

Definition go_arch (o : Options) : string := if String.eqb (o_Arch o) "" then "amd64" else o_Arch o.

(** The package's path, unless a switch gave it. *)
Definition pkg_settings (s : settings) (name importPath : string) : settings :=
  if seen s "pkg" then s else upd (set_Pkg (if String.eqb name "main" then "main" else importPath)) s.

(** Where the binary goes; no binary for a package that is not main. *)
Definition binary_path (dir name importPath out : string) : io string :=
  if String.eqb name "main" then
    out ← lift (if String.eqb out "" then Ok (path_join [dir; Base dir]) else Abs out);
    _ ← MkdirAll (Dir out); mret out
  else if negb (String.eqb out "") then fail ("-o is for package main; " +:+ importPath +:+ " is package " +:+ name)
  else mret out.

Definition build_call (dir arch hook out : string) : call :=
  mkCallIn dir "go" (["build"; "-a"; "-toolexec"; hook] ++ (if String.eqb out "" then [] else ["-o"; out]) ++ ["."]) (go_env arch).

(** The objects of the package's C files. *)
Definition go_objects (t : Tools) (s : settings) (dir objdir : string) : io (list string) :=
  let arch := go_arch (s_o s) in
  srcs ← Glob dir;
  if bool_decide (srcs = []) then fail ("no .c files in " +:+ dir)
  else
    nasm ← go_list dir arch "{{len .SFiles}}";
    _ ← (if String.eqb nasm "0" then WriteFile h (path_join [dir; "goc_marker_" +:+ arch +:+ ".s"]) (bytes_of_string markerAsm) else mret ());
    let cache := cache_dir t dir objdir in
    _ ← MkdirAll cache;
    build_each t (s_o s) cache (merge_sort str_le srcs).

Definition goBuild (s : settings) (dir out objdir : string) : io () :=
  if negb (h_isDir h dir) then fail ("not a directory: " +:+ dir)
  else
    dir ← lift (Abs dir);
    let arch := go_arch (s_o s) in
    t ← tools;
    name ← go_list dir arch "{{.Name}}";
    importPath ← go_list dir arch "{{.ImportPath}}";
    let s := pkg_settings s name importPath in
    objs ← go_objects t s dir objdir;
    out ← binary_path dir name importPath out;
    hook ← lift (ToolexecFlag exe (o_Pkg (s_o s)) objs);
    _ ← wrap_err (fun e => "go build: " +:+ e) (run_call h (build_call dir arch hook out));
    mret ().

(** [None]: the command is done; [Some n]: it exits with [n]. *)
Definition cmdGo (args : list string) : io (option Z) :=
  '(g, e) ← go_loop h (mkGoArgs newSettings "." "" "" []) args;
  match e with
  | Some n => mret (Some n)
  | None => _ ← goBuild (upd (set_ClangArgs (ga_extra g)) (productDefaults (ga_s g))) (ga_dir g) (ga_out g) (ga_objdir g); mret None
  end.

(** ** The other commands *)

Definition cmdBuild (args : list string) : io (option Z) :=
  if bool_decide (args = []) then mret (Some 2)
  else
    '(s, e) ← build_loop h newSettings args;
    match e with
    | Some n => mret (Some n)
    | None =>
        if String.eqb (o_Src (s_o s)) "" then mret (Some 2)
        else t ← tools; _ ← Build h t conv_main conv_profile goabi_json (s_o s); mret None
    end.

Fixpoint copy_files (from to : string) (names : list string) : io () :=
  match names with
  | [] => mret ()
  | f :: names => _ ← copyFile h (path_join [from; "examples"; "hello"; f]) (path_join [to; f]); copy_files from to names
  end.

Definition check_in (root : string) (s : settings) (tmp : string) : io () :=
  _ ← copy_files root tmp ["go.mod"; "main.go"; "add.c"];
  let bin := path_join [tmp; "hello"] in
  _ ← goBuild (productDefaults s) tmp bin "";
  got ← wrap_err (fun e => "examples/hello: " +:+ e) (run_call h (mkCall bin [] (h_environ h)));
  if String.eqb (trim_newlines got) "hello 42" then mret () else fail ("examples/hello printed " +:+ quote got +:+ ", want " +:+ quote "hello 42").

Definition cmdCheck (args : list string) : io (option Z) :=
  '(s, e) ← check_loop h newSettings args;
  match e with
  | Some n => mret (Some n)
  | None =>
      r ← lift root;
      tmp ← lift (h_tmp h "goc-check");
      _ ← cleanup tmp (check_in r s tmp);
      mret None
  end.

(** The exit status of a process that ended with one. *)
Variable exit_code : string -> option Z.

(** A program in place of this process. *)
Definition exec_status (c : call) : io (option Z) := fun w => let '(r, w) := run_call h c w in (Ok (Some (status_of exit_code r)), w).

Definition cmdCC (args : list string) : io (option Z) :=
  r ← lift root;
  t ← lift (Locate h r);
  exec_status (mkCall (t_Clang t) (["-I"; t_Include t] ++ args) (Env h t (h_environ h))).

Definition env_text (t : Tools) : string := join (String newline "")
  ["root: " +:+ t_Root t; "clang: " +:+ t_Clang t; "libdir: " +:+ t_LibDir t; "opt: " +:+ t_Opt t; "llvm-mc: " +:+ t_MC t; "goc-llc: " +:+ t_LLC t;
   "passes: " +:+ t_Passes t; "include: " +:+ t_Include t; "goc go: " +:+ settings_String (productDefaults newSettings); ""].

Definition cmdEnv (args : list string) : io string :=
  if bool_decide (args = []) then t ← tools; mret (env_text t) else fail "takes no arguments".

Definition version (f : fs) : string :=
  match root with
  | Fail _ => "unknown"
  | Ok r => match f !! path_join [r; "VERSION"] with Some b => TrimSpace (string_of_bytes b) | None => "unknown" end
  end.

Variable elf_read : list Z -> res string Elf.efile.
Variable load : string -> list Z -> res Diff.derr Diff.diffObject.

Definition cmdTool (args : list string) (w : world) : Z * world :=
  match args with
  | [] => (2, w)
  | a :: args =>
      if String.eqb a "convert" then let '(rc, _, w) := conv_main args w in (rc, w)
      else if String.eqb a "objdump" then (fst (objdump h elf_read load args w), w)
      else (2, w)
  end.

(** The status of a command: an error is 1. *)
Definition finish_cmd {A} (m : io A) (status : A -> Z) : world -> Z * world := fun w =>
  match m w with (Ok x, w) => (status x, w) | (Fail _, w) => (1, w) end.

Definition exits (e : option Z) : Z := default 0 e.

(** [main]: the arguments after the program's name. *)
Definition goc (args : list string) : world -> Z * world :=
  match args with
  | [] => fun w => (2, w)
  | cmd :: args =>
      if String.eqb cmd "go" then finish_cmd (cmdGo args) exits
      else if String.eqb cmd "build" then finish_cmd (cmdBuild args) exits
      else if String.eqb cmd "check" then finish_cmd (cmdCheck args) exits
      else if String.eqb cmd "cc" then finish_cmd (cmdCC args) exits
      else if String.eqb cmd "env" then finish_cmd (cmdEnv args) (fun _ => 0)
      else if String.eqb cmd "toolexec" then cmdToolexec h exit_code args
      else if String.eqb cmd "tool" then cmdTool args
      else if existsb (String.eqb cmd) ["version"; "help"; "-h"; "--help"] then fun w => (0, w)
      else fun w => (2, w)
  end.
End Goc.

(** ** The objects of a package *)

Section Objects.
Variables (h : host) (mine : string -> Prop) (conv_main : list string -> world -> Z * list msg * world) (conv_profile : string -> io string).
Variables (goabi_json : GoAbi.goABIResult -> list Z) (made : Options -> list Z -> list Z -> Prop).
Context {CV : Converter mine conv_main conv_profile made}.
Variable t : Tools.
Variables (o : Options) (cache : string).

(** The directory of the objects is a clean path that is not in a work directory, the
    sources are C files with different names, and no process touches an object. *)
Record cache_ok (srcs : list string) : Prop := {
  cc_clean : Clean cache = cache /\ cache <> "/" /\ cache <> ".";
  cc_names : Forall (fun src => plain_name (Base src) = true /\ HasSuffix (Base src) ".c" = true) srcs;
  cc_distinct : NoDup (Base <$> srcs);
  cc_work : forall d, work_dir h o d -> mine (path d "body.llc.o") /\ forall p, under cache p = true -> outside d p;
  cc_files : forall src, src ∈ srcs -> mine (object_path cache src) /\ untouched h (object_path cache src) }.

Lemma cache_ok_tail src srcs : cache_ok (src :: srcs) -> cache_ok srcs.
Proof using.
  intros [H1 H2 H3 H4 H5]. split; [done | by inversion H2 | by inversion H3 | done |]. intros s Hs. apply H5. by right.
Qed.

(** The name of the object without its suffix. *)
Definition stem (src : string) : string := cache +:+ "/" +:+ TrimSuffix (Base src) ".c".

Lemma object_name (n : string) : plain_name n = true -> HasSuffix n ".c" = true -> plain_name (TrimSuffix n ".c" +:+ ".goobj") = true.
Proof using.
  intros (Hl & _)%plain_name_true Hs. rewrite (TrimSuffix_app _ _ Hs) in Hl. set (x := TrimSuffix n ".c") in *. unfold lacks in Hl. rewrite all_in_app in Hl.
  apply andb_true_iff in Hl as [Hx _]. unfold plain_name, lacks. rewrite all_in_app, Hx.
  assert (forall y, (String.length y <= 2)%nat -> String.eqb (x +:+ ".goobj") y = false) as Hy.
  { intros y Ly. apply String.eqb_neq. intros <-. rewrite string_length_app in Ly. cbn in Ly. lia. }
  by rewrite !Hy by (cbn; lia).
Qed.

Lemma object_stem srcs src : cache_ok srcs -> src ∈ srcs -> object_path cache src = stem src +:+ ".goobj" /\ Side (object_path cache src) = stem src.
Proof using.
  intros [(H1 & H2 & H3) Hn _ _ _] Hin. rewrite Forall_forall in Hn. destruct (Hn src Hin) as [Hp Hs].
  assert (object_path cache src = stem src +:+ ".goobj") as E.
  { unfold object_path, stem. rewrite join_clean by (try done; by apply object_name). by rewrite !string_app_assoc. }
  split; [done|]. rewrite E. unfold Side. by rewrite HasSuffix_app, TrimSuffix_of.
Qed.

Lemma stem_inj srcs a b : cache_ok srcs -> a ∈ srcs -> b ∈ srcs -> stem a = stem b -> Base a = Base b.
Proof using.
  intros [_ Hn _ _ _] Ha Hb E. rewrite Forall_forall in Hn. destruct (Hn a Ha) as [_ Hsa], (Hn b Hb) as [_ Hsb]. unfold stem in E.
  do 2 apply string_app_inj in E. rewrite (TrimSuffix_app _ _ Hsa), (TrimSuffix_app _ _ Hsb). by rewrite E.
Qed.

Definition outputs (src : string) : list string := [stem src +:+ ".goobj"; stem src +:+ ".symabis"; stem src +:+ ".gocobj"; stem src +:+ ".ll"].

Lemma out_is srcs src : cache_ok srcs -> src ∈ srcs -> o_Out (effective (file_options o cache src)) = object_path cache src.
Proof using.
  intros Hc Hin. destruct (object_stem _ _ Hc Hin) as [E1 _].
  change (out_of (defaults (file_options o cache src)) = object_path cache src). unfold out_of. change (o_Out (defaults (file_options o cache src))) with (object_path cache src).
  unfold nonempty. rewrite (proj2 (String.eqb_neq (object_path cache src) "")); [done|]. rewrite E1. unfold stem. by destruct cache.
Qed.

Lemma outputs_of srcs src : cache_ok srcs -> src ∈ srcs ->
  o_Out (effective (file_options o cache src)) :: side_files (effective (file_options o cache src)) = outputs src.
Proof using. intros Hc Hin. destruct (object_stem _ _ Hc Hin) as [E1 E2]. unfold side_files. by rewrite (out_is srcs), E2, E1. Qed.
Lemma under_outputs src p : p ∈ outputs src -> under cache p = true.
Proof using.
  intros H. assert (exists q, p = (cache +:+ "/") +:+ q) as [q ->].
  { repeat (apply elem_of_cons in H as [->|H]; [eexists; unfold stem; rewrite !string_app_assoc; reflexivity|]). by apply not_elem_of_nil in H. }
  unfold under. rewrite prefix_app. by rewrite orb_true_r.
Qed.

(** The object of one source is no output of another. *)
Lemma object_apart srcs a b : cache_ok srcs -> a ∈ srcs -> b ∈ srcs -> Base a <> Base b -> object_path cache a ∉ outputs b.
Proof using.
  intros Hc Ha Hb Hne H. destruct (object_stem _ _ Hc Ha) as [E _]. rewrite E in H. set (x := stem a) in *.
  repeat (apply elem_of_cons in H as [H|H]); [| | | |by apply not_elem_of_nil in H].
  - apply app_same_suffix in H as [H _]; [|done]. apply Hne. by apply (stem_inj srcs).
  - change ".symabis" with (".s" +:+ "ymabis") in H. rewrite <-string_app_assoc in H. by apply app_same_suffix in H as [_ H].
  - change ".gocobj" with ("." +:+ "gocobj") in H. rewrite <-string_app_assoc in H. by apply app_same_suffix in H as [_ H].
  - change ".goobj" with (".go" +:+ "obj") in H. rewrite <-string_app_assoc in H. by apply app_same_suffix in H as [_ H].
Qed.

Local Abbreviation build src := (Build h t conv_main conv_profile goabi_json (file_options o cache src)).
Local Abbreviation builds := (build_each h conv_main conv_profile goabi_json t o cache).

(** Every object is there when the last build is done, made from a [.gocobj] by a
    conversion of its own source's options. *)
Definition object_made (w : world) (src : string) : Prop :=
  exists input obj, made (effective (file_options o cache src)) input obj /\ file_is (object_path cache src) (Some obj) w.

Lemma builds_keep all srcs src v : cache_ok all -> src ∈ all -> srcs ⊆ all -> Base src ∉ Base <$> srcs -> keeps (file_is (object_path cache src) v) (builds srcs).
Proof using CV.
  intros Hc Hsrc Hsub Hn. induction srcs as [|s srcs IH]; cbn [build_each]; [auto with io|].
  assert (s ∈ all) as Hs by (apply Hsub; left). rewrite fmap_cons, not_elem_of_cons in Hn. destruct Hn as [Hne Hn].
  destruct (cc_files _ Hc src Hsrc) as [Hm Hu]. destruct (object_stem _ _ Hc Hsrc) as [E _]. apply keeps_bind.
  - eapply Build_keeps; [exact CV | exact Hm | exact Hu | | rewrite (outputs_of all) by done; by apply (object_apart all)].
    intros d Hd. apply (cc_work _ Hc d Hd). apply (under_outputs src). rewrite E. left.
  - intros _. apply keeps_bind; [|auto with io]. apply IH; [|done]. intros x Hx. apply Hsub. by right.
Qed.

Lemma builds_ok srcs : cache_ok srcs -> forall w objs w', builds srcs w = (Ok objs, w') ->
  objs = object_path cache <$> srcs /\ forall src, src ∈ srcs -> object_made w' src.
Proof using CV.
  induction srcs as [|src srcs IH]; intros Hc w objs w' E; cbn [build_each] in E.
  - injection E as <- <-. split; [done|]. intros src H. by apply not_elem_of_nil in H.
  - io_step E u w1. destruct u. io_step E l w2. injection E as <- <-. pose proof (cache_ok_tail _ _ Hc) as Hc'. destruct (IH Hc' _ _ _ E1) as [-> Hm]. split; [done|].
    intros s [->|Hs]%elem_of_cons; [|by apply Hm]. assert (src ∈ src :: srcs) as Hin by left.
    assert (forall d, work_dir h (file_options o cache src) d -> mine (path d "body.llc.o") /\
      forall p, p ∈ o_Out (effective (file_options o cache src)) :: side_files (effective (file_options o cache src)) -> outside d p) as Hw.
    { intros d Hd. destruct (cc_work _ Hc d Hd) as [Hl Ho]. split; [exact Hl|]. rewrite (outputs_of (src :: srcs)) by done. intros p Hp. by apply Ho, (under_outputs src). }
    destruct (Build_ok h t mine conv_main conv_profile goabi_json made _ _ _ Hw E0) as (input & obj & ir & Hf & _ & _ & Hmd).
    exists input, obj. split; [exact Hmd|].
    rewrite (out_is (src :: srcs)) in Hf by done. apply (keeps_run _ _ _ _ _ _ (builds_keep (src :: srcs) srcs src _ Hc Hin ltac:(intros x Hx; by right) ltac:(pose proof (cc_distinct _ Hc) as Hd; by inversion Hd)) E1). exact Hf.
Qed.
End Objects.

(** ** What goc go does *)

Section Package.
Variables (h : host) (mine : string -> Prop) (conv_main : list string -> world -> Z * list msg * world) (conv_profile : string -> io string).
Variables (goabi_json : GoAbi.goABIResult -> list Z) (made : Options -> list Z -> list Z -> Prop).
Context {CV : Converter mine conv_main conv_profile made}.
Variables (exe cwd : res string string) (sha256 : list Z -> list Z) (glob : string -> fs -> list string).

(** [ldd] and [go list] write no file. *)
Definition queries_only : Prop := forall c g, cl_bin c = "ldd" \/ cl_bin c = "go" /\ head (cl_args c) = Some "list" -> snd (h_exec h c g) = g.

Hypothesis Hq : queries_only.

Lemma list_ok dir arch q w x w1 : go_list h dir arch q w = (Ok x, w1) -> wo_fs w1 = wo_fs w.
Proof using Hq.
  unfold go_list. intros E. io_step E out w2. injection E as _ <-. apply wrap_ok in E0. unfold run_call in E0. set (c := mkCallIn _ _ _ _) in *.
  pose proof (Hq c (wo_fs w) ltac:(by right)) as H. destruct (h_exec h c (wo_fs w)) as [y g]. cbn in H. subst. by injection E0 as _ <-.
Qed.

Lemma tools_ok w t w1 : tools h exe w = (Ok t, w1) -> wo_fs w1 = wo_fs w /\ exists r, root h exe = Ok r /\ Locate h r = Ok t.
Proof using Hq.
  unfold tools. intros E. io_step E r w2. apply lift_ok in E0 as [Hr ->]. split.
  - pose proof (Require_keeps h r (wo_fs w) ltac:(intros c g Hc; apply Hq; by left) w eq_refl) as H. by rewrite E in H.
  - exists r. split; [done|]. unfold Require in E. io_step E t' w2. apply lift_ok in E0 as [Hl ->]. destruct (list_find _ _) as [[? [[? ?] ?]]|]; [done|].
    destruct (negb _); [done|]. destruct (run_call _ _ _) as [[out|e] w3]; [destruct (missing_libs out)|]; try done; injection E as <- _; exact Hl.
Qed.

Lemma cache_same_tmp o o' cache srcs : o_KeepTmp o' = o_KeepTmp o -> cache_ok h mine o cache srcs -> cache_ok h mine o' cache srcs.
Proof using. intros E [H1 H2 H3 H4 H5]. split; [done..| | done]. intros d Hd. apply H4. unfold work_dir in *. by rewrite <-E. Qed.

Lemma binary_same dir name ip out w bin w1 : binary_path h cwd dir name ip out w = (Ok bin, w1) -> w1 = w.
Proof using.
  unfold binary_path. destruct (String.eqb name "main"); [|by destruct (negb _); [|intros [= _ <-]]].
  intros E. io_step E p w2. apply lift_ok in E0 as [_ ->]. io_step E u w3. injection E as _ <-. unfold MkdirAll in E0. destruct (h_mkdir _ _); [by injection E0|done].
Qed.

(** C20. A successful [goc go], up to the go command: every C file of the package has been
    compiled, each object is there, in order, made from a [.gocobj] by the converter, and
    the last process is [go build] in the package's directory, with a -toolexec value for
    exactly these objects. *)
Theorem goBuild_objects s dir out objdir w w' adir r t (srcs := merge_sort str_le (c_files adir (wo_fs w))) (cache := cache_dir sha256 t adir objdir) :
  Abs cwd dir = Ok adir -> has_meta adir = false -> root h exe = Ok r -> Locate h r = Ok t -> cache_ok h mine (s_o s) cache srcs ->
  goBuild h conv_main conv_profile goabi_json exe cwd sha256 glob s dir out objdir w = (Ok (), w') ->
  exists name importPath hook bin w1 answer, let s' := pkg_settings s name importPath in let objs := object_path cache <$> srcs in
    srcs <> [] /\ (forall src, src ∈ srcs -> object_made made (s_o s') cache w1 src) /\
    ToolexecFlag exe (o_Pkg (s_o s')) objs = Ok hook /\ run_call h (build_call h adir (go_arch (s_o s)) hook bin) w1 = (Ok answer, w').
Proof using CV Hq.
  intros Ha Hmeta Hr Hl Hc E. unfold goBuild in E. destruct (negb _); [done|]. io_step E ad w1. apply lift_ok in E0 as [E0 ->]. rewrite Ha in E0. injection E0 as <-.
  io_step E t' w2. apply tools_ok in E0 as [Hf2 (r' & Hr' & Hl')]. rewrite Hr in Hr'. injection Hr' as <-. rewrite Hl in Hl'. injection Hl' as <-.
  io_step E name w3. apply list_ok in E0. io_step E ip w4. apply list_ok in E1. set (s' := pkg_settings s name ip) in *.
  io_step E objs w5. io_step E bin w6. io_step E hook w7. apply lift_ok in E4 as [Hh ->]. io_step E answer w8. injection E as <-. apply wrap_ok in E4.
  unfold go_objects in E2. io_step E2 l w9. unfold Glob in E5. rewrite Hmeta in E5. injection E5 as <- <-.
  rewrite E1, E0, Hf2 in E2. destruct (bool_decide (c_files adir (wo_fs w) = [])) eqn:En; [done|]. apply bool_decide_eq_false in En.
  io_step E2 nasm w10. io_step E2 u w11. io_step E2 u' w12. apply binary_same in E3 as ->. fold srcs cache in E2.
  apply (builds_ok h mine conv_main conv_profile goabi_json made) in E2 as [-> Hm]; [|eapply cache_same_tmp; [|exact Hc]; unfold s', pkg_settings; by destruct (seen s "pkg")].
  exists name, ip, hook, bin, w5, answer. cbv zeta. split_and!; [|exact Hm | exact Hh | exact E4].
  intros Hn. apply En. apply Permutation_nil_r. rewrite <-Hn. symmetry. apply merge_sort_Permutation.
Qed.
End Package.

(** ** A small package

    The tools of Compile.v on a directory with one C file. *)

Definition pkg_host : host := build_host (demo_ir "").
Definition pkg_files : fs := {["/w/add.c" := [1]; "/w/main.go" := [2]; "/w/sub/other.c" := [3]]}.
Definition pkg_settings0 : settings := productDefaults newSettings.

Definition pkg_build : res string () * world :=
  goBuild pkg_host (demo_conv (demo_ir "")) (demo_profile (demo_ir "")) (fun _ => []) (Ok "/g/bin/goc") (Ok "/") (demo_sha 32) (fun _ _ => []) pkg_settings0 "w" "" "/o"
    (mkWorld pkg_files []).

Lemma pkg_queries : queries_only pkg_host.
Proof.
  intros c g H. cbn [pkg_host build_host h_exec]. unfold demo_exec. destruct H as [->|[-> H]].
  - reflexivity.
  - rewrite String.eqb_refl, H. reflexivity.
Qed.

Lemma pkg_cache : cache_ok pkg_host (apart pkg_host (demo_sha 32)) (s_o pkg_settings0) "/o" ["/w/add.c"].
Proof.
  assert (forall p, under "/o" p = true -> under "/tmp/goc-build" p = false) as Hu.
  { intros p H. unfold under in H. apply orb_true_iff in H as [<-%String.eqb_eq|H]; [reflexivity|].
    apply prefix_split in H as [q ->]. reflexivity. }
  split; [repeat split; discriminate | by repeat constructor | apply NoDup_singleton | |].
  - intros d [= <-]. split; [apply demo_elf|]. intros p Hp. by apply demo_outside, Hu.
  - intros src ->%list_elem_of_singleton. split; [apply demo_apart_build; vm_compute; congruence | apply demo_untouched; vm_compute; congruence].
Qed.

Lemma pkg_srcs : merge_sort str_le (c_files "/w" pkg_files) = ["/w/add.c"].
Proof. vm_compute. reflexivity. Qed.

Lemma goBuild_objects_witness : exists w', pkg_build = (Ok (), w') /\
  exists name importPath hook bin w1 answer, let o := s_o (pkg_settings pkg_settings0 name importPath) in
    object_made (object_of pkg_host (fun _ => Ok demo_input) (demo_sha 32) (demo_sha 20)) o "/o" w1 "/w/add.c" /\
    ToolexecFlag (Ok "/g/bin/goc") (o_Pkg o) ["/o/add.goobj"] = Ok hook /\ run_call pkg_host (build_call pkg_host "/w" "amd64" hook bin) w1 = (Ok answer, w').
Proof.
  destruct pkg_build as [r w'] eqn:E. assert (r = Ok ()) as -> by (assert (r = pkg_build.1) as -> by (by rewrite E); vm_compute; reflexivity).
  exists w'. split; [reflexivity|].
  destruct (goBuild_objects pkg_host (apart pkg_host (demo_sha 32)) (demo_conv (demo_ir "")) (demo_profile (demo_ir "")) (fun _ => [])
    (object_of pkg_host (fun _ => Ok demo_input) (demo_sha 32) (demo_sha 20)) (CV := converter_main _ _ _ _ _ _ _)
    (Ok "/g/bin/goc") (Ok "/") (demo_sha 32) (fun _ _ => []) pkg_queries pkg_settings0 "w" "" "/o" (mkWorld pkg_files []) w' "/w" "/g" demo_tools)
    as (name & ip & hook & bin & w1 & answer & _ & Hm & Hh & Hr); [reflexivity | reflexivity | reflexivity | reflexivity | | exact E |].
  - cbn [wo_fs]. rewrite pkg_srcs. exact pkg_cache.
  - cbn [wo_fs] in Hm, Hh. rewrite pkg_srcs in Hm, Hh. exists name, ip, hook, bin, w1, answer. split; [apply (Hm "/w/add.c"); left|]. split; [exact Hh | exact Hr].
Defined.
