(* ===== verification/FuncInfoRoundtrip.v ===== *)
(** * FuncInfo symbols read back

    The layout of [funcinfo_bytes] (ObjWrite) and of [decodeFuncInfo] (ObjRead) agree
    on both layouts a release may use. *)

From Stdlib Require Import ZArith Lia Ascii.
From stdpp Require Import base list strings gmap sorting.
From S2P Require Import Prelude Text Link ObjWrite ObjNumber ObjRead ObjRoundtrip.

Definition inl_fields (n : LInlNode) (p x : Z) : list (nat * Z) :=
  [(4%nat, li_Parent n); (4%nat, li_File n); (4%nat, li_Line n); (4%nat, p); (4%nat, x); (4%nat, li_ParentPC n)].

(** What the decoder must see of an inlining node. *)
Definition seen_inl (w : wstate) (n : LInlNode) (y : RInlNode) : Prop :=
  exists p x, symRef w (Some (li_Func n)) = Ok (p, x) /\
    y = mkRInl (s32 (li_Parent n)) (s32 (li_File n)) (s32 (li_Line n)) (mkRef p x) (s32 (li_ParentPC n)).

Definition inl_entry (w : wstate) (n : LInlNode) (b : list Z) : Prop :=
  exists p x, symRef w (Some (li_Func n)) = Ok (p, x) /\ b = fields_bytes (inl_fields n p x).

Lemma inl_entries w ns : forall b b', rfold (inl_bytes w) b ns = Ok b' ->
  exists es, Forall2 (inl_entry w) ns es /\ b' = b ++ concat es.
Proof.
  induction ns as [|n ns IH]; intros b b' E; cbn [rfold] in E.
  - injection E as <-. exists []. by rewrite app_nil_r.
  - ok_step E b1. unfold inl_bytes in Eb1. ok_step Eb1 q. destruct q as [p x]. injection Eb1 as <-.
    destruct (IH _ _ E) as (es & He & ->). exists (fields_bytes (inl_fields n p x) :: es). split.
    + constructor; [by exists p, x | done].
    + cbn [concat]. by rewrite <-!app_assoc.
Qed.

(** The fixed part of the record. *)
Definition head_bytes (m : objMeta) (f : FuncInfo) : list Z :=
  le32 (fi_Args f) ++ le32 (fi_Locals f) ++ [fi_FuncID f; fi_FuncFlag f; 0; 0] ++
  (if om_FuncInfoStartLine m then le32 (fi_StartLine f) else []).

Lemma fu_place b pre z suf o : b = pre ++ le32 z ++ suf -> o = zlen pre -> fu b o = u32 z.
Proof. intros -> ->. unfold fu, le32. by rewrite le_at_place. Qed.

Lemma decode_inl_ok w n e b pre suf o : inl_entry w n e -> b = pre ++ e ++ suf -> o = zlen pre -> seen_inl w n (decode_inl b o).
Proof.
  intros (p & x & Hs & ->) -> ->. exists p, x. split; [done|]. destruct (symRef_u32 _ _ _ _ Hs) as [Hp Hx].
  unfold decode_inl, fu. set (b := pre ++ _ ++ suf). assert (b = pre ++ fields_bytes (inl_fields n p x) ++ suf) as Hb by done.
  rewrite (field_read 4 b pre (inl_fields n p x) suf 0 (li_Parent n)), (field_read 4 b pre (inl_fields n p x) suf 1 (li_File n)),
    (field_read 4 b pre (inl_fields n p x) suf 2 (li_Line n)), (field_read 4 b pre (inl_fields n p x) suf 3 p),
    (field_read 4 b pre (inl_fields n p x) suf 4 x), (field_read 4 b pre (inl_fields n p x) suf 5 (li_ParentPC n))
    by (done || (cbn; lia)).
  cbn [default from_option id]. change (wrap (8 * Z.of_nat 4)) with u32. rewrite Hp, Hx. unfold s32, u32. by rewrite !swrap_wrap by lia.
Qed.

Lemma seq_read {A B} (f : nat -> B) (seen : A -> B -> Prop) xs :
  (forall j x, xs !! j = Some x -> seen x (f j)) -> Forall2 seen xs (f <$> seq 0 (length xs)).
Proof.
  intros H. apply Forall2_same_length_lookup. split; [by rewrite length_fmap, length_seq|].
  intros j x y Hx [k [-> Hk]]%list_lookup_fmap_Some. apply lookup_seq in Hk as [-> _]. by apply H.
Qed.

(** The two tables of the record, at a known place. *)
Lemma files_table b pre files suf o : b = pre ++ concat (le32 <$> files) ++ suf -> o = zlen pre ->
  (fun k => fu b (o + 4 * Z.of_nat k)) <$> seq 0 (length files) = u32 <$> files.
Proof.
  intros Eb ->. assert (forall xs ys, Forall2 (fun z y => y = u32 z) xs ys -> ys = u32 <$> xs) as Hmap by (induction 1; cbn; congruence).
  apply Hmap, seq_read. intros j z Hj.
  destruct (entry_at 4 pre (le32 <$> files) suf j (le32 z)) as (p & q & E & Hp).
  - apply Forall_fmap, Forall_true. intros. apply zlen_le32.
  - by rewrite list_lookup_fmap, Hj.
  - by apply (fu_place b p z q); [rewrite Eb, E|].
Qed.

Lemma inl_table w ns es b pre suf o : Forall2 (inl_entry w) ns es -> b = pre ++ concat es ++ suf -> o = zlen pre ->
  Forall2 (seen_inl w) ns ((fun k => decode_inl b (o + 24 * Z.of_nat k)) <$> seq 0 (length ns)).
Proof.
  intros He Eb ->. apply seq_read. intros j n Hj. destruct (Forall2_lookup_l _ _ _ _ _ He Hj) as (e & Hej & Hn).
  destruct (entry_at 24 pre es suf j e) as (p & q & E & Hp); [|done|].
  - eapply Forall2_Forall_r; [exact He|]. apply Forall_true. by intros ? ? (? & ? & _ & ->).
  - by apply (decode_inl_ok w n e b p q); [| rewrite Eb, E |].
Qed.

(** C32. Round trip of FuncInfo: for every function whose file and inlining lists are
    shorter than 2^32, decoding the bytes the writer makes, in the release's layout,
    gives its argument and local sizes, id, flags, start line, sorted files and the
    inlining tree with the references of its functions. *)
Theorem funcinfo_roundtrip m w f b :
  funcinfo_bytes m w f = Ok b -> zlen (sortedFiles (fi_UsedFiles f)) < 2 ^ 32 -> zlen (fi_InlTree f) < 2 ^ 32 ->
  exists ns, decodeFuncInfo b (om_FuncInfoStartLine m) =
      Ok (mkDFI (u32 (fi_Args f)) (u32 (fi_Locals f)) (fi_FuncID f) (fi_FuncFlag f)
            (if om_FuncInfoStartLine m then s32 (fi_StartLine f) else 0) (u32 <$> sortedFiles (fi_UsedFiles f)) ns) /\
    Forall2 (seen_inl w) (fi_InlTree f) ns.
Proof.
  unfold funcinfo_bytes. set (files := sortedFiles (fi_UsedFiles f)). intros (es & He & Hb)%inl_entries Hf Hi.
  set (h := head_bytes m f). set (o := if om_FuncInfoStartLine m then 16 else 12).
  assert (zlen h = o) as Ho by (unfold h, o, head_bytes; by destruct (om_FuncInfoStartLine m)).
  assert (b = h ++ le32 (zlen files) ++ concat (le32 <$> files) ++ le32 (zlen (fi_InlTree f)) ++ concat es) as Eb
    by (rewrite Hb; unfold h, head_bytes; by rewrite <-!app_assoc).
  assert (Forall (fun b => zlen b = 4) (le32 <$> files)) as H4 by (apply Forall_fmap, Forall_true; intros; apply zlen_le32).
  assert (Forall (fun b => zlen b = 24) es) as H24
    by (eapply Forall2_Forall_r; [exact He|]; apply Forall_true; intros ? ? (? & ? & _ & ->); done).
  assert (zlen es = zlen (fi_InlTree f)) as Hes by (unfold zlen; by rewrite (Forall2_length _ _ _ He)).
  assert (zlen (le32 <$> files) = zlen files) as Hfs by (unfold zlen; by rewrite length_fmap).
  assert (fu b o = zlen files) as Hn by (rewrite (fu_place b h (zlen files) _ o Eb), u32_small by (unfold is_u32; zpos; lia); done).
  assert (b = (h ++ le32 (zlen files)) ++ concat (le32 <$> files) ++ le32 (zlen (fi_InlTree f)) ++ concat es) as Eb1
    by (by rewrite Eb, <-!app_assoc).
  assert (b = (h ++ le32 (zlen files) ++ concat (le32 <$> files)) ++ le32 (zlen (fi_InlTree f)) ++ concat es) as Eb2
    by (by rewrite Eb, <-!app_assoc).
  assert (b = (h ++ le32 (zlen files) ++ concat (le32 <$> files) ++ le32 (zlen (fi_InlTree f))) ++ concat es ++ []) as Eb3
    by (by rewrite Eb, app_nil_r, <-!app_assoc).
  assert (zlen b = o + 4 + 4 * zlen files + 4 + 24 * zlen (fi_InlTree f)) as Hlen.
  { rewrite Eb, !zlen_app, !zlen_le32, Ho, (zlen_concat 4), (zlen_concat 24), Hes, Hfs by done. lia. }
  assert (fu b (o + 4 + 4 * zlen files) = zlen (fi_InlTree f)) as Hni.
  { rewrite (fu_place b _ (zlen (fi_InlTree f)) _ _ Eb2), u32_small; [done | unfold is_u32; zpos; lia |].
    rewrite !zlen_app, zlen_le32, Ho, (zlen_concat 4), Hfs by done. lia. }
  zpos. unfold decodeFuncInfo. fold o. rewrite Hn, Hni. rewrite !(proj2 (Z.ltb_ge _ _)) by lia.
  rewrite (eq_refl : zlen files = Z.of_nat (length files)), (eq_refl : zlen (fi_InlTree f) = Z.of_nat (length (fi_InlTree f))), !Nat2Z.id.
  rewrite (files_table b _ files _ (o + 4) Eb1) by (rewrite zlen_app, zlen_le32; lia).
  eexists. split; [|eapply (inl_table w (fi_InlTree f) es b _ [] _ He Eb3)].
  - f_equal. f_equal.
    + by rewrite (fu_place b [] (fi_Args f) _ 0 Eb).
    + rewrite (fu_place b (le32 (fi_Args f)) (fi_Locals f) (drop 8 b)); [done | | done]. by rewrite Eb.
    + by rewrite Eb.
    + by rewrite Eb.
    + destruct (om_FuncInfoStartLine m) eqn:Es; [|done]. unfold h, head_bytes in Eb. rewrite Es in Eb.
      rewrite (fu_place b (le32 (fi_Args f) ++ le32 (fi_Locals f) ++ [fi_FuncID f; fi_FuncFlag f; 0; 0]) (fi_StartLine f) (drop 16 b));
        [unfold s32, u32; by rewrite swrap_wrap by lia | | done]. by rewrite Eb.
  - rewrite !zlen_app, !zlen_le32, Ho, (zlen_concat 4), Hfs by done. unfold zlen. lia.
Qed.

Definition demo_num : wstate := mkW demo_link {[ 2%nat := (2147483647, 2) ]} ∅ [] [] [] [] [].
Definition demo_info : FuncInfo :=
  mkFI 16 32 0 4 7 None None None None [] [] {[ 0; 3 ]} [mkLInl (-1) 0 9 2%nat 1] ∅ true None None None.

Lemma funcinfo_roundtrip_witness :
  exists b ns, funcinfo_bytes demo_meta demo_num demo_info = Ok b /\
    decodeFuncInfo b true = Ok (mkDFI 16 32 0 4 7 [0; 3] ns) /\ Forall2 (seen_inl demo_num) (fi_InlTree demo_info) ns.
Proof.
  destruct (funcinfo_bytes demo_meta demo_num demo_info) as [b|] eqn:E; [|exfalso; vm_compute in E; discriminate].
  destruct (funcinfo_roundtrip demo_meta demo_num demo_info b E) as (ns & H1 & H2); [vm_compute; reflexivity..|].
  exists b, ns. split; [reflexivity | split; [exact H1 | exact H2]].
Defined.
