(* ===== verification/EndToEnd.v ===== *)
(** * From a [.gocobj] to the bytes the Go linker reads

    Composes the converter (Assemble.v), the object writer (ObjWrite.v) and the
    reader (ObjRead.v): what the reader finds in the file that [write_object]
    returns for each function of an object, on both architectures. *)

From Stdlib Require Import ZArith Lia Ascii.
From stdpp Require Import base list strings gmap sorting.
From S2P Require Import Prelude Text Codec Format Elf Layout PcTab Link ObjWrite ObjNumber Convert Arm64Proofs Data DataProofs Assemble AssembleProofs ObjRead ObjRoundtrip.

(** The aux entry of type [ty] of the entries [zs] leads to a pc-value table that
    decodes, with instructions of [q] bytes, to the step function of [ents] over
    [size] bytes. *)
Definition table_read (q : Z) (m : objMeta) (r : Reader) (zs : list RAux) (ty : string) (size : Z) (ents : list PCEntry) : Prop :=
  exists a n b sp, a ∈ zs /\ ra_Type a = u8 (at_ (om_AuxTypes m) ty) /\ resolve r (ra_Sym a) = DSym n /\ RData r n = Some b /\
    pc_spans q b = Some sp /\ tiles 0 size sp /\
    forall s pc, s ∈ sp -> sn_lo s <= pc < sn_hi s -> sn_val s = value_at ents pc.

(** The tables of a function, by the type of their aux entry. *)
Definition fn_tables (f : File) (t : Func) : list (string * list PCEntry) :=
  [("Pcsp", sp_entries t); ("Pcfile", file_entries (file_index f) t); ("Pcline", line_entries t); ("Pcdata", stack_index t)].

(** The size of the smallest instruction. *)
Definition quantum (c : converter) : Z := if cv_arm64 c then 4 else 1.

(** What the reader finds of an arm64 function: code [b] and relocations [ys] for the
    ELF code [p] and relocations [rs]. *)
Definition read_one (m : objMeta) (x : fn) (r : rela) (y : RReloc) : Prop :=
  rr_Off y = s32 (re_Off r - cf_off x) /\
  exists z t, a64_single (re_Type r) = Some z /\ om_Relocs m !! sz_Type z = Some t /\ rr_Type y = u16 t /\ rr_Siz y = u8 (sz_Siz z).

Definition read_two (m : objMeta) (x : fn) (r n : rela) (y : RReloc) : Prop :=
  rr_Off y = s32 (re_Off r - cf_off x) /\ rr_Siz y = 8 /\
  exists typ t, a64_double (re_Type r) (re_Type n) = Some typ /\ om_Relocs m !! typ = Some t /\ rr_Type y = u16 t.

Definition a64_read (m : objMeta) (x : fn) (rs : list rela) (p b : list Z) (ys : list RReloc) : Prop :=
  exists mine ys', mine ≡ₚ filter (fun r => covers (re_Off r) x = true) rs /\ Sorted rela_le mine /\ ys ≡ₚ ys' /\
    accounts (read_one m x) (read_two m x) mine ys' /\ clears (on_words a64_field x mine) (on_words a64_imm x mine) p b.

(** What the reader finds for the function [x]: a symbol of its Go name and calling
    convention, its code, the relocations that account for the ELF relocations of it
    (on amd64 one each, on arm64 with pairs and cleared immediates), and its tables. *)
Definition reads_back (m : objMeta) (r : Reader) (c : converter) (f : File) (x : fn) : Prop :=
  exists k y sc d rs p code ys zs,
    RSym_at r k = Some y /\ rs_Name y = bytes_of_string (if om_TrimInlineHash m then TrimInlineHash (fn_name c x) else fn_name c x) /\
    rs_ABI y = cf_abi x /\
    elf_section_at (cv_ef c) (cf_sec x) = Some sc /\ es_data sc = Some d /\ relas c (cf_sec x) = Ok rs /\
    slice_ d (cf_off x) (cf_off x + fn_TextSize (cf_tab x)) = Some p /\ RData r k = Some code /\ Relocs r k = Some ys /\
    (if cv_arm64 c then a64_read m x rs p code ys
     else code = p /\ (rr_Off <$> ys) ≡ₚ ((fun q => s32 (re_Off q - cf_off x)) <$> filter (fun q => covers (re_Off q) x = true) rs)) /\
    Auxs r k = Some zs /\
    Forall (fun t => entries_ok (quantum c) (fn_TextSize (cf_tab x)) (snd t) ->
                     table_read (quantum c) m r zs (fst t) (fn_TextSize (cf_tab x)) (snd t)) (fn_tables f (cf_tab x)).

Lemma s32_s32 z : s32 (s32 z) = s32 z.
Proof. apply s32_small. unfold s32, swrap. pose proof (Z.mod_pos_bound (z + 2 ^ (32 - 1)) (2 ^ 32)). lia. Qed.

Lemma pcbytes_nonempty minLC size ents : 0 < size -> zlen (pcbytes minLC size ents) <> 0.
Proof.
  intros H. unfold pcbytes. rewrite (proj2 (Z.leb_gt _ _)) by lia. destruct (foldl _ _ _) as [a b]. rewrite zlen_app. change (zlen [0]) with 1. zpos. lia.
Qed.

Section Read.
Context (m : objMeta) (w : wstate) (r : Reader).
Hypothesis Hm : rd_Meta r = m.
Hypothesis Hn : rd_nsym r = [zlen (w_defs w); zlen (w_hashed64 w); zlen (w_hashed w); zlen (w_nonpkgdefs w); zlen (w_nonpkgrefs w)].
Hypothesis Hsz : zlen (all_syms w) < 2 ^ 31.
Hypothesis Hpk : pkgs_ok m.
Hypothesis Hseen : forall k i, all_syms w !! k = Some i -> exists s, l_syms (w_link w) !! i = Some s /\ seen m w r k i s.

(** A pc-value table among the aux symbols is read back. *)
Lemma table_seen rl q D i s zs ty size ents j : rl_MinLC rl = q -> 0 < q -> (q | size) -> 0 < size < 2 ^ 63 -> defs_ok m D w [] -> j ∈ D ->
  l_syms (w_link w) !! j = Some (pc_sym (pcbytes (rl_MinLC rl) size ents)) -> (at_ (om_AuxTypes m) ty, Some j) ∈ aux m w i s ->
  Forall2 (seen_aux w) (aux m w i s) zs -> entries_ok q size ents -> table_read q m r zs ty size ents.
Proof using Hm Hn Hsz Hpk Hseen.
  intros Hlc Hq Hdiv Hsize HD HjD Hj Haux Hzs Hents. rewrite Hlc in Hj.
  destruct (pcbytes_spans q size ents Hq Hsize Hdiv Hents) as (sp & Hsp & Ht & Hv).
  apply list_elem_of_lookup in Haux as [n0 Hn0]. destruct (Forall2_lookup_l _ _ _ _ _ Hzs Hn0) as (a & Ha & (p & x & Href & ->)).
  destruct (HD j HjD) as (p0 & k0 & Hnum & Hdp). destruct (resolve_dpoints m w r Hm Hn Hsz Hpk j p0 k0 Hdp) as (n & Hres & Hdef).
  cbn [snd] in Href. unfold symRef in Href. rewrite Hnum in Href. injection Href as <- <-.
  assert (all_syms w !! n = Some j) as Hall by (unfold all_syms; by apply lookup_app_l_Some).
  destruct (Hseen n j Hall) as (s' & Hs' & _ & Hdata). rewrite Hj in Hs'. injection Hs' as <-.
  destruct Hdata as (Hd & _); [by apply lookup_lt_Some in Hdef|].
  eexists _, _, _, sp. split_and!; [by eapply list_elem_of_lookup_2 | done | exact Hres | exact Hd | exact Hsp | exact Ht | exact Hv].
Qed.
End Read.

(** *** The tables among the aux symbols *)

(** The field of a table of the function's record: what the writer calls it. *)
Definition table_field (rl : release) (fi : FuncInfo) (ty : string) : option sid :=
  if String.eqb ty "Pcsp" then fi_Pcsp fi else if String.eqb ty "Pcfile" then fi_Pcfile fi
  else if String.eqb ty "Pcline" then fi_Pcline fi else default None (fi_Pcdata fi !! Z.to_nat (pcStackMap rl)).

Lemma sized_elem l j s : l_syms l !! j = Some s -> s_Size s <> 0 -> sized l (Some j) = [j].
Proof. intros Hj Hs. unfold sized. rewrite Hj. by rewrite (proj2 (Z.eqb_neq _ _)). Qed.

Lemma field_visited rl fi ty j : ty ∈ ["Pcsp"; "Pcfile"; "Pcline"; "Pcdata"] -> table_field rl fi ty = Some j -> j ∈ pcdata_syms fi.
Proof.
  intros Hty H. unfold pcdata_syms. apply list_elem_of_omap. exists (Some j). split; [|done].
  repeat (apply elem_of_cons in Hty as [->|Hty]; [cbn in H|]); [rewrite H; set_solver.. | |by apply not_elem_of_nil in Hty].
  apply elem_of_app. right. destruct (fi_Pcdata fi !! _) as [o|] eqn:E; [|done]. cbn in H. subst o. by eapply list_elem_of_lookup_2.
Qed.

Lemma field_aux rl m w i s fi ty j y : s_Func s = Some fi -> ty ∈ ["Pcsp"; "Pcfile"; "Pcline"; "Pcdata"] ->
  table_field rl fi ty = Some j -> l_syms (w_link w) !! j = Some y -> s_Size y <> 0 -> (at_ (om_AuxTypes m) ty, Some j) ∈ aux m w i s.
Proof.
  intros Hf Hty H Hj Hs. unfold aux. rewrite Hf. pose proof (sized_elem _ _ _ Hj Hs) as Hz. rewrite !elem_of_app.
  repeat (apply elem_of_cons in Hty as [->|Hty]; [cbn in H|]); [rewrite H, Hz; set_solver.. | |by apply not_elem_of_nil in Hty].
  do 9 right. apply list_elem_of_fmap. exists (Some j). split; [done|]. destruct (fi_Pcdata fi !! _) as [o|] eqn:E; [|done]. cbn in H. subst o.
  by eapply list_elem_of_lookup_2.
Qed.

(** The tables that [info_ok] promises. *)
Lemma info_tables rl f t s l fi : info_ok rl (file_index f) t s l -> s_Func s = Some fi ->
  Forall (fun p => is_table rl l (s_Size s) (table_field rl fi (fst p)) (snd p) /\ fst p ∈ ["Pcsp"; "Pcfile"; "Pcline"; "Pcdata"]) (fn_tables f t).
Proof.
  intros [(fi' & Hf & _ & _ & H1 & H2 & H3 & o & Ho & H4) _] Hf'. rewrite Hf in Hf'. injection Hf' as <-. unfold fn_tables, table_field.
  repeat apply Forall_cons_2; cbn [fst snd String.eqb]; [split; [done | set_solver]..| |done].
  split; [|set_solver]. cbn. by rewrite Ho.
Qed.

Lemma Forall2_perm {A B} (P : A -> B -> Prop) l k l' : Forall2 P l k -> l ≡ₚ l' -> exists k', k ≡ₚ k' /\ Forall2 P l' k'.
Proof.
  intros HF Hp. revert k HF. induction Hp as [|a l l' _ IH|a b l|l1 l2 l3 _ IH1 _ IH2]; intros k HF.
  - exists k. by split.
  - apply Forall2_cons_inv_l in HF as (b & k1 & Hb & HF & ->). destruct (IH k1 HF) as (k2 & Hk & HF2). exists (b :: k2). split; [by rewrite Hk | by constructor].
  - apply Forall2_cons_inv_l in HF as (b1 & k1 & Hb1 & HF & ->). apply Forall2_cons_inv_l in HF as (b2 & k2 & Hb2 & HF & ->).
    exists (b2 :: b1 :: k2). split; [by constructor | by repeat constructor].
  - destruct (IH1 k HF) as (k1 & H1 & HF1). destruct (IH2 k1 HF1) as (k2 & H2 & HF2). exists k2. split; [by rewrite H1 | done].
Qed.

Lemma reloc_offsets m w rs ys : Forall2 (seen_reloc m w) rs ys -> rr_Off <$> ys = (fun q => s32 (lr_Off q)) <$> rs.
Proof. induction 1 as [|q y rs ys (t & p & i & _ & _ & ->) _ IH]; [done|]. cbn. by rewrite IH. Qed.

Lemma relocs_of_perm m s : relocs_of m s ≡ₚ s_R s.
Proof. unfold relocs_of. destruct (om_SortRelocs m); [apply merge_sort_Permutation | done]. Qed.

Lemma reloc_of_offsets calls x rs rels : Forall2 (reloc_of calls x) rs rels ->
  (fun q => s32 (lr_Off q)) <$> rels = (fun q => s32 (re_Off q - cf_off x)) <$> rs.
Proof. induction 1 as [|q rel rs rels (H & _) _ IH]; [done|]. cbn. by rewrite IH, H, s32_s32. Qed.

(** The relocations of an arm64 symbol, as they are read. *)
Lemma a64_code_read m w x rs p s ys : arm64_code x rs p s -> Forall2 (seen_reloc m w) (relocs_of m s) ys -> a64_read m x rs p (s_P s) ys.
Proof.
  intros (mine & Hperm & Hs & Hacc & Hcl) HF.
  destruct (Forall2_perm _ _ _ _ HF (relocs_of_perm m s)) as (ys' & Hys & HF'). exists mine, ys'. split_and!; try done.
  eapply (accounts_map _ _ _ _ (seen_reloc m w)); [| | exact Hacc | exact HF'].
  - intros r q y (H1 & H2 & _) (t & a & b & Ht & _ & ->). split; [cbn; by rewrite H1, s32_s32|]. by eexists _, t.
  - intros r n q y (H1 & H2 & H3) (t & a & b & Ht & _ & ->). split_and!; [cbn; by rewrite H1, s32_s32 | cbn; by rewrite H3 | by eexists _, t].
Qed.

(** *** The functions of a converter *)

Lemma add_fns_tabs pkg tu m ts : forall s s', add_fns pkg tu m s ts = Ok s' -> cf_tab <$> ct_fns s' = (cf_tab <$> ct_fns s) ++ ts.
Proof.
  induction ts as [|t ts IH]; intros s s' E; cbn [add_fns] in E; [injection E as <-; by rewrite app_nil_r|]. ok_step E s1.
  rewrite (IH _ _ E). unfold add_fn in Es1. destruct (m !! fn_Name t) as [y|]; [|done]. destruct (_ <? _); [done|]. injection Es1 as <-.
  cbn [ct_fns]. rewrite fmap_app, <-app_assoc. done.
Qed.

Lemma newConverter_tabs p f pkg goarch libcalls ef c : newConverter p f pkg goarch libcalls ef = Ok c -> cf_tab <$> cv_fns c = f_Funcs f.
Proof.
  unfold newConverter. destruct (_ =? 0); [done|]. destruct (negb _); [done|].
  destruct (ef_symbols ef) as [syms| |]; [|done..]. intros E. ok_step E s. injection E as <-. exact (add_fns_tabs _ _ _ _ _ _ Es).
Qed.

Lemma u16_abi a : abi_known a -> u16 a = a.
Proof. by intros [-> | ->]. Qed.

(** What is assumed of a function: its bytes lie in the address space, in whole
    instructions, and the section holds bytes. *)
Definition fn_plain (c : converter) (x : fn) : Prop :=
  is_u64 (cf_off x) /\ 0 < fn_TextSize (cf_tab x) < 2 ^ 63 /\ (quantum c | fn_TextSize (cf_tab x)) /\
  forall sc d, elf_section_at (cv_ef c) (cf_sec x) = Some sc -> es_data sc = Some d -> Forall is_u8 d.

Lemma slice_u8 d lo hi p : slice_ d lo hi = Some p -> Forall is_u8 d -> Forall is_u8 p.
Proof. unfold slice_. destruct (_ && _); [|done]. intros [= <-] H. by apply Forall_take, Forall_drop. Qed.

(** The code of a function and its relocations, in the file. *)
Lemma code_read c calls x s m w ys : fn_plain c x -> code_ok c calls x s -> Forall2 (seen_reloc m w) (relocs_of m s) ys ->
  exists sc d rs p, elf_section_at (cv_ef c) (cf_sec x) = Some sc /\ es_data sc = Some d /\ relas c (cf_sec x) = Ok rs /\
    slice_ d (cf_off x) (cf_off x + fn_TextSize (cf_tab x)) = Some p /\ s_Size s = fn_TextSize (cf_tab x) /\
    if cv_arm64 c then a64_read m x rs p (s_P s) ys
    else s_P s = p /\ (rr_Off <$> ys) ≡ₚ ((fun q => s32 (re_Off q - cf_off x)) <$> filter (fun q => covers (re_Off q) x = true) rs).
Proof.
  intros (Ho & Hsize & _ & Hb) (sc & d & rs & p & Hsc & Hd & Hrs & Hp & Hcode) HR.
  assert (is_u64 (fn_TextSize (cf_tab x))) as Hsz64 by (unfold is_u64; lia).
  pose proof (slice_exact _ _ _ _ Ho Hsz64 Hp) as Hex. rewrite Hex in Hp. pose proof (slice_len _ _ _ _ Hp) as (_ & _ & Hlen).
  exists sc, d, rs, p. split_and!; try done; destruct (cv_arm64 c).
  - destruct Hcode as [HS _]; [done | by eapply slice_u8, Hb | lia | lia].
  - destruct Hcode as [HS _]. lia.
  - destruct Hcode as [_ H]; [done | by eapply slice_u8, Hb | lia |]. by eapply a64_code_read.
  - destruct Hcode as (_ & -> & HF). split; [done|]. rewrite (reloc_offsets _ _ _ _ HR), <-(reloc_of_offsets _ _ _ _ HF).
    apply fmap_Permutation, relocs_of_perm.
Qed.

Lemma assembled_read rl c f m l w vs r x : conv_ok c -> rl_MinLC rl = quantum c -> pkgs_ok m -> numbered m l = Ok (w, vs) -> rd_Meta r = m ->
  rd_nsym r = [zlen (w_defs w); zlen (w_hashed64 w); zlen (w_hashed w); zlen (w_nonpkgdefs w); zlen (w_nonpkgrefs w)] ->
  zlen (all_syms w) < 2 ^ 31 ->
  (forall k i, all_syms w !! k = Some i -> exists s, l_syms (w_link w) !! i = Some s /\ seen m w r k i s) ->
  x ∈ cv_fns c -> fn_plain c x -> assembled rl c f l x -> reads_back m r c f x.
Proof.
  intros Hc Hlc Hpk Hnum Hm Hns Hcount Hseen Hx Hplain (i & s & _ & Hi & Hs & Hname & Habi & Hkind & Hst & Hcode & Hinfo).
  destruct (numbered_ok m l w vs Hnum) as (_ & Hg & Hdef). destruct (numbered_defs m l w vs Hnum) as (D & HD & _ & HDp).
  assert (i ∈ defined w) as [k Hk]%list_elem_of_lookup by (apply Hdef; set_solver).
  destruct (Hseen k i) as (s' & Hs' & (y & Hy & (kind & align & _ & _ & Ey)) & Hdata); [unfold all_syms; by apply lookup_app_l_Some|].
  rewrite (gr_syms _ _ Hg i s Hs) in Hs'. injection Hs' as <-.
  destruct Hdata as (HP & (ys & Hys & HR) & (zs & Hzs & HA)); [by apply lookup_lt_Some in Hk|].
  destruct (code_read _ _ _ _ _ _ _ Hplain Hcode HR) as (sc & d & rs & p & Hsc & Hd & Hrs & Hp & HS' & Hread).
  destruct Hplain as (_ & Hsize & Hdiv & _). assert (0 < quantum c) as Hq by (unfold quantum; by destruct (cv_arm64 c)).
  exists (Z.of_nat k), y, sc, d, rs, p, (s_P s), ys, zs. split_and!; try done.
  - rewrite Ey. cbn [rs_Name]. unfold sym_name_. by rewrite Hname.
  - rewrite Ey. cbn [rs_ABI]. unfold sym_abi. rewrite Hst, Habi. apply u16_abi. destruct Hc as [[Ha _] _]. rewrite Forall_forall in Ha. by apply Ha.
  - destruct (in_func _ _ _ _ _ Hinfo) as (fi & Hf & _). pose proof (info_tables _ _ _ _ _ _ Hinfo Hf) as HT. rewrite HS' in HT.
    eapply Forall_impl; [exact HT|]. intros [ty ents] [(j & Hj & Hjs) Hty] Hents. cbn [fst snd] in *.
    pose proof (gr_syms _ _ Hg j _ Hjs) as Hjw.
    eapply (table_seen m w r Hm Hns Hcount Hpk Hseen rl _ D i s zs ty _ ents j Hlc Hq Hdiv Hsize HD); [| exact Hjw | | exact HA | exact Hents].
    + apply (HDp i s fi j Hi Hs); [unfold is_text; by rewrite Hkind | done | by eapply field_visited].
    + eapply field_aux; [exact Hf | exact Hty | exact Hj | exact Hjw |]. cbn [pc_sym s_Size]. apply pcbytes_nonempty. lia.
Qed.


(** *** A small conversion *)

Definition e2e_fn (name : string) (size : Z) : Func :=
  mkFunc name size 16 0 1 0 0 0 0 3 0 [] (Some [mkPCT PCSPDelta [mkPC 0 0; mkPC 4 16]]) None None 0 0 0.

Definition e2e_gocobj : File :=
  mkFile (mkHeader 1 4 1 0 "" "") ["a.c"] [e2e_fn "f" 16; e2e_fn "g" 8] [mkReloc "f" 9 RCall 4 "g" 0 0] [] [] [] ∅ ∅ ∅ ∅ ∅.

Definition e2e_elf : efile :=
  mkElf EM_X86_64
    [mkSec "" 0 0 0 None; mkSec ".text" 1 6 40 (Some (Z.of_nat <$> seq 0 40));
     mkSec ".rela.text" 4 0 24 (Some (demo_rela 9 R_X86_64_PLT32 2 (-4)))]
    (SymOk [Elf.mkSym "f" 18 1 0 16; Elf.mkSym "g" 18 1 32 8]).

Definition e2e_release : release :=
  mkRelease "go1.24" true 1 (list_to_map [("UnsafePoint", 0); ("StackMapIndex", 1)]) ObjRoundtrip.demo_conf demo_meta.

Definition e2e_conv : converter := Eval vm_compute in
  match newConverter "a.o" e2e_gocobj "main" "amd64" "" e2e_elf with Ok c => c | Fail _ => demo_data end.

Definition e2e_file : list Z := Eval vm_compute in
  match write_object e2e_release (demo_hash 32) (demo_hash 20) e2e_conv e2e_gocobj demo_header with Ok b => b | Fail _ => [] end.

Lemma e2e_converter : newConverter "a.o" e2e_gocobj "main" "amd64" "" e2e_elf = Ok e2e_conv.
Proof. vm_compute. reflexivity. Qed.

Lemma e2e_written : write_object e2e_release (demo_hash 32) (demo_hash 20) e2e_conv e2e_gocobj demo_header = Ok e2e_file.
Proof. vm_compute. reflexivity. Qed.

