(* ===== verification/QjsProcess.v ===== *)
(** * Child processes of the QuickJS command line

    Models src/ports/quickjs/cli/std_os.go: the Go side of the host callbacks of [os.exec]
    and [os.waitpid].  Requests come from C in shared memory; any number of goroutines may
    be in a call at a time.  A call is a program counter, the table of children is behind a
    mutex whose critical sections are the atomic steps, and each child has a goroutine that
    waits for the process and then closes the child's [done] channel.  The system is a
    parameter: what starting a process answers, when a process ends, and which pid is
    free. *)

From Stdlib Require Import ZArith Lia Ascii.
From stdpp Require Import base list strings gmap relations.
From S2P Require Import Prelude Text.

(** ** C memory

    The bytes of the address space that are mapped; [None] of a read is a segmentation
    fault, which ends the program. *)

Abbreviation mem := (gmap Z Z).

(** The bytes up to a zero; [fuel] is larger than the longest string. *)
Fixpoint c_bytes (fuel : nat) (m : mem) (a : Z) : option (list Z) :=
  match fuel with
  | O => None
  | S fuel => b ← m !! a; if b =? 0 then Some [] else l ← c_bytes fuel m (a + 1); Some (b :: l)
  end.

(** Every mapped byte may belong to the string. *)
Definition gocQjsCliCString (m : mem) (address : Z) : option string :=
  if address =? 0 then Some "" else string_of_bytes <$> c_bytes (S (size m)) m address.

(** A little-endian word of [n] bytes. *)
Fixpoint load_le (n : nat) (m : mem) (a : Z) : option Z :=
  match n with O => Some 0 | S n => b ← m !! a; r ← load_le n m (a + 1); Some (b + 256 * r) end.

(** [unsafe.Slice] of [n] elements of [size] bytes does not panic. *)
Definition slice_ok (a size n : Z) : bool := (0 <=? n) && ((n =? 0) || (negb (a =? 0) && (size * n <=? 2 ^ 64 - a))).

(** The elements of such a slice. *)
Definition load_array (m : mem) (a : Z) (size : nat) (n : Z) : option (list Z) :=
  if slice_ok a (Z.of_nat size) n then mapM (fun i => load_le size m (a + Z.of_nat size * Z.of_nat i)) (seq 0 (Z.to_nat n)) else None.

Definition gocQjsCliCStringArray (m : mem) (address count : Z) : option (list string) :=
  if count =? 0 then Some [] else ps ← load_array m address 8 count; mapM (gocQjsCliCString m) ps.

(** ** Requests *)

Record request := mkReq {
  rq_op : Z; rq_pid : Z; rq_block : Z; rq_usePath : Z; rq_stdinFD : Z; rq_stdoutFD : Z; rq_stderrFD : Z;
  rq_argc : Z; rq_argv : Z; rq_envc : Z; rq_envp : Z; rq_file : Z; rq_cwd : Z;
  rq_uid : Z; rq_gid : Z; rq_groupsLen : Z; rq_uidSet : Z; rq_gidSet : Z; rq_groupsSet : Z; rq_groups : Z }.

(** What the caller finds in the request: [result] and [status]. *)
Record reply := mkReply { re_result : Z; re_status : Z }.

Definition ECHILD : Z := 10.
Definition EINVAL : Z := 22.
Definition EBADF : Z := 9.
Definition ENOENT : Z := 2.
Definition EIO : Z := 5.

(** An error of os/exec: not found, an errno somewhere in its chain, another one. *)
Inductive oserr := NotFound | Errno (n : Z) | OtherErr.

Definition gocQjsCliErrno (e : oserr) : Z := match e with NotFound => ENOENT | Errno n => n | OtherErr => EIO end.

Record credential := mkCred { cr_Uid : Z; cr_Gid : Z; cr_Groups : list Z; cr_NoSetGroups : bool }.

(** [exec.Cmd]; the standard streams are descriptors that C owns. *)
Record cmd := mkCmd { cm_Path : string; cm_Args : list string; cm_Dir : string; cm_Env : option (list string);
  cm_Stdin : Z; cm_Stdout : Z; cm_Stderr : Z; cm_Credential : option credential }.

(** ** How a process ended *)

(** What [cmd.Wait] leaves: a wait status, or no process state. *)
Inductive ending := Ended (status : Z) | NoState.

(** [syscall.WaitStatus] *)
Definition Exited (w : Z) : bool := Z.land w 127 =? 0.
Definition Signaled (w : Z) : bool := negb (Z.land w 127 =? 127) && negb (Z.land w 127 =? 0).

Definition gocQjsCliExitResult (w : Z) : Z :=
  if Exited w then Z.land (Z.shiftr w 8) 255 else if Signaled w then - Z.land w 127 else 127.

(** The status and the exit result of [gocQjsCliWaitChild]. *)
Definition out_status (o : ending) : Z := match o with Ended w => s32 w | NoState => 0 end.
Definition out_exit (o : ending) : Z := match o with Ended w => gocQjsCliExitResult w | NoState => 127 end.

Section System.

(** [exec.LookPath]; the ids of this process. *)
Variable LookPath : string -> res oserr string.
Variables getuid getgid : Z.

(** ** Starting a process *)

Definition gocQjsCliCredential (m : mem) (r : request) : option (option credential) :=
  if (rq_uidSet r =? 0) && (rq_gidSet r =? 0) && (rq_groupsSet r =? 0) then Some None
  else
    groups ← (if rq_groupsLen r =? 0 then Some [] else load_array m (rq_groups r) 4 (rq_groupsLen r));
    Some (Some (mkCred (if rq_uidSet r =? 0 then u32 getuid else rq_uid r) (if rq_gidSet r =? 0 then u32 getgid else rq_gid r) groups (rq_groupsSet r =? 0))).

(** The result for an error before or at the start of the process. *)
Definition start_error (r : request) (e : oserr) : Z := if rq_block r =? 0 then - gocQjsCliErrno e else 127.

(** The file to run, or the result for an error. *)
Definition resolved (r : request) (path : string) : res Z string :=
  if rq_usePath r =? 0 then Ok path else match LookPath path with Ok p => Ok p | Fail e => Fail (start_error r e) end.

(** [gocQjsCliStart] up to [cmd.Start]: the command, or the result. *)
Definition prepare (m : mem) (r : request) : option (res Z cmd) :=
  arguments ← gocQjsCliCStringArray m (rq_argv r) (rq_argc r);
  match arguments with
  | [] => Some (Fail (- EINVAL))
  | arg0 :: _ =>
      file ← gocQjsCliCString m (rq_file r);
      match resolved r (if String.eqb file "" then arg0 else file) with
      | Fail n => Some (Fail n)
      | Ok path =>
          cwd ← gocQjsCliCString m (rq_cwd r);
          env ← (if rq_envp r =? 0 then Some None else Some <$> gocQjsCliCStringArray m (rq_envp r) (rq_envc r));
          if (rq_stdinFD r <? 0) || (rq_stdoutFD r <? 0) || (rq_stderrFD r <? 0) then Some (Fail (- EBADF))
          else
            c ← gocQjsCliCredential m r;
            Some (Ok (mkCmd path arguments cwd env (rq_stdinFD r) (rq_stdoutFD r) (rq_stderrFD r) c))
      end
  end.
End System.

(** ** The children *)

(** A process: it runs, it has ended, or it has been waited for, which frees its pid. *)
Inductive process := Running | Zombie (o : ending) | Reaped (o : ending).

(** The goroutine of a child: not started, in [cmd.Wait], back from it, finished. *)
Inductive waiter := WNone | WWait | WBack (o : ending) | WClosed.

Record child := mkChild { ch_cmd : cmd; ch_pid : Z; ch_process : process; ch_waiter : waiter; ch_status : Z; ch_exit : Z }.

(** [done] is closed. *)
Definition done_closed (c : child) : bool := match ch_waiter c with WClosed => true | _ => false end.

(** What a call that is back has done: nothing with a child, started one, started one and
    waited for it, taken one out of the table. *)
Inductive answer := ANone | AStarted (i : nat) | ARan (i : nat) | ATook (i : nat).

(** Where a call is.  [i] is the child, as an index into the children started so far. *)
Inductive pc :=
| PStart                  (* before cmd.Start *)
| PInsert (i : nat)       (* started, not yet in the table *)
| PGo (i : nat)           (* in the table, before the go statement *)
| PStartDone (i : nat)    (* start, at <-child.done *)
| PStartDelete (i : nat)  (* start, before the delete *)
| PWait                   (* before the first lookup *)
| PWaitDone (i : nat)     (* wait, at <-child.done *)
| PWaitPoll (i : nat)     (* wait without blocking, at the select *)
| PTake (i : nat)         (* before the second critical section *)
| PReturned (a : answer)  (* back in C *)
| PFault.                 (* a fault while reading the request *)

Record call := mkCall { ca_req : request; ca_reply : reply; ca_pc : pc }.

Record state := mkState { st_byPID : gmap Z nat; st_children : list child; st_calls : list call }.

Definition set_pc (c : call) (p : pc) : call := mkCall (ca_req c) (ca_reply c) p.
Definition set_result (c : call) (n : Z) (p : pc) : call := mkCall (ca_req c) (mkReply n (re_status (ca_reply c))) p.
Definition set_reply (c : call) (n st : Z) (p : pc) : call := mkCall (ca_req c) (mkReply n st) p.

Definition put_call (s : state) (j : nat) (c : call) : state := mkState (st_byPID s) (st_children s) (<[j := c]> (st_calls s)).
Definition put_child (s : state) (i : nat) (c : child) : state := mkState (st_byPID s) (<[i := c]> (st_children s)) (st_calls s).

Definition set_process (c : child) (p : process) : child := mkChild (ch_cmd c) (ch_pid c) p (ch_waiter c) (ch_status c) (ch_exit c).
Definition set_waiter (c : child) (w : waiter) : child := mkChild (ch_cmd c) (ch_pid c) (ch_process c) w (ch_status c) (ch_exit c).

(** [gocGoQjsCliProcess]: a call with a request; [None] is a nil request, which is back at
    once. *)
Definition gocGoQjsCliProcess (r : request) (old : reply) : call :=
  if rq_op r =? 1 then mkCall r old PStart
  else if rq_op r =? 2 then mkCall r old PWait
  else mkCall r (mkReply (- EINVAL) (re_status old)) (PReturned ANone).

(** The first critical section of [gocQjsCliWait]. *)
Definition wait_lookup (s : state) (c : call) : call :=
  match st_byPID s !! rq_pid (ca_req c) with
  | None => set_reply c (- ECHILD) 0 (PReturned ANone)
  | Some i => set_pc c (if rq_block (ca_req c) =? 0 then PWaitPoll i else PWaitDone i)
  end.

(** The second one, which takes the child out of the table. *)
Definition wait_take (s : state) (c : call) (i : nat) (ch : child) : gmap Z nat * call :=
  let pid := rq_pid (ca_req c) in
  if bool_decide (st_byPID s !! pid = Some i) then (delete pid (st_byPID s), set_reply c pid (ch_status ch) (PReturned (ATook i)))
  else (st_byPID s, set_reply c (- ECHILD) 0 (PReturned ANone)).

(** *** Steps *)

Section Steps.
Variable m : mem.
Variable LookPath : string -> res oserr string.
Variables getuid getgid : Z.

(** What [cmd.Start] may answer: an error or a pid. *)
Variable can_start : list child -> cmd -> res oserr Z -> Prop.

(** The system gives a pid that no process has that was not waited for. *)
Definition free_pid (cs : list child) (pid : Z) : Prop :=
  0 < pid < 2 ^ 31 /\ forall c, c ∈ cs -> ch_pid c = pid -> exists o, ch_process c = Reaped o.

Abbreviation prepare := (prepare LookPath getuid getgid m).

Inductive step : state -> state -> Prop :=
(* gocQjsCliStart *)
| step_fault s j c : st_calls s !! j = Some c -> ca_pc c = PStart -> prepare (ca_req c) = None ->
    step s (put_call s j (set_pc c PFault))
| step_refused s j c n : st_calls s !! j = Some c -> ca_pc c = PStart -> prepare (ca_req c) = Some (Fail n) ->
    step s (put_call s j (set_result c n (PReturned ANone)))
| step_start_fails s j c cm e : st_calls s !! j = Some c -> ca_pc c = PStart -> prepare (ca_req c) = Some (Ok cm) ->
    can_start (st_children s) cm (Fail e) -> step s (put_call s j (set_result c (start_error (ca_req c) e) (PReturned ANone)))
| step_started s j c cm pid : st_calls s !! j = Some c -> ca_pc c = PStart -> prepare (ca_req c) = Some (Ok cm) ->
    can_start (st_children s) cm (Ok pid) -> free_pid (st_children s) pid ->
    step s (mkState (st_byPID s) (st_children s ++ [mkChild cm pid Running WNone 0 0]) (<[j := set_pc c (PInsert (length (st_children s)))]> (st_calls s)))
| step_insert s j c i ch : st_calls s !! j = Some c -> ca_pc c = PInsert i -> st_children s !! i = Some ch ->
    step s (mkState (<[ch_pid ch := i]> (st_byPID s)) (st_children s) (<[j := set_pc c (PGo i)]> (st_calls s)))
| step_go s j c i ch : st_calls s !! j = Some c -> ca_pc c = PGo i -> st_children s !! i = Some ch ->
    step s (put_call (put_child s i (set_waiter ch WWait)) j
      (set_result c (ch_pid ch) (if rq_block (ca_req c) =? 0 then PReturned (AStarted i) else PStartDone i)))
| step_start_done s j c i ch : st_calls s !! j = Some c -> ca_pc c = PStartDone i -> st_children s !! i = Some ch -> done_closed ch = true ->
    step s (put_call s j (set_reply c (ch_exit ch) (ch_status ch) (PStartDelete i)))
| step_start_delete s j c i ch : st_calls s !! j = Some c -> ca_pc c = PStartDelete i -> st_children s !! i = Some ch ->
    step s (mkState (delete (ch_pid ch) (st_byPID s)) (st_children s) (<[j := set_pc c (PReturned (ARan i))]> (st_calls s)))
(* gocQjsCliWait *)
| step_wait_lookup s j c : st_calls s !! j = Some c -> ca_pc c = PWait -> step s (put_call s j (wait_lookup s c))
| step_wait_done s j c i ch : st_calls s !! j = Some c -> ca_pc c = PWaitDone i -> st_children s !! i = Some ch -> done_closed ch = true ->
    step s (put_call s j (set_pc c (PTake i)))
| step_wait_poll s j c i ch : st_calls s !! j = Some c -> ca_pc c = PWaitPoll i -> st_children s !! i = Some ch ->
    step s (put_call s j (if done_closed ch then set_pc c (PTake i) else set_reply c 0 0 (PReturned ANone)))
| step_take s j c i ch : st_calls s !! j = Some c -> ca_pc c = PTake i -> st_children s !! i = Some ch ->
    step s (mkState (wait_take s c i ch).1 (st_children s) (<[j := (wait_take s c i ch).2]> (st_calls s)))
(* the processes, and gocQjsCliWaitChild *)
| step_exit s i ch o : st_children s !! i = Some ch -> ch_process ch = Running -> step s (put_child s i (set_process ch (Zombie o)))
| step_reap s i ch o : st_children s !! i = Some ch -> ch_process ch = Zombie o -> ch_waiter ch = WWait ->
    step s (put_child s i (set_waiter (set_process ch (Reaped o)) (WBack o)))
| step_publish s i ch o : st_children s !! i = Some ch -> ch_waiter ch = WBack o ->
    step s (put_child s i (mkChild (ch_cmd ch) (ch_pid ch) (ch_process ch) WClosed (out_status o) (out_exit o))).

(** A goroutine calls from C. *)
Inductive arrives : state -> state -> Prop :=
| arrives_call s r old : arrives s (mkState (st_byPID s) (st_children s) (st_calls s ++ [gocGoQjsCliProcess r old])).

Definition initial : state := mkState ∅ [] [].

Definition reachable (s : state) : Prop := rtc (fun a b => step a b \/ arrives a b) initial s.

(** *** Counting calls *)

Definition count (f : call -> bool) (s : state) : nat := sum_list_with (fun c => Nat.b2n (f c)) (st_calls s).

Lemma sum_insert {A} (f : A -> nat) (l : list A) : forall j c c', l !! j = Some c ->
  (sum_list_with f (<[j := c']> l) + f c = sum_list_with f l + f c')%nat.
Proof. induction l as [|a l IH]; intros [|j] c c' H; simpl in *; [done..| |]; [injection H as ->; lia | specialize (IH j c c' H); lia]. Qed.

Lemma sum_zero {A} (f : A -> nat) (l : list A) : sum_list_with f l = 0%nat <-> forall x, x ∈ l -> f x = 0%nat.
Proof.
  induction l as [|a l IH]; cbn; [split; [intros _ x Hx; by apply not_elem_of_nil in Hx | done]|]. rewrite Nat.eq_add_0, IH. setoid_rewrite elem_of_cons. naive_solver.
Qed.

Lemma sum_at {A} (f : A -> nat) (l : list A) j x : l !! j = Some x -> (f x <= sum_list_with f l)%nat.
Proof. revert j. induction l as [|a l IH]; intros [|j] H; cbn in *; [done..| |]; [injection H as ->; lia | specialize (IH j H); lia]. Qed.

Lemma sum_two {A} (f : A -> nat) (l : list A) : forall j k x y, j <> k -> l !! j = Some x -> l !! k = Some y -> (f x + f y <= sum_list_with f l)%nat.
Proof.
  induction l as [|a l IH]; intros [|j] [|k] x y Hne Hx Hy; cbn in *; [done..| | |].
  - injection Hx as ->. pose proof (sum_at f l k y Hy). lia.
  - injection Hy as ->. pose proof (sum_at f l j x Hx). lia.
  - pose proof (IH j k x y ltac:(lia) Hx Hy). lia.
Qed.

(** *** The invariant *)

Definition at_insert (i : nat) (c : call) : bool := match ca_pc c with PInsert k => (k =? i)%nat | _ => false end.
Definition at_go (i : nat) (c : call) : bool := match ca_pc c with PInsert k | PGo k => (k =? i)%nat | _ => false end.
Definition took (i : nat) (c : call) : bool := match ca_pc c with PReturned (ATook k) => (k =? i)%nat | _ => false end.

Definition is_new (c : child) : bool := match ch_waiter c with WNone => true | _ => false end.

(** The process and the goroutine of a child agree; a closed [done] means that the fields
    hold how the process ended. *)
Definition child_ok (c : child) : Prop :=
  match ch_waiter c with
  | WNone | WWait => forall o, ch_process c <> Reaped o
  | WBack o => ch_process c = Reaped o
  | WClosed => exists o, ch_process c = Reaped o /\ ch_status c = out_status o /\ ch_exit c = out_exit o
  end.

(** What a call knows of its child. *)
Definition call_ok (cs : list child) (c : call) : Prop :=
  let known i P := exists ch, cs !! i = Some ch /\ P ch in
  match ca_pc c with
  | PInsert i | PGo i | PStartDone i | PWaitDone i | PWaitPoll i => known i (fun _ => True)
  | PStartDelete i => known i (fun ch => done_closed ch = true /\ ca_reply c = mkReply (ch_exit ch) (ch_status ch))
  | PTake i => known i (fun ch => done_closed ch = true)
  | PReturned (AStarted i) => known i (fun ch => re_result (ca_reply c) = ch_pid ch)
  | PReturned (ARan i) => known i (fun ch => done_closed ch = true /\ ca_reply c = mkReply (ch_exit ch) (ch_status ch))
  | PReturned (ATook i) => known i (fun ch => done_closed ch = true /\ ca_reply c = mkReply (ch_pid ch) (ch_status ch) /\ rq_pid (ca_req c) = ch_pid ch)
  | _ => True
  end.

Definition in_table (s : state) (i : nat) (ch : child) : bool := bool_decide (st_byPID s !! ch_pid ch = Some i).

Record inv (s : state) : Prop := {
  iv_table : forall p i, st_byPID s !! p = Some i -> exists ch, st_children s !! i = Some ch /\ ch_pid ch = p;
  iv_child : forall i ch, st_children s !! i = Some ch -> child_ok ch;
  iv_call : forall j c, st_calls s !! j = Some c -> call_ok (st_children s) c;
  (* a child is new as long as the call that started it has not reached the go statement *)
  iv_new : forall i ch, st_children s !! i = Some ch -> count (at_go i) s = Nat.b2n (is_new ch);
  (* a child is about to enter the table, in it, or has been taken once, or none of these *)
  iv_claim : forall i ch, st_children s !! i = Some ch -> (count (at_insert i) s + Nat.b2n (in_table s i ch) + count (took i) s <= 1)%nat }.

(** A child keeps its pid, and does not change once [done] is closed. *)
Definition later (c c' : child) : Prop := ch_pid c' = ch_pid c /\ (done_closed c = true -> c' = c).

Definition grown (cs cs' : list child) : Prop := forall i ch, cs !! i = Some ch -> exists ch', cs' !! i = Some ch' /\ later ch ch'.

Lemma later_refl c : later c c.
Proof. done. Qed.

Lemma grown_refl cs : grown cs cs.
Proof. intros i ch H. by exists ch. Qed.

Lemma grown_snoc cs c : grown cs (cs ++ [c]).
Proof. intros i ch H. exists ch. split; [by apply lookup_app_l_Some | done]. Qed.

Lemma grown_insert cs i ch ch' : cs !! i = Some ch -> later ch ch' -> grown cs (<[i := ch']> cs).
Proof.
  intros Hi Hl k c Hk. destruct (decide (k = i)) as [->|Hne].
  - exists ch'. rewrite list_lookup_insert_eq by (by eapply lookup_lt_Some). split; [done|]. congruence.
  - exists c. by rewrite list_lookup_insert_ne.
Qed.

Lemma call_ok_grown cs cs' c : grown cs cs' -> call_ok cs c -> call_ok cs' c.
Proof.
  intros Hg. unfold call_ok. assert (forall i (P : child -> Prop), (forall ch ch', later ch ch' -> P ch -> P ch') ->
    (exists ch, cs !! i = Some ch /\ P ch) -> exists ch, cs' !! i = Some ch /\ P ch) as Hk.
  { intros i P HP (ch & Hi & H). destruct (Hg i ch Hi) as (ch' & Hi' & Hl). exists ch'. split; [done | by eapply HP]. }
  destruct (ca_pc c) as [|i|i|i|i| |i|i|i|[|i|i|i]|]; try done; apply Hk; intros ch ch' [Hp Hc]; try done.
  - intros [H1 H2]. by rewrite (Hc H1).
  - intros H1. by rewrite (Hc H1).
  - intros H. by rewrite Hp.
  - intros [H1 H2]. by rewrite (Hc H1).
  - intros [H1 H2]. by rewrite (Hc H1).
Qed.

(** A call that is past no child the others do not see. *)
Lemma count_insert f s j c c' b cs : st_calls s !! j = Some c ->
  (count f (mkState b cs (<[j := c']> (st_calls s))) + Nat.b2n (f c) = count f s + Nat.b2n (f c'))%nat.
Proof. intros H. unfold count. cbn [st_calls]. apply (sum_insert (fun c => Nat.b2n (f c)) _ j c c' H). Qed.

(** One step of one call. *)
Lemma inv_next s b cs j c c' : inv s -> st_calls s !! j = Some c -> grown (st_children s) cs ->
  (forall p i, b !! p = Some i -> exists ch, cs !! i = Some ch /\ ch_pid ch = p) ->
  (forall i ch, cs !! i = Some ch -> child_ok ch) -> call_ok cs c' ->
  (forall i ch, cs !! i = Some ch -> (count (at_go i) s + Nat.b2n (at_go i c') = Nat.b2n (is_new ch) + Nat.b2n (at_go i c))%nat) ->
  (forall i ch, cs !! i = Some ch -> (count (at_insert i) s + count (took i) s + Nat.b2n (at_insert i c') + Nat.b2n (took i c') +
     Nat.b2n (bool_decide (b !! ch_pid ch = Some i)) <= 1 + Nat.b2n (at_insert i c) + Nat.b2n (took i c))%nat) ->
  inv (mkState b cs (<[j := c']> (st_calls s))).
Proof.
  intros HI Hj Hg Ht Hc Hok Hn Hcl. split; cbn [st_byPID st_children st_calls].
  - exact Ht.
  - exact Hc.
  - intros k x. destruct (decide (k = j)) as [->|Hne].
    + rewrite list_lookup_insert_eq by (by eapply lookup_lt_Some). by intros [= <-].
    + rewrite list_lookup_insert_ne by done. intros Hk. eapply call_ok_grown; [done|]. by eapply iv_call.
  - intros i ch Hi. pose proof (count_insert (at_go i) s j c c' b cs Hj). specialize (Hn i ch Hi). lia.
  - intros i ch Hi. pose proof (count_insert (at_insert i) s j c c' b cs Hj). pose proof (count_insert (took i) s j c c' b cs Hj).
    specialize (Hcl i ch Hi). unfold in_table. cbn [st_byPID]. lia.
Qed.

(** A step of a call that only moves it on. *)
Lemma inv_call s j c c' : inv s -> st_calls s !! j = Some c -> call_ok (st_children s) c' ->
  (forall i, at_go i c' = at_go i c) -> (forall i, at_insert i c' = at_insert i c) -> (forall i, took i c' = took i c) -> inv (put_call s j c').
Proof.
  intros HI Hj Hok Hg Hi Ht. unfold put_call. eapply inv_next; [done | done | apply grown_refl | apply HI | apply HI | done | |].
  - intros i ch H. rewrite Hg. pose proof (iv_new _ HI i ch H). lia.
  - intros i ch H. rewrite Hi, Ht. pose proof (iv_claim _ HI i ch H). unfold in_table in *. lia.
Qed.

(** A step of a process or of its goroutine. *)
Lemma inv_child s i ch ch' : inv s -> st_children s !! i = Some ch -> later ch ch' -> child_ok ch' -> is_new ch' = is_new ch -> inv (put_child s i ch').
Proof.
  intros HI Hi Hl Hok Hn. pose proof (grown_insert _ _ _ _ Hi Hl) as Hg.
  assert (forall k x, <[i := ch']> (st_children s) !! k = Some x -> exists y, st_children s !! k = Some y /\ ch_pid x = ch_pid y /\ is_new x = is_new y /\ child_ok x) as Hx.
  { intros k x. destruct (decide (k = i)) as [->|Hne].
    - rewrite list_lookup_insert_eq by (by eapply lookup_lt_Some). intros [= <-]. exists ch. destruct Hl. done.
    - rewrite list_lookup_insert_ne by done. intros H. exists x. pose proof (iv_child _ HI k x H). done. }
  split; cbn [st_byPID st_children st_calls put_child].
  - intros p k Hp. destruct (iv_table _ HI p k Hp) as (y & Hy & <-). destruct (Hg k y Hy) as (z & Hz & Hp' & _). by exists z.
  - intros k x Hk. by destruct (Hx k x Hk) as (y & _ & _ & _ & H).
  - intros j c Hj. eapply call_ok_grown; [done|]. by eapply iv_call.
  - intros k x Hk. destruct (Hx k x Hk) as (y & Hy & _ & -> & _). by apply (iv_new _ HI).
  - intros k x Hk. destruct (Hx k x Hk) as (y & Hy & Hp & _). pose proof (iv_claim _ HI k y Hy). unfold in_table in *. cbn [st_byPID put_child]. rewrite Hp. exact H.
Qed.

(** No call is about a child that was not started. *)
Lemma count_none (f : call -> bool) s : (forall j c, st_calls s !! j = Some c -> f c = false) -> count f s = 0%nat.
Proof. intros H. unfold count. apply sum_zero. intros x [j Hj]%list_elem_of_lookup. by rewrite (H j x Hj). Qed.

Lemma call_known s j c i : inv s -> st_calls s !! j = Some c -> at_go i c || at_insert i c || took i c = true -> is_Some (st_children s !! i).
Proof.
  intros HI Hj. pose proof (iv_call _ HI j c Hj) as H. unfold call_ok, at_go, at_insert, took in *.
  destruct (ca_pc c) as [|k|k|k|k| |k|k|k|[|k|k|k]|]; try done; destruct H as (ch & Hk & _); rewrite ?orb_false_r, ?orb_diag; intros ->%Nat.eqb_eq; by eexists.
Qed.

Lemma count_unknown s i : inv s -> st_children s !! i = None -> count (at_go i) s = 0%nat /\ count (at_insert i) s = 0%nat /\ count (took i) s = 0%nat.
Proof.
  intros HI Hi. split_and!; apply count_none; intros j c Hj; apply not_true_is_false; intros E;
    destruct (call_known s j c i HI Hj) as [x Hx]; try congruence; rewrite E, ?orb_true_r; done.
Qed.

Lemma b2n_le (P Q : Prop) `{Decision P, Decision Q} : (P -> Q) -> (Nat.b2n (bool_decide P) <= Nat.b2n (bool_decide Q))%nat.
Proof. intros HPQ. destruct (decide P) as [HP|HP]; [rewrite !bool_decide_eq_true_2 by auto; done | rewrite (bool_decide_eq_false_2 P) by done; cbn; lia]. Qed.

Lemma at_go_count s j c i : st_calls s !! j = Some c -> at_go i c = true -> (1 <= count (at_go i) s)%nat.
Proof. intros Hj E. pose proof (sum_at (fun c => Nat.b2n (at_go i c)) _ j c Hj) as H. cbn in H. rewrite E in H. exact H. Qed.

Lemma lookup_snoc_cases {A} (l : list A) x i y : (l ++ [x]) !! i = Some y -> l !! i = Some y \/ (i = length l /\ y = x).
Proof.
  intros [H|[Hl H]]%lookup_app_Some; [by left|]. right. destruct (i - length l)%nat eqn:E; [|done]. cbn in H. injection H as ->. split; [lia | done].
Qed.

(** *** Every step keeps the invariant *)

Lemma inv_started s j c cm pid : inv s -> st_calls s !! j = Some c -> ca_pc c = PStart ->
  inv (mkState (st_byPID s) (st_children s ++ [mkChild cm pid Running WNone 0 0]) (<[j := set_pc c (PInsert (length (st_children s)))]> (st_calls s))).
Proof.
  intros HI Hj Hp. assert (st_children s !! length (st_children s) = None) as Hnone by (apply lookup_ge_None; lia).
  destruct (count_unknown _ _ HI Hnone) as (N1 & N2 & N3).
  eapply inv_next; [done | done | apply grown_snoc | | | | |].
  - intros p i H. destruct (iv_table _ HI p i H) as (ch & Hc & E). exists ch. split; [by apply lookup_app_l_Some | done].
  - intros i ch [H|[_ ->]]%lookup_snoc_cases; [by eapply iv_child | done].
  - unfold call_ok. cbn. eexists. split; [|done]. rewrite lookup_app_r by lia. by rewrite Nat.sub_diag.
  - intros i ch [H|[-> ->]]%lookup_snoc_cases; unfold at_go at 2 3; rewrite Hp; cbn [ca_pc set_pc].
    + pose proof (iv_new _ HI i ch H). apply lookup_lt_Some in H. rewrite (proj2 (Nat.eqb_neq _ _)) by lia. cbn. lia.
    + rewrite Nat.eqb_refl. cbn. lia.
  - intros i ch [H|[-> ->]]%lookup_snoc_cases; unfold at_insert at 2 3, took at 2 3; rewrite Hp; cbn [ca_pc set_pc].
    + pose proof (iv_claim _ HI i ch H) as C. unfold in_table in C. apply lookup_lt_Some in H. rewrite (proj2 (Nat.eqb_neq _ _)) by lia. cbn. lia.
    + rewrite Nat.eqb_refl, bool_decide_eq_false_2; [cbn; lia|]. intros E. destruct (iv_table _ HI _ _ E) as (x & Hx & _). congruence.
Qed.

Lemma inv_insert s j c i ch : inv s -> st_calls s !! j = Some c -> ca_pc c = PInsert i -> st_children s !! i = Some ch ->
  inv (mkState (<[ch_pid ch := i]> (st_byPID s)) (st_children s) (<[j := set_pc c (PGo i)]> (st_calls s))).
Proof.
  intros HI Hj Hp Hi. eapply inv_next; [done | done | apply grown_refl | | apply HI | by exists ch | |].
  - intros p k. destruct (decide (p = ch_pid ch)) as [->|Hne]; [rewrite lookup_insert_eq; intros [= <-]; by exists ch | rewrite lookup_insert_ne by done; apply HI].
  - intros k x Hk. pose proof (iv_new _ HI k x Hk). unfold at_go in *. rewrite Hp. cbn [ca_pc set_pc] in *. lia.
  - intros k x Hk. pose proof (iv_claim _ HI k x Hk) as C. unfold in_table in C. unfold at_insert at 2 3, took at 2 3. rewrite Hp. cbn [ca_pc set_pc].
    destruct (i =? k)%nat eqn:E.
    + pose proof (Nat.b2n_le_1 (bool_decide (<[ch_pid ch := i]> (st_byPID s) !! ch_pid x = Some k))). cbn. lia.
    + apply Nat.eqb_neq in E. assert (Nat.b2n (bool_decide (<[ch_pid ch := i]> (st_byPID s) !! ch_pid x = Some k)) <= Nat.b2n (bool_decide (st_byPID s !! ch_pid x = Some k)))%nat; [|cbn; lia].
      apply b2n_le. destruct (decide (ch_pid x = ch_pid ch)) as [->|Hne]; [rewrite lookup_insert_eq; congruence | by rewrite lookup_insert_ne].
Qed.

Lemma inv_go s j c i ch : inv s -> st_calls s !! j = Some c -> ca_pc c = PGo i -> st_children s !! i = Some ch ->
  inv (put_call (put_child s i (set_waiter ch WWait)) j
    (set_result c (ch_pid ch) (if rq_block (ca_req c) =? 0 then PReturned (AStarted i) else PStartDone i))).
Proof.
  intros HI Hj Hp Hi. set (c' := set_result _ _ _). assert (at_go i c = true) as Eg by (unfold at_go; rewrite Hp; apply Nat.eqb_refl).
  pose proof (at_go_count s j c i Hj Eg) as G1. pose proof (iv_new _ HI i ch Hi) as G2. destruct (is_new ch) eqn:En; cbn in G2; [|lia].
  assert (ch_waiter ch = WNone) as Ew by (unfold is_new in En; by destruct (ch_waiter ch)).
  assert (later ch (set_waiter ch WWait)) as Hl by (split; [done|]; unfold done_closed; by rewrite Ew).
  pose proof (grown_insert _ _ _ _ Hi Hl) as Hg.
  assert (<[i := set_waiter ch WWait]> (st_children s) !! i = Some (set_waiter ch WWait)) as Hii by (apply list_lookup_insert_eq; by eapply lookup_lt_Some).
  assert (forall k x, <[i := set_waiter ch WWait]> (st_children s) !! k = Some x -> k = i /\ x = set_waiter ch WWait \/ k <> i /\ st_children s !! k = Some x) as Hx.
  { intros k x Hk. destruct (decide (k = i)) as [->|Hne]; [left; split; [done | congruence] | right; split; [done|]; by rewrite list_lookup_insert_ne in Hk]. }
  assert (forall k, at_go k c' = false /\ at_insert k c' = false /\ took k c' = false) as Hc'.
  { intros k. unfold at_go, at_insert, took, c'. cbn [ca_pc set_result]. by destruct (rq_block (ca_req c) =? 0). }
  unfold put_call, put_child. cbn [st_byPID st_children st_calls]. eapply inv_next; [done | done | exact Hg | | | | |].
  - intros p k Hk. destruct (iv_table _ HI p k Hk) as (y & Hy & <-). destruct (Hg k y Hy) as (z & Hz & E & _). by exists z.
  - intros k x [[-> ->]|[_ Hk]]%Hx; [|by eapply iv_child]. pose proof (iv_child _ HI i ch Hi) as Ho. unfold child_ok in *. rewrite Ew in Ho. exact Ho.
  - unfold call_ok, c'. cbn [ca_pc set_result]. destruct (rq_block (ca_req c) =? 0); by eexists.
  - intros k x Hk. destruct (Hc' k) as (-> & _). unfold at_go at 2. rewrite Hp. destruct (Hx k x Hk) as [[-> ->]|[Hne Hk']].
    + rewrite Nat.eqb_refl. cbn. lia.
    + rewrite (proj2 (Nat.eqb_neq i k)) by done. pose proof (iv_new _ HI k x Hk'). cbn. lia.
  - intros k x Hk. destruct (Hc' k) as (_ & -> & ->). unfold at_insert at 2, took at 2. rewrite Hp. destruct (Hx k x Hk) as [[-> ->]|[Hne Hk']].
    + pose proof (iv_claim _ HI i ch Hi) as C. unfold in_table in C. cbn [ch_pid set_waiter Nat.b2n]. lia.
    + pose proof (iv_claim _ HI k x Hk') as C. unfold in_table in C. cbn [Nat.b2n]. lia.
Qed.

Lemma inv_delete s j c i ch : inv s -> st_calls s !! j = Some c -> ca_pc c = PStartDelete i -> st_children s !! i = Some ch ->
  inv (mkState (delete (ch_pid ch) (st_byPID s)) (st_children s) (<[j := set_pc c (PReturned (ARan i))]> (st_calls s))).
Proof.
  intros HI Hj Hp Hi. eapply inv_next; [done | done | apply grown_refl | | apply HI | | |].
  - intros p k [_ H]%lookup_delete_Some. by apply HI.
  - pose proof (iv_call _ HI j c Hj) as H. unfold call_ok in *. rewrite Hp in H. exact H.
  - intros k x Hk. pose proof (iv_new _ HI k x Hk). unfold at_go in *. rewrite Hp. cbn [ca_pc set_pc] in *. lia.
  - intros k x Hk. pose proof (iv_claim _ HI k x Hk) as C. unfold in_table in C. unfold at_insert at 2 3, took at 2 3. rewrite Hp. cbn [ca_pc set_pc].
    assert (Nat.b2n (bool_decide (delete (ch_pid ch) (st_byPID s) !! ch_pid x = Some k)) <= Nat.b2n (bool_decide (st_byPID s !! ch_pid x = Some k)))%nat; [|cbn; lia].
    apply b2n_le. by intros [_ H]%lookup_delete_Some.
Qed.

Lemma inv_take s j c i ch : inv s -> st_calls s !! j = Some c -> ca_pc c = PTake i -> st_children s !! i = Some ch ->
  inv (mkState (wait_take s c i ch).1 (st_children s) (<[j := (wait_take s c i ch).2]> (st_calls s))).
Proof.
  intros HI Hj Hp Hi. unfold wait_take. destruct (bool_decide _) eqn:B; cbn [fst snd].
  - apply bool_decide_eq_true in B. destruct (iv_table _ HI _ _ B) as (y & Hy & E). assert (y = ch) as -> by congruence. clear Hy.
    eapply inv_next; [done | done | apply grown_refl | | apply HI | | |].
    + intros p k [_ H]%lookup_delete_Some. by apply HI.
    + pose proof (iv_call _ HI j c Hj) as H. unfold call_ok in *. rewrite Hp in H. destruct H as (z & Hz & Hd). assert (z = ch) as -> by congruence.
      exists ch. cbn. rewrite E. done.
    + intros k x Hk. pose proof (iv_new _ HI k x Hk). unfold at_go in *. rewrite Hp. cbn [ca_pc set_reply] in *. lia.
    + intros k x Hk. pose proof (iv_claim _ HI k x Hk) as C. unfold in_table in C. unfold at_insert at 2 3, took at 2 3. rewrite Hp. cbn [ca_pc set_reply].
      destruct (decide (i = k)) as [<-|Hne].
      * assert (x = ch) as -> by congruence. rewrite bool_decide_eq_true_2 in C by (by rewrite E). rewrite <-E, lookup_delete_eq, Nat.eqb_refl, (bool_decide_eq_false_2 (None = Some i)) by done. cbn in *. lia.
      * rewrite (proj2 (Nat.eqb_neq i k)) by done.
        assert (Nat.b2n (bool_decide (delete (rq_pid (ca_req c)) (st_byPID s) !! ch_pid x = Some k)) <= Nat.b2n (bool_decide (st_byPID s !! ch_pid x = Some k)))%nat; [|cbn; lia].
        apply b2n_le. by intros [_ H]%lookup_delete_Some.
  - apply inv_call with (c := c); try done; unfold at_go, at_insert, took; by rewrite Hp.
Qed.

Lemma done_closed_true c : done_closed c = true <-> ch_waiter c = WClosed.
Proof. unfold done_closed. by destruct (ch_waiter c). Qed.

Lemma inv_step s s' : inv s -> step s s' -> inv s'.
Proof.
  intros HI H. destruct H as [s j c Hj Hp _|s j c n Hj Hp _|s j c cm e Hj Hp _ _|s j c cm pid Hj Hp _ _ _|s j c i ch Hj Hp Hi|s j c i ch Hj Hp Hi|
    s j c i ch Hj Hp Hi Hd|s j c i ch Hj Hp Hi|s j c Hj Hp|s j c i ch Hj Hp Hi Hd|s j c i ch Hj Hp Hi|s j c i ch Hj Hp Hi|s i ch o Hi Hp|s i ch o Hi Hp Hw|s i ch o Hi Hw].
  - apply inv_call with (c := c); try done; unfold at_go, at_insert, took; by rewrite Hp.
  - apply inv_call with (c := c); try done; unfold at_go, at_insert, took; by rewrite Hp.
  - apply inv_call with (c := c); try done; unfold at_go, at_insert, took; by rewrite Hp.
  - by eapply inv_started.
  - by eapply inv_insert.
  - by eapply inv_go.
  - apply inv_call with (c := c); try done; [by exists ch | unfold at_go, at_insert, took; by rewrite Hp..].
  - by eapply inv_delete.
  - apply inv_call with (c := c); try done; unfold wait_lookup.
    + destruct (st_byPID s !! _) as [i|] eqn:E; [|done]. destruct (iv_table _ HI _ _ E) as (ch & Hi & _). unfold call_ok. cbn.
      destruct (rq_block (ca_req c) =? 0); by exists ch.
    + intros k. unfold at_go. rewrite Hp. destruct (st_byPID s !! _); [|done]. cbn. by destruct (rq_block (ca_req c) =? 0).
    + intros k. unfold at_insert. rewrite Hp. destruct (st_byPID s !! _); [|done]. cbn. by destruct (rq_block (ca_req c) =? 0).
    + intros k. unfold took. rewrite Hp. destruct (st_byPID s !! _); [|done]. cbn. by destruct (rq_block (ca_req c) =? 0).
  - apply inv_call with (c := c); try done; [by exists ch | unfold at_go, at_insert, took; by rewrite Hp..].
  - destruct (done_closed ch) eqn:D; apply inv_call with (c := c); try done; try (unfold at_go, at_insert, took; by rewrite Hp). by exists ch.
  - by eapply inv_take.
  - pose proof (iv_child _ HI i ch Hi) as Ho. unfold child_ok in Ho. assert (ch_waiter ch = WNone \/ ch_waiter ch = WWait) as Hw.
    { destruct (ch_waiter ch); [by left | by right | congruence | destruct Ho as (x & Hx & _); congruence]. }
    apply inv_child with (ch := ch); try done.
    + split; [done|]. rewrite done_closed_true. destruct Hw; congruence.
    + unfold child_ok. cbn. by destruct Hw as [-> | ->].
  - apply inv_child with (ch := ch); try done.
    + split; [done|]. rewrite done_closed_true. congruence.
    + unfold is_new. cbn. by rewrite Hw.
  - pose proof (iv_child _ HI i ch Hi) as Ho. unfold child_ok in Ho. rewrite Hw in Ho. apply inv_child with (ch := ch); try done.
    + split; [done|]. rewrite done_closed_true. congruence.
    + exists o. done.
    + unfold is_new. cbn. by rewrite Hw.
Qed.

Lemma count_snoc f s r old : (forall c, ca_pc c = PStart \/ ca_pc c = PWait \/ ca_pc c = PReturned ANone -> f c = false) ->
  count f (mkState (st_byPID s) (st_children s) (st_calls s ++ [gocGoQjsCliProcess r old])) = count f s.
Proof.
  intros Hf. unfold count. cbn [st_calls]. rewrite sum_list_with_app. cbn [sum_list_with]. rewrite Hf; [cbn; lia|].
  unfold gocGoQjsCliProcess. destruct (rq_op r =? 1); [by left|]. destruct (rq_op r =? 2); [by right; left | by right; right].
Qed.

Lemma inv_arrives s s' : inv s -> arrives s s' -> inv s'.
Proof.
  intros HI Ha. destruct Ha as [s0 r old]. pose proof (fun f => count_snoc f s0 r old) as Hc.
  split; cbn [st_byPID st_children st_calls]; [apply HI | apply HI | | |].
  - intros j c [H|[_ ->]]%lookup_snoc_cases; [exact (iv_call _ HI j c H)|]. unfold gocGoQjsCliProcess. destruct (rq_op r =? 1); [done|]. by destruct (rq_op r =? 2).
  - intros i ch Hi. rewrite Hc; [by apply HI|]. unfold at_go. by intros c [-> | [-> | ->]].
  - intros i ch Hi. rewrite !Hc; [by apply (iv_claim _ HI)|..]; unfold took, at_insert; by intros c [-> | [-> | ->]].
Qed.

Lemma reachable_inv s : reachable s -> inv s.
Proof.
  intros H. refine (rtc_ind_r inv initial _ _ s H); [|intros a b _ [St|Ar] HI; [by eapply inv_step | by eapply inv_arrives]].
  split; cbn; intros *; rewrite ?lookup_empty, ?lookup_nil; done.
Qed.

(** *** A child stays in the table

    The system may use a pid again once its process has been waited for.  While that does
    not happen, a child is found until it is taken or its own blocking start is over. *)

Definition ran (i : nat) (c : call) : bool := match ca_pc c with PReturned (ARan k) => (k =? i)%nat | _ => false end.

(** The call is about to put the child into the table, or has taken it out. *)
Definition holds (i : nat) (c : call) : bool := at_insert i c || took i c || ran i c.

Definition pids (s : state) : list Z := ch_pid <$> st_children s.

Definition kept (s : state) : Prop := forall i ch, st_children s !! i = Some ch ->
  st_byPID s !! ch_pid ch = Some i \/ exists j c, st_calls s !! j = Some c /\ holds i c = true.

(** Calls that hold a child keep it. *)
Lemma kept_calls s b j c c' : st_calls s !! j = Some c -> (forall i, holds i c = true -> holds i c' = true) -> kept s ->
  (forall i ch, st_children s !! i = Some ch -> st_byPID s !! ch_pid ch = Some i -> b !! ch_pid ch = Some i \/ holds i c' = true) ->
  kept (mkState b (st_children s) (<[j := c']> (st_calls s))).
Proof.
  intros Hj Hh HK Hb i ch Hi. cbn [st_children st_byPID st_calls] in *. assert (<[j := c']> (st_calls s) !! j = Some c') as Hjj by (apply list_lookup_insert_eq; by eapply lookup_lt_Some).
  destruct (HK i ch Hi) as [Ht|(k & d & Hk & Hd)].
  - destruct (Hb i ch Hi Ht) as [H|H]; [by left | right; by exists j, c'].
  - right. destruct (decide (k = j)) as [->|Hne]; [exists j, c'; split; [done|]; apply Hh; congruence | exists k, d; by rewrite list_lookup_insert_ne].
Qed.

Lemma kept_child s i ch ch' : st_children s !! i = Some ch -> ch_pid ch' = ch_pid ch -> kept s -> kept (put_child s i ch').
Proof.
  intros Hi Hp HK k x. cbn [st_children put_child]. destruct (decide (k = i)) as [->|Hne].
  - rewrite list_lookup_insert_eq by (by eapply lookup_lt_Some). intros [= <-]. rewrite Hp. by apply HK.
  - rewrite list_lookup_insert_ne by done. apply HK.
Qed.

Lemma same_pid s i k ch x : NoDup (pids s) -> st_children s !! i = Some ch -> st_children s !! k = Some x -> ch_pid x = ch_pid ch -> k = i.
Proof. intros Hd Hi Hk E. eapply (proj1 (NoDup_alt _) Hd k i); unfold pids; rewrite list_lookup_fmap; [by rewrite Hk | rewrite Hi; cbn; by rewrite E]. Qed.

Ltac holds_nothing Hp := intros ?; unfold holds, at_insert, took, ran; rewrite Hp; done.

Lemma kept_step s s' : NoDup (pids s) -> inv s -> kept s -> step s s' -> kept s'.
Proof.
  intros Hd HI HK H. destruct H as [s j c Hj Hp _|s j c n Hj Hp _|s j c cm e Hj Hp _ _|s j c cm pid Hj Hp _ _ _|s j c i ch Hj Hp Hi|s j c i ch Hj Hp Hi|
    s j c i ch Hj Hp Hi Hdc|s j c i ch Hj Hp Hi|s j c Hj Hp|s j c i ch Hj Hp Hi Hdc|s j c i ch Hj Hp Hi|s j c i ch Hj Hp Hi|s i ch o Hi Hp|s i ch o Hi Hp Hw|s i ch o Hi Hw];
    try (apply kept_calls with (c := c); [done | holds_nothing Hp | done | by left]); try (by apply kept_child with (ch := ch)).
  - intros i ch Hi. cbn [st_children st_byPID st_calls] in *.
    assert (<[j := set_pc c (PInsert (length (st_children s)))]> (st_calls s) !! j = Some (set_pc c (PInsert (length (st_children s))))) as Hjj
      by (apply list_lookup_insert_eq; by eapply lookup_lt_Some).
    apply lookup_snoc_cases in Hi as [Hi|[-> ->]].
    + destruct (HK i ch Hi) as [Ht|(k & d & Hk & Hh)]; [by left|]. right. exists k, d. split; [|done]. rewrite list_lookup_insert_ne; [done|].
      intros <-. assert (d = c) as -> by congruence. unfold holds, at_insert, took, ran in Hh. by rewrite Hp in Hh.
    + right. exists j, (set_pc c (PInsert (length (st_children s)))). split; [done|]. unfold holds, at_insert. cbn. by rewrite Nat.eqb_refl.
  - intros k x Hk. cbn [st_children st_byPID st_calls] in *. destruct (decide (k = i)) as [->|Hne].
    + left. assert (x = ch) as -> by congruence. by rewrite lookup_insert_eq.
    + destruct (HK k x Hk) as [Ht|(l & d & Hl & Hh)].
      * left. rewrite lookup_insert_ne; [done|]. intros E. apply Hne. eapply same_pid; [done | exact Hi | exact Hk | done].
      * right. exists l, d. split; [|done]. rewrite list_lookup_insert_ne; [done|]. intros <-. assert (d = c) as -> by congruence.
        unfold holds, at_insert, took, ran in Hh. rewrite Hp, !orb_false_r in Hh. apply Nat.eqb_eq in Hh. done.
  - apply kept_calls with (s := put_child s i (set_waiter ch WWait)) (c := c); [done | holds_nothing Hp | by apply kept_child with (ch := ch) | by left].
  - apply kept_calls with (c := c); [done | holds_nothing Hp | done |]. intros k x Hk Ht. destruct (decide (k = i)) as [->|Hne].
    + right. unfold holds, at_insert, took, ran. cbn. by rewrite Nat.eqb_refl.
    + left. rewrite lookup_delete_ne; [done|]. intros E. apply Hne. by eapply same_pid.
  - unfold wait_take. destruct (bool_decide _) eqn:B; cbn [fst snd]; (apply kept_calls with (c := c); [done | holds_nothing Hp | done |]); [|by left].
    apply bool_decide_eq_true in B. intros k x Hk Ht. destruct (decide (k = i)) as [->|Hne].
    + right. unfold holds, at_insert, took, ran. cbn. by rewrite Nat.eqb_refl.
    + left. rewrite lookup_delete_ne; [done|]. intros E. rewrite E in B. congruence.
Qed.

(** The children that are there stay, with their pids. *)
Lemma pids_grow s s' : step s s' \/ arrives s s' -> pids s `prefix_of` pids s'.
Proof.
  assert (forall s i ch ch', st_children s !! i = Some ch -> ch_pid ch' = ch_pid ch -> pids (put_child s i ch') = pids s) as Hput.
  { intros t i ch ch' Hi Hp. unfold pids. cbn. rewrite list_fmap_insert, Hp. apply list_insert_id. rewrite list_lookup_fmap. by rewrite Hi. }
  intros [H|[]]; [|done]. destruct H as [| | |s j c cm pid _ _ _ _ _| |s j c i ch _ _ Hi| | | | | | |s i ch o Hi|s i ch o Hi|s i ch o Hi]; try done;
    try (rewrite (Hput _ _ _ _ Hi); done).
  - unfold pids. cbn [st_children]. rewrite fmap_app. by exists [pid].
  - change (pids (put_call ?t _ _)) with (pids t). by rewrite (Hput _ _ _ _ Hi).
Qed.

Lemma reachable_kept s : reachable s -> NoDup (pids s) -> kept s.
Proof.
  intros H. refine (rtc_ind_r (fun s => NoDup (pids s) -> kept s) initial _ _ s H); [by intros _ i ch Hi|].
  intros a b Ha Hs HK Hd. assert (NoDup (pids a)) as Hda by (destruct (pids_grow a b Hs) as [l El]; rewrite El in Hd; by apply NoDup_app in Hd as [Hd _]).
  specialize (HK Hda). destruct Hs as [St|Ar]; [by eapply kept_step; [| by apply reachable_inv|..]|].
  inversion Ar as [s0 r old]; subst s0 b.
  intros i ch Hi. cbn [st_children st_byPID st_calls] in *. destruct (HK i ch Hi) as [Ht|(k & d & Hk & Hh)]; [by left|].
  right. exists k, d. split; [by apply lookup_app_l_Some | done].
Qed.

(** *** What a call brings back *)

(** A child whose process has ended and was waited for. *)
Definition ended (s : state) (i : nat) (pid : Z) (o : ending) : Prop :=
  exists ch, st_children s !! i = Some ch /\ ch_pid ch = pid /\ ch_process ch = Reaped o.

Lemma closed_ended s i ch : inv s -> st_children s !! i = Some ch -> done_closed ch = true ->
  exists o, ended s i (ch_pid ch) o /\ ch_status ch = out_status o /\ ch_exit ch = out_exit o.
Proof.
  intros HI Hi D%done_closed_true. pose proof (iv_child _ HI i ch Hi) as H. unfold child_ok in H. rewrite D in H. destruct H as (o & Ho & Hs & He).
  exists o. split_and!; [by exists ch | done..].
Qed.

(** C29. The answers of [os.waitpid] and of a blocking [os.exec] are right under every
    interleaving of the goroutines.  A wait that takes a child returns the child's pid and
    the status with which that process ended, and it asked for that pid; no two waits take
    the same child; a start that waits returns the exit result and the status of the
    process it has started.  While the system uses no pid twice, the table has every child
    that was put into it until a wait has taken it or its own blocking start is over, so
    a wait for it does not miss it. *)
Theorem children_answers s : reachable s ->
  (forall j c i, st_calls s !! j = Some c -> ca_pc c = PReturned (ATook i) ->
     exists o, ended s i (rq_pid (ca_req c)) o /\ ca_reply c = mkReply (rq_pid (ca_req c)) (out_status o)) /\
  (forall j k c d i, st_calls s !! j = Some c -> st_calls s !! k = Some d -> ca_pc c = PReturned (ATook i) -> ca_pc d = PReturned (ATook i) -> j = k) /\
  (forall j c i, st_calls s !! j = Some c -> ca_pc c = PReturned (ARan i) ->
     exists pid o, ended s i pid o /\ ca_reply c = mkReply (out_exit o) (out_status o)) /\
  (NoDup (pids s) -> forall i ch, st_children s !! i = Some ch ->
     st_byPID s !! ch_pid ch = Some i \/ exists j c, st_calls s !! j = Some c /\ holds i c = true).
Proof.
  intros HR. pose proof (reachable_inv s HR) as HI. split_and!; [| | |by apply reachable_kept].
  - intros j c i Hj Hp. pose proof (iv_call _ HI j c Hj) as H. unfold call_ok in H. rewrite Hp in H. destruct H as (ch & Hi & Hd & Hr & Hq).
    destruct (closed_ended s i ch HI Hi Hd) as (o & He & Hs & _). exists o. rewrite Hq. split; [done|]. by rewrite Hr, Hs.
  - intros j k c d i Hj Hk Hc Hd. destruct (decide (j = k)) as [|Hne]; [done|]. exfalso.
    pose proof (sum_two (fun c => Nat.b2n (took i c)) (st_calls s) j k c d Hne Hj Hk) as H. unfold took at 1 2 in H. rewrite Hc, Hd, Nat.eqb_refl in H. cbn in H.
    destruct (st_children s !! i) as [ch|] eqn:Hi.
    + pose proof (iv_claim _ HI i ch Hi) as C. unfold count in C. lia.
    + destruct (count_unknown s i HI Hi) as (_ & _ & C). unfold count in C. lia.
  - intros j c i Hj Hp. pose proof (iv_call _ HI j c Hj) as H. unfold call_ok in H. rewrite Hp in H. destruct H as (ch & Hi & Hd & Hr).
    destruct (closed_ended s i ch HI Hi Hd) as (o & He & Hs & Hx). exists (ch_pid ch), o. split; [done|]. by rewrite Hr, Hs, Hx.
Qed.

(** *** Every call comes back *)

Definition call_work (c : call) : nat :=
  match ca_pc c with
  | PStart => 8 | PInsert _ => 4 | PGo _ => 3 | PStartDone _ => 2 | PStartDelete _ => 1
  | PWait => 3 | PWaitDone _ | PWaitPoll _ => 2 | PTake _ => 1
  | PReturned _ | PFault => 0
  end.

Definition child_work (c : child) : nat :=
  match ch_process c with Running => 1 | _ => 0 end + match ch_waiter c with WNone | WWait => 2 | WBack _ => 1 | WClosed => 0 end.

(** An upper bound of the steps that are left. *)
Definition work (s : state) : nat := sum_list_with call_work (st_calls s) + sum_list_with child_work (st_children s).

Lemma work_call s b j c c' : st_calls s !! j = Some c -> (call_work c' < call_work c)%nat ->
  (work (mkState b (st_children s) (<[j := c']> (st_calls s))) < work s)%nat.
Proof. intros Hj H. unfold work. cbn [st_calls st_children]. pose proof (sum_insert call_work _ j c c' Hj). lia. Qed.

Lemma work_child s i ch ch' : st_children s !! i = Some ch -> (child_work ch' < child_work ch)%nat -> (work (put_child s i ch') < work s)%nat.
Proof. intros Hi H. unfold work, put_child. cbn [st_calls st_children]. pose proof (sum_insert child_work _ i ch ch' Hi). lia. Qed.

Lemma step_works s s' : inv s -> step s s' -> (work s' < work s)%nat.
Proof.
  intros HI H. destruct H as [s j c Hj Hp _|s j c n Hj Hp _|s j c cm e Hj Hp _ _|s j c cm pid Hj Hp _ _ _|s j c i ch Hj Hp Hi|s j c i ch Hj Hp Hi|
    s j c i ch Hj Hp Hi Hd|s j c i ch Hj Hp Hi|s j c Hj Hp|s j c i ch Hj Hp Hi Hd|s j c i ch Hj Hp Hi|s j c i ch Hj Hp Hi|s i ch o Hi Hp|s i ch o Hi Hp Hw|s i ch o Hi Hw];
    try (apply work_call with (c := c); [done|]; unfold call_work; rewrite Hp; cbn; lia).
  - unfold work. cbn [st_calls st_children]. rewrite sum_list_with_app. pose proof (sum_insert call_work _ j c (set_pc c (PInsert (length (st_children s)))) Hj) as W.
    assert (call_work c = 8%nat) as W1 by (unfold call_work; by rewrite Hp). rewrite W1 in W. change (call_work (set_pc c _)) with 4%nat in W.
    change (sum_list_with child_work [mkChild cm pid Running WNone 0 0]) with 3%nat. lia.
  - assert (at_go i c = true) as Eg by (unfold at_go; rewrite Hp; apply Nat.eqb_refl).
    pose proof (at_go_count s j c i Hj Eg) as G1. pose proof (iv_new _ HI i ch Hi) as G2. unfold is_new in G2.
    unfold work, put_call, put_child. cbn [st_calls st_children]. set (c' := set_result _ _ _).
    pose proof (sum_insert call_work _ j c c' Hj) as W. pose proof (sum_insert child_work _ i ch (set_waiter ch WWait) Hi) as V.
    assert (call_work c = 3%nat) as W1 by (unfold call_work; by rewrite Hp).
    assert (call_work c' <= 2)%nat as W2 by (unfold call_work, c'; destruct (rq_block (ca_req c) =? 0); cbn; lia).
    assert (child_work (set_waiter ch WWait) = child_work ch) as V1 by (unfold child_work; cbn [ch_process ch_waiter set_waiter]; destruct (ch_waiter ch); cbn in G2; lia). lia.
  - apply work_call with (c := c); [done|]. unfold call_work. rewrite Hp. unfold wait_lookup. destruct (st_byPID s !! rq_pid (ca_req c)); [destruct (rq_block (ca_req c) =? 0)|]; cbn; lia.
  - apply work_call with (c := c); [done|]. unfold call_work. rewrite Hp. destruct (done_closed ch); cbn; lia.
  - apply work_call with (c := c); [done|]. unfold call_work. rewrite Hp. unfold wait_take. destruct (bool_decide _); cbn; lia.
  - apply work_child with (ch := ch); [done|]. unfold child_work. rewrite Hp. cbn. lia.
  - apply work_child with (ch := ch); [done|]. unfold child_work. rewrite Hp, Hw. cbn. lia.
  - apply work_child with (ch := ch); [done|]. unfold child_work. rewrite Hw. cbn. lia.
Qed.

Definition returned (c : call) : bool := match ca_pc c with PReturned _ | PFault => true | _ => false end.

(** The system answers a request to start a process with an error or with a free pid. *)
Definition start_answers : Prop := forall cs cm,
  (exists e, can_start cs cm (Fail e)) \/ exists pid, can_start cs cm (Ok pid) /\ free_pid cs pid.

Lemma sum_pos (f : call -> bool) (l : list call) : (0 < sum_list_with (fun c => Nat.b2n (f c)) l)%nat -> exists j c, l !! j = Some c /\ f c = true.
Proof.
  induction l as [|a l IH]; cbn [sum_list_with]; [lia|]. destruct (f a) eqn:E; [intros _; by exists 0%nat, a|]. cbn. intros H. destruct (IH H) as (j & c & Hj & Hc). by exists (S j), c.
Qed.

(** A process that runs can end, and the goroutine of an ended one goes on. *)
Lemma child_moves s i ch : inv s -> st_children s !! i = Some ch -> done_closed ch = false -> exists s', step s s'.
Proof.
  intros HI Hi Hd. destruct (ch_process ch) as [|o|o] eqn:Hp; [eexists; exact (step_exit s i ch NoState Hi Hp)|..].
  - pose proof (iv_child _ HI i ch Hi) as Ho. unfold child_ok in Ho. destruct (ch_waiter ch) as [| |o'|] eqn:Hw.
    + assert (is_new ch = true) as Hn by (unfold is_new; by rewrite Hw). pose proof (iv_new _ HI i ch Hi) as C. rewrite Hn in C. cbn in C.
      destruct (sum_pos (at_go i) (st_calls s)) as (j & c & Hj & Hg); [unfold count in C; lia|]. unfold at_go in Hg.
      destruct (ca_pc c) as [|k|k|k|k| |k|k|k|a|] eqn:Hc; try done; apply Nat.eqb_eq in Hg as ->; eexists.
      * exact (step_insert s j c i ch Hj Hc Hi).
      * exact (step_go s j c i ch Hj Hc Hi).
    + eexists. exact (step_reap s i ch o Hi Hp Hw).
    + eexists. exact (step_publish s i ch o' Hi Hw).
    + unfold done_closed in Hd. by rewrite Hw in Hd.
  - pose proof (iv_child _ HI i ch Hi) as Ho. unfold child_ok in Ho. destruct (ch_waiter ch) as [| |o'|] eqn:Hw; try (by destruct (Ho o)).
    + eexists. exact (step_publish s i ch o' Hi Hw).
    + unfold done_closed in Hd. by rewrite Hw in Hd.
Qed.

(** A call whose children have all been waited for can go on. *)
Lemma call_moves s j c : inv s -> start_answers -> (forall i ch, st_children s !! i = Some ch -> done_closed ch = true) ->
  st_calls s !! j = Some c -> returned c = false -> exists s', step s s'.
Proof.
  intros HI Hs Hd Hj Hr. pose proof (iv_call _ HI j c Hj) as Ho. unfold returned in Hr. unfold call_ok in Ho.
  destruct (ca_pc c) as [|i|i|i|i| |i|i|i|a|] eqn:Hp; try done; try (destruct Ho as (ch & Hi & Ho)); try pose proof (Hd i ch Hi) as Hc.
  - destruct (prepare (ca_req c)) as [[cm|n]|] eqn:E.
    + destruct (Hs (st_children s) cm) as [[e He]|(pid & He & Hf)].
      * eexists. exact (step_start_fails s j c cm e Hj Hp E He).
      * eexists. exact (step_started s j c cm pid Hj Hp E He Hf).
    + eexists. exact (step_refused s j c n Hj Hp E).
    + eexists. exact (step_fault s j c Hj Hp E).
  - eexists. exact (step_insert s j c i ch Hj Hp Hi).
  - eexists. exact (step_go s j c i ch Hj Hp Hi).
  - eexists. exact (step_start_done s j c i ch Hj Hp Hi Hc).
  - eexists. exact (step_start_delete s j c i ch Hj Hp Hi).
  - eexists. exact (step_wait_lookup s j c Hj Hp).
  - eexists. exact (step_wait_done s j c i ch Hj Hp Hi Hc).
  - eexists. exact (step_wait_poll s j c i ch Hj Hp Hi).
  - eexists. exact (step_take s j c i ch Hj Hp Hi).
Qed.

Lemma steps_work n : forall s s', inv s -> nsteps step n s s' -> (work s' + n <= work s)%nat /\ inv s'.
Proof.
  induction n as [|n IH]; intros s s' HI H; inversion H as [|? ? s1 ? H1 H2]; subst; [split; [lia | done]|].
  pose proof (step_works _ _ HI H1). destruct (IH s1 s' (inv_step _ _ HI H1) H2) as [Hw Hi]. split; [lia | done].
Qed.

(** C30. No call hangs.  From any state that the goroutines can reach, if no further call
    arrives and every process ends, every schedule comes to an end, after at most [work]
    steps, and when nothing can move any more, every call has returned to C or met a fault
    in the memory of its request, and every child has been waited for: no wake-up is lost
    and no two goroutines wait for each other. *)
Theorem calls_return s : reachable s -> start_answers ->
  (forall n s', nsteps step n s s' -> (n <= work s)%nat) /\
  (forall s', rtc step s s' -> (forall s2, ~ step s' s2) ->
     (forall j c, st_calls s' !! j = Some c -> returned c = true) /\ (forall i ch, st_children s' !! i = Some ch -> done_closed ch = true)).
Proof.
  intros HR Hs. pose proof (reachable_inv s HR) as HI. split.
  - intros n s' H. destruct (steps_work n s s' HI H). lia.
  - intros s' (n & H)%rtc_nsteps Hno. destruct (steps_work n s s' HI H) as [_ HI'].
    assert (forall i ch, st_children s' !! i = Some ch -> done_closed ch = true) as Hd.
    { intros i ch Hi. apply not_false_is_true. intros D. destruct (child_moves s' i ch HI' Hi D) as [s2 H2]. by eapply Hno. }
    split; [|exact Hd]. intros j c Hj. apply not_false_is_true. intros D. destruct (call_moves s' j c HI' Hs Hd Hj D) as [s2 H2]. by eapply Hno.
Qed.

(** *** Runs from a list of events *)

Inductive event := ECall (r : request) (old : reply) | EMove (j : nat) (a : res oserr Z) | EExit (i : nat) (o : ending) | EWaiter (i : nat).

Definition pid_free (cs : list child) (pid : Z) : bool :=
  (0 <? pid) && (pid <? 2 ^ 31) && forallb (fun c => negb (ch_pid c =? pid) || match ch_process c with Reaped _ => true | _ => false end) cs.

(** The next step of a call; [a] is what [cmd.Start] answers. *)
Definition move (s : state) (j : nat) (a : res oserr Z) : option state :=
  c ← st_calls s !! j;
  let child i k := ch ← st_children s !! i; k ch in
  match ca_pc c with
  | PStart =>
      match prepare (ca_req c) with
      | None => Some (put_call s j (set_pc c PFault))
      | Some (Fail n) => Some (put_call s j (set_result c n (PReturned ANone)))
      | Some (Ok cm) =>
          match a with
          | Fail e => Some (put_call s j (set_result c (start_error (ca_req c) e) (PReturned ANone)))
          | Ok pid =>
              if pid_free (st_children s) pid
              then Some (mkState (st_byPID s) (st_children s ++ [mkChild cm pid Running WNone 0 0]) (<[j := set_pc c (PInsert (length (st_children s)))]> (st_calls s)))
              else None
          end
      end
  | PInsert i => child i (fun ch => Some (mkState (<[ch_pid ch := i]> (st_byPID s)) (st_children s) (<[j := set_pc c (PGo i)]> (st_calls s))))
  | PGo i => child i (fun ch => Some (put_call (put_child s i (set_waiter ch WWait)) j
      (set_result c (ch_pid ch) (if rq_block (ca_req c) =? 0 then PReturned (AStarted i) else PStartDone i))))
  | PStartDone i => child i (fun ch => if done_closed ch then Some (put_call s j (set_reply c (ch_exit ch) (ch_status ch) (PStartDelete i))) else None)
  | PStartDelete i => child i (fun ch => Some (mkState (delete (ch_pid ch) (st_byPID s)) (st_children s) (<[j := set_pc c (PReturned (ARan i))]> (st_calls s))))
  | PWait => Some (put_call s j (wait_lookup s c))
  | PWaitDone i => child i (fun ch => if done_closed ch then Some (put_call s j (set_pc c (PTake i))) else None)
  | PWaitPoll i => child i (fun ch => Some (put_call s j (if done_closed ch then set_pc c (PTake i) else set_reply c 0 0 (PReturned ANone))))
  | PTake i => child i (fun ch => Some (mkState (wait_take s c i ch).1 (st_children s) (<[j := (wait_take s c i ch).2]> (st_calls s))))
  | PReturned _ | PFault => None
  end.

Definition act (s : state) (e : event) : option state :=
  match e with
  | ECall r old => Some (mkState (st_byPID s) (st_children s) (st_calls s ++ [gocGoQjsCliProcess r old]))
  | EMove j a => move s j a
  | EExit i o => ch ← st_children s !! i; match ch_process ch with Running => Some (put_child s i (set_process ch (Zombie o))) | _ => None end
  | EWaiter i =>
      ch ← st_children s !! i;
      match ch_process ch, ch_waiter ch with
      | Zombie o, WWait => Some (put_child s i (set_waiter (set_process ch (Reaped o)) (WBack o)))
      | _, WBack o => Some (put_child s i (mkChild (ch_cmd ch) (ch_pid ch) (ch_process ch) WClosed (out_status o) (out_exit o)))
      | _, _ => None
      end
  end.

Fixpoint acts (s : state) (es : list event) : option state := match es with [] => Some s | e :: es => s ← act s e; acts s es end.

Lemma pid_free_ok cs pid : pid_free cs pid = true -> free_pid cs pid.
Proof.
  unfold pid_free. rewrite !andb_true_iff, Z.ltb_lt, Z.ltb_lt, forallb_forall. intros [H1 H2]. split; [done|]. intros c Hc%list_elem_of_In E.
  specialize (H2 c Hc). rewrite (proj2 (Z.eqb_eq _ _) E) in H2. destruct (ch_process c); try done. by eexists.
Qed.

Lemma acts_reachable es : (forall cs c a, can_start cs c a) -> forall s s', reachable s -> acts s es = Some s' -> reachable s'.
Proof.
  intros Hc. induction es as [|e es IH]; intros s s' HR E; cbn [acts] in E; [by injection E as <-|].
  destruct (act s e) as [s1|] eqn:Ea; [|done]. apply (IH s1); [|done]. eapply rtc_r; [exact HR|]. clear IH E HR. destruct e as [r old|j a|i o|i]; cbn [act] in Ea.
  - injection Ea as <-. right. constructor.
  - left. unfold move in Ea. destruct (st_calls s !! j) as [c|] eqn:Hj; [|done]. cbn [mbind option_bind] in Ea.
    destruct (ca_pc c) as [|i|i|i|i| |i|i|i|x|] eqn:Hp; try discriminate Ea; try (destruct (st_children s !! i) as [ch|] eqn:Hi; [|discriminate Ea]; cbn [mbind option_bind] in Ea).
    + destruct (prepare (ca_req c)) as [[cm|n]|] eqn:E; [destruct a as [pid|e]|..].
      * destruct (pid_free _ _) eqn:F; [|done]. injection Ea as <-. eapply step_started; [done|done|done|apply Hc|by apply pid_free_ok].
      * injection Ea as <-. eapply step_start_fails; [done|done|done|apply Hc].
      * injection Ea as <-. by eapply step_refused.
      * injection Ea as <-. by eapply step_fault.
    + injection Ea as <-. by eapply step_insert.
    + injection Ea as <-. by eapply step_go.
    + destruct (done_closed ch) eqn:D; [|done]. injection Ea as <-. by eapply step_start_done.
    + injection Ea as <-. by eapply step_start_delete.
    + injection Ea as <-. by eapply step_wait_lookup.
    + destruct (done_closed ch) eqn:D; [|done]. injection Ea as <-. by eapply step_wait_done.
    + injection Ea as <-. by eapply step_wait_poll.
    + injection Ea as <-. by eapply step_take.
  - left. destruct (st_children s !! i) as [ch|] eqn:Hi; [|done]. cbn [mbind option_bind] in Ea. destruct (ch_process ch) eqn:Hp; try done. injection Ea as <-. by eapply step_exit.
  - left. destruct (st_children s !! i) as [ch|] eqn:Hi; [|done]. cbn [mbind option_bind] in Ea.
    destruct (ch_process ch) eqn:Hp, (ch_waiter ch) eqn:Hw; try discriminate Ea; injection Ea as <-; first [by eapply step_reap | rewrite <-Hp; by eapply step_publish].
Qed.
End Steps.

(** ** Memory

    A C string that is laid out in memory is read back. *)

Fixpoint laid (m : mem) (a : Z) (l : list Z) : Prop :=
  match l with [] => m !! a = Some 0 | b :: l => b <> 0 /\ m !! a = Some b /\ laid m (a + 1) l end.

Lemma c_bytes_laid m l : forall fuel a, laid m a l -> (length l < fuel)%nat -> c_bytes fuel m a = Some l.
Proof.
  induction l as [|b l IH]; intros [|fuel] a H Hf; cbn in *; [lia| |lia|]; [by rewrite H|].
  destruct H as (Hb & Ha & H). rewrite Ha. cbn. rewrite (proj2 (Z.eqb_neq b 0)) by done. rewrite IH by (done || lia). done.
Qed.

(** The addresses of a string and of its end are mapped, and they are all different. *)
Lemma laid_size m l : forall a, laid m a l -> (length l < size m)%nat.
Proof.
  intros a H. assert (forall k, (k <= length l)%nat -> is_Some (m !! (a + Z.of_nat k))) as Hk.
  { revert a H. induction l as [|b l IH]; intros a H k Hk; cbn in H, Hk.
    - replace k with 0%nat by lia. rewrite Z.add_0_r, H. by eexists.
    - destruct H as (_ & Ha & H). destruct k as [|k]; [rewrite Z.add_0_r, Ha; by eexists|]. destruct (IH _ H k ltac:(lia)) as [x Hx].
      exists x. rewrite <-Hx. f_equal. lia. }
  assert (NoDup ((fun k => a + Z.of_nat k) <$> seq 0 (S (length l)))) as Hn by (apply NoDup_fmap_2; [intros x y E; lia | apply NoDup_seq]).
  assert (list_to_set ((fun k => a + Z.of_nat k) <$> seq 0 (S (length l))) ⊆ dom m) as Hs.
  { intros x (k & -> & Hin%elem_of_seq)%elem_of_list_to_set%list_elem_of_fmap. apply elem_of_dom. apply Hk. lia. }
  apply subseteq_size in Hs. rewrite (size_list_to_set (C := gset Z) _ Hn), length_fmap, length_seq, size_dom in Hs. lia.
Qed.

Lemma gocQjsCliCString_laid m a s : a <> 0 -> laid m a (bytes_of_string s) -> gocQjsCliCString m a = Some s.
Proof.
  intros Ha H. unfold gocQjsCliCString. rewrite (proj2 (Z.eqb_neq a 0)) by done. rewrite (c_bytes_laid m (bytes_of_string s)).
  - cbn. by rewrite string_of_bytes_of_string.
  - exact H.
  - pose proof (laid_size m _ _ H). lia.
Qed.

(** ** Texts for C

    A number or an error message goes into a buffer of C, if it leaves room for a zero. *)

Record text_request := mkTextReq { tx_output : Z; tx_capacity : Z }.

Definition store_bytes (m : mem) (a : Z) (l : list Z) : mem := foldr (fun x m => <[x.1 := x.2]> m) m (imap (fun i b => (a + Z.of_nat i, b)) l).

(** The memory and the length; [None]: a slice with a negative length, or past the end of
    the address space, panics. *)
Definition put_text (m : mem) (r : text_request) (text : list Z) : option (mem * Z) :=
  if zlen text <? tx_capacity r
  then if slice_ok (tx_output r) 1 (s64 (tx_capacity r)) then Some (store_bytes m (tx_output r) text, zlen text) else None
  else Some (m, -1).

Definition gocGoQjsCliFloat (Sprintf : string -> Z -> string) (m : mem) (format value : Z) (r : text_request) : option (mem * Z) :=
  f ← gocQjsCliCString m format; put_text m r (bytes_of_string (Sprintf f value)).

Definition gocGoQjsCliStrerror (message : Z -> string) (m : mem) (code : Z) (r : text_request) : option (mem * Z) :=
  put_text m r (bytes_of_string (message code)).

Lemma store_bytes_out l : forall m a x, (x < a \/ a + zlen l <= x) -> store_bytes m a l !! x = m !! x.
Proof.
  unfold store_bytes. intros m a x H. assert (forall i b, (i, b) ∈ imap (fun i b => (a + Z.of_nat i, b)) l -> i <> x) as Hx.
  { intros i b (k & y & E & Hk)%elem_of_lookup_imap. injection E as -> ->. unfold zlen in H. apply lookup_lt_Some in Hk. lia. }
  induction (imap _ l) as [|[i b] k IH]; cbn; [done|]. rewrite lookup_insert_ne; [apply IH; intros j c Hj; apply (Hx j c); by right | apply (Hx i b); left].
Qed.

(** What is written stays inside the buffer, with a byte left. *)
Lemma put_text_bounded m r text m' n : put_text m r text = Some (m', n) ->
  (n = -1 /\ m' = m) \/ (n = zlen text /\ n < tx_capacity r /\ forall x, x < tx_output r \/ tx_output r + tx_capacity r - 1 <= x -> m' !! x = m !! x).
Proof.
  unfold put_text. destruct (_ <? _) eqn:L; [|intros [= <- <-]; by left]. destruct (slice_ok _ _ _); [|done]. intros [= <- <-]. apply Z.ltb_lt in L.
  right. split_and!; [done | done |]. intros x Hx. apply store_bytes_out. lia.
Qed.

(** ** Runs *)

Definition place (a : Z) (l : list Z) : list (Z * Z) := imap (fun i b => (a + Z.of_nat i, b)) l.

(** One argument, [ls], at 32. *)
Definition demo_mem : mem := list_to_map (place 16 [32; 0; 0; 0; 0; 0; 0; 0] ++ place 32 (bytes_of_string "ls" ++ [0])).

Definition demo_start (block : Z) : request := mkReq 1 0 block 1 0 1 2 1 16 0 0 0 0 0 0 0 0 0 0 0.
Definition demo_wait (pid block : Z) : request := mkReq 2 pid block 0 0 0 0 0 0 0 0 0 0 0 0 0 0 0 0 0.

Definition demo_path (s : string) : res oserr string := Ok ("/bin/" +:+ s).
Definition demo_can (cs : list child) (c : cmd) (a : res oserr Z) : Prop := True.

Definition old_reply : reply := mkReply 0 0.

Abbreviation demo_acts := (acts demo_mem demo_path 1000 1000).
Abbreviation demo_reachable := (reachable demo_mem demo_path 1000 1000 demo_can).
Abbreviation demo_step := (step demo_mem demo_path 1000 1000 demo_can).

Lemma demo_reached es s : demo_acts initial es = Some s -> demo_reachable s.
Proof. intros E. eapply acts_reachable; [done | | exact E]. apply rtc_refl. Qed.

Lemma demo_answers : start_answers demo_can.
Proof. intros cs cm. left. by exists NotFound. Qed.

(** A process is started, ends with status 3 and is waited for by two goroutines. *)
Definition two_waits : list event :=
  [ECall (demo_start 0) old_reply; EMove 0 (Ok 7); EMove 0 (Ok 0); EMove 0 (Ok 0); ECall (demo_wait 7 1) old_reply; ECall (demo_wait 7 1) old_reply;
   EMove 1 (Ok 0); EMove 2 (Ok 0); EExit 0 (Ended 768); EWaiter 0; EWaiter 0; EMove 2 (Ok 0); EMove 1 (Ok 0); EMove 1 (Ok 0); EMove 2 (Ok 0)].

Example two_waits_replies : option_map (fun s => ca_reply <$> st_calls s) (demo_acts initial two_waits) = Some [mkReply 7 0; mkReply 7 768; mkReply (-10) 0].
Proof. vm_compute. reflexivity. Qed.

Lemma children_answers_witness : exists s c, demo_acts initial two_waits = Some s /\ st_calls s !! 1%nat = Some c /\
  exists o, ended s 0 7 o /\ ca_reply c = mkReply 7 (out_status o).
Proof.
  destruct (demo_acts initial two_waits) as [s|] eqn:E; [|vm_compute in E; discriminate]. destruct (st_calls s !! 1%nat) as [c|] eqn:Ec.
  2: { vm_compute in E. injection E as <-. discriminate Ec. }
  exists s, c. split; [done|]. split; [exact Ec|].
  destruct (children_answers demo_mem demo_path 1000 1000 demo_can s (demo_reached _ _ E)) as (H & _).
  assert (ca_pc c = PReturned (ATook 0) /\ rq_pid (ca_req c) = 7) as [Hp Hq].
  { vm_compute in E. injection E as <-. vm_compute in Ec. injection Ec as <-. done. }
  pose proof (H 1%nat c 0%nat Ec Hp) as R. rewrite Hq in R. exact R.
Defined.

Lemma calls_return_witness : exists s, demo_acts initial [ECall (demo_start 1) old_reply] = Some s /\ work s = 8%nat /\
  forall n s', nsteps demo_step n s s' -> (n <= 8)%nat.
Proof.
  destruct (demo_acts initial [ECall (demo_start 1) old_reply]) as [s|] eqn:E; [|vm_compute in E; discriminate]. exists s. split; [done|].
  assert (work s = 8%nat) as W by (vm_compute in E; injection E as <-; reflexivity). split; [exact W|]. intros n s' H.
  destruct (calls_return demo_mem demo_path 1000 1000 demo_can s (demo_reached _ _ E) demo_answers) as [Hn _]. pose proof (Hn n s' H). lia.
Defined.

(** A pid is used again: the goroutine of the first child has waited for its process, so
    the system is free to give the pid to the second one.  The first child leaves the
    table without a wait, and its wait gets the second one's status. *)
Definition reused_pid : list event :=
  [ECall (demo_start 0) old_reply; EMove 0 (Ok 7); EMove 0 (Ok 0); EMove 0 (Ok 0); EExit 0 (Ended 256); EWaiter 0; EWaiter 0;
   ECall (demo_start 0) old_reply; EMove 1 (Ok 7); EMove 1 (Ok 0); EMove 1 (Ok 0); EExit 1 (Ended 512); EWaiter 1; EWaiter 1;
   ECall (demo_wait 7 1) old_reply; EMove 2 (Ok 0); EMove 2 (Ok 0); EMove 2 (Ok 0); ECall (demo_wait 7 1) old_reply; EMove 3 (Ok 0)].

Example pid_reused_loses_child : option_map (fun s => ca_reply <$> st_calls s) (demo_acts initial reused_pid) =
  Some [mkReply 7 0; mkReply 7 0; mkReply 7 512; mkReply (-10) 0].
Proof. vm_compute. reflexivity. Qed.

(** The delete of a blocking start takes the entry of another child that has got its
    pid. *)
Definition deletes_other : list event :=
  [ECall (demo_start 1) old_reply; EMove 0 (Ok 7); EMove 0 (Ok 0); EMove 0 (Ok 0); EExit 0 (Ended 0); EWaiter 0; EWaiter 0;
   ECall (demo_start 0) old_reply; EMove 1 (Ok 7); EMove 1 (Ok 0); EMove 1 (Ok 0); EMove 0 (Ok 0); EMove 0 (Ok 0);
   ECall (demo_wait 7 1) old_reply; EMove 2 (Ok 0)].

Example start_deletes_other : option_map (fun s => (map_to_list (st_byPID s), ca_reply <$> st_calls s)) (demo_acts initial deletes_other) =
  Some ([], [mkReply 0 0; mkReply 7 0; mkReply (-10) 0]).
Proof. vm_compute. reflexivity. Qed.
