(* ===== verification/QjsCli.v ===== *)
(** * The QuickJS command line

    Models [run] and [evaluate] of src/ports/quickjs/cli/main.go: the arguments, where the
    source comes from, and the life of the runtime, the context and the values.  The engine
    is the C code of QuickJS, a record of operations on a state of its own; what matters of
    each call is the event it leaves in a log.  The events say who owns what, so a log can
    be checked against the rules of the QuickJS interface: what is made is freed once,
    nothing is used after it was freed, and in which order. *)

From Stdlib Require Import ZArith Lia Ascii.
From stdpp Require Import base list strings gmap.
From S2P Require Import Prelude Text Layout.

(** ** Arguments *)

(** [strconv.Atoi]: an optional sign and decimal digits of an [int]. *)
Definition Atoi_int (s : string) : option Z :=
  let '(neg, ds) := match s with
                    | String c t => if Ascii.eqb c "-" then (true, t) else if Ascii.eqb c "+" then (false, t) else (false, s)
                    | EmptyString => (false, s)
                    end in
  if all_in re_digit ds && negb (String.eqb ds "") then
    let n := (if neg then -1 else 1) * digits_value 0 ds in
    if (- 2 ^ 63 <=? n) && (n <? 2 ^ 63) then Some n else None
  else None.

Record options := mkOptions {
  op_module : bool; op_forceScript : bool; op_loadStd : bool; op_interruptAfter : Z; op_allowUnhandled : bool; op_stackSizeKB : Z }.

Definition default_options : options := mkOptions false false false 0 false 0.

Definition set_std (o : options) : options := mkOptions (op_module o) (op_forceScript o) true (op_interruptAfter o) (op_allowUnhandled o) (op_stackSizeKB o).
Definition set_script (o : options) : options := mkOptions false true (op_loadStd o) (op_interruptAfter o) (op_allowUnhandled o) (op_stackSizeKB o).
Definition set_unhandled (o : options) : options := mkOptions (op_module o) (op_forceScript o) (op_loadStd o) (op_interruptAfter o) true (op_stackSizeKB o).
Definition set_interrupt (o : options) (n : Z) : options := mkOptions (op_module o) (op_forceScript o) (op_loadStd o) n (op_allowUnhandled o) (op_stackSizeKB o).
Definition set_stack (o : options) (n : Z) : options := mkOptions (op_module o) (op_forceScript o) (op_loadStd o) (op_interruptAfter o) (op_allowUnhandled o) n.
Definition set_module (o : options) : options := mkOptions true false (op_loadStd o) (op_interruptAfter o) (op_allowUnhandled o) (op_stackSizeKB o).

Definition max_int : Z := 2 ^ 63 - 1.

(** The loop over the switches: what is set, and the arguments that are left. *)
Fixpoint switches (args : list string) (o : options) : res string (options * list string) :=
  match args with
  | a :: rest =>
      if String.eqb a "--std" then switches rest (set_std o)
      else if String.eqb a "--script" || String.eqb a "-C" then switches rest (set_script o)
      else if String.eqb a "--allow-unhandled-rejections" then switches rest (set_unhandled o)
      else match rest with
           | v :: rest' =>
               if String.eqb a "--interrupt-after" then
                 match Atoi_int v with
                 | Some n => if (n <=? 0) || (2147483647 <? n) then Fail "--interrupt-after requires a positive 32-bit count" else switches rest' (set_interrupt o n)
                 | None => Fail "--interrupt-after requires a positive 32-bit count"
                 end
               else if String.eqb a "--stack-size" then
                 match Atoi_int v with
                 | Some n => if (n <=? 0) || (max_int / 1024 <? n) then Fail "--stack-size requires a positive KiB count" else switches rest' (set_stack o n)
                 | None => Fail "--stack-size requires a positive KiB count"
                 end
               else Ok (o, args)
           | [] => Ok (o, args)
           end
  | [] => Ok (o, args)
  end.

Definition usage : string :=
  "usage: qjscli [--std] [--script] [--stack-size KiB] [--interrupt-after count] [--allow-unhandled-rejections] [-e expression | [-m] script.js | -]".

(** The file name and the expression. *)
Definition operands (o : options) (args : list string) : res string (options * string * string) :=
  match args with
  | [a; x] => if String.eqb a "-e" then Ok (o, "<eval>", x) else if String.eqb a "-m" then Ok (set_module o, x, "") else Fail usage
  | [a] => if String.eqb a "-e" || String.eqb a "-m" then Fail usage else Ok (o, a, "")
  | _ => Fail usage
  end.

Definition parse_args (args : list string) : res string (options * string * string) :=
  '(o, rest) ← switches args default_options; operands o rest.

(** ** The engine *)

Record jsValue := mkVal { jv_payload : Z; jv_tag : Z }.
#[export] Instance jsValue_eq : EqDecision jsValue.
Proof. solve_decision. Defined.

Definition jsTagException : Z := 6.
Definition jsEvalGlobal : Z := 0.
Definition jsEvalModule : Z := 1.
Definition jsCompileOnly : Z := 32.

Definition is_exception (v : jsValue) : bool := jv_tag v =? jsTagException.

(** The C functions that the program calls, on a state of theirs.  [ToCString] gives a
    pointer, the length it reports and the bytes; [ExecutePendingJob] its result and the
    context of the job. *)
Record engine (E : Type) := mkEngine {
  NewRuntime : E -> Z * E;
  SetMaxStackSize : Z -> Z -> E -> E;
  FreeRuntime : Z -> E -> E;
  NewContext : Z -> E -> Z * E;
  FreeContext : Z -> E -> E;
  Eval_ : Z -> list Z -> string -> Z -> E -> jsValue * E;
  EvalFunction : Z -> jsValue -> E -> jsValue * E;
  GetException : Z -> E -> jsValue * E;
  ToCString : Z -> jsValue -> E -> Z * Z * list Z * E;
  FreeCString : Z -> Z -> E -> E;
  FreeValue : Z -> jsValue -> E -> E;
  IsJobPending : Z -> E -> bool * E;
  ExecutePendingJob : Z -> E -> Z * Z * E;
  PromiseState : Z -> jsValue -> E -> Z * E;
  PromiseResult : Z -> jsValue -> E -> jsValue * E;
  cli_install : Z -> E -> Z * E;
  cli_load_std : Z -> E -> Z * E;
  cli_detect_module : list Z -> E -> Z * E;
  cli_unhandled : Z -> E -> Z * E;
  cli_reason : Z -> E -> jsValue * E;
  cli_clear : Z -> E -> E;
  cli_interrupt : Z -> Z -> E -> E;
  cli_dispatch : Z -> E -> Z * E;
  cli_cleanup : Z -> E -> E }.

Arguments NewRuntime {E}. Arguments SetMaxStackSize {E}. Arguments FreeRuntime {E}. Arguments NewContext {E}. Arguments FreeContext {E}.
Arguments Eval_ {E}. Arguments EvalFunction {E}. Arguments GetException {E}. Arguments ToCString {E}. Arguments FreeCString {E}. Arguments FreeValue {E}.
Arguments IsJobPending {E}. Arguments ExecutePendingJob {E}. Arguments PromiseState {E}. Arguments PromiseResult {E}. Arguments cli_install {E}.
Arguments cli_load_std {E}. Arguments cli_detect_module {E}. Arguments cli_unhandled {E}. Arguments cli_reason {E}. Arguments cli_clear {E}.
Arguments cli_interrupt {E}. Arguments cli_dispatch {E}. Arguments cli_cleanup {E}.

(** What a call did: made or freed a runtime, a context, a C string; gave a value to the
    program, used one up, freed one or only looked at it; used the context; named the
    context of a job, which the runtime keeps. *)
Inductive event :=
| ENewRuntime (rt : Z) | EUseRuntime (rt : Z) | EFreeRuntime (rt : Z)
| ENewContext (rt ctx : Z) | EUse (ctx : Z) | EFreeContext (ctx : Z)
| EOwn (ctx : Z) (v : jsValue) | EConsume (ctx : Z) (v : jsValue) | EFree (ctx : Z) (v : jsValue) | ELook (ctx : Z) (v : jsValue)
| EString (ctx p : Z) | EFreeString (ctx p : Z)
| EJob (rt ctx : Z) | EDetect | EPrint (s : string).

(** ** The monad

    A computation changes the engine and leaves events; [None]: the fuel of the job loop
    is used up. *)

Definition M (E A : Type) : Type := E -> option (A * E * list event).

#[export] Instance M_ret {E} : MRet (M E) := fun A x e => Some (x, e, []).
#[export] Instance M_bind {E} : MBind (M E) := fun A B k m e =>
  '(x, e, l) ← m e; '(y, e, l') ← k x e; Some (y, e, l ++ l').

(** A call of the engine with the events of its answer. *)
Definition op {E A} (f : E -> A * E) (ev : A -> list event) : M E A := fun e => let '(x, e) := f e in Some (x, e, ev x).
Definition op_ {E} (f : E -> E) (ev : event) : M E () := fun e => Some ((), f e, [ev]).
Definition println {E} (s : string) : M E () := fun e => Some ((), e, [EPrint s]).
Definition no_fuel {E A} : M E A := fun _ => None.

(** [defer d]: after [m], however it ends. *)
Definition deferred {E A} (d : M E ()) (m : M E A) : M E A := x ← m; _ ← d; mret x.

(** The events of a value that the engine gives: an exception is not owned. *)
Definition given (ctx : Z) (v : jsValue) : list event := if is_exception v then [EUse ctx] else [EOwn ctx v].

Section Program.
Context {E : Type}.
Variable C : engine E.

Definition jsString (ctx : Z) (v : jsValue) : M E (res string string) :=
  '(p, n, b) ← op (ToCString C ctx v) (fun '(p, _, _) => ELook ctx v :: if p =? 0 then [] else [EString ctx p]);
  if p =? 0 then mret (Fail "QuickJS could not convert value to string")
  else deferred (op_ (FreeCString C ctx p) (EFreeString ctx p))
    (mret (if max_int <? n then Fail "QuickJS string exceeds Go address space" else Ok (string_of_bytes (take (Z.to_nat n) b)))).

Definition jsException (ctx : Z) : M E string :=
  val ← op (GetException C ctx) (fun v => [EOwn ctx v]);
  deferred (op_ (FreeValue C ctx val) (EFree ctx val))
    (text ← jsString ctx val; mret (match text with Ok t => t | Fail e => "QuickJS exception (" +:+ e +:+ ")" end)).

(** An error that wraps the pending exception. *)
Definition failed (prefix : string) (ctx : Z) : M E (option string) := t ← jsException ctx; mret (Some (prefix +:+ t)).

(** The pending jobs, until one fails. *)
Fixpoint drain (fuel : nat) (filename : string) (rt ctx : Z) : M E (option string) :=
  match fuel with
  | O => no_fuel
  | S fuel =>
      pending ← op (IsJobPending C rt) (fun _ => [EUseRuntime rt]);
      if pending : bool then
        '(r, jobCtx) ← op (fun e => let '(r, c, e) := ExecutePendingJob C rt e in ((r, c), e)) (fun '(_, c) => EUseRuntime rt :: if c =? 0 then [] else [EJob rt c]);
        if r <? 0 then failed ("qjscli:runtime: " +:+ filename +:+ ": pending job: ") (if jobCtx =? 0 then ctx else jobCtx)
        else drain fuel filename rt ctx
      else mret None
  end.

(** Jobs and the messages of workers, until there is neither. *)
Fixpoint jobs (fuel : nat) (filename : string) (rt ctx : Z) : M E (option string) :=
  match fuel with
  | O => no_fuel
  | S fuel' =>
      err ← drain fuel filename rt ctx;
      match err with
      | Some e => mret (Some e)
      | None =>
          work ← op (cli_dispatch C ctx) (fun _ => [EUse ctx]);
          if work <? 0 then failed ("qjscli:runtime: " +:+ filename +:+ ": worker callback: ") ctx
          else if work =? 0 then mret None else jobs fuel' filename rt ctx
      end
  end.

(** Promises that were rejected without a handler. *)
Definition rejections (filename : string) (ctx : Z) (allow : bool) : M E (option string) :=
  n ← op (cli_unhandled C ctx) (fun _ => [EUse ctx]);
  if negb (n =? 0) && negb allow then
    reason ← op (cli_reason C ctx) (fun v => [EOwn ctx v]);
    deferred (op_ (FreeValue C ctx reason) (EFree ctx reason))
      (text ← jsString ctx reason;
       let what := "qjscli:runtime: " +:+ filename +:+ ": " +:+ dec n +:+ " unhandled Promise rejection(s)" in
       mret (Some (match text with Ok t => what +:+ ": " +:+ t | Fail _ => what end)))
  else mret None.

(** How the promise of a module ended. *)
Definition module_result (filename : string) (ctx : Z) (result : jsValue) : M E (option string) :=
  st ← op (PromiseState C ctx result) (fun _ => [ELook ctx result]);
  if st =? 0 then mret (Some ("qjscli:runtime: " +:+ filename +:+ ": module evaluation remains pending without jobs"))
  else if st =? 2 then
    reason ← op (PromiseResult C ctx result) (fun v => [ELook ctx result; EOwn ctx v]);
    deferred (op_ (FreeValue C ctx reason) (EFree ctx reason))
      (text ← jsString ctx reason;
       mret (Some (match text with
                   | Ok t => "qjscli:runtime: " +:+ filename +:+ ": " +:+ t
                   | Fail e => "qjscli:runtime: " +:+ filename +:+ ": rejected module (" +:+ e +:+ ")"
                   end)))
  else mret None.

Definition show_result (filename : string) (ctx : Z) (result : jsValue) : M E (option string) :=
  text ← jsString ctx result;
  match text with Ok t => _ ← println t; mret None | Fail e => mret (Some (filename +:+ ": " +:+ e)) end.

(** The first error of two steps. *)
Definition then_ (m k : M E (option string)) : M E (option string) := r ← m; match r with Some e => mret (Some e) | None => k end.

Definition evaluate (fuel : nat) (rt ctx : Z) (source : list Z) (filename : string) (module showResult allowUnhandled : bool) : M E (option string) :=
  let flags := if module then jsEvalModule else jsEvalGlobal in
  compiled ← op (Eval_ C ctx source filename (Z.lor flags jsCompileOnly)) (given ctx);
  if is_exception compiled then failed ("qjscli:parse: " +:+ filename +:+ ": ") ctx
  else
    result ← op (EvalFunction C ctx compiled) (fun r => EConsume ctx compiled :: given ctx r);
    if is_exception result then failed ("qjscli:runtime: " +:+ filename +:+ ": ") ctx
    else deferred (op_ (FreeValue C ctx result) (EFree ctx result))
      (then_ (if showResult then show_result filename ctx result else mret None)
        (then_ (jobs fuel filename rt ctx)
          (then_ (rejections filename ctx allowUnhandled)
            (if module then module_result filename ctx result else mret None)))).

(** ** The program *)

Variable read_file : string -> res string (list Z).
Variable read_stdin : res string (list Z).

(** The name in messages, and the text. *)
Definition source_of (filename expression : string) : res string (string * list Z) :=
  if String.eqb filename "<eval>" then Ok (filename, bytes_of_string expression)
  else if String.eqb filename "-" then b ← read_stdin; Ok ("<stdin>", b)
  else b ← read_file filename; Ok (filename, b).

(** Whether the source is a module: as asked, by its name, or as the engine finds. *)
Definition is_module (o : options) (filename : string) (source : list Z) : M E bool :=
  if negb (op_module o) && negb (op_forceScript o) && negb (String.eqb filename "<eval>") then
    if HasSuffix filename ".mjs" then mret true
    else if bool_decide (source = []) then mret false
    else d ← op (cli_detect_module C source) (fun _ => [EDetect]); mret (negb (d =? 0))
  else mret (op_module o).

(** With a context: the host functions, then the evaluation. *)
Definition with_context (fuel : nat) (o : options) (rt ctx : Z) (source : list Z) (filename : string) (module : bool) : M E (option string) :=
  i ← op (cli_install C ctx) (fun _ => [EUse ctx]);
  if i <? 0 then failed "QuickJS host initialization: " ctx
  else
    s ← (if op_loadStd o then op (cli_load_std C ctx) (fun _ => [EUse ctx]) else mret 0);
    if s <? 0 then failed "qjscli: --std: " ctx
    else
      deferred (op_ (cli_clear C ctx) (EUse ctx)) (deferred (op_ (cli_cleanup C ctx) (EUse ctx))
        (_ ← (if 0 <? op_interruptAfter o then op_ (cli_interrupt C rt (op_interruptAfter o)) (EUseRuntime rt) else mret ());
         evaluate fuel rt ctx source filename module (String.eqb filename "<eval>") (op_allowUnhandled o))).

(** The call [forceGrow 40] moves the stack and has no other effect (QjsHost). *)
Definition run (fuel : nat) (args : list string) : M E (option string) :=
  match ('(o, filename, expression) ← parse_args args; '(filename, source) ← source_of filename expression; Ok (o, filename, source)) with
  | Fail e => mret (Some e)
  | Ok (o, filename, source) =>
      module ← is_module o filename source;
      rt ← op (NewRuntime C) (fun rt => if rt =? 0 then [] else [ENewRuntime rt]);
      if rt =? 0 then mret (Some "JS_NewRuntime failed")
      else deferred (op_ (FreeRuntime C rt) (EFreeRuntime rt))
        (_ ← (if 0 <? op_stackSizeKB o then op_ (SetMaxStackSize C rt (u64 (op_stackSizeKB o * 1024))) (EUseRuntime rt) else mret ());
         ctx ← op (NewContext C rt) (fun ctx => EUseRuntime rt :: if ctx =? 0 then [] else [ENewContext rt ctx]);
         if ctx =? 0 then mret (Some "JS_NewContext failed")
         else deferred (op_ (FreeContext C ctx) (EFreeContext ctx)) (with_context fuel o rt ctx source filename module))
  end.

(** The exit status and the message. *)
Definition cli_main (fuel : nat) (args : list string) : M E (Z * string) :=
  r ← run fuel args; mret (match r with Some e => (1, e) | None => (0, "") end).
End Program.

(** ** The rules of the interface *)

(** What the program holds: the runtime, its context, the contexts that jobs have named,
    the values it owns and the C strings. *)
Record held := mkHeld { h_rt : option Z; h_ctx : option Z; h_jobs : list Z; h_vals : list jsValue; h_strs : list Z }.

Definition nothing : held := mkHeld None None [] [] [].

Definition usable (h : held) (ctx : Z) : bool := bool_decide (h_ctx h = Some ctx) || bool_decide (ctx ∈ h_jobs h).

Definition allowed {A} (b : bool) (x : A) : option A := if b then Some x else None.

(** The list without one occurrence. *)
Fixpoint remove_one {A} `{EqDecision A} (x : A) (l : list A) : option (list A) :=
  match l with [] => None | y :: l => if decide (x = y) then Some l else cons y <$> remove_one x l end.

(** One event; [None]: it breaks a rule. *)
Definition obey (h : held) (e : event) : option held :=
  match e with
  | ENewRuntime rt => allowed (bool_decide (h_rt h = None)) (mkHeld (Some rt) (h_ctx h) (h_jobs h) (h_vals h) (h_strs h))
  | EUseRuntime rt => allowed (bool_decide (h_rt h = Some rt)) h
  | EFreeRuntime rt =>
      allowed (bool_decide (h_rt h = Some rt) && bool_decide (h_ctx h = None) && bool_decide (h_vals h = []) && bool_decide (h_strs h = [])) (mkHeld None None [] [] [])
  | ENewContext rt ctx => allowed (bool_decide (h_rt h = Some rt) && bool_decide (h_ctx h = None)) (mkHeld (h_rt h) (Some ctx) (h_jobs h) (h_vals h) (h_strs h))
  | EUse ctx => allowed (usable h ctx) h
  | EFreeContext ctx => allowed (bool_decide (h_ctx h = Some ctx) && bool_decide (h_vals h = []) && bool_decide (h_strs h = [])) (mkHeld (h_rt h) None (h_jobs h) [] [])
  | EOwn ctx v => allowed (usable h ctx) (mkHeld (h_rt h) (h_ctx h) (h_jobs h) (v :: h_vals h) (h_strs h))
  | EConsume ctx v | EFree ctx v =>
      if usable h ctx then l ← remove_one v (h_vals h); Some (mkHeld (h_rt h) (h_ctx h) (h_jobs h) l (h_strs h)) else None
  | ELook ctx v => allowed (usable h ctx && bool_decide (v ∈ h_vals h)) h
  | EString ctx p => allowed (usable h ctx) (mkHeld (h_rt h) (h_ctx h) (h_jobs h) (h_vals h) (p :: h_strs h))
  | EFreeString ctx p =>
      if usable h ctx then l ← remove_one p (h_strs h); Some (mkHeld (h_rt h) (h_ctx h) (h_jobs h) (h_vals h) l) else None
  | EJob rt ctx => allowed (bool_decide (h_rt h = Some rt)) (mkHeld (h_rt h) (h_ctx h) (ctx :: h_jobs h) (h_vals h) (h_strs h))
  | EDetect | EPrint _ => Some h
  end.

Fixpoint replay (h : held) (l : list event) : option held := match l with [] => Some h | e :: l => h ← obey h e; replay h l end.

Lemma replay_app l : forall h k, replay h (l ++ k) = h' ← replay h l; replay h' k.
Proof. induction l as [|e l IH]; intros h k; [done|]. cbn. destruct (obey h e); [apply IH | done]. Qed.

(** ** A logic of what is held

    [obeys h m Q]: whatever the engine answers, the events of [m] obey the rules from [h],
    and lead to what [Q] says of the result. *)
Section Logic.
Context {E : Type}.

Definition obeys {A} (h : held) (m : M E A) (Q : A -> held -> Prop) : Prop :=
  forall e x e' l, m e = Some (x, e', l) -> exists h', replay h l = Some h' /\ Q x h'.

Lemma obeys_ret {A} h (x : A) (Q : A -> held -> Prop) : Q x h -> obeys h (mret x) Q.
Proof. intros H e y e' l [= <- <- <-]. by exists h. Qed.

Lemma obeys_bind {A B} h (m : M E A) (k : A -> M E B) R Q : obeys h m R -> (forall x h', R x h' -> obeys h' (k x) Q) -> obeys h (m ≫= k) Q.
Proof.
  intros Hm Hk e y e2 l Eq. unfold mbind, M_bind in Eq. cbn in Eq. destruct (m e) as [[[x e1] l1]|] eqn:Em; [|done]. cbn in Eq.
  destruct (k x e1) as [[[y' e3] l2]|] eqn:Ek; [|done]. cbn in Eq. injection Eq as -> -> <-.
  destruct (Hm _ _ _ _ Em) as (h1 & R1 & HR). destruct (Hk x h1 HR _ _ _ _ Ek) as (h2 & R2 & HQ). exists h2. rewrite replay_app, R1. by split.
Qed.

Lemma obeys_op {A} h (f : E -> A * E) ev (Q : A -> held -> Prop) : (forall x, exists h', replay h (ev x) = Some h' /\ Q x h') -> obeys h (op f ev) Q.
Proof. intros H e x e' l Eq. unfold op in Eq. destruct (f e) as [y e1]. injection Eq as <- <- <-. apply H. Qed.

Lemma obeys_op_ h (f : E -> E) ev (Q : () -> held -> Prop) h' : obey h ev = Some h' -> Q () h' -> obeys h (op_ f ev) Q.
Proof. intros H HQ e x e' l [= <- <- <-]. exists h'. cbn. rewrite H. by split. Qed.

Lemma obeys_weaken {A} h (m : M E A) (Q Q' : A -> held -> Prop) : obeys h m Q -> (forall x h', Q x h' -> Q' x h') -> obeys h m Q'.
Proof. intros H HQ e x e' l Eq. destruct (H _ _ _ _ Eq) as (h' & R & Hq). exists h'. auto. Qed.

Lemma obeys_no_fuel {A} h (Q : A -> held -> Prop) : obeys h (@no_fuel E A) Q.
Proof. by intros e x e' l Eq. Qed.

Lemma obeys_if {A} h (b : bool) (m k : M E A) Q : (b = true -> obeys h m Q) -> (b = false -> obeys h k Q) -> obeys h (if b then m else k) Q.
Proof. destruct b; auto. Qed.

(** What is made before and freed after. *)
Lemma obeys_deferred {A} h (f : E -> E) ev (m : M E A) R Q : obeys h m R ->
  (forall x h', R x h' -> exists h2, obey h' ev = Some h2 /\ Q x h2) -> obeys h (deferred (op_ f ev) m) Q.
Proof.
  intros Hm Hd. unfold deferred. eapply obeys_bind; [exact Hm|]. intros x h' HR. destruct (Hd x h' HR) as (h2 & Ho & HQ).
  eapply obeys_bind; [by eapply (obeys_op_ h' f ev (fun _ h => h = h2))|]. intros _ ? ->. by apply obeys_ret.
Qed.

(** The same is held; jobs may have named contexts. *)
Definition same (h h' : held) : Prop :=
  h_rt h' = h_rt h /\ h_ctx h' = h_ctx h /\ h_jobs h ⊆ h_jobs h' /\ h_vals h' = h_vals h /\ h_strs h' = h_strs h.

Lemma same_refl h : same h h.
Proof. done. Qed.

Lemma same_trans h h1 h2 : same h h1 -> same h1 h2 -> same h h2.
Proof. intros (? & ? & ? & ? & ?) (? & ? & ? & ? & ?). split_and!; try congruence. by etransitivity. Qed.

Lemma usable_same h h' ctx : same h h' -> usable h ctx = true -> usable h' ctx = true.
Proof. intros (_ & Hc & Hj & _). unfold usable. rewrite !orb_true_iff, !bool_decide_eq_true, Hc. intros [H|H]; [by left | right; by apply Hj]. Qed.

Definition with_val (h : held) (v : jsValue) : held := mkHeld (h_rt h) (h_ctx h) (h_jobs h) (v :: h_vals h) (h_strs h).
Definition with_str (h : held) (p : Z) : held := mkHeld (h_rt h) (h_ctx h) (h_jobs h) (h_vals h) (p :: h_strs h).

Lemma remove_head {A} `{EqDecision A} (x : A) l : remove_one x (x :: l) = Some l.
Proof. cbn. by rewrite decide_True. Qed.

(** Freeing the value that was got last. *)
Lemma free_last h h' ctx v ev : ev = EFree ctx v \/ ev = EConsume ctx v -> same (with_val h v) h' -> usable h ctx = true ->
  exists h2, obey h' ev = Some h2 /\ same h h2.
Proof.
  intros Hev Hs Hu. assert (usable h' ctx = true) as Hu' by (by eapply usable_same). destruct Hs as (H1 & H2 & H3 & H4 & H5).
  exists (mkHeld (h_rt h') (h_ctx h') (h_jobs h') (h_vals h) (h_strs h')). split; [|by split_and!].
  destruct Hev as [-> | ->]; cbn [obey]; rewrite Hu', H4; cbn [with_val h_vals]; by rewrite remove_head.
Qed.
End Logic.

Abbreviation back h := (fun _ h' => same h h').


(** Every function of the program gives back what it took. *)
Section Discipline.
Context {E : Type}.
Variable C : engine E.

Lemma jsString_obeys h ctx v : usable h ctx = true -> v ∈ h_vals h -> obeys h (jsString C ctx v) (back h).
Proof.
  intros Hu Hv. unfold jsString.
  apply (obeys_bind _ _ _ (fun '(p, _, _) h' => h' = if p =? 0 then h else with_str h p)).
  { apply obeys_op. intros [[p n] b]. exists (if p =? 0 then h else with_str h p). split; [|done].
    cbn [replay obey]. rewrite Hu, bool_decide_eq_true_2 by done. cbn [allowed andb mbind option_bind].
    destruct (p =? 0); [done|]. cbn [replay obey]. by rewrite Hu. }
  intros [[p n] b] h' ->. destruct (p =? 0); [by apply obeys_ret|].
  eapply (obeys_deferred _ _ _ _ (fun _ h' => h' = with_str h p)); [by apply obeys_ret|].
  intros x h' ->. exists h. split; [|done]. cbn [obey]. unfold usable, with_str. cbn [h_ctx h_jobs h_strs]. fold (usable h ctx).
  rewrite Hu, remove_head. by destruct h.
Qed.

(** A value that is got, used by [m] and freed at the end. *)
Lemma obeys_value {A} h ctx (get : E -> jsValue * E) ev (m : jsValue -> M E A) : usable h ctx = true ->
  (forall v, replay h (ev v) = Some (with_val h v)) -> (forall v, obeys (with_val h v) (m v) (back (with_val h v))) ->
  obeys h (v ← op get ev; deferred (op_ (FreeValue C ctx v) (EFree ctx v)) (m v)) (back h).
Proof.
  intros Hu He Hm. apply (obeys_bind _ _ _ (fun v h' => h' = with_val h v)).
  { apply obeys_op. intros v. exists (with_val h v). by rewrite He. }
  intros v h' ->. eapply obeys_deferred; [apply Hm|]. intros x h' Hs. eapply free_last; eauto.
Qed.

Lemma own_val h ctx v : usable h ctx = true -> replay h [EOwn ctx v] = Some (with_val h v).
Proof. intros Hu. cbn. by rewrite Hu. Qed.

Lemma usable_val h ctx v : usable (with_val h v) ctx = usable h ctx.
Proof. done. Qed.

Lemma obeys_map {A B} h (m : M E A) (f : A -> B) : obeys h m (back h) -> obeys h (x ← m; mret (f x)) (back h).
Proof. intros Hm. eapply obeys_bind; [exact Hm|]. intros x h' Hs. by apply obeys_ret. Qed.

(** What follows a step that gives back what it took. *)
Lemma obeys_seq {A B} h (m : M E A) (k : A -> M E B) : obeys h m (back h) -> (forall x h', same h h' -> obeys h' (k x) (back h')) ->
  obeys h (m ≫= k) (back h).
Proof.
  intros Hm Hk. eapply obeys_bind; [exact Hm|]. intros x h' Hs. eapply obeys_weaken; [by apply Hk|]. intros y h2. by apply same_trans.
Qed.

Lemma obeys_call {A} h (f : E -> A * E) ev : (forall x, replay h (ev x) = Some h) -> obeys h (op f ev) (back h).
Proof. intros H. apply obeys_op. intros x. exists h. by rewrite H. Qed.

Lemma obeys_call_ h (f : E -> E) ev : obey h ev = Some h -> obeys h (op_ f ev) (back h).
Proof. intros H. by apply (obeys_op_ h f ev _ h). Qed.

Lemma use_ok h ctx : usable h ctx = true -> replay h [EUse ctx] = Some h.
Proof. intros Hu. cbn. by rewrite Hu. Qed.

Lemma jsException_obeys h ctx : usable h ctx = true -> obeys h (jsException C ctx) (back h).
Proof.
  intros Hu. apply obeys_value; [done | intros v; by apply own_val|]. intros v. apply obeys_map, jsString_obeys; [done | set_solver].
Qed.

Lemma failed_obeys h prefix ctx : usable h ctx = true -> obeys h (failed C prefix ctx) (back h).
Proof. intros Hu. by apply obeys_map, jsException_obeys. Qed.

(** The runtime and its context are there. *)
Definition in_use (rt ctx : Z) (h : held) : Prop := h_rt h = Some rt /\ usable h ctx = true.

Lemma in_use_same rt ctx h h' : same h h' -> in_use rt ctx h -> in_use rt ctx h'.
Proof. intros Hs [Hr Hu]. split; [|by eapply usable_same]. destruct Hs as [-> _]. done. Qed.

Lemma in_use_val rt ctx h v : in_use rt ctx (with_val h v) <-> in_use rt ctx h.
Proof. done. Qed.

Lemma use_rt h rt ctx l : in_use rt ctx h -> replay h (EUseRuntime rt :: l) = replay h l.
Proof. intros [Hr _]. cbn. by rewrite bool_decide_eq_true_2. Qed.

Lemma drain_obeys fuel filename rt ctx : forall h, in_use rt ctx h -> obeys h (drain C fuel filename rt ctx) (back h).
Proof.
  induction fuel as [|fuel IH]; intros h Hr; [apply obeys_no_fuel|]. cbn [drain].
  apply obeys_seq; [apply obeys_call; intros x; by rewrite (use_rt h rt ctx)|].
  intros pending h1 H1. apply (in_use_same _ _ _ _ H1) in Hr. destruct pending; [|by apply obeys_ret].
  apply (obeys_bind _ _ _ (fun '(_, c) h' => same h1 h' /\ usable h' (if c =? 0 then ctx else c) = true)).
  - apply obeys_op. intros [r c]. rewrite (use_rt h1 rt ctx) by done. destruct (c =? 0).
    + exists h1. split_and!; [done | done | apply Hr].
    + cbn. rewrite bool_decide_eq_true_2 by apply Hr. eexists. split; [done|]. split; [split_and!; cbn; set_solver|].
      unfold usable. cbn. rewrite orb_true_iff, !bool_decide_eq_true. right. set_solver.
  - intros [r c] h2 [Hs Hu]. destruct (r <? 0).
    + eapply obeys_weaken; [by apply failed_obeys|]. intros x h3. by apply same_trans.
    + eapply obeys_weaken; [apply IH; by eapply in_use_same|]. intros x h3. by apply same_trans.
Qed.

Lemma jobs_obeys fuel filename rt ctx : forall h, in_use rt ctx h -> obeys h (jobs C fuel filename rt ctx) (back h).
Proof.
  induction fuel as [|fuel IH]; intros h Hr; [apply obeys_no_fuel|]. cbn [jobs].
  apply obeys_seq; [by apply drain_obeys|]. intros [err|] h1 H1; [by apply obeys_ret|]. apply (in_use_same _ _ _ _ H1) in Hr.
  apply obeys_seq; [apply obeys_call; intros x; apply use_ok, Hr|]. intros work h2 H2. apply (in_use_same _ _ _ _ H2) in Hr.
  destruct (work <? 0); [apply failed_obeys, Hr|]. destruct (work =? 0); [by apply obeys_ret | by apply IH].
Qed.

Lemma rejections_obeys filename ctx allow h : usable h ctx = true -> obeys h (rejections C filename ctx allow) (back h).
Proof.
  intros Hu. apply obeys_seq; [apply obeys_call; intros x; by apply use_ok|]. intros n h1 H1. apply (usable_same _ _ _ H1) in Hu.
  apply obeys_if; intros _; [|by apply obeys_ret].
  apply obeys_value; [done | intros v; by apply own_val|]. intros v. apply obeys_map, jsString_obeys; [done | set_solver].
Qed.

Lemma look_ok h ctx v l : usable h ctx = true -> v ∈ h_vals h -> replay h (ELook ctx v :: l) = replay h l.
Proof. intros Hu Hv. cbn. by rewrite Hu, bool_decide_eq_true_2. Qed.

Lemma module_result_obeys filename ctx result h : usable h ctx = true -> result ∈ h_vals h -> obeys h (module_result C filename ctx result) (back h).
Proof.
  intros Hu Hv. apply obeys_seq; [apply obeys_call; intros x; by rewrite look_ok|]. intros n h1 H1. apply (usable_same _ _ _ H1) in Hu.
  assert (result ∈ h_vals h1) as Hv1 by (by destruct H1 as (_ & _ & _ & -> & _)).
  apply obeys_if; intros _; [by apply obeys_ret|]. apply obeys_if; intros _; [|by apply obeys_ret].
  apply obeys_value; [done | intros v; rewrite look_ok by done; by apply own_val|]. intros v. apply obeys_map, jsString_obeys; [done | set_solver].
Qed.

Lemma show_result_obeys filename ctx result h : usable h ctx = true -> result ∈ h_vals h -> obeys h (show_result C filename ctx result) (back h).
Proof.
  intros Hu Hv. apply obeys_seq; [by apply jsString_obeys|]. intros [t|e] h1 H1; [|by apply obeys_ret].
  apply obeys_map. intros e x e' l [= <- <- <-]. by exists h1.
Qed.

Lemma then_obeys h (m k : M E (option string)) : obeys h m (back h) -> (forall h', same h h' -> obeys h' k (back h')) -> obeys h (then_ m k) (back h).
Proof. intros Hm Hk. apply obeys_seq; [done|]. intros [e|] h' Hs; [by apply obeys_ret | by apply Hk]. Qed.

Lemma consume_ok h ctx v l : usable h ctx = true -> replay (with_val h v) (EConsume ctx v :: l) = replay h l.
Proof. intros Hu. cbn. fold (with_val h v). rewrite usable_val, Hu, decide_True by done. by destruct h. Qed.

(** What the steps of [evaluate] rely on after the evaluation. *)
Lemma holds_same rt ctx v h h' : same h h' -> in_use rt ctx h /\ v ∈ h_vals h -> in_use rt ctx h' /\ v ∈ h_vals h'.
Proof. intros Hs [Hr Hv]. split; [by eapply in_use_same|]. by destruct Hs as (_ & _ & _ & -> & _). Qed.

Lemma evaluate_obeys fuel rt ctx source filename module showResult allow h : in_use rt ctx h ->
  obeys h (evaluate C fuel rt ctx source filename module showResult allow) (back h).
Proof.
  intros Hr. unfold evaluate.
  apply (obeys_bind _ _ _ (fun v h' => h' = if is_exception v then h else with_val h v)).
  { apply obeys_op. intros v. eexists. split; [|done]. unfold given. destruct (is_exception v); [apply use_ok, Hr | apply own_val, Hr]. }
  intros compiled h' ->. destruct (is_exception compiled); [apply failed_obeys, Hr|].
  apply (obeys_bind _ _ _ (fun v h' => h' = if is_exception v then h else with_val h v)).
  { apply obeys_op. intros v. eexists. split; [|done]. rewrite consume_ok by apply Hr.
    unfold given. destruct (is_exception v); [apply use_ok, Hr | apply own_val, Hr]. }
  intros result h' ->. destruct (is_exception result); [apply failed_obeys, Hr|].
  eapply obeys_deferred; [|intros x h' Hs; eapply free_last; [by left | exact Hs | apply Hr]].
  set (hv := with_val h result). assert (in_use rt ctx hv /\ result ∈ h_vals hv) as Hv by (split; [done | set_solver]). clearbody hv.
  apply then_obeys; [|intros h1 H1; apply (holds_same _ _ _ _ _ H1) in Hv; apply then_obeys; [|intros h2 H2; apply (holds_same _ _ _ _ _ H2) in Hv; apply then_obeys; [|intros h3 H3; apply (holds_same _ _ _ _ _ H3) in Hv]]].
  - apply obeys_if; intros _; [apply show_result_obeys; apply Hv | by apply obeys_ret].
  - apply jobs_obeys, Hv.
  - apply rejections_obeys, Hv.
  - apply obeys_if; intros _; [apply module_result_obeys; apply Hv | by apply obeys_ret].
Qed.

(** The functions that [run] defers need the context only. *)
Lemma obeys_after {A} h ctx (f : E -> E) (m : M E A) : usable h ctx = true -> obeys h m (back h) -> obeys h (deferred (op_ f (EUse ctx)) m) (back h).
Proof.
  intros Hu Hm. eapply obeys_deferred; [exact Hm|]. intros x h' Hs. exists h'. split; [|done]. cbn. by rewrite (usable_same _ _ _ Hs Hu).
Qed.

Lemma with_context_obeys fuel o rt ctx source filename module h : in_use rt ctx h -> obeys h (with_context C fuel o rt ctx source filename module) (back h).
Proof.
  intros Hr. apply obeys_seq; [apply obeys_call; intros x; apply use_ok, Hr|]. intros i h1 H1. apply (in_use_same _ _ _ _ H1) in Hr.
  apply obeys_if; intros _; [apply failed_obeys, Hr|].
  apply obeys_seq; [apply obeys_if; intros _; [apply obeys_call; intros x; apply use_ok, Hr | by apply obeys_ret]|].
  intros s h2 H2. apply (in_use_same _ _ _ _ H2) in Hr. apply obeys_if; intros _; [apply failed_obeys, Hr|].
  do 2 (apply obeys_after; [apply Hr|]).
  apply obeys_seq; [apply obeys_if; intros _; [apply obeys_call_; cbn; by rewrite bool_decide_eq_true_2 by apply Hr | by apply obeys_ret]|].
  intros _ h3 H3. apply (in_use_same _ _ _ _ H3) in Hr. by apply evaluate_obeys.
Qed.

Variable read_file : string -> res string (list Z).
Variable read_stdin : res string (list Z).

Lemma detect_obeys o filename source h : obeys h (is_module C o filename source) (fun _ h' => h' = h).
Proof.
  unfold is_module. repeat (apply obeys_if; intros _); try by apply obeys_ret.
  eapply obeys_bind; [|intros x h' Hx; by apply obeys_ret, Hx]. apply obeys_op. intros x. by exists h.
Qed.

(** A run holds nothing at its end. *)
Lemma run_obeys fuel args : obeys nothing (run C read_file read_stdin fuel args) (fun _ h => h = nothing).
Proof.
  unfold run. destruct (_ : res _ _) as [[[o filename] source]|err]; [|by apply obeys_ret].
  eapply obeys_bind; [apply detect_obeys|]. intros module h ->.
  apply (obeys_bind _ _ _ (fun rt h => h = if rt =? 0 then nothing else mkHeld (Some rt) None [] [] [])).
  { apply obeys_op. intros rt. eexists. split; [|done]. by destruct (rt =? 0). }
  intros rt h ->. destruct (rt =? 0); [by apply obeys_ret|].
  set (h0 := mkHeld (Some rt) None [] [] []).
  apply (obeys_deferred _ _ _ _ (back h0)).
  2:{ intros x h' (H1 & H2 & _ & H4 & H5). exists nothing. split; [|done]. cbn. rewrite H1, H2, H4, H5. by rewrite !bool_decide_eq_true_2. }
  apply obeys_seq; [apply obeys_if; intros _; [apply obeys_call_; cbn; by rewrite bool_decide_eq_true_2 | by apply obeys_ret]|].
  intros _ h1 (H1 & H2 & H3 & H4 & H5).
  apply (obeys_bind _ _ _ (fun ctx h => h = if ctx =? 0 then h1 else mkHeld (h_rt h1) (Some ctx) (h_jobs h1) (h_vals h1) (h_strs h1))).
  { apply obeys_op. intros ctx. eexists. split; [|done]. cbn. rewrite H1, bool_decide_eq_true_2 by done.
    cbn. destruct (ctx =? 0); [done|]. cbn. by rewrite H1, H2, !bool_decide_eq_true_2. }
  intros ctx h ->. destruct (ctx =? 0); [by apply obeys_ret|].
  eapply obeys_deferred; [apply (with_context_obeys _ _ rt ctx)|].
  - split; [done|]. unfold usable. cbn. by rewrite bool_decide_eq_true_2.
  - intros x h' (K1 & K2 & K3 & K4 & K5). cbn in K1, K2, K3, K4, K5. eexists. split.
    + cbn. rewrite K2, K4, K5, H4, H5, !bool_decide_eq_true_2 by done. done.
    + split_and!; cbn; [done | done | done | by rewrite H4 | by rewrite H5].
Qed.
End Discipline.

(** ** Termination

    The one unbounded loop is the one over jobs and messages.  [turn]: one of its turns. *)
Section Turns.
Context {E : Type}.
Variable C : engine E.

Inductive turn (rt ctx : Z) : E -> E -> Prop :=
| turn_job e e1 e2 r c : IsJobPending C rt e = (true, e1) -> ExecutePendingJob C rt e1 = (r, c, e2) -> 0 <= r -> turn rt ctx e e2
| turn_message e e1 e2 w : IsJobPending C rt e = (false, e1) -> cli_dispatch C ctx e1 = (w, e2) -> 0 < w -> turn rt ctx e e2.

(** With enough fuel there is a result, and it is the same for all larger ones. *)
Definition returns {A} (m : nat -> M E A) (e : E) : Prop := exists r n, forall fuel, (n <= fuel)%nat -> m fuel e = Some r.

Lemma returns_bind {A B} (m : nat -> M E A) (k : nat -> A -> M E B) e : returns m e -> (forall x e', returns (fun fuel => k fuel x) e') ->
  returns (fun fuel => m fuel ≫= k fuel) e.
Proof.
  intros ([[x e'] l] & n & Hm) Hk. destruct (Hk x e') as ([[y e2] l'] & n' & Hk'). exists (y, e2, l ++ l'), (n + n')%nat. intros fuel Hf.
  unfold mbind, M_bind. rewrite Hm by lia. cbn. by rewrite Hk' by lia.
Qed.

Lemma returns_ret {A} (x : A) e : returns (fun _ => mret x) e.
Proof. by exists (x, e, []), 0%nat. Qed.

Lemma returns_op {A} (f : E -> A * E) ev e : returns (fun _ => op f ev) e.
Proof. destruct (f e) as [x e'] eqn:F. exists (x, e', ev x), 0%nat. intros fuel _. unfold op. by rewrite F. Qed.

Lemma returns_op_ (f : E -> E) ev e : returns (fun _ => op_ f ev) e.
Proof. by exists ((), f e, [ev]), 0%nat. Qed.

Lemma returns_println s e : returns (fun _ => println s) e.
Proof. by exists ((), e, [EPrint s]), 0%nat. Qed.

Lemma returns_deferred {A} (d : M E ()) (m : nat -> M E A) e : (forall e, returns (fun _ => d) e) -> returns m e -> returns (fun fuel => deferred d (m fuel)) e.
Proof.
  intros Hd Hm. unfold deferred. apply (returns_bind m (fun _ x => _ ← d; mret x)); [done|]. intros x e'.
  apply (returns_bind (fun _ => d) (fun _ _ => mret x)); [done|]. intros _ e2. apply returns_ret.
Qed.

Lemma returns_if {A} (b : bool) (m k : nat -> M E A) e : returns m e -> returns k e -> returns (fun fuel => if b then m fuel else k fuel) e.
Proof. by destruct b. Qed.
End Turns.

Create HintDb returns.
#[export] Hint Resolve returns_ret returns_op returns_op_ returns_println : returns.

(** Through binds, deferred calls and case distinctions. *)
Ltac returning :=
  intros; cbv beta;
  first
  [ solve [auto with returns]
  | apply returns_deferred; returning
  | apply returns_if; returning
  | apply returns_bind; [returning | returning]
  | match goal with |- context [match ?x with _ => _ end] => destruct x; returning end
  | idtac ].

Section Returns.
Context {E : Type}.
Variable C : engine E.

Lemma jsString_returns ctx v e : returns (fun _ => jsString C ctx v) e.
Proof. unfold jsString. returning. Qed.
#[local] Hint Resolve jsString_returns : returns.

Lemma jsException_returns ctx e : returns (fun _ => jsException C ctx) e.
Proof. unfold jsException. returning. Qed.
#[local] Hint Resolve jsException_returns : returns.

Lemma failed_returns p ctx e : returns (fun _ => failed C p ctx) e.
Proof. unfold failed. returning. Qed.
#[local] Hint Resolve failed_returns : returns.

Lemma rejections_returns filename ctx allow e : returns (fun _ => rejections C filename ctx allow) e.
Proof. unfold rejections. returning. Qed.

Lemma module_result_returns filename ctx result e : returns (fun _ => module_result C filename ctx result) e.
Proof. unfold module_result. returning. Qed.

Lemma show_result_returns filename ctx result e : returns (fun _ => show_result C filename ctx result) e.
Proof. unfold show_result. returning. Qed.
#[local] Hint Resolve rejections_returns module_result_returns show_result_returns : returns.

Lemma is_module_returns o filename source e : returns (fun _ => is_module C o filename source) e.
Proof. unfold is_module. returning. Qed.
#[local] Hint Resolve is_module_returns : returns.

Lemma failed_some p ctx e x e' l : failed C p ctx e = Some (x, e', l) -> x <> None.
Proof. unfold failed, mbind, M_bind. destruct (jsException C ctx e) as [[[t e1] l1]|]; [|done]. cbn. by intros [= <- _ _]. Qed.

(** One turn of the job loop, unfolded. *)
Lemma drain_turn fuel filename rt ctx e : drain C (S fuel) filename rt ctx e =
  let '(pending, e1) := IsJobPending C rt e in
  if pending then
    let '(r, c, e2) := ExecutePendingJob C rt e1 in
    '(x, e3, l) ← (if r <? 0 then failed C ("qjscli:runtime: " +:+ filename +:+ ": pending job: ") (if c =? 0 then ctx else c) else drain C fuel filename rt ctx) e2;
    Some (x, e3, EUseRuntime rt :: EUseRuntime rt :: (if c =? 0 then [] else [EJob rt c]) ++ l)
  else Some (None, e1, [EUseRuntime rt]).
Proof.
  cbn [drain]. unfold mbind, M_bind, op. destruct (IsJobPending C rt e) as [[] e1]; [|done].
  cbn -[failed drain]. destruct (ExecutePendingJob C rt e1) as [[r c] e2]. cbn -[failed drain].
  destruct (r <? 0); [destruct (failed C _ _ e2) as [[[x e3] l]|] | destruct (drain C _ _ _ _ e2) as [[[x e3] l]|]]; done.
Qed.

Lemma drain_returns filename rt ctx e : Acc (flip (turn C rt ctx)) e ->
  exists r e' l n, (forall fuel, (n <= fuel)%nat -> drain C fuel filename rt ctx e = Some (r, e', l)) /\
    (r = None -> exists e0, rtc (turn C rt ctx) e e0 /\ IsJobPending C rt e0 = (false, e')).
Proof.
  induction 1 as [e _ IH]. destruct (IsJobPending C rt e) as [[] e1] eqn:P.
  - destruct (ExecutePendingJob C rt e1) as [[r c] e2] eqn:X. destruct (Z.ltb_spec r 0) as [N|N].
    + destruct (failed_returns ("qjscli:runtime: " +:+ filename +:+ ": pending job: ") (if c =? 0 then ctx else c) e2) as ([[x e3] l] & n & F).
      eexists x, e3, _, (S n). split; [|by intros ->; destruct (failed_some _ _ _ _ _ _ (F n (le_n n)))].
      intros [|fuel] Hf; [lia|]. rewrite drain_turn, P, X, (proj2 (Z.ltb_lt r 0)), (F n) by done. done.
    + assert (turn C rt ctx e e2) as T by by eapply turn_job. destruct (IH e2 T) as (x & e3 & l & n & F & Post).
      eexists x, e3, _, (S n). split.
      * intros [|fuel] Hf; [lia|]. rewrite drain_turn, P, X, (proj2 (Z.ltb_ge r 0)), F by (done || lia). done.
      * intros Hx. destruct (Post Hx) as (e0 & R & Q). exists e0. split; [by eapply rtc_l | done].
  - exists None, e1, [EUseRuntime rt], 1%nat. split; [|by exists e]. intros [|fuel] Hf; [lia|]. by rewrite drain_turn, P.
Qed.

(** The outer loop, after the jobs. *)
Lemma jobs_turn fuel filename rt ctx e r e' l : drain C (S fuel) filename rt ctx e = Some (r, e', l) -> jobs C (S fuel) filename rt ctx e =
  match r with
  | Some err => Some (Some err, e', l)
  | None =>
      let '(work, e2) := cli_dispatch C ctx e' in
      '(x, e3, l') ← (if work <? 0 then failed C ("qjscli:runtime: " +:+ filename +:+ ": worker callback: ") ctx
                      else if work =? 0 then mret None else jobs C fuel filename rt ctx) e2;
      Some (x, e3, l ++ EUse ctx :: l')
  end.
Proof.
  intros D. cbn [jobs]. unfold mbind at 1, M_bind at 1. rewrite D. cbn -[failed drain mret jobs]. destruct r as [err|].
  - cbn. by rewrite app_nil_r.
  - unfold mbind, M_bind, op. destruct (cli_dispatch C ctx e') as [work e2]. cbn -[failed drain mret jobs].
    by destruct (_ : M E _) as [[[x e3] l']|].
Qed.

Hypothesis ends : forall rt ctx, well_founded (flip (turn C rt ctx)).

Lemma jobs_returns filename rt ctx e : returns (fun fuel => jobs C fuel filename rt ctx) e.
Proof.
  assert (forall e0, rtc (turn C rt ctx) e e0 -> returns (fun fuel => jobs C fuel filename rt ctx) e0) as All; [|by apply All].
  induction (ends rt ctx e) as [e _ IH].
  assert (forall e0, rtc (turn C rt ctx) e e0 -> e0 = e \/ returns (fun fuel => jobs C fuel filename rt ctx) e0) as Later.
  { intros e0 R. inversion R as [|? e1 ? T R']; subst; [by left | right; by apply (IH e1)]. }
  intros e0 R. destruct (Later e0 R) as [-> | Done]; [|exact Done].
  destruct (drain_returns filename rt ctx e (ends rt ctx e)) as (r & e' & l & n & D & Post). destruct r as [err|].
  { eexists (Some err, e', l), (S n). intros [|fuel] Hf; [lia|]. by rewrite (jobs_turn _ _ _ _ _ _ _ _ (D (S fuel) ltac:(lia))). }
  destruct (Post eq_refl) as (e1 & R1 & Q). destruct (cli_dispatch C ctx e') as [work e2] eqn:W.
  assert (returns (fun fuel => if work <? 0 then failed C ("qjscli:runtime: " +:+ filename +:+ ": worker callback: ") ctx
                      else if work =? 0 then mret None else jobs C fuel filename rt ctx) e2) as ([[x e3] l'] & n' & F).
  { destruct (Z.ltb_spec work 0); [apply failed_returns|]. destruct (Z.eqb_spec work 0); [apply returns_ret|].
    assert (turn C rt ctx e1 e2) as T by (eapply turn_message; [done..|lia]).
    inversion R1 as [|? e4 ? T' R']; subst; [by apply (IH e2) | apply (IH e4 T')]. by eapply rtc_r. }
  eexists _, (S (n + n')). intros [|fuel] Hf; [lia|]. rewrite (jobs_turn _ _ _ _ _ _ _ _ (D (S fuel) ltac:(lia))), W, F by lia. done.
Qed.

Lemma evaluate_returns rt ctx source filename module showResult allow e : returns (fun fuel => evaluate C fuel rt ctx source filename module showResult allow) e.
Proof. pose proof jobs_returns. unfold evaluate, then_. returning. Qed.

Lemma with_context_returns o rt ctx source filename module e : returns (fun fuel => with_context C fuel o rt ctx source filename module) e.
Proof. pose proof evaluate_returns. unfold with_context. returning. Qed.

(** C31. If the turns of the job loop cannot go on forever, the program returns: one amount of
    fuel is enough, and more fuel gives the same result, state and events. *)
Theorem run_returns read_file read_stdin args e : exists r n, forall fuel, (n <= fuel)%nat -> run C read_file read_stdin fuel args e = Some r.
Proof.
  change (returns (fun fuel => run C read_file read_stdin fuel args) e). pose proof with_context_returns. unfold run. returning.
Qed.
End Returns.

(** C28. Whatever the engine answers and however the run ends (usage errors, a file that is not
    there, a runtime or context that is not made, exceptions of the parser, of the program, of
    a job of another context or of a worker, rejected promises and modules), its calls obey the
    rules of the interface: every value, C string, context and runtime is used only while it is
    held, the exception of a failed job is taken from the context of that job, and each is
    freed exactly once, values before the context and the context before the runtime; at the
    end nothing is held. *)
Theorem run_disciplined {E} (C : engine E) read_file read_stdin fuel args e r e' l :
  run C read_file read_stdin fuel args e = Some (r, e', l) -> replay nothing l = Some nothing.
Proof. intros H. destruct (run_obeys C read_file read_stdin fuel args _ _ _ _ H) as (h & Hr & ->). exact Hr. Qed.

(** ** An engine

    Jobs that are pending, messages of workers, each of which queues a job, and a counter for
    addresses and values.  An evaluation queues two jobs. *)

Record demo := mkDemo { d_jobs : nat; d_messages : nat; d_next : Z }.

Definition fresh (d : demo) : Z * demo := (d_next d, mkDemo (d_jobs d) (d_messages d) (d_next d + 1)).

Definition demo_engine (throws : bool) : engine demo := mkEngine demo
  fresh (fun _ _ d => d) (fun _ d => d) (fun _ d => fresh d) (fun _ d => d)
  (fun _ _ _ _ d => let '(n, d) := fresh d in (mkVal n 0, d))
  (fun _ _ d => let '(n, d) := fresh d in (mkVal n (if throws then 6 else 0), mkDemo (2 + d_jobs d) (d_messages d) (d_next d)))
  (fun _ d => let '(n, d) := fresh d in (mkVal n 1, d))
  (fun _ v d => let '(n, d) := fresh d in let b := bytes_of_string (dec (jv_payload v)) in (n, zlen b, b, d))
  (fun _ _ d => d) (fun _ _ d => d)
  (fun _ d => (negb (d_jobs d =? 0)%nat, d))
  (fun _ d => (1, 1, mkDemo (pred (d_jobs d)) (d_messages d) (d_next d)))
  (fun _ _ d => (1, d)) (fun _ _ d => let '(n, d) := fresh d in (mkVal n 1, d))
  (fun _ d => (0, d)) (fun _ d => (0, d)) (fun _ d => (0, d)) (fun _ d => (0, d)) (fun _ d => let '(n, d) := fresh d in (mkVal n 1, d))
  (fun _ d => d) (fun _ _ d => d)
  (fun _ d => match d_messages d with O => (0, d) | S m => (1, mkDemo (S (d_jobs d)) m (d_next d)) end)
  (fun _ d => d).

Definition no_file (name : string) : res string (list Z) := Fail ("open " +:+ name +:+ ": no such file or directory").

Lemma demo_ends throws rt ctx : well_founded (flip (turn (demo_engine throws) rt ctx)).
Proof.
  apply (wf_projected lt (fun d => 2 * d_messages d + d_jobs d)%nat); [|apply lt_wf]. intros d2 d H.
  inversion H as [? e1 ? r c P X Hr | ? e1 ? w P X Hw]; subst; cbn in P, X.
  - injection P as P <-. injection X as _ _ <-. cbn. destruct (d_jobs d); [done | cbn; lia].
  - injection P as P <-. destruct (d_messages d) as [|m] eqn:Em; injection X as <- <-; [done|]. cbn. rewrite ?Em. lia.
Qed.

Lemma run_returns_witness : well_founded (flip (turn (demo_engine false) 1 2)) /\
  exists r n, forall fuel, (n <= fuel)%nat -> run (demo_engine false) no_file (Fail "") fuel ["-e"; "6*7"] (mkDemo 0 2 1) = Some r.
Proof. split; [apply demo_ends | apply run_returns, demo_ends]. Defined.

(** The events of an evaluation: two jobs, two messages with a job each. *)
Example demo_run : run (demo_engine false) no_file (Fail "") 9 ["-e"; "6*7"] (mkDemo 0 2 1) =
  Some (None, mkDemo 0 0 6,
        [ENewRuntime 1; EUseRuntime 1; ENewContext 1 2; EUse 2; EOwn 2 (mkVal 3 0); EConsume 2 (mkVal 3 0); EOwn 2 (mkVal 4 0);
         ELook 2 (mkVal 4 0); EString 2 5; EFreeString 2 5; EPrint "4"] ++
        [EUseRuntime 1; EUseRuntime 1; EJob 1 1; EUseRuntime 1; EUseRuntime 1; EJob 1 1; EUseRuntime 1; EUse 2] ++
        [EUseRuntime 1; EUseRuntime 1; EJob 1 1; EUseRuntime 1; EUse 2; EUseRuntime 1; EUseRuntime 1; EJob 1 1; EUseRuntime 1; EUse 2] ++
        [EUse 2; EFree 2 (mkVal 4 0); EUse 2; EUse 2; EFreeContext 2; EFreeRuntime 1]).
Proof. reflexivity. Qed.

(** An exception: its value and its text are freed too. *)
Definition thrown : option (option string * demo * list event) :=
  run (demo_engine true) no_file (Fail "") 1 ["--stack-size"; "64"; "-e"; "throw 1"] (mkDemo 0 0 1).

Lemma run_disciplined_witness : exists l, thrown = Some (Some "qjscli:runtime: <eval>: 5", mkDemo 2 0 7, l) /\ replay nothing l = Some nothing.
Proof. eexists. split; [reflexivity|]. apply (run_disciplined (demo_engine true) no_file (Fail "") 1 ["--stack-size"; "64"; "-e"; "throw 1"] (mkDemo 0 0 1) (Some "qjscli:runtime: <eval>: 5") (mkDemo 2 0 7)). reflexivity. Defined.

(** A file whose name is [<eval>] is not read: the empty expression is evaluated in its
    place, and its value is printed. *)
Example eval_named_file {E} (C : engine E) read_file read_stdin fuel e :
  run C read_file read_stdin fuel ["<eval>"] e = run C read_file read_stdin fuel ["-e"; ""] e.
Proof. reflexivity. Qed.

(** [--script] before [-m] is forgotten, after the file name it is an operand too many. *)
Example script_then_module : parse_args ["--script"; "-m"; "a.js"] = Ok (set_module default_options, "a.js", "") /\
  parse_args ["-m"; "a.js"; "--script"] = Fail usage.
Proof. by split. Qed.

(** The value of an option may look like an option; without one it is a file name. *)
Example option_values : parse_args ["--stack-size"; "-e"] = Fail "--stack-size requires a positive KiB count" /\
  parse_args ["--stack-size"] = Ok (default_options, "--stack-size", "") /\
  parse_args ["--interrupt-after"; "2147483648"; "a.js"] = Fail "--interrupt-after requires a positive 32-bit count" /\
  parse_args ["--stack-size"; "9007199254740991"; "a.js"] = Ok (set_stack default_options 9007199254740991, "a.js", "") /\
  parse_args ["--stack-size"; "9007199254740992"; "a.js"] = Fail "--stack-size requires a positive KiB count".
Proof. vm_compute. repeat split. Qed.

(** The size in bytes, for every count that is accepted, is not wrapped. *)
Lemma stack_size_bytes args : forall o o' rest, switches args o = Ok (o', rest) -> 0 <= op_stackSizeKB o * 1024 <= max_int -> 0 <= op_interruptAfter o < 2 ^ 31 ->
  0 <= op_stackSizeKB o' * 1024 <= max_int /\ 0 <= op_interruptAfter o' < 2 ^ 31.
Proof.
  assert (forall n (args : list string), (length args <= n)%nat -> forall o o' rest, switches args o = Ok (o', rest) ->
    0 <= op_stackSizeKB o * 1024 <= max_int -> 0 <= op_interruptAfter o < 2 ^ 31 ->
    0 <= op_stackSizeKB o' * 1024 <= max_int /\ 0 <= op_interruptAfter o' < 2 ^ 31) as All; [|intros o o' rest; by apply (All (length args))].
  clear args. intros n. induction n as [|n IH]; intros [|a rest] Hn o o' r H Hs Hi; cbn in Hn; try lia; [by injection H as <- _ | by injection H as <- _|].
  cbn [switches] in H. destruct (String.eqb a "--std"); [apply IH in H; [done|lia|done..]|].
  destruct (_ || _); [apply IH in H; [done|lia|done..]|]. destruct (String.eqb a _); [apply IH in H; [done|lia|done..]|].
  destruct rest as [|v rest]; [by injection H as <- _|]. cbn in Hn.
  destruct (String.eqb a "--interrupt-after").
  - destruct (Atoi_int v) as [k|]; [|done]. destruct ((k <=? 0) || (2147483647 <? k)) eqn:B; [done|]. apply orb_false_iff in B as [B1%Z.leb_gt B2%Z.ltb_ge].
    apply IH in H; [done | lia | done | cbn; lia].
  - destruct (String.eqb a "--stack-size"); [|by injection H as <- _].
    destruct (Atoi_int v) as [k|]; [|done]. destruct ((k <=? 0) || (max_int / 1024 <? k)) eqn:B; [done|]. apply orb_false_iff in B as [B1%Z.leb_gt B2%Z.ltb_ge].
    apply IH in H; [done | lia | change (op_stackSizeKB (set_stack o k)) with k; change (max_int / 1024) with 9007199254740991 in B2; change max_int with 9223372036854775807; lia | done].
Qed.
