(* ===== verification/QjsHost.v ===== *)
(** * Host functions of the QuickJS command line

    Models the Go functions that the C code of QuickJS calls through the stubs of
    [__go_extern]: the clocks, the local time and the growth of the stack of
    src/ports/quickjs/cli/main.go, and the sleep and poll of src/ports/quickjs/cli/worker.go.
    The clocks, the time zone and the system call are parameters.  The functions that hand a
    number to libm are not modelled. *)

From Stdlib Require Import ZArith Lia Ascii.
From stdpp Require Import base list strings gmap.
From S2P Require Import Prelude Text QjsProcess.

(** ** Clocks *)

(** Seconds and nanoseconds: of the monotonic clock for 1, else of the time of day, which is
    given as such a pair.  The division of Go truncates. *)
Definition gocGoClockGettime (nanotime : Z) (now : Z * Z) (clk : Z) : Z * Z :=
  if clk =? 1 then (Z.quot nanotime 1000000000, Z.rem nanotime 1000000000) else now.

(** The monotonic clock is split without loss, into a [timespec] in its range. *)
Lemma clock_monotonic nanotime now : 0 <= nanotime ->
  let '(s, ns) := gocGoClockGettime nanotime now 1 in s * 1000000000 + ns = nanotime /\ 0 <= s /\ 0 <= ns < 1000000000.
Proof.
  intros H. cbn. pose proof (Z.quot_rem' nanotime 1000000000). pose proof (Z.rem_bound_pos nanotime 1000000000 H).
  pose proof (Z.quot_pos nanotime 1000000000). lia.
Qed.

(** What a [time.Time] tells in its location; the month and the day of the year count from
    one. *)
Record civil := mkCivil { cv_Second : Z; cv_Minute : Z; cv_Hour : Z; cv_Day : Z; cv_Month : Z; cv_Year : Z; cv_Weekday : Z; cv_YearDay : Z;
  cv_IsDST : bool; cv_name : string; cv_offset : Z }.

Record gocTM := mkTM { tm_Sec : Z; tm_Min : Z; tm_Hour : Z; tm_Mday : Z; tm_Mon : Z; tm_Year : Z; tm_Wday : Z; tm_Yday : Z; tm_Isdst : Z;
  tm_GmtOff : Z; tm_Zone : Z }.

(** The loop over the bytes of the name; [n] turns are left of the 63. *)
Fixpoint zone_loop (n : nat) (name : list Z) (m : mem) (a : Z) : mem :=
  match n with
  | O => m
  | S n => match name with b :: name => zone_loop n name (<[a := b]> m) (a + 1) | [] => <[a := 0]> m end
  end.

Definition gocGoLocaltime (Local : Z -> civil) (seconds : Z) (m : mem) (zone : Z) : gocTM * mem :=
  let t := Local seconds in
  (mkTM (s32 (cv_Second t)) (s32 (cv_Minute t)) (s32 (cv_Hour t)) (s32 (cv_Day t)) (s32 (cv_Month t - 1)) (s32 (cv_Year t - 1900))
     (s32 (cv_Weekday t)) (s32 (cv_YearDay t - 1)) (if cv_IsDST t then 1 else 0) (cv_offset t) zone,
   <[zone + 63 := 0]> (zone_loop 63 (bytes_of_string (cv_name t)) m zone)).

Lemma zone_loop_out n : forall name m a x, x < a \/ a + Z.of_nat n <= x -> zone_loop n name m a !! x = m !! x.
Proof.
  induction n as [|n IH]; intros name m a x Hx; [done|]. cbn [zone_loop]. destruct name as [|b name].
  - apply lookup_insert_ne. lia.
  - rewrite IH by lia. apply lookup_insert_ne. lia.
Qed.

(** A string of up to 63 bytes and its zero, in 64 bytes. *)
Lemma zone_loop_laid n : forall name m a, Forall (fun b => b <> 0) name -> laid (<[a + Z.of_nat n := 0]> (zone_loop n name m a)) a (take n name).
Proof.
  induction n as [|n IH]; intros name m a Hn; cbn [zone_loop take].
  - cbn. rewrite Z.add_0_r. apply lookup_insert_eq.
  - destruct name as [|b name].
    + cbn. rewrite lookup_insert_ne by lia. apply lookup_insert_eq.
    + apply Forall_cons in Hn as [Hb Hn]. cbn [laid]. split_and!; [done | |].
      * rewrite lookup_insert_ne by lia. rewrite zone_loop_out by lia. apply lookup_insert_eq.
      * replace (a + Z.of_nat (S n)) with (a + 1 + Z.of_nat n) by lia. by apply IH.
Qed.

(** C reads the name of the zone, cut to 63 bytes; the 64 bytes of its buffer are all that
    is written. *)
Lemma localtime_zone Local seconds m zone : zone <> 0 -> Forall (fun b => b <> 0) (bytes_of_string (cv_name (Local seconds))) ->
  let '(tm, m') := gocGoLocaltime Local seconds m zone in
  gocQjsCliCString m' (tm_Zone tm) = Some (string_of_bytes (take 63 (bytes_of_string (cv_name (Local seconds))))) /\
  forall x, x < zone \/ zone + 64 <= x -> m' !! x = m !! x.
Proof.
  intros Hz Hn. cbn -[zone_loop]. split.
  - pose proof (zone_loop_laid 63 _ m zone Hn) as L. set (m' := <[_ := _]> _) in L |- *. unfold gocQjsCliCString.
    rewrite (proj2 (Z.eqb_neq zone 0)), (c_bytes_laid m' _ _ _ L) by (done || (pose proof (laid_size _ _ _ L); lia)). done.
  - intros x Hx. rewrite lookup_insert_ne by lia. apply zone_loop_out. lia.
Qed.

(** ** The growth of the stack

    [run] calls [forceGrow 40] so that the stack is moved once.  [true]: the program exits with 2. *)

Fixpoint forceGrow (n : nat) : bool :=
  let pad0 := u8 (Z.of_nat n) in
  let last := u8 (Z.of_nat n + 1) in
  match n with
  | S (S _ as k) => if negb (pad0 =? 0) then forceGrow k else false
  | _ => false
  end || (u8 (pad0 + last) =? 255).

Example forceGrow_40 : forceGrow 40 = false /\ forceGrow 126 = false /\ forceGrow 127 = true.
Proof. by vm_compute. Qed.

(** ** Workers *)

(** How long the goroutine sleeps. *)
Definition gocQjsCliWorkerSleep (nanoseconds : Z) : option Z := if 0 <? nanoseconds then Some nanoseconds else None.

Record poll_request := mkPoll { po_fds : Z; po_count : Z; po_timeoutMs : Z; po_result : Z }.

Definition set_poll_result (r : poll_request) (n : Z) : poll_request := mkPoll (po_fds r) (po_count r) (po_timeoutMs r) n.

Definition EINTR : Z := 4.

(** The request after the call and the nanoseconds of sleep.  [SYS_POLL] answers the number
    and the errno, for a pointer, a count and a timeout that are words: the conversions of
    the [int32]s keep the sign. *)
Definition gocQjsCliPoll (SYS_POLL : Z -> Z -> Z -> Z * Z) (request : option poll_request) : option poll_request * option Z :=
  match request with
  | None => (None, None)
  | Some r =>
      if po_count r <? 0 then (Some r, None)
      else if po_count r =? 0 then
        (Some (set_poll_result r 0), if 0 <? po_timeoutMs r then Some (po_timeoutMs r * 1000000) else None)
      else
        let '(n, errno) := SYS_POLL (po_fds r) (u64 (po_count r)) (u64 (po_timeoutMs r)) in
        if negb (errno =? 0) then (Some (set_poll_result r (if errno =? EINTR then 0 else s32 (- s32 errno))), None)
        else (Some (set_poll_result r (s32 n)), None)
  end.

(** -1 waits forever: the kernel takes the low 32 bits, and they are -1 again. *)
Lemma poll_timeout t : - 2 ^ 31 <= t < 2 ^ 31 -> s32 (u64 t) = t.
Proof.
  intros H. unfold s32, u64, swrap, wrap. cbn in H |- *. Z.to_euclidean_division_equations; lia.
Qed.

(** The answer is zero for none and for an interrupt, else the number or the negated errno. *)
Lemma poll_answers SYS_POLL r n errno : 0 < po_count r -> SYS_POLL (po_fds r) (u64 (po_count r)) (u64 (po_timeoutMs r)) = (n, errno) ->
  0 <= errno < 2 ^ 31 -> 0 <= n < 2 ^ 31 ->
  fst (gocQjsCliPoll SYS_POLL (Some r)) = Some (set_poll_result r (if errno =? 0 then n else if errno =? EINTR then 0 else - errno)).
Proof.
  intros Hc Hp He Hn. unfold gocQjsCliPoll. rewrite (proj2 (Z.ltb_ge _ 0)), (proj2 (Z.eqb_neq (po_count r) 0)), Hp by lia.
  unfold s32. rewrite (swrap_small 32 errno), (swrap_small 32 (- errno)), (swrap_small 32 n) by lia. by destruct (errno =? 0); cbn.
Qed.
