(* ===== verification/Json.v ===== *)
(** * JSON as the lowering writes it

    Models [marshalIndent] of src/internal/lower/goabi.go, the encoder of encoding/json with
    two blanks of indentation and without the escapes for HTML, on values without floats.  A
    reader for JSON texts is the reference: it reads back every value whose strings are
    UTF-8. *)

From Stdlib Require Import ZArith Lia Ascii.
From stdpp Require Import base list strings gmap.
From S2P Require Import Prelude Text Consts.

Unset Elimination Schemes.
Inductive json :=
| JStr (s : string) | JNum (n : Z) | JBool (b : bool) | JArr (l : list json) | JObj (l : list (string * json)).
Set Elimination Schemes.

(** ** Strings *)

Definition cont (c : ascii) : bool := code_in 128 191 c.

(** The encodings of a character in two, three and four bytes, as [utf8.DecodeRune] accepts
    them: the shortest ones, no surrogates, up to U+10FFFF. *)
Definition two (a b : ascii) : bool := code_in 194 223 a && cont b.
Definition three (a b c : ascii) : bool :=
  ((code_in 224 224 a && code_in 160 191 b) || (code_in 237 237 a && code_in 128 159 b) ||
   ((code_in 225 236 a || code_in 238 239 a) && cont b)) && cont c.
Definition four (a b c d : ascii) : bool :=
  ((code_in 240 240 a && code_in 144 191 b) || (code_in 244 244 a && code_in 128 143 b) || (code_in 241 243 a && cont b)) && cont c && cont d.

(** U+2028 and U+2029. *)
Definition separator (a b c : ascii) : option string :=
  if code_in 226 226 a && code_in 128 128 b then
    if code_in 168 168 c then Some "\u2028" else if code_in 169 169 c then Some "\u2029" else None
  else None.

(** A byte below 128. *)
Definition escape (c : ascii) : string :=
  if Ascii.eqb c "\" then "\\"
  else if code_in 34 34 c then String "\" (String c "")
  else if code_in 8 8 c then "\b" else if code_in 9 9 c then "\t" else if code_in 10 10 c then "\n"
  else if code_in 12 12 c then "\f" else if code_in 13 13 c then "\r"
  else if code_in 0 31 c then "\u00" +:+ hex_bytes [byte_of_ascii c]
  else String c "".

(** What stands between the quotes; a byte that starts no character becomes U+FFFD. *)
Fixpoint escaped (s : string) : string :=
  match s with
  | EmptyString => ""
  | String a r =>
      if byte_of_ascii a <? 128 then escape a +:+ escaped r
      else match r with
      | String b r2 =>
          if two a b then String a (String b (escaped r2))
          else match r2 with
          | String c r3 =>
              if three a b c then
                match separator a b c with Some e => e +:+ escaped r3 | None => String a (String b (String c (escaped r3))) end
              else match r3 with
              | String d r4 => if four a b c d then String a (String b (String c (String d (escaped r4)))) else "\ufffd" +:+ escaped r
              | EmptyString => "\ufffd" +:+ escaped r
              end
          | EmptyString => "\ufffd" +:+ escaped r
          end
      | EmptyString => "\ufffd" +:+ escaped r
      end
  end.

(** ** Values *)

(** A new line, indented. *)
Definition line (d : nat) : string := String "010" (String.concat "" (replicate d "  ")).


Definition bool_word (b : bool) : string := if b then "true" else "false".

(** A value whose first line is indented by [d] steps. *)
Fixpoint encode (d : nat) (v : json) : string :=
  match v with
  | JStr s => quote (escaped s)
  | JNum n => dec n
  | JBool b => bool_word b
  | JArr [] => "[]"
  | JArr (x :: l) =>
      "[" +:+ line (S d) +:+ encode (S d) x +:+
      (fix items l := match l with [] => "" | y :: l => "," +:+ line (S d) +:+ encode (S d) y +:+ items l end) l +:+ line d +:+ "]"
  | JObj [] => "{}"
  | JObj ((k, x) :: l) =>
      "{" +:+ line (S d) +:+ quote (escaped k) +:+ ": " +:+ encode (S d) x +:+
      (fix members l := match l with [] => "" | (k, y) :: l => "," +:+ line (S d) +:+ quote (escaped k) +:+ ": " +:+ encode (S d) y +:+ members l end) l
      +:+ line d +:+ "}"
  end.

Definition marshalIndent (v : json) : string := encode 0%nat v.

(** ** A reader *)

Fixpoint skip_ws (s : string) : string :=
  match s with String c r => if code_in 32 32 c || code_in 9 10 c || code_in 13 13 c then skip_ws r else s | EmptyString => s end.

(** The value of a one-letter escape. *)
Definition unescape (c : ascii) : option ascii :=
  if Ascii.eqb c "b" then Some "008"%char else if Ascii.eqb c "t" then Some "009"%char else if Ascii.eqb c "n" then Some "010"%char
  else if Ascii.eqb c "f" then Some "012"%char else if Ascii.eqb c "r" then Some "013"%char
  else if Ascii.eqb c "\" || Ascii.eqb c "/" || code_in 34 34 c then Some c else None.

(** A string after its opening quote, and what follows it. *)
Fixpoint read_string (s : string) : option (string * string) :=
  match s with
  | EmptyString => None
  | String c r =>
      if code_in 34 34 c then Some ("", r)
      else if Ascii.eqb c "\" then
        match r with
        | String e r' =>
            if Ascii.eqb e "u" then
              match r' with
              | String h1 (String h2 (String h3 (String h4 r4))) =>
                  '(v, _) ← fixed_digits 16 4 0 (String h1 (String h2 (String h3 (String h4 ""))));
                  if valid_rune v then '(t, r) ← read_string r4; Some (string_of_bytes (encode_rune v) +:+ t, r) else None
              | _ => None
              end
            else x ← unescape e; '(t, r) ← read_string r'; Some (String x t, r)
        | EmptyString => None
        end
      else if code_in 0 31 c then None
      else '(t, r) ← read_string r; Some (String c t, r)
  end.

Fixpoint read_digits (s : string) : string * string :=
  match s with String c r => if re_digit c then let '(d, r) := read_digits r in (String c d, r) else ("", s) | EmptyString => ("", s) end.

Definition read_sign (s : string) : bool * string :=
  match s with String c r => if Ascii.eqb c "-" then (true, r) else (false, s) | EmptyString => (false, s) end.

Definition read_number (s : string) : option (Z * string) :=
  let '(neg, s) := read_sign s in
  let '(ds, r) := read_digits s in
  if String.eqb ds "" then None else Some ((if neg then -1 else 1) * digits_value 0 ds, r).

Definition read_word (s : string) : option (json * string) :=
  match after_prefix "true" s with
  | Some r => Some (JBool true, r)
  | None => match after_prefix "false" s with Some r => Some (JBool false, r) | None => '(n, r) ← read_number s; Some (JNum n, r) end
  end.

(** The value, the items and the members that a text starts with. *)
Fixpoint read_value (fuel : nat) (s : string) : option (json * string) :=
  match fuel with
  | O => None
  | S fuel =>
      match skip_ws s with
      | EmptyString => None
      | String c r =>
          if code_in 34 34 c then '(t, r) ← read_string r; Some (JStr t, r)
          else if Ascii.eqb c "[" then
            match skip_ws r with
            | String c' r' => if Ascii.eqb c' "]" then Some (JArr [], r') else '(l, r) ← read_items fuel r; Some (JArr l, r)
            | EmptyString => None
            end
          else if Ascii.eqb c "{" then
            match skip_ws r with
            | String c' r' => if Ascii.eqb c' "}" then Some (JObj [], r') else '(l, r) ← read_members fuel r; Some (JObj l, r)
            | EmptyString => None
            end
          else read_word (String c r)
      end
  end
with read_items (fuel : nat) (s : string) : option (list json * string) :=
  match fuel with
  | O => None
  | S fuel =>
      '(v, r) ← read_value fuel s;
      match skip_ws r with
      | String c r => if Ascii.eqb c "," then '(l, r) ← read_items fuel r; Some (v :: l, r) else if Ascii.eqb c "]" then Some ([v], r) else None
      | EmptyString => None
      end
  end
with read_members (fuel : nat) (s : string) : option (list (string * json) * string) :=
  match fuel with
  | O => None
  | S fuel =>
      match skip_ws s with
      | String q r =>
          if code_in 34 34 q then
            '(k, r) ← read_string r;
            match skip_ws r with
            | String c r =>
                if Ascii.eqb c ":" then
                  '(v, r) ← read_value fuel r;
                  match skip_ws r with
                  | String c r => if Ascii.eqb c "," then '(l, r) ← read_members fuel r; Some ((k, v) :: l, r) else if Ascii.eqb c "}" then Some ([(k, v)], r) else None
                  | EmptyString => None
                  end
                else None
            | EmptyString => None
            end
          else None
      | EmptyString => None
      end
  end.

(** A whole text. *)
Definition parse_json (s : string) : option json :=
  '(v, r) ← read_value (S (String.length s)) s; if String.eqb (skip_ws r) "" then Some v else None.

(** ** What is written is read back *)

Section Induction.
Variable P : json -> Prop.
Hypothesis str : forall s, P (JStr s).
Hypothesis num : forall n, P (JNum n).
Hypothesis bool : forall b, P (JBool b).
Hypothesis arr : forall l, Forall P l -> P (JArr l).
Hypothesis obj : forall l, Forall (fun kv => P kv.2) l -> P (JObj l).

Fixpoint json_ind (v : json) : P v :=
  match v with
  | JStr s => str s | JNum n => num n | JBool b => bool b
  | JArr l => arr l ((fix all l : Forall P l := match l with [] => Forall_nil_2 _ | x :: l => Forall_cons_2 _ _ _ (json_ind x) (all l) end) l)
  | JObj l => obj l ((fix all l : Forall (fun kv => P kv.2) l := match l with [] => Forall_nil_2 _ | (k, x) :: l => Forall_cons_2 _ (k, x) _ (json_ind x) (all l) end) l)
  end.
End Induction.

(** Well-formed UTF-8. *)
Inductive utf8 : string -> Prop :=
| utf8_nil : utf8 ""
| utf8_one a s : byte_of_ascii a < 128 -> utf8 s -> utf8 (String a s)
| utf8_two a b s : two a b = true -> utf8 s -> utf8 (String a (String b s))
| utf8_three a b c s : three a b c = true -> utf8 s -> utf8 (String a (String b (String c s)))
| utf8_four a b c d s : four a b c d = true -> utf8 s -> utf8 (String a (String b (String c (String d s)))).

Lemma ascii_utf8 s : all_in (code_in 0 127) s = true -> utf8 s.
Proof.
  induction s as [|c s IH]; [constructor|]. cbn. intros [Hc Hs]%andb_true_iff. apply utf8_one; [|by apply IH].
  unfold code_in in Hc. lia.
Qed.

(** Every string of the value is UTF-8. *)
Fixpoint fine (v : json) : Prop :=
  match v with
  | JStr s => utf8 s
  | JNum _ | JBool _ => True
  | JArr l => (fix all l := match l with [] => True | x :: l => fine x /\ all l end) l
  | JObj l => (fix all l := match l with [] => True | (k, x) :: l => utf8 k /\ fine x /\ all l end) l
  end.

Definition quotation : ascii := "034"%char.

Lemma app_char c s t : String c s +:+ t = String c (s +:+ t).
Proof. done. Qed.

(** An escaped byte is read back. *)
Lemma read_escape c r : byte_of_ascii c < 128 -> read_string (escape c +:+ r) = '(t, r) ← read_string r; Some (String c t, r).
Proof.
  intros Hc. destruct c as [[] [] [] [] [] [] [] []]; try (exfalso; revert Hc; vm_compute; discriminate).
  all: reflexivity.
Qed.

Lemma read_high c r : 128 <= byte_of_ascii c -> read_string (String c r) = '(t, r) ← read_string r; Some (String c t, r).
Proof.
  intros H. cbn [read_string]. assert (code_in 34 34 c = false) as -> by (unfold code_in; lia). assert (code_in 0 31 c = false) as -> by (unfold code_in; lia).
  destruct (Ascii.eqb_spec c "\") as [->|_]; [by vm_compute in H | done].
Qed.

(** Which bytes the characters have. *)
Lemma two_bytes a b : two a b = true -> 194 <= byte_of_ascii a <= 223 /\ 128 <= byte_of_ascii b.
Proof. unfold two, cont, code_in. lia. Qed.
Lemma three_bytes a b c : three a b c = true -> 224 <= byte_of_ascii a <= 239 /\ 128 <= byte_of_ascii b /\ 128 <= byte_of_ascii c.
Proof. unfold three, cont, code_in. lia. Qed.
Lemma four_bytes a b c d : four a b c d = true -> 240 <= byte_of_ascii a /\ 128 <= byte_of_ascii b /\ 128 <= byte_of_ascii c /\ 128 <= byte_of_ascii d.
Proof. unfold four, cont, code_in. lia. Qed.
Lemma not_two a b : 224 <= byte_of_ascii a -> two a b = false.
Proof. unfold two, code_in. lia. Qed.
Lemma not_three a b c : 240 <= byte_of_ascii a -> three a b c = false.
Proof. unfold three, code_in. lia. Qed.

Lemma code_is n c : code_in n n c = true -> c = ascii_of_byte n.
Proof. unfold code_in. intros H. rewrite <-(ascii_of_byte_of_ascii c). f_equal. lia. Qed.

Lemma read_separator a b c e r : separator a b c = Some e -> read_string (e +:+ r) = '(t, r) ← read_string r; Some (String a (String b (String c t)), r).
Proof.
  unfold separator. destruct (code_in 226 226 a && code_in 128 128 b) eqn:H; [|done]. apply andb_true_iff in H as [->%code_is ->%code_is].
  destruct (code_in 168 168 c) eqn:H; [apply code_is in H as ->; intros [= <-]; reflexivity|].
  destruct (code_in 169 169 c) eqn:H'; [apply code_is in H' as ->; intros [= <-]; reflexivity | done].
Qed.

Lemma escaped_high a b r2 : 128 <= byte_of_ascii a -> escaped (String a (String b r2)) =
  if two a b then String a (String b (escaped r2))
  else match r2 with
  | String c r3 =>
      if three a b c then
        match separator a b c with Some e => e +:+ escaped r3 | None => String a (String b (String c (escaped r3))) end
      else match r3 with
      | String d r4 => if four a b c d then String a (String b (String c (String d (escaped r4)))) else "\ufffd" +:+ escaped (String b r2)
      | EmptyString => "\ufffd" +:+ escaped (String b r2)
      end
  | EmptyString => "\ufffd" +:+ escaped (String b r2)
  end.
Proof. intros H. cbn [escaped]. by rewrite (proj2 (Z.ltb_ge _ _) H). Qed.

Lemma read_escaped s r : utf8 s -> read_string (escaped s +:+ String quotation r) = Some (s, r).
Proof.
  induction 1 as [|a s Ha _ IH|a b s H _ IH|a b c s H _ IH|a b c d s H _ IH]; [done|..].
  - cbn [escaped]. rewrite (proj2 (Z.ltb_lt _ _) Ha), string_app_assoc, read_escape, IH by done. done.
  - destruct (two_bytes _ _ H). rewrite escaped_high, H by lia. by rewrite !app_char, !read_high, IH by lia.
  - destruct (three_bytes _ _ _ H) as (? & ? & ?). rewrite escaped_high, not_two, H by lia.
    destruct (separator a b c) as [e|] eqn:S; [by rewrite string_app_assoc, (read_separator _ _ _ _ _ S), IH|]. by rewrite !app_char, !read_high, IH by lia.
  - destruct (four_bytes _ _ _ _ H) as (? & ? & ? & ?). rewrite escaped_high, not_two, not_three, H by lia. by rewrite !app_char, !read_high, IH by lia.
Qed.

(** A text that does not go on with a digit. *)
Definition stops (s : string) : bool := match s with String c _ => negb (re_digit c) | EmptyString => true end.

Lemma read_digits_app ds r : all_in re_digit ds = true -> stops r = true -> read_digits (ds +:+ r) = (ds, r).
Proof.
  intros H Hr. induction ds as [|c ds IH].
  - change ("" +:+ r) with r. destruct r as [|c r]; [done|]. cbn in *. by destruct (re_digit c).
  - rewrite app_char. cbn in *. apply andb_true_iff in H as [-> H]. by rewrite IH.
Qed.

Lemma dec_neg n : n < 0 -> dec n = "-" +:+ dec (- n).
Proof. intros H. destruct n as [|p|p]; try lia. reflexivity. Qed.

Lemma no_sign ds r : ds <> "" -> all_in re_digit ds = true -> read_sign (ds +:+ r) = (false, ds +:+ r).
Proof.
  destruct ds as [|c ds]; [done|]. cbn. intros _ [Hc _]%andb_true_iff. rewrite app_char. cbn.
  destruct (Ascii.eqb_spec c "-") as [->|_]; [by vm_compute in Hc | done].
Qed.

Lemma read_number_dec n r : stops r = true -> read_number (dec n +:+ r) = Some (n, r).
Proof.
  intros Hr. unfold read_number. destruct (Z.ltb_spec n 0) as [N|N].
  - rewrite dec_neg by done. change (read_sign _) with (true, dec (- n) +:+ r). destruct (dec_digits (- n) ltac:(lia)) as (Ha & Hne & Hv).
    rewrite read_digits_app by done. rewrite (proj2 (String.eqb_neq _ _)), Hv by done. f_equal. f_equal. lia.
  - destruct (dec_digits n N) as (Ha & Hne & Hv). rewrite no_sign by done.
    rewrite read_digits_app by done. rewrite (proj2 (String.eqb_neq _ _)), Hv by done. by rewrite Z.mul_1_l.
Qed.

(** ** Values *)

Lemma skip_blanks n t : skip_ws (String.concat "" (replicate n "  ") +:+ t) = skip_ws t.
Proof.
  induction n as [|n IH]; [done|]. destruct n as [|n]; [done|].
  change (String.concat "" (replicate (S (S n)) "  ")) with ("  " +:+ "" +:+ String.concat "" (replicate (S n) "  ")).
  rewrite !string_app_assoc. exact IH.
Qed.

Lemma skip_line d t : skip_ws (line d +:+ t) = skip_ws t.
Proof. apply (skip_blanks d). Qed.

Lemma stops_line d t : stops (line d +:+ t) = true.
Proof. done. Qed.

(** The first character of a value is no blank. *)
Lemma skip_encoded d v r : skip_ws (encode d v +:+ r) = encode d v +:+ r.
Proof.
  destruct v as [s|n|b|[|x l]|[|[k x] l]]; [done| |by destruct b|done..]. cbn [encode].
  pose proof (dec_chars n) as H. pose proof (dec_inj n) as Hi. destruct (dec n) as [|c ds] eqn:E.
  { destruct n as [|p|p]; [done| |done]. by destruct (dec_digits (Z.pos p)) as (_ & ? & _). }
  cbn in H. apply andb_true_iff in H as [H _]. rewrite app_char. cbn [skip_ws].
  assert (code_in 32 32 c || code_in 9 10 c || code_in 13 13 c = false) as ->; [|done].
  unfold dec_char, re_digit, code_in in *. apply orb_true_iff in H as [H| ->%Ascii.eqb_eq]; [lia | done].
Qed.

Definition items (d : nat) : list json -> string :=
  fix items l := match l with [] => "" | y :: l => "," +:+ line (S d) +:+ encode (S d) y +:+ items l end.

Definition members (d : nat) : list (string * json) -> string :=
  fix members l := match l with [] => "" | (k, y) :: l => "," +:+ line (S d) +:+ quote (escaped k) +:+ ": " +:+ encode (S d) y +:+ members l end.

Lemma encode_arr d x l : encode d (JArr (x :: l)) = "[" +:+ line (S d) +:+ encode (S d) x +:+ items d l +:+ line d +:+ "]".
Proof. done. Qed.

Lemma encode_obj d k x l : encode d (JObj ((k, x) :: l)) = "{" +:+ line (S d) +:+ quote (escaped k) +:+ ": " +:+ encode (S d) x +:+ members d l +:+ line d +:+ "}".
Proof. done. Qed.

(** What the theorem says of one value. *)
Definition reads (v : json) : Prop := forall d r s fuel, skip_ws s = encode d v +:+ r -> stops r = true -> (String.length (encode d v) < fuel)%nat ->
  read_value fuel s = Some (v, r).

Lemma stops_items d l t : stops (items d l +:+ line d +:+ t) = true.
Proof. by destruct l. Qed.

Lemma stops_members d l t : stops (members d l +:+ line d +:+ t) = true.
Proof. by destruct l as [|[k x] l]. Qed.

Lemma quote_app s t : quote s +:+ t = String quotation (s +:+ String quotation t).
Proof. unfold quote. by rewrite app_char, string_app_assoc. Qed.

Ltac lengths := cbn [String.length] in *; rewrite ?string_length_app in *; cbn [String.length] in *; lia.

Lemma read_items_encoded d l r : Forall reads l -> forall x s fuel, reads x -> skip_ws s = encode (S d) x +:+ items d l +:+ line d +:+ "]" +:+ r ->
  (String.length (encode (S d) x +:+ items d l +:+ line d +:+ "]") < fuel)%nat -> read_items fuel s = Some (x :: l, r).
Proof.
  induction 1 as [|y l Hy _ IH]; intros x s [|fuel] Hx Hs Hf; try lia; cbn [read_items].
  - rewrite (Hx (S d) (items d [] +:+ line d +:+ "]" +:+ r)) by (done || lengths). cbn [mbind option_bind items].
    change ("" +:+ line d +:+ "]" +:+ r) with (line d +:+ "]" +:+ r). by rewrite skip_line.
  - rewrite (Hx (S d) (items d (y :: l) +:+ line d +:+ "]" +:+ r)) by (done || lengths). cbn [mbind option_bind].
    change (items d (y :: l)) with ("," +:+ line (S d) +:+ encode (S d) y +:+ items d l) in *. rewrite !string_app_assoc in *.
    change (skip_ws ("," +:+ ?t)) with (String "," t). cbv iota. change (Ascii.eqb "," ",") with true. cbv iota.
    rewrite (IH y) by (done || rewrite ?skip_line, ?skip_encoded, ?string_app_assoc; done || lengths). done.
Qed.

Lemma read_members_encoded d l r : Forall (fun kv => reads kv.2) l -> Forall (fun kv => utf8 kv.1) l -> forall k x s fuel, utf8 k -> reads x ->
  skip_ws s = quote (escaped k) +:+ ": " +:+ encode (S d) x +:+ members d l +:+ line d +:+ "}" +:+ r ->
  (String.length (quote (escaped k) +:+ ": " +:+ encode (S d) x +:+ members d l +:+ line d +:+ "}") < fuel)%nat -> read_members fuel s = Some ((k, x) :: l, r).
Proof.
  intros Hl. induction Hl as [|[k' y] l Hy _ IH]; intros Hu k x s [|fuel] Hk Hx Hs Hf; try lia; cbn [read_members]; rewrite Hs.
  all: rewrite quote_app; cbv iota; change (code_in 34 34 quotation) with true; cbv iota; rewrite read_escaped by done; cbn [mbind option_bind].
  all: change (skip_ws (": " +:+ ?t)) with (String ":" (String " " t)); cbv iota; change (Ascii.eqb ":" ":") with true; cbv iota.
  - rewrite (Hx (S d) (members d [] +:+ line d +:+ "}" +:+ r)) by (done || apply skip_encoded || lengths). cbn [mbind option_bind].
    cbn [members]. change ("" +:+ ?t) with t. by rewrite skip_line.
  - apply Forall_cons in Hu as [Hk' Hu].
    rewrite (Hx (S d) (members d ((k', y) :: l) +:+ line d +:+ "}" +:+ r)) by (done || apply skip_encoded || lengths). cbn [mbind option_bind].
    change (members d ((k', y) :: l)) with ("," +:+ line (S d) +:+ quote (escaped k') +:+ ": " +:+ encode (S d) y +:+ members d l) in *. rewrite !string_app_assoc in *.
    change (skip_ws ("," +:+ ?t)) with (String "," t). cbv iota. change (Ascii.eqb "," ",") with true. cbv iota.
    rewrite (IH Hu k' y) by (done || (rewrite ?skip_line, ?quote_app, ?string_app_assoc; done) || lengths). done.
Qed.

Lemma dec_first n : exists c t, dec n = String c t /\ dec_char c = true.
Proof.
  pose proof (dec_chars n) as H. destruct (dec n) as [|c ds] eqn:E.
  { destruct n as [|p|p]; [done| |done]. by destruct (dec_digits (Z.pos p)) as (_ & ? & _). }
  cbn in H. apply andb_true_iff in H as [H _]. by exists c, ds.
Qed.

Lemma encode_first d v : exists c t, encode d v = String c t /\ Ascii.eqb c "]" = false.
Proof.
  destruct v as [s|n|b|[|x l]|[|[k x] l]]; cbn [encode]; [| |destruct b| | | |]; try (by repeat eexists).
  destruct (dec_first n) as (c & t & -> & H). exists c, t. split; [done|]. by destruct (Ascii.eqb_spec c "]") as [->|].
Qed.

(** A number is no string, list or object and no other word. *)
Lemma read_word_dec n r : stops r = true -> read_word (dec n +:+ r) = Some (JNum n, r).
Proof.
  intros Hr. unfold read_word. rewrite read_number_dec by done. destruct (dec_first n) as (c & t & -> & H). rewrite app_char. cbn [after_prefix].
  destruct (Ascii.eqb_spec "t" c) as [<-|_]; [done|]. by destruct (Ascii.eqb_spec "f" c) as [<-|_].
Qed.

Lemma fine_items l : fine (JArr l) -> Forall reads l <-> Forall (fun v => fine v -> reads v) l.
Proof.
  induction l as [|x l IH]; [done|]. intros [Hx Hl]. rewrite !Forall_cons, (IH Hl). tauto.
Qed.

Lemma fine_members l : fine (JObj l) -> Forall (fun kv => utf8 kv.1) l /\ (Forall (fun kv => reads kv.2) l <-> Forall (fun kv => fine kv.2 -> reads kv.2) l).
Proof.
  induction l as [|[k x] l IH]; [done|]. intros (Hk & Hx & Hl). destruct (IH Hl) as [Hu He]. rewrite !Forall_cons, He. cbn. tauto.
Qed.

Lemma read_encoded v : fine v -> reads v.
Proof.
  induction v as [s|n|b|l IH|l IH] using json_ind; intros Hv d r t [|fuel] Hs Hr Hf; try lia; cbn [read_value]; rewrite Hs.
  - cbn [encode]. rewrite quote_app. cbv iota. change (code_in 34 34 quotation) with true. cbv iota. by rewrite read_escaped.
  - cbn [encode]. pose proof (read_word_dec n r Hr) as W. destruct (dec_first n) as (c & ds & E & H). rewrite E, app_char in *. rewrite W.
    destruct (code_in 34 34 c) eqn:Q; [by apply code_is in Q as ->|].
    destruct (Ascii.eqb_spec c "[") as [->|_]; [done|]. by destruct (Ascii.eqb_spec c "{") as [->|_].
  - by destruct b.
  - apply (fine_items l Hv) in IH. destruct l as [|x l]; [done|]. apply Forall_cons in IH as [Hx Hl].
    rewrite encode_arr in *. rewrite !string_app_assoc in *. change ("[" +:+ ?t) with (String "[" t) in *. cbv iota.
    change (code_in 34 34 "[") with false. change (Ascii.eqb "[" "[") with true. cbv iota.
    set (body := line (S d) +:+ _ ). assert (skip_ws body = encode (S d) x +:+ items d l +:+ line d +:+ "]" +:+ r) as Hb by (unfold body; by rewrite skip_line, skip_encoded).
    rewrite Hb. destruct (encode_first (S d) x) as (c & t' & E & Hc). rewrite E, app_char, Hc.
    by rewrite (read_items_encoded d l r Hl x body fuel Hx Hb) by lengths.
  - destruct (fine_members l Hv) as [Hu He]. apply He in IH. destruct l as [|[k x] l]; [done|]. apply Forall_cons in IH as [Hx Hl]. apply Forall_cons in Hu as [Hk Hu].
    rewrite encode_obj in *. rewrite !string_app_assoc in *. change ("{" +:+ ?t) with (String "{" t) in *. cbv iota.
    change (code_in 34 34 "{") with false. change (Ascii.eqb "{" "[") with false. change (Ascii.eqb "{" "{") with true. cbv iota.
    set (body := line (S d) +:+ _ ).
    assert (skip_ws body = quote (escaped k) +:+ ": " +:+ encode (S d) x +:+ members d l +:+ line d +:+ "}" +:+ r) as Hb by (unfold body; by rewrite skip_line, quote_app).
    rewrite Hb, quote_app. change (Ascii.eqb quotation "}") with false. cbv iota.
    by rewrite (read_members_encoded d l r Hl Hu k x body fuel Hk Hx Hb) by lengths.
Qed.

(** What [marshalIndent] writes is one JSON value, the one that it was given. *)
Lemma parse_marshal v : fine v -> parse_json (marshalIndent v) = Some v.
Proof.
  intros Hv. unfold parse_json, marshalIndent. rewrite (read_encoded v Hv 0%nat ""); [done| | done | lia].
  by rewrite <-(string_app_nil (encode 0%nat v)) at 1; rewrite skip_encoded.
Qed.
