(* ===== verification/Sidecar.v ===== *)
(** * The sidecar of the Go ABI pass

    Models [goabi.json], which [runGoABI] of src/internal/lower/goabi.go returns as bytes and
    [WriteGoABI] writes: the structs of goabi.go and goabi_layout.go with their JSON names, in
    the order of their fields.  The file is read back without a loss. *)

From Stdlib Require Import ZArith Lia Ascii.
From stdpp Require Import base list strings gmap.
From S2P Require Import Prelude Text Layout Thunk GoAbi Json.

Definition strings_json (l : list string) : json := JArr (JStr <$> l).

(** [MarshalJSON] of a location. *)
Definition loc_json (l : loc) : json :=
  match l with
  | RegLoc r => JObj [("kind", JStr "register"); ("register", JStr r)]
  | StkLoc off => JObj [("kind", JStr "stack"); ("offset", JNum off)]
  end.

Definition typed_json (ty : string) (l : loc) : json := JObj [("type", JStr ty); ("location", loc_json l)].

Definition side_json (s : abiSide) : json :=
  JObj [("params", JArr ((fun p => typed_json (ap_Type p) (ap_Location p)) <$> ab_Params s));
        ("results", JArr ((fun p => typed_json (rl_Type p) (rl_Location p)) <$> ab_Results s));
        ("stack_args_size", JNum (ab_StackArgsSize s))].

Definition goFuncJSON (x : llFunc * goFunc) : json :=
  let '(d, f) := x in
  JObj [("name", JStr (ll_Name d)); ("ret", JStr (ll_Ret d)); ("ret_attrs", strings_json (ll_RetAttrs d)); ("ret_abi_attrs", strings_json (ll_RetABI d));
        ("params", strings_json (ll_Params d)); ("param_attrs", JArr (strings_json <$> ll_ParamAttrs d)); ("param_abi_attrs", JArr (strings_json <$> ll_ParamABI d));
        ("varargs", JBool (ll_Varargs d)); ("internal", JBool (ll_Internal d)); ("non_c_calling_convention", JBool (ll_NonC d));
        ("abi", JObj [("go", side_json (pl_Go (gf_plan f))); ("sysv", side_json (pl_SysV (gf_plan f)))]);
        ("go_signature", JStr (pl_GoSignature (gf_plan f))); ("outgoing", JNum (pl_Outgoing (gf_plan f))); ("impl", JStr (gf_Impl f))].

Definition goABIFile (r : goABIResult) : json := JObj [("functions", JArr (goFuncJSON <$> gr_Functions r)); ("skipped", strings_json (gr_Skipped r))].

(** The bytes of [goabi.json]. *)
Definition goabi_json (r : goABIResult) : list Z := bytes_of_string (marshalIndent (goABIFile r)).

(** ** A reader of the file *)

Definition get_str (v : json) : option string := match v with JStr s => Some s | _ => None end.
Definition get_num (v : json) : option Z := match v with JNum n => Some n | _ => None end.
Definition get_bool (v : json) : option bool := match v with JBool b => Some b | _ => None end.
Definition get_list {A} (f : json -> option A) (v : json) : option (list A) := match v with JArr l => mapM f l | _ => None end.

Fixpoint find_member (k : string) (l : list (string * json)) : option json :=
  match l with [] => None | (k', v) :: l => if String.eqb k k' then Some v else find_member k l end.

(** The member of a name. *)
Definition member {A} (k : string) (f : json -> option A) (v : json) : option A :=
  match v with JObj l => x ← find_member k l; f x | _ => None end.

Definition get_loc (v : json) : option loc :=
  k ← member "kind" get_str v;
  if String.eqb k "register" then RegLoc <$> member "register" get_str v else StkLoc <$> member "offset" get_num v.

Definition get_typed {A} (f : string -> loc -> A) (v : json) : option A := t ← member "type" get_str v; l ← member "location" get_loc v; Some (f t l).

Definition get_side (v : json) : option abiSide :=
  ps ← member "params" (get_list (get_typed mkParam)) v; rs ← member "results" (get_list (get_typed mkRes)) v; n ← member "stack_args_size" get_num v;
  Some (mkAbiSide ps rs n).

(** What the file tells of a function. *)
Record described := mkDescribed { ds_func : llFunc; ds_Go : abiSide; ds_SysV : abiSide; ds_GoSignature : string; ds_Outgoing : Z; ds_Impl : string }.

Definition get_strings : json -> option (list string) := get_list get_str.

Definition get_func (v : json) : option described :=
  name ← member "name" get_str v; ret ← member "ret" get_str v; ra ← member "ret_attrs" get_strings v; rb ← member "ret_abi_attrs" get_strings v;
  ps ← member "params" get_strings v; pa ← member "param_attrs" (get_list get_strings) v; pb ← member "param_abi_attrs" (get_list get_strings) v;
  va ← member "varargs" get_bool v; int ← member "internal" get_bool v; nc ← member "non_c_calling_convention" get_bool v;
  g ← member "abi" (member "go" get_side) v; s ← member "abi" (member "sysv" get_side) v;
  sig ← member "go_signature" get_str v; out ← member "outgoing" get_num v; impl ← member "impl" get_str v;
  Some (mkDescribed (mkLL name ret ra rb ps pa pb va int nc) g s sig out impl).

Definition get_file (v : json) : option (list described * list string) :=
  fs ← member "functions" (get_list get_func) v; sk ← member "skipped" get_strings v; Some (fs, sk).

Definition describe (x : llFunc * goFunc) : described :=
  let '(d, f) := x in mkDescribed d (pl_Go (gf_plan f)) (pl_SysV (gf_plan f)) (pl_GoSignature (gf_plan f)) (pl_Outgoing (gf_plan f)) (gf_Impl f).

Lemma get_list_map {A B} (f : json -> option A) (g : B -> json) (h : B -> A) l : (forall x, f (g x) = Some (h x)) -> get_list f (JArr (g <$> l)) = Some (h <$> l).
Proof. intros H. cbn. induction l as [|x l IH]; [done|]. cbn. rewrite H. cbn. by rewrite IH. Qed.

Lemma get_list_id {A} (f : json -> option A) (g : A -> json) l : (forall x, f (g x) = Some x) -> get_list f (JArr (g <$> l)) = Some l.
Proof. intros H. rewrite (get_list_map f g (fun x => x)) by done. by rewrite list_fmap_id. Qed.

Lemma get_strings_json l : get_strings (strings_json l) = Some l.
Proof. by apply get_list_id. Qed.

Lemma get_loc_json l : get_loc (loc_json l) = Some l.
Proof. by destruct l. Qed.

Lemma get_typed_json {A} (f : string -> loc -> A) t l : get_typed f (typed_json t l) = Some (f t l).
Proof. cbn. by destruct l. Qed.

Lemma get_side_json s : get_side (side_json s) = Some s.
Proof.
  unfold get_side, side_json, member. cbn -[get_list get_typed typed_json].
  rewrite (get_list_id _ _ (ab_Params s)) by (intros []; apply get_typed_json). cbn -[get_list get_typed typed_json].
  rewrite (get_list_id _ _ (ab_Results s)) by (intros []; apply get_typed_json). cbn. by destruct s.
Qed.

Lemma get_func_json x : get_func (goFuncJSON x) = Some (describe x).
Proof.
  destruct x as [d f]. unfold get_func, goFuncJSON, member. cbn -[get_list get_strings strings_json get_side side_json].
  rewrite !get_strings_json. cbn -[get_list get_strings strings_json get_side side_json].
  rewrite !(get_list_id get_strings strings_json) by apply get_strings_json. cbn -[get_list get_strings strings_json get_side side_json].
  rewrite !get_side_json. cbn. by destruct d.
Qed.

(** C37. The sidecar is lossless: a JSON reader that is given the bytes that [runGoABI] returns
    and [WriteGoABI] writes finds every rewritten function, in order, with its header as it was
    parsed, the locations of its parameters and results on both sides, its Go signature, its
    outgoing area and the name of its body, and every skipped name; whatever the names and
    types contain, as long as they are UTF-8. *)
Theorem goabi_json_roundtrip r : fine (goABIFile r) ->
  (parse_json (string_of_bytes (goabi_json r)) ≫= get_file) = Some (describe <$> gr_Functions r, gr_Skipped r).
Proof.
  intros Hf. unfold goabi_json. rewrite string_of_bytes_of_string, parse_marshal by done. cbn [mbind option_bind].
  unfold get_file, goABIFile, member. cbn -[get_list get_strings strings_json get_func goFuncJSON].
  rewrite (get_list_map get_func goFuncJSON describe) by apply get_func_json. cbn -[get_list get_strings strings_json].
  by rewrite get_strings_json.
Qed.

(** A module with a function that is taken and one that is not. *)
Definition demo_ll : string :=
  "define i32 @add(i32 noundef %a, double %b) {" +:+ nl +:+ "}" +:+ nl +:+ "define internal void @hidden() {" +:+ nl +:+ "}" +:+ nl.

Definition demo_sidecar : option goABIResult := match runGoABI demo_ll "amd64" false with Ok r => Some r | Fail _ => None end.

(** [all_in] decides for texts of ASCII characters. *)
Ltac ascii_only := cbn; repeat (split || apply ascii_utf8 || exact I || reflexivity).

Lemma goabi_json_roundtrip_witness : exists r, demo_sidecar = Some r /\ (ds_Impl <$> (describe <$> gr_Functions r)) = ["add.impl"] /\ gr_Skipped r = ["hidden"] /\
  fine (goABIFile r) /\ (parse_json (string_of_bytes (goabi_json r)) ≫= get_file) = Some (describe <$> gr_Functions r, gr_Skipped r).
Proof.
  eexists. split; [vm_compute; reflexivity|]. split; [reflexivity|]. split; [reflexivity|].
  match goal with |- fine (goABIFile ?r) /\ _ => assert (Hf : fine (goABIFile r)) by ascii_only end.
  split; [exact Hf | apply goabi_json_roundtrip, Hf].
Defined.
